(* ===== verification/_CoqProject ===== *)
-Q . S2P
Prelude.v
RustStr.v
RustChar.v
KeyChord.v
Keytip.v
KeytipTree.v
ShellCommands.v
Modals.v
AltOverlay.v
SessionOutline.v
RowSet.v
RowSetOutline.v
AgentRegistry.v
ScreenState.v
AgentLaunch.v
AgentStore.v
AgentExtraArgs.v
AgentScheme.v
LiveOrder.v
RowOrderLedger.v
Tombstones.v
HotRestartQueue.v
PtyHandoff.v
OwnershipLedger.v
HandoffSweep.v
WpeJson.v
PngFormat.v
WpeFrame.v
ClickGrid.v
InputArbiter.v
HandoverGate.v
ResumeGate.v
RevealCover.v
ScrollMode.v
PeerAdmission.v
YnpmVersion.v
YnpmStore.v
WebCollection.v
HotRestartRepair.v
WebHistory.v
RustText.v
SessionTenancy.v
RowTenants.v
Calendar.v
Automation.v
AutomationUnits.v
ProfileLock.v
