(* ===== verification/Prelude.v ===== *)
(** * A verification of yggterm's session core, its shell gates and its web engine's data

    yggterm is a terminal for long-lived agent sessions.  A daemon per machine
    (src/crates/yggterm-server) owns the sessions; a window (src/crates/yggterm-shell) shows
    them as a list of rows, the Live Sessions; what both agree on is a library
    (src/crates/yggterm-core); rows may also show web pages, through an engine of its own
    (src/crates/yggterm-wpe).  Several daemons of different versions may run at once and share
    the files of one home; a newer one takes the terminals over from an older.  A tool of its own
    (src/crates/ynpm) installs the programs that run in the sessions.  This development models the
    parts that decide what a row is, where it stands, what it belongs to and whether it survives,
    how a terminal passes from daemon to daemon, what may be typed or painted into a row, which
    keys reach what, the data that crosses to the web engine, and what is installed, as executable
    definitions, and proves what makes each correct.

    ** The parts and the files that model them

    Shared:
    - [Prelude]: scope, tactics and hint database; saturating machine integers; [Result];
      positions, insertion and removal in a [Vec]; deduplication; orders as boolean functions
      ([BoolOrder], with its instances for keys) and the stable sort every [sort_by] uses.
    - [RustStr]: the [str] operations the code calls, on byte strings: trimming with Unicode
      white space, splitting, prefixes, search, lines, decimal numbers, the byte order.
    - [RustChar]: the [char] operations, and text as a list of code points.
    - [RustText]: the [str] operations on such texts, and the texts of UTF-8 strings.

    Rows and what they belong to (yggterm-core):
    - [SessionOutline] (session_outline.rs): seat numbers such as 1.2.0: parsing, the canonical
      spelling, the next free child, sorting rows by seat.
    - [RowSet] (row_set.rs): which row heads a group and which are its members: attaching,
      detaching, dissolving, dropping dead rows, loading a saved file, drawing.
    - [RowSetOutline] (row_set_outline.rs): the arrangement the sidebar shows, from what the
      user did by hand and what the seats imply; uses both of the above.

    Agent programs (yggterm-core):
    - [AgentRegistry] (session_kind.rs, agent_cli.rs): the kinds of session, the table of
      descriptors and the queries over it, birth titles.
    - [ScreenState] (agent_cli.rs, lib.rs, screen_state.rs): what a program's screen shows, and
      which states allow typing.
    - [AgentLaunch] (cli_args.rs, agent_cli.rs): the flags of one launch and the removal of
      those they override.
    - [AgentStore] (agent_cli.rs): paths of the programs' stores and the globs over them.
    - [AgentExtraArgs] (core lib.rs, server lib.rs, managed_cli/mod.rs): the arguments a program is
      configured with, what one launch takes out of them through [AgentLaunch] and adds, and the quoting
      of the lot onto a shell command.
    - [AgentScheme] (agent_scheme.rs, server lib.rs): the schemes of session paths, remote
      paths, and the identity a row has across daemons.

    The daemon (yggterm-server):
    - [LiveOrder] (lib.rs): resolving a path to a row, reordering, seating a new row.  It gives
      the order to other modules through the class [OrderWriter].
    - [RowOrderLedger] (row_order_ledger.rs): the remembered slots; it restores the order
      through [OrderWriter], and its theorem holds for every instance of it.
    - [Tombstones] (live_row_tombstones.rs, lib.rs, daemon.rs): the closes and departures all
      daemons of a host share, and many daemons acting on the one file.
    - [HotRestartQueue] (hot_restart_queue.rs, daemon.rs): the one swap a host owes and the
      polls by which a retiring daemon drains it.
    - [HotRestartRepair] (hot_restart_repair.rs, daemon.rs): which sessions the daemon that takes over
      may still tell to continue after a swap that dropped them.
    - [PtyHandoff] (pty_handoff.rs, pty_handoff_wire.rs, terminal.rs, daemon.rs): one terminal sent
      from the old daemon to the new: both ends as programs over a stream, every interleaving.
    - [OwnershipLedger] (ownership_ledger.rs): who holds which session across a handoff.
    - [HandoffSweep] (daemon.rs): the sweep that sends every terminal with its retries, the settle,
      and the round in which the old daemon exits; each send is a run of [PtyHandoff], and the books
      go into [OwnershipLedger].
    - [PeerAdmission] (lib.rs, daemon.rs): which saved rows and which rows of other daemons become
      rows here, the key each lands under, and the walk that places them.  It asks [Tombstones]
      for the closes and [AgentScheme] for identities, and moves rows through [LiveOrder]; its
      theorem on placement is stated with the weave of [RowOrderLedger].
    - [SessionTenancy] (session_tenancy.rs, lib.rs, daemon.rs): who created a row and how long it may
      stay: the stamps in its metadata, the verb that declares them, and the reaper.  The pass of the
      reaper is written against the class [SessionTenancy.EphemeralReapHost], which the daemon's host implements.
    - [RowTenants] (session_tenancy.rs, lib.rs, daemon.rs): what runs below a row's terminal, read from
      /proc, and whether the row may be offered for clearing.
    - [Calendar] (automation.rs): the subset of systemd's calendars: reading, writing, the occurrences
      before and after an instant.
    - [Automation] (automation.rs, automation_cli.rs, daemon.rs): agent sessions on a schedule: the
      executor of a run, the verbs that change the store and the daemon's tick, which takes the answer of
      the reaper of [SessionTenancy].  Due instants come from [Calendar].
    - [ProfileLock] (profile_write_lock.rs, daemon.rs, web_profile.rs, shell/state.rs): the one writer of a
      web profile: the table of the daemon, the windows and shadows that claim before they open a page, and
      the popups they adopt without a claim.
    - [AutomationUnits] (automation_units.rs, automation_cli.rs): the timer files generated from the
      store of [Automation], and the synchronisation of their directory.

    The window (yggterm-shell) and the grid of codes it draws (yggterm-core):
    - [InputArbiter] (agent_input_arbiter.rs, shell/state.rs): whether an agent or the human
      drives a page: the gate in front of each of an agent's verbs, and the look at the seat that a batch
      takes between its actions.
    - [HandoverGate] (handover_gate.rs): painting held back while a daemon hands over.
    - [ResumeGate] (resume_gate.rs): input held back while a remote session resumes.
    - [RevealCover] (reveal_cover.rs, shell/viewport.rs): the live bytes of a reveal held until a
      full frame is there.
    - [ScrollMode] (scroll_mode.rs): where the viewport belongs after each event.
    - [ClickGrid] (click_grid.rs): the codes of the cells of a click grid.
    - [KeyChord], [Keytip], [KeytipTree] (keytip.rs): chords; the letters a scope hands out; the tree
      that is painted and walked.
    - [ShellCommands] (command_registry.rs, keytip.rs, shell/state.rs): the commands, the user's
      keymap with its file, and the editor that rebinds them.
    - [Modals] (shell/state.rs, shell/right_rail.rs): which dialog owns the keys.
    - [AltOverlay] (shell/state.rs): the machine that turns keys into actions.  It walks the tree of
      [KeytipTree], runs commands of [ShellCommands], opens [Modals], and reaches the rest of the
      shell through the class [Shell].

    The web engine (yggterm-wpe):
    - [WpeJson] (json.rs): the reader and writer of the messages to the engine's process.
    - [WpeFrame] (frame.rs, png.rs): frames read back, cropped and encoded.  What it is to write a PNG
      file is said by [PngFormat], a reader and its checksums written from the formats alone.

    Web pages (yggterm-core):
    - [WebCollection] (web_collection.rs): collections of links in folders, as markdown files and as
      the outline they mean.
    - [WebHistory] (web_history.rs): the journal of visits, and the import of another program's.

    The package tool (ynpm):
    - [YnpmVersion] (main.rs): package names, storage keys, versions and the decisions about them.
    - [YnpmStore] (main.rs): entries, generations and published links; the channels of installation,
      development builds, rollback, removal, upgrade and the sweep.  Its commands are a step
      relation over the store; it asks [YnpmVersion] to compare and [AgentRegistry] for the
      integrated programs.

    ** How state and effects are modelled

    State is passed explicitly; an operation that mutates returns the new state, with what the
    code returns beside it.  A hash map is a [gmap], a hash set a [gset]; where the code walks
    one in its own order, the order is an argument or is sorted away as in the code.  A shared
    file is a value; each write carries whether it lands, since the code mostly goes on when it
    does not.  Where several daemons use a file without a lock ([HotRestartRepair]), reading it and writing
    it are two steps, and others may come between; a file written in place ([AutomationUnits]) may break
    with a part of it written.  Unsigned integers are [N]; saturating operations clamp, and the places where the
    code adds without a check are named in the file that models them.  Clocks, the liveness of
    processes, the answers of other daemons and serialisation are arguments.  Floating-point
    arithmetic is a class ([WpeJson.F64], [ClickGrid.Arith]) whose laws, where a theorem needs
    any, are named hypotheses with a concrete instance; so are uuids ([PeerAdmission.UuidLaws]) and
    the JSON of a handoff ([PtyHandoff.Wire], with [PtyHandoff.Tagged] as its instance) and that of a
    visit ([WebHistory.Json]), the seconds a processor has spent ([RowTenants.Seconds]) and dates
    ([Calendar.Time], whose laws are [Calendar.TimeLaws] and whose instance is [Calendar.Civil]).  The two ends
    of a handoff are a free monad of calls, stepped against each other with the stream between them;
    a stream may break, stall or time out at any step, and what a broken write has sent runs on into the
    next line.  The state machines of the window are a step per event, run over any sequence of events.

    ** What the theorems show

    - Containment: the row sets keep a forest under every operation, an operation refuses
      exactly what would break it, and drawing shows each row once, under its head, unless a
      shut head hides it.
    - Seats: the canonical spelling, fresh child numbers, a stable total sort; the sidebar's
      row sets put a gesture before a seat.
    - Order: every operation on the live order keeps its rows without repetition; recording and
      restoring an order give it back; a returning row lands below its nearest predecessor.
    - Memory of closes: a recorded close survives any interleaving of the daemons' steps for
      its lifetime; contested closes do not expire; the file stays bounded.
    - Handoff: the queue never weakens what is owed; a daemon that handed off to a newer build
      cannot fall into the cold shutdown; lookups in the ownership ledger answer from the
      newest true record.
    - Terminals: whatever breaks between the two ends of a handoff, one that is told the terminal was
      adopted has given it away and it is seated, and one that is told an error knows whether it left;
      adopting takes nothing from a running child; the sweep ends within its budget and settles every
      terminal; a daemon that exits has had every terminal of its own acknowledged and seated in a send of
      that round, or refused for the seat's sake in one.
    - Repair: where every write lands on what its operation read, a session is told to continue at most once
      per swap that interrupted it; and always by another daemon than the record names, within the window of
      a swap.
    - Admission: no pass over other daemons and no restore of a saved list brings back a row whose
      close is remembered, whatever spelling it comes under; a row's key is settled by one
      restore; an import is the ledger's own weave of our order with the peer's.
    - Tenancy: a pass of the reaper closes exactly the rows whose declaration is due, for the reason that
      holds; what a create declares is read back; a row is offered for clearing only when nothing but its
      agent runs there; a report counts the tree of processes once each, whatever the parents say.
    - Automations: a calendar that is read is written back as itself; eight days of search find the
      nearest occurrences exactly; a run acts exactly when it is due, in a week of its cadence, and within
      the grace; the open runs of an automation hold one session, through every sequence of runs, ticks
      and edits; a tick closes exactly what is gone, loses no notice and is settled at once; the
      synchronisation of the timers touches generated, unreadable and absent files only, and pruned leaves no
      generated file that no enabled automation claims.
    - Profiles: under one daemon two active clients have pages open on the same jar only after a claim of one
      of them was not answered or a popup of its went by another profile than its opener's, and a shadow's
      verb passes only while no active client has one there, with the same exceptions.
    - Gates: once the human has taken a page no verb of the agent's batch passes until the page or
      the batch is new, and the gate's answers are those of the history alone; painting is never
      held past its ceiling, nor twice for one handover; a cover loses no byte and keeps the order.
    - Keys: the tips of a scope are a code, so a typed sequence means one thing; what is painted is
      what can be typed; derived letters shadow nothing declared; a badge does what it says, a dialog
      hides the shell behind it, and a chord that is shown works; the keymap survives its file.
    - Packages: versions are read and totally ordered; npm's bytes are published only after they
      answered, and discovery never goes back; a sweep breaks no link and no entry; a rollback of a
      whole production package is always refused.
    - Web pages: an edit of a collection file is the edit of its outline, and what was written is read
      back; an import leaves the journal in the order of the visits, and a second one adds nothing.
    - Data: JSON, PNG and grid codes round-trip against independent readers; the JSON reader
      always returns; a crop is the overlap; the checksums are those of the PNG and zlib formats.
    - Agent programs: the descriptor table is well formed, the screen states have a fixed
      precedence and allow typing only where nothing waits, launch flags replace exactly what
      they override and reach the program as the words they are, globs match as their specification says, remote paths round-trip.

    Some theorems prove that the code does not do what it says: a departure recorded at the cap
    is lost, a stale ledger record takes a true one with it, a handoff to an unnamed version
    leaves the daemon unprotected, one program's start-up gate is never recognised, the closes of
    re-keyed rows are not renewed, a daemon change that moved nothing leaves the paint gate armed,
    arming a cover again drops what it holds, a terminal that has moved may be read by two daemons
    after a partial sweep, rolling a package back never goes back, an
    address with a closing parenthesis is cut, an old repair record is revived by the next swap,
    an answer about a row that runs elsewhere forgets where, a timer that fires early is skipped as late, an open run is
    pushed out of its record by skips, a new title makes a generated file look edited, and a file edited by hand is
    overwritten once its record changes, a displaced shadow goes on opening pages on the jar it lost, a popup outlives the lock of its jar, two daemons
    that repair at once tell a session twice, and a unit file that broke while it was written is taken for
    the user's.  Each is stated in the file that models the code.

    ** Fuel

    Drawing ([RowSet.push_visible]) nests at most once per head and gets two more than their
    number.  Counting descendants ([RowSet.descend]) pushes each membership entry once and gets
    two more than those; [RowSet.descend_total] proves it returns.  [RowOrderLedger.cap_rows]
    gets the length of its list: each round removes a row or truncates to the cap.  Trimming
    and splitting get the length of their string.  The JSON reader gets four times the length of
    its input and four more, since each of its functions consumes a character within four calls;
    [WpeJson.parse_returns] proves that it returns.  A row label gets the bit length of its
    number, and [WpeFrame.chunks] the length of its list.  The chord of a command
    looks at its parent's at most ([ShellCommands.chord_for_id] gets two); a free number is looked for
    one time more than numbers are used ([Keytip.next_free]); a sequence of tips is walked with its own
    length, since a tip consumes a character; the words of an answer get the length of their string and one.
    A handoff's end reads at most two lines.  A sweep sends one terminal at most
    [HandoffSweep.RETRY_FUEL] times, which is the first send, three dials of itself, one send per
    pause of its budget and one more; [HandoffSweep.sweep_settles_every_terminal] proves it settles
    before that.  The settle polls get the length of their window over the pause and two.
    A walk of processes gets two more than the children that are listed ([RowTenants.Snapshot.walk_fuel]):
    each process is met once.  A range of weekdays has at most seven; an occurrence is looked for in eight days, which
    [Calendar.occurrences_are_exact] proves enough, and a working one among sixty-four candidates, as in
    the code.

    ** What is not modelled, and the order of what comes next

    Sockets, threads, process control, terminal emulation, rendering and the readers of other
    programs' stores are input and output.  The fallback that proceeds without the lock of the
    tombstone file is not modelled.  Of a restored row the view (its title, launch command and
    metadata) is a parameter of [PeerAdmission], and the takeover from an older daemon is modelled
    only in the walk and the admission it shares with the adoption pass.  Of the package tool, menu
    entries, the installer of yggterm's own releases, transfers between hosts, the scratch and cache
    sweeps and the shadows on the search path are not modelled, and nothing that reads or writes there
    fails midway.  Of an automation the wire of a session that is opened and the lock its store does not
    have are left out; the file of its store is a value that loads or does not.  Left for later: the
    shell's update, replay and session-copy policies, the wire of the web engine's agent, web find,
    the collections and sidecars of profiles, and the reports on host anomalies; each is small beside what
    is modelled, and depends on it nowhere. *)
From stdpp Require Export base decidable gmap sets list strings sorting numbers relations.
From Stdlib Require Export Lia.

(** ** Scope, tactics and hint databases *)

Declare Scope yggterm_scope.
Delimit Scope yggterm_scope with ygg.

Create HintDb ygg.

(** Case analysis on every [decide], [if] and [match] of the goal, closing the
    branches that arithmetic or congruence settles. *)
Ltac step_cases :=
  repeat (first [case_decide | case_match]; simplify_eq/=);
  try (first [done | lia | congruence]).

(** Split a conjunction-heavy goal and finish each side with the local hints. *)
Ltac split_auto := repeat split; eauto with ygg; try done; try lia.

(** ** Machine integers

    Unsigned Rust integers are [N]; [N.sub] is [saturating_sub].  Additions that
    the code performs with [saturating_add] clamp at the width. *)
Definition u64_max : N := 18446744073709551615.
Definition u32_max : N := 4294967295.

Definition sat_add (width_max a b : N) : N := N.min width_max (a + b).

Lemma sat_add_le w a b : (sat_add w a b <= w)%N.
Proof. unfold sat_add. lia. Qed.

Lemma sat_add_mono w a b : (a <= w -> a <= sat_add w a b)%N.
Proof. unfold sat_add. lia. Qed.

#[export] Hint Resolve sat_add_le sat_add_mono : ygg.

(** ** Fallible code: [Result<A, E>] *)
Inductive result (A E : Type) : Type :=
| Ok (value : A)
| Err (error : E).
Arguments Ok {A E} _.
Arguments Err {A E} _.

Definition is_Some_b {A} (o : option A) : bool :=
  match o with Some _ => true | None => false end.

(** ** Slices: [iter().position], [iter().rposition], [Vec::insert], [Vec::remove] *)

Section position.
Context {A : Type} (f : A -> bool).

Fixpoint position (l : list A) : option nat :=
  match l with
  | [] => None
  | x :: l' => if f x then Some 0 else S <$> position l'
  end.

Fixpoint rposition (l : list A) : option nat :=
  match l with
  | [] => None
  | x :: l' =>
    match rposition l' with
    | Some i => Some (S i)
    | None => if f x then Some 0 else None
    end
  end.

Lemma position_Some l i :
  position l = Some i <->
  exists x, l !! i = Some x /\ f x = true /\
    forall j y, j < i -> l !! j = Some y -> f y = false.
Proof.
  revert i. induction l as [|x l IH]; intros i; simpl.
  - split; [done|]. intros (?&H&_). by rewrite lookup_nil in H.
  - destruct (f x) eqn:Hx.
    + split.
      * intros [= <-]. exists x. repeat split; [done|]. intros; lia.
      * intros (y&Hi&Hy&Hall). destruct i as [|i]; [done|].
        specialize (Hall 0 x ltac:(lia) eq_refl). congruence.
    + destruct (position l) as [k|] eqn:Hp; simpl.
      * split.
        -- intros [= <-]. destruct (proj1 (IH k) eq_refl) as (y&Hk&Hy&Hall).
           exists y. split; [done|]. split; [done|]. intros [|j] z Hj Hz; simpl in *.
           ++ congruence.
           ++ eapply Hall; [|done]. lia.
        -- intros (y&Hi&Hy&Hall). destruct i as [|i]; simpl in Hi; [congruence|].
           f_equal. enough (Some k = Some i) by congruence. apply IH.
           exists y. split; [done|]. split; [done|].
           intros j z Hj Hz. apply (Hall (S j)); [lia|done].
      * split; [done|]. intros (y&Hi&Hy&Hall).
        destruct i as [|i]; simpl in Hi; [congruence|].
        enough (None = Some i) by done. apply IH.
        exists y. split; [done|]. split; [done|].
        intros j z Hj Hz. apply (Hall (S j)); [lia|done].
Qed.

Lemma position_lt l i : position l = Some i -> i < length l.
Proof. intros (x&Hx&_)%position_Some. by eapply lookup_lt_Some. Qed.

Lemma position_None l : position l = None <-> Forall (fun x => f x = false) l.
Proof.
  induction l as [|x l IH]; simpl; [done|].
  rewrite Forall_cons, <- IH. destruct (f x); [naive_solver|].
  destruct (position l); naive_solver.
Qed.

Lemma rposition_Some l i :
  rposition l = Some i -> exists x, l !! i = Some x /\ f x = true.
Proof.
  revert i. induction l as [|x l IH]; intros i; simpl; [done|].
  destruct (rposition l) as [k|]; [intros [= <-]; by apply IH|].
  destruct (f x) eqn:?; [|done]. intros [= <-]. by exists x.
Qed.

Lemma rposition_None l : rposition l = None <-> Forall (fun x => f x = false) l.
Proof.
  induction l as [|x l IH]; simpl; [done|].
  rewrite Forall_cons, <- IH. destruct (rposition l); [naive_solver|].
  destruct (f x); naive_solver.
Qed.
End position.

(** [Vec::insert(i, x)] for [i <= len] and [Vec::remove(i)] for [i < len]. *)
Definition vec_insert {A} (i : nat) (x : A) (l : list A) : list A :=
  take i l ++ x :: drop i l.

Definition vec_remove {A} (i : nat) (l : list A) : list A :=
  take i l ++ drop (S i) l.

Lemma vec_insert_perm {A} i (x : A) l : vec_insert i x l ≡ₚ x :: l.
Proof.
  unfold vec_insert. rewrite <- Permutation_middle, take_drop. done.
Qed.

Lemma vec_remove_perm {A} i (x : A) (l : list A) :
  l !! i = Some x -> x :: vec_remove i l ≡ₚ l.
Proof.
  intros H. unfold vec_remove. rewrite Permutation_middle.
  by rewrite take_drop_middle.
Qed.

Lemma vec_remove_length {A} i (l : list A) :
  i < length l -> S (length (vec_remove i l)) = length l.
Proof. intros H. unfold vec_remove. rewrite length_app, length_take, length_drop. lia. Qed.

Lemma vec_remove_filter {A : Type} (P : A -> Prop) `{!forall x, Decision (P x)} i x (l : list A) :
  l !! i = Some x -> ¬ P x -> filter P (vec_remove i l) = filter P l.
Proof.
  intros Hix HP. unfold vec_remove.
  rewrite <- (take_drop_middle l i x Hix) at 3.
  rewrite !filter_app, filter_cons_False by done. done.
Qed.

Lemma lookup_map {A B} (f : A -> B) (l : list A) i : map f l !! i = f <$> l !! i.
Proof. apply list_lookup_fmap. Qed.

Lemma list_filter_all {A} (P : A -> Prop) `{!forall x, Decision (P x)} (l : list A) :
  (forall x, x ∈ l -> P x) -> filter P l = l.
Proof.
  induction l as [|x l IH]; intros Hall; [done|].
  rewrite filter_cons_True by (apply Hall; left). f_equal. apply IH. intros; apply Hall; by right.
Qed.

Lemma list_filter_none {A} (P : A -> Prop) `{!forall x, Decision (P x)} (l : list A) :
  (forall x, x ∈ l -> ~ P x) -> filter P l = [].
Proof.
  induction l as [|x l IH]; intros Hall; [done|].
  rewrite filter_cons_False by (apply Hall; left). apply IH. intros; apply Hall; by right.
Qed.

Lemma list_filter_iff_mem {A} (P Q : A -> Prop) `{!forall x, Decision (P x)}
    `{!forall x, Decision (Q x)} (l : list A) :
  (forall x, x ∈ l -> P x <-> Q x) -> filter P l = filter Q l.
Proof.
  induction l as [|y l IH]; intros Hl; [done|]. rewrite !filter_cons.
  rewrite IH by (intros; apply Hl; by right). specialize (Hl y ltac:(left)).
  destruct (decide (P y)), (decide (Q y)); tauto || done.
Qed.

Lemma elem_of_filter_bool {A} (p : A -> bool) (l : list A) x : x ∈ List.filter p l <-> x ∈ l /\ p x = true.
Proof. rewrite !list_elem_of_In. apply List.filter_In. Qed.

Lemma StronglySorted_filter {A} (R : A -> A -> Prop) (P : A -> Prop)
    `{!forall x, Decision (P x)} (l : list A) :
  StronglySorted R l -> StronglySorted R (filter P l).
Proof.
  induction 1 as [|x l Hs IH Hf]; [constructor|]. rewrite filter_cons. case_decide; [|done].
  constructor; [done|]. rewrite Forall_forall in *. intros y [_ Hy]%list_elem_of_filter. by apply Hf.
Qed.

Lemma vec_remove_lookup {A} i j (l : list A) :
  i < length l -> vec_remove i l !! j = if decide (j < i) then l !! j else l !! S j.
Proof.
  intros Hi. unfold vec_remove. case_decide.
  - rewrite lookup_app_l by (rewrite length_take; lia). by rewrite lookup_take_lt.
  - rewrite lookup_app_r by (rewrite length_take; lia). rewrite length_take, lookup_drop.
    f_equal. lia.
Qed.

Lemma vec_insert_filter {A} (P : A -> Prop) `{!forall x, Decision (P x)} i x (l : list A) :
  ~ P x -> filter P (vec_insert i x l) = filter P l.
Proof.
  intros HP. unfold vec_insert. rewrite filter_app, filter_cons_False by done.
  by rewrite <- filter_app, take_drop.
Qed.

Lemma vec_remove_sublist {A} i (l : list A) : vec_remove i l `sublist_of` l.
Proof.
  unfold vec_remove. rewrite <- (take_drop i l) at 3.
  apply sublist_app; [done|].
  replace (drop (S i) l) with (drop 1 (drop i l)) by (rewrite drop_drop; f_equal; lia).
  apply sublist_drop.
Qed.

(** ** Keeping the first occurrence: the [HashSet::insert] guard of the loops *)
Section dedup.
Context {A : Type} `{EqDecision A}.

Fixpoint dedup_from (seen l : list A) : list A :=
  match l with
  | [] => []
  | x :: l' =>
    if decide (x ∈ seen) then dedup_from seen l'
    else x :: dedup_from (x :: seen) l'
  end.

Definition dedup (l : list A) : list A := dedup_from [] l.

Lemma elem_of_dedup_from seen l x :
  x ∈ dedup_from seen l <-> x ∈ l /\ x ∉ seen.
Proof.
  revert seen. induction l as [|y l IH]; intros seen; simpl; [set_solver|].
  case_decide.
  - rewrite IH. set_solver.
  - rewrite elem_of_cons, IH. destruct (decide (x = y)) as [->|]; set_solver.
Qed.

Lemma NoDup_dedup_from seen l : NoDup (dedup_from seen l).
Proof.
  revert seen. induction l as [|y l IH]; intros seen; simpl; [constructor|].
  case_decide; [done|]. constructor; [|done].
  rewrite elem_of_dedup_from. set_solver.
Qed.

Lemma elem_of_dedup l x : x ∈ dedup l <-> x ∈ l.
Proof. unfold dedup. rewrite elem_of_dedup_from. set_solver. Qed.

Lemma NoDup_dedup l : NoDup (dedup l).
Proof. apply NoDup_dedup_from. Qed.

Lemma dedup_from_id seen l :
  NoDup l -> (forall x, x ∈ l -> x ∉ seen) -> dedup_from seen l = l.
Proof.
  revert seen. induction l as [|y l IH]; intros seen Hnd Hdisj; simpl; [done|].
  apply NoDup_cons in Hnd as [Hy Hnd]. rewrite decide_False by set_solver.
  f_equal. apply IH; [done|]. set_solver.
Qed.

Lemma dedup_from_ext s1 s2 l :
  (forall x, x ∈ s1 <-> x ∈ s2) -> dedup_from s1 l = dedup_from s2 l.
Proof.
  revert s1 s2. induction l as [|y l IH]; intros s1 s2 Hs; simpl; [done|].
  destruct (decide (y ∈ s1)); [rewrite decide_True by by apply Hs|
    rewrite decide_False by (by rewrite <- Hs)]; [by apply IH|].
  f_equal. apply IH. set_solver.
Qed.

Lemma dedup_from_filter seen l :
  NoDup l -> dedup_from seen l = filter (fun x => x ∉ seen) l.
Proof.
  revert seen. induction l as [|y l IH]; intros seen Hnd; simpl; [done|].
  apply NoDup_cons in Hnd as [Hy Hnd]. rewrite filter_cons. case_decide.
  - rewrite decide_False by (intros ?; done). by apply IH.
  - rewrite decide_True by done. f_equal. rewrite IH by done.
    apply list_filter_iff_mem. intros x Hx. set_solver.
Qed.

Lemma dedup_id l : NoDup l -> dedup l = l.
Proof. intros. apply dedup_from_id; set_solver. Qed.

Lemma dedup_from_sorted (R : A -> A -> Prop) seen l : StronglySorted R l -> StronglySorted R (dedup_from seen l).
Proof.
  intros Hs. revert seen. induction Hs as [|x l Hs IH Hall]; intros seen; simpl; [constructor|].
  case_decide; [done|]. constructor; [done|]. rewrite Forall_forall in Hall |- *.
  intros y [Hy _]%elem_of_dedup_from. by apply Hall.
Qed.
End dedup.
#[export] Hint Resolve NoDup_dedup NoDup_dedup_from : ygg.

(** ** Orders as boolean functions: what a sort needs of a comparison *)
Class BoolOrder {A} (leb : A -> A -> bool) : Prop := {
  bool_order_total : forall x y, leb x y = true \/ leb y x = true;
  bool_order_trans : forall x y z, leb x y = true -> leb y z = true -> leb x z = true
}.

#[export] Instance nat_leb_order : BoolOrder Nat.leb.
Proof. split; intros; rewrite ?Nat.leb_le in *; lia. Qed.

#[export] Instance N_leb_order : BoolOrder N.leb.
Proof. split; intros; rewrite ?N.leb_le in *; lia. Qed.

(** Comparing by a key: [sort_by_key]. *)
#[export] Instance by_key_order {A B} (leb : B -> B -> bool) (key : A -> B) `{!BoolOrder leb} :
  BoolOrder (fun x y => leb (key x) (key y)).
Proof. split; intros; [apply bool_order_total|by eapply bool_order_trans]. Qed.

(** ** Stable sorting: [slice::sort], [sort_by_key], [sort_by] *)
Section stable_sort.
Context {A : Type} (leb : A -> A -> bool).

Fixpoint sort_insert (x : A) (l : list A) : list A :=
  match l with
  | [] => [x]
  | y :: l' => if leb x y then x :: y :: l' else y :: sort_insert x l'
  end.

Definition ordered (l : list A) : Prop := StronglySorted (fun x y => leb x y = true) l.

Definition stable_sort (l : list A) : list A := foldr sort_insert [] l.

Lemma sort_insert_perm x l : sort_insert x l ≡ₚ x :: l.
Proof.
  induction l as [|y l IH]; simpl; [done|].
  destruct (leb x y); [done|]. rewrite IH. apply Permutation_swap.
Qed.

Lemma stable_sort_perm l : stable_sort l ≡ₚ l.
Proof. induction l as [|x l IH]; simpl; [done|]. by rewrite sort_insert_perm, IH. Qed.

Lemma length_stable_sort l : length (stable_sort l) = length l.
Proof. by rewrite stable_sort_perm. Qed.

Lemma elem_of_stable_sort x l : x ∈ stable_sort l <-> x ∈ l.
Proof. by rewrite stable_sort_perm. Qed.

Context `{!BoolOrder leb}.

Lemma sort_insert_sorted x l : ordered l -> ordered (sort_insert x l).
Proof using BoolOrder0.
  induction l as [|y l IH]; simpl; intros Hs; [repeat constructor|].
  apply StronglySorted_inv in Hs as [Hs Hall]. destruct (leb x y) eqn:Hxy.
  - constructor; [by constructor|]. constructor; [done|].
    eapply Forall_impl; [exact Hall|]. intros z Hz. by eapply bool_order_trans.
  - constructor; [by apply IH|]. rewrite (sort_insert_perm x l).
    constructor; [|done]. destruct (bool_order_total x y); congruence.
Qed.

Lemma stable_sort_sorted l : ordered (stable_sort l).
Proof using BoolOrder0.
  induction l; simpl; [constructor|]. by apply sort_insert_sorted.
Qed.

Lemma stable_sort_id l : ordered l -> stable_sort l = l.
Proof.
  induction l as [|x l IH]; simpl; [done|].
  intros [Hs Hall]%StronglySorted_inv. rewrite IH by done.
  destruct l as [|y l]; simpl; [done|]. apply Forall_cons in Hall as [-> _]. done.
Qed.

Lemma stable_sort_idemp l : stable_sort (stable_sort l) = stable_sort l.
Proof using BoolOrder0. apply stable_sort_id, stable_sort_sorted. Qed.

(** Elements that compare equal keep their relative order. *)
Lemma stable_sort_stable (P : A -> Prop) `{!forall x, Decision (P x)} l :
  (forall x y, P x -> P y -> leb x y = true) ->
  filter P (stable_sort l) = filter P l.
Proof.
  intros HP. induction l as [|x l IH]; simpl; [done|].
  assert (forall k, filter P (sort_insert x k) = filter P (x :: k)) as Hins.
  { induction k as [|y k IHk]; simpl; [done|].
    destruct (leb x y) eqn:Hxy; [done|].
    destruct (decide (P y)) as [Hy|Hy].
    - assert (¬ P x) as Hx by (intros Hx; specialize (HP x y Hx Hy); congruence).
      rewrite filter_cons_True, IHk by done.
      by rewrite (filter_cons_False P x k), filter_cons_False, filter_cons_True by done.
    - rewrite filter_cons_False, IHk by done. rewrite !(filter_cons P x).
      by rewrite (filter_cons_False P y k) by done. }
  rewrite Hins, !filter_cons, IH. done.
Qed.
End stable_sort.

(** Two sorted lists with the same elements agree when equal keys mean equal
    elements; this is what makes a sort by a unique rank deterministic. *)
Lemma sorted_unique {A} (leb : A -> A -> bool) (l1 l2 : list A) :
  (forall x y, x ∈ l1 -> y ∈ l1 -> leb x y = true -> leb y x = true -> x = y) ->
  ordered leb l1 -> ordered leb l2 ->
  l1 ≡ₚ l2 -> l1 = l2.
Proof.
  revert l2. induction l1 as [|x l1 IH]; intros l2 Hanti H1 H2 Hp.
  - by apply Permutation_nil in Hp as ->.
  - destruct l2 as [|y l2]; [symmetry in Hp; by apply Permutation_nil in Hp|].
    apply StronglySorted_inv in H1 as [H1 F1], H2 as [H2 F2].
    rewrite Forall_forall in F1, F2.
    assert (x = y) as ->.
    { assert (y ∈ x :: l1) as Hy by (rewrite Hp; left).
      assert (x ∈ y :: l2) as Hx by (rewrite <- Hp; left).
      apply elem_of_cons in Hy as [->|Hy]; [done|].
      apply elem_of_cons in Hx as [->|Hx]; [done|].
      apply Hanti; [left|by right|by apply F1|by apply F2]. }
    f_equal. apply IH; [|done|done|].
    + intros ????. apply Hanti; by right.
    + by apply Permutation_cons_inv in Hp.
Qed.
