(* ===== verification/RustStr.v ===== *)
(** The parts of [str] and of integer parsing that the modelled code uses.

    A Rust [String] is a [string] of its UTF-8 bytes, so [==], [Ord] (bytewise),
    [starts_with] and [split] on an ASCII separator act on bytes as in Rust.
    [trim] removes the characters with the Unicode property White_Space, here by
    their UTF-8 byte sequences. *)
From S2P Require Import Prelude.
From Stdlib Require Export Ascii String NArith.
#[local] Open Scope N_scope.

Definition byte_of (a : ascii) : N := N_of_ascii a.

(** ** White space *)

Definition in_range (lo hi c : N) : bool := (lo <=? c) && (c <=? hi).

Definition ascii_ws (c : N) : bool := in_range 9 13 c || (c =? 32).

Definition ws2 (c d : N) : bool := (c =? 194) && ((d =? 133) || (d =? 160)).

Definition ws3 (c d e : N) : bool :=
  ((c =? 225) && (d =? 154) && (e =? 128))
  || ((c =? 226) && (d =? 128)
      && (in_range 128 138 e || (e =? 168) || (e =? 169) || (e =? 175)))
  || ((c =? 226) && (d =? 129) && (e =? 159))
  || ((c =? 227) && (d =? 128) && (e =? 128)).

(** Drop one leading (resp., on the reversed string, trailing) white-space
    character. *)
Definition strip_ws (s : string) : option string :=
  match s with
  | String a s1 =>
    if ascii_ws (byte_of a) then Some s1 else
    match s1 with
    | String b s2 =>
      if ws2 (byte_of a) (byte_of b) then Some s2 else
      match s2 with
      | String c s3 => if ws3 (byte_of a) (byte_of b) (byte_of c) then Some s3 else None
      | EmptyString => None
      end
    | EmptyString => None
    end
  | EmptyString => None
  end.

Definition strip_ws_rev (s : string) : option string :=
  match s with
  | String a s1 =>
    if ascii_ws (byte_of a) then Some s1 else
    match s1 with
    | String b s2 =>
      if ws2 (byte_of b) (byte_of a) then Some s2 else
      match s2 with
      | String c s3 => if ws3 (byte_of c) (byte_of b) (byte_of a) then Some s3 else None
      | EmptyString => None
      end
    | EmptyString => None
    end
  | EmptyString => None
  end.

Fixpoint strip_while (strip : string -> option string) (fuel : nat) (s : string) : string :=
  match fuel with
  | O => s
  | S fuel' => match strip s with Some s' => strip_while strip fuel' s' | None => s end
  end.

Definition str_rev (s : string) : string :=
  string_of_list_ascii (List.rev (list_ascii_of_string s)).

Definition trim_start (s : string) : string := strip_while strip_ws (String.length s) s.
Definition trim_end (s : string) : string :=
  str_rev (strip_while strip_ws_rev (String.length s) (str_rev s)).
Definition trim (s : string) : string := trim_end (trim_start s).

Definition strip_char (c : ascii) (s : string) : option string :=
  match s with
  | String a s' => if Ascii.eqb a c then Some s' else None
  | EmptyString => None
  end.

(** [trim_end_matches(c)]. *)
Definition trim_end_char (c : ascii) (s : string) : string :=
  str_rev (strip_while (strip_char c) (String.length s) (str_rev s)).

(** [s.contains(char::is_whitespace)]. *)
Fixpoint contains_ws (s : string) : bool :=
  match s with
  | EmptyString => false
  | String _ s' => is_Some_b (strip_ws s) || contains_ws s'
  end.

Definition str_is_empty (s : string) : bool :=
  match s with EmptyString => true | _ => false end.

(** ** Splitting and joining *)

Fixpoint split_on (c : ascii) (s : string) : list string :=
  match s with
  | EmptyString => [""%string]
  | String a s' =>
    if Ascii.eqb a c then ""%string :: split_on c s'
    else match split_on c s' with
         | [] => [String a ""]
         | p :: ps => String a p :: ps
         end
  end.

Fixpoint join (sep : string) (l : list string) : string :=
  match l with
  | [] => ""
  | [p] => p
  | p :: l' => (p +:+ sep +:+ join sep l')%string
  end.

Fixpoint strip_prefix (p s : string) : option string :=
  match p, s with
  | EmptyString, _ => Some s
  | String a p', String b s' => if Ascii.eqb a b then strip_prefix p' s' else None
  | String _ _, EmptyString => None
  end.

Definition starts_with (s p : string) : bool := is_Some_b (strip_prefix p s).

Definition strip_suffix (p s : string) : option string :=
  str_rev <$> strip_prefix (str_rev p) (str_rev s).

Definition ends_with (s p : string) : bool := is_Some_b (strip_suffix p s).

(** [s.find(needle)], as the text before the first match and the text after it. *)
Fixpoint find_sub (needle s : string) : option (string * string) :=
  match strip_prefix needle s with
  | Some rest => Some ("", rest)
  | None =>
    match s with
    | EmptyString => None
    | String a s' =>
      match find_sub needle s' with
      | Some (before, after) => Some (String a before, after)
      | None => None
      end
    end
  end.

Definition contains (s needle : string) : bool := is_Some_b (find_sub needle s).

(** [split_once(c)]. *)
Fixpoint split_once (c : ascii) (s : string) : option (string * string) :=
  match s with
  | EmptyString => None
  | String a s' =>
    if Ascii.eqb a c then Some ("", s')
    else match split_once c s' with
         | Some (x, y) => Some (String a x, y)
         | None => None
         end
  end%string.

(** [rsplit_once(c)]. *)
Definition rsplit_once (c : ascii) (s : string) : option (string * string) :=
  match split_once c (str_rev s) with
  | Some (x, y) => Some (str_rev y, str_rev x)
  | None => None
  end.

Definition to_ascii_lower (a : ascii) : ascii :=
  if in_range 65 90 (byte_of a) then ascii_of_N (byte_of a + 32) else a.

Fixpoint to_ascii_lowercase (s : string) : string :=
  match s with
  | EmptyString => EmptyString
  | String a s' => String (to_ascii_lower a) (to_ascii_lowercase s')
  end.

Definition to_ascii_upper (a : ascii) : ascii :=
  if in_range 97 122 (byte_of a) then ascii_of_N (byte_of a - 32) else a.

Fixpoint to_ascii_uppercase (s : string) : string :=
  match s with
  | EmptyString => EmptyString
  | String a s' => String (to_ascii_upper a) (to_ascii_uppercase s')
  end.

(** [s.split_at(s.find(f)?)]. *)
Fixpoint split_at_first (f : ascii -> bool) (s : string) : option (string * string) :=
  match s with
  | EmptyString => None
  | String a s' =>
    if f a then Some (""%string, s)
    else match split_at_first f s' with
         | Some (x, y) => Some (String a x, y)
         | None => None
         end
  end.

Definition newline : ascii := "010".

(** [str::lines]: split on line feeds, drop a final empty line and a trailing
    carriage return of each line that had a line feed (or is the last one's own
    text, which keeps it). *)
Definition chop_cr (s : string) : string :=
  match strip_suffix (String "013" "") s with Some s' => s' | None => s end.

Fixpoint chop_lines (l : list string) : list string :=
  match l with
  | [] => []
  | [last] => if str_is_empty last then [] else [last]
  | x :: l' => chop_cr x :: chop_lines l'
  end.

Definition lines (s : string) : list string := chop_lines (split_on newline s).

Fixpoint str_forallb (f : ascii -> bool) (s : string) : bool :=
  match s with
  | EmptyString => true
  | String a s' => f a && str_forallb f s'
  end.

(** ** Decimal integers *)

Definition is_digit (a : ascii) : bool := in_range 48 57 (byte_of a).
Definition digit_value (a : ascii) : N := byte_of a - 48.
Definition digit_char (d : N) : ascii := ascii_of_N (48 + d).

Fixpoint parse_digits (acc : N) (s : string) : option N :=
  match s with
  | EmptyString => Some acc
  | String a s' => if is_digit a then parse_digits (acc * 10 + digit_value a) s' else None
  end.

(** [str::parse::<uN>()] accepts an optional [+], at least one digit, nothing else, and
    the value fits the width (the checked steps fail exactly when it does not). *)
Definition strip_plus (s : string) : string :=
  match strip_char "+" s with Some s' => s' | None => s end.

Definition parse_uint (width_max : N) (s : string) : option N :=
  let digits := strip_plus s in
  if str_is_empty digits then None else
  match parse_digits 0 digits with
  | Some n => if n <=? width_max then Some n else None
  | None => None
  end.

Definition parse_u64 : string -> option N := parse_uint u64_max.

(** [u64::to_string]. *)
Fixpoint render_digits (fuel : nat) (n : N) (acc : string) : string :=
  match fuel with
  | O => acc
  | S fuel' =>
    let acc' := String (digit_char (n mod 10)) acc in
    if n <? 10 then acc' else render_digits fuel' (n / 10) acc'
  end.

Definition u64_to_string (n : N) : string := render_digits (S (N.size_nat n)) n "".

(** ** Lemmas *)

Lemma digit_char_byte d : d < 10 -> byte_of (digit_char d) = 48 + d.
Proof. intros H. unfold byte_of, digit_char. apply N_ascii_embedding. lia. Qed.

Lemma digit_char_is_digit d : d < 10 -> is_digit (digit_char d) = true.
Proof.
  intros H. unfold is_digit. rewrite digit_char_byte by done.
  unfold in_range. apply andb_true_iff. split; apply N.leb_le; lia.
Qed.

Lemma digit_char_value d : d < 10 -> digit_value (digit_char d) = d.
Proof. intros H. unfold digit_value. rewrite digit_char_byte by done. lia. Qed.

Lemma render_digits_S fuel n acc :
  render_digits (S fuel) n acc
  = if n <? 10 then String (digit_char (n mod 10)) acc
    else render_digits fuel (n / 10) (String (digit_char (n mod 10)) acc).
Proof. done. Qed.

Lemma parse_digits_cons v d s :
  d < 10 -> parse_digits v (String (digit_char d) s) = parse_digits (v * 10 + d) s.
Proof. intros H. cbn [parse_digits]. by rewrite digit_char_is_digit, digit_char_value. Qed.

Lemma parse_render_digits fuel n :
  n < 2 ^ N.of_nat fuel ->
  exists k, forall acc v,
    parse_digits v (render_digits (S fuel) n acc) = parse_digits (v * 10 ^ k + n) acc.
Proof.
  revert n. induction fuel as [|fuel IH]; intros n Hn.
  - assert (n = 0) as -> by (simpl in Hn; lia). exists 1. intros acc v.
    rewrite render_digits_S. cbn -[parse_digits digit_char N.mul N.add N.modulo].
    rewrite parse_digits_cons by done. f_equal; cbn; lia.
  - destruct (N.ltb_spec n 10) as [Hlt|Hge].
    + exists 1. intros acc v. rewrite render_digits_S, (proj2 (N.ltb_lt _ _) Hlt).
      rewrite parse_digits_cons by (apply N.mod_lt; lia).
      rewrite N.mod_small by done. f_equal; lia.
    + destruct (IH (n / 10)) as [k Hk].
      { apply N.Div0.div_lt_upper_bound. rewrite Nat2N.inj_succ, N.pow_succ_r' in Hn. lia. }
      exists (N.succ k). intros acc v.
      rewrite render_digits_S, (proj2 (N.ltb_ge _ _) Hge), Hk.
      rewrite parse_digits_cons by (apply N.mod_lt; lia).
      f_equal. rewrite N.pow_succ_r'. pose proof (N.div_mod n 10). lia.
Qed.

Lemma render_digits_forallb fuel n acc :
  str_forallb is_digit acc = true -> str_forallb is_digit (render_digits fuel n acc) = true.
Proof.
  revert n acc. induction fuel as [|fuel IH]; intros n acc Hacc; [done|].
  rewrite render_digits_S.
  assert (str_forallb is_digit (String (digit_char (n mod 10)) acc) = true).
  { cbn. rewrite digit_char_is_digit, Hacc by (apply N.mod_lt; lia). done. }
  destruct (n <? 10); auto.
Qed.

Lemma render_digits_nonempty fuel n acc : str_is_empty acc = false ->
  str_is_empty (render_digits fuel n acc) = false.
Proof.
  revert n acc. induction fuel as [|fuel IH]; intros n acc Hacc; [done|].
  rewrite render_digits_S. destruct (n <? 10); [done|]. by apply IH.
Qed.

Lemma u64_to_string_digits n : str_forallb is_digit (u64_to_string n) = true.
Proof. by apply render_digits_forallb. Qed.

Lemma u64_to_string_nonempty n : str_is_empty (u64_to_string n) = false.
Proof.
  unfold u64_to_string. rewrite render_digits_S. destruct (n <? 10); [done|].
  by apply render_digits_nonempty.
Qed.

Lemma size_nat_gt n : n < 2 ^ N.of_nat (N.size_nat n).
Proof.
  replace (N.of_nat (N.size_nat n)) with (N.size n) by (destruct n; [done|]; simpl;
    induction p; simpl in *; lia).
  apply N.size_gt.
Qed.

Lemma strip_plus_digits s : str_forallb is_digit s = true -> strip_plus s = s.
Proof.
  destruct s as [|a s]; [done|]. cbn. intros [Ha _]%andb_true_iff. unfold strip_plus, strip_char.
  destruct (Ascii.eqb_spec a "+") as [->|]; done.
Qed.

(** Parsing what was printed gives the number back. *)
Lemma parse_uint_to_string width n : n <= width -> parse_uint width (u64_to_string n) = Some n.
Proof.
  intros Hn. unfold parse_uint.
  pose proof (u64_to_string_digits n) as Hd. pose proof (u64_to_string_nonempty n) as Hne.
  rewrite strip_plus_digits by done.
  rewrite Hne. unfold u64_to_string.
  destruct (parse_render_digits _ n (size_nat_gt n)) as [k ->]. cbn [parse_digits].
  rewrite N.mul_0_l, N.add_0_l, (proj2 (N.leb_le n width)) by done. done.
Qed.

Lemma parse_u64_to_string n : n <= u64_max -> parse_u64 (u64_to_string n) = Some n.
Proof. apply parse_uint_to_string. Qed.

#[local] Arguments Ascii.eqb : simpl never.

(** ** Splitting what was joined *)

Lemma split_on_no_sep c s :
  str_forallb (fun a => negb (Ascii.eqb a c)) s = true -> split_on c s = [s].
Proof.
  induction s as [|a s IH]; [done|]. simpl. intros [Ha Hs]%andb_true_iff.
  apply negb_true_iff in Ha. rewrite Ha, IH by done. done.
Qed.

Lemma split_on_nonempty c s : split_on c s <> [].
Proof. destruct s as [|a s]; simpl; [done|]. destruct (Ascii.eqb a c); [done|]. by case_match. Qed.

Lemma split_on_app c p s :
  str_forallb (fun a => negb (Ascii.eqb a c)) p = true ->
  split_on c (p +:+ String c s) = p :: split_on c s.
Proof.
  induction p as [|a p IH]; simpl; intros H.
  - by rewrite Ascii.eqb_refl.
  - apply andb_true_iff in H as [Ha Hp]. apply negb_true_iff in Ha.
    rewrite Ha, IH by done. done.
Qed.

Lemma split_on_join c l :
  l <> [] ->
  Forall (fun p => str_forallb (fun a => negb (Ascii.eqb a c)) p = true) l ->
  split_on c (join (String c "") l) = l.
Proof.
  intros Hne Hall. induction Hall as [|p l Hp Hall IH]; [done|].
  destruct l as [|q l]; [by apply split_on_no_sep|].
  change (join (String c "") (p :: q :: l))
    with (p +:+ String c (join (String c "") (q :: l)))%string.
  rewrite split_on_app by done. by rewrite IH.
Qed.

(** ** Trimming a string that has nothing to trim *)

Lemma list_ascii_app s t :
  list_ascii_of_string (s ++ t)%string = list_ascii_of_string s ++ list_ascii_of_string t.
Proof. induction s as [|a s IH]; simpl; [done|]. by rewrite IH. Qed.

Lemma string_of_list_app k l :
  string_of_list_ascii (k ++ l) = (string_of_list_ascii k ++ string_of_list_ascii l)%string.
Proof. induction k as [|a k IH]; simpl; [done|]. by rewrite IH. Qed.

Lemma str_rev_app s t : str_rev (s ++ t)%string = (str_rev t ++ str_rev s)%string.
Proof. unfold str_rev. by rewrite list_ascii_app, rev_app_distr, string_of_list_app. Qed.

Lemma str_forallb_app f s t :
  str_forallb f (s ++ t)%string = str_forallb f s && str_forallb f t.
Proof. induction s as [|a s IH]; simpl; [done|]. by rewrite IH, andb_assoc. Qed.

Lemma str_forallb_impl (f g : ascii -> bool) s :
  (forall a, f a = true -> g a = true) -> str_forallb f s = true -> str_forallb g s = true.
Proof.
  intros Hfg. induction s as [|a s IH]; simpl; [done|].
  rewrite !andb_true_iff. naive_solver.
Qed.

Lemma str_rev_involutive s : str_rev (str_rev s) = s.
Proof.
  unfold str_rev. rewrite list_ascii_of_string_of_list_ascii, rev_involutive.
  apply string_of_list_ascii_of_string.
Qed.

Lemma strip_while_id strip fuel s : strip s = None -> strip_while strip fuel s = s.
Proof. destruct fuel; simpl; [done|]. by intros ->. Qed.

Definition plain (a : ascii) : bool := (byte_of a <? 128) && negb (ascii_ws (byte_of a)).

Lemma strip_ws_plain a s : plain a = true -> strip_ws (String a s) = None.
Proof.
  unfold plain, strip_ws, ws2, ws3. intros [Hlt Hws%negb_true_iff]%andb_true_iff. rewrite Hws.
  apply N.ltb_lt in Hlt.
  destruct s as [|b [|c s]]; [done|..];
    repeat (rewrite (proj2 (N.eqb_neq (byte_of a) _)) by lia); done.
Qed.

Lemma strip_ws_rev_plain a s : plain a = true -> strip_ws_rev (String a s) = None.
Proof.
  unfold plain, strip_ws_rev, ws2, ws3, in_range.
  intros [Hlt Hws%negb_true_iff]%andb_true_iff. rewrite Hws. apply N.ltb_lt in Hlt.
  destruct s as [|b [|c s]]; [done|..];
    repeat (rewrite (proj2 (N.eqb_neq (byte_of a) _)) by lia);
    rewrite ?andb_false_r; [done|].
  rewrite (proj2 (N.leb_gt 128 (byte_of a))) by lia. cbn. by rewrite ?andb_false_r.
Qed.

Lemma trim_plain s :
  str_forallb plain s = true -> trim s = s.
Proof.
  intros Hs. unfold trim, trim_start, trim_end.
  rewrite (strip_while_id strip_ws).
  2:{ destruct s as [|a s]; [done|]. apply strip_ws_plain. by apply andb_true_iff in Hs as [??]. }
  rewrite strip_while_id; [apply str_rev_involutive|].
  assert (str_forallb plain (str_rev s) = true) as Hr.
  { unfold str_rev. clear -Hs. 
    enough (Forall (fun a => plain a = true) (List.rev (list_ascii_of_string s))) as Hf.
    { induction Hf as [|a l Ha ? IH]; cbn; [done|]. by rewrite Ha, IH. }
    apply Forall_rev. induction s as [|a s IH]; cbn in *; [constructor|].
    apply andb_true_iff in Hs as [??]. constructor; auto. }
  destruct (str_rev s) as [|a r]; [done|]. apply strip_ws_rev_plain.
  by apply andb_true_iff in Hr as [??].
Qed.

(** ** Prefixes, suffixes and substrings *)

#[global] Arguments String.append !_ _ / : simpl nomatch.

Lemma strip_prefix_Some p s r : strip_prefix p s = Some r <-> s = (p ++ r)%string.
Proof.
  revert s. induction p as [|a p IH]; intros s; simpl; [split; congruence|].
  destruct s as [|b s]; [split; discriminate|].
  destruct (Ascii.eqb_spec a b) as [->|Hne]; [rewrite IH|]; split; congruence.
Qed.

Lemma strip_prefix_app p r : strip_prefix p (p ++ r)%string = Some r.
Proof. by apply strip_prefix_Some. Qed.

Lemma starts_with_spec s p : starts_with s p = true <-> exists r, s = (p ++ r)%string.
Proof.
  unfold starts_with. destruct (strip_prefix p s) as [r|] eqn:H; simpl; split; try done.
  - intros _. exists r. by apply strip_prefix_Some.
  - intros [r Hr%strip_prefix_Some]. congruence.
Qed.

Lemma string_app_nil_r s : (s ++ "")%string = s.
Proof. induction s as [|a s IH]; simpl; congruence. Qed.

Lemma string_app_assoc s t u : (s ++ (t ++ u))%string = ((s ++ t) ++ u)%string.
Proof. induction s as [|a s IH]; simpl; congruence. Qed.

Lemma string_app_inv_l s t u : (s ++ t)%string = (s ++ u)%string -> t = u.
Proof. induction s as [|a s IH]; simpl; [done|]. intros [= H]. by apply IH. Qed.

Lemma string_length_app s t : String.length (s ++ t) = (String.length s + String.length t)%nat.
Proof. induction s as [|a s IH]; simpl; congruence. Qed.

Lemma string_app_inv_r s t u : (s ++ u)%string = (t ++ u)%string -> s = t.
Proof.
  intros H. assert (String.length s = String.length t) as Hl.
  { apply (f_equal String.length) in H. rewrite !string_length_app in H. lia. }
  clear -H Hl. revert t H Hl. induction s as [|a s IH]; intros [|b t] H Hl; simpl in *;
    try discriminate; [done|]. injection H as -> H. f_equal. apply IH; [done|congruence].
Qed.

Lemma strip_suffix_Some p s r : strip_suffix p s = Some r <-> s = (r ++ p)%string.
Proof.
  unfold strip_suffix. split.
  - intros (q & Hq%strip_prefix_Some & ->)%fmap_Some.
    apply (f_equal str_rev) in Hq. rewrite str_rev_app, !str_rev_involutive in Hq. done.
  - intros ->. rewrite str_rev_app, strip_prefix_app. simpl. by rewrite str_rev_involutive.
Qed.

Lemma ends_with_spec s p : ends_with s p = true <-> exists r, s = (r ++ p)%string.
Proof.
  unfold ends_with. destruct (strip_suffix p s) as [r|] eqn:H; simpl; split; try done.
  - intros _. exists r. by apply strip_suffix_Some.
  - intros [r Hr%strip_suffix_Some]. congruence.
Qed.

Lemma find_sub_eq needle s :
  find_sub needle s
  = match strip_prefix needle s with
    | Some rest => Some (""%string, rest)
    | None =>
      match s with
      | EmptyString => None
      | String a s' =>
        match find_sub needle s' with
        | Some (before, after) => Some (String a before, after)
        | None => None
        end
      end
    end.
Proof. by destruct s. Qed.

Lemma find_sub_Some needle s x y :
  find_sub needle s = Some (x, y) -> s = (x ++ needle ++ y)%string.
Proof.
  revert x. induction s as [|a s IH]; intros x; rewrite find_sub_eq;
    (destruct (strip_prefix needle _) as [r|] eqn:Hp;
     [intros [= <- <-]; by apply strip_prefix_Some in Hp|]); [done|].
  destruct (find_sub needle s) as [[b c]|]; [|done]. intros [= <- <-]. simpl.
  f_equal. by apply IH.
Qed.

(** The match found is the first one. *)
Lemma find_sub_least needle s u v :
  s = (u ++ needle ++ v)%string ->
  exists x y, find_sub needle s = Some (x, y) /\ (String.length x <= String.length u)%nat.
Proof.
  intros ->. induction u as [|a u IH]; rewrite find_sub_eq.
  - cbn [append]. rewrite strip_prefix_app. by exists "", v.
  - destruct (strip_prefix needle _) as [r|] eqn:Hp.
    { eexists "", _. split; [done|]. simpl. lia. }
    cbn [append]. destruct IH as (x & y & -> & Hle). eexists (String a x), _.
    split; [done|]. simpl. lia.
Qed.

Lemma contains_spec s needle :
  contains s needle = true <-> exists x y, s = (x ++ needle ++ y)%string.
Proof.
  unfold contains. split.
  - destruct (find_sub needle s) as [[x y]|] eqn:H; [|done]. intros _.
    apply find_sub_Some in H. by exists x, y.
  - intros (x & y & (x' & y' & -> & _)%find_sub_least). done.
Qed.

Definition free_of (c : ascii) (s : string) : bool :=
  str_forallb (fun a => negb (Ascii.eqb a c)) s.

Lemma split_once_Some c s x y :
  split_once c s = Some (x, y) <-> s = (x ++ String c y)%string /\ free_of c x = true.
Proof.
  unfold free_of. revert x. induction s as [|a s IH]; intros x; simpl.
  { split; [done|]. intros [H _]. by destruct x. }
  destruct (Ascii.eqb_spec a c) as [->|Hne].
  - split; [by intros [= <- <-]|]. intros [H Hf]. destruct x as [|b x]; simpl in *; [congruence|].
    injection H as -> _. by rewrite Ascii.eqb_refl in Hf.
  - destruct (split_once c s) as [[u v]|].
    + split.
      * intros [= <- <-]. destruct (proj1 (IH u) eq_refl) as [-> Hu]. simpl.
        split; [done|]. apply andb_true_iff. split; [|done].
        by apply negb_true_iff, Ascii.eqb_neq.
      * intros [H Hf]. destruct x as [|b x]; simpl in *; [congruence|].
        injection H as -> H. apply andb_true_iff in Hf as [_ Hf].
        specialize (proj2 (IH x) (conj H Hf)) as [= -> ->]. done.
    + split; [done|]. intros [H Hf]. destruct x as [|b x]; simpl in *; [congruence|].
      injection H as -> H. apply andb_true_iff in Hf as [_ Hf].
      by specialize (proj2 (IH x) (conj H Hf)).
Qed.

Lemma split_once_app c x y :
  free_of c x = true -> split_once c (x ++ String c y)%string = Some (x, y).
Proof. intros. by apply split_once_Some. Qed.

Lemma split_once_None c s : free_of c s = true -> split_once c s = None.
Proof.
  unfold free_of. induction s as [|a s IH]; simpl; [done|].
  intros [Ha%negb_true_iff Hs]%andb_prop. by rewrite Ha, IH.
Qed.

Lemma split_at_first_app f x b y :
  str_forallb (fun a => negb (f a)) x = true -> f b = true ->
  split_at_first f (x ++ String b y)%string = Some (x, String b y).
Proof.
  intros Hx Hb. induction x as [|a x IH]; simpl in *; [by rewrite Hb|].
  apply andb_prop in Hx as [Ha%negb_true_iff Hx]. by rewrite Ha, IH.
Qed.

Lemma to_ascii_uppercase_id s :
  str_forallb (fun a => negb (in_range 97 122 (byte_of a))) s = true -> to_ascii_uppercase s = s.
Proof.
  induction s as [|a s IH]; simpl; [done|]. intros [Ha%negb_true_iff Hs]%andb_prop.
  unfold to_ascii_upper. by rewrite Ha, IH.
Qed.

(** ** Trimming text that carries no white space *)

Lemma contains_ws_app p s : contains_ws (p ++ s)%string = false -> contains_ws s = false.
Proof. induction p as [|a p IH]; simpl; [done|]. intros [_ H]%orb_false_iff. by apply IH. Qed.

Lemma contains_ws_strip s : contains_ws s = false -> strip_ws s = None.
Proof. destruct s as [|a s]; [done|]. cbn [contains_ws]. by destruct (strip_ws (String a s)). Qed.

Lemma str_rev_cons a s : str_rev (String a s) = (str_rev s ++ String a "")%string.
Proof. change (String a s) with (String a "" ++ s)%string. by rewrite str_rev_app. Qed.

Lemma strip_ws_None_inv a b c :
  strip_ws (String a "") = None ->
  ascii_ws (byte_of a) = false
  /\ (strip_ws (String b (String a "")) = None -> ws2 (byte_of b) (byte_of a) = false)
  /\ (strip_ws (String c (String b (String a ""))) = None ->
      ws3 (byte_of c) (byte_of b) (byte_of a) = false).
Proof.
  unfold strip_ws. intros Ha. split_and!.
  - by destruct (ascii_ws (byte_of a)).
  - destruct (ascii_ws (byte_of b)); [done|]. by destruct (ws2 (byte_of b) (byte_of a)).
  - destruct (ascii_ws (byte_of c)); [done|]. destruct (ws2 (byte_of c) (byte_of b)); [done|].
    by destruct (ws3 (byte_of c) (byte_of b) (byte_of a)).
Qed.

Lemma contains_ws_strip_rev s : contains_ws s = false -> strip_ws_rev (str_rev s) = None.
Proof.
  rewrite <- (str_rev_involutive s) at 1. generalize (str_rev s) as r.
  intros [|a [|b [|c r]]] H; [done|..]; rewrite !str_rev_cons in H;
    rewrite <- ?string_app_assoc in H; apply contains_ws_app in H; cbn [append contains_ws] in H;
    rewrite !orb_false_iff in H.
  - destruct H as [H _]. unfold strip_ws_rev. unfold strip_ws in H.
    by destruct (ascii_ws (byte_of a)).
  - destruct H as (Hb & Ha & _).
    destruct (strip_ws (String b (String a ""))) eqn:Eb; [done|].
    destruct (strip_ws (String a "")) eqn:Ea; [done|].
    destruct (strip_ws_None_inv a b a Ea) as (E1 & E2 & _).
    cbn. by rewrite E1, (E2 Eb).
  - destruct H as (Hc & Hb & Ha & _).
    destruct (strip_ws (String c (String b (String a "")))) eqn:Ec; [done|].
    destruct (strip_ws (String b (String a ""))) eqn:Eb; [done|].
    destruct (strip_ws (String a "")) eqn:Ea; [done|].
    destruct (strip_ws_None_inv a b c Ea) as (E1 & E2 & E3).
    cbn. by rewrite E1, (E2 Eb), (E3 Ec).
Qed.

Lemma trim_tight s : strip_ws s = None -> strip_ws_rev (str_rev s) = None -> trim s = s.
Proof.
  intros H1 H2. unfold trim, trim_start, trim_end.
  rewrite (strip_while_id strip_ws) by done.
  rewrite strip_while_id by done. apply str_rev_involutive.
Qed.

Lemma trim_no_ws s : contains_ws s = false -> trim s = s.
Proof. intros H. apply trim_tight; [by apply contains_ws_strip|by apply contains_ws_strip_rev]. Qed.

Lemma strip_ws_app_space m x :
  m <> ""%string -> contains_ws m = false -> strip_ws (m ++ String " " x)%string = None.
Proof.
  intros Hne Hm%contains_ws_strip. revert Hm.
  unfold strip_ws. destruct m as [|a [|b [|c m]]]; cbn [append];
    [done|..]; destruct (ascii_ws (byte_of a)); try done.
  - intros _. unfold ws2, ws3. change (byte_of " ") with 32.
    rewrite !andb_false_r. cbn. by destruct x.
  - destruct (ws2 (byte_of a) (byte_of b)); [done|]. intros _. unfold ws3, in_range.
    change (byte_of " ") with 32. by rewrite ?andb_false_r.
  - destruct (ws2 _ _); [done|]. by destruct (ws3 _ _ _).
Qed.

Lemma trim_no_ws_space m : contains_ws m = false -> trim (m ++ " ")%string = m.
Proof.
  intros Hm. destruct (decide (m = ""%string)) as [->|Hne]; [done|].
  unfold trim, trim_start. rewrite (strip_while_id strip_ws) by by apply strip_ws_app_space.
  unfold trim_end. rewrite string_length_app, str_rev_app, Nat.add_comm.
  change (String.length " " + String.length m)%nat with (S (String.length m)).
  cbn [strip_while]. change (str_rev " " ++ str_rev m)%string with (String " " (str_rev m)).
  change (strip_ws_rev (String " " (str_rev m))) with (Some (str_rev m)). cbn beta iota.
  rewrite strip_while_id by by apply contains_ws_strip_rev. apply str_rev_involutive.
Qed.

(** ** Trailing white space does not change the trimmed text *)

Lemma strip_ws_shorter s s' : strip_ws s = Some s' -> (String.length s' < String.length s)%nat.
Proof.
  destruct s as [|a [|b [|c s]]]; cbn; [done|..]; repeat case_match; intros; simplify_eq;
    cbn; lia.
Qed.

Lemma strip_while_fuel strip n m s :
  (forall x y, strip x = Some y -> (String.length y < String.length x)%nat) ->
  (String.length s <= n)%nat -> (String.length s <= m)%nat ->
  strip_while strip n s = strip_while strip m s.
Proof.
  intros Hs. revert m s. induction n as [|n IH]; intros m s Hn Hm.
  - destruct (strip s) as [y|] eqn:E; [apply Hs in E; lia|].
    by rewrite !strip_while_id.
  - destruct m as [|m]; cbn; destruct (strip s) as [y|] eqn:E; try done;
      pose proof (Hs _ _ E); [lia|]. apply IH; lia.
Qed.

Lemma trim_start_step s :
  trim_start s = match strip_ws s with Some s' => trim_start s' | None => s end.
Proof.
  unfold trim_start. destruct (strip_ws s) as [y|] eqn:E; [|by rewrite strip_while_id].
  pose proof (strip_ws_shorter _ _ E). destruct (String.length s) as [|n] eqn:Hl; [lia|].
  cbn. rewrite E. apply strip_while_fuel; [apply strip_ws_shorter|lia..].
Qed.

Lemma strip_ws_snoc y c :
  ascii_ws (byte_of c) = true -> y <> ""%string ->
  strip_ws (y ++ String c "")%string = (fun r => r ++ String c "")%string <$> strip_ws y.
Proof.
  intros Hc Hy. assert (byte_of c < 128) as Hlt.
  { unfold ascii_ws, in_range in Hc. apply orb_true_iff in Hc as [[_ H]%andb_true_iff|H];
      [apply N.leb_le in H|apply N.eqb_eq in H]; lia. }
  unfold strip_ws. destruct y as [|a [|b [|d y]]]; cbn [append]; [done|..];
    destruct (ascii_ws (byte_of a)); try done.
  - unfold ws2. repeat (rewrite (proj2 (N.eqb_neq (byte_of c) _)) by lia).
    by rewrite andb_false_r.
  - destruct (ws2 (byte_of a) (byte_of b)); [done|]. unfold ws3, in_range.
    repeat (rewrite (proj2 (N.eqb_neq (byte_of c) _)) by lia).
    rewrite (proj2 (N.leb_gt 128 (byte_of c))) by lia. cbn. by rewrite ?andb_false_r.
  - destruct (ws2 _ _); [done|]. by destruct (ws3 _ _ _).
Qed.

Lemma trim_start_snoc y c :
  ascii_ws (byte_of c) = true ->
  trim_start (y ++ String c "")%string
  = (if str_is_empty (trim_start y) then "" else trim_start y ++ String c "")%string.
Proof.
  intros Hc. remember (String.length y) as n eqn:Hn. revert y Hn.
  induction (lt_wf n) as [n _ IH]. intros y ->.
  destruct (decide (y = ""%string)) as [->|Hy].
  - cbn [append]. rewrite trim_start_step. unfold strip_ws. by rewrite Hc.
  - rewrite (trim_start_step (y ++ _)), strip_ws_snoc by done. rewrite (trim_start_step y).
    destruct (strip_ws y) as [r|] eqn:E; cbn; [|by destruct y].
    eapply IH; [by apply strip_ws_shorter|done].
Qed.

Lemma trim_end_snoc y c :
  ascii_ws (byte_of c) = true -> trim_end (y ++ String c "")%string = trim_end y.
Proof.
  intros Hc. unfold trim_end. rewrite str_rev_app, string_length_app, Nat.add_comm.
  cbn [String.length Nat.add strip_while].
  change (str_rev (String c "") ++ str_rev y)%string with (String c (str_rev y)).
  unfold strip_ws_rev at 1. by rewrite Hc.
Qed.

Lemma trim_snoc y c : ascii_ws (byte_of c) = true -> trim (y ++ String c "")%string = trim y.
Proof.
  intros Hc. unfold trim. rewrite trim_start_snoc by done.
  destruct (trim_start y) as [|a r] eqn:E; [done|]. cbn [str_is_empty]. by apply trim_end_snoc.
Qed.

(** ** Trimming twice *)

Lemma strip_while_done strip n s :
  (forall x y, strip x = Some y -> (String.length y < String.length x)%nat) ->
  (String.length s <= n)%nat -> strip (strip_while strip n s) = None.
Proof.
  intros Hs. revert s. induction n as [|n IH]; intros s Hn; cbn.
  - destruct (strip s) as [y|] eqn:E; [apply Hs in E; lia|done].
  - destruct (strip s) as [y|] eqn:E; [|done]. apply Hs in E as Hlt. apply IH. lia.
Qed.

Lemma strip_while_suffix strip n s :
  (forall x y, strip x = Some y -> exists p, x = (p ++ y)%string) ->
  exists p, s = (p ++ strip_while strip n s)%string.
Proof.
  intros Hs. revert s. induction n as [|n IH]; intros s; cbn; [by exists ""%string|].
  destruct (strip s) as [y|] eqn:E; [|by exists ""%string].
  destruct (Hs _ _ E) as [p ->]. destruct (IH y) as [q Hq]. exists (p ++ q)%string.
  by rewrite <- string_app_assoc, <- Hq.
Qed.

Lemma strip_ws_rev_suffix x y : strip_ws_rev x = Some y -> exists p, x = (p ++ y)%string.
Proof.
  destruct x as [|a [|b [|c x]]]; cbn; [done|..]; repeat case_match; intros; simplify_eq;
    first [by exists (String a "")|by exists (String a (String b ""))
          |by exists (String a (String b (String c "")))].
Qed.

Lemma suffix_shorter p (x y : string) : x = (p ++ y)%string -> p <> ""%string ->
  (String.length y < String.length x)%nat.
Proof. intros -> Hp. rewrite string_length_app. destruct p; [done|cbn; lia]. Qed.

Lemma strip_ws_rev_shorter x y : strip_ws_rev x = Some y -> (String.length y < String.length x)%nat.
Proof.
  destruct x as [|a [|b [|c x]]]; cbn; [done|..]; repeat case_match; intros; simplify_eq; cbn; lia.
Qed.

Lemma strip_ws_prefix u r : strip_ws (u ++ r)%string = None -> strip_ws u = None.
Proof.
  destruct u as [|a [|b [|c u]]]; [done|..]; cbn; repeat case_match; intros; simplify_eq; done.
Qed.

Lemma str_rev_length s : String.length (str_rev s) = String.length s.
Proof. induction s as [|a s IH]; [done|]. rewrite str_rev_cons, string_length_app, IH. cbn. lia. Qed.

Lemma trim_idemp s : trim (trim s) = trim s.
Proof.
  apply trim_tight; unfold trim, trim_end.
  - destruct (strip_while_suffix strip_ws_rev (String.length (trim_start s))
                (str_rev (trim_start s)) strip_ws_rev_suffix) as [p Hp].
    apply (f_equal str_rev) in Hp. rewrite str_rev_involutive, str_rev_app in Hp.
    apply (strip_ws_prefix _ (str_rev p)). rewrite <- Hp.
    apply strip_while_done; [apply strip_ws_shorter|done].
  - rewrite str_rev_involutive. apply strip_while_done; [apply strip_ws_rev_shorter|].
    by rewrite str_rev_length.
Qed.

(** The lines of a text, trimmed, without the empty ones. *)
Definition populated_rows (s : string) : list string :=
  List.filter (fun l => negb (str_is_empty l)) (map trim (lines s)).

Lemma trim_chop_cr s : trim (chop_cr s) = trim s.
Proof.
  unfold chop_cr. destruct (strip_suffix (String "013" "") s) as [y|] eqn:E; [|done].
  apply strip_suffix_Some in E as ->. by rewrite trim_snoc.
Qed.

Lemma populated_rows_split s :
  populated_rows s
  = List.filter (fun l => negb (str_is_empty l)) (map trim (split_on newline s)).
Proof.
  unfold populated_rows, lines. generalize (split_on newline s) as l.
  induction l as [|x l IH]; [done|]. destruct l as [|y l].
  - cbn. by destruct x.
  - change (chop_lines (x :: y :: l)) with (chop_cr x :: chop_lines (y :: l)).
    cbn [map List.filter]. by rewrite trim_chop_cr, IH.
Qed.

Lemma split_on_snoc c s t : split_on c (s ++ String c t) = split_on c s ++ split_on c t.
Proof.
  induction s as [|a s IH]; simpl.
  - by rewrite Ascii.eqb_refl.
  - destruct (Ascii.eqb a c); [by rewrite IH|]. rewrite IH.
    destruct (split_on c s) eqn:E; [by apply split_on_nonempty in E|done].
Qed.

(** Rows that hold only white space add nothing. *)
Lemma populated_rows_blank s t :
  populated_rows t = [] -> populated_rows (s ++ String newline t)%string = populated_rows s.
Proof.
  rewrite !populated_rows_split, split_on_snoc, map_app, List.filter_app.
  intros ->. apply app_nil_r.
Qed.

(** [String] also defines [length]; the development means the length of lists. *)
Abbreviation length := List.length.

(** ** The byte order of strings: [String]'s [Ord] *)

Lemma ascii_compare_N a b : Ascii.compare a b = (Ascii.N_of_ascii a ?= Ascii.N_of_ascii b).
Proof. done. Qed.

Lemma string_leb_cons a s b t :
  String.leb (String a s) (String b t) = true <->
  Ascii.N_of_ascii a < Ascii.N_of_ascii b \/ (a = b /\ String.leb s t = true).
Proof.
  unfold String.leb. cbn. rewrite ascii_compare_N.
  destruct (N.compare_spec (Ascii.N_of_ascii a) (Ascii.N_of_ascii b)) as [He|Hl|Hg].
  - assert (a = b) as -> by (rewrite <- (Ascii.ascii_N_embedding a), He; apply Ascii.ascii_N_embedding).
    split; [by right|]. intros [?|[_ ?]]; [lia|done].
  - split; [by left|done].
  - split; [done|]. intros [?|[-> _]]; lia.
Qed.

Lemma string_leb_trans x y z : String.leb x y = true -> String.leb y z = true -> String.leb x z = true.
Proof.
  revert y z. induction x as [|a x IH]; intros [|b y] [|c z]; try done.
  rewrite !string_leb_cons. intros [?|[-> ?]] [?|[-> ?]]; [left; lia|by left|by left|right].
  split; [done|]. by eapply IH.
Qed.

#[export] Instance string_leb_order : BoolOrder String.leb.
Proof. split; [apply String.leb_total|apply string_leb_trans]. Qed.

(** ** [str::cmp] *)

Lemma compare_antisym_str x y : String.compare y x = CompOpp (String.compare x y).
Proof. apply String.compare_antisym. Qed.

Lemma compare_refl_str x : String.compare x x = Eq.
Proof. induction x as [|a x IH]; [done|]. cbn. by rewrite ascii_compare_N, N.compare_refl. Qed.

Lemma compare_eq_str x y : String.compare x y = Eq <-> x = y.
Proof. split; [apply String.compare_eq_iff|intros ->; apply compare_refl_str]. Qed.

Lemma compare_lt_trans_str x y z : String.compare x y = Lt -> String.compare y z = Lt -> String.compare x z = Lt.
Proof.
  revert y z. induction x as [|a x IH]; intros [|b y] [|c z]; cbn; try done.
  rewrite !ascii_compare_N.
  destruct (N.compare_spec (N_of_ascii a) (N_of_ascii b)) as [E1|E1|E1]; [| |done];
    destruct (N.compare_spec (N_of_ascii b) (N_of_ascii c)) as [E2|E2|E2]; intros H1 H2; try done.
  - rewrite E1, E2, N.compare_refl. eauto.
  - rewrite E1, (proj2 (N.compare_lt_iff _ _) E2). done.
  - rewrite <- E2, (proj2 (N.compare_lt_iff _ _) E1). done.
  - rewrite (proj2 (N.compare_lt_iff _ _)) by lia. done.
Qed.
