(* ===== verification/RustChar.v ===== *)
(** * Text as characters

    The parts of the program that walk a string character by character see a [char] as its code
    point, and a string as the list of them.  This file holds the operations of [char] and of a
    list of characters that the source uses: classes, ASCII case, splitting and joining on a
    character, trimming. *)
From S2P Require Import Prelude RustStr.
From Stdlib Require Import ZifyBool ZifyN.
#[local] Open Scope N_scope.

Definition text := list N.

(** The characters of an ASCII literal. *)
Definition chars (s : string) : text := map byte_of (list_ascii_of_string s).

(** [char::is_whitespace]: the Unicode property White_Space. *)
Definition is_whitespace (c : N) : bool :=
  in_range 9 13 c || (c =? 32) || (c =? 133) || (c =? 160) || (c =? 5760) ||
  in_range 8192 8202 c || (c =? 8232) || (c =? 8233) || (c =? 8239) || (c =? 8287) || (c =? 12288).

Definition is_ascii_digit (c : N) : bool := in_range 48 57 c.

Definition is_ascii_alphanumeric (c : N) : bool :=
  in_range 48 57 c || in_range 65 90 c || in_range 97 122 c.

Definition char_lower (c : N) : N := if in_range 65 90 c then c + 32 else c.
Definition char_upper (c : N) : N := if in_range 97 122 c then c - 32 else c.

Definition text_lower (t : text) : text := map char_lower t.
Definition text_upper (t : text) : text := map char_upper t.

(** [char::to_digit(10)]. *)
Definition to_digit (c : N) : option N := if is_ascii_digit c then Some (c - 48) else None.

(** ['a'..='z'] and ['0'..='9']. *)
Definition letters : list N := map N.of_nat (seq 97 26).
Definition digits : list N := map N.of_nat (seq 48 10).

(** [t.split(c)]. *)
Fixpoint split_text (c : N) (t : text) : list text :=
  match t with
  | [] => [[]]
  | x :: t' =>
      if x =? c then [] :: split_text c t'
      else match split_text c t' with
           | w :: ws => (x :: w) :: ws
           | [] => [[x]]
           end
  end.

(** [parts.join(c)] for a separator of one character. *)
Fixpoint join_text (c : N) (parts : list text) : text :=
  match parts with
  | [] => []
  | [p] => p
  | p :: rest => (p ++ c :: join_text c rest)%list
  end.

Fixpoint trim_text_start (t : text) : text :=
  match t with
  | [] => []
  | c :: t' => if is_whitespace c then trim_text_start t' else t
  end.

Definition trim_text_end (t : text) : text := rev (trim_text_start (rev t)).

Definition trim_text (t : text) : text := trim_text_end (trim_text_start t).

Definition text_starts_with (t p : text) : bool := bool_decide (take (length p) t = p).

(** The order of [str], which is the order of its code points. *)
Fixpoint text_leb (t u : text) : bool :=
  match t, u with
  | [], _ => true
  | _, [] => false
  | x :: t', y :: u' => (x <? y) || ((x =? y) && text_leb t' u')
  end.

#[export] Instance text_leb_order : BoolOrder text_leb.
Proof.
  split.
  - intros t. induction t as [|x t IH]; intros [|y u]; [by left|by left|by right|].
    cbn. destruct (N.lt_trichotomy x y) as [?|[->|?]]; [left; lia| |right; lia].
    destruct (IH u); [left|right]; lia.
  - intros t. induction t as [|x t IH]; intros [|y u] [|z v]; try done.
    cbn. intros H1 H2. assert (text_leb t u = true -> text_leb u v = true -> text_leb t v = true) by apply IH.
    lia.
Qed.

(** ** Lemmas *)

Lemma char_lower_idemp c : char_lower (char_lower c) = char_lower c.
Proof. unfold char_lower, in_range. repeat case_match; lia. Qed.

Lemma char_lower_upper c : char_lower (char_upper c) = char_lower c.
Proof. unfold char_lower, char_upper, in_range. repeat case_match; lia. Qed.

Lemma text_lower_idemp t : text_lower (text_lower t) = text_lower t.
Proof. unfold text_lower. rewrite map_map. apply map_ext, char_lower_idemp. Qed.

Lemma text_lower_upper t : text_lower (text_upper t) = text_lower t.
Proof. unfold text_lower, text_upper. rewrite map_map. apply map_ext, char_lower_upper. Qed.

Lemma text_lower_app t u : text_lower (t ++ u)%list = (text_lower t ++ text_lower u)%list.
Proof. apply map_app. Qed.

Lemma letter_range c : c ∈ letters <-> in_range 97 122 c = true.
Proof.
  unfold letters, in_range. rewrite list_elem_of_fmap. setoid_rewrite elem_of_seq. split.
  - intros (n & -> & ?). lia.
  - intros ?. exists (N.to_nat c). lia.
Qed.

Lemma digit_range c : c ∈ digits <-> in_range 48 57 c = true.
Proof.
  unfold digits, in_range. rewrite list_elem_of_fmap. setoid_rewrite elem_of_seq. split.
  - intros (n & -> & ?). lia.
  - intros ?. exists (N.to_nat c). lia.
Qed.

Lemma letter_lower c : c ∈ letters -> char_lower c = c.
Proof. rewrite letter_range. unfold char_lower, in_range. intros ?. case_match; lia. Qed.

Lemma digit_lower c : c ∈ digits -> char_lower c = c.
Proof. rewrite digit_range. unfold char_lower, in_range. intros ?. case_match; lia. Qed.

Lemma alphanumeric_lower c :
  is_ascii_alphanumeric c = true -> char_lower c ∈ (letters ++ digits)%list.
Proof.
  unfold is_ascii_alphanumeric. intros H. apply elem_of_app. rewrite letter_range, digit_range.
  unfold char_lower, in_range in *. case_match; lia.
Qed.

Lemma split_text_nonempty c t : split_text c t <> [].
Proof. destruct t as [|x t]; [done|]. cbn. repeat case_match; done. Qed.

Lemma split_text_no_sep c t : c ∉ t -> split_text c t = [t].
Proof.
  induction t as [|x t IH]; [done|]. intros [? ?]%not_elem_of_cons. cbn.
  destruct (x =? c) eqn:?; [lia|]. by rewrite IH.
Qed.

Lemma split_text_app c p t : c ∉ p -> split_text c (p ++ c :: t)%list = p :: split_text c t.
Proof.
  induction p as [|x p IH]; cbn; [by rewrite N.eqb_refl|].
  intros [? ?]%not_elem_of_cons. destruct (x =? c) eqn:?; [lia|]. by rewrite IH.
Qed.

(** Splitting takes apart what joining put together. *)
Lemma split_join_text c parts :
  parts <> [] -> Forall (fun p => c ∉ p) parts -> split_text c (join_text c parts) = parts.
Proof.
  intros Hne Hall. induction Hall as [|p parts Hp Hall IH]; [done|].
  destruct parts as [|q parts]; [by apply split_text_no_sep|].
  change (join_text c (p :: q :: parts)) with (p ++ c :: join_text c (q :: parts))%list.
  rewrite split_text_app by exact Hp. by rewrite IH.
Qed.

(** Text with nothing to trim at either end. *)
Definition tight (t : text) : bool :=
  match head t, last t with
  | Some a, Some b => negb (is_whitespace a) && negb (is_whitespace b)
  | _, _ => true
  end.

Lemma trim_text_start_tight t :
  match head t with Some a => is_whitespace a = false | None => True end -> trim_text_start t = t.
Proof. destruct t as [|a t]; cbn; [done|]. by intros ->. Qed.

Lemma trim_text_tight t : tight t = true -> trim_text t = t.
Proof.
  unfold tight, trim_text, trim_text_end. intros H.
  assert (trim_text_start t = t) as ->.
  { apply trim_text_start_tight. destruct t as [|a t]; cbn in *; [done|].
    destruct (last (a :: t)) eqn:E; [|by destruct t; cbn in E; [|apply last_None in E]]. lia. }
  destruct t as [|b t _] using rev_ind; [done|].
  rewrite rev_unit. cbn. rewrite last_snoc in H.
  destruct (head (t ++ [b])) eqn:E; [|by destruct t].
  assert (is_whitespace b = false) as -> by lia. cbn. by rewrite rev_involutive.
Qed.

Lemma trim_text_start_suffix t : exists p, t = (p ++ trim_text_start t)%list.
Proof.
  induction t as [|c t [p IH]]; cbn; [by exists []|].
  case_match; [|by exists []]. exists (c :: p). cbn. by rewrite <- IH.
Qed.

Lemma trim_text_start_head t a : head (trim_text_start t) = Some a -> is_whitespace a = false.
Proof. induction t as [|c t IH]; cbn; [done|]. case_match; [done|]. by intros [= <-]. Qed.

Lemma trim_text_end_prefix t : exists s, t = (trim_text_end t ++ s)%list.
Proof.
  unfold trim_text_end. destruct (trim_text_start_suffix (rev t)) as [p Hp].
  exists (rev p). by rewrite <- rev_app_distr, <- Hp, rev_involutive.
Qed.

Lemma last_rev {A} (l : list A) : last (rev l) = head l.
Proof. destruct l as [|x l]; [done|]. cbn. apply last_snoc. Qed.

Lemma trim_text_is_tight t : tight (trim_text t) = true.
Proof.
  unfold tight, trim_text. set (u := trim_text_start t).
  destruct (trim_text_end_prefix u) as [s Hs].
  destruct (head (trim_text_end u)) as [a|] eqn:Ha; [|done].
  destruct (last (trim_text_end u)) as [b|] eqn:Hb; [|done].
  assert (is_whitespace a = false) as ->.
  { apply (trim_text_start_head t). fold u. rewrite Hs. by destruct (trim_text_end u). }
  unfold trim_text_end in Hb. rewrite last_rev in Hb.
  by rewrite (trim_text_start_head (rev u) b Hb).
Qed.

Lemma trim_text_elem c t : c ∈ trim_text t -> c ∈ t.
Proof.
  unfold trim_text. destruct (trim_text_end_prefix (trim_text_start t)) as [s Hs].
  destruct (trim_text_start_suffix t) as [p Hp]. intros H. rewrite Hp, Hs. set_solver.
Qed.

Lemma split_text_elem c t p : p ∈ split_text c t -> c ∉ p.
Proof.
  revert p. induction t as [|x t IH]; cbn; intros p.
  - rewrite list_elem_of_singleton. intros ->. set_solver.
  - case_match eqn:E; [intros [->|?]%elem_of_cons; [set_solver|auto]|].
    destruct (split_text c t) as [|w ws] eqn:Es; [by destruct (split_text_nonempty c t)|].
    intros [->|?]%elem_of_cons; [|apply IH; set_solver].
    apply not_elem_of_cons. split; [lia|]. apply IH. set_solver.
Qed.
