(* ===== verification/KeyChord.v ===== *)
(** * Direct accelerators

    [Chord] of src/crates/yggterm-shell/src/keytip.rs: modifiers and a key, read from a spelling
    such as [Ctrl+Shift+T], written back in one canonical spelling, and judged against the
    terminal, which owns every chord it could encode itself. *)
From S2P Require Import Prelude RustStr RustChar.
From Stdlib Require Import ZifyBool ZifyN.
#[local] Open Scope N_scope.

Record Chord := mkChord { ctrl : bool; alt : bool; shift : bool; meta : bool; chord_key : text }.

#[export] Instance Chord_eq_dec : EqDecision Chord.
Proof. solve_decision. Defined.

Definition plus : N := 43.

Definition CTRL_NAMES : list text := [chars "ctrl"; chars "control"].
Definition ALT_NAMES : list text := [chars "alt"; chars "option"].
Definition SHIFT_NAMES : list text := [chars "shift"].
Definition META_NAMES : list text :=
  [chars "super"; chars "meta"; chars "cmd"; chars "command"; chars "win"].

(** One part of the spelling: empty parts are skipped, a modifier's name sets it, anything else is
    the key, the last one winning. *)
Definition parse_part (c : Chord) (raw : text) : Chord :=
  let part := text_lower (trim_text raw) in
  if decide (part = []) then c
  else if decide (part ∈ CTRL_NAMES) then mkChord true (alt c) (shift c) (meta c) (chord_key c)
  else if decide (part ∈ ALT_NAMES) then mkChord (ctrl c) true (shift c) (meta c) (chord_key c)
  else if decide (part ∈ SHIFT_NAMES) then mkChord (ctrl c) (alt c) true (meta c) (chord_key c)
  else if decide (part ∈ META_NAMES) then mkChord (ctrl c) (alt c) (shift c) true (chord_key c)
  else mkChord (ctrl c) (alt c) (shift c) (meta c) part.

Definition chord_parse (spec : text) : option Chord :=
  let chord := foldl parse_part (mkChord false false false false []) (split_text plus spec) in
  if decide (chord_key chord = []) then None else Some chord.

(** [f] and digits. *)
Definition f_digits (key : text) : bool :=
  match key with
  | f :: rest => (f =? 102) && forallb is_ascii_digit rest
  | [] => false
  end.

Definition display_key (key : text) : text :=
  if decide (key = chars "pageup") then chars "PageUp"
  else if decide (key = chars "pagedown") then chars "PageDown"
  else if f_digits key then text_upper key
  else match key with
       | first :: rest => char_upper first :: rest
       | [] => []
       end.

Definition chord_display (c : Chord) : text :=
  join_text plus
    ((if ctrl c then [chars "Ctrl"] else []) ++ (if alt c then [chars "Alt"] else []) ++
     (if shift c then [chars "Shift"] else []) ++ (if meta c then [chars "Super"] else []) ++
     [display_key (chord_key c)])%list.

Definition is_pty_safe (c : Chord) : bool :=
  if f_digits (chord_key c) && (2 <=? length (chord_key c))%nat then true
  else if meta c then true
  else if ctrl c && (shift c || alt c) then true
  else alt c && shift c.

(** ** The canonical spelling reads back *)

Definition MODIFIER_NAMES : list text := (CTRL_NAMES ++ ALT_NAMES ++ SHIFT_NAMES ++ META_NAMES)%list.

(** What [chord_parse] makes of a key. *)
Record canonical_key (k : text) : Prop := {
  key_nonempty : k <> [];
  key_lower : text_lower k = k;
  key_tight : tight k = true;
  key_no_plus : plus ∉ k;
  key_no_modifier : k ∉ MODIFIER_NAMES }.

Lemma whitespace_upper c : is_whitespace (char_upper c) = is_whitespace c.
Proof. unfold char_upper, is_whitespace, in_range. case_match; lia. Qed.

Lemma whitespace_lower c : is_whitespace (char_lower c) = is_whitespace c.
Proof. unfold char_lower, is_whitespace, in_range. case_match; lia. Qed.

Lemma plus_upper c : char_upper c = plus -> c = plus.
Proof. unfold char_upper, in_range, plus. case_match; lia. Qed.

Lemma plus_lower c : char_lower c = plus -> c = plus.
Proof. unfold char_lower, in_range, plus. case_match; lia. Qed.

(** What changes only case keeps the ends and the separator as they are. *)
Definition recased (t u : text) : Prop := Forall2 (fun a b => b = a \/ b = char_upper a \/ b = char_lower a) t u.

Lemma recased_tight t u : recased t u -> tight u = tight t.
Proof.
  assert (forall a b, b = a \/ b = char_upper a \/ b = char_lower a -> is_whitespace b = is_whitespace a) as Hw.
  { intros a b [->|[->| ->]]; auto using whitespace_upper, whitespace_lower. }
  intros H. unfold tight.
  assert (forall A B, option_Forall2 (fun a b => b = a \/ b = char_upper a \/ b = char_lower a) A B ->
    (is_whitespace <$> B) = (is_whitespace <$> A)) as Ho.
  { intros ? ? []; cbn; [|done]. f_equal. by apply Hw. }
  assert (option_Forall2 (fun a b => b = a \/ b = char_upper a \/ b = char_lower a) (head t) (head u)) as Hh%Ho
    by (destruct H; constructor; done).
  pose proof (Forall2_last _ _ _ H) as Hl%Ho.
  destruct (head t), (head u), (last t), (last u); cbn in *; congruence.
Qed.

Lemma recased_no_plus t u : recased t u -> plus ∉ t -> plus ∉ u.
Proof.
  induction 1 as [|a b t u Hab _ IH]; [done|]. rewrite !not_elem_of_cons. intros [? ?].
  split; [|by apply IH]. intros Hb. destruct Hab as [->|[->| ->]]; [done| |].
  - by apply eq_sym, plus_upper in Hb.
  - by apply eq_sym, plus_lower in Hb.
Qed.

Lemma recased_map f t :
  (forall a, f a = a \/ f a = char_upper a \/ f a = char_lower a) -> recased t (map f t).
Proof. intros Hf. induction t as [|a t IH]; constructor; auto. Qed.

Lemma recased_refl t : recased t t.
Proof. rewrite <- (map_id t) at 2. apply recased_map. auto. Qed.

Lemma recased_upper t : recased t (text_upper t).
Proof. apply recased_map. auto. Qed.

Lemma recased_lower t : recased t (text_lower t).
Proof. apply recased_map. auto. Qed.

(** The displayed key differs from the key in case only. *)
Lemma display_key_recased k : recased k (display_key k).
Proof.
  unfold display_key. case_decide as Hu; [subst; repeat (constructor; [vm_compute; auto|]); constructor|].
  case_decide as Hd; [subst; repeat (constructor; [vm_compute; auto|]); constructor|].
  destruct (f_digits k); [apply recased_upper|]. destruct k as [|c k]; [constructor|].
  constructor; [auto|apply recased_refl].
Qed.

Lemma display_key_lower k : text_lower (display_key k) = text_lower k.
Proof.
  unfold display_key. repeat case_match; subst; try done; [apply text_lower_upper|].
  cbn. by rewrite char_lower_upper.
Qed.

Lemma parse_part_key c k :
  canonical_key k ->
  parse_part c (display_key k) = mkChord (ctrl c) (alt c) (shift c) (meta c) k.
Proof.
  intros [Hne Hlow Htight _ Hmod]. unfold parse_part.
  rewrite trim_text_tight by (by rewrite (recased_tight _ _ (display_key_recased k))).
  rewrite display_key_lower, Hlow. unfold MODIFIER_NAMES in Hmod. rewrite !not_elem_of_app in Hmod.
  by repeat rewrite decide_False by tauto.
Qed.

(** Every canonical chord is read back from its display. *)
Lemma parse_display_canonical c : canonical_key (chord_key c) -> chord_parse (chord_display c) = Some c.
Proof.
  intros Hk. unfold chord_parse, chord_display.
  rewrite split_join_text.
  - rewrite foldl_app. destruct c as [[] [] [] [] k]; cbn -[parse_part display_key];
      rewrite parse_part_key by exact Hk; cbn; by rewrite decide_False by apply Hk.
  - by destruct (ctrl c), (alt c), (shift c), (meta c).
  - pose proof (recased_no_plus _ _ (display_key_recased (chord_key c)) (key_no_plus _ Hk)).
    destruct (ctrl c), (alt c), (shift c), (meta c); cbn -[display_key];
      repeat (constructor; [first [assumption|vm_compute; set_solver]|]); by constructor.
Qed.

(** The key of a chord under construction is empty or canonical. *)
Lemma parse_part_canonical c raw :
  plus ∉ raw -> (chord_key c = [] \/ canonical_key (chord_key c)) ->
  chord_key (parse_part c raw) = [] \/ canonical_key (chord_key (parse_part c raw)).
Proof.
  intros Hp Hc. unfold parse_part. repeat case_decide; try exact Hc. right. cbn.
  split; [done|apply text_lower_idemp| | |].
  - rewrite (recased_tight _ _ (recased_lower _)). apply trim_text_is_tight.
  - apply (recased_no_plus _ _ (recased_lower _)). intros ?%trim_text_elem. done.
  - unfold MODIFIER_NAMES. rewrite !not_elem_of_app. tauto.
Qed.

Lemma chord_parse_canonical spec c : chord_parse spec = Some c -> canonical_key (chord_key c).
Proof.
  unfold chord_parse. case_decide as Hne; [done|]. intros [= <-].
  assert (forall parts c, Forall (fun p => plus ∉ p) parts -> (chord_key c = [] \/ canonical_key (chord_key c)) ->
    chord_key (foldl parse_part c parts) = [] \/ canonical_key (chord_key (foldl parse_part c parts))) as Hfold.
  { induction parts as [|p parts IH]; cbn; [auto|]. intros c [? ?]%Forall_cons ?.
    apply IH; [done|]. by apply parse_part_canonical. }
  edestruct Hfold as [He|Hk]; [| |exfalso; exact (Hne He)|exact Hk].
  - apply Forall_forall. intros p ?. by eapply split_text_elem.
  - by left.
Qed.

(** Whatever spelling a chord was read from, its canonical spelling is read back as the same
    chord: what the keymap file is saved with gives the accelerators it was saved from. *)
Theorem chord_roundtrip spec c : chord_parse spec = Some c -> chord_parse (chord_display c) = Some c.
Proof. intros H. by apply parse_display_canonical, (chord_parse_canonical spec). Qed.

Theorem chord_roundtrip_witness :
  chord_parse (chord_display (mkChord true false true false (chars "pagedown"))) =
  Some (mkChord true false true false (chars "pagedown")).
Proof. apply (chord_roundtrip (chars " shift+PageDown +CTRL")). vm_compute. reflexivity. Defined.
