(* ===== verification/Keytip.v ===== *)
(** * Key tips: the letters one scope hands out

    src/crates/yggterm-shell/src/keytip.rs, the assignment half: what a scope declares, the
    user's keymap, and [assign_scope], which gives every declaration the keys that reach it.  A
    tip is one character, or two under a letter held back as a prefix; applications that ask for
    the same letter share it as a numbered group.

    A [usize] index stands with the declaration it names, and the [BTreeMap] of the letters asked
    for is the list of its entries by rising letter. *)
From S2P Require Import Prelude RustStr RustChar KeyChord.
From Stdlib Require Import ZifyBool ZifyN.
#[local] Open Scope N_scope.

Definition EXCEL_RESERVED_LETTERS : list N := chars "fhnpmarwxyq".

Definition reserved_letter (letter : N) : bool :=
  bool_decide (char_lower letter ∈ EXCEL_RESERVED_LETTERS).

(** [AppScope] is [ScopeId::App]; [App] below is [Origin::App]. *)
Inductive ScopeId :=
| Root | Insert | Settings | SettingsTheme | RowMenu | RowMenuSub (id : text) | SessionJump
| AppScope (id : text).

Definition as_str (s : ScopeId) : text :=
  match s with
  | Root => chars "root"
  | Insert => chars "insert.menu"
  | Settings => chars "settings"
  | SettingsTheme => chars "settings.theme"
  | RowMenu => chars "rowmenu"
  | RowMenuSub id => (chars "rowmenu." ++ id)%list
  | SessionJump => chars "session.jump"
  | AppScope id => (chars "app." ++ id)%list
  end.

Definition is_reserved_namespace (s : ScopeId) : bool :=
  match s with Root => true | _ => false end.

Inductive Origin := Shell | App.

Inductive Target := Run | Descend (scope : ScopeId).

Record KeyTipDecl := mkDecl {
  decl_key : text; decl_title : text; hint : option N; accel : option Chord;
  origin : Origin; decl_target : Target }.

Definition is_shell (d : KeyTipDecl) : bool := match origin d with Shell => true | App => false end.

Record GroupMember := mkMember {
  number : N; member_key : text; member_title : text; member_target : Target }.

Inductive AssignedNode :=
| Leaf (key title tip : text) (target : Target)
| Group (tip title : text) (members : list GroupMember).

Definition node_tip (n : AssignedNode) : text :=
  match n with Leaf _ _ tip _ => tip | Group tip _ _ => tip end.

Record KeymapConfig := mkKeymap {
  keytips : gmap text N; pinned : gmap text N; accelerators : gmap text Chord }.

Definition default_keymap : KeymapConfig := mkKeymap ∅ ∅ ∅.

Definition keytip_override (cfg : KeymapConfig) (key : text) : option N := keytips cfg !! key.

Definition set_keytip (key : text) (letter : N) (cfg : KeymapConfig) : KeymapConfig :=
  mkKeymap (<[key := char_lower letter]> (keytips cfg)) (pinned cfg) (accelerators cfg).

Definition clear_keytip (key : text) (cfg : KeymapConfig) : KeymapConfig :=
  mkKeymap (delete key (keytips cfg)) (pinned cfg) (accelerators cfg).

Definition pin_number (pin_key : text) (n : N) (cfg : KeymapConfig) : KeymapConfig :=
  mkKeymap (keytips cfg) (<[pin_key := n]> (pinned cfg)) (accelerators cfg).

Definition set_accel (key : text) (c : Chord) (cfg : KeymapConfig) : KeymapConfig :=
  mkKeymap (keytips cfg) (pinned cfg) (<[key := c]> (accelerators cfg)).

Definition clear_accel (key : text) (cfg : KeymapConfig) : KeymapConfig :=
  mkKeymap (keytips cfg) (pinned cfg) (delete key (accelerators cfg)).

Definition slash : N := 47.

Definition pin_key (scope : ScopeId) (letter : N) (key : text) : text :=
  (as_str scope ++ slash :: letter :: slash :: key)%list.

(** ** The pool of tips *)

Definition SINGLE_TIP_CAPACITY : nat := 36.
Definition TIPS_PER_PREFIX : nat := 36.
Definition LETTERS_BEFORE_OVERFLOW : nat := 26.

(** The letter a declaration wants: the user's, or its own. *)
Definition desired (keymap : KeymapConfig) (d : KeyTipDecl) : option N :=
  char_lower <$> match keytip_override keymap (decl_key d) with
                 | Some letter => Some letter
                 | None => hint d
                 end.

Fixpoint reserve (wanted : list N) (needed capacity : nat) (from : list N) : list N :=
  match from with
  | [] => []
  | letter :: from' =>
      if (needed <=? capacity)%nat then []
      else if bool_decide (letter ∈ wanted) then reserve wanted needed capacity from'
      else letter :: reserve wanted needed (capacity - 1 + TIPS_PER_PREFIX) from'
  end.

Definition overflow_prefixes (decls : list KeyTipDecl) (keymap : KeymapConfig) : list N :=
  let needed := length decls in
  if (needed <=? LETTERS_BEFORE_OVERFLOW)%nat then []
  else reserve (omap (desired keymap) decls) needed SINGLE_TIP_CAPACITY (rev letters).

Record TipPool := mkPool { taken : list N; prefixes : list N; pairs : list text }.

Definition single_free (pool : TipPool) (letter : N) : bool :=
  negb (bool_decide (char_lower letter ∈ taken pool)) &&
  negb (bool_decide (char_lower letter ∈ prefixes pool)).

Definition pair_free (pool : TipPool) (pair : text) : bool := negb (bool_decide (pair ∈ pairs pool)).

Definition claim (pool : TipPool) (tip : text) : TipPool :=
  match tip with
  | [] => pool
  | [letter] => mkPool (taken pool ++ [char_lower letter]) (prefixes pool) (pairs pool)
  | _ => mkPool (taken pool) (prefixes pool) (pairs pool ++ [text_lower tip])
  end.

Definition title_letters (d : KeyTipDecl) : list N :=
  map char_lower (List.filter is_ascii_alphanumeric (decl_title d)).

(** The closure [free] of [pick_tip]. *)
Definition may_take (pool : TipPool) (reserved_ns : bool) (d : KeyTipDecl) (letter : N) : bool :=
  single_free pool (char_lower letter) &&
  negb (reserved_ns && is_shell d && reserved_letter (char_lower letter)).

Definition pair_candidates (pool : TipPool) (d : KeyTipDecl) : list text :=
  flat_map (fun prefix => map (fun suffix => [prefix; suffix]) (title_letters d ++ letters ++ digits))
    (prefixes pool).

(** The rungs of the ladder below the hint. *)
Definition ladder (pool : TipPool) (reserved_ns : bool) (d : KeyTipDecl) : text :=
  let free := may_take pool reserved_ns d in
  match List.find free (title_letters d) with
  | Some letter => [letter]
  | None =>
  match List.find free letters with
  | Some letter => [letter]
  | None =>
  match List.find free digits with
  | Some digit => [digit]
  | None =>
  match List.find (pair_free pool) (pair_candidates pool d) with
  | Some two => two
  | None => [default 122 (head (title_letters d))]
  end end end end.

Definition pick_tip (d : KeyTipDecl) (wanted : option N) (pool : TipPool)
    (reserved_ns honor_hint : bool) : text :=
  match wanted with
  | Some letter =>
      if honor_hint && may_take pool reserved_ns d letter then [letter]
      else ladder pool reserved_ns d
  | None => ladder pool reserved_ns d
  end.

(** ** Numbered groups *)

(** [while used.contains(&next)]: each turn passes one number of [used]. *)
Fixpoint next_free (fuel : nat) (used : list N) (next : N) : N :=
  match fuel with
  | O => next
  | S fuel' => if bool_decide (next ∈ used) then next_free fuel' used (next + 1) else next
  end.

(** The indices of a scope, each with its declaration. *)
Abbreviation Claimant := (nat * KeyTipDecl)%type.

Definition by_index : Claimant -> Claimant -> bool := fun a b => (a.1 <=? b.1)%nat.

(** Pass A: the pinned numbers that nobody before has taken. *)
Definition honor_pin (scope : ScopeId) (letter : N) (keymap : KeymapConfig)
    (st : list N * gmap nat N) (c : Claimant) : list N * gmap nat N :=
  match pinned keymap !! pin_key scope letter (decl_key c.2) with
  | Some n => if bool_decide (n ∈ st.1) then st else ((st.1 ++ [n])%list, <[c.1 := n]> st.2)
  | None => st
  end.

Definition member_of (n : N) (d : KeyTipDecl) : GroupMember :=
  mkMember n (decl_key d) (decl_title d) (decl_target d).

Record Numbering := mkNumbering { used : list N; next : N; members : list GroupMember }.

(** Pass B: the rest in their order, with the next free numbers. *)
Definition number_one (pinned_for : gmap nat N) (st : Numbering) (c : Claimant) : Numbering :=
  match pinned_for !! c.1 with
  | Some n => mkNumbering (used st) (next st) (members st ++ [member_of n c.2])
  | None =>
      let n := next_free (S (length (used st))) (used st) (next st) in
      mkNumbering (used st ++ [n]) n (members st ++ [member_of n c.2])
  end.

Definition by_number (a b : GroupMember) : bool := number a <=? number b.

Definition number_group (scope : ScopeId) (letter : N) (claimants : list Claimant)
    (keymap : KeymapConfig) : list GroupMember :=
  let ordered := stable_sort by_index claimants in
  let '(used, pinned_for) := foldl (honor_pin scope letter keymap) ([], ∅) ordered in
  stable_sort by_number (members (foldl (number_one pinned_for) (mkNumbering used 1 []) ordered)).

(** ** The assignment *)

Record Assignment := mkAssignment { pool : TipPool; nodes : gmap nat AssignedNode }.

Definition leaf (d : KeyTipDecl) (tip : text) : AssignedNode :=
  Leaf (decl_key d) (decl_title d) tip (decl_target d).

(** One declaration of the passes that use the ladder. *)
Definition lay (keymap : KeymapConfig) (reserved_ns honor_hint : bool) (st : Assignment)
    (c : Claimant) : Assignment :=
  let wanted := if honor_hint then desired keymap c.2 else None in
  let tip := pick_tip c.2 wanted (pool st) reserved_ns honor_hint in
  mkAssignment (claim (pool st) tip) (<[c.1 := leaf c.2 tip]> (nodes st)).

(** [entry(letter).or_default().push(idx)]. *)
Fixpoint push_to (letter : N) (c : Claimant) (m : list (N * list Claimant)) :
    list (N * list Claimant) :=
  match m with
  | [] => [(letter, [c])]
  | (l, cs) :: m' =>
      if letter =? l then (l, cs ++ [c]) :: m'
      else if letter <? l then (letter, [c]) :: m
      else (l, cs) :: push_to letter c m'
  end.

Definition sort_app (keymap : KeymapConfig) (pool : TipPool)
    (st : list (N * list Claimant) * list Claimant) (c : Claimant) :
    list (N * list Claimant) * list Claimant :=
  match desired keymap c.2 with
  | Some letter =>
      if single_free pool letter then (push_to letter c st.1, st.2) else (st.1, (st.2 ++ [c])%list)
  | None => (st.1, (st.2 ++ [c])%list)
  end.

Definition GROUP_TITLE : text := (chars "New " ++ [8230])%list.

Definition claim_letter (scope : ScopeId) (keymap : KeymapConfig) (st : Assignment)
    (entry : N * list Claimant) : Assignment :=
  let '(letter, claimants) := entry in
  let pool := claim (pool st) [letter] in
  match claimants with
  | [(idx, d)] => mkAssignment pool (<[idx := leaf d [letter]]> (nodes st))
  | [] => mkAssignment pool (nodes st)
  | (idx, _) :: rest =>
      let group_idx := foldl (fun least c => Nat.min least c.1) idx rest in
      mkAssignment pool
        (<[group_idx := Group [letter] GROUP_TITLE (number_group scope letter claimants keymap)]>
          (nodes st))
  end.

Definition indexed (decls : list KeyTipDecl) : list Claimant := imap pair decls.

Definition from_shell (c : Claimant) : bool := is_shell c.2.

(** Passes 2 and 3: the letters applications ask for, then the applications that asked for none
    that was free. *)
Definition app_passes (scope : ScopeId) (keymap : KeymapConfig) (st : Assignment)
    (apps : list Claimant) : Assignment :=
  let '(app_by_letter, app_ladder) := foldl (sort_app keymap (pool st)) ([], []) apps in
  let st := foldl (claim_letter scope keymap) st app_by_letter in
  foldl (lay keymap (is_reserved_namespace scope) false) st app_ladder.

(** Pass 1, the shell's declarations, in front of them. *)
Definition assign_passes (scope : ScopeId) (decls : list KeyTipDecl) (keymap : KeymapConfig) : Assignment :=
  let st := mkAssignment (mkPool [] (overflow_prefixes decls keymap) []) ∅ in
  let st := foldl (lay keymap (is_reserved_namespace scope) true) st
    (List.filter from_shell (indexed decls)) in
  app_passes scope keymap st (List.filter (fun c => negb (from_shell c)) (indexed decls)).

(** The seats, in render order. *)
Definition assign_scope (scope : ScopeId) (decls : list KeyTipDecl) (keymap : KeymapConfig) :
    list AssignedNode :=
  omap (fun idx => nodes (assign_passes scope decls keymap) !! idx) (seq 0 (length decls)).

(** ** Room: when the tips of a scope cannot run out *)

(** With [p] prefixes held back there are [36 - p] single tips and [36 * p] pairs; at the root a
    shell command cannot use the eleven reserved letters. *)
Definition roomy (scope : ScopeId) (decls : list KeyTipDecl) (keymap : KeymapConfig) : bool :=
  let capacity := (SINGLE_TIP_CAPACITY + 35 * length (overflow_prefixes decls keymap))%nat in
  (length decls <=? capacity)%nat &&
  (negb (is_reserved_namespace scope) ||
   (length (List.filter is_shell decls) + length EXCEL_RESERVED_LETTERS <=? capacity)%nat).

(** The letters the reservation may hold back. *)
Definition outside (wanted from : list N) : list N :=
  List.filter (fun letter => negb (bool_decide (letter ∈ wanted))) from.

Abbreviation unwanted decls keymap := (outside (omap (desired keymap) decls) letters).

Lemma reserve_sublist wanted needed capacity from :
  reserve wanted needed capacity from `sublist_of` from.
Proof.
  revert capacity. induction from as [|l from IH]; intros capacity; [done|]. cbn.
  repeat case_match; [apply sublist_nil_l|apply sublist_cons, IH|apply sublist_skip, IH].
Qed.

Lemma reserve_capacity wanted needed capacity from :
  (1 <= capacity)%nat ->
  (needed <= capacity + 35 * length (outside wanted from))%nat ->
  (needed <= capacity + 35 * length (reserve wanted needed capacity from))%nat.
Proof.
  revert capacity. unfold outside. induction from as [|l from IH]; intros capacity H1 H; cbn in *; [lia|].
  destruct (needed <=? capacity)%nat eqn:E; [cbn; lia|].
  destruct (bool_decide (l ∈ wanted)); cbn in *; [by apply IH|].
  assert (needed <= (capacity - 1 + TIPS_PER_PREFIX) +
    35 * length (reserve wanted needed (capacity - 1 + TIPS_PER_PREFIX) from))%nat
    by (apply IH; unfold TIPS_PER_PREFIX; lia).
  unfold TIPS_PER_PREFIX in *. lia.
Qed.

Lemma outside_rev wanted from : length (outside wanted (rev from)) = length (outside wanted from).
Proof.
  unfold outside. induction from as [|x from IH]; [done|]. cbn.
  rewrite List.filter_app, length_app, IH. cbn. case_match; cbn; lia.
Qed.

(** Below the root there is always room while the letters nobody asked for suffice. *)
Lemma roomy_unwanted scope decls keymap :
  is_reserved_namespace scope = false ->
  (length decls <= SINGLE_TIP_CAPACITY + 35 * length (unwanted decls keymap))%nat ->
  roomy scope decls keymap = true.
Proof.
  intros Hns H. unfold roomy. rewrite Hns. cbn [negb orb]. rewrite andb_true_r. apply Nat.leb_le.
  unfold overflow_prefixes. case_match eqn:E;
    [apply Nat.leb_le in E; etrans; [exact E|]; apply Nat.leb_le; reflexivity|].
  apply reserve_capacity; [apply Nat.leb_le; reflexivity|]. rewrite outside_rev. exact H.
Qed.

Lemma roomy_small scope decls keymap :
  (length decls + length EXCEL_RESERVED_LETTERS <= SINGLE_TIP_CAPACITY)%nat ->
  roomy scope decls keymap = true.
Proof.
  intros H. unfold roomy. apply andb_true_iff. split; [apply Nat.leb_le; lia|].
  apply orb_true_iff. right. apply Nat.leb_le.
  pose proof (List.filter_length_le is_shell decls). lia.
Qed.

Lemma overflow_prefixes_letters decls keymap : overflow_prefixes decls keymap ⊆ letters.
Proof.
  unfold overflow_prefixes. case_match; [set_solver|]. intros l Hl.
  pose proof (reserve_sublist (omap (desired keymap) decls) (length decls) SINGLE_TIP_CAPACITY (rev letters)).
  rewrite list_elem_of_In, in_rev, <- list_elem_of_In. by eapply elem_of_submseteq, sublist_submseteq.
Qed.

Lemma NoDup_letters : NoDup letters.
Proof. apply (bool_decide_unpack (NoDup letters)). vm_compute. exact I. Qed.

Lemma NoDup_singles : NoDup (letters ++ digits)%list.
Proof. apply (bool_decide_unpack (NoDup (letters ++ digits)%list)). vm_compute. exact I. Qed.

Lemma NoDup_overflow_prefixes decls keymap : NoDup (overflow_prefixes decls keymap).
Proof.
  unfold overflow_prefixes. case_match; [constructor|].
  eapply sublist_NoDup; [|apply reserve_sublist].
  rewrite NoDup_ListNoDup. apply NoDup_rev. rewrite <- NoDup_ListNoDup. apply NoDup_letters.
Qed.

(** ** The pool's invariant: tips are taken once, and a prefix is never a tip *)

Definition claimed (pool : TipPool) : list text := (map (fun c => [c]) (taken pool) ++ pairs pool)%list.

(** The two shapes of a tip under the prefixes [ps]. *)
Definition single_shape (ps : list N) (c : N) : Prop := char_lower c = c /\ c ∉ ps.

Definition pair_shape (ps : list N) (tip : text) : Prop :=
  text_lower tip = tip /\ exists p s, tip = [p; s] /\ p ∈ ps.

Definition tip_shape (ps : list N) (tip : text) : Prop :=
  (exists c, tip = [c] /\ single_shape ps c) \/ pair_shape ps tip.

Record pool_ok (ps : list N) (pool : TipPool) : Prop := {
  ok_prefixes : prefixes pool = ps;
  ok_nodup : NoDup (claimed pool);
  ok_taken : Forall (single_shape ps) (taken pool);
  ok_pairs : Forall (pair_shape ps) (pairs pool) }.

(** No tip is the beginning of another. *)
Lemma tip_shape_prefix ps t u : tip_shape ps t -> tip_shape ps u -> t `prefix_of` u -> t = u.
Proof.
  intros [(c & -> & _ & Hc)|(_ & p & s & -> & Hp)] [(d & -> & _ & Hd)|(_ & q & r & -> & Hq)] [k Hk];
    destruct k as [|? [|? ?]]; cbn in Hk; try discriminate; injection Hk; intros; subst; done.
Qed.

Lemma tip_shape_lower ps t : tip_shape ps t -> text_lower t = t.
Proof. intros [(c & -> & H & _)|[H _]]; [cbn; by rewrite H|done]. Qed.

Lemma claim_taken ps pool c :
  single_shape ps c -> claim pool [c] = mkPool (taken pool ++ [c]) (prefixes pool) (pairs pool).
Proof. intros [H _]. cbn. by rewrite H. Qed.

Lemma claim_pair ps pool t :
  pair_shape ps t -> claim pool t = mkPool (taken pool) (prefixes pool) (pairs pool ++ [t]).
Proof. intros [H (p & s & -> & _)]. unfold claim. by rewrite H. Qed.

Lemma claim_perm ps pool t : tip_shape ps t -> claimed (claim pool t) ≡ₚ t :: claimed pool.
Proof.
  intros [(c & -> & H)|H]; unfold claimed.
  - rewrite (claim_taken ps) by exact H. cbn [taken pairs]. rewrite map_app, <- app_assoc. cbn.
    symmetry. apply Permutation_middle.
  - rewrite (claim_pair ps) by exact H. cbn [taken pairs]. rewrite app_assoc.
    symmetry. apply Permutation_cons_append.
Qed.

Lemma claim_ok ps pool t :
  pool_ok ps pool -> tip_shape ps t -> t ∉ claimed pool -> pool_ok ps (claim pool t).
Proof.
  intros [Hps Hnd Htk Hpr] Ht Hfresh. split.
  - destruct Ht as [(c & -> & _)|[_ (p & s & -> & _)]]; exact Hps.
  - rewrite (claim_perm ps) by exact Ht. by constructor.
  - destruct Ht as [(c & -> & H)|H]; [rewrite (claim_taken ps) by exact H|by rewrite (claim_pair ps)].
    apply Forall_app; auto.
  - destruct Ht as [(c & -> & H)|H]; [by rewrite (claim_taken ps)|rewrite (claim_pair ps) by exact H].
    apply Forall_app; auto.
Qed.

Lemma claimed_single ps pool c : pool_ok ps pool -> [c] ∈ claimed pool <-> c ∈ taken pool.
Proof.
  intros Hok. unfold claimed. rewrite elem_of_app, list_elem_of_fmap. split.
  - intros [(d & [= ->] & ?)|H]; [done|].
    pose proof (ok_pairs _ _ Hok) as Hp. rewrite Forall_forall in Hp.
    by apply Hp in H as [_ (p & s & ? & _)].
  - intros ?. left. by exists c.
Qed.

Lemma claimed_pair pool p s : [p; s] ∈ claimed pool <-> [p; s] ∈ pairs pool.
Proof.
  unfold claimed. rewrite elem_of_app, list_elem_of_fmap. split; [|by right].
  by intros [(d & [=] & _)|H].
Qed.

Lemma claimed_shape ps pool t : pool_ok ps pool -> t ∈ claimed pool -> tip_shape ps t.
Proof.
  intros [_ _ Htk Hpr]. rewrite Forall_forall in Htk. rewrite Forall_forall in Hpr.
  intros [(c & -> & Hc)%list_elem_of_fmap|H]%elem_of_app; [left; exists c|right].
  - split; [done|by apply Htk].
  - by apply Hpr.
Qed.

Lemma single_free_spec ps pool c :
  pool_ok ps pool -> char_lower c = c ->
  single_free pool c = true <-> single_shape ps c /\ [c] ∉ claimed pool.
Proof.
  intros Hok Hc. unfold single_free, single_shape. rewrite Hc, (ok_prefixes _ _ Hok), (claimed_single ps) by done.
  rewrite andb_true_iff, !negb_true_iff, !bool_decide_eq_false. tauto.
Qed.

(** ** Picking a tip *)

Lemma find_Some_spec {A} (f : A -> bool) l x : List.find f l = Some x -> x ∈ l /\ f x = true.
Proof. intros H. rewrite list_elem_of_In. by apply List.find_some in H. Qed.

Lemma find_None_spec {A} (f : A -> bool) l x : List.find f l = None -> x ∈ l -> f x = false.
Proof. rewrite list_elem_of_In. intros H Hx. exact (List.find_none f l H x Hx). Qed.

Lemma title_letters_single d c : c ∈ title_letters d -> c ∈ (letters ++ digits)%list.
Proof.
  unfold title_letters. intros (x & -> & Hx)%list_elem_of_fmap.
  apply list_elem_of_In, filter_In in Hx as [_ Hx]. by apply alphanumeric_lower.
Qed.

Lemma single_lower c : c ∈ (letters ++ digits)%list -> char_lower c = c.
Proof. intros [?|?]%elem_of_app; [by apply letter_lower|by apply digit_lower]. Qed.

Lemma may_take_spec ps pool reserved_ns d c :
  pool_ok ps pool -> char_lower c = c ->
  may_take pool reserved_ns d c = true <->
  single_shape ps c /\ ([c] ∉ claimed pool) /\
  ((reserved_ns && is_shell d) = true -> reserved_letter c = false).
Proof.
  intros Hok Hc. unfold may_take. rewrite Hc, andb_true_iff, (single_free_spec ps) by done.
  rewrite negb_true_iff. destruct (reserved_ns && is_shell d); cbn; intuition congruence.
Qed.

(** What a tip must be for a declaration to be reached by it alone. *)
Definition fresh_tip (ps : list N) (pool : TipPool) (reserved_ns : bool) (d : KeyTipDecl) (t : text) : Prop :=
  tip_shape ps t /\ (t ∉ claimed pool) /\
  ((reserved_ns && is_shell d) = true -> forall c, t = [c] -> reserved_letter c = false).

Lemma may_take_fresh ps pool reserved_ns d c :
  pool_ok ps pool -> char_lower c = c -> may_take pool reserved_ns d c = true ->
  fresh_tip ps pool reserved_ns d [c].
Proof.
  intros Hok Hc (? & ? & Hr)%(may_take_spec ps); [|done|done].
  split; [left; by exists c|]. split; [done|]. intros Hres c' [= <-]. by apply Hr.
Qed.

Lemma pair_candidates_spec ps pool d t :
  pool_ok ps pool -> ps ⊆ letters -> t ∈ pair_candidates pool d ->
  exists p s, t = [p; s] /\ p ∈ ps /\ s ∈ (letters ++ digits)%list.
Proof.
  intros Hok Hps. unfold pair_candidates. rewrite list_elem_of_In, in_flat_map.
  intros (p & Hp & (s & <- & Hs)%in_map_iff). exists p, s. rewrite <- (ok_prefixes _ _ Hok), list_elem_of_In.
  split; [done|]. split; [done|]. rewrite <- list_elem_of_In in Hs.
  apply elem_of_app in Hs as [?%title_letters_single|?]; done.
Qed.

Lemma NoDup_product {A B} (l : list A) (k : list B) : NoDup l -> NoDup k -> NoDup (list_prod l k).
Proof.
  intros Hl Hk. induction Hl as [|x l Hx Hl IH]; cbn; [constructor|].
  apply NoDup_app. split; [|split; [|exact IH]].
  - apply NoDup_fmap_2; [|done]. by intros ? ? [=].
  - intros [a b] (y & [= -> ->] & _)%list_elem_of_fmap. rewrite list_elem_of_In, in_prod_iff.
    intros [? _]. by apply Hx, list_elem_of_In.
Qed.

(** All pairs under the prefixes. *)
Definition all_pairs (ps : list N) : list text :=
  map (fun q => [q.1; q.2]) (list_prod ps (letters ++ digits)%list).

Lemma all_pairs_length ps : length (all_pairs ps) = (36 * length ps)%nat.
Proof. unfold all_pairs. rewrite length_map, length_prod. cbn [length letters]. rewrite length_app. cbn. lia. Qed.

Lemma all_pairs_NoDup ps : NoDup ps -> NoDup (all_pairs ps).
Proof.
  intros H. apply NoDup_fmap_2.
  - intros [] [] [=]; cbn in *; congruence.
  - apply NoDup_product; [done|apply NoDup_singles].
Qed.

(** With everything taken, the count of what is taken is the capacity. *)
Lemma exhausted ps pool reserved_ns d :
  pool_ok ps pool -> NoDup ps ->
  (forall c, c ∈ (letters ++ digits)%list -> may_take pool reserved_ns d c = false) ->
  (forall t, t ∈ all_pairs ps -> t ∈ claimed pool) ->
  (36 + 35 * length ps <= length (claimed pool) +
    (if reserved_ns && is_shell d then length EXCEL_RESERVED_LETTERS else 0))%nat.
Proof.
  intros Hok Hnd Hs Hp. set (R := if reserved_ns && is_shell d then EXCEL_RESERVED_LETTERS else []).
  assert (length (letters ++ digits) <= length (taken pool ++ ps ++ R))%nat as H1.
  { apply submseteq_length, NoDup_submseteq; [apply NoDup_singles|]. intros c Hc.
    specialize (Hs c Hc). rewrite !elem_of_app.
    destruct (decide (c ∈ taken pool)); [by left|]. destruct (decide (c ∈ ps)); [by right; left|].
    right; right. assert (~ may_take pool reserved_ns d c = true) as Hm by congruence.
    rewrite (may_take_spec ps), (claimed_single ps) in Hm by (done || by apply single_lower).
    unfold single_shape, R in *. destruct (reserved_ns && is_shell d).
    - destruct (reserved_letter c) eqn:E.
      + apply bool_decide_eq_true in E. by rewrite (single_lower c Hc) in E.
      + destruct Hm. split; [split; [by apply single_lower|done]|]. done.
    - destruct Hm. split; [split; [by apply single_lower|done]|]. done. }
  assert (length (all_pairs ps) <= length (pairs pool))%nat as H2.
  { apply submseteq_length, NoDup_submseteq; [by apply all_pairs_NoDup|]. intros t Ht.
    specialize (Hp t Ht). apply list_elem_of_fmap in Ht as (q & -> & _). by apply claimed_pair. }
  rewrite all_pairs_length in H2. rewrite !length_app in H1. unfold claimed. rewrite length_app, length_map.
  unfold R in H1. change (length letters) with 26%nat in H1. change (length digits) with 10%nat in H1.
  unfold text in *. destruct (reserved_ns && is_shell d); cbn [length] in *; lia.
Qed.

Lemma ladder_fresh ps pool reserved_ns d :
  pool_ok ps pool -> NoDup ps -> ps ⊆ letters ->
  (length (claimed pool) + (if reserved_ns && is_shell d then length EXCEL_RESERVED_LETTERS else 0)
    < 36 + 35 * length ps)%nat ->
  fresh_tip ps pool reserved_ns d (ladder pool reserved_ns d).
Proof.
  intros Hok Hnd Hps Hroom. unfold ladder.
  destruct (List.find _ (title_letters d)) as [c|] eqn:E1.
  { apply find_Some_spec in E1 as [?%title_letters_single%single_lower ?]. by apply may_take_fresh. }
  destruct (List.find _ letters) as [c|] eqn:E2.
  { apply find_Some_spec in E2 as [?%letter_lower ?]. by apply may_take_fresh. }
  destruct (List.find _ digits) as [c|] eqn:E3.
  { apply find_Some_spec in E3 as [?%digit_lower ?]. by apply may_take_fresh. }
  destruct (List.find _ (pair_candidates pool d)) as [t|] eqn:E4.
  { apply find_Some_spec in E4 as [Ht Hfree].
    destruct (pair_candidates_spec ps pool d t Hok Hps Ht) as (p & s & -> & Hp & Hs).
    unfold pair_free in Hfree. rewrite negb_true_iff, bool_decide_eq_false in Hfree.
    split; [|split; [by rewrite claimed_pair|by intros _ c [=]]]. right. split; [|by exists p, s].
    cbn. by rewrite letter_lower, single_lower by auto. }
  exfalso. apply Nat.lt_nge in Hroom. apply Hroom. clear Hroom.
  apply exhausted; [done|done| |].
  - intros c [Hc|Hc]%elem_of_app; [by apply (find_None_spec _ _ _ E2)|by apply (find_None_spec _ _ _ E3)].
  - intros t Ht. unfold all_pairs in Ht. apply list_elem_of_fmap in Ht as ([p s] & -> & Hq).
    apply list_elem_of_In, in_prod_iff in Hq as [Hp Hs]. rewrite <- list_elem_of_In in Hp, Hs.
    apply claimed_pair. cbn.
    assert (pair_free pool [p; s] = false) as Hf.
    { apply (find_None_spec _ _ _ E4). unfold pair_candidates. rewrite list_elem_of_In, in_flat_map.
      exists p. rewrite <- list_elem_of_In, (ok_prefixes _ _ Hok). split; [done|].
      apply in_map_iff. exists s. rewrite <- list_elem_of_In. split; [done|]. set_solver. }
    unfold pair_free in Hf. by rewrite negb_false_iff, bool_decide_eq_true in Hf.
Qed.

Lemma pick_tip_fresh ps pool reserved_ns honor_hint d wanted :
  pool_ok ps pool -> NoDup ps -> ps ⊆ letters ->
  (forall c, wanted = Some c -> char_lower c = c) ->
  (length (claimed pool) + (if reserved_ns && is_shell d then length EXCEL_RESERVED_LETTERS else 0)
    < 36 + 35 * length ps)%nat ->
  fresh_tip ps pool reserved_ns d (pick_tip d wanted pool reserved_ns honor_hint).
Proof.
  intros Hok Hnd Hps Hw Hroom. unfold pick_tip. destruct wanted as [c|]; [|by apply ladder_fresh].
  destruct (honor_hint && may_take pool reserved_ns d c) eqn:E; [|by apply ladder_fresh].
  apply andb_true_iff in E as [_ E]. apply may_take_fresh; auto.
Qed.

(** ** Numbering: distinct numbers, pins honoured *)

Lemma next_free_bounds fuel used next :
  next <= next_free fuel used next <= next + N.of_nat fuel.
Proof.
  revert next. induction fuel as [|fuel IH]; intros next; cbn; [lia|].
  case_match; [|lia]. specialize (IH (next + 1)). lia.
Qed.

(** The numbers passed over are all used, so the fuel outlasts them. *)
Lemma next_free_passed fuel used next n :
  next <= n < next_free fuel used next -> n ∈ used.
Proof.
  revert next. induction fuel as [|fuel IH]; intros next; cbn; [lia|].
  case_bool_decide; [|lia]. intros ?. destruct (decide (n = next)) as [->|]; [done|].
  apply (IH (next + 1)). lia.
Qed.

Lemma next_free_fresh used next : next_free (S (length used)) used next ∉ used.
Proof.
  set (fuel := S (length used)). set (r := next_free fuel used next).
  assert (forall f nx, next_free f used nx ∈ used -> next_free f used nx = nx + N.of_nat f) as Hfull.
  { induction f as [|f IH]; intros nx; cbn; [lia|]. case_bool_decide; [|done]. intros H'%IH. lia. }
  intros Hin. pose proof (Hfull _ _ Hin) as Hr. fold r in Hr.
  assert (length (map (fun i => (next + N.of_nat i)%N) (seq 0 fuel)) <= length used)%nat as Hlen; [|
    rewrite length_map, length_seq in Hlen; unfold fuel in Hlen; lia].
  apply submseteq_length, NoDup_submseteq.
  - assert (Inj eq eq (fun i => next + N.of_nat i)) by (intros ? ? ?; lia).
    apply NoDup_fmap_2; [done|apply NoDup_seq].
  - intros x (i & -> & [? ?]%elem_of_seq)%list_elem_of_fmap. apply (next_free_passed fuel _ next).
    fold r. lia.
Qed.

(** Pass A keeps a partial injection into the used numbers. *)
Definition pins_ok (st : list N * gmap nat N) : Prop :=
  (forall i n, st.2 !! i = Some n -> n ∈ st.1) /\
  (forall i j n, st.2 !! i = Some n -> st.2 !! j = Some n -> i = j).

Lemma honor_pin_ok scope letter keymap st c :
  pins_ok st -> pins_ok (honor_pin scope letter keymap st c).
Proof.
  intros [Hu Hi]. unfold honor_pin. destruct (pinned keymap !! _) as [n|]; [|done].
  case_bool_decide as Hn; [done|]. split; cbn.
  - intros i m Him. apply lookup_insert_Some in Him as [[_ <-]|[_ ?]]; set_solver.
  - intros i j m Him Hjm.
    apply lookup_insert_Some in Him as [[<- <-]|[_ Him]];
      apply lookup_insert_Some in Hjm as [[Hj Hm]|[_ Hjm]]; subst; eauto; by destruct Hn; eauto.
Qed.

Lemma honor_pins_ok scope letter keymap l st :
  pins_ok st -> pins_ok (foldl (honor_pin scope letter keymap) st l).
Proof. revert st. induction l as [|c l IH]; intros st H; cbn; [done|]. by apply IH, honor_pin_ok. Qed.

Lemma honor_pins_untouched scope letter keymap l st i :
  i ∉ map fst l -> (foldl (honor_pin scope letter keymap) st l).2 !! i = st.2 !! i.
Proof.
  revert st. induction l as [|c l IH]; intros st; cbn; [done|]. rewrite not_elem_of_cons. intros [? ?].
  rewrite IH by done. unfold honor_pin. repeat case_match; try done. cbn. by rewrite lookup_insert_ne.
Qed.

Lemma honor_pins_used scope letter keymap l st n :
  n ∈ (foldl (honor_pin scope letter keymap) st l).1 ->
  n ∈ st.1 \/ exists c, c ∈ l /\ pinned keymap !! pin_key scope letter (decl_key c.2) = Some n.
Proof.
  revert st. induction l as [|c l IH]; intros st; cbn; [by left|].
  intros [H|(c' & ? & ?)]%IH; [|right; exists c'; set_solver].
  unfold honor_pin in H. case_match eqn:E; [|by left]. case_match; [by left|]. cbn in H.
  apply elem_of_app in H as [?| ->%list_elem_of_singleton]; [by left|]. right. exists c. set_solver.
Qed.

(** A pin nobody else in the group has is kept. *)
Lemma honor_pins_kept scope letter keymap l st c n :
  NoDup (map fst l) -> c ∈ l -> pinned keymap !! pin_key scope letter (decl_key c.2) = Some n ->
  (forall c', c' ∈ l -> pinned keymap !! pin_key scope letter (decl_key c'.2) = Some n -> c' = c) ->
  n ∉ st.1 -> (foldl (honor_pin scope letter keymap) st l).2 !! c.1 = Some n.
Proof.
  revert st. induction l as [|x l IH]; intros st Hnd Hc Hpin Huniq Hn; [set_solver|].
  cbn in Hnd. apply NoDup_cons in Hnd as [Hx Hnd]. cbn. apply elem_of_cons in Hc as [->|Hc].
  - rewrite honor_pins_untouched by done. unfold honor_pin. rewrite Hpin.
    rewrite bool_decide_eq_false_2 by done. cbn. by rewrite lookup_insert_eq.
  - apply IH; auto.
    { intros c' ?. apply Huniq. set_solver. }
    unfold honor_pin. case_match eqn:E; [|done]. case_match; [done|]. cbn.
    rewrite elem_of_app, list_elem_of_singleton. intros [?|<-]; [done|].
    apply Hx. rewrite (Huniq x) by (done || set_solver). by apply (list_elem_of_fmap_2 fst).
Qed.

(** Pass B: every claimant gets its pin, or a number nobody has. *)
Lemma number_all pinned_for st l :
  NoDup (map fst l) ->
  (forall i n, pinned_for !! i = Some n -> n ∈ used st) ->
  (forall i j n, pinned_for !! i = Some n -> pinned_for !! j = Some n -> i = j) ->
  NoDup (map number (members st)) ->
  (forall n, n ∈ map number (members st) -> n ∈ used st /\ forall i, i ∈ map fst l -> pinned_for !! i <> Some n) ->
  exists ns, members (foldl (number_one pinned_for) st l) =
      (members st ++ zip_with (fun n c => member_of n c.2) ns l)%list /\
    length ns = length l /\ NoDup (map number (members st) ++ ns)%list /\
    (forall i c n, l !! i = Some c -> pinned_for !! c.1 = Some n -> ns !! i = Some n).
Proof.
  revert st. induction l as [|c l IH]; intros st Hnd Hused Hinj Hndm Hmem.
  { exists []. cbn. rewrite !app_nil_r. split; [done|]. split; [done|]. by split. }
  cbn in Hnd. apply NoDup_cons in Hnd as [Hc Hnd]. cbn.
  set (n := match pinned_for !! c.1 with Some n => n | None => next_free (S (length (used st))) (used st) (next st) end).
  assert (members (number_one pinned_for st c) = (members st ++ [member_of n c.2])%list) as Hms
    by (unfold number_one, n; by destruct (pinned_for !! c.1)).
  assert (forall x, x ∈ used (number_one pinned_for st c) <-> x ∈ used st \/ x = n) as Hus.
  { unfold number_one, n. intros x. destruct (pinned_for !! c.1) as [m|] eqn:E; cbn.
    - split; [by left|]. intros [?| ->]; [done|]. by eapply Hused.
    - rewrite elem_of_app, list_elem_of_singleton. done. }
  assert (n ∉ map number (members st)) as Hnew.
  { intros [Hn Hp]%Hmem. unfold n in Hn, Hp. destruct (pinned_for !! c.1) as [m|] eqn:E.
    - by apply (Hp c.1); [left|].
    - by apply next_free_fresh in Hn. }
  destruct (IH (number_one pinned_for st c)) as (ns & Hm & Hlen & Hnd' & Hpin).
  - done.
  - intros i m Hi. rewrite Hus. left. by eapply Hused.
  - done.
  - rewrite Hms, map_app. apply NoDup_app. split; [done|]. split; [|apply NoDup_singleton].
    intros x Hx Hx'. apply list_elem_of_singleton in Hx' as ->. by apply Hnew.
  - intros x. rewrite Hms, map_app, elem_of_app, Hus. cbn [map number member_of]. rewrite list_elem_of_singleton.
    intros [Hx| ->].
    + destruct (Hmem _ Hx) as [Hxu Hxp]. split; [by left|]. intros i Hi. apply Hxp. by right.
    + split; [by right|]. intros i Hi He. unfold n in He. destruct (pinned_for !! c.1) as [m|] eqn:E.
      * by rewrite (Hinj _ _ _ He E) in Hi.
      * apply Hused in He. by apply next_free_fresh in He.
  - exists (n :: ns). rewrite Hm, Hms. cbn. split; [by rewrite <- app_assoc|].
    split; [by rewrite Hlen|]. rewrite Hms, map_app, <- app_assoc in Hnd'. split; [exact Hnd'|].
    intros [|i] c' m; cbn; [|apply Hpin]. intros [= <-] He. unfold n. by rewrite He.
Qed.

(** A member without its number is the declaration it stands for. *)
Definition unnumbered (m : GroupMember) : text * text * Target := (member_key m, member_title m, member_target m).
Definition identity (d : KeyTipDecl) : text * text * Target := (decl_key d, decl_title d, decl_target d).

Lemma zip_members ns cs :
  length ns = length cs ->
  map number (zip_with (fun n (c : Claimant) => member_of n c.2) ns cs) = ns /\
  map unnumbered (zip_with (fun n (c : Claimant) => member_of n c.2) ns cs) = map (fun c => identity c.2) cs.
Proof.
  revert cs. induction ns as [|n ns IH]; intros [|c cs]; try done. cbn. intros [= Hl].
  destruct (IH cs Hl) as [H1 H2]. by rewrite H1, H2.
Qed.

Lemma number_group_spec scope letter cs keymap :
  NoDup (map fst cs) ->
  exists ns ordered, ordered ≡ₚ cs /\ length ns = length ordered /\ NoDup ns /\
    number_group scope letter cs keymap ≡ₚ zip_with (fun n (c : Claimant) => member_of n c.2) ns ordered /\
    (forall i c n, ordered !! i = Some c -> pinned keymap !! pin_key scope letter (decl_key c.2) = Some n ->
      (forall c', c' ∈ cs -> pinned keymap !! pin_key scope letter (decl_key c'.2) = Some n -> c' = c) ->
      ns !! i = Some n).
Proof.
  intros Hnd. unfold number_group. set (ordered := stable_sort by_index cs).
  assert (ordered ≡ₚ cs) as Hperm by apply stable_sort_perm.
  assert (NoDup (map fst ordered)) as Hnd' by (unfold ordered; by rewrite stable_sort_perm).
  set (pins := foldl (honor_pin scope letter keymap) ([], ∅) ordered).
  assert (pins_ok pins) as [Hpu Hpi] by (apply honor_pins_ok; split; cbn; set_solver).
  destruct pins as [used0 pinned_for] eqn:Epins; cbn [fst snd] in *.
  destruct (number_all pinned_for (mkNumbering used0 1 []) ordered) as (ns & Hms & Hlen & Hns & Hpin);
    [done|done|done|constructor|cbn; set_solver|].
  exists ns, ordered. split; [done|]. split; [done|]. split; [done|]. split.
  - etrans; [apply stable_sort_perm|]. by rewrite Hms.
  - intros i c n Hi Hc Huniq. apply (Hpin i c n Hi).
    change pinned_for with (used0, pinned_for).2. rewrite <- Epins.
    apply honor_pins_kept; [done|by eapply list_elem_of_lookup_2|done| |cbn; set_solver].
    intros c' Hc'. apply Huniq. by rewrite <- Hperm.
Qed.

#[export] Instance by_number_order : BoolOrder by_number := by_key_order N.leb number.

Lemma number_group_ordered scope letter cs keymap :
  ordered by_number (number_group scope letter cs keymap).
Proof. unfold number_group. destruct (foldl _ _ _) as [u p]. apply stable_sort_sorted; apply _. Qed.

Lemma number_group_strict scope letter cs keymap :
  NoDup (map fst cs) -> StronglySorted N.lt (map number (number_group scope letter cs keymap)).
Proof.
  intros Hnd. pose proof (number_group_ordered scope letter cs keymap) as Hsort.
  destruct (number_group_spec scope letter cs keymap Hnd) as (ns & ordered & _ & Hlen & Hns & Hms & _).
  assert (NoDup (map number (number_group scope letter cs keymap))) as Hnum
    by (rewrite Hms; by rewrite (proj1 (zip_members ns ordered Hlen))).
  clear -Hsort Hnum. induction Hsort as [|m ms Hsort IH Hall]; cbn in *; [constructor|].
  apply NoDup_cons in Hnum as [Hm Hnum]. constructor; [by apply IH|].
  apply Forall_map, Forall_forall. intros m' Hm'. rewrite Forall_forall in Hall.
  specialize (Hall m' Hm'). apply N.leb_le in Hall. assert (number m <> number m'); [|lia].
  intros He. apply Hm. rewrite He. by apply list_elem_of_fmap_2.
Qed.

(** The numbers of a contested letter.  Every application that asked for the letter is one
    member; no two members share a number, and they are shown by rising number; and an application
    whose pinned number no other one of the group is pinned to has that number, whoever else is
    installed, so a chord learned from a pin never moves. *)
Theorem group_numbers_hold scope letter claimants keymap :
  NoDup (map fst claimants) ->
  let ms := number_group scope letter claimants keymap in
  map unnumbered ms ≡ₚ map (fun c => identity c.2) claimants /\
  StronglySorted N.lt (map number ms) /\
  (forall c n, c ∈ claimants -> pinned keymap !! pin_key scope letter (decl_key c.2) = Some n ->
    (forall c', c' ∈ claimants -> pinned keymap !! pin_key scope letter (decl_key c'.2) = Some n -> c' = c) ->
    member_of n c.2 ∈ ms).
Proof.
  intros Hnd ms.
  destruct (number_group_spec scope letter claimants keymap Hnd) as (ns & ordered & Hperm & Hlen & Hns & Hms & Hpin).
  fold ms in Hms. destruct (zip_members ns ordered Hlen) as [Hz1 Hz2].
  split; [by rewrite Hms, Hz2, Hperm|]. split; [by apply number_group_strict|].
  - intros c n Hc Hp Huniq. rewrite <- Hperm in Hc. apply list_elem_of_lookup in Hc as [i Hi].
    rewrite Hms. apply list_elem_of_lookup. exists i. rewrite lookup_zip_with, Hi.
    by rewrite (Hpin i c n Hi Hp Huniq).
Qed.

(** Nothing in the program pins a number it has given: without pins, an application that is
    uninstalled moves the numbers of those after it. *)
Example unpinned_numbers_move :
  let app k := mkDecl (chars k) (chars k) (Some 110) None App Run in
  map (fun m => (member_key m, number m))
    (number_group Insert 110 [(0%nat, app "a"); (1%nat, app "b")] default_keymap) =
    [(chars "a", 1); (chars "b", 2)] /\
  map (fun m => (member_key m, number m)) (number_group Insert 110 [(1%nat, app "b")] default_keymap) =
    [(chars "b", 1)].
Proof. by vm_compute. Qed.

Theorem group_numbers_hold_witness :
  let app k := mkDecl (chars k) (chars k) (Some 110) None App Run in
  member_of 7 (app "b"%string) ∈
    number_group Insert 110 [(0%nat, app "a"); (1%nat, app "b"); (2%nat, app "c")]
      (pin_number (pin_key Insert 110 (chars "b")) 7 default_keymap).
Proof.
  intros app.
  refine (proj2 (proj2 (group_numbers_hold Insert 110 _ (pin_number (pin_key Insert 110 (chars "b")) 7 default_keymap) _))
    (1%nat, app "b"%string) 7 _ _ _).
  - apply (bool_decide_unpack (NoDup _)). vm_compute. exact I.
  - by right; left.
  - by vm_compute.
  - intros c' Hc Hp. apply list_elem_of_In in Hc as [<-|[<-|[<-|[]]]]; vm_compute in Hp; [discriminate|done|discriminate].
Defined.

(** ** The assignment: every seat its own tip *)

Definition sound_node (n : AssignedNode) : Prop :=
  match n with
  | Leaf _ _ _ _ => True
  | Group _ _ ms => StronglySorted N.lt (map number ms)
  end.

Record laid (ps : list N) (st : Assignment) : Prop := {
  laid_pool : pool_ok ps (pool st);
  laid_claimed : forall i n, nodes st !! i = Some n -> node_tip n ∈ claimed (pool st);
  laid_inj : forall i j n m, nodes st !! i = Some n -> nodes st !! j = Some m -> node_tip n = node_tip m -> i = j;
  laid_sound : forall i n, nodes st !! i = Some n -> sound_node n }.

Lemma laid_insert ps st i n :
  laid ps st -> sound_node n -> tip_shape ps (node_tip n) -> node_tip n ∉ claimed (pool st) ->
  laid ps (mkAssignment (claim (pool st) (node_tip n)) (<[i := n]> (nodes st))).
Proof.
  intros [Hp Hc Hi Hso] Hsn Hs Hf. split; cbn.
  - by apply claim_ok.
  - intros j m Hj. rewrite (claim_perm ps) by done. apply lookup_insert_Some in Hj as [[_ <-]|[_ Hj]];
      [by left|right; eauto].
  - intros j k m m' Hj Hk Ht.
    apply lookup_insert_Some in Hj as [[<- <-]|[_ Hj]]; apply lookup_insert_Some in Hk as [[Hk Hm]|[_ Hk]];
      subst; [done| | |by eapply Hi]; destruct Hf; [rewrite Ht|rewrite <- Ht]; eauto.
  - intros j m Hj. apply lookup_insert_Some in Hj as [[_ <-]|[_ Hj]]; eauto.
Qed.

Lemma desired_lower keymap d c : desired keymap d = Some c -> char_lower c = c.
Proof. unfold desired. rewrite fmap_Some. intros (x & _ & ->). apply char_lower_idemp. Qed.

Definition reserve_of (reserved_ns : bool) (d : KeyTipDecl) : nat :=
  if reserved_ns && is_shell d then length EXCEL_RESERVED_LETTERS else 0%nat.

(** A declaration's own leaf, on no reserved letter where it may not be. *)
Definition own_leaf (reserved_ns : bool) (d : KeyTipDecl) (n : AssignedNode) : Prop :=
  exists t, n = leaf d t /\
    ((reserved_ns && is_shell d) = true -> forall c, t = [c] -> reserved_letter c = false).

Section folds.
Context (scope : ScopeId) (keymap : KeymapConfig) (ps : list N).
Hypothesis Hnd_ps : NoDup ps.
Hypothesis Hps : ps ⊆ letters.

Lemma lay_spec reserved_ns honor_hint st c :
  laid ps st -> (length (claimed (pool st)) + reserve_of reserved_ns c.2 < 36 + 35 * length ps)%nat ->
  let st' := lay keymap reserved_ns honor_hint st c in
  laid ps st' /\ length (claimed (pool st')) = S (length (claimed (pool st))) /\
  exists n, own_leaf reserved_ns c.2 n /\ nodes st' = <[c.1 := n]> (nodes st).
Proof.
  intros Hl Hroom. unfold lay.
  set (wanted := if honor_hint then desired keymap c.2 else None).
  assert (forall x, wanted = Some x -> char_lower x = x) as Hw
    by (unfold wanted; destruct honor_hint; [apply desired_lower|done]).
  destruct (pick_tip_fresh ps (pool st) reserved_ns honor_hint c.2 wanted (laid_pool _ _ Hl) Hnd_ps Hps Hw Hroom)
    as (Hs & Hf & Hr).
  set (t := pick_tip c.2 wanted (pool st) reserved_ns honor_hint) in *. cbn zeta.
  split; [by apply (laid_insert ps st c.1 (leaf c.2 t))|]. cbn [pool nodes].
  split; [by rewrite (claim_perm ps)|]. exists (leaf c.2 t). split; [by exists t|done].
Qed.

Lemma lay_all reserved_ns honor_hint r l st :
  laid ps st -> NoDup (map fst l) -> (forall c, c ∈ l -> reserve_of reserved_ns c.2 <= r)%nat ->
  (length (claimed (pool st)) + length l + r <= 36 + 35 * length ps)%nat ->
  let st' := foldl (lay keymap reserved_ns honor_hint) st l in
  laid ps st' /\ length (claimed (pool st')) = (length (claimed (pool st)) + length l)%nat /\
  (forall c, c ∈ l -> exists n, own_leaf reserved_ns c.2 n /\ nodes st' !! c.1 = Some n) /\
  (forall i, i ∉ map fst l -> nodes st' !! i = nodes st !! i).
Proof.
  revert st. induction l as [|c l IH]; intros st Hl Hnd Hr Hroom; cbn zeta.
  { cbn. split; [done|]. split; [lia|]. by split; [set_solver|]. }
  cbn in Hnd, Hroom. apply NoDup_cons in Hnd as [Hc Hnd].
  destruct (lay_spec reserved_ns honor_hint st c Hl) as (Hl' & Hlen & n & Hn & Hnodes).
  { specialize (Hr c ltac:(by left)). lia. }
  cbn [foldl]. destruct (IH _ Hl' Hnd) as (Hl'' & Hlen' & Hseat & Hrest); [set_solver|lia|].
  split; [done|]. split; [cbn; lia|]. split.
  - intros c' [->|Hc']%elem_of_cons; [|by apply Hseat]. exists n. split; [done|].
    rewrite Hrest by done. rewrite Hnodes. by rewrite lookup_insert_eq.
  - cbn. intros i [? ?]%not_elem_of_cons. rewrite Hrest by done. rewrite Hnodes. by rewrite lookup_insert_ne.
Qed.

(** What a letter's claimants are drawn as. *)
Definition drawn_as (entry : N * list Claimant) (i : nat) (n : AssignedNode) : Prop :=
  match entry.2 with
  | [] => False
  | [(idx, d)] => i = idx /\ n = leaf d [entry.1]
  | cs => i ∈ map fst cs /\ n = Group [entry.1] GROUP_TITLE (number_group scope entry.1 cs keymap)
  end.

Lemma least_index idx (rest : list Claimant) :
  foldl (fun least c => Nat.min least c.1) idx rest ∈ idx :: map fst rest.
Proof.
  revert idx. induction rest as [|c rest IH]; intros idx; cbn; [by left|].
  specialize (IH (Nat.min idx c.1)). destruct (Nat.min_spec idx c.1) as [[_ He]|[_ He]]; rewrite He in *; set_solver.
Qed.

Lemma claim_letter_spec st entry :
  laid ps st -> entry.2 <> [] -> NoDup (map fst entry.2) -> single_free (pool st) entry.1 = true -> char_lower entry.1 = entry.1 ->
  let st' := claim_letter scope keymap st entry in
  laid ps st' /\ claimed (pool st') ≡ₚ [entry.1] :: claimed (pool st) /\ pool st' = claim (pool st) [entry.1] /\
  exists i n, drawn_as entry i n /\ nodes st' = <[i := n]> (nodes st).
Proof.
  destruct entry as [letter cs]. cbn [fst snd]. intros Hl Hne Hnd Hfree Hlow.
  apply (single_free_spec ps) in Hfree as [Hs Hf]; [|apply Hl|done].
  assert (tip_shape ps [letter]) as Hshape by (left; by exists letter).
  pose proof (claim_perm ps (pool st) [letter] Hshape) as Hperm.
  destruct cs as [|[i d] [|c cs]]; [done| |]; cbn zeta.
  - cbn [claim_letter]. split; [by apply (laid_insert ps st i (leaf d [letter]))|].
    split; [done|]. split; [done|]. by exists i, (leaf d [letter]).
  - set (group := Group [letter] GROUP_TITLE (number_group scope letter ((i, d) :: c :: cs) keymap)).
    split; [apply (laid_insert ps st _ group); [done|by apply number_group_strict|done|done]|]. split; [done|]. split; [done|].
    eexists _, group. split; [|reflexivity]. split; [apply least_index|done].
Qed.

Lemma drawn_as_index entry i n : drawn_as entry i n -> i ∈ map fst entry.2.
Proof. destruct entry as [l [|[j d] [|c cs]]]; cbn; [done|intros [-> _]; by left|by intros [? _]]. Qed.

Lemma claim_letters l st :
  laid ps st -> StronglySorted (fun a b => a.1 < b.1) l ->
  Forall (fun e => e.2 <> [] /\ single_free (pool st) e.1 = true /\ char_lower e.1 = e.1) l ->
  NoDup (map fst (List.concat (map snd l))) ->
  let st' := foldl (claim_letter scope keymap) st l in
  laid ps st' /\ length (claimed (pool st')) = (length (claimed (pool st)) + length l)%nat /\
  (forall e, e ∈ l -> exists i n, drawn_as e i n /\ nodes st' !! i = Some n) /\
  (forall i, i ∉ map fst (List.concat (map snd l)) -> nodes st' !! i = nodes st !! i).
Proof.
  revert st. induction l as [|e l IH]; intros st Hl Hsort Hall Hnd; cbn zeta.
  { cbn. split; [done|]. split; [lia|]. by split; [set_solver|]. }
  apply StronglySorted_inv in Hsort as [Hsort Hlt]. apply Forall_cons in Hall as [(Hne & Hfree & Hlow) Hall].
  cbn [map List.concat] in Hnd. rewrite map_app in Hnd. apply NoDup_app in Hnd as (Hnde & Hdis & Hnd).
  destruct (claim_letter_spec st e Hl Hne Hnde Hfree Hlow) as (Hl' & Hperm & Hpool & i & n & Hdraw & Hnodes).
  cbn [foldl]. destruct (IH _ Hl' Hsort) as (Hl'' & Hlen & Hseat & Hrest); [|done|].
  { rewrite Forall_forall in Hall, Hlt |- *. intros e' He'. destruct (Hall e' He') as (? & Hf' & Hlow').
    split; [done|]. split; [|done].
    apply (single_free_spec ps) in Hf' as [? ?]; [|apply Hl|done].
    apply (single_free_spec ps); [apply Hl'|done|]. split; [done|]. rewrite Hperm.
    specialize (Hlt e' He'). rewrite not_elem_of_cons. split; [|done]. intros [= ?]. cbn in Hlt. lia. }
  split; [done|]. split; [rewrite Hlen, Hperm; cbn; lia|]. split.
  - intros e' [->|He']%elem_of_cons; [|by apply Hseat]. exists i, n. split; [done|].
    rewrite Hrest by (by apply Hdis, (drawn_as_index _ _ n)). rewrite Hnodes. by rewrite lookup_insert_eq.
  - intros j. cbn [map List.concat]. rewrite map_app, not_elem_of_app. intros [Hj1 Hj2].
    rewrite Hrest by done. rewrite Hnodes. rewrite lookup_insert_ne; [done|].
    intros ->. by apply Hj1, (drawn_as_index _ _ n).
Qed.

End folds.

(** ** Sorting the applications by the letter they ask for *)

Lemma push_perm letter c m :
  List.concat (map snd (push_to letter c m)) ≡ₚ c :: List.concat (map snd m).
Proof.
  induction m as [|[l cs] m IH]; [done|]. cbn. repeat case_match; cbn; [| done |].
  - rewrite <- app_assoc. symmetry. apply Permutation_middle.
  - rewrite IH. symmetry. apply Permutation_middle.
Qed.

Lemma push_Forall (P : N -> Prop) letter c m :
  P letter -> Forall (fun e => e.2 <> [] /\ P e.1) m -> Forall (fun e => e.2 <> [] /\ P e.1) (push_to letter c m).
Proof.
  intros HP Hm. induction Hm as [|[l cs] m [Hne Hl] Hm IH]; cbn; [by repeat constructor|].
  repeat case_match; constructor; cbn in *; auto. split; [|done]. by destruct cs.
Qed.

Lemma push_sorted letter c m :
  StronglySorted (fun a b : N * list Claimant => a.1 < b.1) m -> StronglySorted (fun a b => a.1 < b.1) (push_to letter c m).
Proof.
  intros H. induction H as [|[l cs] m Hs IH Hall]; cbn; [by repeat constructor|].
  destruct (letter =? l) eqn:E1; [by constructor|]. destruct (letter <? l) eqn:E2.
  - constructor; [by constructor|]. constructor; [cbn; lia|]. eapply Forall_impl; [exact Hall|]. cbn. intros; lia.
  - constructor; [done|]. clear -Hall E1 E2. induction m as [|[k ks] m IH]; cbn in *.
    + repeat constructor. cbn. lia.
    + apply Forall_cons in Hall as [Hk Hall]. cbn in Hk. repeat case_match; repeat constructor; cbn; try done; [lia|auto].
Qed.

Lemma sort_app_spec keymap pool l st :
  StronglySorted (fun a b => a.1 < b.1) st.1 ->
  Forall (fun e => e.2 <> [] /\ single_free pool e.1 = true /\ char_lower e.1 = e.1) st.1 ->
  let st' := foldl (sort_app keymap pool) st l in
  StronglySorted (fun a b => a.1 < b.1) st'.1 /\
  Forall (fun e => e.2 <> [] /\ single_free pool e.1 = true /\ char_lower e.1 = e.1) st'.1 /\
  (List.concat (map snd st'.1) ++ st'.2)%list ≡ₚ ((List.concat (map snd st.1) ++ st.2) ++ l)%list.
Proof.
  revert st. induction l as [|c l IH]; intros st Hs Hf; cbn zeta.
  { cbn. by rewrite app_nil_r. }
  cbn [foldl].
  assert (StronglySorted (fun a b => a.1 < b.1) (sort_app keymap pool st c).1 /\
    Forall (fun e => e.2 <> [] /\ single_free pool e.1 = true /\ char_lower e.1 = e.1) (sort_app keymap pool st c).1 /\
    (List.concat (map snd (sort_app keymap pool st c).1) ++ (sort_app keymap pool st c).2)%list ≡ₚ
      c :: (List.concat (map snd st.1) ++ st.2)%list) as (Hs' & Hf' & Hp').
  { unfold sort_app. destruct (desired keymap c.2) as [letter|] eqn:E; [destruct (single_free pool letter) eqn:Ef|]; cbn.
    - split; [by apply push_sorted|]. split.
      + apply (push_Forall (fun l => single_free pool l = true /\ char_lower l = l)); [|done].
        split; [done|by eapply desired_lower].
      + by rewrite push_perm.
    - split; [done|]. split; [done|]. rewrite app_assoc. symmetry. apply Permutation_cons_append.
    - split; [done|]. split; [done|]. rewrite app_assoc. symmetry. apply Permutation_cons_append. }
  destruct (IH _ Hs' Hf') as (? & ? & Hp). split; [done|]. split; [done|].
  rewrite Hp, Hp'. apply Permutation_middle.
Qed.

(** ** The scope's tips *)

(** A node that a user reaches the declaration through. *)
Definition offers (n : AssignedNode) (d : KeyTipDecl) : Prop :=
  match n with
  | Leaf key title _ target => (key, title, target) = identity d
  | Group _ _ ms => identity d ∈ map unnumbered ms
  end.

Lemma own_leaf_offers reserved_ns d n : own_leaf reserved_ns d n -> offers n d.
Proof. by intros (t & -> & _). Qed.

Lemma drawn_as_offers scope keymap e i n c :
  NoDup (map fst e.2) -> drawn_as scope keymap e i n -> c ∈ e.2 -> offers n c.2.
Proof.
  destruct e as [letter cs]. cbn [fst snd]. intros Hnd Hd Hc. destruct cs as [|[j d] [|c' cs]]; [set_solver| |].
  - apply list_elem_of_singleton in Hc as ->. destruct Hd as [_ ->]. done.
  - destruct Hd as [_ ->]. cbn [offers].
    destruct (number_group_spec scope letter _ keymap Hnd) as (ns & ordered & Hperm & Hlen & _ & Hms & _).
    rewrite Hms, (proj2 (zip_members ns ordered Hlen)), Hperm.
    by apply (list_elem_of_fmap_2 (fun c => identity c.2)).
Qed.

Lemma indexed_fst decls : map fst (indexed decls) = seq 0 (length decls).
Proof.
  unfold indexed. apply list_eq. intros i. rewrite lookup_map, list_lookup_imap.
  destruct (decls !! i) as [d|] eqn:E; cbn.
  - apply lookup_lt_Some in E. symmetry. by apply lookup_seq.
  - apply lookup_ge_None in E. symmetry. apply lookup_seq_ge. lia.
Qed.

Lemma indexed_elem decls i d : decls !! i = Some d -> (i, d) ∈ indexed decls.
Proof.
  intros H. apply list_elem_of_lookup. exists i. unfold indexed. by rewrite list_lookup_imap, H.
Qed.

Lemma filter_split {A} (f : A -> bool) l :
  (List.filter f l ++ List.filter (fun x => negb (f x)) l)%list ≡ₚ l.
Proof.
  induction l as [|x l IH]; [done|]. cbn. destruct (f x); cbn; [by rewrite IH|].
  rewrite <- Permutation_middle. by rewrite IH.
Qed.

Lemma shells_length decls : length (List.filter from_shell (indexed decls)) = length (List.filter is_shell decls).
Proof.
  unfold indexed, from_shell. generalize 0%nat as k. 
  assert (forall (f : nat -> nat), length (List.filter (fun c : Claimant => is_shell c.2) (imap (fun i d => (f i, d)) decls)) =
    length (List.filter is_shell decls)) as H; [|intros _; exact (H id)].
  induction decls as [|d decls IH]; intros f; [done|]. cbn. specialize (IH (f ∘ S)).
  destruct (is_shell d); cbn; [f_equal|]; exact IH.
Qed.

Lemma length_concat_ge {A} (l : list (N * list A)) :
  Forall (fun e => e.2 <> []) l -> (length l <= length (List.concat (map snd l)))%nat.
Proof.
  induction 1 as [|[k cs] l Hne _ IH]; cbn in *; [lia|]. rewrite length_app. destruct cs; cbn; [done|lia].
Qed.

Lemma omap_seq_tips (m : gmap nat AssignedNode) l :
  (forall i j n n', m !! i = Some n -> m !! j = Some n' -> node_tip n = node_tip n' -> i = j) ->
  NoDup l -> NoDup (map node_tip (omap (fun i => m !! i) l)).
Proof.
  intros Hinj Hnd. induction Hnd as [|i l Hi Hnd IH]; cbn; [constructor|].
  destruct (m !! i) as [n|] eqn:E; [|done]. cbn. constructor; [|done].
  intros (n' & Ht & (j & Hj & Hn')%list_elem_of_omap)%list_elem_of_fmap.
  by rewrite (Hinj i j n n') in Hi.
Qed.

Lemma entry_NoDup (l : list (N * list Claimant)) e :
  NoDup (map fst (List.concat (map snd l))) -> e ∈ l -> NoDup (map fst e.2).
Proof.
  induction l as [|e' l IH]; [set_solver|]. cbn [map List.concat]. rewrite map_app.
  intros (H1 & _ & H2)%NoDup_app [->|He]%elem_of_cons; auto.
Qed.

(** Everything a roomy scope's assignment guarantees. *)
Record assigned (scope : ScopeId) (decls : list KeyTipDecl) (ps : list N) (ns : list AssignedNode) : Prop := {
  assigned_distinct : NoDup (map node_tip ns);
  assigned_shape : Forall (fun n => tip_shape ps (node_tip n)) ns;
  assigned_sound : Forall sound_node ns;
  assigned_offers : forall i d, decls !! i = Some d ->
    exists n, n ∈ ns /\ offers n d /\ (is_shell d = true -> own_leaf (is_reserved_namespace scope) d n) }.

(** The indices of a scope, split as the passes take them. *)
Lemma parts_NoDup decls :
  let shells := List.filter from_shell (indexed decls) in
  let apps := List.filter (fun c => negb (from_shell c)) (indexed decls) in
  NoDup (map fst shells) /\ NoDup (map fst apps) /\
  (forall i, i ∈ map fst shells -> i ∉ map fst apps) /\
  (length shells + length apps)%nat = length decls.
Proof.
  intros shells apps.
  assert (shells ++ apps ≡ₚ indexed decls)%list as Hsplit by apply filter_split.
  assert (NoDup (map fst (shells ++ apps)%list)) as Hnd
    by (rewrite Hsplit, indexed_fst; apply NoDup_seq).
  rewrite map_app in Hnd. apply NoDup_app in Hnd as (? & ? & ?). split_and!; try done.
  rewrite <- length_app, Hsplit. unfold indexed. apply length_imap.
Qed.

(** The first pass has room for the shell's declarations. *)
Lemma shell_room scope decls keymap :
  roomy scope decls keymap = true ->
  let R := if is_reserved_namespace scope then length EXCEL_RESERVED_LETTERS else 0%nat in
  (length (List.filter from_shell (indexed decls)) + R <=
    36 + 35 * length (overflow_prefixes decls keymap))%nat.
Proof.
  intros [Hcap Hres]%andb_true_iff. apply Nat.leb_le in Hcap. rewrite shells_length.
  pose proof (List.filter_length_le is_shell decls). unfold SINGLE_TIP_CAPACITY in *.
  destruct (is_reserved_namespace scope); cbn [negb orb] in Hres; [apply Nat.leb_le in Hres|]; lia.
Qed.

Lemma reserve_of_shell ns c :
  (reserve_of ns c <= if ns then length EXCEL_RESERVED_LETTERS else 0)%nat.
Proof. unfold reserve_of. destruct ns, (is_shell c); cbn; lia. Qed.

Lemma app_passes_spec scope keymap ps st apps :
  NoDup ps -> ps ⊆ letters -> laid ps st -> NoDup (map fst apps) ->
  (forall c, c ∈ apps -> is_shell c.2 = false) ->
  (length (claimed (pool st)) + length apps <= 36 + 35 * length ps)%nat ->
  let st' := app_passes scope keymap st apps in
  laid ps st' /\
  (forall c, c ∈ apps -> exists i n, i ∈ map fst apps /\ nodes st' !! i = Some n /\ offers n c.2) /\
  (forall i, i ∉ map fst apps -> nodes st' !! i = nodes st !! i).
Proof.
  intros Hnd_ps Hps Hl Hnd Happ Hroom. unfold app_passes.
  destruct (sort_app_spec keymap (pool st) apps ([], [])) as (Hs2 & Hf2 & Hp2); [constructor|constructor|].
  destruct (foldl (sort_app keymap (pool st)) ([], []) apps) as [by_letter lad].
  cbn [fst snd app map List.concat] in *.
  assert (NoDup (map fst (List.concat (map snd by_letter) ++ lad)%list)) as Hnd3 by (by rewrite Hp2).
  rewrite map_app in Hnd3. apply NoDup_app in Hnd3 as (Hnd3 & Hdis3 & Hnd4).
  destruct (claim_letters scope keymap ps Hnd_ps Hps by_letter st Hl Hs2 Hf2 Hnd3) as (Hl2 & Hlen2 & Hseat2 & Hrest2).
  set (st2 := foldl (claim_letter scope keymap) st by_letter) in *.
  assert (length by_letter <= length (List.concat (map snd by_letter)))%nat as Hle
    by (apply length_concat_ge; eapply Forall_impl; [exact Hf2|]; by intros e [? _]).
  pose proof (Permutation_length Hp2) as Hlen3. rewrite length_app in Hlen3.
  set (ns := is_reserved_namespace scope).
  destruct (lay_all keymap ps Hnd_ps Hps ns false 0 lad st2 Hl2 Hnd4) as (Hl3 & Hlen4 & Hseat3 & Hrest3).
  { intros c Hc. unfold reserve_of. rewrite (Happ c); [by rewrite andb_false_r|]. rewrite <- Hp2. set_solver. }
  { rewrite Hlen2. lia. }
  split; [exact Hl3|]. split.
  - intros c Hc. rewrite <- Hp2 in Hc. apply elem_of_app in Hc as [Hc|Hc].
    + apply list_elem_of_In, in_concat in Hc as (cs & Hcs & Hc).
      apply in_map_iff in Hcs as (e & <- & He). apply list_elem_of_In in He, Hc.
      destruct (Hseat2 e He) as (i & n & Hd & Hn). exists i, n.
      assert (i ∈ map fst (List.concat (map snd by_letter))) as Hi.
      { apply drawn_as_index in Hd. apply list_elem_of_fmap in Hd as (c' & -> & Hc').
        apply list_elem_of_fmap_2, list_elem_of_In, in_concat. exists e.2.
        split; [by apply in_map, list_elem_of_In|by apply list_elem_of_In]. }
      split; [rewrite <- Hp2, map_app; set_solver|]. split; [by rewrite Hrest3 by (by apply Hdis3)|].
      eapply drawn_as_offers; [|exact Hd|exact Hc]. by eapply entry_NoDup.
    + destruct (Hseat3 c Hc) as (n & Hn & Hi). exists c.1, n.
      split; [rewrite <- Hp2; apply list_elem_of_fmap_2; set_solver|].
      split; [exact Hi|by eapply own_leaf_offers].
  - intros i Hi. rewrite <- Hp2, map_app, not_elem_of_app in Hi. destruct Hi as [Hi1 Hi2].
    by rewrite Hrest3, Hrest2 by done.
Qed.

(** The seats after the passes. *)
Lemma passes_spec scope decls keymap :
  roomy scope decls keymap = true ->
  laid (overflow_prefixes decls keymap) (assign_passes scope decls keymap) /\
  forall c, c ∈ indexed decls -> exists i n, (i < length decls)%nat /\
    nodes (assign_passes scope decls keymap) !! i = Some n /\ offers n c.2 /\
    (is_shell c.2 = true -> own_leaf (is_reserved_namespace scope) c.2 n).
Proof.
  intros Hroom. pose proof (shell_room scope decls keymap Hroom) as Hroom1.
  apply andb_true_iff in Hroom as [Hcap _]. apply Nat.leb_le in Hcap. unfold SINGLE_TIP_CAPACITY in Hcap.
  pose proof (NoDup_overflow_prefixes decls keymap) as Hnd_ps.
  pose proof (overflow_prefixes_letters decls keymap) as Hps. unfold assign_passes.
  set (ps := overflow_prefixes decls keymap) in *. set (ns := is_reserved_namespace scope) in *.
  destruct (parts_NoDup decls) as (Hnd1 & Hnd2 & Hdis & Hlen).
  assert (forall c, c ∈ indexed decls -> c.1 < length decls)%nat as Hlt.
  { intros c Hc. assert (c.1 ∈ map fst (indexed decls)) as Hi by (by apply list_elem_of_fmap_2).
    rewrite indexed_fst in Hi. by apply elem_of_seq in Hi as [_ ?]. }
  set (shells := List.filter from_shell (indexed decls)) in *.
  set (apps := List.filter (fun c => negb (from_shell c)) (indexed decls)) in *.
  assert (forall c, c ∈ apps -> c ∈ indexed decls /\ is_shell c.2 = false) as Happ.
  { intros c [? Ha]%list_elem_of_In%filter_In. rewrite list_elem_of_In. split; [done|]. by apply negb_true_iff in Ha. }
  set (st0 := mkAssignment (mkPool [] ps []) ∅).
  assert (laid ps st0) as Hl0 by (split; cbn; [split; cbn; constructor|set_solver..]).
  destruct (lay_all keymap ps Hnd_ps Hps ns true _ shells st0 Hl0 Hnd1 (fun c _ => reserve_of_shell ns c.2))
    as (Hl1 & Hlen1 & Hseat1 & Hrest1); [exact Hroom1|].
  set (st1 := foldl (lay keymap ns true) st0 shells) in *.
  destruct (app_passes_spec scope keymap ps st1 apps Hnd_ps Hps Hl1 Hnd2) as (Hl2 & Hseat2 & Hrest2).
  { intros c ?. by apply Happ. }
  { rewrite Hlen1. cbn [st0 pool claimed taken pairs map app length]. lia. }
  split; [exact Hl2|]. intros c Hc. destruct (is_shell c.2) eqn:Es.
  - assert (c ∈ shells) as Hcs by (apply list_elem_of_In, filter_In; by rewrite <- list_elem_of_In).
    destruct (Hseat1 c Hcs) as (n & Hn & Hi). exists c.1, n. split; [by apply Hlt|].
    split; [rewrite Hrest2; [exact Hi|by apply Hdis, list_elem_of_fmap_2]|].
    split; [by eapply own_leaf_offers|by intros _].
  - assert (c ∈ apps) as Hca.
    { apply list_elem_of_In, filter_In. rewrite <- list_elem_of_In. split; [done|]. unfold from_shell. by rewrite Es. }
    destruct (Hseat2 c Hca) as (i & n & (c' & -> & Hc')%list_elem_of_fmap & Hn & Ho). exists c'.1, n.
    split; [by apply Hlt, Happ|]. by split.
Qed.

Lemma assign_scope_assigned scope decls keymap :
  roomy scope decls keymap = true ->
  assigned scope decls (overflow_prefixes decls keymap) (assign_scope scope decls keymap).
Proof.
  intros Hroom. destruct (passes_spec scope decls keymap Hroom) as [[Hp Hc Hi Hs] Hseat].
  assert (forall n, n ∈ assign_scope scope decls keymap ->
    exists i, nodes (assign_passes scope decls keymap) !! i = Some n) as Hn.
  { intros n (i & _ & ?)%list_elem_of_omap. by exists i. }
  split.
  - apply omap_seq_tips; [exact Hi|apply NoDup_seq].
  - apply Forall_forall. intros n [i ?]%Hn. eapply claimed_shape; [exact Hp|]. by eapply Hc.
  - apply Forall_forall. intros n [i ?]%Hn. by eapply Hs.
  - intros i d Hd. destruct (Hseat (i, d) (indexed_elem _ _ _ Hd)) as (j & n & Hj & Hn' & Ho & Hl).
    exists n. split; [|by split]. apply list_elem_of_omap. exists j. split; [|done]. apply elem_of_seq. lia.
Qed.

(** ** The shell's wishes

    Shell declarations whose letters are distinct and lawful all get them, before any application
    is asked. *)
Definition wishes (scope : ScopeId) (decls : list KeyTipDecl) (keymap : KeymapConfig) (c : Claimant) (l : N) : Prop :=
  desired keymap c.2 = Some l /\ (l ∉ overflow_prefixes decls keymap) /\
  (is_reserved_namespace scope = true -> reserved_letter l = false).

Lemma lay_wishes scope decls keymap l ws st :
  prefixes (pool st) = overflow_prefixes decls keymap ->
  Forall2 (wishes scope decls keymap) l ws -> NoDup ws -> NoDup (map fst l) ->
  (forall w, w ∈ ws -> w ∉ taken (pool st)) ->
  let st' := foldl (lay keymap (is_reserved_namespace scope) true) st l in
  (forall i c w, l !! i = Some c -> ws !! i = Some w -> nodes st' !! c.1 = Some (leaf c.2 [w])) /\
  (forall i, i ∉ map fst l -> nodes st' !! i = nodes st !! i).
Proof.
  intros Hps Hw. revert st Hps. induction Hw as [|c w l ws (Hd & Hp & Hr) Hw IH]; intros st Hps Hnd Hidx Hfree; cbn zeta.
  { by split. }
  apply NoDup_cons in Hnd as [Hwn Hnd]. cbn in Hidx. apply NoDup_cons in Hidx as [Hc Hidx]. cbn [foldl].
  pose proof (desired_lower _ _ _ Hd) as Hlow.
  assert (lay keymap (is_reserved_namespace scope) true st c =
    mkAssignment (claim (pool st) [w]) (<[c.1 := leaf c.2 [w]]> (nodes st))) as ->.
  { unfold lay, pick_tip. rewrite Hd. unfold may_take, single_free. rewrite !Hlow, Hps.
    rewrite !bool_decide_eq_false_2 by (done || apply Hfree; by left). cbn [negb andb].
    destruct (is_reserved_namespace scope); cbn [andb]; [rewrite Hr by done|]; by rewrite ?andb_false_r. }
  destruct (IH (mkAssignment (claim (pool st) [w]) (<[c.1 := leaf c.2 [w]]> (nodes st)))) as [Hseat Hrest]; [done..| |].
  { intros x Hx. cbn. rewrite Hlow, elem_of_app, list_elem_of_singleton. intros [Ht| ->]; [|done].
    apply (Hfree x); [by right|done]. }
  split.
  - intros [|i] c' w'; cbn; [|apply Hseat]. intros [= <-] [= <-]. rewrite Hrest by done. cbn. by rewrite lookup_insert_eq.
  - cbn. intros i [? ?]%not_elem_of_cons. rewrite Hrest by done. cbn. by rewrite lookup_insert_ne.
Qed.

Lemma shells_get_their_letters scope decls keymap ws :
  roomy scope decls keymap = true ->
  Forall2 (wishes scope decls keymap) (List.filter from_shell (indexed decls)) ws -> NoDup ws ->
  forall i j d w, List.filter from_shell (indexed decls) !! i = Some (j, d) -> ws !! i = Some w ->
    leaf d [w] ∈ assign_scope scope decls keymap.
Proof.
  intros Hroom Hw Hnd i j d w Hi Hwi. destruct (parts_NoDup decls) as (Hnd1 & Hnd2 & Hdis & Hlen).
  pose proof (shell_room scope decls keymap Hroom) as Hroom1. pose proof Hroom as Hroom'.
  apply andb_true_iff in Hroom' as [Hcap _]. apply Nat.leb_le in Hcap. unfold SINGLE_TIP_CAPACITY in Hcap.
  pose proof (NoDup_overflow_prefixes decls keymap) as Hnd_ps.
  pose proof (overflow_prefixes_letters decls keymap) as Hps.
  unfold assign_scope, assign_passes. set (ps := overflow_prefixes decls keymap) in *.
  set (shells := List.filter from_shell (indexed decls)) in *.
  set (apps := List.filter (fun c => negb (from_shell c)) (indexed decls)) in *.
  set (st0 := mkAssignment (mkPool [] ps []) ∅).
  destruct (lay_wishes scope decls keymap shells ws st0) as [Hseat _]; [done..|by intros ? ? ?%elem_of_nil|].
  assert (laid ps st0) as Hl0 by (split; cbn; [split; cbn; constructor|set_solver..]).
  destruct (lay_all keymap ps Hnd_ps Hps (is_reserved_namespace scope) true _ shells st0 Hl0 Hnd1
    (fun c _ => reserve_of_shell _ c.2)) as (Hl1 & Hlen1 & _ & _); [exact Hroom1|].
  set (st1 := foldl (lay keymap (is_reserved_namespace scope) true) st0 shells) in *.
  destruct (app_passes_spec scope keymap ps st1 apps Hnd_ps Hps Hl1 Hnd2) as (_ & _ & Hrest).
  { intros c [_ Ha]%list_elem_of_In%filter_In. by apply negb_true_iff in Ha. }
  { rewrite Hlen1. cbn [st0 pool claimed taken pairs map app length]. lia. }
  assert ((j, d) ∈ shells) as Hin by (by eapply list_elem_of_lookup_2).
  apply list_elem_of_omap. exists j. split.
  - apply list_elem_of_In, filter_In in Hin as [Hin _]. apply list_elem_of_In in Hin.
    apply (list_elem_of_fmap_2 fst) in Hin. cbn in Hin. rewrite indexed_fst in Hin. exact Hin.
  - rewrite Hrest; [by apply (Hseat i (j, d) w)|]. apply Hdis. by apply (list_elem_of_fmap_2 fst _ (j, d)).
Qed.

(** *** Whatever the room, a leaf stands for a declaration *)

Definition declared (keys : list text) (n : AssignedNode) : Prop :=
  match n with Leaf key _ _ _ => key ∈ keys | Group _ _ _ => True end.

Definition all_declared (keys : list text) (st : Assignment) : Prop :=
  forall i n, nodes st !! i = Some n -> declared keys n.

Lemma lay_declared keys keymap ns honor l st :
  all_declared keys st -> Forall (fun c : Claimant => decl_key c.2 ∈ keys) l ->
  all_declared keys (foldl (lay keymap ns honor) st l).
Proof.
  revert st. induction l as [|c l IH]; intros st Hst Hl; [done|]. apply Forall_cons in Hl as [Hc Hl].
  apply IH; [|done]. intros i n. unfold lay. cbn. intros [[_ <-]|[_ ?]]%lookup_insert_Some; [done|by eapply Hst].
Qed.

Lemma claim_declared keys scope keymap l st :
  all_declared keys st -> Forall (fun e : N * list Claimant => Forall (fun c => decl_key c.2 ∈ keys) e.2) l ->
  all_declared keys (foldl (claim_letter scope keymap) st l).
Proof.
  revert st. induction l as [|[letter cs] l IH]; intros st Hst Hl; [done|]. apply Forall_cons in Hl as [Hc Hl].
  apply IH; [|done]. unfold claim_letter. destruct cs as [|[i d] [|c cs]]; cbn; [done|..];
    intros k n; cbn; (intros [[_ <-]|[_ ?]]%lookup_insert_Some; [|by eapply Hst]); [|done].
  by apply Forall_cons in Hc as [Hc _].
Qed.

Lemma push_to_entries (P : Claimant -> Prop) letter c m :
  P c -> Forall (fun e : N * list Claimant => Forall P e.2) m -> Forall (fun e => Forall P e.2) (push_to letter c m).
Proof.
  intros Hc. induction m as [|[l cs] m IH]; cbn; intros Hm; [by repeat constructor|].
  apply Forall_cons in Hm as [Hcs Hm]. repeat case_match; repeat constructor; try done; [|by apply IH].
  apply Forall_app. by repeat constructor.
Qed.

Lemma sort_app_entries (P : Claimant -> Prop) keymap pool l st :
  Forall P l -> Forall (fun e : N * list Claimant => Forall P e.2) st.1 -> Forall P st.2 ->
  let out := foldl (sort_app keymap pool) st l in Forall (fun e => Forall P e.2) out.1 /\ Forall P out.2.
Proof.
  revert st. induction l as [|c l IH]; intros st Hl H1 H2; [done|]. apply Forall_cons in Hl as [Hc Hl].
  apply IH; [done|..]; unfold sort_app; repeat case_match; cbn; try done;
    first [by apply push_to_entries|apply Forall_app; by repeat constructor].
Qed.

Lemma assign_scope_declared scope decls keymap :
  Forall (declared (map decl_key decls)) (assign_scope scope decls keymap).
Proof.
  assert (Forall (fun c : Claimant => decl_key c.2 ∈ map decl_key decls) (indexed decls)) as Hall.
  { apply Forall_forall. intros [i d] (j & d' & [= -> ->] & Hd)%elem_of_lookup_imap. cbn.
    apply list_elem_of_fmap_2. by eapply list_elem_of_lookup_2. }
  assert (forall f, Forall (fun c : Claimant => decl_key c.2 ∈ map decl_key decls) (List.filter f (indexed decls))) as Hf.
  { intros f. rewrite Forall_forall in Hall |- *. intros c Hc%list_elem_of_In. apply filter_In in Hc as [Hc _].
    by apply Hall, list_elem_of_In. }
  assert (all_declared (map decl_key decls) (assign_passes scope decls keymap)) as Hst.
  { unfold assign_passes, app_passes.
    set (st0 := foldl _ (mkAssignment _ _) _).
    assert (all_declared (map decl_key decls) st0) as H0 by (by apply lay_declared).
    destruct (sort_app_entries (fun c => decl_key c.2 ∈ map decl_key decls) keymap (pool st0)
      (List.filter (fun c => negb (from_shell c)) (indexed decls)) ([], [])) as [H1 H2]; [done..|].
    destruct (foldl _ ([], []) _) as [by_letter in_ladder]. apply lay_declared; [by apply claim_declared|done]. }
  apply Forall_forall. unfold assign_scope. intros n (i & _ & Hi)%list_elem_of_omap. by eapply Hst.
Qed.
Lemma elem_tip_eq ns n m :
  NoDup (map node_tip ns) -> n ∈ ns -> m ∈ ns -> node_tip n = node_tip m -> n = m.
Proof.
  intros Hnd [i Hi]%list_elem_of_lookup [j Hj]%list_elem_of_lookup Ht.
  assert (i = j) as ->; [|congruence].
  eapply NoDup_lookup; [exact Hnd| |]; rewrite lookup_map; [by rewrite Hi|by rewrite Hj, Ht].
Qed.

(** C34: A scope's tips are a code.  As long as the scope has room, no two nodes have the same tip
    and none begins another, so what is typed is read in one way; every declaration has a node to
    be reached through, its own leaf or a group it is a member of; and at the root a shell command
    always has a leaf of its own, never on a letter kept for applications. *)
Theorem tips_are_a_code scope decls keymap :
  roomy scope decls keymap = true ->
  let ns := assign_scope scope decls keymap in
  NoDup (map node_tip ns) /\
  (forall n m, n ∈ ns -> m ∈ ns -> node_tip n `prefix_of` node_tip m -> n = m) /\
  (forall i d, decls !! i = Some d -> exists n, n ∈ ns /\ offers n d) /\
  (forall i d, decls !! i = Some d -> is_shell d = true ->
    exists t, leaf d t ∈ ns /\
      (scope = Root -> forall letter, t = [letter] -> reserved_letter letter = false)).
Proof.
  intros Hroom ns. destruct (assign_scope_assigned scope decls keymap Hroom) as [Hnd Hsh _ Hof].
  fold ns in Hnd, Hsh, Hof. rewrite Forall_forall in Hsh. split; [done|]. split_and!.
  - intros n m Hn Hm Hp. eapply elem_tip_eq; [done..|]. eapply tip_shape_prefix; [by apply Hsh..|done].
  - intros i d Hd. destruct (Hof i d Hd) as (n & ? & ? & _). by exists n.
  - intros i d Hd Hs. destruct (Hof i d Hd) as (n & Hn & _ & Hl). destruct (Hl Hs) as (t & -> & Hr).
    exists t. split; [done|]. intros ->. apply Hr. by rewrite Hs.
Qed.

(** Forty hint-less shell entries and applications below the root: pairs are needed and given. *)
Definition crowd : list KeyTipDecl :=
  map (fun i => mkDecl [N.of_nat i] (chars "Entry") None None (if Nat.even i then Shell else App) Run) (seq 0 40).

Theorem tips_are_a_code_witness :
  NoDup (map node_tip (assign_scope Insert crowd default_keymap)) /\
  existsb (fun n => (length (node_tip n) =? 2)%nat) (assign_scope Insert crowd default_keymap) = true.
Proof.
  split; [|by vm_compute].
  refine (proj1 (tips_are_a_code Insert crowd default_keymap _)). by vm_compute.
Defined.

(** At the root the room ends below the letters of the alphabet: the capacity the reservation
    counts with includes the letters a shell command may not take. *)
Example root_repeats_a_tip :
  let decls := map (fun i => mkDecl [N.of_nat i] [] None None Shell Run) (seq 0 26) in
  overflow_prefixes decls default_keymap = [] /\
  ~ NoDup (map node_tip (assign_scope Root decls default_keymap)).
Proof.
  split; [by vm_compute|]. intros H%(bool_decide_pack _). vm_compute in H. done.
Qed.
