(* ===== verification/KeytipTree.v ===== *)
(** * Key tips: the tree of scopes, what is painted and what is typed

    src/crates/yggterm-shell/src/keytip.rs, the walking half, with the letters derived for
    undeclared elements and the shell's lookup of a badge
    (src/crates/yggterm-shell/src/shell/state.rs).  A tree holds the nodes of every open scope; a
    typed sequence walks it tip by tip; a badge is looked up in the scope the sequence names.

    A sequence is walked on its remaining characters.  Every tip consumes at least one, so the
    length of the sequence is fuel enough.  [String::split_at] panics inside a character: that
    is the outer [None] of [group_member_tip]. *)
From S2P Require Import Prelude RustStr RustChar KeyChord Keytip.
From Stdlib Require Import ZifyBool ZifyN.
#[local] Open Scope N_scope.

Inductive TipMatch := Node (node : AssignedNode) (consumed : nat) | HalfTip | NoTip.

Definition has_tip (tip : text) (n : AssignedNode) : bool := bool_decide (node_tip n = tip).

(** A two-letter tip that begins with this letter. *)
Definition claims_prefix (first : N) (n : AssignedNode) : bool :=
  (length (node_tip n) =? 2)%nat && text_starts_with (node_tip n) [first].

Definition match_tip (nodes : list AssignedNode) (rest : text) : TipMatch :=
  match rest with
  | [] => NoTip
  | first :: rest' =>
      match List.find (has_tip [first]) nodes with
      | Some node => Node node 1
      | None =>
          if negb (existsb (claims_prefix first) nodes) then NoTip
          else match rest' with
               | [] => HalfTip
               | second :: _ =>
                   match List.find (has_tip [first; second]) nodes with
                   | Some node => Node node 2
                   | None => NoTip
                   end
               end
      end
  end.

Abbreviation KeyTipTree := (gmap text (list AssignedNode)).

Definition build (scopes : list (ScopeId * list KeyTipDecl)) (keymap : KeymapConfig) : KeyTipTree :=
  foldl (fun m '(scope, decls) => <[as_str scope := assign_scope scope decls keymap]> m) ∅ scopes.

(** [ChordResolution]: [Pending], [Run key], [Descend], [Invalid]. *)
Inductive ChordResolution := Pending | RunKey (key : text) | DescendTo (key scope : text) | Invalid.

Definition group_scope (scope tip : text) : text := (scope ++ slash :: tip)%list.

Fixpoint scope_walk (fuel : nat) (t : KeyTipTree) (scope : text) (rest : text) : option text :=
  match rest with
  | [] => Some scope
  | _ :: _ =>
      match fuel with
      | O => None
      | S fuel' =>
          match t !! scope with
          | None => None
          | Some nodes =>
              match match_tip nodes rest with
              | Node (Leaf _ _ _ (Descend child)) consumed =>
                  scope_walk fuel' t (as_str child) (drop consumed rest)
              | Node (Leaf _ _ _ Run) _ => None
              | Node (Group tip _ _) _ => Some (group_scope scope tip)
              | HalfTip | NoTip => None
              end
          end
      end
  end.

Definition scope_at (t : KeyTipTree) (sequence : text) : option text :=
  scope_walk (length sequence) t (as_str Root) (text_lower sequence).

(** The character after a group's letter. *)
Definition pick_member (ms : list GroupMember) (rest : text) : ChordResolution :=
  match rest with
  | [d] =>
      match to_digit d with
      | Some n =>
          match List.find (fun m => number m =? n) ms with
          | Some m => RunKey (member_key m)
          | None => Invalid
          end
      | None => Invalid
      end
  | _ => Invalid
  end.

Fixpoint resolve_walk (fuel : nat) (t : KeyTipTree) (scope : text) (rest : text) : ChordResolution :=
  match rest with
  | [] => Pending
  | _ :: _ =>
      match fuel with
      | O => Pending
      | S fuel' =>
          match t !! scope with
          | None => Invalid
          | Some nodes =>
              match match_tip nodes rest with
              | HalfTip => Pending
              | NoTip => Invalid
              | Node node consumed =>
                  let rest' := drop consumed rest in
                  let last := bool_decide (rest' = []) in
                  match node with
                  | Leaf key _ _ Run => if last then RunKey key else Invalid
                  | Leaf key _ _ (Descend child) =>
                      if last then DescendTo key (as_str child)
                      else resolve_walk fuel' t (as_str child) rest'
                  | Group tip _ ms =>
                      if last then DescendTo [] (group_scope scope tip) else pick_member ms rest'
                  end
              end
          end
      end
  end.

Definition resolve (t : KeyTipTree) (sequence : text) : ChordResolution :=
  resolve_walk (length sequence) t (as_str Root) (text_lower sequence).

(** ** Badges *)

Definition paints (node_key : text) (n : AssignedNode) : bool :=
  match n with
  | Leaf key _ _ _ => bool_decide (key = node_key)
  | Group _ _ ms =>
      existsb (fun m => bool_decide (member_key m = node_key)) ms &&
      bool_decide (member_key <$> head ms = Some node_key)
  end.

Definition tip_for (t : KeyTipTree) (sequence node_key : text) : option text :=
  match scope_at t sequence with
  | None => None
  | Some scope =>
      match t !! scope with
      | None => None
      | Some nodes => text_upper ∘ node_tip <$> List.find (paints node_key) nodes
      end
  end.

Definition number_text (n : N) : text := chars (u64_to_string n).

(** The member of a group with this letter that has the key. *)
Definition member_here (letter node_key : text) (n : AssignedNode) : option GroupMember :=
  match n with
  | Group tip _ ms =>
      if bool_decide (tip = letter) then List.find (fun m => bool_decide (member_key m = node_key)) ms
      else None
  | Leaf _ _ _ _ => None
  end.

Definition group_member_tip (t : KeyTipTree) (sequence node_key : text) : option (option text) :=
  match last sequence with
  | None => Some None
  | Some c =>
      if 128 <=? c then None
      else Some (
        match scope_at t (removelast sequence) with
        | None => None
        | Some scope =>
            match t !! scope with
            | None => None
            | Some nodes => (fun m => number_text (number m)) <$> head (omap (member_here [c] node_key) nodes)
            end
        end)
  end.

(** Empty when nothing is to be painted. *)
Definition keytip_tip_for (t : KeyTipTree) (alt_overlay_active : bool) (sequence node_key : text) : option text :=
  if negb alt_overlay_active then Some []
  else match tip_for t sequence node_key with
       | Some tip => Some tip
       | None => default [] <$> group_member_tip t sequence node_key
       end.

Definition tips_at (t : KeyTipTree) (sequence : text) : option (list text) :=
  match scope_at t sequence with
  | None => None
  | Some scope => Some (match t !! scope with Some nodes => map node_tip nodes | None => [] end)
  end.

(** ** One level: a tip is recognised where it stands *)

Lemma find_tip ns n :
  NoDup (map node_tip ns) -> n ∈ ns -> List.find (has_tip (node_tip n)) ns = Some n.
Proof.
  intros Hnd Hn. destruct (List.find (has_tip (node_tip n)) ns) as [m|] eqn:E.
  - apply find_Some_spec in E as [Hm Ht%bool_decide_eq_true]. f_equal. by eapply elem_tip_eq.
  - apply (find_None_spec _ _ n) in E; [|done]. by apply bool_decide_eq_false in E.
Qed.

Lemma match_tip_node ps ns n rest :
  NoDup (map node_tip ns) -> Forall (fun n => tip_shape ps (node_tip n)) ns -> n ∈ ns ->
  match_tip ns (node_tip n ++ rest)%list = Node n (length (node_tip n)).
Proof.
  intros Hnd Hsh Hn. rewrite Forall_forall in Hsh. pose proof (find_tip ns n Hnd Hn) as Hf.
  destruct (Hsh n Hn) as [(c & Ht & _)|(_ & p & s & Ht & Hp)]; rewrite Ht in Hf |- *; cbn.
  - by rewrite Hf.
  - destruct (List.find (has_tip [p]) ns) as [m|] eqn:E.
    { apply find_Some_spec in E as [Hm Hmt%bool_decide_eq_true]. exfalso.
      destruct (Hsh m Hm) as [(c & Hc & _ & Hnot)|(_ & q & r & Hc & _)]; rewrite Hc in Hmt; [|done].
      by injection Hmt as ->. }
    assert (existsb (claims_prefix p) ns = true) as ->; [|cbn; by rewrite Hf].
    apply existsb_exists. exists n. split; [by apply list_elem_of_In|]. unfold claims_prefix, text_starts_with.
    rewrite Ht. cbn. by apply bool_decide_eq_true.
Qed.

Lemma match_tip_Node ns rest n k :
  match_tip ns rest = Node n k ->
  n ∈ ns /\ (1 <= k)%nat /\ exists rest', rest = (node_tip n ++ rest')%list /\ k = length (node_tip n).
Proof.
  unfold match_tip. destruct rest as [|c rest]; [done|].
  destruct (List.find (has_tip [c]) ns) as [m|] eqn:E.
  - intros [= <- <-]. apply find_Some_spec in E as [Hm Ht%bool_decide_eq_true].
    split; [done|]. split; [lia|]. exists rest. by rewrite Ht.
  - case_match; [done|]. destruct rest as [|d rest]; [done|].
    destruct (List.find (has_tip [c; d]) ns) as [m|] eqn:E2; [|done].
    intros [= <- <-]. apply find_Some_spec in E2 as [Hm Ht%bool_decide_eq_true].
    split; [done|]. split; [lia|]. exists rest. by rewrite Ht.
Qed.

Lemma match_tip_extend ns rest n k more :
  match_tip ns rest = Node n k -> match_tip ns (rest ++ more)%list = Node n k.
Proof.
  unfold match_tip. destruct rest as [|c rest]; [done|]. cbn.
  destruct (List.find (has_tip [c]) ns); [done|]. destruct (negb _); [done|].
  by destruct rest as [|d rest].
Qed.

(** ** The tree *)

Record coded_tree (t : KeyTipTree) : Prop := {
  coded_scopes : forall scope ns, t !! scope = Some ns ->
    exists ps, NoDup (map node_tip ns) /\ Forall (fun n => tip_shape ps (node_tip n)) ns /\ Forall sound_node ns;
  coded_names : forall scope ns, t !! scope = Some ns -> slash ∉ scope }.

(** Identifiers of row menus and applications without a slash. *)
Definition plain_scope (s : ScopeId) : bool :=
  match s with
  | RowMenuSub id | AppScope id => negb (bool_decide (slash ∈ id))
  | _ => true
  end.

Lemma plain_scope_name s : plain_scope s = true -> slash ∉ as_str s.
Proof.
  assert (forall l : text, negb (bool_decide (slash ∈ l)) = true -> slash ∉ l) as H
    by (intros l Hl; rewrite negb_true_iff, bool_decide_eq_false in Hl; exact Hl).
  destruct s; cbn [plain_scope as_str]; try (intros _; by apply H; vm_compute);
    rewrite not_elem_of_app; intros Hid; (split; [by apply H; vm_compute|by apply H]).
Qed.

Definition well_declared (scopes : list (ScopeId * list KeyTipDecl)) (keymap : KeymapConfig) : bool :=
  forallb (fun '(s, decls) => plain_scope s && roomy s decls keymap) scopes.

Lemma build_coded scopes keymap : well_declared scopes keymap = true -> coded_tree (build scopes keymap).
Proof.
  unfold build, well_declared. intros H.
  assert (coded_tree ∅) as H0 by (split; intros ? ?; by rewrite lookup_empty).
  revert H H0. generalize (∅ : KeyTipTree). induction scopes as [|[s decls] scopes IH]; intros t; [done|].
  cbn. rewrite !andb_true_iff. intros [[Hp Hr] H] [Hs Hn]. apply IH; [done|]. split.
  - intros scope ns [[_ <-]|[_ ?]]%lookup_insert_Some; [|by eapply Hs].
    destruct (assign_scope_assigned s decls keymap Hr) as [? ? ? _]. by exists (overflow_prefixes decls keymap).
  - intros scope ns [[<- _]|[_ ?]]%lookup_insert_Some; [by apply plain_scope_name|by eapply Hn].
Qed.

(** ** Walking on *)

Lemma scope_walk_fuel n m t scope rest :
  (length rest <= n)%nat -> (length rest <= m)%nat -> scope_walk n t scope rest = scope_walk m t scope rest.
Proof.
  revert m scope rest. induction n as [|n IH]; intros [|m] scope rest Hn Hm; destruct rest as [|c rest]; try done;
    [cbn in *; lia..|].
  cbn [scope_walk]. destruct (t !! scope) as [ns|]; [|done].
  destruct (match_tip ns (c :: rest)) as [[? ? ? [|child]|] k| |] eqn:E; try done.
  apply match_tip_Node in E as (_ & Hk & _). apply IH; rewrite length_drop; cbn in *; lia.
Qed.

Lemma resolve_walk_fuel n m t scope rest :
  (length rest <= n)%nat -> (length rest <= m)%nat -> resolve_walk n t scope rest = resolve_walk m t scope rest.
Proof.
  revert m scope rest. induction n as [|n IH]; intros [|m] scope rest Hn Hm; destruct rest as [|c rest]; try done;
    [cbn in *; lia..|].
  cbn [resolve_walk]. destruct (t !! scope) as [ns|]; [|done].
  destruct (match_tip ns (c :: rest)) as [[? ? ? [|child]|] k| |] eqn:E; try done.
  apply match_tip_Node in E as (_ & Hk & _). case_match; [done|]. apply IH; rewrite length_drop; cbn in *; lia.
Qed.

(** What was typed to reach a scope of the tree does not matter for what is typed next. *)
Lemma walk_on t n scope rest scope' more :
  coded_tree t -> scope_walk n t scope rest = Some scope' -> slash ∉ scope' -> more <> [] ->
  (length rest <= n)%nat ->
  resolve_walk (n + length more) t scope (rest ++ more)%list = resolve_walk (length more) t scope' more.
Proof.
  intros Ht. revert scope rest. induction n as [|n IH]; intros scope rest Hw Hs Hm Hn;
    (destruct rest as [|c rest]; [cbn in Hw; injection Hw as ->; apply resolve_walk_fuel; cbn; lia|]); [cbn in Hn; lia|].
  cbn [scope_walk] in Hw. cbn [Nat.add resolve_walk app]. destruct (t !! scope) as [ns|]; [|done].
  change (c :: rest ++ more)%list with ((c :: rest) ++ more)%list.
  destruct (match_tip ns (c :: rest)) as [node k| |] eqn:E; [|done..].
  rewrite (match_tip_extend _ _ _ _ more E). apply match_tip_Node in E as (_ & Hk & rest' & He & ->).
  assert (S (length rest) = (length (node_tip node) + length rest')%nat) as Hlen
    by (rewrite <- length_app, <- He; done).
  rewrite He in Hw |- *. rewrite <- app_assoc, drop_app_length. rewrite drop_app_length in Hw. cbn in Hn, Hk.
  destruct node as [key title tip [|child]|tip title ms]; [done| |].
  - rewrite bool_decide_eq_false_2 by (by destruct rest'). apply IH; [done..|lia].
  - injection Hw as <-. destruct Hs. unfold group_scope. set_solver.
Qed.

Lemma resolve_on t sequence scope more :
  coded_tree t -> scope_at t sequence = Some scope -> slash ∉ scope -> more <> [] ->
  resolve t (sequence ++ more)%list = resolve_walk (length more) t scope (text_lower more).
Proof.
  intros Ht Hw Hs Hm. unfold resolve, scope_at in *. rewrite length_app, text_lower_app.
  assert (length (text_lower more) = length more) as Hl by apply length_map.
  rewrite <- Hl. apply walk_on; [done..| |].
  - by destruct more.
  - unfold text_lower. rewrite length_map. lia.
Qed.

(** ** What a badge promises *)

(** What a node does once its tip is typed in full. *)
Definition lands (scope : text) (n : AssignedNode) : ChordResolution :=
  match n with
  | Leaf key _ _ Run => RunKey key
  | Leaf key _ _ (Descend child) => DescendTo key (as_str child)
  | Group tip _ _ => DescendTo [] (group_scope scope tip)
  end.

Lemma resolve_tip t sequence scope ns n more :
  coded_tree t -> scope_at t sequence = Some scope -> t !! scope = Some ns -> n ∈ ns ->
  text_lower more = node_tip n -> resolve t (sequence ++ more)%list = lands scope n.
Proof.
  intros Ht Hw Hns Hn Hmore. destruct (coded_scopes _ Ht _ _ Hns) as (ps & Hnd & Hsh & _).
  pose proof (match_tip_node ps ns n [] Hnd Hsh Hn) as Hm. rewrite app_nil_r in Hm.
  assert (node_tip n <> []) as Hne.
  { rewrite Forall_forall in Hsh. by destruct (Hsh n Hn) as [(c & -> & _)|(_ & p & s & -> & _)]. }
  rewrite (resolve_on t sequence scope more); [|done|done|by eapply coded_names|by intros ->].
  rewrite Hmore. destruct (node_tip n) as [|c tip] eqn:E; [done|].
  destruct more as [|c' more]; [done|]. cbn [length resolve_walk]. rewrite Hns, Hm.
  rewrite drop_all. by destruct n as [? ? ? []|].
Qed.

(** The first key of a two-letter tip waits for the second. *)
Lemma resolve_half t sequence scope ns n p s c :
  coded_tree t -> scope_at t sequence = Some scope -> t !! scope = Some ns -> n ∈ ns -> node_tip n = [p; s] ->
  char_lower c = p -> resolve t (sequence ++ [c])%list = Pending.
Proof.
  intros Ht Hw Hns Hn Htip Hc. destruct (coded_scopes _ Ht _ _ Hns) as (ps & _ & Hsh & _).
  rewrite (resolve_on t sequence scope) by (done || by eapply coded_names).
  cbn [length text_lower map resolve_walk]. rewrite Hns, Hc.
  assert (match_tip ns [p] = HalfTip) as ->; [|done]. unfold match_tip.
  rewrite Forall_forall in Hsh.
  destruct (List.find (has_tip [p]) ns) as [m|] eqn:E.
  { apply find_Some_spec in E as [Hm Hmt%bool_decide_eq_true]. exfalso.
    pose proof (Hsh n Hn) as Hpair. rewrite Htip in Hpair.
    destruct Hpair as [(d & [= ] & _)|(_ & q & r & [= <- <-] & Hp)].
    destruct (Hsh m Hm) as [(d & Hd & _ & Hnot)|(_ & q & r & Hd & _)]; rewrite Hd in Hmt; [|done].
    by injection Hmt as ->. }
  assert (existsb (claims_prefix p) ns = true) as ->; [|done].
  apply existsb_exists. exists n. split; [by apply list_elem_of_In|]. unfold claims_prefix, text_starts_with.
  rewrite Htip. cbn. by apply bool_decide_eq_true.
Qed.

Lemma single_digit_text n c : number_text n = [c] -> c = 48 + n /\ n < 10.
Proof.
  unfold number_text, chars. pose proof (parse_uint_to_string n n (N.le_refl n)) as Hp.
  pose proof (u64_to_string_digits n) as Hd. destruct (u64_to_string n) as [|a [|b s]]; [done| |done].
  cbn in Hd. rewrite andb_true_r in Hd. cbn. intros [= <-].
  unfold parse_uint in Hp. rewrite strip_plus_digits in Hp by (cbn; by rewrite Hd).
  cbn in Hp. rewrite Hd in Hp. cbn in Hp. case_match; [|done]. injection Hp as Hp.
  unfold digit_value, is_digit, in_range in *. lia.
Qed.

Lemma digit_text_lower n : text_lower (number_text n) = number_text n.
Proof.
  unfold number_text, chars, text_lower. pose proof (u64_to_string_digits n) as Hd.
  induction (u64_to_string n) as [|a s IH]; [done|]. cbn in *. apply andb_true_iff in Hd as [Ha Hs].
  rewrite (IH Hs). f_equal. apply digit_lower, digit_range. exact Ha.
Qed.

Lemma find_number ms m :
  StronglySorted N.lt (map number ms) -> m ∈ ms -> List.find (fun x => number x =? number m) ms = Some m.
Proof.
  induction ms as [|x ms IH]; [set_solver|]. cbn. intros [Hs Hall]%StronglySorted_inv Hm.
  rewrite Forall_forall in Hall. destruct (number x =? number m) eqn:E.
  - apply elem_of_cons in Hm as [->|Hm]; [done|].
    specialize (Hall (number m) (list_elem_of_fmap_2 number ms m Hm)). lia.
  - apply elem_of_cons in Hm as [->|Hm]; [by rewrite N.eqb_refl in E|]. by apply IH.
Qed.

(** A group's letter, then text: the member with that number. *)
Lemma resolve_member t sequence scope ns tip title ms more :
  coded_tree t -> scope_at t sequence = Some scope -> t !! scope = Some ns -> Group tip title ms ∈ ns ->
  more <> [] ->
  resolve t (sequence ++ tip ++ more)%list = pick_member ms (text_lower more).
Proof.
  intros Ht Hw Hns Hn Hmore. destruct (coded_scopes _ Ht _ _ Hns) as (ps & Hnd & Hsh & _).
  pose proof (match_tip_node ps ns _ (text_lower more) Hnd Hsh Hn) as Hm. cbn [node_tip] in Hm.
  rewrite Forall_forall in Hsh. specialize (Hsh _ Hn). cbn [node_tip] in Hsh.
  rewrite (resolve_on t sequence scope); [|done|done|by eapply coded_names|by destruct tip].
  rewrite text_lower_app, (tip_shape_lower _ _ Hsh), length_app.
  destruct tip as [|c tip]; [destruct Hsh as [(? & ? & _)|(_ & ? & ? & ? & _)]; done|].
  cbn [length Nat.add resolve_walk app] in Hm |- *. rewrite Hns, Hm.
  change (c :: tip ++ text_lower more)%list with ((c :: tip) ++ text_lower more)%list.
  change (S (length tip)) with (length (c :: tip)). rewrite drop_app_length.
  rewrite bool_decide_eq_false_2; [done|by destruct more].
Qed.

Lemma head_omap_Some {A B} (f : A -> option B) l y :
  head (omap f l) = Some y -> exists x, x ∈ l /\ f x = Some y.
Proof.
  induction l as [|x l IH]; cbn; [done|]. destruct (f x) as [z|] eqn:E; cbn.
  - intros [= <-]. exists x. split; [by left|done].
  - intros (x' & ? & ?)%IH. exists x'. split; [by right|done].
Qed.

Lemma last_removelast {A} (l : list A) c : last l = Some c -> l = (removelast l ++ [c])%list.
Proof.
  destruct l as [|x l _] using rev_ind; [done|]. rewrite last_snoc. intros [= ->].
  by rewrite removelast_last.
Qed.

(** C35: What is painted is what the keys do.  In a tree built from roomy scopes, whatever has been
    typed: the badge a declaration wears, typed next, runs that declaration, or opens its
    container, or opens the group whose first member it is; and the number a group's member
    wears, typed next, runs that member.  A number of two digits cannot be typed: the chord is
    read as invalid. *)
Theorem painted_is_typed scopes keymap :
  well_declared scopes keymap = true ->
  let t := build scopes keymap in
  (forall sequence key badge, tip_for t sequence key = Some badge ->
    resolve t (sequence ++ badge)%list = RunKey key \/
    (exists child, resolve t (sequence ++ badge)%list = DescendTo key (as_str child)) \/
    (exists scope ns tip title ms,
      scope_at t sequence = Some scope /\ t !! scope = Some ns /\ Group tip title ms ∈ ns /\
      member_key <$> head ms = Some key /\
      resolve t (sequence ++ badge)%list = DescendTo [] (group_scope scope tip))) /\
  (forall sequence key badge, group_member_tip t sequence key = Some (Some badge) ->
    resolve t (sequence ++ badge)%list = if (length badge =? 1)%nat then RunKey key else Invalid).
Proof.
  intros Hwd t. pose proof (build_coded scopes keymap Hwd) as Ht. fold t in Ht. clearbody t. split.
  - intros sequence key badge Hb. unfold tip_for in Hb.
    destruct (scope_at t sequence) as [scope|] eqn:Hw; [|done].
    destruct (t !! scope) as [ns|] eqn:Hns; [|done].
    destruct (List.find (paints key) ns) as [n|] eqn:Hf; [|done]. cbn in Hb. injection Hb as <-.
    apply find_Some_spec in Hf as [Hn Hp].
    destruct (coded_scopes _ Ht _ _ Hns) as (ps & _ & Hsh & _). rewrite Forall_forall in Hsh.
    rewrite (resolve_tip t sequence scope ns n)
      by (done || by rewrite text_lower_upper, (tip_shape_lower _ _ (Hsh n Hn))).
    destruct n as [k title tip [|child]|tip title ms]; cbn in Hp |- *.
    + apply bool_decide_eq_true in Hp as ->. by left.
    + apply bool_decide_eq_true in Hp as ->. right; left. by exists child.
    + apply andb_true_iff in Hp as [_ Hp%bool_decide_eq_true]. right; right.
      by exists scope, ns, tip, title, ms.
  - intros sequence key badge Hb. unfold group_member_tip in Hb.
    destruct (last sequence) as [c|] eqn:Hl; [|done]. destruct (128 <=? c); [done|]. injection Hb as Hb.
    destruct (scope_at t (removelast sequence)) as [scope|] eqn:Hw; [|done].
    destruct (t !! scope) as [ns|] eqn:Hns; [|done].
    apply fmap_Some in Hb as (m & (n & Hn & Hm)%head_omap_Some & ->).
    destruct n as [|tip title ms]; [done|]. cbn in Hm. case_bool_decide; [subst tip|done].
    apply find_Some_spec in Hm as [Hm Hk%bool_decide_eq_true].
    rewrite (last_removelast _ _ Hl), <- app_assoc.
    rewrite (resolve_member t _ scope ns [c] title ms) by
      (done || by unfold number_text; pose proof (u64_to_string_nonempty (number m)); destruct (u64_to_string (number m))).
    rewrite digit_text_lower. destruct (coded_scopes _ Ht _ _ Hns) as (_ & _ & _ & Hso).
    rewrite Forall_forall in Hso. specialize (Hso _ Hn). cbn in Hso.
    destruct (number_text (number m)) as [|d [|? ?]] eqn:E; cbn; [done| |done].
    apply single_digit_text in E as [-> Hlt]. unfold to_digit, is_ascii_digit, in_range.
    replace ((48 <=? 48 + number m) && (48 + number m <=? 57)) with true by lia.
    replace (48 + number m - 48) with (number m) by lia. by rewrite (find_number ms m), Hk.
Qed.

Theorem painted_is_typed_witness :
  let app k := mkDecl (chars k) (chars k) (Some 110) None App Run in
  let scopes := [(Root, [mkDecl (chars "menu") (chars "New") (Some 105) None Shell (Descend Insert)]);
                 (Insert, [app "ychrome"; app "cellulose"])] in
  let t := build scopes default_keymap in
  tip_for t (chars "i") (chars "ychrome") = Some (chars "N") /\
  group_member_tip t (chars "in") (chars "cellulose") = Some (Some (chars "2")) /\
  resolve t (chars "in" ++ chars "2")%list = RunKey (chars "cellulose").
Proof.
  intros app scopes t. split; [by vm_compute|]. split; [by vm_compute|].
  refine (proj2 (painted_is_typed scopes default_keymap _) (chars "in") (chars "cellulose") (chars "2") _);
    by vm_compute.
Defined.

(** The tenth application of a group wears a number no sequence runs it by: its first digit
    already runs the first one. *)
Example tenth_member_is_unreachable :
  let app k := mkDecl (chars k) (chars k) (Some 110) None App Run in
  let t := build [(Root, map app ["a"; "b"; "c"; "d"; "e"; "f"; "g"; "h"; "i"; "j"]%string)] default_keymap in
  group_member_tip t (chars "n") (chars "j") = Some (Some (chars "10")) /\
  resolve t (chars "n1") = RunKey (chars "a") /\ resolve t (chars "n10") = Invalid.
Proof. by vm_compute. Qed.

(** ** Derived tips: the elements nothing declares *)

Definition TAKEN_KEY : text := chars "__registry-taken:".
Definition DERIVED_KEY : text := chars "derived:".

Fixpoint strip_text_prefix (p t : text) : option text :=
  match p, t with
  | [], _ => Some t
  | a :: p', b :: t' => if a =? b then strip_text_prefix p' t' else None
  | _ :: _, [] => None
  end.

Definition taken_letters (claimed : list text) : list N :=
  dedup (stable_sort N.leb (omap head claimed)).

Definition taken_decl (letter : N) : KeyTipDecl :=
  mkDecl (TAKEN_KEY ++ [letter])%list [] (Some letter) None App Run.

Definition derived_decl (element : text * text) : KeyTipDecl :=
  mkDecl (DERIVED_KEY ++ element.1)%list element.2 None None App Run.

(** One node of the assignment: kept when it is a derived element's and its tip is new. *)
Definition keep_derived (st : list text * list (text * text)) (n : AssignedNode) :
    list text * list (text * text) :=
  match n with
  | Leaf key _ tip _ =>
      match strip_text_prefix DERIVED_KEY key with
      | Some id => if bool_decide (tip ∈ st.1) then st else (tip :: st.1, (st.2 ++ [(id, tip)])%list)
      | None => st
      end
  | Group _ _ _ => st
  end.

Definition derived_scope (claimed : list text) (elements : list (text * text)) : list KeyTipDecl :=
  (map taken_decl (taken_letters claimed) ++ map derived_decl elements)%list.

Definition derive_keytips_for_elements (claimed : list text) (elements : list (text * text)) :
    list (text * text) :=
  let taken := taken_letters claimed in
  let assigned := assign_scope (AppScope (chars "derived")) (derived_scope claimed elements) default_keymap in
  (foldl keep_derived (map (fun letter => [letter]) taken, []) assigned).2.

(** The map the shell keeps while the overlay is up. *)
Definition derived_map (assignments : list (text * text)) : gmap text text :=
  foldl (fun m '(id, tip) => <[tip := id]> m) ∅ assignments.

Inductive DerivedResolution := WaitKey | Hit (id : text) | Miss.

Definition resolve_derived (m : gmap text text) (sequence : text) : DerivedResolution :=
  if decide (sequence = []) then Miss
  else
    let sequence := text_lower sequence in
    match m !! sequence with
    | Some id => Hit id
    | None => if existsb (fun e => text_starts_with e.1 sequence) (map_to_list m) then WaitKey else Miss
    end.

(** *** The assignment of a derived scope, in full *)

Lemma reserve_not_wanted wanted needed capacity from l : l ∈ reserve wanted needed capacity from -> l ∉ wanted.
Proof.
  revert capacity. induction from as [|x from IH]; intros capacity; cbn; [set_solver|].
  case_match; [set_solver|]. case_bool_decide; [apply IH|].
  intros [->|?]%elem_of_cons; [done|by eapply IH].
Qed.

Lemma overflow_prefixes_not_wanted decls keymap l :
  l ∈ overflow_prefixes decls keymap -> l ∉ omap (desired keymap) decls.
Proof. unfold overflow_prefixes. case_match; [set_solver|]. apply reserve_not_wanted. Qed.

Definition letter_seat (k : nat) (letters : list N) : list (N * list Claimant) :=
  imap (fun i c => (c, [((k + i)%nat, taken_decl c)])) letters.

Lemma push_after letter c m :
  Forall (fun e => e.1 < letter) m -> push_to letter c m = (m ++ [(letter, [c])])%list.
Proof.
  induction 1 as [|[l cs] m Hl _ IH]; cbn in *; [done|].
  destruct (letter =? l) eqn:?; [lia|]. destruct (letter <? l) eqn:?; [lia|]. by rewrite IH.
Qed.

Lemma desired_default d : desired default_keymap d = char_lower <$> hint d.
Proof. unfold desired, keytip_override, default_keymap. cbn [keytips]. by rewrite lookup_empty. Qed.

Lemma desired_taken c : desired default_keymap (taken_decl c) = Some (char_lower c).
Proof. by rewrite desired_default. Qed.

Lemma sort_taken pool k ls m lad :
  StronglySorted N.lt ls -> Forall (fun c => char_lower c = c /\ single_free pool c = true) ls ->
  Forall (fun e => Forall (fun c => e.1 < c) ls) m ->
  foldl (sort_app default_keymap pool) (m, lad) (imap (fun i c => ((k + i)%nat, taken_decl c)) ls) =
    ((m ++ letter_seat k ls)%list, lad).
Proof.
  intros Hs. revert k m. induction Hs as [|c ls Hs IH Hlt]; intros k m Hf Hm; cbn.
  { by rewrite app_nil_r. }
  apply Forall_cons in Hf as [[Hlow Hfree] Hf]. unfold sort_app at 2. cbn [snd].
  rewrite desired_taken, Hlow.
  rewrite Hfree. cbn [fst snd]. rewrite push_after by (eapply Forall_impl; [exact Hm|]; by intros e [? _]%Forall_cons).
  rewrite <- (imap_ext (fun i c => ((S k + i)%nat, taken_decl c))) by (intros i x _; cbn; f_equal; lia).
  rewrite IH; [|done|].
  - rewrite <- app_assoc. cbn. f_equal. f_equal. unfold letter_seat. cbn. f_equal.
    apply imap_ext. intros i x _. cbn. do 3 f_equal. lia.
  - apply Forall_app. split; [|by constructor].
    eapply Forall_impl; [exact Hm|]. by intros e [_ ?]%Forall_cons.
Qed.

Lemma sort_derived pool m lad l :
  (forall c : Claimant, c ∈ l -> desired default_keymap c.2 = None) ->
  foldl (sort_app default_keymap pool) (m, lad) l = (m, (lad ++ l)%list).
Proof.
  revert lad. induction l as [|c l IH]; intros lad H; cbn; [by rewrite app_nil_r|].
  unfold sort_app at 2. rewrite H by (by left). cbn [fst snd]. rewrite IH by set_solver. by rewrite <- app_assoc.
Qed.

(** A scope whose every declaration has its own leaf. *)
Lemma leaves_in_order decls (m : gmap nat AssignedNode) :
  (forall i d, decls !! i = Some d -> exists t, m !! i = Some (leaf d t)) ->
  exists tips, length tips = length decls /\
    omap (fun i => m !! i) (seq 0 (length decls)) = zip_with leaf decls tips /\
    (forall i t d, tips !! i = Some t -> decls !! i = Some d -> m !! i = Some (leaf d t)).
Proof.
  assert (forall k, (forall i d, decls !! i = Some d -> exists t, m !! (k + i)%nat = Some (leaf d t)) ->
    exists tips, length tips = length decls /\
      omap (fun i => m !! i) (seq k (length decls)) = zip_with leaf decls tips /\
      (forall i t d, tips !! i = Some t -> decls !! i = Some d -> m !! (k + i)%nat = Some (leaf d t))) as H.
  { induction decls as [|d decls IH]; intros k Hk; [by exists []|].
    destruct (Hk 0%nat d eq_refl) as [t Ht]. rewrite Nat.add_0_r in Ht.
    destruct (IH (S k)) as (tips & Hlen & Hom & Hl).
    { intros i d' Hi. destruct (Hk (S i) d' Hi) as [t' Ht']. exists t'. by rewrite <- Nat.add_succ_comm in Ht'. }
    exists (t :: tips). cbn. rewrite Hlen, Ht. split; [done|]. split; [by rewrite Hom|].
    intros [|i] t' d'; cbn; [intros [= <-] [= <-]; by rewrite Nat.add_0_r|].
    intros ? ?. rewrite <- Nat.add_succ_comm. by apply Hl. }
  intros Hd. destruct (H 0%nat Hd) as (tips & ? & ? & ?). by exists tips.
Qed.

Lemma imap_taken k ls :
  imap pair (map taken_decl ls) = imap (fun i c => ((0 + i)%nat, taken_decl c)) ls /\
  imap (fun i d => ((k + i)%nat, d)) (map taken_decl ls) = imap (fun i c => ((k + i)%nat, taken_decl c)) ls.
Proof. split; by rewrite imap_fmap. Qed.

Lemma letter_seat_flat k ls :
  List.concat (map snd (letter_seat k ls)) = imap (fun i c => ((k + i)%nat, taken_decl c)) ls.
Proof.
  revert k. induction ls as [|c ls IH]; intros k; [done|]. unfold letter_seat in *. cbn. f_equal.
  rewrite <- (imap_ext (fun i x => ((S k + i)%nat, taken_decl x))) by (intros i x _; cbn; f_equal; lia).
  rewrite <- IH. f_equal. f_equal. apply imap_ext. intros i x _. cbn. do 3 f_equal. lia.
Qed.

Lemma derived_seat_fst k (elements : list (text * text)) :
  map fst (imap (fun i e => ((k + i)%nat, derived_decl e)) elements) = seq k (length elements).
Proof.
  revert k. induction elements as [|e es IH]; intros k; [done|]. cbn. f_equal; [lia|].
  rewrite <- (IH (S k)). f_equal. apply imap_ext. intros i x _. cbn. f_equal. lia.
Qed.

Lemma letter_seat_sorted k ls :
  StronglySorted N.lt ls -> StronglySorted (fun a b => a.1 < b.1) (letter_seat k ls).
Proof.
  intros Hs. revert k. induction Hs as [|c ls Hs IH Hall]; intros k; [constructor|]. unfold letter_seat in *. cbn.
  rewrite <- (imap_ext (fun i c => (c, [((S k + i)%nat, taken_decl c)]))) by (intros i x _; cbn; do 3 f_equal; lia).
  constructor; [apply IH|]. apply Forall_forall. intros e (i & x & -> & Hx)%elem_of_lookup_imap_1.
  rewrite Forall_forall in Hall. by eapply Hall, list_elem_of_lookup_2.
Qed.

Lemma letter_seat_free k ls pool :
  Forall (fun c => char_lower c = c /\ single_free pool c = true) ls ->
  Forall (fun e => e.2 <> [] /\ single_free pool e.1 = true /\ char_lower e.1 = e.1) (letter_seat k ls).
Proof.
  intros H. apply Forall_forall. intros e (i & x & -> & Hx)%elem_of_lookup_imap_1. cbn.
  rewrite Forall_forall in H. destruct (H x) as [? ?]; [by eapply list_elem_of_lookup_2|]. done.
Qed.

Section derived.
Context (claimed_tips : list text) (elements : list (text * text)).
Let scope := AppScope (chars "derived").
Let decls := derived_scope claimed_tips elements.
Let ps := overflow_prefixes decls default_keymap.
Let ls := taken_letters claimed_tips.
Hypothesis lowercase : Forall (fun tip => text_lower tip = tip) claimed_tips.
Hypothesis room : roomy scope decls default_keymap = true.

Lemma taken_elem c : c ∈ ls <-> exists tip, tip ∈ claimed_tips /\ head tip = Some c.
Proof. unfold ls, taken_letters. by rewrite elem_of_dedup, elem_of_stable_sort, list_elem_of_omap. Qed.

Lemma taken_lower c : c ∈ ls -> char_lower c = c.
Proof.
  intros (tip & Ht & Hc)%taken_elem. rewrite Forall_forall in lowercase. specialize (lowercase _ Ht).
  destruct tip as [|x tip]; [done|]. cbn in Hc, lowercase. congruence.
Qed.

Lemma taken_sorted : StronglySorted N.lt ls.
Proof.
  assert (ordered N.leb ls) as Hs.
  { apply dedup_from_sorted, stable_sort_sorted. apply _. }
  pose proof (NoDup_dedup (stable_sort N.leb (omap head claimed_tips))) as Hnd. fold ls in Hnd.
  change (dedup (stable_sort N.leb (omap head claimed_tips))) with ls in Hnd.
  induction Hs as [|c l Hs IH Hall]; [constructor|]. apply NoDup_cons in Hnd as [Hc Hnd].
  constructor; [by apply IH|]. apply Forall_forall. intros x Hx. rewrite Forall_forall in Hall.
  specialize (Hall x Hx). apply N.leb_le in Hall. assert (x <> c) by (intros ->; done). lia.
Qed.

Lemma taken_free : Forall (fun c => char_lower c = c /\ single_free (mkPool [] ps []) c = true) ls.
Proof.
  apply Forall_forall. intros c Hc. split; [by apply taken_lower|].
  unfold single_free. rewrite (taken_lower c Hc). cbn. apply negb_true_iff, bool_decide_eq_false.
  intros Hp. apply overflow_prefixes_not_wanted in Hp. apply Hp. apply list_elem_of_omap.
  exists (taken_decl c). split; [|by rewrite desired_taken, (taken_lower c Hc)].
  apply elem_of_app. left. by apply list_elem_of_fmap_2.
Qed.

Lemma derived_all_apps :
  List.filter from_shell (indexed decls) = [] /\
  List.filter (fun c => negb (from_shell c)) (indexed decls) =
    (imap (fun i c => (i, taken_decl c)) ls ++ imap (fun i e => ((length ls + i)%nat, derived_decl e)) elements)%list.
Proof.
  assert (indexed decls = (imap (fun i c => (i, taken_decl c)) ls ++
    imap (fun i e => ((length ls + i)%nat, derived_decl e)) elements)%list) as ->.
  { unfold indexed, decls, derived_scope. fold ls. rewrite imap_app, !imap_fmap, length_map. done. }
  assert (forall l, Forall (fun c => from_shell c = false) l ->
    List.filter from_shell l = [] /\ List.filter (fun c => negb (from_shell c)) l = l) as H.
  { induction 1 as [|c l Hc _ [IH1 IH2]]; [done|]. cbn. rewrite Hc. cbn. by rewrite IH2. }
  apply H, Forall_app. split; apply Forall_forall; intros c (i & x & -> & _)%elem_of_lookup_imap_1; done.
Qed.

Lemma decls_length : length decls = (length ls + length elements)%nat.
Proof. unfold decls, derived_scope. by rewrite length_app, !length_map. Qed.

Lemma letter_seat_NoDup : NoDup (map fst (imap (fun i c => ((0 + i)%nat, taken_decl c)) ls)).
Proof.
  replace (map fst (imap (fun i c => ((0 + i)%nat, taken_decl c)) ls)) with (seq 0 (length ls)); [apply NoDup_seq|].
  rewrite <- (length_map taken_decl), <- indexed_fst. unfold indexed. by rewrite imap_fmap.
Qed.

(** What the two passes leave in the seats. *)
Lemma derived_nodes :
  (forall i c, ls !! i = Some c ->
    nodes (assign_passes scope decls default_keymap) !! i = Some (leaf (taken_decl c) [c])) /\
  (forall i e, elements !! i = Some e ->
    exists t, nodes (assign_passes scope decls default_keymap) !! (length ls + i)%nat = Some (leaf (derived_decl e) t)).
Proof.
  pose proof (NoDup_overflow_prefixes decls default_keymap) as Hnd_ps.
  pose proof (overflow_prefixes_letters decls default_keymap) as Hps. fold ps in Hnd_ps, Hps.
  unfold assign_passes, app_passes. destruct derived_all_apps as [-> ->]. cbn [foldl pool]. fold ps.
  set (st0 := mkAssignment (mkPool [] ps []) ∅).
  rewrite foldl_app, (sort_taken _ 0) by (exact taken_sorted || exact taken_free || constructor).
  set (lad := imap (fun i e => ((length ls + i)%nat, derived_decl e)) elements).
  rewrite sort_derived by (intros c (i & e & -> & _)%elem_of_lookup_imap_1; by rewrite desired_default).
  cbn [app]. assert (laid ps st0) as Hl0 by (split; cbn; [split; cbn; constructor|set_solver..]).
  destruct (claim_letters scope default_keymap ps Hnd_ps Hps (letter_seat 0 ls) st0 Hl0)
    as (Hl & Hlen & Hseat & _).
  { apply letter_seat_sorted, taken_sorted. }
  { apply letter_seat_free, taken_free. }
  { rewrite letter_seat_flat. apply letter_seat_NoDup. }
  set (st1 := foldl (claim_letter scope default_keymap) st0 (letter_seat 0 ls)) in *.
  destruct (lay_all default_keymap ps Hnd_ps Hps false false 0 lad st1 Hl) as (_ & _ & Hseat' & Hrest).
  { unfold lad. rewrite derived_seat_fst. apply NoDup_seq. }
  { done. }
  { rewrite Hlen. unfold letter_seat, lad. rewrite !length_imap. cbn [st0 pool claimed taken pairs map app length].
    apply andb_true_iff in room as [Hr _]. apply Nat.leb_le in Hr. rewrite decls_length in Hr.
    fold ps in Hr. unfold SINGLE_TIP_CAPACITY in Hr. lia. }
  split.
  - intros i c Hi. rewrite Hrest by (unfold lad; rewrite derived_seat_fst; intros [? _]%elem_of_seq;
      apply lookup_lt_Some in Hi; lia).
    destruct (Hseat (c, [(i, taken_decl c)])) as (j & n & [-> ->] & Hn); [|exact Hn].
    apply list_elem_of_lookup. exists i. unfold letter_seat. by rewrite list_lookup_imap, Hi.
  - intros i e Hi. destruct (Hseat' ((length ls + i)%nat, derived_decl e)) as (n & (t & -> & _) & Hn); [|by exists t].
    apply list_elem_of_lookup. exists i. unfold lad. by rewrite list_lookup_imap, Hi.
Qed.

(** Every letter already claimed is claimed again, every element has a tip of its own. *)
Lemma derived_assigned :
  exists tips, length tips = length elements /\
    assign_scope scope decls default_keymap =
      (zip_with leaf (map taken_decl ls) (map (fun c => [c]) ls) ++ zip_with leaf (map derived_decl elements) tips)%list.
Proof.
  destruct derived_nodes as [Htaken Hderived].
  destruct (leaves_in_order decls (nodes (assign_passes scope decls default_keymap))) as (tips & Hlen & Hom & Hn).
  { intros i d. unfold decls, derived_scope. fold ls. rewrite lookup_app_Some, !lookup_map, length_map.
    intros [(c & Hc & ->)%fmap_Some|[Hge (e & He & ->)%fmap_Some]]; [exists [c]; by apply Htaken|].
    destruct (Hderived _ _ He) as [t Ht]. exists t. by replace (length ls + (i - length ls))%nat with i in Ht by lia. }
  unfold assign_scope. rewrite Hom. rewrite decls_length in Hlen.
  exists (drop (length ls) tips). split; [rewrite length_drop; lia|].
  rewrite <- (take_drop (length ls) tips) at 1. unfold decls, derived_scope. fold ls.
  rewrite zip_with_app by (rewrite length_map, length_take; lia). f_equal. f_equal.
  apply list_eq. intros i. rewrite lookup_map. destruct (ls !! i) as [c|] eqn:Hc; cbn.
  - pose proof (lookup_lt_Some _ _ _ Hc). rewrite lookup_take by lia.
    destruct (tips !! i) as [t|] eqn:Ht; [|apply lookup_ge_None in Ht; lia].
    assert (decls !! i = Some (taken_decl c)) as Hd.
    { unfold decls, derived_scope. fold ls. rewrite lookup_app_l by (rewrite length_map; lia).
      by rewrite lookup_map, Hc. }
    pose proof (Hn i t _ Ht Hd) as H1. rewrite (Htaken i c Hc) in H1. unfold leaf in H1. rewrite decide_True by lia. congruence.
  - apply lookup_ge_None in Hc. apply lookup_ge_None. rewrite length_take. lia.
Qed.

End derived.

(** *** Walking the derived tips *)

Lemma keep_one used out e t :
  t ∉ used -> keep_derived (used, out) (leaf (derived_decl e) t) = (t :: used, (out ++ [(e.1, t)])%list).
Proof. intros Ht. cbn. by rewrite bool_decide_eq_false_2. Qed.

Lemma leaf_tips ds ts : length ds = length ts -> map node_tip (zip_with leaf ds ts) = ts.
Proof. revert ts. induction ds as [|d ds IH]; intros [|t ts]; try done. cbn. intros [= Hl]. by rewrite IH. Qed.

Lemma keep_taken st ls :
  foldl keep_derived st (zip_with leaf (map taken_decl ls) (map (fun c => [c]) ls)) = st.
Proof. revert st. induction ls as [|c ls IH]; intros st; [done|]. cbn. by rewrite IH. Qed.

Lemma keep_all used out elements tips :
  length tips = length elements -> NoDup tips -> (forall t, t ∈ tips -> t ∉ used) ->
  (foldl keep_derived (used, out) (zip_with leaf (map derived_decl elements) tips)).2 =
    (out ++ zip (map fst elements) tips)%list.
Proof.
  revert used out tips. induction elements as [|e es IH]; intros used out [|t tips]; try done; cbn [length map zip_with foldl].
  { intros. by rewrite app_nil_r. }
  intros [= Hlen] [Ht Hnd]%NoDup_cons Hu. rewrite keep_one by (apply Hu; by left).
  rewrite IH; [by rewrite <- app_assoc|done|done|].
  intros t' Ht'. rewrite not_elem_of_cons. split; [by intros ->|]. apply Hu. by right.
Qed.

(** The derived letters of a surface: one per element in order, of the shapes of a scope, distinct
    and apart from every first letter already claimed. *)
Lemma derived_letters claimed elements :
  Forall (fun tip => text_lower tip = tip) claimed ->
  roomy (AppScope (chars "derived")) (derived_scope claimed elements) default_keymap = true ->
  exists tips ps, length tips = length elements /\
    derive_keytips_for_elements claimed elements = zip (map fst elements) tips /\
    NoDup tips /\ Forall (tip_shape ps) tips /\
    (forall tip c, tip ∈ tips -> head tip = Some c -> forall t, t ∈ claimed -> head t <> Some c).
Proof.
  intros Hlow Hroom. destruct (derived_assigned claimed elements Hlow Hroom) as (tips & Hlen & Ha).
  destruct (assign_scope_assigned _ _ _ Hroom) as [Hnd Hsh _ _].
  set (ps := overflow_prefixes (derived_scope claimed elements) default_keymap) in *.
  set (ls := taken_letters claimed) in *.
  assert (map node_tip (zip_with leaf (map taken_decl ls) (map (fun c => [c]) ls) ++
      zip_with leaf (map derived_decl elements) tips)%list = (map (fun c => [c]) ls ++ tips)%list) as Htips.
  { rewrite map_app, !leaf_tips; [done|rewrite length_map; lia|by rewrite !length_map]. }
  rewrite Ha, Htips in Hnd. apply NoDup_app in Hnd as (_ & Hdis & Hnd).
  assert (Forall (tip_shape ps) (map (fun c => [c]) ls ++ tips)%list) as Hsh'
    by (rewrite <- Htips, <- Ha; by apply Forall_map).
  apply Forall_app in Hsh' as [_ Hsh'].
  exists tips, ps. split; [done|]. split; [|split; [done|split; [done|]]].
  - unfold derive_keytips_for_elements. rewrite Ha, foldl_app. fold ls. rewrite keep_taken, keep_all; [done..|].
    intros t Ht Hc. by apply (Hdis t).
  - intros tip c Htip Hc t Ht Htc.
    assert (c ∈ ls) as Hcl by (apply taken_elem; by exists t).
    rewrite Forall_forall in Hsh'. destruct (Hsh' tip Htip) as [(d & -> & _)|(_ & p & s & -> & Hp)].
    + injection Hc as ->. apply (Hdis [c]); [|done]. by apply (list_elem_of_fmap_2 (fun c => [c])).
    + injection Hc as ->. apply overflow_prefixes_not_wanted in Hp. apply Hp. apply list_elem_of_omap.
      exists (taken_decl c). split; [apply elem_of_app; left; by apply list_elem_of_fmap_2|].
      rewrite desired_taken. f_equal. rewrite Forall_forall in Hlow. specialize (Hlow t Ht).
      destruct t as [|x t]; [done|]. cbn in Htc, Hlow. congruence.
Qed.

Lemma derived_map_lookup ids tips :
  length tips = length ids -> NoDup tips -> forall i id tip,
  ids !! i = Some id -> tips !! i = Some tip -> derived_map (zip ids tips) !! tip = Some id.
Proof.
  assert (forall l (m : gmap text text) tip, tip ∉ map snd l ->
    foldl (fun m '(id, tip) => <[tip := id]> m) m l !! tip = m !! tip) as Hskip.
  { induction l as [|[id t] l IH]; intros m tip; cbn; [done|]. rewrite not_elem_of_cons. intros [? ?].
    rewrite IH by done. by rewrite lookup_insert_ne. }
  unfold derived_map. generalize (∅ : gmap text text).
  revert tips. induction ids as [|id ids IH]; intros [|tip tips] m Hlen Hnd i id' tip'; try done.
  injection Hlen as Hlen. apply NoDup_cons in Hnd as [Ht Hnd].
  destruct i as [|i]; cbn; [|by apply IH]. intros [= <-] [= <-]. rewrite Hskip; [by rewrite lookup_insert_eq|].
  intros Hin. apply Ht. apply list_elem_of_fmap in Hin as ([a b] & -> & Hin). by apply elem_of_zip_r in Hin.
Qed.

Lemma derived_map_keys ids tips tip id : derived_map (zip ids tips) !! tip = Some id -> tip ∈ tips.
Proof.
  assert (forall l (m : gmap text text), foldl (fun m '(id, tip) => <[tip := id]> m) m l !! tip = Some id ->
    tip ∈ map snd l \/ m !! tip = Some id) as H.
  { induction l as [|[i t] l IH]; intros m; cbn; [by right|]. intros [?|Hm]%IH; [left; by right|].
    apply lookup_insert_Some in Hm as [[<- _]|[_ ?]]; [left; by left|by right]. }
  unfold derived_map. intros [Hin|?]%H; [|done]. apply list_elem_of_fmap in Hin as ([a b] & -> & Hin).
  by apply elem_of_zip_r in Hin.
Qed.

(** Whatever the room, only the elements' identifiers are given a tip. *)
Lemma strip_text_prefix_app p t : strip_text_prefix p (p ++ t)%list = Some t.
Proof. induction p as [|a p IH]; cbn; [done|]. by rewrite N.eqb_refl. Qed.

Lemma derived_elements claimed elements id tip :
  (id, tip) ∈ derive_keytips_for_elements claimed elements -> id ∈ map fst elements.
Proof.
  unfold derive_keytips_for_elements.
  pose proof (assign_scope_declared (AppScope (chars "derived")) (derived_scope claimed elements) default_keymap) as Hd.
  assert (forall key id', key ∈ map decl_key (derived_scope claimed elements) ->
    strip_text_prefix DERIVED_KEY key = Some id' -> id' ∈ map fst elements) as Hkey.
  { intros key id' Hin. unfold derived_scope in Hin. rewrite map_app, elem_of_app, !map_map in Hin.
    destruct Hin as [(l & -> & _)%list_elem_of_fmap|(e & -> & He)%list_elem_of_fmap]; [done|].
    cbn [decl_key derived_decl]. rewrite strip_text_prefix_app. intros [= <-]. by apply list_elem_of_fmap_2. }
  revert Hd. generalize (assign_scope (AppScope (chars "derived")) (derived_scope claimed elements) default_keymap).
  intros ns Hd. set (st := (_, [])).
  assert (Forall (fun e : text * text => e.1 ∈ map fst elements) st.2) as Hst by constructor.
  clearbody st. revert st Hst. induction Hd as [|n ns Hn Hd IH]; intros st Hst; cbn.
  - intros Hin. rewrite Forall_forall in Hst. by apply (Hst (id, tip)).
  - apply IH. unfold keep_derived. destruct n as [key title tip' target|]; [|done].
    destruct (strip_text_prefix DERIVED_KEY key) as [id'|] eqn:E; [|done]. case_bool_decide; [done|].
    apply Forall_app. repeat constructor; [done|]. by eapply Hkey.
Qed.

Lemma derived_map_ids l tip id : derived_map l !! tip = Some id -> id ∈ map fst l.
Proof.
  unfold derived_map. cut (forall m : gmap text text, foldl (fun m '(id, tip) => <[tip := id]> m) m l !! tip = Some id ->
    id ∈ map fst l \/ m !! tip = Some id).
  { intros Hc [?|?]%Hc; [done|]. by rewrite lookup_empty in *. }
  induction l as [|[i t] l IH]; intros m; cbn; [by right|]. intros [?|Hm]%IH; [left; by right|].
  apply lookup_insert_Some in Hm as [[_ <-]|[_ ?]]; [left; by left|by right].
Qed.

(** Nothing declared begins with the letter: the registry's walk ends there. *)
Lemma resolve_foreign t sequence scope ns c more :
  coded_tree t -> scope_at t sequence = Some scope -> t !! scope = Some ns -> char_lower c = c ->
  (forall n, n ∈ ns -> head (node_tip n) <> Some c) -> resolve t (sequence ++ c :: more)%list = Invalid.
Proof.
  intros Ht Hw Hns Hc Hfree. rewrite (resolve_on t sequence scope) by (done || by eapply coded_names).
  cbn [length text_lower map resolve_walk]. rewrite Hns, Hc.
  assert (match_tip ns (c :: map char_lower more) = NoTip) as ->; [|done]. unfold match_tip.
  destruct (List.find (has_tip [c]) ns) as [n|] eqn:E.
  { apply find_Some_spec in E as [Hn Hh%bool_decide_eq_true]. by destruct (Hfree n Hn); rewrite Hh. }
  destruct (existsb (claims_prefix c) ns) eqn:E2; [|done].
  apply existsb_exists in E2 as (n & Hn & Hp). apply list_elem_of_In in Hn. exfalso. apply (Hfree n Hn).
  unfold claims_prefix, text_starts_with in Hp. apply andb_true_iff in Hp as [_ Hp%bool_decide_eq_true].
  destruct (node_tip n) as [|x tip]; [done|]. cbn in *. congruence.
Qed.

Lemma derived_reach t sequence scope ns claimed elements :
  coded_tree t ->
  scope_at t sequence = Some scope -> t !! scope = Some ns -> tips_at t sequence = Some claimed ->
  roomy (AppScope (chars "derived")) (derived_scope claimed elements) default_keymap = true ->
  let out := derive_keytips_for_elements claimed elements in
  map fst out = map fst elements /\
  forall i id tip, out !! i = Some (id, tip) ->
    resolve_derived (derived_map out) tip = Hit id /\ text_lower tip = tip /\
    exists c rest, tip = c :: rest /\ (length rest <= 1)%nat /\
      (forall more, resolve t (sequence ++ c :: more)%list = Invalid) /\
      (rest <> [] -> resolve_derived (derived_map out) [c] = WaitKey).
Proof.
  intros Ht Hw Hns Hat Hroom.
  unfold tips_at in Hat. rewrite Hw, Hns in Hat. injection Hat as <-.
  destruct (coded_scopes _ Ht _ _ Hns) as (ps & _ & Hsh & _).
  assert (Forall (fun tip => text_lower tip = tip) (map node_tip ns)) as Hlow.
  { apply Forall_map. eapply Forall_impl; [exact Hsh|]. intros n. cbn. apply tip_shape_lower. }
  destruct (derived_letters _ elements Hlow Hroom) as (tips & qs & Hlen & -> & Hnd & Hsh' & Hhead).
  cbn zeta. split; [apply fst_zip; rewrite length_map; lia|].
  intros i id tip (Hid & Htip)%lookup_zip_Some. rewrite Forall_forall in Hsh'.
  assert (tip ∈ tips) as Hin by (by eapply list_elem_of_lookup_2). pose proof (Hsh' tip Hin) as Hshape.
  assert (length tips = length (map fst elements)) as Hlen' by (by rewrite length_map).
  assert (resolve_derived (derived_map (zip (map fst elements) tips)) tip = Hit id) as Hhit.
  { unfold resolve_derived. rewrite decide_False, (tip_shape_lower _ _ Hshape)
      by (destruct Hshape as [(c & -> & _)|(_ & p & s & -> & _)]; done).
    by rewrite (derived_map_lookup _ tips Hlen' Hnd i id tip Hid Htip). }
  split; [done|]. split; [by eapply tip_shape_lower|].
  destruct tip as [|c rest]; [by destruct Hshape as [(? & ? & _)|(_ & ? & ? & ? & _)]|].
  exists c, rest. split; [done|].
  split; [destruct Hshape as [(? & [= _ ->] & _)|(_ & ? & ? & [= _ ->] & _)]; cbn; lia|]. pose proof (tip_shape_lower _ _ Hshape) as Hl. injection Hl as Hc Hrest.
  split.
  - intros more. eapply resolve_foreign; [done..|]. intros n Hn. apply (Hhead (c :: rest) c Hin eq_refl).
    by apply list_elem_of_fmap_2.
  - intros Hne. destruct Hshape as [(d & [= _ ->] & _)|(_ & p & s & [= -> ->] & Hp)]; [done|].
    unfold resolve_derived. rewrite decide_False by done. cbn [text_lower map]. rewrite Hc.
    destruct (derived_map (zip (map fst elements) tips) !! [p]) as [id'|] eqn:E.
    { apply derived_map_keys in E. exfalso.
      destruct (Hsh' [p] E) as [(d & [= ->] & _ & Hnot)|(_ & ? & ? & ? & _)]; done. }
    assert (existsb (fun e => text_starts_with e.1 [p])
      (map_to_list (derived_map (zip (map fst elements) tips))) = true) as Hex; [|rewrite Hex; unfold text in *; rewrite E; reflexivity].
    apply existsb_exists. exists ([p; s], id). split; [|by apply bool_decide_eq_true].
    apply list_elem_of_In, elem_of_map_to_list. by apply (derived_map_lookup _ tips Hlen' Hnd i).
Qed.

(** Derived letters never shadow declared ones, and reach every element.  On a surface whose
    scope is open, the tips derived for the undeclared elements are one per element, in the
    elements' order; typing one, the registry's walk gives up at its first key, so the derived map
    is asked; the whole tip finds its element; and the first key of a two-letter tip waits. *)
Theorem derived_never_shadows scopes keymap sequence scope ns claimed elements :
  well_declared scopes keymap = true ->
  let t := build scopes keymap in
  scope_at t sequence = Some scope -> t !! scope = Some ns -> tips_at t sequence = Some claimed ->
  roomy (AppScope (chars "derived")) (derived_scope claimed elements) default_keymap = true ->
  let out := derive_keytips_for_elements claimed elements in
  map fst out = map fst elements /\
  forall i id tip, out !! i = Some (id, tip) ->
    resolve_derived (derived_map out) tip = Hit id /\
    exists c rest, tip = c :: rest /\
      (forall more, resolve t (sequence ++ c :: more)%list = Invalid) /\
      (rest <> [] -> resolve_derived (derived_map out) [c] = WaitKey).
Proof.
  intros Hwd t Hw Hns Hat Hroom.
  destruct (derived_reach t sequence scope ns claimed elements (build_coded _ _ Hwd) Hw Hns Hat Hroom) as [Hids Hout].
  split; [exact Hids|]. intros i id tip Hi.
  destruct (Hout i id tip Hi) as (Hhit & _ & c & rest & Ht & _ & Hinv & Hwait). split; [exact Hhit|]. by exists c, rest.
Qed.

Theorem derived_never_shadows_witness :
  let scopes := [(Root, [mkDecl (chars "sidebar.toggle") (chars "Toggle sidebar") (Some 98) None Shell Run])] in
  let elements := map (fun i => ([N.of_nat i], chars "Button")) (seq 0 40) in
  let out := derive_keytips_for_elements [[98]] elements in
  map fst out = map fst elements /\
  out !! 39%nat = Some ([39], [122; 97]) /\ resolve_derived (derived_map out) [122] = WaitKey.
Proof.
  intros scopes elements out.
  destruct (derived_never_shadows scopes default_keymap [] (chars "root")
    (assign_scope Root [mkDecl (chars "sidebar.toggle") (chars "Toggle sidebar") (Some 98) None Shell Run] default_keymap)
    [[98]] elements) as [Hids Hout]; [by vm_compute..|].
  split; [exact Hids|].
  assert (out !! 39%nat = Some ([39], [122; 97])) as H by (by vm_compute).
  split; [exact H|]. destruct (Hout 39%nat [39] [122; 97] H) as (_ & c & rest & [= <- <-] & _ & Hw).
  by apply Hw.
Defined.

(** A group's own scope has no nodes in the tree, so it claims no tips, although its members answer
    to digits: an element derived there may wear a digit that runs a member. *)
Example group_scope_claims_nothing :
  let app k := mkDecl (chars k) (chars k) (Some 110) None App Run in
  let t := build [(Root, [app "a"; app "b"])] default_keymap in
  tips_at t (chars "n") = Some [] /\ resolve t (chars "n" ++ [49])%list = RunKey (chars "a") /\
  (derive_keytips_for_elements [] (map (fun i => ([N.of_nat i], [])) (seq 0 28))) !! 27%nat = Some ([27], [49]).
Proof. by vm_compute. Qed.
