(* ===== verification/ShellCommands.v ===== *)
(** * The shell's commands, their keys, and the editor that rebinds them

    src/crates/yggterm-shell/src/command_registry.rs; the accelerators of
    src/crates/yggterm-shell/src/keytip.rs; and, of src/crates/yggterm-shell/src/shell/state.rs,
    the scopes declared each frame, the keymap file and the keymap editor.

    The editor's state is the keymap configuration, the letters derived from it, and the last
    error.  A keymap document is the part of the parsed file the loader reads: the sections that
    are objects, with the values of their fields.  [u64] and [u32] are [N], the cast written out.

    [app_launcher_entries] is the [HashSet] guard of its filter.  The pixels, the file system and
    the push of the accelerators into the page are not modelled. *)
From S2P Require Import Prelude RustStr RustChar KeyChord Keytip KeytipTree.
From Stdlib Require Import ZifyBool ZifyN.
#[local] Open Scope N_scope.

Inductive ShellCommand :=
| ToggleSidebar | ViewWeb | ViewTerminal | ToggleConnect | ToggleNotifications | ToggleSettings
| ToggleMetadata | ToggleFullscreen | ToggleAlwaysOnTop | OpenInsertMenu | OpenRowMenu | JumpSession
| InsertSession | InsertTerminal | NextSession | PrevSession | OpenKeymapEditor | FocusSearch.

Record CommandSpec := mkSpec {
  command : ShellCommand; spec_id : text; spec_title : text; parent : option text;
  default_keytip : option N; descends_into : option text }.

(** A letter as the source writes it. *)
Definition letter (s : string) : option N := head (chars s).

Definition spec (c : ShellCommand) (id title : string) (parent : option string) (keytip : option string)
    (descends : option string) : CommandSpec :=
  mkSpec c (chars id) (chars title) (chars <$> parent)
    (match keytip with Some k => letter k | None => None end) (chars <$> descends).

Definition session_command : CommandSpec :=
  spec InsertSession "insert.session" "New session" (Some "insert.menu"%string) (Some "s"%string) None.
Definition terminal_command : CommandSpec :=
  spec InsertTerminal "insert.terminal" "New terminal" (Some "insert.menu"%string) (Some "t"%string) None.

Definition SHELL_COMMANDS : list CommandSpec := [
  spec ToggleSidebar "sidebar.toggle" "Toggle sidebar" None (Some "b") None;
  spec ViewWeb "view.web" "Web view" None (Some "v") None;
  spec ViewTerminal "view.terminal" "Terminal view" None (Some "t") None;
  spec ToggleConnect "connect.toggle" "Connect SSH" None (Some "c") None;
  spec ToggleNotifications "notifications.toggle" "Notifications" None (Some "l") None;
  spec ToggleSettings "settings.toggle" "Settings" None (Some "g") (Some "settings");
  spec ToggleMetadata "metadata.toggle" "Session metadata" None (Some "d") None;
  spec ToggleFullscreen "window.fullscreen" "Toggle fullscreen" None (Some "u") None;
  spec ToggleAlwaysOnTop "window.always-on-top" "Always on top" None (Some "o") None;
  spec OpenKeymapEditor "keymap.editor" "Edit ALT+ keys" None (Some "k") None;
  spec FocusSearch "search.focus" "Search" None (Some "s") None;
  mkSpec OpenInsertMenu (chars "insert.menu") (chars "New" ++ [8230] ++ chars " menu")%list None
    (letter "i") (Some (chars "insert.menu"));
  session_command;
  terminal_command;
  spec OpenRowMenu "session.menu" "Row actions" None (Some "e") (Some "rowmenu");
  spec JumpSession "session.jump" "Jump to session" None (Some "j") (Some "session.jump");
  spec NextSession "session.next" "Next live session" None None None;
  spec PrevSession "session.prev" "Previous live session" None None None ]%string.

Definition spec_for_id (id : text) : option CommandSpec :=
  List.find (fun s => bool_decide (spec_id s = id)) SHELL_COMMANDS.

(** ** The letters in force *)

(** [Keymap]: the overrides. *)
Abbreviation Keymap := (gmap text N).

Definition keep_override (m : Keymap) (entry : text * N) : Keymap :=
  let l := char_lower entry.2 in
  if is_Some_b (spec_for_id entry.1) && is_ascii_alphanumeric l then <[entry.1 := l]> m else m.

Definition from_overrides (entries : list (text * N)) : Keymap := foldl keep_override ∅ entries.

Definition keytip_for_id (k : Keymap) (id : text) : option N :=
  match k !! id with
  | Some l => Some l
  | None => match spec_for_id id with Some s => default_keytip s | None => None end
  end.

(** [chord_for_id] calls itself on the parent; the registry is two levels deep. *)
Fixpoint chord_with_fuel (fuel : nat) (k : Keymap) (id : text) : option text :=
  match fuel with
  | O => None
  | S fuel' =>
      match spec_for_id id with
      | None => None
      | Some s =>
          match (match parent s with Some p => chord_with_fuel fuel' k p | None => Some [] end),
                keytip_for_id k id with
          | Some chord, Some l => Some (chord ++ [l])%list
          | _, _ => None
          end
      end
  end.

Definition chord_for_id : Keymap -> text -> option text := chord_with_fuel 2.

(** [keymap_from_keytip_config]. *)
Definition keymap_from_keytip_config (cfg : KeymapConfig) : Keymap :=
  from_overrides (map_to_list (keytips cfg)).

(** ** Accelerators *)

Definition DEFAULT_ACCELERATORS : list (text * text) :=
  [ (chars "insert.terminal", chars "Ctrl+Shift+T"); (chars "insert.session", chars "Ctrl+Shift+N");
    (chars "sidebar.toggle", chars "Ctrl+Shift+B"); (chars "session.next", chars "Ctrl+Alt+PageDown");
    (chars "session.prev", chars "Ctrl+Alt+PageUp"); (chars "window.fullscreen", chars "F11") ].

(** The entries of a [BTreeMap], by key. *)
Definition by_key {A} (a b : text * A) : bool := text_leb a.1 b.1.

Definition entries {A} (m : gmap text A) : list (text * A) := stable_sort by_key (map_to_list m).

Definition effective_accelerators (cfg : KeymapConfig) : list (text * Chord) :=
  (entries (accelerators cfg) ++
   omap (fun '(id, chord) =>
     match accelerators cfg !! id with
     | Some _ => None
     | None => pair id <$> chord_parse chord
     end) DEFAULT_ACCELERATORS)%list.

Definition accel_command_for (chord : Chord) (cfg : KeymapConfig) : option text :=
  fst <$> List.find (fun e => bool_decide (e.2 = chord)) (effective_accelerators cfg).

(** ** The keymap file *)

Inductive JsonValue := JString (s : text) | JNumber (n : N) | JOther.

Abbreviation Document := (gmap text (gmap text JsonValue)).

Definition section (doc : Document) (name : string) : list (text * JsonValue) :=
  match doc !! chars name with Some m => entries m | None => [] end.

Definition load_keytip (cfg : KeymapConfig) (e : text * JsonValue) : KeymapConfig :=
  match e.2 with
  | JString (ch :: _) => if is_ascii_alphanumeric ch then set_keytip e.1 ch cfg else cfg
  | _ => cfg
  end.

Definition load_pin (cfg : KeymapConfig) (e : text * JsonValue) : KeymapConfig :=
  match e.2 with
  | JNumber n => pin_number e.1 (n mod (u32_max + 1)) cfg
  | _ => cfg
  end.

Definition load_accel (cfg : KeymapConfig) (e : text * JsonValue) : KeymapConfig :=
  match e.2 with
  | JString s =>
      match chord_parse s with
      | Some chord => if is_pty_safe chord then set_accel e.1 chord cfg else cfg
      | None => cfg
      end
  | _ => cfg
  end.

(** A file that is not JSON is [None]. *)
Definition parse_keytip_config (doc : option Document) : KeymapConfig :=
  match doc with
  | None => default_keymap
  | Some doc =>
      let cfg := foldl load_keytip default_keymap (section doc "keytips" ++ section doc "bindings") in
      let cfg := foldl load_pin cfg (section doc "pinned") in
      foldl load_accel cfg (section doc "accelerators")
  end.

Definition save_keytip_config (cfg : KeymapConfig) : Document :=
  <[chars "keytips" := (fun l => JString [l]) <$> keytips cfg]>
  (<[chars "pinned" := JNumber <$> pinned cfg]>
  (<[chars "accelerators" := (fun c => JString (chord_display c)) <$> accelerators cfg]> ∅)).

(** ** The editor *)

Inductive EditorError :=
| NotAlphanumeric | Reserved (l : N) | LetterUsed (l : N)
| NotAChord (s : text) | BelongsToTerminal (c : Chord) | ChordBound (c : Chord) (other : text).

Record Editor := mkEditor {
  keytip_config : KeymapConfig; keymap : Keymap; keymap_editor_error : option EditorError }.

Definition initial_editor : Editor := mkEditor default_keymap ∅ None.

Definition fails (s : Editor) (e : EditorError) : Editor :=
  mkEditor (keytip_config s) (keymap s) (Some e).

Definition set_keymap_override (command_id : text) (raw : N) (s : Editor) : Editor :=
  let l := char_lower raw in
  match spec_for_id command_id with
  | None => s
  | Some sp =>
      if negb (is_ascii_alphanumeric l) then fails s NotAlphanumeric
      else if bool_decide (parent sp = None) && reserved_letter l then fails s (Reserved l)
      else if existsb (fun other => negb (bool_decide (spec_id other = command_id)) &&
                 bool_decide (parent other = parent sp) &&
                 bool_decide (keytip_for_id (keymap s) (spec_id other) = Some l)) SHELL_COMMANDS
      then fails s (LetterUsed l)
      else
        let cfg := clear_keytip command_id (keytip_config s) in
        let cfg := if bool_decide (default_keytip sp = Some l) then cfg else set_keytip command_id l cfg in
        mkEditor cfg (keymap_from_keytip_config cfg) None
  end.

Definition set_accel_override (command_id raw : text) (s : Editor) : Editor :=
  let cfg := keytip_config s in
  let typed := trim_text raw in
  if decide (typed = []) then mkEditor (clear_accel command_id cfg) (keymap s) None
  else match chord_parse typed with
       | None => fails s (NotAChord typed)
       | Some chord =>
           if negb (is_pty_safe chord) then fails s (BelongsToTerminal chord)
           else match List.find (fun e => negb (bool_decide (e.1 = command_id)) && bool_decide (e.2 = chord))
                        (effective_accelerators cfg) with
                | Some (other, _) => fails s (ChordBound chord other)
                | None => mkEditor (set_accel command_id chord cfg) (keymap s) None
                end
       end.

Definition reset_keymap (s : Editor) : Editor := mkEditor default_keymap ∅ None.

Inductive Edit := SetLetter (command_id : text) (raw : N) | SetAccel (command_id raw : text) | ResetAll.

Definition edit (s : Editor) (e : Edit) : Editor :=
  match e with
  | SetLetter id l => set_keymap_override id l s
  | SetAccel id raw => set_accel_override id raw s
  | ResetAll => reset_keymap s
  end.

(** ** The scopes of a frame *)

Record AppVerb := mkVerb { verb_id : text; verb_label : text; verb_keytip : text }.
Record AppManifest := mkApp { app_name : text; app_keytip : text; verbs : list AppVerb }.

Definition app_launcher_entries (apps : list AppManifest) : list (AppManifest * AppVerb) :=
  let all := flat_map (fun app => map (pair app) (verbs app)) apps in
  (foldl (fun '(seen, kept) '(app, verb) =>
     if bool_decide ((app_name app, verb_id verb) ∈ seen) then (seen, kept)
     else ((app_name app, verb_id verb) :: seen, (kept ++ [(app, verb)])%list)) ([], []) all).2.

Definition app_verb_node_key (app verb : text) : text := (chars "appverb:" ++ app ++ chars ":" ++ verb)%list.

(** The children of an item are items without children. *)
Record RowMenuChild := mkChild {
  child_id : text; child_label : text; child_hint : option N; child_separator : bool; child_disabled : bool }.
Record RowMenuItem := mkItem {
  item_id : text; item_label : text; item_hint : option N; item_separator : bool; item_disabled : bool;
  submenu : list RowMenuChild }.

Definition row_menu_node_key (id : text) : text := (chars "rowmenu:" ++ id)%list.

Definition keytip_scope_from_id (scope : text) : ScopeId :=
  if bool_decide (scope = chars "insert.menu") then Insert
  else if bool_decide (scope = chars "settings") then Settings
  else if bool_decide (scope = chars "settings.theme") then SettingsTheme
  else if bool_decide (scope = chars "rowmenu") then RowMenu
  else if bool_decide (scope = chars "session.jump") then SessionJump
  else AppScope scope.

(** [KeyTipDecl::shell], [::shell_optional], [::app]. *)
Definition decl_shell (key title : text) (hint : option N) (target : Target) : KeyTipDecl :=
  mkDecl key title hint None Shell target.
Definition decl_app (key title : text) (hint : option N) (target : Target) : KeyTipDecl :=
  mkDecl key title hint None App target.

Definition command_decl (s : CommandSpec) (l : N) : KeyTipDecl :=
  decl_shell (spec_id s) (spec_title s) (Some l)
    (match descends_into s with Some scope => Descend (keytip_scope_from_id scope) | None => Run end).

(** The loop over the registry: [root] and [insert]. *)
Definition declare_command (st : list KeyTipDecl * list KeyTipDecl) (s : CommandSpec) :
    list KeyTipDecl * list KeyTipDecl :=
  match default_keytip s with
  | None => st
  | Some l =>
      if bool_decide (parent s = Some (chars "insert.menu")) then (st.1, (st.2 ++ [command_decl s l])%list)
      else ((st.1 ++ [command_decl s l])%list, st.2)
  end.

Definition claude_decl : KeyTipDecl := decl_shell (chars "insert.claude") (chars "New Claude Code") (letter "c") Run.

Definition with_claude (insert : list KeyTipDecl) : list KeyTipDecl :=
  match position (fun d => bool_decide (decl_key d = chars "insert.terminal")) insert with
  | Some pos => vec_insert pos claude_decl insert
  | None => (insert ++ [claude_decl])%list
  end.

Definition app_decl (entry : AppManifest * AppVerb) : KeyTipDecl :=
  let '(app, verb) := entry in
  decl_app (app_verb_node_key (app_name app) (verb_id verb)) (verb_label verb)
    (match head (verb_keytip verb) with Some c => Some c | None => head (app_keytip app) end) Run.

Definition settings_decls : list KeyTipDecl :=
  [ decl_shell (chars "theme.light") (chars "Light theme") (letter "l") Run;
    decl_shell (chars "theme.dark") (chars "Dark theme") (letter "d") Run ].

Definition row_item_decl (item : RowMenuItem) : KeyTipDecl :=
  decl_shell (row_menu_node_key (item_id item)) (item_label item) (item_hint item)
    (match submenu item with [] => Run | _ => Descend (RowMenuSub (item_id item)) end).

Definition row_child_decl (child : RowMenuChild) : KeyTipDecl :=
  decl_shell (row_menu_node_key (child_id child)) (child_label child) (child_hint child) Run.

Definition row_menu_children (row_menu : list RowMenuItem) : list (ScopeId * list KeyTipDecl) :=
  omap (fun item =>
    match submenu item with
    | [] => None
    | _ => Some (RowMenuSub (item_id item),
        map row_child_decl (List.filter (fun c => negb (child_separator c) && negb (child_disabled c)) (submenu item)))
    end) row_menu.

Definition build_keytip_scopes (apps : list AppManifest) (row_menu : list RowMenuItem) :
    list (ScopeId * list KeyTipDecl) :=
  let '(root, insert) := foldl declare_command ([], []) SHELL_COMMANDS in
  ([ (Root, root);
     (Insert, with_claude insert ++ map app_decl (app_launcher_entries apps));
     (Settings, settings_decls);
     (RowMenu, map row_item_decl (List.filter (fun i => negb (item_separator i) && negb (item_disabled i)) row_menu));
     (SessionJump, []) ]
   ++ row_menu_children row_menu)%list.

Definition build_keytip_tree (cfg : KeymapConfig) (apps : list AppManifest) (row_menu : list RowMenuItem) :
    KeyTipTree :=
  build (build_keytip_scopes apps row_menu) cfg.

(** ** The registry *)

Lemma registry_found s : s ∈ SHELL_COMMANDS -> spec_for_id (spec_id s) = Some s.
Proof.
  intros H. apply list_elem_of_In in H.
  repeat (destruct H as [<-|H]; [by vm_compute|]). destruct H.
Qed.

Lemma spec_for_id_Some id s : spec_for_id id = Some s -> s ∈ SHELL_COMMANDS /\ spec_id s = id.
Proof. intros [Hs He%bool_decide_eq_true]%find_Some_spec. done. Qed.

Definition default_of (s : CommandSpec) : N := default 0 (default_keytip s).
Definition command_here (s : CommandSpec) : KeyTipDecl := command_decl s (default_of s).

Definition top_commands : list CommandSpec :=
  List.filter (fun s => is_Some_b (default_keytip s) && bool_decide (parent s = None)) SHELL_COMMANDS.

Lemma declared_commands :
  foldl declare_command ([], []) SHELL_COMMANDS =
    (map command_here top_commands, [command_here session_command; command_here terminal_command]).
Proof. vm_compute. reflexivity. Qed.

(** ** What the editor keeps *)

Definition plain_letter (l : N) : Prop := is_ascii_alphanumeric l = true /\ char_lower l = l.

(** What can be saved and read back. *)
Record savable (cfg : KeymapConfig) : Prop := {
  savable_letters : map_Forall (fun _ l => plain_letter l) (keytips cfg);
  savable_pins : map_Forall (fun _ n => n <= u32_max) (pinned cfg);
  savable_chords : map_Forall (fun _ c => is_pty_safe c = true /\ canonical_key (chord_key c)) (accelerators cfg) }.

Definition siblings_apart (k : Keymap) : Prop := forall a b l,
  a ∈ SHELL_COMMANDS -> b ∈ SHELL_COMMANDS -> parent a = parent b ->
  keytip_for_id k (spec_id a) = Some l -> keytip_for_id k (spec_id b) = Some l -> spec_id a = spec_id b.

Definition tops_unreserved (k : Keymap) : Prop := forall a l,
  a ∈ SHELL_COMMANDS -> parent a = None -> keytip_for_id k (spec_id a) = Some l -> reserved_letter l = false.

Definition overrides_apart (cfg : KeymapConfig) : Prop := forall i j c,
  accelerators cfg !! i = Some c -> accelerators cfg !! j = Some c -> i = j.

(** What holds of every state the editor reaches from the defaults. *)
Record edited (s : Editor) : Prop := {
  edited_savable : savable (keytip_config s);
  edited_view : keymap s = keytips (keytip_config s);
  edited_known : forall id l, keytips (keytip_config s) !! id = Some l -> is_Some (spec_for_id id);
  edited_apart : siblings_apart (keymap s);
  edited_unreserved : tops_unreserved (keymap s);
  edited_chords : overrides_apart (keytip_config s) }.

Lemma alphanumeric_plain l : is_ascii_alphanumeric (char_lower l) = true -> plain_letter (char_lower l).
Proof. split; [done|apply char_lower_idemp]. Qed.

Lemma foldl_insert {A B} (h : A -> B) (l : list (text * A)) (m : gmap text B) :
  NoDup (map fst l) ->
  foldl (fun m e => <[e.1 := h e.2]> m) m l = list_to_map (map (fun e => (e.1, h e.2)) l) ∪ m.
Proof.
  revert m. induction l as [|[i x] l IH]; intros m; cbn; [by rewrite map_empty_union|].
  intros [Hi Hnd]%NoDup_cons. rewrite IH by done.
  rewrite <- insert_union_l, insert_union_r; [done|].
  apply not_elem_of_list_to_map_1. change (map fst (map (fun e => (e.1, h e.2)) l)) with (fmap fst (map (fun e : text * A => (e.1, h e.2)) l)).
  intros Hin. apply Hi. apply list_elem_of_fmap in Hin as ([a b] & -> & Hin).
  apply list_elem_of_fmap in Hin as ([c d] & [= -> ->] & Hin). by apply (list_elem_of_fmap_2 fst _ (c, d)).
Qed.

Lemma NoDup_map_keys {A} (m : gmap text A) (l : list (text * A)) : l ≡ₚ map_to_list m -> NoDup (map fst l).
Proof. intros ->. apply NoDup_fst_map_to_list. Qed.

Lemma foldl_entries {A B} (h : A -> B) (m : gmap text A) (l : list (text * A)) (m0 : gmap text B) :
  l ≡ₚ map_to_list m -> foldl (fun m e => <[e.1 := h e.2]> m) m0 l = (h <$> m) ∪ m0.
Proof.
  intros Hl. rewrite foldl_insert by (by apply (NoDup_map_keys m)). f_equal. apply map_eq. intros i.
  rewrite lookup_fmap.
  assert (NoDup (map fst (map (fun e => (e.1, h e.2)) l))) as Hnd.
  { rewrite map_map. cbn. by apply (NoDup_map_keys m). }
  destruct (m !! i) as [x|] eqn:E; cbn.
  - apply elem_of_list_to_map_1; [exact Hnd|]. apply (list_elem_of_fmap_2 (fun e => (e.1, h e.2)) l (i, x)).
    rewrite Hl. by apply elem_of_map_to_list.
  - apply not_elem_of_list_to_map_1. intros Hin. apply list_elem_of_fmap in Hin as ([a b] & -> & Hin).
    apply list_elem_of_fmap in Hin as ([c d] & [= -> ->] & Hin).
    rewrite Hl in Hin. apply elem_of_map_to_list in Hin. cbn in E. congruence.
Qed.

(** The letters the editor shows are the overrides of the file, when all of them are of known
    commands. *)
Lemma keymap_is_the_overrides cfg :
  map_Forall (fun _ l => plain_letter l) (keytips cfg) ->
  (forall id l, keytips cfg !! id = Some l -> is_Some (spec_for_id id)) ->
  keymap_from_keytip_config cfg = keytips cfg.
Proof.
  intros Hp Hk. unfold keymap_from_keytip_config, from_overrides.
  assert (forall l m, (forall e, e ∈ l -> keytips cfg !! e.1 = Some e.2) ->
    foldl keep_override m l = foldl (fun m e => <[e.1 := id e.2]> m) m l) as ->.
  { induction l as [|[i x] l IH]; intros m H; [done|]. cbn [foldl].
    pose proof (H (i, x) ltac:(by left)) as Hi. cbn in Hi. destruct (Hk _ _ Hi) as [s Hs].
    destruct (Hp _ _ Hi) as [Ha Hl]. unfold keep_override at 2. cbn [fst snd]. rewrite Hs, Hl, Ha. cbn [is_Some_b andb].
    apply IH. intros e ?. apply H. by right. }
  - rewrite (foldl_entries id (keytips cfg)) by done. by rewrite map_union_empty, map_fmap_id.
  - intros [i x] Hi. by apply elem_of_map_to_list.
Qed.

Lemma keytip_for_id_insert k id l id' :
  keytip_for_id (<[id := l]> k) id' = if decide (id' = id) then Some l else keytip_for_id k id'.
Proof.
  unfold keytip_for_id. case_decide as H; [subst; by rewrite lookup_insert_eq|]. by rewrite lookup_insert_ne.
Qed.

Lemma keytip_for_id_delete k id id' sp l :
  spec_for_id id = Some sp -> default_keytip sp = Some l ->
  keytip_for_id (delete id k) id' = if decide (id' = id) then Some l else keytip_for_id k id'.
Proof.
  intros Hs Hd. unfold keytip_for_id. case_decide as H; [subst; by rewrite lookup_delete_eq, Hs|].
  by rewrite lookup_delete_ne.
Qed.

(** A letter nobody beside the command has keeps the siblings apart. *)
Lemma siblings_apart_set k k' id sp l :
  spec_for_id id = Some sp ->
  (forall id', keytip_for_id k' id' = if decide (id' = id) then Some l else keytip_for_id k id') ->
  (forall other, other ∈ SHELL_COMMANDS -> spec_id other <> id -> parent other = parent sp ->
    keytip_for_id k (spec_id other) <> Some l) ->
  siblings_apart k -> siblings_apart k'.
Proof.
  intros Hs Hk Hfree Hap a b x Ha Hb Hp. rewrite !Hk.
  assert (forall c, c ∈ SHELL_COMMANDS -> spec_id c = id -> parent c = parent sp) as Hpar.
  { intros c Hc He. pose proof (registry_found c Hc) as Hf. rewrite He in Hf. congruence. }
  destruct (decide (spec_id a = id)) as [Hai|Hai], (decide (spec_id b = id)) as [Hbi|Hbi]; intros H1 H2.
  - congruence.
  - injection H1 as <-. destruct (Hfree b Hb Hbi); [by rewrite <- Hp, Hpar|done].
  - injection H2 as <-. destruct (Hfree a Ha Hai); [by rewrite Hp, Hpar|done].
  - by eapply Hap.
Qed.

Lemma default_savable : savable default_keymap.
Proof. split; apply map_Forall_empty. Qed.

Lemma edited_initial : edited initial_editor.
Proof.
  split; cbn; try (done || apply default_savable).
  - intros a b l Ha Hb Hp H1 H2.
    assert (forallb (fun a => forallb (fun b =>
      negb (bool_decide (parent a = parent b)) || bool_decide (spec_id a = spec_id b) ||
      negb (bool_decide (keytip_for_id ∅ (spec_id a) = keytip_for_id ∅ (spec_id b))) ||
      bool_decide (keytip_for_id ∅ (spec_id a) = None)) SHELL_COMMANDS) SHELL_COMMANDS = true) as Hall
      by (vm_compute; reflexivity).
    rewrite forallb_forall in Hall. specialize (Hall a (proj1 (list_elem_of_In _ _) Ha)).
    rewrite forallb_forall in Hall. specialize (Hall b (proj1 (list_elem_of_In _ _) Hb)).
    rewrite H1, H2, !(bool_decide_eq_true_2 _ eq_refl), (bool_decide_eq_true_2 _ Hp) in Hall.
    rewrite (bool_decide_eq_false_2 (Some l = None)) in Hall by done. cbn [negb orb] in Hall.
    rewrite !orb_false_r in Hall. by apply bool_decide_eq_true in Hall.
  - intros a l Ha Hp H1.
    assert (forallb (fun a => negb (bool_decide (parent a = None)) ||
      match keytip_for_id ∅ (spec_id a) with Some l => negb (reserved_letter l) | None => true end)
      SHELL_COMMANDS = true) as Hall by (vm_compute; reflexivity).
    rewrite forallb_forall in Hall. specialize (Hall a (proj1 (list_elem_of_In _ _) Ha)).
    rewrite H1, (bool_decide_eq_true_2 _ Hp) in Hall. by apply negb_true_iff in Hall.
Qed.

Lemma savable_insert cfg id l : savable cfg -> plain_letter (char_lower l) -> savable (set_keytip id l cfg).
Proof. intros [H1 H2 H3] H. split; cbn; [by apply map_Forall_insert_2|done..]. Qed.

Lemma savable_clear cfg id : savable cfg -> savable (clear_keytip id cfg).
Proof. intros [H1 H2 H3]. split; cbn; [by apply map_Forall_delete|done..]. Qed.

Lemma savable_set_accel cfg id c spec :
  savable cfg -> is_pty_safe c = true -> chord_parse spec = Some c -> savable (set_accel id c cfg).
Proof.
  intros [H1 H2 H3] ? ?%chord_parse_canonical. split; cbn; [done|done|by apply map_Forall_insert_2].
Qed.

Lemma savable_clear_accel cfg id : savable cfg -> savable (clear_accel id cfg).
Proof. intros [H1 H2 H3]. split; cbn; [done|done|by apply map_Forall_delete]. Qed.

(** An accelerator of the file is among the effective ones. *)
Lemma override_effective cfg id c : accelerators cfg !! id = Some c -> (id, c) ∈ effective_accelerators cfg.
Proof.
  intros H. apply elem_of_app. left. unfold entries. apply elem_of_stable_sort. by apply elem_of_map_to_list.
Qed.

Lemma edited_letter s id raw : edited s -> edited (set_keymap_override id raw s).
Proof.
  intros [Hsv Hvw Hkn Hap Hun Hch]. unfold set_keymap_override. destruct (spec_for_id id) as [sp|] eqn:Es; [|done].
  destruct (spec_for_id_Some _ _ Es) as [Hin Hid].
  set (l := char_lower raw). destruct (is_ascii_alphanumeric l) eqn:Ea; [cbn [negb]|done].
  destruct (bool_decide (parent sp = None) && reserved_letter l) eqn:Er; [done|].
  destruct (existsb _ SHELL_COMMANDS) eqn:Ec; [done|].
  set (cfg := if bool_decide (default_keytip sp = Some l) then clear_keytip id (keytip_config s)
              else set_keytip id l (clear_keytip id (keytip_config s))).
  assert (plain_letter l) as Hpl by (by apply alphanumeric_plain).
  assert (savable cfg) as Hsv'.
  { unfold cfg. destruct (bool_decide (default_keytip sp = Some l)) eqn:Hd; [by apply savable_clear|]. apply savable_insert; [by apply savable_clear|].
    unfold l. by rewrite char_lower_idemp. }
  assert (forall i x, keytips cfg !! i = Some x -> is_Some (spec_for_id i)) as Hkn'.
  { unfold cfg. intros i x. destruct (bool_decide (default_keytip sp = Some l)) eqn:Hd; cbn.
    - intros [_ Hi]%lookup_delete_Some. by eapply Hkn.
    - intros Hix. apply lookup_insert_Some in Hix as [[<- _]|[_ Hix]]; [by eexists|].
      apply lookup_delete_Some in Hix as [_ Hix]. by eapply Hkn. }
  assert (keymap_from_keytip_config cfg = keytips cfg) as Hview by (apply keymap_is_the_overrides; [apply Hsv'|done]).
  assert (forall id', keytip_for_id (keytips cfg) id' = if decide (id' = id) then Some l else keytip_for_id (keymap s) id') as Hk.
  { intros id'. rewrite Hvw. unfold cfg.
    destruct (bool_decide (default_keytip sp = Some l)) eqn:Hd; cbn; [apply bool_decide_eq_true in Hd; by eapply keytip_for_id_delete|].
    rewrite insert_delete_eq, keytip_for_id_insert. unfold l. by rewrite char_lower_idemp. }
  split; cbn; rewrite ?Hview; try done.
  - eapply siblings_apart_set; [exact Es|exact Hk| |done]. intros other Ho Hne Hp He.
    assert (existsb (fun other => negb (bool_decide (spec_id other = id)) && bool_decide (parent other = parent sp) &&
      bool_decide (keytip_for_id (keymap s) (spec_id other) = Some l)) SHELL_COMMANDS = true) as Hx; [|congruence].
    apply existsb_exists. exists other. split; [by apply list_elem_of_In|].
    rewrite (bool_decide_eq_false_2 _ Hne), !bool_decide_eq_true_2 by done. done.
  - intros a x Ha Hp. rewrite Hk. case_decide as Hd; [|by eapply Hun]. intros [= <-].
    pose proof (registry_found a Ha) as Hf. rewrite Hd, Es in Hf. injection Hf as <-.
    rewrite bool_decide_eq_true_2 in Er by done. exact Er.
  - unfold cfg. by destruct (bool_decide (default_keytip sp = Some l)) eqn:Hd.
Qed.

Lemma edited_accel s id raw : edited s -> edited (set_accel_override id raw s).
Proof.
  intros [Hsv Hvw Hkn Hap Hun Hch]. unfold set_accel_override. case_decide.
  { split; cbn; try done; [by apply savable_clear_accel|].
    intros i j c Hi Hj. cbn in Hi, Hj. apply lookup_delete_Some in Hi as [_ ?], Hj as [_ ?]. by eapply Hch. }
  destruct (chord_parse (trim_text raw)) as [c|] eqn:Ec; [|done].
  destruct (is_pty_safe c) eqn:Ep; [cbn [negb]|done].
  destruct (List.find _ (effective_accelerators (keytip_config s))) as [[o oc]|] eqn:Ef; [done|].
  split; cbn; try done; [by eapply savable_set_accel|].
  assert (forall i, i <> id -> accelerators (keytip_config s) !! i <> Some c) as Hfree.
  { intros i Hi He. apply override_effective in He. apply (find_None_spec _ _ _ Ef) in He. cbn in He.
    by rewrite bool_decide_eq_false_2, bool_decide_eq_true_2 in He. }
  intros i j x Hi Hj. cbn in Hi, Hj.
  apply lookup_insert_Some in Hi as [[<- <-]|[Hi1 Hi]]; apply lookup_insert_Some in Hj as [[Hj0 Hj]|[Hj1 Hj]];
    subst; try done; [by destruct (Hfree j)|by destruct (Hfree i)|by eapply Hch].
Qed.

Lemma edited_all edits s : edited s -> edited (foldl edit s edits).
Proof.
  revert s. induction edits as [|e edits IH]; intros s Hs; cbn; [done|]. apply IH. destruct e; cbn.
  - by apply edited_letter.
  - by apply edited_accel.
  - destruct edited_initial. by split.
Qed.

(** The keymap editor keeps its promises.  Whatever letters and chords are asked of it, in
    whatever order, starting from the shipped keymap: the letters it shows are the ones the
    configuration holds; two commands of one level never have the same letter; no top-level
    command has a letter kept for applications; every accelerator it stored is one the terminal
    cannot use; and no two stored accelerators are the same chord. *)
Theorem editor_keeps_its_promises edits :
  let s := foldl edit initial_editor edits in
  keymap s = keytips (keytip_config s) /\
  siblings_apart (keymap s) /\ tops_unreserved (keymap s) /\
  map_Forall (fun _ c => is_pty_safe c = true) (accelerators (keytip_config s)) /\
  overrides_apart (keytip_config s).
Proof.
  intros s. destruct (edited_all edits initial_editor edited_initial) as [Hsv ? ? ? ? ?]. fold s in Hsv |- *.
  split_and!; try done. intros i c H. by apply (savable_chords _ Hsv) in H as [? _].
Qed.

(** Clearing an accelerator brings its shipped chord back without asking who has it now. *)
Example cleared_chord_is_taken :
  let s := foldl edit initial_editor
    [SetAccel (chars "insert.terminal") (chars "Ctrl+Shift+X");
     SetAccel (chars "sidebar.toggle") (chars "Ctrl+Shift+T");
     SetAccel (chars "insert.terminal") []] in
  keymap_editor_error s = None /\
  let bound id := bool_decide ((chars id, mkChord true false true false (chars "t")) ∈
    effective_accelerators (keytip_config s)) in
  bound "sidebar.toggle"%string = true /\ bound "insert.terminal"%string = true /\
  accel_command_for (mkChord true false true false (chars "t")) (keytip_config s) = Some (chars "sidebar.toggle").
Proof. vm_compute. done. Qed.

(** ** The keymap file reads back *)

Definition open_editor (doc : option Document) : Editor :=
  let cfg := parse_keytip_config doc in mkEditor cfg (keymap_from_keytip_config cfg) None.

Lemma fold_savable {E} (load : KeymapConfig -> E -> KeymapConfig) l cfg :
  (forall cfg e, savable cfg -> savable (load cfg e)) -> savable cfg -> savable (foldl load cfg l).
Proof. intros H. revert cfg. induction l as [|e l IH]; intros cfg Hc; cbn; auto. Qed.

Lemma lower_alphanumeric l : is_ascii_alphanumeric l = true -> plain_letter (char_lower l).
Proof.
  intros H. apply alphanumeric_plain. unfold is_ascii_alphanumeric, char_lower, in_range in *.
  destruct ((65 <=? l) && (l <=? 90)) eqn:E; lia.
Qed.

Lemma parse_savable doc : savable (parse_keytip_config doc).
Proof.
  destruct doc as [doc|]; [|apply default_savable]. unfold parse_keytip_config.
  repeat apply fold_savable; try apply default_savable; intros cfg [id v] H; cbn.
  - unfold load_accel. cbn. destruct v as [s| |]; try done. destruct (chord_parse s) eqn:E; [|done].
    destruct (is_pty_safe c) eqn:Ep; [|done]. by eapply savable_set_accel.
  - unfold load_pin. cbn. destruct v as [|n|]; try done. destruct H as [H1 H2 H3].
    split; cbn; [done| |done]. apply map_Forall_insert_2; [|done].
    pose proof (N.mod_lt n (u32_max + 1)). unfold u32_max in *. lia.
  - unfold load_keytip. cbn. destruct v as [[|ch s]| |]; try done.
    destruct (is_ascii_alphanumeric ch) eqn:E; [|done]. by apply savable_insert, lower_alphanumeric.
Qed.

Lemma edit_savable s e : savable (keytip_config s) -> savable (keytip_config (edit s e)).
Proof.
  intros H. destruct e as [id raw|id raw|]; cbn; [| |apply default_savable].
  - unfold set_keymap_override. destruct (spec_for_id id) as [sp|]; [|done].
    destruct (is_ascii_alphanumeric (char_lower raw)) eqn:Ea; [|done]. cbn [negb].
    destruct (_ && _); [done|]. destruct (existsb _ _); [done|]. cbn.
    destruct (bool_decide (default_keytip sp = Some (char_lower raw))); [by apply savable_clear|].
    apply savable_insert; [by apply savable_clear|]. rewrite char_lower_idemp. by apply alphanumeric_plain.
  - unfold set_accel_override. case_decide; [by apply savable_clear_accel|].
    destruct (chord_parse (trim_text raw)) as [c|] eqn:Ec; [|done].
    destruct (is_pty_safe c) eqn:Ep; [|done]. cbn [negb].
    destruct (List.find _ _) as [[? ?]|]; [done|]. by eapply savable_set_accel.
Qed.

Lemma edits_savable edits s : savable (keytip_config s) -> savable (keytip_config (foldl edit s edits)).
Proof. revert s. induction edits as [|e edits IH]; intros s H; cbn; [done|]. by apply IH, edit_savable. Qed.

(** Loading the entries of a section one by one inserts their values. *)
Lemma load_keytips (cfg : KeymapConfig) (m : gmap text N) :
  map_Forall (fun _ l => plain_letter l) m ->
  foldl load_keytip cfg (entries ((fun l => JString [l]) <$> m)) = mkKeymap (m ∪ keytips cfg) (pinned cfg) (accelerators cfg).
Proof.
  intros Hm. set (h := fun v => match v with JString (ch :: _) => ch | _ => 0 end).
  assert (forall l cfg, (forall e, e ∈ l -> exists ch, e.2 = JString [ch] /\ plain_letter ch) ->
    foldl load_keytip cfg l =
      mkKeymap (foldl (fun m e => <[e.1 := h e.2]> m) (keytips cfg) l) (pinned cfg) (accelerators cfg)) as H.
  { induction l as [|[i v] l IH]; intros c Hl; [by destruct c|]. cbn [foldl].
    destruct (Hl (i, v) ltac:(by left)) as (ch & Hv & Ha & Hlow). cbn in Hv. subst v.
    rewrite IH by (intros e ?; apply Hl; by right). unfold load_keytip, set_keytip. cbn [fst snd h]. by rewrite Ha, Hlow. }
  rewrite H.
  - rewrite (foldl_entries h ((fun l => JString [l]) <$> m)) by apply stable_sort_perm.
    rewrite <- map_fmap_compose. f_equal. f_equal. rewrite <- (map_fmap_id m) at 2. by apply map_fmap_ext.
  - intros [i v] He. unfold entries in He. apply elem_of_stable_sort, elem_of_map_to_list, lookup_fmap_Some in He.
    destruct He as (x & <- & Hx). exists x. split; [done|by apply (Hm i)].
Qed.

Lemma load_pins (cfg : KeymapConfig) (m : gmap text N) :
  map_Forall (fun _ n => n <= u32_max) m ->
  foldl load_pin cfg (entries (JNumber <$> m)) = mkKeymap (keytips cfg) (m ∪ pinned cfg) (accelerators cfg).
Proof.
  intros Hm. set (h := fun v => match v with JNumber n => n | _ => 0 end).
  assert (forall l cfg, (forall e, e ∈ l -> exists n, e.2 = JNumber n /\ n <= u32_max) ->
    foldl load_pin cfg l =
      mkKeymap (keytips cfg) (foldl (fun m e => <[e.1 := h e.2]> m) (pinned cfg) l) (accelerators cfg)) as H.
  { induction l as [|[i v] l IH]; intros c Hl; [by destruct c|]. cbn [foldl].
    destruct (Hl (i, v) ltac:(by left)) as (n & Hv & Hn). cbn in Hv. subst v.
    rewrite IH by (intros e ?; apply Hl; by right). unfold load_pin, pin_number. cbn [fst snd h].
    by rewrite N.mod_small by lia. }
  rewrite H.
  - rewrite (foldl_entries h (JNumber <$> m)) by apply stable_sort_perm.
    rewrite <- map_fmap_compose. f_equal. f_equal. rewrite <- (map_fmap_id m) at 2. by apply map_fmap_ext.
  - intros [i v] He. unfold entries in He. apply elem_of_stable_sort, elem_of_map_to_list, lookup_fmap_Some in He.
    destruct He as (x & <- & Hx). exists x. split; [done|by apply (Hm i)].
Qed.

Lemma load_accels (cfg : KeymapConfig) (m : gmap text Chord) :
  map_Forall (fun _ c => is_pty_safe c = true /\ canonical_key (chord_key c)) m ->
  foldl load_accel cfg (entries ((fun c => JString (chord_display c)) <$> m)) =
    mkKeymap (keytips cfg) (pinned cfg) (m ∪ accelerators cfg).
Proof.
  intros Hm.
  set (h := fun v => match v with JString s => default (mkChord false false false false []) (chord_parse s)
                     | _ => mkChord false false false false [] end).
  assert (forall l cfg, (forall e, e ∈ l -> exists s c, e.2 = JString s /\ chord_parse s = Some c /\ is_pty_safe c = true) ->
    foldl load_accel cfg l =
      mkKeymap (keytips cfg) (pinned cfg) (foldl (fun m e => <[e.1 := h e.2]> m) (accelerators cfg) l)) as H.
  { induction l as [|[i v] l IH]; intros c Hl; [by destruct c|]. cbn [foldl].
    destruct (Hl (i, v) ltac:(by left)) as (s & ch & Hv & Hp & Hs). cbn in Hv. subst v.
    rewrite IH by (intros e ?; apply Hl; by right). unfold load_accel, set_accel. cbn [fst snd h]. by rewrite Hp, Hs. }
  rewrite H.
  - rewrite (foldl_entries h ((fun c => JString (chord_display c)) <$> m)) by apply stable_sort_perm.
    rewrite <- map_fmap_compose. f_equal. f_equal. rewrite <- (map_fmap_id m) at 2. apply map_fmap_ext.
    intros i c Hi. cbn. by rewrite parse_display_canonical by (by apply (Hm i c)).
  - intros [i v] He. unfold entries in He. apply elem_of_stable_sort, elem_of_map_to_list, lookup_fmap_Some in He.
    destruct He as (x & <- & Hx). destruct (Hm i x Hx) as [? ?]. exists (chord_display x), x.
    split; [done|]. split; [by apply parse_display_canonical|done].
Qed.

Lemma save_sections cfg :
  section (save_keytip_config cfg) "keytips" = entries ((fun l => JString [l]) <$> keytips cfg) /\
  section (save_keytip_config cfg) "bindings" = [] /\
  section (save_keytip_config cfg) "pinned" = entries (JNumber <$> pinned cfg) /\
  section (save_keytip_config cfg) "accelerators" = entries ((fun c => JString (chord_display c)) <$> accelerators cfg).
Proof.
  unfold section, save_keytip_config.
  split_and!; repeat first [rewrite lookup_insert_eq|rewrite lookup_insert_ne by (vm_compute; discriminate)]; done.
Qed.

(** The keymap survives the file.  Whatever file the editor was opened on, readable or not, and
    whatever was edited since: reading back what is saved gives the configuration that was
    saved, its letters, its pinned numbers and its accelerators. *)
Theorem keymap_survives_the_file doc edits :
  let cfg := keytip_config (foldl edit (open_editor doc) edits) in
  parse_keytip_config (Some (save_keytip_config cfg)) = cfg.
Proof.
  intros cfg. assert (savable cfg) as [Hl Hp Hc] by apply edits_savable, parse_savable.
  destruct (save_sections cfg) as (H1 & H2 & H3 & H4). unfold parse_keytip_config.
  rewrite H1, H2, H3, H4, app_nil_r, load_keytips, load_pins, load_accels by done. cbn.
  rewrite !map_union_empty. by destruct cfg.
Qed.

(** ** The chord that is shown is the chord that works *)

Lemma build_skip (l : list (ScopeId * list KeyTipDecl)) (cfg : KeymapConfig) (t : KeyTipTree) key :
  Forall (fun e => as_str e.1 <> key) l ->
  foldl (fun m '(scope, decls) => <[as_str scope := assign_scope scope decls cfg]> m) t l !! key = t !! key.
Proof.
  intros H. revert t. induction H as [|[s d] l Hs _ IH]; intros t; cbn in *; [done|].
  rewrite IH. by rewrite lookup_insert_ne.
Qed.

Lemma row_menu_children_named row_menu key :
  (exists rest, key = chars "root" ++ rest)%list \/ (exists rest, key = chars "insert" ++ rest)%list ->
  Forall (fun e => as_str e.1 <> key) (row_menu_children row_menu).
Proof.
  intros Hkey. apply Forall_forall. intros e He. unfold row_menu_children in He.
  apply list_elem_of_omap in He as (item & _ & He). destruct (submenu item); [done|]. injection He as <-.
  cbn. destruct Hkey as [[rest ->]|[rest ->]]; cbn; discriminate.
Qed.

Definition insert_decls (apps : list AppManifest) : list KeyTipDecl :=
  ([command_here session_command; claude_decl; command_here terminal_command]
   ++ map app_decl (app_launcher_entries apps))%list.

Lemma with_claude_placed :
  with_claude [command_here session_command; command_here terminal_command] =
    [command_here session_command; claude_decl; command_here terminal_command].
Proof. vm_compute. reflexivity. Qed.

Lemma tree_scopes cfg apps row_menu :
  build_keytip_tree cfg apps row_menu !! chars "root" = Some (assign_scope Root (map command_here top_commands) cfg) /\
  build_keytip_tree cfg apps row_menu !! chars "insert.menu" = Some (assign_scope Insert (insert_decls apps) cfg).
Proof.
  unfold build_keytip_tree, build, build_keytip_scopes. rewrite declared_commands, with_claude_placed.
  fold (insert_decls apps). rewrite foldl_app, !(build_skip (row_menu_children row_menu)).
  - cbn [foldl]. split.
    + rewrite !(lookup_insert_ne _ (as_str _) (chars "root")) by (vm_compute; discriminate). apply lookup_insert_eq.
    + do 3 rewrite lookup_insert_ne by (vm_compute; discriminate). apply lookup_insert_eq.
  - apply row_menu_children_named. right. by exists (chars ".menu").
  - apply row_menu_children_named. left. by exists [].
Qed.

Lemma registry_lower s l : s ∈ SHELL_COMMANDS -> default_keytip s = Some l -> char_lower l = l.
Proof.
  intros Hs Hl.
  assert (forallb (fun s => match default_keytip s with Some l => char_lower l =? l | None => true end) SHELL_COMMANDS = true)
    as Hall by (vm_compute; reflexivity).
  rewrite forallb_forall in Hall. specialize (Hall s (proj1 (list_elem_of_In _ _) Hs)). rewrite Hl in Hall. lia.
Qed.

(** The letter a command's declaration asks for is the one the editor shows. *)
Lemma command_desires s sp :
  edited s -> sp ∈ SHELL_COMMANDS -> is_Some (default_keytip sp) ->
  exists l, keytip_for_id (keymap s) (spec_id sp) = Some l /\ desired (keytip_config s) (command_here sp) = Some l /\
    char_lower l = l.
Proof.
  intros He Hsp [d Hd]. unfold keytip_for_id, desired, keytip_override. rewrite (edited_view _ He), (registry_found _ Hsp), Hd.
  unfold command_here, default_of, command_decl, decl_shell. rewrite Hd. cbn [decl_key hint default from_option id].
  destruct (keytips (keytip_config s) !! spec_id sp) as [l|] eqn:E; cbn.
  - destruct (savable_letters _ (edited_savable _ He) _ _ E) as [_ Hl]. exists l. by rewrite Hl.
  - exists d. by rewrite (registry_lower sp d).
Qed.

Lemma all_shell_indexed (ds : list KeyTipDecl) :
  Forall (fun d => is_shell d = true) ds -> List.filter from_shell (indexed ds) = indexed ds.
Proof.
  intros H. apply forallb_filter_id, forallb_forall. intros [i d] Hin%list_elem_of_In.
  apply elem_of_lookup_imap_1 in Hin as (j & x & [= -> ->] & Hx). rewrite Forall_forall in H.
  by eapply H, list_elem_of_lookup_2.
Qed.

Lemma no_shell_left (l : list Claimant) : Forall (fun c => from_shell c = false) l -> List.filter from_shell l = [].
Proof. induction 1 as [|c l Hc _ IH]; cbn; [done|]. by rewrite Hc. Qed.

Lemma top_elem sp : sp ∈ top_commands <-> sp ∈ SHELL_COMMANDS /\ is_Some (default_keytip sp) /\ parent sp = None.
Proof.
  unfold top_commands. rewrite list_elem_of_In, filter_In, <- list_elem_of_In, andb_true_iff, bool_decide_eq_true.
  assert (is_Some_b (default_keytip sp) = true <-> is_Some (default_keytip sp)) as ->; [|done].
  destruct (default_keytip sp); cbn; split; done.
Qed.

(** Every top-level command is on its letter. *)
Lemma top_commands_placed s sp l :
  edited s -> sp ∈ top_commands -> keytip_for_id (keymap s) (spec_id sp) = Some l ->
  leaf (command_here sp) [l] ∈ assign_scope Root (map command_here top_commands) (keytip_config s).
Proof.
  intros He Hsp Hl. set (f := fun sp => default 0 (keytip_for_id (keymap s) (spec_id sp))).
  assert (NoDup (map f top_commands)) as Hnd.
  { apply (NoDup_fmap_2_strong f).
    - intros a b (Ha & Ha' & Hpa)%top_elem (Hb & Hb' & Hpb)%top_elem Hf.
      destruct (command_desires s a He Ha Ha') as (la & Hla & _), (command_desires s b He Hb Hb') as (lb & Hlb & _).
      unfold f in Hf. rewrite Hla, Hlb in Hf. cbn in Hf. subst lb.
      pose proof (edited_apart _ He a b la Ha Hb ltac:(congruence) Hla Hlb) as Hid.
      pose proof (registry_found a Ha). pose proof (registry_found b Hb). congruence.
    - apply (NoDup_fmap_1 spec_id). apply (bool_decide_unpack (NoDup (map spec_id top_commands))). vm_compute. exact I. }
  assert (List.filter from_shell (indexed (map command_here top_commands)) = indexed (map command_here top_commands)) as Hall.
  { apply all_shell_indexed, Forall_map, Forall_forall. done. }
  apply list_elem_of_lookup in Hsp as [i Hi].
  apply (shells_get_their_letters Root _ (keytip_config s) (map f top_commands)) with (i := i) (j := i); [| |exact Hnd| |].
  - by apply roomy_small, Nat.leb_le.
  - rewrite Hall. apply Forall2_same_length_lookup_2; [unfold indexed; by rewrite length_imap, !length_map|].
    intros j c w. unfold indexed. rewrite list_lookup_imap, !lookup_map. destruct (top_commands !! j) as [a|] eqn:Ha; [|done].
    cbn [fmap option_fmap option_map]. intros [= <-] [= <-].
    assert (a ∈ top_commands) as Hat by (by eapply list_elem_of_lookup_2).
    apply top_elem in Hat as (Ha1 & Ha2 & Ha3). destruct (command_desires s a He Ha1 Ha2) as (la & Hla & Hda & _).
    unfold f. rewrite Hla. split; [exact Hda|]. split; [|intros _; by eapply (edited_unreserved _ He)].
    intros Hp. apply overflow_prefixes_not_wanted in Hp. apply Hp, (proj2 (list_elem_of_omap _ _ _)).
    exists (command_here a). split; [|exact Hda]. apply list_elem_of_fmap_2. by eapply list_elem_of_lookup_2.
  - rewrite Hall. unfold indexed. by rewrite list_lookup_imap, lookup_map, Hi.
  - rewrite lookup_map, Hi. cbn. unfold f. by rewrite Hl.
Qed.

(** The two commands of the New menu, while neither has the letter of the entry between them. *)
Lemma insert_commands_placed s apps a b :
  edited s -> roomy Insert (insert_decls apps) (keytip_config s) = true ->
  keytip_for_id (keymap s) (spec_id session_command) = Some a ->
  keytip_for_id (keymap s) (spec_id terminal_command) = Some b ->
  a <> 99 -> b <> 99 ->
  leaf (command_here session_command) [a] ∈ assign_scope Insert (insert_decls apps) (keytip_config s) /\
  leaf (command_here terminal_command) [b] ∈ assign_scope Insert (insert_decls apps) (keytip_config s).
Proof.
  intros He Hroom Ha Hb Ha9 Hb9.
  assert (session_command ∈ SHELL_COMMANDS) as Hs by (by apply (spec_for_id_Some (chars "insert.session"))).
  assert (terminal_command ∈ SHELL_COMMANDS) as Ht by (by apply (spec_for_id_Some (chars "insert.terminal"))).
  destruct (command_desires s session_command He Hs) as (a' & Ha' & Hda & _); [by eexists|].
  destruct (command_desires s terminal_command He Ht) as (b' & Hb' & Hdb & _); [by eexists|].
  rewrite Ha in Ha'. injection Ha' as <-. rewrite Hb in Hb'. injection Hb' as <-.
  assert (a <> b) as Hab.
  { intros <-. pose proof (edited_apart _ He session_command terminal_command a Hs Ht eq_refl Ha Hb) as Hid.
    vm_compute in Hid. discriminate. }
  assert (desired (keytip_config s) claude_decl = Some 99) as Hdc.
  { unfold desired, keytip_override. destruct (keytips (keytip_config s) !! decl_key claude_decl) as [x|] eqn:E; [|done].
    destruct (edited_known _ He _ _ E) as [sp Hsp]. vm_compute in Hsp. discriminate. }
  assert (List.filter from_shell (indexed (insert_decls apps)) =
    [(0%nat, command_here session_command); (1%nat, claude_decl); (2%nat, command_here terminal_command)]) as Hsh.
  { unfold insert_decls, indexed. rewrite imap_app, List.filter_app. cbn [imap List.filter from_shell snd is_shell].
    cbn. do 3 f_equal. apply no_shell_left. apply Forall_forall.
    intros c (i & x & -> & Hx)%elem_of_lookup_imap_1. rewrite lookup_map in Hx.
    apply fmap_Some in Hx as ([app verb] & _ & ->). done. }
  assert (forall d l, d ∈ insert_decls apps -> desired (keytip_config s) d = Some l ->
    l ∉ overflow_prefixes (insert_decls apps) (keytip_config s)) as Hpre.
  { intros d l Hd Hdl Hp. apply overflow_prefixes_not_wanted in Hp. apply Hp, list_elem_of_omap. by exists d. }
  assert (Forall2 (wishes Insert (insert_decls apps) (keytip_config s))
    (List.filter from_shell (indexed (insert_decls apps))) [a; 99; b]) as Hw.
  { rewrite Hsh. repeat constructor; cbn [snd]; try done; eapply Hpre; eauto; unfold insert_decls; set_solver. }
  assert (NoDup [a; 99; b]) as Hnd by (repeat constructor; set_solver).
  split.
  - by apply (shells_get_their_letters _ _ _ _ Hroom Hw Hnd 0 0); [rewrite Hsh|].
  - by apply (shells_get_their_letters _ _ _ _ Hroom Hw Hnd 2 2); [rewrite Hsh|].
Qed.

Lemma wd_parts apps row_menu cfg :
  well_declared (build_keytip_scopes apps row_menu) cfg = true ->
  coded_tree (build_keytip_tree cfg apps row_menu) /\ roomy Insert (insert_decls apps) cfg = true.
Proof.
  intros H. split; [by apply build_coded|].
  unfold well_declared, build_keytip_scopes in H. rewrite declared_commands, with_claude_placed in H.
  fold (insert_decls apps) in H. cbn [forallb app] in H. rewrite !andb_true_iff in H. by destruct H as (_ & (_ & ?) & _).
Qed.

(** What pressing a command's last letter is. *)
Definition opens (sp : CommandSpec) : ChordResolution :=
  match descends_into sp with
  | Some scope => DescendTo (spec_id sp) (as_str (keytip_scope_from_id scope))
  | None => RunKey (spec_id sp)
  end.

Lemma lands_opens scope sp tip : lands scope (leaf (command_here sp) tip) = opens sp.
Proof. unfold opens, leaf, command_here, command_decl, decl_shell. cbn. by destruct (descends_into sp). Qed.

(** Opening the New menu by its letter. *)
Lemma scope_at_insert t ns p sp :
  coded_tree t -> t !! chars "root" = Some ns -> leaf (command_here sp) [p] ∈ ns -> char_lower p = p ->
  descends_into sp = Some (chars "insert.menu") -> scope_at t [p] = Some (chars "insert.menu").
Proof.
  intros Ht Hns Hn Hp Hd. destruct (coded_scopes _ Ht _ _ Hns) as (ps & Hnd & Hsh & _).
  pose proof (match_tip_node ps ns _ [] Hnd Hsh Hn) as Hm.
  unfold scope_at. cbn [text_lower map length scope_walk]. rewrite Hp. change (as_str Root) with (chars "root").
  rewrite Hns. cbn [node_tip leaf app length] in Hm. rewrite Hm. unfold command_here, command_decl, decl_shell.
  cbn [decl_target leaf]. rewrite Hd. reflexivity.
Qed.

Lemma registry_parents sp :
  sp ∈ SHELL_COMMANDS -> parent sp = None \/
  (parent sp = Some (chars "insert.menu") /\ (sp = session_command \/ sp = terminal_command)).
Proof.
  intros H. apply list_elem_of_In in H.
  repeat (destruct H as [<-|H]; [first [by left|right; split; [reflexivity|by auto]]|]). destruct H.
Qed.

Lemma both_letters s : edited s -> exists a b,
  keytip_for_id (keymap s) (spec_id session_command) = Some a /\
  keytip_for_id (keymap s) (spec_id terminal_command) = Some b.
Proof.
  intros He.
  destruct (command_desires s session_command He) as (a & Ha & _);
    [by apply (spec_for_id_Some (chars "insert.session"))|by eexists|].
  destruct (command_desires s terminal_command He) as (b & Hb & _);
    [by apply (spec_for_id_Some (chars "insert.terminal"))|by eexists|].
  by exists a, b.
Qed.

(** The chord that is shown is the chord that works.  Whatever was edited, whichever
    applications are installed and whatever row menu is open, as long as every scope has room: the
    chord the editor shows for a command that ships with a letter resolves, in the tree the badges are painted from, to
    that command or to the container it opens.  For the two commands of the New menu this needs
    that neither was given the letter [c]. *)
Theorem shown_chord_works edits apps row_menu id sp chord :
  let s := foldl edit initial_editor edits in
  well_declared (build_keytip_scopes apps row_menu) (keytip_config s) = true ->
  spec_for_id id = Some sp -> is_Some (default_keytip sp) ->
  chord_for_id (keymap s) id = Some chord ->
  (parent sp = None \/
   (keytip_for_id (keymap s) (chars "insert.session") <> Some 99 /\
    keytip_for_id (keymap s) (chars "insert.terminal") <> Some 99)) ->
  resolve (build_keytip_tree (keytip_config s) apps row_menu) chord = opens sp.
Proof.
  intros s Hwd Hsp Hdef Hchord Hapart. pose proof (edited_all edits _ edited_initial) as He. fold s in He.
  destruct (wd_parts _ _ _ Hwd) as [Ht Hroom]. destruct (tree_scopes (keytip_config s) apps row_menu) as [Hroot Hins].
  set (t := build_keytip_tree (keytip_config s) apps row_menu) in *.
  destruct (spec_for_id_Some _ _ Hsp) as [Hin Hid].
  unfold chord_for_id in Hchord. cbn [chord_with_fuel] in Hchord. rewrite Hsp in Hchord.
  destruct (registry_parents sp Hin) as [Hpar|[Hpar Hwhich]]; rewrite Hpar in Hchord.
  - destruct (keytip_for_id (keymap s) id) as [l|] eqn:El; [|done]. injection Hchord as <-. rewrite <- Hid in El.
    destruct (command_desires s sp He Hin Hdef) as (l' & Hl' & _ & Hlow). rewrite El in Hl'. injection Hl' as <-.
    rewrite <- (lands_opens (chars "root") sp [l]).
    apply (resolve_tip t [] (chars "root") _ _ [l] Ht eq_refl Hroot); [|by cbn; rewrite Hlow].
    apply top_commands_placed; [done|by apply top_elem|done].
  - destruct Hapart as [?|[Hs9 Ht9]]; [congruence|].
    destruct (spec_for_id (chars "insert.menu")) as [menu|] eqn:Em; [|by vm_compute in Em].
    assert (parent menu = None /\ descends_into menu = Some (chars "insert.menu") /\ is_Some (default_keytip menu))
      as (Hmp & Hmd & Hmk) by (vm_compute in Em; injection Em as <-; split_and!; [done..|by eexists]).
    destruct (spec_for_id_Some _ _ Em) as [Hmin Hmid]. rewrite Hmp in Hchord.
    destruct (command_desires s menu He Hmin Hmk) as (p & Hp & _ & Hplow). rewrite Hmid in Hp. rewrite Hp in Hchord.
    destruct (keytip_for_id (keymap s) id) as [l|] eqn:El; [|done]. injection Hchord as <-. rewrite <- Hid in El.
    assert (leaf (command_here sp) [l] ∈ assign_scope Insert (insert_decls apps) (keytip_config s)) as Hleaf.
    { destruct (both_letters s He) as (a & b & Ha & Hb).
      destruct (insert_commands_placed s apps a b He Hroom Ha Hb) as [H1 H2]; [intros ->; exact (Hs9 Ha)|intros ->; exact (Ht9 Hb)|].
      destruct Hwhich as [->| ->]; [rewrite Ha in El|rewrite Hb in El]; by injection El as <-. }
    assert (char_lower l = l) as Hlow.
    { destruct (command_desires s sp He Hin Hdef) as (l' & Hl' & _ & Hlow).
      rewrite El in Hl'. by injection Hl' as <-. }
    rewrite <- (lands_opens (chars "insert.menu") sp [l]).
    refine (resolve_tip t [p] (chars "insert.menu") (assign_scope Insert (insert_decls apps) (keytip_config s))
      (leaf (command_here sp) [l]) [l] Ht _ Hins Hleaf _); [|by cbn; rewrite Hlow].
    eapply scope_at_insert; [exact Ht|exact Hroot| |exact Hplow|exact Hmd].
    apply top_commands_placed; [done|by apply top_elem|by rewrite Hmid].
Qed.

Theorem shown_chord_works_witness :
  let s := foldl edit initial_editor [SetLetter (chars "insert.terminal") 120; SetLetter (chars "insert.menu") 122] in
  chord_for_id (keymap s) (chars "insert.terminal") = Some (chars "zx") /\
  resolve (build_keytip_tree (keytip_config s) [] []) (chars "zx") = RunKey (chars "insert.terminal").
Proof.
  intros s. split; [by vm_compute|].
  apply (shown_chord_works [SetLetter (chars "insert.terminal") 120; SetLetter (chars "insert.menu") 122] [] []
    (chars "insert.terminal") terminal_command (chars "zx")); [by vm_compute|by vm_compute|by eexists|by vm_compute|].
  right. split; vm_compute; discriminate.
Defined.

(** The entry between them is in no registry, so the editor does not see its letter: given to a
    command of the same menu, the letter is shown for the command and starts the other. *)
Example shown_chord_starts_another :
  let s := set_keymap_override (chars "insert.terminal") 99 initial_editor in
  keymap_editor_error s = None /\ chord_for_id (keymap s) (chars "insert.terminal") = Some (chars "ic") /\
  resolve (build_keytip_tree (keytip_config s) [] []) (chars "ic") = RunKey (chars "insert.claude") /\
  resolve (build_keytip_tree (keytip_config s) [] []) (chars "it") = Invalid.
Proof. by vm_compute. Qed.
