(* ===== verification/Modals.v ===== *)
(** * Modals: which dialog owns the keys, and what a key does to it

    src/crates/yggterm-shell/src/shell/state.rs, [TopModal] and its tables, [top_modal_of],
    [strip_dropdown_over_viewport], [modal_key_dispatch] and the closers it calls, and
    src/crates/yggterm-shell/src/shell/right_rail.rs for the floating menus.  The state is the
    flag or the pending request behind every dialog; the requests themselves, and what answering
    one sends, are not part of it. *)
From S2P Require Import Prelude RustStr RustChar.
#[local] Open Scope N_scope.

Inductive TopModal :=
| KeymapEditor | ThemeEditor | LaunchFlags | CliInstall | AppPaneModal | MediaCapture | Fido2 | Delete
| CopyEdit | CommandPalette | ClassicTabsSwitch | StripDropdown.

#[export] Instance TopModal_eq_dec : EqDecision TopModal.
Proof. solve_decision. Defined.

Inductive ModalKeyboardMode := Command | Form.

Definition keyboard_mode (m : TopModal) : ModalKeyboardMode :=
  match m with
  | ThemeEditor | CopyEdit | LaunchFlags | CommandPalette | CliInstall | AppPaneModal => Form
  | KeymapEditor | MediaCapture | Fido2 | Delete | ClassicTabsSwitch | StripDropdown => Command
  end.

Definition kind (m : TopModal) : text :=
  chars match m with
        | KeymapEditor => "keymap-editor"
        | ThemeEditor => "theme-editor"
        | LaunchFlags => "launch-flags"
        | CliInstall => "cli-install"
        | AppPaneModal => "app-pane-modal"
        | MediaCapture => "media-capture"
        | Fido2 => "fido2"
        | Delete => "delete"
        | CopyEdit => "copy-edit"
        | ClassicTabsSwitch => "classic-tabs-switch"
        | CommandPalette => "command-palette"
        | StripDropdown => "strip-dropdown"
        end.

Inductive WebSurfaceChromeAnchor := Rail | Strip.

#[export] Instance WebSurfaceChromeAnchor_eq_dec : EqDecision WebSurfaceChromeAnchor.
Proof. solve_decision. Defined.

Definition anchored_on_strip (anchor : option WebSurfaceChromeAnchor) : bool :=
  bool_decide (anchor = Some Strip).

Definition strip_dropdown_over_viewport (tab_overflow_open : bool)
    (switcher_anchor tab_menu_anchor : option WebSurfaceChromeAnchor) : bool :=
  tab_overflow_open || anchored_on_strip switcher_anchor || anchored_on_strip tab_menu_anchor.

(** What [ShellState] holds for each of them. *)
Record OpenModals := mkModals {
  keymap_editor_open : bool; theme_editor_open : bool; launch_flags_open : bool; cli_install_open : bool;
  app_pane_modal : bool; pending_media_capture : bool; pending_fido2 : bool; pending_delete : bool;
  copy_edit_dialog : bool; pending_classic_tabs_switch : bool; web_command_palette_open : bool;
  web_tab_overflow_open : bool; web_profile_switcher : option WebSurfaceChromeAnchor;
  web_tab_context_menu : option WebSurfaceChromeAnchor }.

Definition no_modals : OpenModals :=
  mkModals false false false false false false false false false false false false None None.

Definition top_modal_of (keymap_editor theme_editor launch_flags cli_install app_pane_modal media_capture
    fido2 delete copy_edit classic_tabs_switch command_palette strip_dropdown : bool) : option TopModal :=
  if keymap_editor then Some KeymapEditor
  else if theme_editor then Some ThemeEditor
  else if launch_flags then Some LaunchFlags
  else if cli_install then Some CliInstall
  else if app_pane_modal then Some AppPaneModal
  else if media_capture then Some MediaCapture
  else if fido2 then Some Fido2
  else if delete then Some Delete
  else if copy_edit then Some CopyEdit
  else if classic_tabs_switch then Some ClassicTabsSwitch
  else if command_palette then Some CommandPalette
  else if strip_dropdown then Some StripDropdown
  else None.

Definition strip_open (o : OpenModals) : bool :=
  strip_dropdown_over_viewport (web_tab_overflow_open o) (web_profile_switcher o) (web_tab_context_menu o).

Definition top_modal (o : OpenModals) : option TopModal :=
  top_modal_of (keymap_editor_open o) (theme_editor_open o) (launch_flags_open o) (cli_install_open o)
    (app_pane_modal o) (pending_media_capture o) (pending_fido2 o) (pending_delete o) (copy_edit_dialog o)
    (pending_classic_tabs_switch o) (web_command_palette_open o) (strip_open o).

(** [close_strip_anchored_dropdowns]: a dropdown on the rail stays. *)
Definition off_strip (anchor : option WebSurfaceChromeAnchor) : option WebSurfaceChromeAnchor :=
  if anchored_on_strip anchor then None else anchor.

(** The closer of each dialog. *)
Definition close_modal (m : TopModal) (o : OpenModals) : OpenModals :=
  let '(mkModals a b c d e f g h i j k l p q) := o in
  match m with
  | KeymapEditor => mkModals false b c d e f g h i j k l p q
  | ThemeEditor => mkModals a false c d e f g h i j k l p q
  | LaunchFlags => mkModals a b false d e f g h i j k l p q
  | CliInstall => mkModals a b c false e f g h i j k l p q
  | AppPaneModal => mkModals a b c d false f g h i j k l p q
  | MediaCapture => mkModals a b c d e false g h i j k l p q
  | Fido2 => mkModals a b c d e f false h i j k l p q
  | Delete => mkModals a b c d e f g false i j k l p q
  | CopyEdit => mkModals a b c d e f g h false j k l p q
  | ClassicTabsSwitch => mkModals a b c d e f g h i false k l p q
  | CommandPalette => mkModals a b c d e f g h i j false l p q
  | StripDropdown => mkModals a b c d e f g h i j k false (off_strip p) (off_strip q)
  end.

(** Enter is taken and does nothing in a dialog without a primary button, and in the two dialogs a
    page can raise to ask for hardware. *)
Definition accepts (m : TopModal) : bool :=
  match m with Delete | CopyEdit | ClassicTabsSwitch => true | _ => false end.

Inductive ModalAnswer := Dismissed (m : TopModal) | Accepted (m : TopModal) | Swallowed (m : TopModal).

(** [modal_key_dispatch]: the answer, and the dialogs left; [None] when the key is not taken. *)
Definition modal_key_dispatch (key : text) (o : OpenModals) : option (ModalAnswer * OpenModals) :=
  match top_modal o with
  | None => None
  | Some top =>
      let dismiss := bool_decide (key = chars "Escape") || bool_decide (key = chars "Backspace") in
      if dismiss then Some (Dismissed top, close_modal top o)
      else if bool_decide (key = chars "Enter") then
        if accepts top then Some (Accepted top, close_modal top o) else Some (Swallowed top, o)
      else None
  end.

(** ** The floating menus *)

Inductive ShellMenu := WebProfile | WebTab | Row | AppPane.

Definition top_menu_of (web_profile web_tab row app_pane : bool) : option ShellMenu :=
  if web_profile then Some WebProfile
  else if web_tab then Some WebTab
  else if row then Some Row
  else if app_pane then Some AppPane
  else None.

(** ** The stack *)

(** The dialogs from the top of the stack down. *)
Definition STACK : list TopModal :=
  [ KeymapEditor; ThemeEditor; LaunchFlags; CliInstall; AppPaneModal; MediaCapture; Fido2; Delete;
    CopyEdit; ClassicTabsSwitch; CommandPalette; StripDropdown ].

Definition is_open (o : OpenModals) (m : TopModal) : bool :=
  match m with
  | KeymapEditor => keymap_editor_open o
  | ThemeEditor => theme_editor_open o
  | LaunchFlags => launch_flags_open o
  | CliInstall => cli_install_open o
  | AppPaneModal => app_pane_modal o
  | MediaCapture => pending_media_capture o
  | Fido2 => pending_fido2 o
  | Delete => pending_delete o
  | CopyEdit => copy_edit_dialog o
  | ClassicTabsSwitch => pending_classic_tabs_switch o
  | CommandPalette => web_command_palette_open o
  | StripDropdown => strip_open o
  end.

(** What is on the screen, topmost first. *)
Definition open_modals (o : OpenModals) : list TopModal := List.filter (is_open o) STACK.

Lemma top_modal_head o : top_modal o = head (open_modals o).
Proof.
  unfold top_modal, top_modal_of, open_modals, STACK. cbn [List.filter is_open].
  repeat (case_match; [done|]). done.
Qed.

Lemma top_modal_open o m : top_modal o = Some m -> is_open o m = true.
Proof.
  rewrite top_modal_head. intros H. apply head_Some_elem_of in H.
  by apply list_elem_of_In, filter_In in H as [_ H].
Qed.

Lemma off_strip_off a : anchored_on_strip (off_strip a) = false.
Proof. by destruct a as [[]|]. Qed.

Lemma close_modal_open m o m' : is_open (close_modal m o) m' = is_open o m' && negb (bool_decide (m' = m)).
Proof.
  destruct o as [a b c d e f g h i j k l p q]; destruct m, m'; cbn; rewrite ?andb_false_r, ?andb_true_r; try done.
  unfold strip_open, strip_dropdown_over_viewport. cbn. by rewrite !off_strip_off.
Qed.

Lemma NoDup_STACK : NoDup STACK.
Proof. by apply (bool_decide_unpack _); vm_compute. Qed.

Lemma STACK_full m : m ∈ STACK.
Proof. destruct m; by apply (bool_decide_unpack _); vm_compute. Qed.

(** Closing the topmost takes exactly it off the stack. *)
Lemma close_top o m : top_modal o = Some m -> open_modals (close_modal m o) = tail (open_modals o).
Proof.
  rewrite top_modal_head. unfold open_modals. intros Hm.
  assert (List.filter (is_open (close_modal m o)) STACK
          = List.filter (fun m' => negb (bool_decide (m' = m))) (List.filter (is_open o) STACK)) as ->.
  { generalize STACK. induction l as [|x l IH]; [done|]. cbn [List.filter]. rewrite close_modal_open.
    destruct (is_open o x); cbn [andb List.filter]; [|done]. by case_match; [f_equal|]. }
  pose proof NoDup_STACK as Hnd.
  assert (NoDup (List.filter (is_open o) STACK)) as Hnd'.
  { clear Hm. induction Hnd as [|x l Hx Hl IH]; cbn; [constructor|]. case_match; [|done]. constructor; [|done].
    intros Hin%list_elem_of_In. apply filter_In in Hin as [Hin _]. by apply Hx, list_elem_of_In. }
  destruct (List.filter (is_open o) STACK) as [|x l]; [done|]. injection Hm as ->.
  apply NoDup_cons in Hnd' as [Hm Hl]. cbn. rewrite bool_decide_eq_true_2 by done. cbn.
  clear Hl. induction l as [|y l IH]; [done|]. cbn. rewrite bool_decide_eq_false_2 by set_solver. cbn.
  f_equal. apply IH. set_solver.
Qed.

Lemma kind_inj : Inj (=) (=) kind.
Proof. intros [] [] H; first [done | by vm_compute in H]. Qed.

(** Pressing a key over and over. *)
Fixpoint press (n : nat) (key : text) (o : OpenModals) : list ModalAnswer * OpenModals :=
  match n with
  | O => ([], o)
  | S n' =>
      match modal_key_dispatch key o with
      | None => ([], o)
      | Some (a, o') => let '(rest, last) := press n' key o' in (a :: rest, last)
      end
  end.

(** Escape takes the dialogs down one at a time, in the order they are stacked.  Whatever is
    open, each press answers the topmost dialog and removes exactly it; after as many presses as
    dialogs are open none is left and the key is no longer taken.  Enter removes the topmost only
    if it has a primary button, so no number of Enters grants a page its camera or its passkey. *)
Theorem escape_peels o n :
  let '(answers, o') := press n (chars "Escape") o in
  answers = map Dismissed (take n (open_modals o)) /\
  open_modals o' = drop n (open_modals o) /\
  ((length (open_modals o) <= n)%nat -> modal_key_dispatch (chars "Escape") o' = None) /\
  forall k m, m = MediaCapture \/ m = Fido2 ->
    let '(answers, o') := press k (chars "Enter") o in
    (Accepted m ∉ answers) /\ (is_open o m = true -> is_open o' m = true).
Proof.
  assert (forall n o, let '(answers, o') := press n (chars "Escape") o in
    answers = map Dismissed (take n (open_modals o)) /\ open_modals o' = drop n (open_modals o)) as H.
  { clear. induction n as [|n IH]; intros o; [done|]. cbn [press].
    unfold modal_key_dispatch. destruct (top_modal o) as [m|] eqn:E; cbn [orb].
    - rewrite bool_decide_eq_true_2 by done. cbn [orb]. specialize (IH (close_modal m o)).
      destruct (press n _ _) as [answers o']. destruct IH as [-> ->]. rewrite (close_top o m E).
      rewrite top_modal_head in E. destruct (open_modals o) as [|x l]; [done|]. by injection E as ->.
    - rewrite top_modal_head in E. by destruct (open_modals o). }
  specialize (H n o). destruct (press n _ o) as [answers o']. destruct H as [-> Ho]. split_and!; [done|done|..].
  - intros Hn. unfold modal_key_dispatch. rewrite top_modal_head, Ho, drop_ge by done. done.
  - clear Ho. intros k m Hm. revert o. induction k as [|k IH]; intros o; [split; [set_solver|done]|].
    cbn [press]. unfold modal_key_dispatch. destruct (top_modal o) as [top|]; [|split; [set_solver|done]].
    rewrite !bool_decide_eq_false_2, bool_decide_eq_true_2 by (done || by vm_compute). cbn [orb].
    destruct (accepts top) eqn:Ea.
    + specialize (IH (close_modal top o)). destruct (press k _ _) as [rest last]. destruct IH as [Hr Hl].
      assert (m <> top) as Hne by (intros ->; destruct Hm as [->| ->]; done). split.
      * intros [[= <-]|?]%elem_of_cons; done.
      * intros Ho. apply Hl. rewrite close_modal_open, Ho. by rewrite bool_decide_eq_false_2.
    + specialize (IH o). destruct (press k _ _) as [rest last]. destruct IH as [Hr Hl]. split; [|done].
      by intros [?|?]%elem_of_cons.
Qed.

(** The declaration of [TopModal], which says it lists the dialogs topmost first, puts the palette
    above the tab switch; the precedence is the other way round. *)
Example declared_order_is_not_the_precedence :
  top_modal (mkModals false false false false false false false false false true true false None None)
  = Some ClassicTabsSwitch.
Proof. reflexivity. Qed.
