(* ===== verification/AltOverlay.v ===== *)
(** * The ALT overlay: the machine that turns keys into actions

    src/crates/yggterm-shell/src/shell/state.rs: [activate_alt_overlay], [clear_alt_overlay],
    [descend_alt_overlay_into_modal], [feed_alt_overlay_char], [feed_alt_derived_char],
    [follow_chord_into_modal], [dispatch_keytip_open], [dispatch_keytip_node],
    [execute_shell_command], [apply_derived_keytips], the walk of the live list
    ([begin_session_jump], [navigate_session_jump]) and [keytip_apply_bridge_message], which a
    message of the key bridge enters by.

    The overlay's own fields and the open dialogs are the state.  The rest of the shell is a type
    [W] behind the class [Shell]: what the overlay reads of it, and what an action does to it.  An
    action may also open or close dialogs.  A list of rows is shorter than 2^31, so the [i32]
    arithmetic of the walk is exact. *)
From S2P Require Import Prelude RustStr RustChar KeyChord Keytip KeytipTree ShellCommands Modals.
From Stdlib Require Import ZifyBool ZifyN.
#[local] Open Scope N_scope.

(** What the overlay asks the rest of the shell to do. *)
Inductive Effect :=
| RunCommand (c : ShellCommand)
| RowMenuAction (id : text)
| StartClaude
| SetTheme (dark : bool)
| LaunchAppVerb (app verb : text)
| OpenNewMenu
| OpenSettingsPanel
| OpenRowMenuHere
| TurnRowMenuPage (opener : option text)
| CloseMenus
| CloseTitlebarMenus
| ClickDerived (id : text)
| AnswerModal (a : ModalAnswer)
| SelectRow (path : text)
| OpenRow (path : text)
| DismissTopMenu
| OpenWebFind
| PageChord (id : text)
| PageMenu (id : text).

(** The rest of the shell. *)
Class Shell (W : Type) := {
  in_force : W -> KeymapConfig;
  apps_here : W -> list AppManifest;
  row_menu : W -> list RowMenuItem;
  live_paths : W -> list text;
  active_path : W -> option text;
  menu_page_turned : W -> bool;
  menu_row_stands : W -> bool;
  anchor_takes_a_session : W -> bool;
  verb_here : W -> text -> text -> bool;
  row_of : W -> text -> bool;
  perform : Effect -> OpenModals * W -> OpenModals * W }.

Record Overlay := mkOverlay {
  alt_overlay_active : bool; alt_overlay_sequence : text; alt_jump_path : option text;
  alt_derived_tips : gmap text text; alt_derived_sequence : text; alt_overlay_modal_scope : option text }.

Definition closed : Overlay := mkOverlay false [] None ∅ [] None.

(** [keytip_tree] of the snapshot, and [keymap], which every edit keeps equal to what the
    configuration says. *)
Definition keytip_tree `{Shell W} (s : W) : KeyTipTree := build_keytip_tree (in_force s) (apps_here s) (row_menu s).
Definition keymap_here `{Shell W} (s : W) : Keymap := keymap_from_keytip_config (in_force s).

Section Walk.
Context {W : Type} `{Shell W}.

Record Gui := mkGui { overlay : Overlay; modals : OpenModals; rest : W }.

Implicit Types (g : Gui).

Definition with_overlay (f : Overlay -> Overlay) g : Gui := mkGui (f (overlay g)) (modals g) (rest g).

Definition act (e : Effect) g : Gui :=
  let '(m, s) := perform e (modals g, rest g) in mkGui (overlay g) m s.

Definition clear_alt_overlay g : Gui := with_overlay (fun _ => closed) g.

Definition activate_alt_overlay g : Gui :=
  act CloseTitlebarMenus
    (with_overlay (fun o => mkOverlay true [] (alt_jump_path o) ∅ [] (kind <$> top_modal (modals g))) g).

Definition descend_alt_overlay_into_modal (k : text) g : Gui :=
  with_overlay (fun _ => mkOverlay true [] None ∅ [] (Some k)) g.

(** [alt_overlay_active = true; alt_overlay_sequence = sequence]. *)
Definition park (sequence : text) g : Gui :=
  with_overlay (fun o => mkOverlay true sequence (alt_jump_path o) (alt_derived_tips o)
    (alt_derived_sequence o) (alt_overlay_modal_scope o)) g.

Definition jump_to (path : option text) g : Gui :=
  with_overlay (fun o => mkOverlay (alt_overlay_active o) (alt_overlay_sequence o) path (alt_derived_tips o)
    (alt_derived_sequence o) (alt_overlay_modal_scope o)) g.

(** ** Jump mode *)

Definition highlight (path : text) g : Gui := act (SelectRow path) (jump_to (Some path) g).

Definition begin_session_jump g : Gui :=
  match live_paths (rest g) with
  | [] => jump_to None g
  | first :: _ =>
      match active_path (rest g) with
      | Some path => highlight (if bool_decide (path ∈ live_paths (rest g)) then path else first) g
      | None => highlight first g
      end
  end.

(** The row [delta] below the highlighted one, around the ends. *)
Definition next_index (count : Z) (current : option nat) (delta : Z) (to_edge : bool) : Z :=
  (if to_edge then if delta <? 0 then 0 else count - 1
   else match current with
        | Some index => Z.rem (Z.rem (Z.of_nat index + delta) count + count) count
        | None => if delta <? 0 then count - 1 else 0
        end)%Z.

Definition position (paths : list text) (path : text) : option nat :=
  fst <$> list_find (eq path) paths.

Definition navigate_session_jump (delta : Z) (to_edge : bool) g : Gui :=
  let paths := live_paths (rest g) in
  match paths with
  | [] => g
  | _ :: _ =>
      let current := alt_jump_path (overlay g) ≫= position paths in
      match paths !! Z.to_nat (next_index (Z.of_nat (length paths)) current delta to_edge) with
      | Some target => highlight target g
      | None => g
      end
  end.

(** ** Dispatch *)

Definition chord_of (id : string) g : text := default [] (chord_for_id (keymap_here (rest g)) (chars id)).

Definition execute_shell_command (c : ShellCommand) g : Gui :=
  match c with
  | OpenInsertMenu => act OpenNewMenu (park (chord_of "insert.menu" g) g)
  | OpenRowMenu => act OpenRowMenuHere (park (chord_of "session.menu" g) g)
  | JumpSession => begin_session_jump (park (chord_of "session.jump" g) g)
  | c => act (RunCommand c) (clear_alt_overlay g)
  end.

(** [trim_start_matches(p)]. *)
Fixpoint trim_prefixes (fuel : nat) (p t : text) : text :=
  match fuel with
  | O => t
  | S fuel' => match strip_text_prefix p t with Some t' => trim_prefixes fuel' p t' | None => t end
  end.

Definition ROWMENU : text := chars "rowmenu:".
Definition APPVERB : text := chars "appverb:".

(** A container's side effect. *)
Definition dispatch_keytip_open (key : text) g : Gui :=
  if bool_decide (key = chars "insert.menu") then act OpenNewMenu g
  else if bool_decide (key = chars "settings.toggle") then act OpenSettingsPanel g
  else if bool_decide (key = chars "session.menu") then act OpenRowMenuHere g
  else if bool_decide (key = chars "session.jump") then begin_session_jump g
  else if text_starts_with key ROWMENU
       then act (TurnRowMenuPage (Some (trim_prefixes (length key) ROWMENU key))) g
  else g.

(** [rest.split_once(':')]. *)
Fixpoint split_once (c : N) (t : text) : option (text * text) :=
  match t with
  | [] => None
  | x :: t' => if x =? c then Some ([], t') else prod_map (cons x) id <$> split_once c t'
  end.

Definition dispatch_keytip_node (key : text) g : Gui :=
  match spec_for_id key with
  | Some sp => execute_shell_command (command sp) g
  | None =>
      match strip_text_prefix ROWMENU key with
      | Some id =>
          let g := clear_alt_overlay g in
          if menu_row_stands (rest g) then act (RowMenuAction id) g else g
      | None =>
          if bool_decide (key = chars "insert.claude") then
            if anchor_takes_a_session (rest g) then act StartClaude (clear_alt_overlay g) else g
          else if bool_decide (key = chars "theme.light") then act (SetTheme false) (clear_alt_overlay g)
          else if bool_decide (key = chars "theme.dark") then act (SetTheme true) (clear_alt_overlay g)
          else match strip_text_prefix APPVERB key ≫= split_once 58 with
               | Some (app, verb) =>
                   if verb_here (rest g) app verb then act (LaunchAppVerb app verb) (clear_alt_overlay g)
                   else clear_alt_overlay g
               | None => clear_alt_overlay g
               end
      end
  end.

(** ** The walk *)

Definition follow_chord_into_modal g : Gui :=
  if alt_overlay_active (overlay g) then g
  else match top_modal (modals g) with
       | Some m => descend_alt_overlay_into_modal (kind m) g
       | None => g
       end.

Definition feed_alt_derived_char (ch : N) g : Gui :=
  let o := overlay g in
  let next := (alt_derived_sequence o ++ [char_lower ch])%list in
  match resolve_derived (alt_derived_tips o) next with
  | WaitKey => with_overlay (fun o => mkOverlay (alt_overlay_active o) (alt_overlay_sequence o)
      (alt_jump_path o) (alt_derived_tips o) next (alt_overlay_modal_scope o)) g
  | Hit id => act (ClickDerived id) (clear_alt_overlay g)
  | Miss => clear_alt_overlay g
  end.

Definition feed_alt_overlay_char (ch : N) g : Gui :=
  let o := overlay g in
  if negb (alt_overlay_active o) then g
  else if is_Some_b (alt_overlay_modal_scope o) || negb (bool_decide (alt_derived_sequence o = []))
       then feed_alt_derived_char ch g
  else
    let next := (alt_overlay_sequence o ++ [char_lower ch])%list in
    match resolve (keytip_tree (rest g)) next with
    | Pending => park next g
    | DescendTo key _ =>
        park next (if bool_decide (key = []) then g else dispatch_keytip_open key g)
    | RunKey key => follow_chord_into_modal (dispatch_keytip_node key g)
    | Invalid => feed_alt_derived_char ch g
    end.

(** ** The derived layer *)

(** [scope.strip_prefix("modal:")]. *)
Definition modal_kind (scope : text) : option text := strip_text_prefix (chars "modal:") scope.

Definition apply_derived_keytips (scope : text) (elements : list (text * text)) g : Gui :=
  let o := overlay g in
  let walked := modal_kind scope in
  if negb (alt_overlay_active o) then g
  else if is_Some_b (alt_overlay_modal_scope o) && negb (is_Some_b walked) then clear_alt_overlay g
  else
    let g := if is_Some_b walked && negb (bool_decide (alt_overlay_modal_scope o = walked))
             then with_overlay (fun o => mkOverlay (alt_overlay_active o) [] None (alt_derived_tips o) [] walked) g
             else g in
    let o := overlay g in
    let claimed := if is_Some_b (alt_overlay_modal_scope o) then Some []
                   else tips_at (keytip_tree (rest g)) (alt_overlay_sequence o) in
    match claimed with
    | None => g
    | Some claimed =>
        with_overlay (fun o => mkOverlay (alt_overlay_active o) (alt_overlay_sequence o) (alt_jump_path o)
          (derived_map (derive_keytips_for_elements claimed elements)) [] (alt_overlay_modal_scope o)) g
    end.

(** The stamp of the walk: [d] and digits. *)
Definition stamped (id : text) : bool :=
  match id with
  | d :: number => (d =? 100) && negb (bool_decide (number = [])) && forallb is_ascii_digit number
  | [] => false
  end.

(** An entry of the report without an identifier, or with one of another shape, is left out. *)
Definition reported (entry : option text * option text) : option (text * text) :=
  match entry.1 with
  | Some id => if stamped id then Some (id, default [] entry.2) else None
  | None => None
  end.

(** ** The bridge *)

Inductive Message :=
| Tap
| Accel (chord : Chord)
| ClaimedChord (id : text)
| PageMenuChosen (id : option text)
| ModalKey (key : text)
| MenuKey (key : text)
| FollowModal (k : text)
| Derive (scope : option text) (elements : list (option text * option text))
| Key (key : text).

(** Arrow and page keys of the walk: the step, and whether it goes to the edge. *)
Definition walk_step (key : text) : option (Z * bool) :=
  if bool_decide (key = chars "ArrowUp") || bool_decide (key = chars "PageUp") then Some (-1, false)%Z
  else if bool_decide (key = chars "ArrowDown") || bool_decide (key = chars "PageDown") then Some (1, false)%Z
  else if bool_decide (key = chars "Home") then Some (-1, true)%Z
  else if bool_decide (key = chars "End") then Some (1, true)%Z
  else None.

Definition dialog_key (key : text) : bool :=
  bool_decide (key = chars "Escape") || bool_decide (key = chars "Enter") || bool_decide (key = chars "Backspace").

Definition answer_modal_key (key : text) g : Gui :=
  match modal_key_dispatch key (modals g) with
  | Some (answer, m) => act (AnswerModal answer) (mkGui (overlay g) m (rest g))
  | None => g
  end.

Definition step_back g : Gui :=
  let o := overlay g in
  let popped := removelast (alt_overlay_sequence o) in
  let g := with_overlay (fun o => mkOverlay (alt_overlay_active o) popped (alt_jump_path o)
    (alt_derived_tips o) (alt_derived_sequence o) (alt_overlay_modal_scope o)) g in
  if bool_decide (popped = []) then jump_to None (act CloseMenus g)
  else if menu_page_turned (rest g) then act (TurnRowMenuPage None) g
  else g.

Definition walk_key (key : text) g : Gui :=
  let o := overlay g in
  if is_Some_b (alt_overlay_modal_scope o) && dialog_key key then
    let g := answer_modal_key key g in
    if is_Some_b (top_modal (modals g)) then g else clear_alt_overlay g
  else if bool_decide (key = chars "Escape") then act CloseMenus (clear_alt_overlay g)
  else if bool_decide (key = chars "Backspace") then step_back g
  else match alt_jump_path o with
       | Some path =>
           if bool_decide (key = chars "Enter") then
             let g := clear_alt_overlay g in
             if row_of (rest g) path then act (OpenRow path) g else g
           else match walk_step key with
                | Some (delta, to_edge) => navigate_session_jump delta to_edge g
                | None => match key with [ch] => feed_alt_overlay_char ch g | _ => g end
                end
       | None => match key with [ch] => feed_alt_overlay_char ch g | _ => g end
       end.

(** The chords of the page layer; they are dispatched before the commands. *)
Definition PAGE_CHORDS : list text :=
  map chars ["web.find"; "web.reload"; "web.reload.hard"; "web.tab.new"; "web.address"; "web.tab.close";
             "web.devtools"; "web.url.copy"]%string.

Definition keytip_apply_bridge_message (m : Message) g : Gui :=
  match m with
  | Tap => if alt_overlay_active (overlay g) then clear_alt_overlay g else activate_alt_overlay g
  | Accel chord =>
      match accel_command_for chord (in_force (rest g)) with
      | Some id => dispatch_keytip_node id (clear_alt_overlay g)
      | None => g
      end
  | ClaimedChord id =>
      if bool_decide (id = chars "web.find") then act OpenWebFind g
      else if bool_decide (id ∈ PAGE_CHORDS) then act (PageChord id) g
      else dispatch_keytip_node id (clear_alt_overlay g)
  | PageMenuChosen id => match id with Some id => act (PageMenu id) g | None => g end
  | ModalKey key => answer_modal_key key g
  | MenuKey key => if bool_decide (key = chars "Escape") then act DismissTopMenu g else g
  | FollowModal k =>
      if alt_overlay_active (overlay g) then g
      else if bool_decide (kind <$> top_modal (modals g) = Some k) then descend_alt_overlay_into_modal k g
      else g
  | Derive scope elements =>
      apply_derived_keytips (default (chars "root") scope) (omap reported elements) g
  | Key key => walk_key key g
  end.

(** The other doors to the overlay: the window losing focus, a click on the shell, and two control
    verbs, one that opens or closes it and one that shows the start page. *)
Inductive Event :=
| Bridge (m : Message)
| WindowBlurred
| ShellClicked
| SetKeytipsOverlay (open : bool)
| ShowStartPage.

Definition on_event (e : Event) g : Gui :=
  match e with
  | Bridge m => keytip_apply_bridge_message m g
  | WindowBlurred => if alt_overlay_active (overlay g) then clear_alt_overlay g else g
  | SetKeytipsOverlay open => if open then activate_alt_overlay g else clear_alt_overlay g
  | ShellClicked | ShowStartPage => clear_alt_overlay g
  end.

(** A history: between two events the dialogs and the rest of the shell may have become anything. *)
Definition after (g : Gui) (e : OpenModals * W * Event) : Gui :=
  on_event e.2 (mkGui (overlay g) e.1.1 e.1.2).

Definition start (m : OpenModals) (w : W) : Gui := mkGui closed m w.

(** Typing a badge. *)
Definition type_keys (badge : text) g : Gui := foldl (fun g ch => feed_alt_overlay_char ch g) g badge.

End Walk.

(** ** The invariant *)

Record overlay_ok (o : Overlay) : Prop := {
  ok_closed : alt_overlay_active o = false -> o = closed;
  ok_isolated : is_Some (alt_overlay_modal_scope o) -> alt_overlay_sequence o = [];
  ok_lower : text_lower (alt_derived_sequence o) = alt_derived_sequence o;
  ok_waiting : alt_derived_sequence o <> [] -> exists tip id,
    alt_derived_tips o !! tip = Some id /\ alt_derived_sequence o `prefix_of` tip /\ tip <> alt_derived_sequence o;
  ok_stamped : forall tip id, alt_derived_tips o !! tip = Some id -> stamped id = true }.

Lemma closed_ok : overlay_ok closed.
Proof. by split. Qed.

(** A fresh layer: nothing derived yet. *)
Lemma fresh_ok jump scope : overlay_ok (mkOverlay true [] jump ∅ [] scope).
Proof. by split. Qed.

Lemma char_lower_idem c : char_lower (char_lower c) = char_lower c.
Proof. unfold char_lower, in_range. repeat case_match; lia. Qed.

Section Facts.
Context {W : Type} `{Shell W}.
Implicit Types (g : Gui (W := W)).

Lemma overlay_act e g : overlay (act e g) = overlay g.
Proof. unfold act. by destruct (perform _ _). Qed.

Abbreviation sound g := (overlay_ok (overlay g)).

Lemma sound_act e g : sound g -> sound (act e g).
Proof. by rewrite overlay_act. Qed.

Lemma sound_clear g : sound (clear_alt_overlay g).
Proof. apply closed_ok. Qed.

(** What changes the sequence or the highlighted row, and nothing the layer waits for. *)
Lemma sound_park sequence g : sound g -> alt_overlay_modal_scope (overlay g) = None -> sound (park sequence g).
Proof. intros [? ? ? ? ?] Hm. split; cbn; try done. rewrite Hm. by intros [? ?]. Qed.

Lemma sound_jump path g :
  sound g -> alt_overlay_active (overlay g) = true \/ path = None -> sound (jump_to path g).
Proof.
  intros [Hc ? ? ? ?] Hp. split; cbn; try done. intros Ha. destruct Hp as [Hp| ->]; [by rewrite Ha in Hp|].
  by rewrite (Hc Ha).
Qed.

Lemma sound_highlight path g : sound g -> alt_overlay_active (overlay g) = true -> sound (highlight path g).
Proof. intros. apply sound_act, sound_jump; [done|by left]. Qed.

Lemma sound_begin g : sound g -> alt_overlay_active (overlay g) = true -> sound (begin_session_jump g).
Proof.
  intros. unfold begin_session_jump. repeat case_match; auto using sound_highlight.
  apply sound_jump; [done|by right].
Qed.

Lemma sound_command c g :
  sound g -> alt_overlay_modal_scope (overlay g) = None -> sound (execute_shell_command c g).
Proof.
  intros. destruct c; cbn [execute_shell_command]; try (apply sound_act; first [apply sound_clear|by apply sound_park]).
  apply sound_begin; [by apply sound_park|done].
Qed.

Lemma sound_node key g :
  sound g -> alt_overlay_modal_scope (overlay g) = None -> sound (dispatch_keytip_node key g).
Proof.
  intros. unfold dispatch_keytip_node. destruct (spec_for_id key); [by apply sound_command|].
  repeat case_match; auto using sound_act, sound_clear.
Qed.

Lemma sound_open key g : sound g -> alt_overlay_active (overlay g) = true -> sound (dispatch_keytip_open key g).
Proof. intros. unfold dispatch_keytip_open. repeat case_match; auto using sound_act, sound_begin. Qed.

(** Opening a container leaves the layer where it is. *)
Lemma open_overlay key g :
  alt_overlay_active (overlay (dispatch_keytip_open key g)) = alt_overlay_active (overlay g) /\
  alt_overlay_modal_scope (overlay (dispatch_keytip_open key g)) = alt_overlay_modal_scope (overlay g).
Proof.
  unfold dispatch_keytip_open, begin_session_jump, highlight.
  repeat case_match; rewrite ?overlay_act; done.
Qed.

Lemma sound_descend k g : sound (descend_alt_overlay_into_modal k g).
Proof. apply fresh_ok. Qed.

Lemma sound_follow g : sound g -> sound (follow_chord_into_modal g).
Proof. intros. unfold follow_chord_into_modal. repeat case_match; auto using sound_descend. Qed.

Lemma sound_derived ch g :
  sound g -> alt_overlay_active (overlay g) = true -> sound (feed_alt_derived_char ch g).
Proof.
  intros [Hc Hi Hl Hw Hs] Ha. unfold feed_alt_derived_char.
  destruct (resolve_derived _ _) as [|id|] eqn:E; [|apply sound_act, sound_clear|apply sound_clear].
  assert (text_lower (alt_derived_sequence (overlay g) ++ [char_lower ch])
          = alt_derived_sequence (overlay g) ++ [char_lower ch])%list as Hlow
    by (rewrite text_lower_app, Hl; cbn; by rewrite char_lower_idem).
  split; cbn; try done; [by rewrite Ha|]. intros _. unfold resolve_derived in E.
  case_decide; [done|]. rewrite Hlow in E.
  destruct (alt_derived_tips (overlay g) !! _) eqn:El in E; [done|]. case_match; [|done].
  match goal with Hx : existsb _ _ = true |- _ => apply existsb_exists in Hx as ([tip id] & Hin & Hp) end.
  apply list_elem_of_In, elem_of_map_to_list in Hin. exists tip, id. split; [done|].
  unfold text_starts_with in Hp. apply bool_decide_eq_true in Hp. cbn in Hp. split.
  - exists (drop (length (alt_derived_sequence (overlay g) ++ [char_lower ch])) tip).
    by rewrite <- Hp at 1; rewrite take_drop.
  - intros ->. unfold text in *. congruence.
Qed.

Lemma sound_feed ch g : sound g -> sound (feed_alt_overlay_char ch g).
Proof.
  intros Hok. unfold feed_alt_overlay_char.
  destruct (alt_overlay_active (overlay g)) eqn:Ha; [|done]. cbn [negb].
  destruct (alt_overlay_modal_scope (overlay g)) eqn:Em; [by apply sound_derived|]. cbn [is_Some_b orb].
  case_match; [by apply sound_derived|]. destruct (resolve _ _) as [|key|key scope|].
  - by apply sound_park.
  - by apply sound_follow, sound_node.
  - destruct (bool_decide (key = [])); [by apply sound_park|]. apply sound_park; [by apply sound_open|].
    by rewrite (proj2 (open_overlay key g)).
  - by apply sound_derived.
Qed.

Lemma reported_stamped elements : Forall (fun e : text * text => stamped e.1 = true) (omap reported elements).
Proof.
  apply Forall_forall. intros [id label] (e & _ & He)%list_elem_of_omap. unfold reported in He.
  repeat case_match; try done. by injection He as <- _.
Qed.

Lemma sound_report scope elements g :
  sound g -> Forall (fun e : text * text => stamped e.1 = true) elements ->
  sound (apply_derived_keytips scope elements g).
Proof.
  intros Hok Hel. unfold apply_derived_keytips.
  destruct (alt_overlay_active (overlay g)) eqn:Ha; [|done]. cbn [negb].
  case_match; [apply sound_clear|]. set (g1 := if _ && _ then _ else g).
  assert (sound g1 /\ alt_overlay_active (overlay g1) = true) as [H1 Ha1].
  { unfold g1. case_match; [|done]. split; [|done]. destruct Hok. split; cbn; try done. by rewrite Ha. }
  clearbody g1. destruct (if is_Some_b _ then _ else _); [|exact H1]. destruct H1 as [Hc Hi _ _ _].
  split; cbn; try done; [by rewrite Ha1|].
  intros tip id Hid%derived_map_ids. apply list_elem_of_fmap in Hid as ([id' tip'] & -> & Hin).
  apply derived_elements in Hin. apply list_elem_of_fmap in Hin as (e & -> & He).
  rewrite Forall_forall in Hel. exact (Hel e He).
Qed.

Lemma sound_answer key g : sound g -> sound (answer_modal_key key g).
Proof. intros. unfold answer_modal_key. repeat case_match; [by apply sound_act|done]. Qed.

Lemma sound_back g : sound g -> sound (step_back g).
Proof.
  intros [Hc Hi Hl Hw Hs]. unfold step_back. set (g1 := with_overlay _ g).
  assert (sound g1) as H1.
  { split; cbn; try done; [intros Ha; by rewrite (Hc Ha)|intros Hm; by rewrite (Hi Hm)]. }
  clearbody g1. repeat case_match; [|by apply sound_act|done]. apply sound_jump; [by apply sound_act|by right].
Qed.

Lemma sound_navigate delta to_edge g :
  sound g -> is_Some (alt_jump_path (overlay g)) -> sound (navigate_session_jump delta to_edge g).
Proof.
  intros Hok Hj. unfold navigate_session_jump. repeat case_match; try done. apply sound_highlight; [done|].
  destruct (alt_overlay_active (overlay g)) eqn:Ha; [done|]. rewrite (ok_closed _ Hok Ha) in Hj. by destruct Hj.
Qed.

Lemma sound_key key g : sound g -> sound (walk_key key g).
Proof.
  intros Hok. unfold walk_key. case_match.
  { case_match; [by apply sound_answer|apply sound_clear]. }
  case_match; [apply sound_act, sound_clear|]. case_match; [by apply sound_back|].
  assert (sound (match key with [ch] => feed_alt_overlay_char ch g | _ => g end)) as Hfeed
    by (destruct key as [|ch [|]]; [done|by apply sound_feed|done]).
  destruct (alt_jump_path (overlay g)) as [path|] eqn:Ej; [|done].
  destruct (bool_decide (key = chars "Enter")).
  - destruct (row_of _ path); [apply sound_act|]; apply sound_clear.
  - destruct (walk_step key) as [[delta to_edge]|]; [|done]. apply sound_navigate; [done|by rewrite Ej].
Qed.

Lemma sound_event e g : sound g -> sound (on_event e g).
Proof.
  intros Hok. destruct e as [[]| | |[]|]; cbn [on_event keytip_apply_bridge_message];
    repeat case_match; try done;
    auto using sound_act, sound_clear, sound_descend, sound_answer, sound_key, sound_report, reported_stamped.
  all: try (by apply sound_node, eq_refl; apply sound_clear). all: apply sound_act, fresh_ok.
Qed.

Lemma sound_history history g : sound g -> sound (foldl after g history).
Proof.
  revert g. induction history as [|[[m w] e] history IH]; intros g Hok; [done|].
  apply IH, sound_event. exact Hok.
Qed.

Lemma removelast_nil {A} (l : list A) : l = [] -> removelast l = [].
Proof. by intros ->. Qed.

(** What a key does under a dialog, to everything but the layer itself. *)
Lemma key_under_dialog key g scope :
  overlay_ok (overlay g) -> alt_overlay_modal_scope (overlay g) = Some scope -> alt_jump_path (overlay g) = None ->
  let g' := walk_key key g in
  (modals g', rest g') = (modals g, rest g) \/
  (exists tip id, alt_derived_tips (overlay g) !! tip = Some id /\
     (modals g', rest g') = perform (ClickDerived id) (modals g, rest g)) \/
  (exists answer m, dialog_key key = true /\ modal_key_dispatch key (modals g) = Some (answer, m) /\
     (modals g', rest g') = perform (AnswerModal answer) (m, rest g)).
Proof.
  intros Hok Hm Hj. cbn zeta. unfold walk_key. rewrite Hm, Hj. cbn [is_Some_b andb].
  destruct (dialog_key key) eqn:Ek.
  - unfold answer_modal_key. destruct (modal_key_dispatch key (modals g)) as [[answer m]|].
    + right; right. exists answer, m. split; [done|]. split; [done|]. unfold act. cbn.
      destruct (perform _ _) as [m' w']. by case_match.
    + left. by case_match.
  - unfold dialog_key in Ek. rewrite !orb_false_iff in Ek. destruct Ek as [[-> _] ->].
    destruct key as [|ch [|]]; [by left| |by left]. unfold feed_alt_overlay_char.
    destruct (alt_overlay_active (overlay g)); [|by left]. cbn [negb]. rewrite Hm. cbn [is_Some_b orb].
    unfold feed_alt_derived_char. destruct (resolve_derived _ _) as [|id|] eqn:E; [by left| |by left].
    right; left. unfold resolve_derived in E. case_decide; [done|]. case_match; [|by case_match].
    injection E as ->. eexists _, id. split; [done|]. unfold act. cbn. by destruct (perform _ _).
Qed.

(** ** Badges, typed key by key *)

(** The layer takes the registry's letters: open, no dialog, no derived key waiting. *)
Definition listening (o : Overlay) : Prop :=
  alt_overlay_active o = true /\ alt_overlay_modal_scope o = None /\ alt_derived_sequence o = [].

Lemma feed_listening ch g :
  listening (overlay g) ->
  feed_alt_overlay_char ch g =
    let next := (alt_overlay_sequence (overlay g) ++ [char_lower ch])%list in
    match resolve (keytip_tree (rest g)) next with
    | Pending => park next g
    | DescendTo key _ => park next (if bool_decide (key = []) then g else dispatch_keytip_open key g)
    | RunKey key => follow_chord_into_modal (dispatch_keytip_node key g)
    | Invalid => feed_alt_derived_char ch g
    end.
Proof. intros (Ha & Hm & Hd). unfold feed_alt_overlay_char. by rewrite Ha, Hm, Hd. Qed.

Lemma park_same g : alt_overlay_active (overlay g) = true -> park (alt_overlay_sequence (overlay g)) g = g.
Proof. destruct g as [[? ? ? ? ? ?] m w]. cbn. by intros ->. Qed.

Lemma resolve_lower t sequence c : resolve t (sequence ++ [char_lower c])%list = resolve t (sequence ++ [c])%list.
Proof. unfold resolve. rewrite !text_lower_app, !length_app. cbn. by rewrite char_lower_idem. Qed.

(** What a node does when its last key is typed. *)
Definition fires (n : AssignedNode) (typed : text) g : Gui :=
  match n with
  | Leaf key _ _ Run => follow_chord_into_modal (dispatch_keytip_node key g)
  | Leaf key _ _ (Descend _) => park typed (if bool_decide (key = []) then g else dispatch_keytip_open key g)
  | Group _ _ _ => park typed g
  end.

Lemma feed_fires g t scope ns n sequence ch typed :
  coded_tree t -> keytip_tree (rest g) = t -> scope_at t sequence = Some scope -> t !! scope = Some ns -> n ∈ ns ->
  listening (overlay g) -> (alt_overlay_sequence (overlay g) ++ [char_lower ch])%list = typed ->
  typed = (sequence ++ node_tip n)%list -> feed_alt_overlay_char ch g = fires n typed g.
Proof.
  intros Ht Htree Hw Hns Hn Hl Htyped Heq. rewrite feed_listening by done. cbn zeta. rewrite Htyped, Htree, Heq.
  destruct (coded_scopes _ Ht _ _ Hns) as (ps & _ & Hsh & _). rewrite Forall_forall in Hsh.
  rewrite (resolve_tip t sequence scope ns n) by (done || by eapply tip_shape_lower, Hsh).
  destruct n as [key title tip [|child]|tip title ms]; cbn [lands fires]; [done|done|].
  by rewrite bool_decide_eq_true_2.
Qed.

(** A declared badge. *)
Lemma type_badge g scope ns n badge :
  let t := keytip_tree (rest g) in
  let sequence := alt_overlay_sequence (overlay g) in
  coded_tree t -> listening (overlay g) -> scope_at t sequence = Some scope -> t !! scope = Some ns -> n ∈ ns ->
  text_lower badge = node_tip n ->
  type_keys badge g = fires n (sequence ++ node_tip n)%list (park (sequence ++ removelast (node_tip n))%list g).
Proof.
  intros t sequence Ht Hl Hw Hns Hn Hb.
  destruct (coded_scopes _ Ht _ _ Hns) as (ps & _ & Hsh & _). rewrite Forall_forall in Hsh.
  destruct (Hsh n Hn) as [(c & Htip & _)|(_ & p & q & Htip & _)]; rewrite Htip in Hb |- *.
  - destruct badge as [|b [|]]; [done| |done]. injection Hb as Hb. cbn [removelast type_keys foldl].
    rewrite app_nil_r. unfold sequence at 2. rewrite park_same by apply Hl.
    eapply feed_fires; [exact Ht|done|exact Hw|exact Hns|exact Hn|done|by rewrite Hb|by rewrite Htip].
  - destruct badge as [|b [|b' [|]]]; [done|done| |done]. injection Hb as Hb Hb'. cbn [removelast type_keys foldl].
    assert (feed_alt_overlay_char b g = park (sequence ++ [p])%list g) as ->.
    { rewrite feed_listening by done. cbn zeta. rewrite Hb. fold t sequence.
      rewrite (resolve_half t sequence scope ns n p q p); [done|done..|]. by rewrite <- Hb, char_lower_idem. }
    destruct Hl as (Ha & Hm & Hd).
    eapply feed_fires; [exact Ht|done|exact Hw|exact Hns|exact Hn|done| |by rewrite Htip].
    cbn. by rewrite Hb', <- app_assoc.
Qed.

(** A derived badge: the whole map is the report's. *)
Lemma type_derived g tip id :
  let t := keytip_tree (rest g) in
  let sequence := alt_overlay_sequence (overlay g) in
  listening (overlay g) ->
  resolve_derived (alt_derived_tips (overlay g)) tip = Hit id -> text_lower tip = tip ->
  (exists c rest, tip = c :: rest /\ (length rest <= 1)%nat /\
     (forall more, resolve t (sequence ++ c :: more)%list = Invalid) /\
     (rest <> [] -> resolve_derived (alt_derived_tips (overlay g)) [c] = WaitKey)) ->
  type_keys (text_upper tip) g = act (ClickDerived id) (clear_alt_overlay g).
Proof.
  intros t sequence Hl Hhit Hlow (c & more & -> & Hlen & Hinv & Hwait). injection Hlow as Hc Hmore.
  unfold type_keys. cbn [text_upper map foldl]. rewrite feed_listening by done. cbn zeta.
  rewrite char_lower_upper, Hc. fold t sequence. rewrite (Hinv []).
  unfold feed_alt_derived_char at 1. destruct Hl as (Ha & Hm & Hd). rewrite Hd, char_lower_upper, Hc. cbn [app].
  destruct more as [|c' [|]]; [|rewrite Hwait by done|cbn in Hlen; lia].
  { by rewrite Hhit. }
  injection Hmore as Hc'. cbn [map foldl]. unfold feed_alt_overlay_char. cbn. rewrite Ha, Hm. cbn.
  unfold feed_alt_derived_char. cbn. by rewrite char_lower_upper, Hc', Hhit.
Qed.


(** ** The live list *)

Lemma position_lookup (paths : list text) i path :
  NoDup paths -> paths !! i = Some path -> position paths path = Some i.
Proof.
  intros Hnd Hi. unfold position. destruct (list_find (eq path) paths) as [[j x]|] eqn:E; cbn.
  - apply list_find_Some in E as (Hj & <- & _). f_equal. by eapply NoDup_lookup.
  - exfalso. assert (path ∈ paths) as Hin by (by eapply list_elem_of_lookup_2).
    eapply list_find_None in E. rewrite Forall_forall in E. by apply (E path).
Qed.

(** One step of the walk, by the residue. *)
Lemma next_index_mod (n : nat) i delta : (0 < n)%nat -> (i < n)%nat -> (-1 <= delta <= 1)%Z ->
  next_index (Z.of_nat n) (Some i) delta false = ((Z.of_nat i + delta) mod Z.of_nat n)%Z.
Proof.
  intros Hn Hi Hd. unfold next_index. set (z := (Z.of_nat i + delta)%Z).
  destruct (decide (0 <= z)%Z) as [Hz|Hz].
  - assert (0 <= Z.rem z (Z.of_nat n))%Z by (apply Z.rem_nonneg; lia).
    rewrite !(Z.rem_mod_nonneg z), Z.rem_mod_nonneg by lia.
    rewrite Z.add_mod, Z_mod_same_full, Z.add_0_r, !Z.mod_mod by lia. done.
  - assert (z = -1)%Z as -> by (unfold z in *; lia).
    destruct (decide (n = 1)%nat) as [->|]; [by vm_compute|].
    assert (Z.rem (-1) (Z.of_nat n) = -1)%Z as -> by (change (-1)%Z with (- (1))%Z; rewrite Z.rem_opp_l, Z.rem_small; lia).
    rewrite Z.rem_small by lia. rewrite <- (Z.mod_unique_pos (-1) (Z.of_nat n) (-1) (Z.of_nat n - 1)) by lia. lia.
Qed.

(** Pressing a key of the walk moves the highlight by its step, around the ends. *)
Lemma jump_step g paths i key delta :
  alt_overlay_modal_scope (overlay g) = None -> live_paths (rest g) = paths -> NoDup paths -> (i < length paths)%nat ->
  alt_jump_path (overlay g) = paths !! i -> walk_step key = Some (delta, false) ->
  let j := Z.to_nat ((Z.of_nat i + delta) mod Z.of_nat (length paths)) in
  exists path, paths !! j = Some path /\ walk_key key g = highlight path g.
Proof.
  intros Hm Hp Hnd Hi Hj Hk j. destruct (lookup_lt_is_Some_2 paths i Hi) as [cur Hcur].
  assert (-1 <= delta <= 1)%Z as Hd by (unfold walk_step in Hk; repeat case_match; simplify_eq; lia).
  assert (j < length paths)%nat as Hlt.
  { unfold j. pose proof (Z.mod_pos_bound (Z.of_nat i + delta) (Z.of_nat (length paths))). lia. }
  destruct (lookup_lt_is_Some_2 paths j Hlt) as [path Hpath]. exists path. split; [done|].
  unfold walk_key. rewrite Hm, Hj, Hcur. cbn [is_Some_b andb].
  unfold walk_step in Hk.
  assert (forall k, key = k -> walk_step k = Some (delta, false)) as Hkey by (by intros ? <-).
  rewrite !bool_decide_eq_false_2 by (intros Hx; specialize (Hkey _ Hx); by vm_compute in Hkey).
  change (walk_step key = Some (delta, false)) in Hk. rewrite Hk. unfold navigate_session_jump. rewrite Hj, Hcur, Hp. cbn [mbind option_bind].
  rewrite (position_lookup paths i cur Hnd Hcur), next_index_mod by lia. fold j.
  destruct paths as [|x paths]; [cbn in Hi; lia|]. by rewrite Hpath.
Qed.

End Facts.

(** ** A shell that only records what it is asked *)

Record Recorder := mkRecorder {
  rec_config : KeymapConfig; rec_menu : list RowMenuItem; rec_rows : list text; rec_done : list Effect }.

#[export] Instance recorder_shell : Shell Recorder := {
  in_force := rec_config;
  apps_here _ := [];
  row_menu := rec_menu;
  live_paths := rec_rows;
  active_path _ := None;
  menu_page_turned _ := false;
  menu_row_stands _ := true;
  anchor_takes_a_session _ := true;
  verb_here _ _ _ := true;
  row_of _ _ := true;
  perform e '(m, w) := (m, mkRecorder (rec_config w) (rec_menu w) (rec_rows w) (rec_done w ++ [e])) }.

Definition fresh_shell : Recorder := mkRecorder default_keymap [] (map chars ["one"; "two"; "three"]%string) [].

(** ** Properties *)

(** C14: The overlay keeps its promises under every history of key messages, reports of the page walk, focus
    losses and control verbs, whatever the dialogs and the rest of the shell become in between.
    A closed layer holds nothing; a layer inside a dialog has no chord; a waiting derived key is a
    proper beginning of a derived tip; only elements the walk stamped can be clicked.  And while
    the layer is inside a dialog, and not walking the live list, a key reaches nothing behind it:
    it clicks one of the derived elements, answers the dialog, or does nothing. *)
Theorem overlay_keeps_its_promises {W} `{Shell W} (history : list (OpenModals * W * Event)) m w :
  let g := foldl after (start m w) history in
  let o := overlay g in
  (alt_overlay_active o = false -> o = closed) /\
  (is_Some (alt_overlay_modal_scope o) -> alt_overlay_sequence o = []) /\
  (alt_derived_sequence o <> [] -> exists tip id, alt_derived_tips o !! tip = Some id /\
     alt_derived_sequence o `prefix_of` tip /\ tip <> alt_derived_sequence o) /\
  (forall tip id, alt_derived_tips o !! tip = Some id -> stamped id = true) /\
  (forall key scope, alt_overlay_modal_scope o = Some scope -> alt_jump_path o = None ->
    let g' := walk_key key g in
    (modals g', rest g') = (modals g, rest g) \/
    (exists tip id, alt_derived_tips o !! tip = Some id /\
       (modals g', rest g') = perform (ClickDerived id) (modals g, rest g)) \/
    (exists answer m', dialog_key key = true /\ modal_key_dispatch key (modals g) = Some (answer, m') /\
       (modals g', rest g') = perform (AnswerModal answer) (m', rest g))).
Proof.
  intros g o. assert (overlay_ok o) as Hok by (apply sound_history; exact closed_ok). split_and!.
  - apply Hok.
  - apply Hok.
  - apply Hok.
  - apply Hok.
  - intros key scope. by apply key_under_dialog.
Qed.

(** C13: Every badge does what it says, typed key by key.  When the layer listens on a surface whose
    scopes have room: typing the badge a declaration wears performs that declaration, or opens its
    container and descends, or opens its group, and nothing is performed before its last key; and
    once the report of the page walk for the open scope is in, typing the badge an undeclared
    element wears closes the layer and clicks that element, and nothing else. *)
Theorem badges_do_what_they_say {W} `{Shell W} (g : Gui (W := W)) scope ns :
  let t := keytip_tree (rest g) in
  let sequence := alt_overlay_sequence (overlay g) in
  well_declared (build_keytip_scopes (apps_here (rest g)) (row_menu (rest g))) (in_force (rest g)) = true ->
  listening (overlay g) -> scope_at t sequence = Some scope -> t !! scope = Some ns ->
  (forall key badge, keytip_tip_for t true sequence key = Some badge -> is_Some (tip_for t sequence key) ->
    exists n, n ∈ ns /\ paints key n = true /\
      type_keys badge g = fires n (sequence ++ node_tip n)%list (park (sequence ++ removelast (node_tip n))%list g)) /\
  (forall elements, roomy (AppScope (chars "derived")) (derived_scope (map node_tip ns) elements) default_keymap = true ->
    let out := derive_keytips_for_elements (map node_tip ns) elements in
    let g' := apply_derived_keytips (chars "root") elements g in
    map fst out = map fst elements /\
    forall i id tip, out !! i = Some (id, tip) ->
      type_keys (text_upper tip) g' = mkGui closed (perform (ClickDerived id) (modals g, rest g)).1
                                                   (perform (ClickDerived id) (modals g, rest g)).2).
Proof.
  intros t sequence Hwd Hl Hw Hns.
  assert (coded_tree t) as Ht by (by apply build_coded).
  split.
  - intros key badge Hb [badge' Hb']. unfold keytip_tip_for in Hb. cbn in Hb. rewrite Hb' in Hb. injection Hb as ->.
    unfold tip_for in Hb'. rewrite Hw, Hns in Hb'. destruct (List.find (paints key) ns) as [n|] eqn:E; [|done].
    injection Hb' as <-. apply find_Some_spec in E as [Hn Hp]. exists n. split; [done|]. split; [done|].
    destruct (coded_scopes _ Ht _ _ Hns) as (ps & _ & Hsh & _). rewrite Forall_forall in Hsh.
    eapply type_badge; [exact Ht|exact Hl|exact Hw|exact Hns|exact Hn|].
    cbn. rewrite text_lower_upper. by eapply tip_shape_lower, Hsh.
  - intros elements Hroom out g'.
    assert (tips_at t sequence = Some (map node_tip ns)) as Hat by (unfold tips_at; by rewrite Hw, Hns).
    destruct (derived_reach t sequence scope ns (map node_tip ns) elements Ht Hw Hns Hat Hroom) as [Hids Hout].
    split; [exact Hids|]. intros i id tip Hi. destruct (Hout i id tip Hi) as (Hhit & Hlow & Htip).
    assert (g' = with_overlay (fun o => mkOverlay true (alt_overlay_sequence o) (alt_jump_path o) (derived_map out) [] None) g)
      as Hg.
    { unfold g', apply_derived_keytips. destruct Hl as (Ha & Hm & _). rewrite Ha, Hm. cbn [negb is_Some_b andb].
      change (modal_kind (chars "root")) with (@None text). cbn [is_Some_b andb]. rewrite Hm. cbn [is_Some_b].
      fold t sequence. rewrite Hat. unfold with_overlay. by rewrite Ha, Hm. }
    assert (listening (overlay g')) as Hl' by (by rewrite Hg).
    rewrite (type_derived g' tip id); [|done|by rewrite Hg|done|by rewrite Hg].
    unfold act. rewrite Hg. cbn. by destruct (perform _ _).
Qed.

(** Walking the live list.  With the arrow and page keys the highlight moves one row at a time
    and wraps at the ends: after any sequence of them it is the row as many places on as there were
    steps down less steps up, modulo the number of rows; and Enter then closes the layer and opens
    that row, if it still has one. *)
Theorem jump_walk_wraps {W} `{Shell W} (paths : list text) (steps : list (text * Z)) (g : Gui (W := W)) i :
  (forall path m w, live_paths (perform (SelectRow path) (m, w)).2 = live_paths w) ->
  alt_overlay_modal_scope (overlay g) = None -> live_paths (rest g) = paths -> NoDup paths -> (i < length paths)%nat ->
  alt_jump_path (overlay g) = paths !! i ->
  Forall (fun s => walk_step s.1 = Some (s.2, false)) steps ->
  let g' := foldl (fun g s => walk_key s.1 g) g steps in
  let j := Z.to_nat ((Z.of_nat i + foldr Z.add 0%Z (map snd steps)) mod Z.of_nat (length paths)) in
  exists path, paths !! j = Some path /\ alt_jump_path (overlay g') = Some path /\
    walk_key (chars "Enter") g' =
      (if row_of (rest g') path then act (OpenRow path) (clear_alt_overlay g') else clear_alt_overlay g').
Proof.
  intros Hkeep Hm Hp Hnd Hi Hj Hsteps. revert g i Hm Hp Hi Hj.
  induction Hsteps as [|[key delta] steps Hk Hsteps IH]; intros g i Hm Hp Hi Hj; cbn zeta.
  - cbn [foldl map foldr]. rewrite Z.add_0_r, Z.mod_small, Nat2Z.id by lia.
    destruct (lookup_lt_is_Some_2 paths i Hi) as [path Hpath]. rewrite Hpath in Hj |- *. exists path.
    split; [done|]. split; [done|]. unfold walk_key. rewrite Hm, Hj. reflexivity.
  - cbn [foldl map foldr fst snd] in *.
    destruct (jump_step g paths i key delta Hm Hp Hnd Hi Hj Hk) as (path & Hpath & ->).
    set (k := Z.to_nat _) in Hpath. destruct (IH (highlight path g) k) as (last & Hlast & Hrest).
    + unfold highlight. by rewrite overlay_act.
    + unfold highlight, act. cbn. destruct (perform _ _) as [m' w'] eqn:E. cbn.
      pose proof (Hkeep path (modals g) (rest g)) as Hk'. by rewrite E, Hp in Hk'.
    + by eapply lookup_lt_Some.
    + unfold highlight. by rewrite overlay_act, Hpath.
    + exists last. split; [|exact Hrest]. rewrite <- Hlast. f_equal. unfold k.
      pose proof (Z.mod_pos_bound (Z.of_nat i + delta) (Z.of_nat (length paths))).
      rewrite Z2Nat.id, Z.add_mod_idemp_l by lia. by rewrite Z.add_assoc.
Qed.

(** ** Concrete runs *)

Definition opened : Gui (W := Recorder) := activate_alt_overlay (start no_modals fresh_shell).

Theorem overlay_keeps_its_promises_witness :
  let dialog := mkModals false false false false false false false true false false false false None None in
  let history := [(dialog, fresh_shell, Bridge Tap)] in
  let g := foldl after (start no_modals fresh_shell) history in
  alt_overlay_modal_scope (overlay g) = Some (chars "delete") /\
  (let g' := walk_key (chars "b") g in (modals g', rest g') = (modals g, rest g)).
Proof.
  intros dialog history g. split; [reflexivity|].
  destruct (overlay_keeps_its_promises history no_modals fresh_shell) as (_ & _ & _ & _ & Hkey).
  destruct (Hkey (chars "b") (chars "delete") eq_refl eq_refl) as [E|[(tip & id & Ht & _)|(a & m & Hd & _)]];
    [exact E|by vm_compute in Ht|by vm_compute in Hd].
Defined.

Theorem badges_do_what_they_say_witness :
  let elements := [(chars "d0", chars "Widgets"); (chars "d1", chars "Quit")] in
  let g := apply_derived_keytips (chars "root") elements opened in
  rec_done (rest (type_keys (chars "B") opened)) = rec_done (rest opened) ++ [RunCommand ToggleSidebar] /\
  type_keys (chars "W") g = mkGui closed no_modals
    (mkRecorder default_keymap [] (rec_rows fresh_shell) (rec_done (rest opened) ++ [ClickDerived (chars "d0")])).
Proof.
  intros elements g.
  destruct (badges_do_what_they_say opened (chars "root")
    (default [] (keytip_tree fresh_shell !! chars "root"))) as [Hdecl Hder];
    [by vm_compute|by split_and!|by vm_compute|by vm_compute|]. split.
  - destruct (Hdecl (chars "sidebar.toggle") (chars "B")) as (n & Hn & Hp & ->); [by vm_compute|by eexists|].
    assert (n = default n (List.find (paints (chars "sidebar.toggle"))
      (default [] (keytip_tree fresh_shell !! chars "root")))) as ->; [|by vm_compute].
    clear Hdecl Hder g elements. revert n Hn Hp.
    refine (proj1 (Forall_forall (fun n => paints _ n = true -> n = _) _) _). vm_compute. by repeat constructor.
  - destruct (Hder elements) as [_ Hclick]; [by vm_compute|]. by apply (Hclick 0%nat (chars "d0") (chars "w")); vm_compute.
Defined.

Theorem jump_walk_wraps_witness :
  let g := highlight (chars "one") (park (chars "j") opened) in
  let g' := foldl (fun g s => walk_key s.1 g) g [(chars "ArrowUp", (-1)%Z); (chars "PageUp", (-1)%Z)] in
  alt_jump_path (overlay g') = Some (chars "two").
Proof.
  intros g g'.
  destruct (jump_walk_wraps (rec_rows fresh_shell) [(chars "ArrowUp", (-1)%Z); (chars "PageUp", (-1)%Z)] g 0)
    as (path & Hpath & Hj & _); [by intros ? ? []|reflexivity|reflexivity| |cbn; lia|reflexivity|by repeat constructor|].
  - by apply (bool_decide_unpack _); vm_compute.
  - transitivity (Some path); [exact Hj|]. vm_compute in Hpath. by injection Hpath as <-.
Defined.

(** The derived tips outlive the surface they were derived for: after a key that opens a container,
    until the next report, a letter that is not in the new scope clicks an element of the old one. *)
Example stale_derived_tip_fires :
  let g := apply_derived_keytips (chars "root") [(chars "d0", chars "Widgets")] opened in
  alt_overlay_sequence (overlay (type_keys (chars "i") g)) = chars "i" /\
  rec_done (rest (type_keys (chars "iw") g)) = rec_done (rest g) ++ [OpenNewMenu; ClickDerived (chars "d0")].
Proof. by vm_compute. Qed.

(** Backspace takes a key off the registry's chord, also when the key waiting is a derived one: the
    waiting key stays, and the next letter is read as its second. *)
Example backspace_leaves_the_waiting_key :
  let elements := map (fun i => (chars "d" ++ number_text (N.of_nat i), chars "Item")%list) (seq 0 40) in
  let g := apply_derived_keytips (chars "root") elements opened in
  let g' := walk_key (chars "Backspace") (type_keys (chars "z") g) in
  alt_derived_sequence (overlay g') = chars "z" /\
  rec_done (rest (type_keys (chars "b") g)) = rec_done (rest g) ++ [RunCommand ToggleSidebar] /\
  rec_done (rest (type_keys (chars "b") g')) = rec_done (rest g') ++ [ClickDerived (chars "d26")].
Proof. by vm_compute. Qed.

(** A dialog raised while the layer is open, before the walk reports it: the letter still runs the
    command behind it. *)
Example letter_runs_under_a_new_dialog :
  let dialog := mkModals false false false false false true false false false false false false None None in
  let g := mkGui (overlay opened) dialog (rest opened) in
  rec_done (rest (type_keys (chars "b") g)) = rec_done (rest opened) ++ [RunCommand ToggleSidebar].
Proof. by vm_compute. Qed.

(** Opening an open layer again clears the chord and leaves jump mode on. *)
Example reopening_keeps_the_jump :
  let g := type_keys (chars "j") opened in
  alt_jump_path (overlay g) = Some (chars "one") /\
  let g' := on_event (SetKeytipsOverlay true) g in
  alt_overlay_sequence (overlay g') = [] /\ alt_jump_path (overlay g') = Some (chars "one").
Proof. by vm_compute. Qed.
