(* ===== verification/SessionOutline.v ===== *)
(** The outline order of rows: the seat numbers of
    [crates/yggterm-core/src/session_outline.rs].

    A row's stored prefix is parsed into an [OutlineKey]; the sidebar is sorted
    stably by that key.  [normalize_outline_prefix] is the setter's gate and
    [derive_child_outline_prefix] hands out the next free child number. *)
From S2P Require Import Prelude RustStr.
#[local] Open Scope N_scope.

Definition dot : ascii := "."%char.

Inductive OutlineKey : Type :=
| Numbered (segments : list N)
| Unnumbered.

#[export] Instance OutlineKey_eq_dec : EqDecision OutlineKey.
Proof. solve_decision. Defined.

(** The derived [Ord]: vectors lexicographically, a proper prefix first, and
    [Numbered] before [Unnumbered]. *)
Fixpoint segments_leb (a b : list N) : bool :=
  match a, b with
  | [], _ => true
  | _ :: _, [] => false
  | x :: a', y :: b' => if x <? y then true else if y <? x then false else segments_leb a' b'
  end.

Definition outline_leb (a b : OutlineKey) : bool :=
  match a, b with
  | Numbered x, Numbered y => segments_leb x y
  | Numbered _, Unnumbered => true
  | Unnumbered, Numbered _ => false
  | Unnumbered, Unnumbered => true
  end.

(** [a > b] of the derived [PartialOrd]. *)
Definition outline_gtb (a b : OutlineKey) : bool := negb (outline_leb a b).

Fixpoint parse_segments (parts : list string) : option (list N) :=
  match parts with
  | [] => Some []
  | p :: ps =>
    match parse_u64 (trim p) with
    | Some v => cons v <$> parse_segments ps
    | None => None
    end
  end.

Definition parse_outline_key (prefix : option string) : OutlineKey :=
  match prefix with
  | None => Unnumbered
  | Some p =>
    let trimmed := trim_end_char dot (trim p) in
    if str_is_empty trimmed then Unnumbered else
    match parse_segments (split_on dot trimmed) with
    | Some segments => Numbered segments
    | None => Unnumbered
    end
  end.

(** [segments.iter().map(u64::to_string).collect().join(".")]. *)
Definition render_segments (segments : list N) : string :=
  join "." (u64_to_string <$> segments).

(** The refusal carries the prefix that its message quotes. *)
Definition normalize_outline_prefix (prefix : string) : result (option string) string :=
  let trimmed := trim (trim_end_char dot (trim prefix)) in
  if str_is_empty trimmed then Ok None else
  match parse_outline_key (Some trimmed) with
  | Numbered segments => Ok (Some (render_segments segments))
  | Unnumbered => Err prefix
  end.

(** [segments.starts_with(&head)]. *)
Fixpoint segments_prefix (head segments : list N) : bool :=
  match head, segments with
  | [], _ => true
  | x :: head', y :: segments' => (x =? y) && segments_prefix head' segments'
  | _ :: _, [] => false
  end.

(** One iteration over an existing child prefix; [highest] is a [u64]. *)
Definition child_scan (parent : list N) (highest : N) (child : string) : N :=
  match parse_outline_key (Some child) with
  | Unnumbered => highest
  | Numbered segments =>
    if (length segments =? length parent + 1)%nat && segments_prefix parent segments
    then N.max highest (nth (length parent) segments 0)
    else highest
  end.

(** [highest + 1] wraps in a release build (it panics in a debug one). *)
Definition derive_child_outline_prefix
    (parent_prefix : option string) (existing_child_prefixes : list string) : option string :=
  match parse_outline_key parent_prefix with
  | Unnumbered => None
  | Numbered parent =>
    let highest := foldl (child_scan parent) 0 existing_child_prefixes in
    Some (render_segments (parent ++ [(highest + 1) mod 2 ^ 64]))
  end.

Definition sort_by_outline {T} (prefix_of : T -> option string) (rows : list T) : list T :=
  stable_sort (fun a b => outline_leb (parse_outline_key (prefix_of a))
                                      (parse_outline_key (prefix_of b))) rows.

Definition outline_prefix_heads_a_group (prefix : string) (all_prefixes : list string) : bool :=
  match parse_outline_key (Some prefix) with
  | Unnumbered => false
  | Numbered head =>
    existsb (fun other =>
      match parse_outline_key (Some other) with
      | Numbered segments => (length head <? length segments)%nat && segments_prefix head segments
      | Unnumbered => false
      end) all_prefixes
  end.

Definition render_outline_prefix (prefix : string) (heads_a_group : bool) : option string :=
  let trimmed := trim (trim_end_char dot (trim prefix)) in
  match parse_outline_key (Some trimmed) with
  | Unnumbered => None
  | Numbered segments =>
    let canonical := render_segments segments in
    if (length segments =? 1)%nat && negb heads_a_group
    then Some (canonical +:+ ".")%string
    else Some canonical
  end.

(** The leading digits and dots of a title, and what follows them. *)
Fixpoint split_outline_head (s : string) : string * string :=
  match s with
  | EmptyString => (""%string, ""%string)
  | String a s' =>
    if is_digit a || Ascii.eqb a dot
    then let '(head, rest) := split_outline_head s' in (String a head, rest)
    else (""%string, s)
  end.

Definition ends_with_dot (s : string) : bool := is_Some_b (strip_char dot (str_rev s)).
Definition contains_dot (s : string) : bool := negb (str_forallb (fun a => negb (Ascii.eqb a dot)) s).

Definition outline_key_from_title (title : string) : OutlineKey :=
  let trimmed := trim_start title in
  let '(head, rest) := split_outline_head trimmed in
  let dotted := contains_dot head && negb (ends_with_dot head) in
  let bare_with_dot := ends_with_dot head && is_Some_b (parse_u64 (trim_end_char dot head)) in
  if negb (dotted || bare_with_dot) then Unnumbered
  else if negb (is_Some_b (strip_ws rest)) then Unnumbered
  else parse_outline_key (Some head).

Example title_dotted : outline_key_from_title "5.1 gadgets: crypto" = Numbered [5; 1].
Proof. vm_compute. reflexivity. Qed.
Example title_bare : outline_key_from_title "2026 audit" = Unnumbered.
Proof. vm_compute. reflexivity. Qed.
Example title_chapter : outline_key_from_title "0. Aug 7 2026" = Numbered [0].
Proof. vm_compute. reflexivity. Qed.
Example child_of_5 : derive_child_outline_prefix (Some "5") ["5.1"; "5.1.1"] = Some "5.2"%string.
Proof. vm_compute. reflexivity. Qed.
Example owner_order :
  sort_by_outline (fun s => Some s) ["6"; "1.1"; "0"; "5.2"; "10"; "2"; "1"]%string
  = ["0"; "1"; "1.1"; "2"; "5.2"; "6"; "10"]%string.
Proof. vm_compute. reflexivity. Qed.

(** ** The order on keys *)

Lemma segments_leb_refl a : segments_leb a a = true.
Proof. induction a as [|x a IH]; [done|]. simpl. by rewrite N.ltb_irrefl. Qed.

Lemma segments_leb_total a b : segments_leb a b = true \/ segments_leb b a = true.
Proof.
  revert b. induction a as [|x a IH]; intros [|y b]; simpl; [by left|by left|by right|].
  destruct (N.ltb_spec x y), (N.ltb_spec y x); try lia; auto.
Qed.

Lemma segments_leb_trans a b c :
  segments_leb a b = true -> segments_leb b c = true -> segments_leb a c = true.
Proof.
  revert b c. induction a as [|x a IH]; intros [|y b] [|z c]; simpl; try done.
  destruct (N.ltb_spec x y), (N.ltb_spec y x), (N.ltb_spec y z), (N.ltb_spec z y),
    (N.ltb_spec x z), (N.ltb_spec z x); try lia; try done. apply IH.
Qed.

Lemma segments_leb_antisym a b :
  segments_leb a b = true -> segments_leb b a = true -> a = b.
Proof.
  revert b. induction a as [|x a IH]; intros [|y b]; simpl; try done.
  destruct (N.ltb_spec x y), (N.ltb_spec y x); try lia; try done.
  intros H1 H2. f_equal; [lia|]. by apply IH.
Qed.

Lemma outline_leb_total a b : outline_leb a b = true \/ outline_leb b a = true.
Proof. destruct a, b; simpl; auto using segments_leb_total. Qed.

Lemma outline_leb_trans a b c :
  outline_leb a b = true -> outline_leb b c = true -> outline_leb a c = true.
Proof. destruct a, b, c; simpl; try done. apply segments_leb_trans. Qed.

#[export] Instance outline_leb_order : BoolOrder outline_leb.
Proof. split; [apply outline_leb_total|apply outline_leb_trans]. Qed.

Lemma outline_leb_antisym a b :
  outline_leb a b = true -> outline_leb b a = true -> a = b.
Proof.
  destruct a, b; simpl; try done. intros. f_equal. by apply segments_leb_antisym.
Qed.

Lemma outline_leb_refl a : outline_leb a a = true.
Proof. destruct a; [apply segments_leb_refl|done]. Qed.

Lemma segments_prefix_leb a b : segments_prefix a b = true -> segments_leb a b = true.
Proof.
  revert b. induction a as [|x a IH]; intros [|y b]; simpl; try done.
  intros [->%N.eqb_eq H]%andb_true_iff. rewrite N.ltb_irrefl. by apply IH.
Qed.

Lemma segments_prefix_spec a b : segments_prefix a b = true <-> exists k, b = a ++ k.
Proof.
  revert b. induction a as [|x a IH]; intros b; simpl.
  - split; [intros _; by exists b|done].
  - destruct b as [|y b]; [split; [done|by intros [k ?]]|].
    rewrite andb_true_iff, N.eqb_eq, IH. naive_solver.
Qed.

#[export] Hint Resolve outline_leb_total outline_leb_trans segments_leb_refl outline_leb_refl : ygg.

(** ** Canonical prefixes *)

Definition ends_digit (s : string) : Prop :=
  exists a r, str_rev s = String a r /\ is_digit a = true.

Lemma ends_digit_app s t : ends_digit t -> ends_digit (s ++ t)%string.
Proof. intros (a&r&Hr&Ha). exists a, (r ++ str_rev s)%string. by rewrite str_rev_app, Hr. Qed.

Lemma ends_digit_of_digits s :
  str_is_empty s = false -> str_forallb is_digit s = true -> ends_digit s.
Proof.
  induction s as [|a s IH]; [done|]. intros _. cbn. intros [Ha Hs]%andb_true_iff.
  destruct s as [|b s].
  - exists a, EmptyString. done.
  - change (String a (String b s)) with (String a "" ++ String b s)%string.
    by apply ends_digit_app, IH.
Qed.

Lemma render_segments_cons n l :
  l <> [] -> render_segments (n :: l) = (u64_to_string n ++ String dot (render_segments l))%string.
Proof. destruct l; done. Qed.

Lemma render_segments_ends_digit l : l <> [] -> ends_digit (render_segments l).
Proof.
  induction l as [|n l IH]; [done|]. intros _. destruct l as [|m l].
  - apply ends_digit_of_digits; [apply u64_to_string_nonempty|apply u64_to_string_digits].
  - rewrite render_segments_cons by done.
    change (String dot ?s) with (String dot "" ++ s)%string.
    by apply ends_digit_app, ends_digit_app, IH.
Qed.

Lemma is_digit_range a : is_digit a = true -> 48 <= byte_of a <= 57.
Proof. unfold is_digit, in_range. rewrite andb_true_iff, !N.leb_le. done. Qed.

Lemma digit_plain a : is_digit a = true -> plain a = true.
Proof.
  intros H%is_digit_range. unfold plain, ascii_ws, in_range.
  rewrite andb_true_iff, negb_true_iff, orb_false_iff, andb_false_iff.
  rewrite N.ltb_lt, !N.leb_gt, N.eqb_neq. lia.
Qed.

Lemma digit_not_dot a : is_digit a = true -> negb (Ascii.eqb a dot) = true.
Proof.
  intros H%is_digit_range. apply negb_true_iff, Ascii.eqb_neq. intros ->. cbn in H. lia.
Qed.

Lemma render_segments_plain l : str_forallb plain (render_segments l) = true.
Proof.
  induction l as [|n l IH]; [done|].
  assert (str_forallb plain (u64_to_string n) = true) as Hn.
  { eapply str_forallb_impl; [apply digit_plain|apply u64_to_string_digits]. }
  destruct l as [|m l]; [done|]. rewrite render_segments_cons by done.
  rewrite str_forallb_app, Hn. cbn [str_forallb andb]. by rewrite IH.
Qed.

Lemma trim_end_char_digit s : ends_digit s -> trim_end_char dot s = s.
Proof.
  intros (a&r&Hr&Ha). unfold trim_end_char. rewrite strip_while_id; [apply str_rev_involutive|].
  rewrite Hr. cbn. apply digit_not_dot, negb_true_iff in Ha. by rewrite Ha.
Qed.

Lemma ends_digit_nonempty s : ends_digit s -> str_is_empty s = false.
Proof. destruct s; [|done]. intros (a&r&Hr&_). done. Qed.

Lemma parse_segments_render l :
  Forall (fun n => n <= u64_max) l -> parse_segments (u64_to_string <$> l) = Some l.
Proof.
  induction 1 as [|n l Hn Hl IH]; [done|]. rewrite fmap_cons. cbn [parse_segments].
  rewrite trim_plain, parse_u64_to_string by
    (done || (eapply str_forallb_impl; [apply digit_plain|apply u64_to_string_digits])).
  by rewrite IH.
Qed.

Lemma parse_render_segments l :
  l <> [] -> Forall (fun n => n <= u64_max) l ->
  parse_outline_key (Some (render_segments l)) = Numbered l.
Proof.
  intros Hne Hl. unfold parse_outline_key.
  pose proof (render_segments_ends_digit l Hne) as He.
  rewrite trim_plain by apply render_segments_plain.
  rewrite trim_end_char_digit, ends_digit_nonempty by done.
  unfold render_segments. change "."%string with (String dot ""). rewrite split_on_join.
  - by rewrite parse_segments_render.
  - by destruct l.
  - apply Forall_fmap, Forall_true. intros n. cbn.
    eapply str_forallb_impl; [apply digit_not_dot|apply u64_to_string_digits].
Qed.

Lemma parse_u64_bound s n : parse_u64 s = Some n -> n <= u64_max.
Proof.
  unfold parse_u64, parse_uint. repeat case_match; try done.
  intros [= <-]. by apply N.leb_le.
Qed.

Lemma parse_segments_bound parts l :
  parse_segments parts = Some l -> Forall (fun n => n <= u64_max) l /\ length l = length parts.
Proof.
  revert l. induction parts as [|p ps IH]; intros l; simpl; [intros [= <-]; done|].
  destruct (parse_u64 (trim p)) as [v|] eqn:Hv; [|done].
  destruct (parse_segments ps) as [l'|]; [|done]. intros [= <-].
  destruct (IH l' eq_refl) as [??]. split; [|simpl; lia].
  constructor; [by eapply parse_u64_bound|done].
Qed.

Lemma parse_outline_key_numbered p l :
  parse_outline_key p = Numbered l -> l <> [] /\ Forall (fun n => n <= u64_max) l.
Proof.
  unfold parse_outline_key. destruct p as [p|]; [|done].
  case_match; [done|]. case_match eqn:Hs; [|done]. intros [= <-].
  apply parse_segments_bound in Hs as [? Hlen]. split; [|done]. intros ->.
  pose proof (split_on_nonempty dot (trim_end_char dot (trim p))).
  destruct (split_on _ _); simpl in Hlen; done.
Qed.

(** What the setter stores is canonical: the sort reads it, storing it again
    changes nothing, and it is the rendering of the key that was read. *)
Lemma normalize_canonical p q :
  normalize_outline_prefix p = Ok (Some q) ->
  exists l, parse_outline_key (Some q) = Numbered l /\ q = render_segments l
            /\ normalize_outline_prefix q = Ok (Some q).
Proof.
  unfold normalize_outline_prefix at 1. case_match; [done|].
  destruct (parse_outline_key _) as [l|] eqn:Hk; [|done]. intros [= <-].
  destruct (parse_outline_key_numbered _ _ Hk) as [Hne Hl].
  pose proof (parse_render_segments l Hne Hl) as Hp.
  exists l. split; [done|]. split; [done|].
  unfold normalize_outline_prefix.
  pose proof (render_segments_ends_digit l Hne) as He.
  rewrite (trim_plain (render_segments l)) by apply render_segments_plain.
  rewrite trim_end_char_digit by done.
  rewrite (trim_plain (render_segments l)) by apply render_segments_plain.
  by rewrite ends_digit_nonempty, Hp.
Qed.

(** The setter never stores a prefix the sort cannot read: an accepted prefix
    is the canonical rendering of its own key, and normalising it again is the
    identity. *)
Theorem normalize_outline_prefix_canonical p q :
  normalize_outline_prefix p = Ok (Some q) ->
  exists l, parse_outline_key (Some q) = Numbered l /\ q = render_segments l
            /\ normalize_outline_prefix q = Ok (Some q).
Proof. apply normalize_canonical. Qed.

Lemma normalize_outline_prefix_canonical_witness :
  normalize_outline_prefix " 5.02. " = Ok (Some "5.2"%string)
  /\ exists l, parse_outline_key (Some "5.2"%string) = Numbered l
               /\ "5.2"%string = render_segments l
               /\ normalize_outline_prefix "5.2" = Ok (Some "5.2"%string).
Proof.
  split; [vm_compute; reflexivity|].
  apply (normalize_outline_prefix_canonical " 5.02. "). vm_compute. reflexivity.
Defined.

(** The relation the sidebar order is sorted by. *)
Definition row_leb {T} (prefix_of : T -> option string) (a b : T) : bool :=
  outline_leb (parse_outline_key (prefix_of a)) (parse_outline_key (prefix_of b)).

(** The outline sort is a permutation of the rows, puts their keys in order,
    keeps rows that share a key (all unnumbered rows, in particular) in the order
    they arrived, and sorting its own output changes nothing. *)
Theorem sort_by_outline_correct {T} (prefix_of : T -> option string) (rows : list T) :
  sort_by_outline prefix_of rows ≡ₚ rows
  /\ StronglySorted (fun a b => row_leb prefix_of a b = true) (sort_by_outline prefix_of rows)
  /\ (forall k, filter (fun r => parse_outline_key (prefix_of r) = k)
                       (sort_by_outline prefix_of rows)
              = filter (fun r => parse_outline_key (prefix_of r) = k) rows)
  /\ sort_by_outline prefix_of (sort_by_outline prefix_of rows)
     = sort_by_outline prefix_of rows.
Proof.
  split; [apply stable_sort_perm|]. split; [apply stable_sort_sorted, _|].
  split; [|apply stable_sort_idemp, _].
  intros k. apply stable_sort_stable. intros x y -> ->. apply outline_leb_refl.
Qed.

(** ** Derived child numbers *)

Lemma child_scan_ge parent h c : h <= child_scan parent h c.
Proof. unfold child_scan. repeat case_match; lia. Qed.

Lemma foldl_child_scan_ge parent cs h : h <= foldl (child_scan parent) h cs.
Proof.
  revert h. induction cs as [|c cs IH]; intros h; simpl; [lia|].
  etrans; [apply (child_scan_ge parent h c)|apply IH].
Qed.

Lemma child_scan_child parent h c k :
  parse_outline_key (Some c) = Numbered (parent ++ [k]) -> k <= child_scan parent h c.
Proof.
  intros Hk. unfold child_scan. rewrite Hk, length_app, Nat.eqb_refl.
  rewrite (proj2 (segments_prefix_spec parent _)) by eauto.
  rewrite app_nth2, Nat.sub_diag by lia. cbn. lia.
Qed.

Lemma foldl_child_scan_child parent cs h c k :
  c ∈ cs -> parse_outline_key (Some c) = Numbered (parent ++ [k]) ->
  k <= foldl (child_scan parent) h cs.
Proof.
  intros Hc Hk. revert h Hc. induction cs as [|c' cs IH]; intros h Hc; [by apply elem_of_nil in Hc|].
  apply elem_of_cons in Hc as [<-|Hc]; simpl.
  - etrans; [by eapply child_scan_child|apply foldl_child_scan_ge].
  - by apply IH.
Qed.

(** The scan only ever takes the number of an existing direct child. *)
Lemma foldl_child_scan_attained parent cs h :
  foldl (child_scan parent) h cs = h \/
  exists c k, c ∈ cs /\ parse_outline_key (Some c) = Numbered (parent ++ [k])
              /\ foldl (child_scan parent) h cs = k.
Proof.
  revert h. induction cs as [|c cs IH]; intros h; simpl; [by left|].
  destruct (IH (child_scan parent h c)) as [->|(c'&k&?&?&?)].
  2:{ right. exists c', k. split; [by right|done]. }
  unfold child_scan. destruct (parse_outline_key (Some c)) as [l|] eqn:Hl; [|by left].
  case_match eqn:Hg; [|by left]. apply andb_true_iff in Hg as [Hlen Hpre].
  apply segments_prefix_spec in Hpre as [t ->]. apply Nat.eqb_eq in Hlen.
  rewrite length_app in Hlen. destruct t as [|x [|? ?]]; simpl in Hlen; try lia.
  rewrite app_nth2, Nat.sub_diag by lia. cbn.
  destruct (N.max_spec h x) as [[? ->]|[? ->]]; [right|by left].
  exists c, x. split; [left|done].
Qed.

(** A derived child number is the parent's seat followed by one more than the
    largest number among the parent's direct children (grandchildren do not
    count), so it reads back as a direct child and sorts after every sibling. *)
Theorem derive_child_outline_prefix_fresh parent_prefix children p :
  parse_outline_key parent_prefix = Numbered p ->
  (forall c k, c ∈ children -> parse_outline_key (Some c) = Numbered (p ++ [k]) -> k < u64_max) ->
  exists s h,
    derive_child_outline_prefix parent_prefix children = Some s
    /\ parse_outline_key (Some s) = Numbered (p ++ [h + 1])
    /\ (h = 0 \/ exists c, c ∈ children /\ parse_outline_key (Some c) = Numbered (p ++ [h]))
    /\ (forall c k, c ∈ children -> parse_outline_key (Some c) = Numbered (p ++ [k]) -> k <= h).
Proof.
  intros Hp Hmax. unfold derive_child_outline_prefix. rewrite Hp.
  set (h := foldl (child_scan p) 0 children).
  assert (h < u64_max) as Hh.
  { destruct (foldl_child_scan_attained p children 0) as [H|(c&k&?&?&H)].
    - unfold h. rewrite H. done.
    - unfold h. rewrite H. eauto. }
  rewrite N.mod_small by (unfold u64_max in Hh; lia).
  exists (render_segments (p ++ [h + 1])), h. split; [done|].
  destruct (parse_outline_key_numbered _ _ Hp) as [_ Hall]. repeat split.
  - apply parse_render_segments; [by destruct p|]. apply Forall_app. split; [done|].
    repeat constructor. lia.
  - destruct (foldl_child_scan_attained p children 0) as [H|(c&k&?&?&H)]; [by left|right].
    exists c. split; [done|]. unfold h. by rewrite H.
  - intros c k. apply foldl_child_scan_child.
Qed.

Lemma derive_child_outline_prefix_fresh_witness :
  exists s h,
    derive_child_outline_prefix (Some "5"%string) ["5.1"; "5.1.7"]%string = Some s
    /\ parse_outline_key (Some s) = Numbered ([5] ++ [h + 1])
    /\ (h = 0 \/ exists c, c ∈ ["5.1"; "5.1.7"]%string
                 /\ parse_outline_key (Some c) = Numbered ([5] ++ [h]))
    /\ (forall c k, c ∈ ["5.1"; "5.1.7"]%string ->
          parse_outline_key (Some c) = Numbered ([5] ++ [k]) -> k <= h).
Proof.
  apply (derive_child_outline_prefix_fresh (Some "5"%string) ["5.1"; "5.1.7"]%string [5]).
  - vm_compute. reflexivity.
  - intros c k Hc. repeat apply elem_of_cons in Hc as [->|Hc]; [..|by apply elem_of_nil in Hc].
    + intros H. assert (Numbered [5; 1] = Numbered ([5] ++ [k])) as E
        by (rewrite <- H; vm_compute; reflexivity). injection E as <-. vm_compute. reflexivity.
    + intros H. assert (Numbered [5; 1; 7] = Numbered ([5] ++ [k])) as E
        by (rewrite <- H; vm_compute; reflexivity). discriminate E.
Defined.

(** ** Rendering *)

Lemma strip_while_S strip fuel s s' :
  strip s = Some s' -> strip_while strip (S fuel) s = strip_while strip fuel s'.
Proof. intros H. cbn. by rewrite H. Qed.

Lemma trim_end_char_dotted s : ends_digit s -> trim_end_char dot (s ++ String dot "") = s.
Proof.
  intros (a&r&Hr&Ha). unfold trim_end_char.
  destruct (String.length (s ++ String dot "")) as [|fuel] eqn:Hlen.
  - destruct s; simpl in Hlen; done.
  - rewrite str_rev_app.
    replace (str_rev (String dot "") ++ str_rev s)%string with (String dot (str_rev s)) by done.
    rewrite (strip_while_S _ _ _ (str_rev s)) by done.
    rewrite strip_while_id; [apply str_rev_involutive|].
    rewrite Hr. cbn. apply digit_not_dot, negb_true_iff in Ha. by rewrite Ha.
Qed.

(** What is drawn for a seat reads back as that seat: the chapter dot of a
    childless top-level row is a rendering only, so re-storing a rendered prefix
    never changes the seat and never doubles the dot. *)
Theorem render_outline_prefix_reads_back p heads r :
  render_outline_prefix p heads = Some r ->
  exists l, parse_outline_key (Some (trim (trim_end_char dot (trim p)))) = Numbered l
    /\ parse_outline_key (Some r) = Numbered l
    /\ normalize_outline_prefix r = Ok (Some (render_segments l))
    /\ (r = render_segments l \/ (r = render_segments l +:+ ".")%string /\ length l = 1%nat).
Proof.
  unfold render_outline_prefix. destruct (parse_outline_key _) as [l|] eqn:Hk; [|done].
  destruct (parse_outline_key_numbered _ _ Hk) as [Hne Hl]. intros H. exists l. split; [done|].
  pose proof (parse_render_segments l Hne Hl) as Hp.
  pose proof (render_segments_ends_digit l Hne) as He.
  pose proof (render_segments_plain l) as Hpl.
  assert (trim (trim_end_char dot (trim r)) = render_segments l
          /\ trim_end_char dot (trim r) = render_segments l
          /\ (r = render_segments l \/ (r = render_segments l +:+ ".")%string /\ length l = 1%nat))
    as (Ht&Ht'&Hr).
  { destruct ((length l =? 1)%nat && negb heads) eqn:Hc; injection H as <-.
    - apply andb_true_iff in Hc as [Hlen%Nat.eqb_eq _].
      rewrite (trim_plain (_ +:+ _)) by (rewrite str_forallb_app, Hpl; reflexivity).
      change "."%string with (String dot "").
      rewrite (trim_end_char_dotted _ He), (trim_plain _ Hpl). auto.
    - rewrite (trim_plain _ Hpl), (trim_end_char_digit _ He), (trim_plain _ Hpl). auto. }
  split; [|split; [|done]].
  - rewrite <- Hp. unfold parse_outline_key.
    by rewrite Ht', (trim_plain _ Hpl), (trim_end_char_digit _ He).
  - unfold normalize_outline_prefix. by rewrite Ht, (ends_digit_nonempty _ He), Hp.
Qed.

Lemma render_outline_prefix_reads_back_witness :
  render_outline_prefix "6." false = Some "6."%string
  /\ exists l, parse_outline_key (Some (trim (trim_end_char dot (trim "6.")))) = Numbered l
    /\ parse_outline_key (Some "6."%string) = Numbered l
    /\ normalize_outline_prefix "6." = Ok (Some (render_segments l))
    /\ ("6."%string = render_segments l \/ ("6." = render_segments l +:+ ".")%string /\ length l = 1%nat).
Proof.
  split; [vm_compute; reflexivity|].
  apply (render_outline_prefix_reads_back "6." false). vm_compute. reflexivity.
Defined.
