(* ===== verification/RowSet.v ===== *)
(** Row sets: the containment relation behind collapsible groups of rows,
    [crates/yggterm-core/src/row_set.rs].

    [members] maps a head to its members in draw order, [parent] is the index
    derived from it, and [collapsed] the heads the user shut.  The mutators keep
    the three invariants of the module ([wf]): one parent, no cycles, and collapse
    flags that are independent of the containment.  [visible_rows] is the render
    path; [draw] is its specification on a forest. *)
From S2P Require Import Prelude RustStr.

Record RowSets : Type := mkRowSets {
  members : gmap string (list string);
  parent : gmap string string;
  collapsed : gset string;
}.

Definition rs_empty : RowSets := mkRowSets ∅ ∅ ∅.

Inductive RowSetRefusal : Type :=
| SelfParent
| WouldCycle (through : string)
| WouldNestHead (member : string) (descendant_count : nat).

(** ** Reading *)

Definition parent_of (s : RowSets) (path : string) : option string := parent s !! path.
Definition members_of (s : RowSets) (path : string) : list string := default [] (members s !! path).
Definition is_head (s : RowSets) (path : string) : bool :=
  match members s !! path with Some (_ :: _) => true | _ => false end.
Definition is_collapsed (s : RowSets) (head : string) : bool := bool_decide (head ∈ collapsed s).

(** The loop of [descendant_count]: [stack] is a [Vec] popped from its end, kept
    here with its end first.  [None] is the loop not having finished. *)
Fixpoint descend (s : RowSets) (fuel : nat) (stack : list string) (seen : gset string)
    (count : nat) : option nat :=
  match fuel with
  | O => None
  | S fuel' =>
    match stack with
    | [] => Some count
    | current :: stack' =>
      if decide (current ∈ seen) then descend s fuel' stack' seen count
      else descend s fuel' (rev (members_of s current) ++ stack') ({[current]} ∪ seen)
                   (count + length (members_of s current))
    end
  end.

(** Every row is pushed at most once per membership entry, plus the start. *)
Definition entries_of (m : gmap string (list string)) : nat :=
  sum_list_with (fun kv => length kv.2) (map_to_list m).

Definition membership_entries (s : RowSets) : nat := entries_of (members s).

Definition descendant_count (s : RowSets) (path : string) : option nat :=
  descend s (membership_entries s + 2) [path] ∅ 0.

(** The ancestor walks.  The guard of the code stops a walk after a fixed number
    of rows; [n] is the number of rows the walk may still visit. *)
Fixpoint find_upward (s : RowSets) (test : string -> bool) (n : nat) (path : string)
    : option string :=
  match n with
  | O => None
  | S n' =>
    if test path then Some path
    else match parent_of s path with
         | Some head => find_upward s test n' head
         | None => None
         end
  end.

Definition first_ancestor_at_or_below (s : RowSets) (from target : string) : option string :=
  find_upward s (fun path => bool_decide (path = target)) (size (parent s) + 2) from.

Definition is_hidden (s : RowSets) (path : string) : bool :=
  match parent_of s path with
  | Some head => is_Some_b (find_upward s (is_collapsed s) (size (parent s) + 1) head)
  | None => false
  end.

Definition drawn_ancestor_exists (s : RowSets) (present : gset string) (path : string) : bool :=
  match parent_of s path with
  | Some head =>
    is_Some_b (find_upward s (fun p => bool_decide (p ∈ present)) (size (parent s) + 1) head)
  | None => false
  end.

(** ** Mutation *)

Definition set_collapsed (s : RowSets) (head : string) (flag : bool) : RowSets :=
  mkRowSets (members s) (parent s)
    (if flag then {[head]} ∪ collapsed s else collapsed s ∖ {[head]}).

Definition detach (s : RowSets) (member : string) : RowSets :=
  match parent s !! member with
  | None => s
  | Some head =>
    let parent' := delete member (parent s) in
    match members s !! head with
    | None => mkRowSets (members s) parent' (collapsed s)
    | Some slot =>
      match filter (fun path => path <> member) slot with
      | [] => mkRowSets (delete head (members s)) parent' (collapsed s ∖ {[head]})
      | slot' => mkRowSets (<[head := slot']> (members s)) parent' (collapsed s)
      end
    end
  end.

(** Appends, or inserts at [index] clamped to the length. *)
Definition attach_at (s : RowSets) (head member : string) (index : option nat) : RowSets :=
  let slot := members_of s head in
  let at_ := match index with Some i => Nat.min i (length slot) | None => length slot end in
  mkRowSets (<[head := vec_insert at_ member slot]> (members s))
            (<[member := head]> (parent s)) (collapsed s).

Definition insert_member_with_children (s : RowSets) (head member : string)
    (index : option nat) (allow_nest : bool) : result RowSets RowSetRefusal :=
  if decide (head = member) then Err SelfParent else
  match first_ancestor_at_or_below s head member with
  | Some through => Err (WouldCycle through)
  | None =>
    let descendants := default 0 (descendant_count s member) in
    if negb allow_nest && (0 <? descendants) then Err (WouldNestHead member descendants)
    else Ok (attach_at (detach s member) head member index)
  end.

Definition insert_member (s : RowSets) (head member : string) (index : option nat)
    : result RowSets RowSetRefusal :=
  insert_member_with_children s head member index false.

(** [slot.insert((at + offset).min(slot.len()), member)] for each promoted member. *)
Fixpoint insert_promoted (slot : list string) (at_ : nat) (promoted : list string) : list string :=
  match promoted with
  | [] => slot
  | member :: promoted' =>
    insert_promoted (vec_insert (Nat.min at_ (length slot)) member slot) (S at_) promoted'
  end.

(** [None] is the panic of [Vec::remove] on an empty vector. *)
Definition dissolve (s : RowSets) (head : string) : option (list string * RowSets) :=
  let promoted := members_of s head in
  let members1 := delete head (members s) in
  let collapsed1 := collapsed s ∖ {[head]} in
  let parent1 := foldr delete (delete head (parent s)) promoted in
  match parent s !! head with
  | None => Some (promoted, mkRowSets members1 parent1 collapsed1)
  | Some grandparent =>
    match members1 !! grandparent with
    | None => Some (promoted, mkRowSets members1 parent1 collapsed1)
    | Some [] => None
    | Some slot =>
      let at_ := default (length slot) (position (fun path => bool_decide (path = head)) slot) in
      let slot' := insert_promoted (vec_remove (Nat.min at_ (length slot - 1)) slot) at_ promoted in
      let parent2 := foldr (fun member => insert member grandparent) parent1 promoted in
      match slot' with
      | [] => Some (promoted, mkRowSets (delete grandparent members1) parent2
                                        (collapsed1 ∖ {[grandparent]}))
      | _ => Some (promoted, mkRowSets (<[grandparent := slot']> members1) parent2 collapsed1)
      end
    end
  end.

Definition sort_members_by_key (leb : string -> string -> bool) (s : RowSets) : RowSets :=
  mkRowSets (stable_sort leb <$> members s) (parent s) (collapsed s).

Section retain_live.
(** The iteration order of a [HashMap] or [HashSet]. *)
Context (iter : gset string -> list string).

Definition dissolve_all (s : RowSets) (heads : list string) : option RowSets :=
  foldl (fun acc head => acc ≫= fun s' => snd <$> dissolve s' head) (Some s) heads.

(** Returns the new state and whether anything changed. *)
Definition retain_live (s : RowSets) (live : gset string) : option (RowSets * bool) :=
  let departed_heads := filter (fun head => head ∉ live) (iter (dom (members s))) in
  s1 ← dissolve_all s departed_heads;
  let departed_members := filter (fun member => member ∉ live) (iter (dom (parent s1))) in
  let s2 := foldl detach s1 departed_members in
  let stale := filter (fun head => head ∉ dom (members s2)) (iter (collapsed s2)) in
  let s3 := mkRowSets (members s2) (parent s2) (collapsed s2 ∖ list_to_set stale) in
  Some (s3, negb (bool_decide (departed_heads = []))
            || negb (bool_decide (departed_members = []))
            || negb (bool_decide (stale = []))).
End retain_live.

(** ** Loading: [From<RowSetsWire>], over the entries in iteration order *)

Definition load_member (head : string) (acc : gmap string string * list string)
    (member : string) : gmap string string * list string :=
  let '(parent, kept) := acc in
  if decide (member <> head /\ parent !! member = None)
  then (<[member := head]> parent, kept ++ [member])
  else acc.

Definition load_entry (acc : gmap string string * gmap string (list string))
    (entry : string * list string) : gmap string string * gmap string (list string) :=
  let '(parent, ms) := acc in
  let '(head, slot) := entry in
  let '(parent', kept) := foldl (load_member head) (parent, []) slot in
  (parent', match kept with [] => ms | _ => <[head := kept]> ms end).

Definition from_wire (wire_members : list (string * list string)) (wire_collapsed : gset string)
    : RowSets :=
  let '(parent, ms) := foldl load_entry (∅, ∅) wire_members in
  mkRowSets ms parent (filter (fun head => head ∈ dom ms) wire_collapsed).

(** ** Drawing *)

(** [out] and [seen] are threaded through the recursion.  [fuel] bounds its depth. *)
Fixpoint push_visible (s : RowSets) (fuel : nat) (depth : nat)
    (acc : list (string * nat) * gset string) (path : string)
    : list (string * nat) * gset string :=
  match fuel with
  | O => acc
  | S fuel' =>
    let '(out, seen) := acc in
    if decide (path ∈ seen) then acc else
    let acc' := (out ++ [(path, depth)], {[path]} ∪ seen) in
    if is_collapsed s path then acc'
    else foldl (push_visible s fuel' (S depth)) acc' (members_of s path)
  end.

(** A nested call sits below distinct heads, so this depth is never exceeded. *)
Definition draw_fuel (s : RowSets) : nat := size (members s) + 2.

Definition visible_rows (s : RowSets) (top_level : list string) : list (string * nat) :=
  let present : gset string := list_to_set top_level in
  fst (foldl (fun acc path =>
         if drawn_ancestor_exists s present path then acc
         else push_visible s (draw_fuel s) 0 acc path) ([], ∅) top_level).

(** The specification of drawing: a row, then, unless it is shut, what its members
    draw, one level deeper.  No [seen] set: on a forest none is needed. *)
Fixpoint draw (s : RowSets) (fuel : nat) (depth : nat) (path : string) : list (string * nat) :=
  match fuel with
  | O => []
  | S fuel' =>
    (path, depth) :: (if is_collapsed s path then []
                      else flat_map (draw s fuel' (S depth)) (members_of s path))
  end.

(** ** Well-formedness *)

(** [x] is held, directly, by [y]. *)
Definition under (s : RowSets) (x y : string) : Prop := parent s !! x = Some y.

(** [a] is [p] or one of its ancestors. *)
Definition above (s : RowSets) (p a : string) : Prop := rtc (under s) p a.

Record wf (s : RowSets) : Prop := {
  wf_parent : forall m h, parent s !! m = Some h <-> m ∈ members_of s h;
  wf_nonempty : forall h, members s !! h <> Some [];
  wf_nodup : forall h, NoDup (members_of s h);
  wf_rank : exists rank : string -> nat, forall m h, under s m h -> rank h < rank m;
}.

Lemma members_of_None s h : members s !! h = None -> members_of s h = [].
Proof. unfold members_of. by intros ->. Qed.

Lemma members_of_Some s h l : members s !! h = Some l -> members_of s h = l.
Proof. unfold members_of. by intros ->. Qed.

Lemma wf_members s h : wf s -> members_of s h = [] <-> members s !! h = None.
Proof.
  intros Hs. unfold members_of. pose proof (wf_nonempty s Hs h).
  destruct (members s !! h); simpl; naive_solver.
Qed.

Lemma is_head_spec s h : is_head s h = true <-> members_of s h <> [].
Proof. unfold is_head, members_of. destruct (members s !! h) as [[|]|]; simpl; naive_solver. Qed.

Lemma rs_empty_wf : wf rs_empty.
Proof.
  split; intros.
  - unfold members_of. cbn. rewrite !lookup_empty. simpl. set_solver.
  - cbn. by rewrite lookup_empty.
  - unfold members_of. cbn. rewrite lookup_empty. constructor.
  - exists (fun _ => 0). intros m h H. unfold under in H. cbn in H. by rewrite lookup_empty in H.
Qed.

Lemma rtc_trans {A} (R : relation A) x y z : rtc R x y -> rtc R y z -> rtc R x z.
Proof. intros. by etrans. Qed.

(** ** Ancestor walks *)

Lemma above_rank s (rank : string -> nat) :
  (forall m h, under s m h -> rank h < rank m) ->
  forall p a, above s p a -> rank a <= rank p.
Proof. intros Hr p a. induction 1 as [|p q a Hpq _ IH]; [lia|]. specialize (Hr _ _ Hpq). lia. Qed.

Lemma find_upward_Some s test n p a :
  find_upward s test n p = Some a -> above s p a /\ test a = true.
Proof.
  revert p. induction n as [|n IH]; intros p; simpl; [done|].
  destruct (test p) eqn:Ht; [intros [= <-]; split; [constructor|done]|].
  unfold parent_of. destruct (parent s !! p) as [h|] eqn:Hp; [|done].
  intros [??]%IH. split; [by eapply rtc_l|done].
Qed.

Lemma find_upward_long s test n p (rank : string -> nat) :
  (forall m h, under s m h -> rank h < rank m) ->
  find_upward s test n p = None ->
  (forall a, above s p a -> test a = false) \/
  exists l, length l = n /\ NoDup l /\ forall x, x ∈ l -> x ∈ dom (parent s) /\ rank x <= rank p.
Proof.
  intros Hr. revert p. induction n as [|n IH]; intros p; simpl.
  - intros _. right. exists []. split; [done|]. split; [constructor|]. intros x Hx.
    by apply elem_of_nil in Hx.
  - destruct (test p) eqn:Ht; [done|]. unfold parent_of.
    destruct (parent s !! p) as [h|] eqn:Hp.
    + intros Hnone. pose proof (Hr _ _ Hp) as Hlt.
      destruct (IH h Hnone) as [Hall|(l&Hlen&Hnd&Hl)].
      * left. intros a Ha. inversion Ha as [|? y ? Hy Hya]; subst; [done|].
        unfold under in Hy. assert (y = h) as -> by congruence. by apply Hall.
      * right. exists (p :: l). split; [simpl; lia|]. split.
        -- constructor; [|done]. intros Hin. destruct (Hl p Hin). lia.
        -- intros x Hx. apply elem_of_cons in Hx as [->|Hx].
           ++ split; [by apply elem_of_dom_2 in Hp|done].
           ++ destruct (Hl x Hx). split; [done|lia].
    + intros _. left. intros a Ha. inversion Ha as [|? y ? Hy Hya]; subst; [done|].
      unfold under in Hy. congruence.
Qed.

(** The guards are long enough: on a well-formed state a walk that finds nothing
    has tested every ancestor. *)
Lemma find_upward_None s test n p :
  wf s -> size (parent s) < n ->
  find_upward s test n p = None <-> (forall a, above s p a -> test a = false).
Proof.
  intros Hs Hn. destruct (wf_rank s Hs) as [rank Hr]. split.
  - intros H. destruct (find_upward_long s test n p rank Hr H) as [?|(l&Hlen&Hnd&Hl)]; [done|].
    exfalso. assert (list_to_set l ⊆@{gset string} dom (parent s)) as Hsub.
    { intros x Hx. apply elem_of_list_to_set in Hx. by apply Hl. }
    apply subseteq_size in Hsub. rewrite size_list_to_set, size_dom in Hsub by done. lia.
  - intros H. destruct (find_upward s test n p) as [a|] eqn:Ha; [|done].
    apply find_upward_Some in Ha as [? Ht]. rewrite H in Ht; done.
Qed.

Lemma find_upward_is_Some s test n p :
  wf s -> size (parent s) < n ->
  is_Some_b (find_upward s test n p) = true <-> exists a, above s p a /\ test a = true.
Proof.
  intros Hs Hn. destruct (find_upward s test n p) as [a|] eqn:Ha; simpl.
  - apply find_upward_Some in Ha. naive_solver.
  - rewrite find_upward_None in Ha by done. split; [done|]. intros (a&Hab&Ht).
    specialize (Ha a Hab). congruence.
Qed.

Lemma first_ancestor_None s from target :
  wf s -> first_ancestor_at_or_below s from target = None <-> ~ above s from target.
Proof.
  intros Hs. unfold first_ancestor_at_or_below. rewrite find_upward_None by (done || lia). split.
  - intros H Ha. specialize (H _ Ha). by rewrite bool_decide_eq_true_2 in H.
  - intros H a Ha. apply bool_decide_eq_false. by intros ->.
Qed.

(** ** [descendant_count] terminates and is zero exactly on a row without members *)

Lemma entries_of_delete m k l :
  m !! k = Some l -> entries_of m = length l + entries_of (delete k m).
Proof. intros H. unfold entries_of. by rewrite <- (map_to_list_delete m k l H). Qed.

Lemma descend_total s fuel : forall stack seen count (m : gmap string (list string)),
  (forall k, k ∉ seen -> m !! k = members s !! k) ->
  length stack + entries_of m < fuel ->
  exists n, descend s fuel stack seen count = Some n /\ count <= n.
Proof.
  induction fuel as [|fuel IH]; intros stack seen count m Hm Hf; [lia|].
  destruct stack as [|current stack]; simpl; [eauto|]. simpl in Hf.
  case_decide as Hseen; [eapply IH; [done|lia]|].
  destruct (members s !! current) as [l|] eqn:Hl.
  - rewrite (members_of_Some _ _ _ Hl).
    assert (m !! current = Some l) as Hml by (rewrite Hm; done).
    rewrite (entries_of_delete _ _ _ Hml) in Hf.
    destruct (IH (rev l ++ stack) ({[current]} ∪ seen) (count + length l) (delete current m))
      as (n&Hn&?).
    + intros k Hk. rewrite lookup_delete_ne by set_solver. apply Hm. set_solver.
    + rewrite length_app, length_rev. lia.
    + exists n. split; [done|lia].
  - rewrite (members_of_None _ _ Hl). simpl. rewrite Nat.add_0_r. apply (IH _ _ _ m); [|lia].
    intros k Hk. apply Hm. set_solver.
Qed.

Lemma descendant_count_total s path :
  exists n, descendant_count s path = Some n /\ (0 < n <-> members_of s path <> []).
Proof.
  unfold descendant_count, membership_entries. set (e := entries_of (members s)).
  replace (e + 2) with (S (S e)) by lia.
  change (descend s (S (S e)) [path] ∅ 0)
    with (if decide (path ∈ (∅ : gset string)) then descend s (S e) [] ∅ 0
          else descend s (S e) (rev (members_of s path) ++ []) ({[path]} ∪ ∅)
                 (0 + length (members_of s path))).
  rewrite decide_False by set_solver. rewrite app_nil_r.
  destruct (members s !! path) as [l|] eqn:Hl.
  - rewrite (members_of_Some _ _ _ Hl).
    destruct (descend_total s (S e) (rev l) ({[path]} ∪ ∅) (0 + length l)
                (delete path (members s))) as (n&Hn&Hle).
    + intros k Hk. rewrite lookup_delete_ne by set_solver. done.
    + rewrite length_rev. unfold e. rewrite (entries_of_delete _ _ _ Hl). lia.
    + exists n. split; [done|]. split; [|destruct l; simpl in *; [done|lia]].
      intros Hn0. destruct l; [|done].
      assert (e = length (A:=string) [] + entries_of (delete path (members s))) as He
        by (unfold e; by rewrite (entries_of_delete _ _ _ Hl)). simpl in *.
      injection Hn as <-. lia.
  - rewrite (members_of_None _ _ Hl). exists 0. simpl. split; [done|]. split; [lia|done].
Qed.

(** ** [detach] *)

Lemma detach_parent s m : parent (detach s m) = delete m (parent s).
Proof.
  unfold detach. destruct (parent s !! m) as [h|] eqn:Hm; [|by rewrite delete_id].
  destruct (members s !! h) as [slot|]; [|done]. by destruct (filter _ slot).
Qed.

Lemma detach_members s m h :
  wf s -> members (detach s m) !! h
          = match filter (fun x => x <> m) (members_of s h) with [] => None | l => Some l end.
Proof.
  intros Hs. unfold detach. destruct (parent s !! m) as [h0|] eqn:Hm.
  - pose proof (proj1 (wf_parent s Hs m h0) Hm) as Hin. unfold members_of in Hin.
    destruct (members s !! h0) as [slot|] eqn:Hslot; [|by apply elem_of_nil in Hin].
    destruct (decide (h = h0)) as [->|Hne].
    + rewrite (members_of_Some _ _ _ Hslot).
      destruct (filter _ slot); cbn; by rewrite ?lookup_delete_eq, ?lookup_insert_eq.
    + assert (filter (fun x => x <> m) (members_of s h) = members_of s h) as ->.
      { apply list_filter_all. intros x Hx ->. apply (wf_parent s Hs) in Hx. congruence. }
      pose proof (wf_nonempty s Hs h).
      destruct (filter _ slot); cbn; rewrite ?lookup_delete_ne, ?lookup_insert_ne by done;
        unfold members_of; destruct (members s !! h) as [[|]|]; done.
  - assert (filter (fun x => x <> m) (members_of s h) = members_of s h) as ->.
    { apply list_filter_all. intros x Hx ->. apply (wf_parent s Hs) in Hx. congruence. }
    pose proof (wf_nonempty s Hs h).
    unfold members_of; destruct (members s !! h) as [[|]|]; done.
Qed.

Lemma detach_members_of s m h :
  wf s -> members_of (detach s m) h = filter (fun x => x <> m) (members_of s h).
Proof.
  intros Hs. unfold members_of at 1. rewrite detach_members by done.
  by destruct (filter _ (members_of s h)).
Qed.

Lemma detach_wf s m : wf s -> wf (detach s m).
Proof.
  intros Hs. split.
  - intros x h. rewrite detach_parent, detach_members_of, list_elem_of_filter by done.
    rewrite <- (wf_parent s Hs), lookup_delete. case_decide; naive_solver.
  - intros h. rewrite detach_members by done. by destruct (filter _ _).
  - intros h. rewrite detach_members_of by done. apply NoDup_filter, (wf_nodup s Hs).
  - destruct (wf_rank s Hs) as [rank Hr]. exists rank. intros x h. unfold under.
    rewrite detach_parent, lookup_delete. case_decide; [done|]. apply Hr.
Qed.

Lemma detach_collapsed s m : collapsed (detach s m) ⊆ collapsed s.
Proof.
  unfold detach. repeat case_match; cbn; set_solver.
Qed.

(** ** [insert_member] *)

Lemma attach_at_members_of s head m i h :
  members_of (attach_at s head m i) h
  = if decide (h = head)
    then vec_insert (match i with Some i => Nat.min i (length (members_of s head))
                             | None => length (members_of s head) end) m (members_of s head)
    else members_of s h.
Proof.
  unfold attach_at, members_of at 1. cbn. rewrite lookup_insert.
  destruct (decide (head = h)) as [->|]; [by rewrite decide_True|by rewrite decide_False by done].
Qed.

Lemma above_dec s p a : wf s -> {above s p a} + {~ above s p a}.
Proof.
  intros Hs. destruct (first_ancestor_at_or_below s p a) as [b|] eqn:H.
  - left. pose proof H as H'. unfold first_ancestor_at_or_below in H'.
    apply find_upward_Some in H' as [Hab ->%bool_decide_eq_true]. done.
  - right. by apply first_ancestor_None in H.
Qed.

Lemma under_fun s x y z : under s x y -> under s x z -> y = z.
Proof. unfold under. congruence. Qed.

Lemma above_comparable s x a b : above s x a -> above s x b -> above s a b \/ above s b a.
Proof.
  intros Ha. revert b. induction Ha as [x|x y a Hxy Hya IH]; intros b Hb; [by left|].
  inversion Hb as [|? y' ? Hxy' Hy'b]; subst.
  - right. by eapply rtc_l.
  - rewrite (under_fun _ _ _ _ Hxy' Hxy) in Hy'b. by apply IH.
Qed.

Lemma attach_at_wf s head m i :
  wf s -> parent s !! m = None -> head <> m -> ~ above s head m -> wf (attach_at s head m i).
Proof.
  intros Hs Hm Hne Hcycle.
  assert (forall h, m ∉ members_of s h) as Hfree.
  { intros h Hin. apply (wf_parent s Hs) in Hin. congruence. }
  split.
  - intros x h. rewrite attach_at_members_of. cbn. rewrite lookup_insert.
    case_decide; subst; case_decide; subst.
    + unfold vec_insert. rewrite elem_of_app, elem_of_cons. naive_solver.
    + split; [naive_solver|]. intros Hin. exfalso. by eapply Hfree.
    + rewrite vec_insert_perm, elem_of_cons, <- (wf_parent s Hs). naive_solver.
    + apply (wf_parent s Hs).
  - intros h. unfold attach_at. cbn. rewrite lookup_insert. case_decide; [|apply (wf_nonempty s Hs)].
    intros [= Hnil]. unfold vec_insert in Hnil. by destruct (take _ _).
  - intros h. rewrite attach_at_members_of. case_decide; [|apply (wf_nodup s Hs)].
    rewrite vec_insert_perm. constructor; [apply Hfree|apply (wf_nodup s Hs)].
  - destruct (wf_rank s Hs) as [rank Hr].
    exists (fun x => if above_dec s x m Hs then rank x + rank head + 1 else rank x).
    intros x h. unfold under. cbn. rewrite lookup_insert. case_decide; intros Hx.
    + injection Hx as <-. subst x.
      destruct (above_dec s head m Hs); [done|].
      destruct (above_dec s m m Hs) as [|Hn]; [lia|]. destruct Hn. constructor.
    + pose proof (Hr _ _ Hx).
      destruct (above_dec s h m Hs) as [Hh|Hh], (above_dec s x m Hs) as [Hxm|Hxm]; try lia.
      destruct Hxm. by eapply rtc_l.
Qed.

Lemma detach_above s m p a : above (detach s m) p a -> above s p a.
Proof.
  induction 1 as [|x y z Hxy _ IH]; [constructor|]. eapply rtc_l; [|done].
  unfold under in *. rewrite detach_parent, lookup_delete in Hxy. by case_decide.
Qed.

Lemma attach_detach_ok s head member index :
  wf s -> head <> member -> ~ above s head member ->
  let s' := attach_at (detach s member) head member index in
  wf s' /\ parent s' = <[member := head]> (parent s)
  /\ members_of s' member = members_of s member.
Proof.
  intros Hs Hne Hanc. cbn zeta. split_and!.
  - apply attach_at_wf; auto using detach_wf.
    + rewrite detach_parent. apply lookup_delete_eq.
    + by intros ?%detach_above.
  - unfold attach_at. cbn. by rewrite detach_parent, insert_delete_eq.
  - rewrite attach_at_members_of, decide_False by done. rewrite detach_members_of by done.
    apply list_filter_all. intros x Hx ->. apply (wf_parent s Hs) in Hx.
    destruct (wf_rank s Hs) as [rank Hr]. specialize (Hr _ _ Hx). lia.
Qed.

(** The complete account of [insert_member_with_children]: each refusal fires
    exactly on its condition, and a success leaves a well-formed relation in which
    [member] sits under [head] and no other row changed its head. *)
Lemma insert_member_spec s head member index allow :
  wf s ->
  match insert_member_with_children s head member index allow with
  | Err SelfParent => head = member
  | Err (WouldCycle through) => head <> member /\ through = member /\ above s head member
  | Err (WouldNestHead m n) =>
      head <> member /\ ~ above s head member /\ allow = false
      /\ m = member /\ members_of s member <> [] /\ descendant_count s member = Some n
  | Ok s' =>
      head <> member /\ ~ above s head member
      /\ (allow = true \/ members_of s member = [])
      /\ wf s' /\ parent s' = <[member := head]> (parent s)
      /\ members_of s' member = members_of s member
  end.
Proof.
  intros Hs. unfold insert_member_with_children. case_decide as Hne; [done|].
  destruct (first_ancestor_at_or_below s head member) as [t|] eqn:Hanc.
  { pose proof Hanc as H. unfold first_ancestor_at_or_below in H.
    apply find_upward_Some in H as [Hab ->%bool_decide_eq_true]. done. }
  apply first_ancestor_None in Hanc; [|done].
  destruct (descendant_count_total s member) as (n&Hn&Hpos). rewrite Hn.
  change (default 0 (Some n)) with n.
  pose proof (attach_detach_ok s head member index Hs Hne Hanc) as Hok.
  destruct allow; cbn [negb andb]; [naive_solver|].
  destruct (Nat.ltb_spec 0 n).
  - split_and!; auto. by apply Hpos.
  - repeat (split; [done|]). split; [|done]. right.
    destruct (members_of s member); [done|]. assert (0 < n) by by apply Hpos. lia.
Qed.

(** ** [dissolve] *)

Lemma insert_promoted_spec slot at_ promoted :
  at_ <= length slot ->
  insert_promoted slot at_ promoted = take at_ slot ++ promoted ++ drop at_ slot.
Proof.
  revert slot at_. induction promoted as [|m promoted IH]; intros slot at_ Hat; simpl.
  - by rewrite take_drop.
  - rewrite Nat.min_l by done. unfold vec_insert.
    rewrite IH by (rewrite length_app; simpl; rewrite length_take, length_drop; lia).
    rewrite take_app_ge, drop_app_ge by (rewrite length_take; lia).
    rewrite length_take, Nat.min_l by lia.
    replace (S at_ - at_) with 1 by lia. simpl. rewrite drop_0.
    by rewrite <- app_assoc.
Qed.

Lemma lookup_foldr_delete_dec (m : gmap string string) l x :
  foldr delete m l !! x = if decide (x ∈ l) then None else m !! x.
Proof.
  induction l as [|y l IH]; cbn [foldr]; [case_decide; set_solver|].
  rewrite lookup_delete, IH. repeat case_decide; set_solver.
Qed.

Lemma lookup_foldr_insert_dec (m : gmap string string) (l : list string) g x :
  foldr (fun y => insert y g) m l !! x = if decide (x ∈ l) then Some g else m !! x.
Proof.
  induction l as [|y l IH]; cbn [foldr]; [case_decide; set_solver|].
  rewrite lookup_insert, IH. repeat case_decide; set_solver.
Qed.

Lemma position_of_elem x (l : list string) :
  x ∈ l -> exists i, position (fun p => bool_decide (p = x)) l = Some i /\ l !! i = Some x.
Proof.
  intros Hx. destruct (position _ l) as [i|] eqn:Hp.
  - exists i. split; [done|]. apply position_Some in Hp as (y&Hi&->%bool_decide_eq_true&_). done.
  - rewrite position_None, Forall_forall in Hp. specialize (Hp x Hx).
    by rewrite bool_decide_eq_true_2 in Hp.
Qed.

Lemma not_self_member s h : wf s -> h ∉ members_of s h.
Proof.
  intros Hs Hin. apply (wf_parent s Hs) in Hin. destruct (wf_rank s Hs) as [rank Hr].
  specialize (Hr _ _ Hin). lia.
Qed.

(** [head] at position [i] is replaced by its members, in order. *)
Definition splice (slot : list string) (i : nat) (promoted : list string) : list string :=
  take i slot ++ promoted ++ drop (S i) slot.

Lemma insert_promoted_splice slot i promoted :
  i < length slot ->
  insert_promoted (vec_remove (Nat.min i (length slot - 1)) slot) i promoted
  = splice slot i promoted.
Proof.
  intros Hlt. rewrite Nat.min_l by lia. rewrite insert_promoted_spec.
  2:{ unfold vec_remove. rewrite length_app, length_take, length_drop. lia. }
  unfold vec_remove, splice. f_equal.
  - rewrite take_app_le by (rewrite length_take; lia). by rewrite take_take, Nat.min_id.
  - f_equal. rewrite drop_app_ge by (rewrite length_take; lia).
    by rewrite length_take, Nat.min_l, Nat.sub_diag, drop_0 by lia.
Qed.

(** The state of a dissolved [head] that was held by [g] at position [i]. *)
Definition dissolved_into (s : RowSets) (head g : string) (i : nat) : RowSets :=
  let parent2 := foldr (fun member => insert member g)
                   (foldr delete (delete head (parent s)) (members_of s head))
                   (members_of s head) in
  match splice (members_of s g) i (members_of s head) with
  | [] => mkRowSets (delete g (delete head (members s))) parent2
                    (collapsed s ∖ {[head]} ∖ {[g]})
  | slot' => mkRowSets (<[g := slot']> (delete head (members s))) parent2
                       (collapsed s ∖ {[head]})
  end.

Definition dissolved_loose (s : RowSets) (head : string) : RowSets :=
  mkRowSets (delete head (members s))
            (foldr delete (delete head (parent s)) (members_of s head))
            (collapsed s ∖ {[head]}).

(** Under the invariant [dissolve] never panics and takes one of two shapes. *)
Lemma dissolve_shape s head :
  wf s ->
  match parent s !! head with
  | None => dissolve s head = Some (members_of s head, dissolved_loose s head)
  | Some g => exists i, members_of s g !! i = Some head /\ g <> head
      /\ dissolve s head = Some (members_of s head, dissolved_into s head g i)
  end.
Proof.
  intros Hs. unfold dissolve. destruct (parent s !! head) as [g|] eqn:Hg; [|done].
  pose proof (proj1 (wf_parent s Hs _ _) Hg) as Hin.
  assert (g <> head) as Hgh by (intros ->; by apply (not_self_member s head)).
  destruct (members s !! g) as [slot|] eqn:Hslot.
  2:{ rewrite (members_of_None _ _ Hslot) in Hin. by apply elem_of_nil in Hin. }
  rewrite lookup_delete_ne, Hslot by done. unfold dissolved_into.
  rewrite (members_of_Some _ _ _ Hslot) in *.
  destruct (position_of_elem _ _ Hin) as (i&Hi&Hlook). exists i. split; [done|]. split; [done|].
  rewrite <- insert_promoted_splice by (by eapply lookup_lt_Some).
  destruct slot as [|s0 slot]; [by apply elem_of_nil in Hin|]. rewrite Hi.
  change (default (length (s0 :: slot)) (Some i)) with i. by destruct (insert_promoted _ _ _).
Qed.

Lemma dissolved_into_parent s head g i x :
  wf s -> parent (dissolved_into s head g i) !! x
  = if decide (x = head) then None
    else if decide (x ∈ members_of s head) then Some g else parent s !! x.
Proof.
  intros Hs. unfold dissolved_into. destruct (splice _ _ _); cbn;
  rewrite lookup_foldr_insert_dec, lookup_foldr_delete_dec, lookup_delete;
  pose proof (not_self_member s head Hs); repeat case_decide; subst; done.
Qed.

Lemma dissolved_loose_parent s head x :
  wf s -> parent (dissolved_loose s head) !! x
  = if decide (x = head) then None
    else if decide (x ∈ members_of s head) then None else parent s !! x.
Proof.
  intros Hs. unfold dissolved_loose. cbn.
  rewrite lookup_foldr_delete_dec, lookup_delete. repeat case_decide; subst; done.
Qed.

Lemma dissolved_into_members_of s head g i h :
  members_of (dissolved_into s head g i) h
  = if decide (h = g) then splice (members_of s g) i (members_of s head)
    else if decide (h = head) then [] else members_of s h.
Proof.
  unfold dissolved_into. destruct (splice _ _ _); unfold members_of; cbn;
    rewrite ?lookup_insert, !lookup_delete; repeat case_decide; subst; done.
Qed.

Lemma dissolved_loose_members_of s head h :
  members_of (dissolved_loose s head) h = if decide (h = head) then [] else members_of s h.
Proof.
  unfold dissolved_loose, members_of. cbn. rewrite lookup_delete. repeat case_decide; subst; done.
Qed.

Lemma elem_of_splice slot i head promoted x :
  slot !! i = Some head -> NoDup slot ->
  x ∈ splice slot i promoted <-> x ∈ promoted \/ (x ∈ slot /\ x <> head).
Proof.
  intros Hi Hnd. pose proof (take_drop_middle slot i head Hi) as Heq. rewrite <- Heq in Hnd.
  apply NoDup_app in Hnd as (_&Hdis&Hnd). apply NoDup_cons in Hnd as [Hnin _].
  unfold splice. rewrite <- Heq at 3. rewrite !elem_of_app, elem_of_cons.
  destruct (decide (x = head)) as [->|]; [|naive_solver].
  specialize (Hdis head). set_solver.
Qed.

Lemma NoDup_splice slot i head promoted :
  slot !! i = Some head -> NoDup slot -> NoDup promoted ->
  (forall x, x ∈ promoted -> x ∉ slot) -> NoDup (splice slot i promoted).
Proof.
  intros Hi Hnd Hp Hdis. pose proof (take_drop_middle slot i head Hi) as Heq.
  rewrite <- Heq in Hnd. unfold splice.
  assert (promoted ++ take i slot ++ drop (S i) slot ≡ₚ
          take i slot ++ promoted ++ drop (S i) slot) as <- by apply Permutation_app_swap_app.
  apply NoDup_app in Hnd as (Ht&Htd&Hd). apply NoDup_cons in Hd as [_ Hd].
  apply NoDup_app. split; [done|]. split.
  - intros x Hx Hx'. apply (Hdis x Hx). rewrite <- Heq. set_solver.
  - apply NoDup_app. split; [done|]. split; [|done]. intros x Hx. specialize (Htd x Hx). set_solver.
Qed.

Lemma dissolved_nonempty s head :
  wf s -> forall h, (members (dissolved_loose s head) !! h <> Some [])
                    /\ forall g i, members (dissolved_into s head g i) !! h <> Some [].
Proof.
  intros Hs h. split; [|intros g i; unfold dissolved_into; destruct (splice _ _ _)]; cbn;
    rewrite ?lookup_insert, !lookup_delete; repeat case_decide; try done; apply (wf_nonempty s Hs).
Qed.

Lemma dissolve_wf s head :
  wf s -> exists s', dissolve s head = Some (members_of s head, s') /\ wf s'.
Proof.
  intros Hs. pose proof (dissolve_shape s head Hs) as Hshape.
  destruct (wf_rank s Hs) as [rank Hr].
  destruct (parent s !! head) as [g|] eqn:Hg.
  - destruct Hshape as (i&Hi&Hgh&->). eexists. split; [done|].
    assert (forall x, x ∈ members_of s head -> x ∉ members_of s g) as Hdis.
    { intros x H1%(wf_parent s Hs) H2%(wf_parent s Hs). congruence. }
    split.
    + intros x h. rewrite dissolved_into_parent, dissolved_into_members_of by done.
      destruct (decide (h = g)) as [->|Hhg].
      * rewrite (elem_of_splice _ _ head) by (done || apply (wf_nodup s Hs)).
        pose proof (not_self_member s head Hs). rewrite <- (wf_parent s Hs _ g).
        repeat case_decide; naive_solver.
      * pose proof (wf_parent s Hs head h). pose proof (wf_parent s Hs x head).
        pose proof (wf_parent s Hs x h).
        repeat case_decide; subst; rewrite ?elem_of_nil; try naive_solver; congruence.
    + intros h. by apply dissolved_nonempty.
    + intros h. rewrite dissolved_into_members_of. repeat case_decide; try apply (wf_nodup s Hs).
      * eapply NoDup_splice; eauto using wf_nodup.
      * constructor.
    + exists rank. intros x h. unfold under. rewrite dissolved_into_parent by done.
      repeat case_decide; [done| |apply Hr]. intros [= <-].
      assert (under s x head) as Hx by (by apply (wf_parent s Hs)).
      pose proof (Hr _ _ Hx). pose proof (Hr _ _ Hg). lia.
  - rewrite Hshape. eexists. split; [done|]. split.
    + intros x h. rewrite dissolved_loose_parent, dissolved_loose_members_of by done.
      pose proof (wf_parent s Hs x head). pose proof (wf_parent s Hs head h).
      pose proof (wf_parent s Hs x h).
      repeat case_decide; subst; rewrite ?elem_of_nil; try naive_solver; congruence.
    + intros h. by apply dissolved_nonempty.
    + intros h. rewrite dissolved_loose_members_of. case_decide; [constructor|apply (wf_nodup s Hs)].
    + exists rank. intros x h. unfold under. rewrite dissolved_loose_parent by done.
      repeat case_decide; try done. apply Hr.
Qed.

(** ** [retain_live] *)

Lemma dissolve_dom s head l s' :
  wf s -> dissolve s head = Some (l, s') -> dom (members s') ⊆ dom (members s) ∖ {[head]}.
Proof.
  intros Hs H. pose proof (dissolve_shape s head Hs) as Hshape.
  destruct (parent s !! head) as [g|] eqn:Hg.
  - destruct Hshape as (i&Hi&Hgh&Heq). rewrite Heq in H. injection H as _ <-.
    unfold dissolved_into. destruct (splice _ _ _); cbn; rewrite ?dom_insert_L, !dom_delete_L;
      [set_solver|].
    assert (g ∈ dom (members s)); [|set_solver].
    apply elem_of_dom. destruct (members s !! g) eqn:Hl; [done|].
    rewrite (members_of_None _ _ Hl) in Hi. done.
  - rewrite Hshape in H. injection H as _ <-. cbn. by rewrite dom_delete_L.
Qed.

Lemma dissolve_all_wf s heads :
  wf s -> exists s', dissolve_all s heads = Some s' /\ wf s'
    /\ forall h, h ∈ dom (members s') -> h ∈ dom (members s) /\ h ∉ heads.
Proof.
  unfold dissolve_all. revert s. induction heads as [|h heads IH]; intros s Hs; simpl.
  - exists s. split; [done|]. split; [done|]. set_solver.
  - destruct (dissolve_wf s h Hs) as (s1&Hd&Hs1). rewrite Hd. simpl.
    destruct (IH s1 Hs1) as (s'&Heq&Hs'&Hdom). exists s'. split; [done|]. split; [done|].
    intros x Hx. destruct (Hdom x Hx) as [Hx1 ?].
    pose proof (dissolve_dom _ _ _ _ Hs Hd x Hx1). set_solver.
Qed.

Lemma detach_all_wf s ms :
  wf s -> wf (foldl detach s ms)
    /\ (forall x, parent (foldl detach s ms) !! x
                  = if decide (x ∈ ms) then None else parent s !! x).
Proof.
  revert s. induction ms as [|m ms IH]; intros s Hs; cbn [foldl].
  - split; [done|]. intros x. case_decide; [set_solver|done].
  - destruct (IH (detach s m) (detach_wf s m Hs)) as [Hw Hp]. split; [done|].
    intros x. rewrite Hp, detach_parent, lookup_delete. repeat case_decide; set_solver.
Qed.

Lemma collapsed_irrelevant s c : wf s -> wf (mkRowSets (members s) (parent s) c).
Proof. intros []. by split. Qed.

Lemma wf_key_member s h : wf s -> h ∈ dom (members s) -> exists x, under s x h.
Proof.
  intros Hs [l Hl]%elem_of_dom. pose proof (wf_nonempty s Hs h).
  destruct l as [|x l]; [congruence|]. exists x. apply (wf_parent s Hs).
  rewrite (members_of_Some _ _ _ Hl). left.
Qed.

Section retain_live_spec.
Context (iter : gset string -> list string).
Context (iter_perm : forall X, iter X ≡ₚ elements X).

Lemma retain_live_total s live :
  wf s ->
  exists s' changed, retain_live iter s live = Some (s', changed) /\ wf s'
    /\ (forall m h, under s' m h -> m ∈ live /\ h ∈ live)
    /\ collapsed s' ⊆ dom (members s').
Proof using iter_perm.
  intros Hs. unfold retain_live.
  destruct (dissolve_all_wf s (filter (fun h => h ∉ live) (iter (dom (members s)))) Hs)
    as (s1&->&Hs1&Hdom). cbn [mbind option_bind].
  set (deps := filter (fun m => m ∉ live) (iter (dom (parent s1)))).
  destruct (detach_all_wf s1 deps Hs1) as [Hs2 Hp2].
  set (s2 := foldl detach s1 deps) in *.
  set (stale := filter (fun h => h ∉ dom (members s2)) (iter (collapsed s2))).
  eexists _, _. split; [done|]. cbn. split; [by apply collapsed_irrelevant|].
  assert (forall h, h ∈ dom (members s1) -> h ∈ live) as Hheads.
  { intros h Hh. destruct (Hdom h Hh) as [H1 H2]. destruct (decide (h ∈ live)); [done|].
    destruct H2. apply list_elem_of_filter. split; [done|]. by rewrite iter_perm, elem_of_elements. }
  split.
  - intros m h. unfold under. cbn. rewrite Hp2. case_decide as Hm; [done|]. intros Hmh. split.
    + destruct (decide (m ∈ live)); [done|]. destruct Hm. apply list_elem_of_filter.
      split; [done|]. rewrite iter_perm, elem_of_elements. by apply elem_of_dom_2 in Hmh.
    + apply Hheads. apply (wf_parent s1 Hs1) in Hmh. apply elem_of_dom.
      destruct (members s1 !! h) eqn:Hl; [done|]. rewrite (members_of_None _ _ Hl) in Hmh.
      by apply elem_of_nil in Hmh.
  - intros h Hh. apply elem_of_difference in Hh as [Hc Hns]. destruct (decide (h ∈ dom (members s2)));
      [done|]. destruct Hns. apply elem_of_list_to_set, list_elem_of_filter.
    split; [done|]. by rewrite iter_perm, elem_of_elements.
Qed.

(** Reporting "nothing changed" is truthful: the caller that skips its persist
    has lost nothing. *)
Lemma retain_live_unchanged s live s' :
  wf s -> retain_live iter s live = Some (s', false) -> s' = s.
Proof.
  intros Hs. unfold retain_live. 
  destruct (filter _ (iter (dom (members s)))) as [|h hs]; cbn; [|by destruct (foldl _ _ _)].
  destruct (filter _ (iter (dom (parent s)))) as [|m ms]; cbn; [|done].
  destruct (filter _ (iter (collapsed s))) as [|c cs]; cbn; [|done].
  intros [= <-]. destruct s as [a b c]. cbn. f_equal. set_solver.
Qed.
End retain_live_spec.

(** ** [sort_members_by_key] *)

Lemma sort_members_members_of leb s h :
  members_of (sort_members_by_key leb s) h = stable_sort leb (members_of s h).
Proof.
  unfold members_of, sort_members_by_key. cbn. rewrite lookup_fmap. by destruct (members s !! h).
Qed.

Lemma sort_members_wf leb s : wf s -> wf (sort_members_by_key leb s).
Proof.
  intros Hs. split.
  - intros m h. rewrite sort_members_members_of, elem_of_stable_sort. apply (wf_parent s Hs).
  - intros h. cbn. rewrite lookup_fmap. pose proof (wf_nonempty s Hs h).
    destruct (members s !! h) as [l|]; [|done]. cbn. intros [= Hnil].
    apply (f_equal length) in Hnil. rewrite length_stable_sort in Hnil. destruct l; done.
  - intros h. rewrite sort_members_members_of, stable_sort_perm. apply (wf_nodup s Hs).
  - apply (wf_rank s Hs).
Qed.

(** ** States reachable through the mutators *)

Inductive rs_step : RowSets -> RowSets -> Prop :=
| step_insert s head member index allow s' :
    insert_member_with_children s head member index allow = Ok s' -> rs_step s s'
| step_detach s member : rs_step s (detach s member)
| step_dissolve s head l s' : dissolve s head = Some (l, s') -> rs_step s s'
| step_collapse s head flag : rs_step s (set_collapsed s head flag)
| step_sort s leb : rs_step s (sort_members_by_key leb s)
| step_retain iter s live s' changed :
    (forall X, iter X ≡ₚ elements X) ->
    retain_live iter s live = Some (s', changed) -> rs_step s s'.

Lemma rs_step_wf s s' : rs_step s s' -> wf s -> wf s'.
Proof.
  intros Hstep Hs. destruct Hstep.
  - pose proof (insert_member_spec s head member index allow Hs) as Hspec.
    rewrite H in Hspec. naive_solver.
  - by apply detach_wf.
  - destruct (dissolve_wf s head Hs) as (s1&Hd&?). congruence.
  - by apply collapsed_irrelevant.
  - by apply sort_members_wf.
  - destruct (retain_live_total iter H s live Hs) as (?&?&?&?&_). congruence.
Qed.

#[export] Hint Resolve rs_empty_wf detach_wf sort_members_wf collapsed_irrelevant rs_step_wf : ygg.

(** ** Drawing *)

Lemma fst_flat_map {B} (f : string -> list (string * B)) l :
  (flat_map f l).*1 = flat_map (fun x => (f x).*1) l.
Proof. induction l as [|x l IH]; simpl; [done|]. by rewrite fmap_app, IH. Qed.

Lemma elem_of_flat_map {A B} (f : A -> list B) l y :
  y ∈ flat_map f l <-> exists x, x ∈ l /\ y ∈ f x.
Proof.
  induction l as [|x l IH]; simpl; [set_solver|]. rewrite elem_of_app, IH. set_solver.
Qed.

Lemma NoDup_flat_map {A B} (f : A -> list B) l :
  NoDup l -> (forall x, x ∈ l -> NoDup (f x)) ->
  (forall x y z, x ∈ l -> y ∈ l -> z ∈ f x -> z ∈ f y -> x = y) ->
  NoDup (flat_map f l).
Proof.
  induction 1 as [|x l Hx Hnd IH]; intros Hf Hdis; simpl; [constructor|].
  apply NoDup_app. split; [apply Hf; left|]. split.
  - intros z Hz (y&Hy&Hzy)%elem_of_flat_map.
    assert (x = y) as -> by (eapply Hdis; eauto; [left|by right]). done.
  - apply IH; [intros; apply Hf; by right|]. intros ????? . apply Hdis; by right.
Qed.

Lemma draw_above s fuel : forall d p x, wf s -> x ∈ (draw s fuel d p).*1 -> above s x p.
Proof.
  induction fuel as [|fuel IH]; intros d p x Hs; simpl; [set_solver|].
  rewrite elem_of_cons. intros [->|Hx]; [constructor|].
  destruct (is_collapsed s p); simpl in Hx; [set_solver|].
  rewrite fst_flat_map, elem_of_flat_map in Hx. destruct Hx as (c&Hc&Hx).
  eapply rtc_trans; [by eapply IH|]. apply rtc_once. by apply (wf_parent s Hs).
Qed.

Lemma above_irrefl s x y : wf s -> under s x y -> ~ above s y x.
Proof.
  intros Hs Hxy Hyx. destruct (wf_rank s Hs) as [rank Hr].
  pose proof (above_rank s rank Hr _ _ Hyx). specialize (Hr _ _ Hxy). lia.
Qed.

Lemma siblings_disjoint s x c1 c2 p :
  wf s -> under s c1 p -> under s c2 p -> above s x c1 -> above s x c2 -> c1 = c2.
Proof.
  intros Hs H1 H2 Hx1 Hx2.
  assert (forall a b, under s a p -> under s b p -> above s a b -> a = b) as Hab.
  { intros a b Ha Hb Hr. inversion Hr as [|? y ? Hy Hyb]; subst; [done|].
    rewrite (under_fun _ _ _ _ Hy Ha) in Hyb. destruct (above_irrefl s b p Hs Hb Hyb). }
  destruct (above_comparable _ _ _ _ Hx1 Hx2); [eauto|symmetry; eauto].
Qed.

Lemma draw_NoDup s fuel : forall d p, wf s -> NoDup (draw s fuel d p).*1.
Proof.
  induction fuel as [|fuel IH]; intros d p Hs; simpl; [constructor|].
  destruct (is_collapsed s p); simpl; [apply NoDup_singleton|]. rewrite fst_flat_map. constructor.
  - intros (c&Hc&Hp)%elem_of_flat_map. apply draw_above in Hp; [|done].
    apply (wf_parent s Hs) in Hc. by apply (above_irrefl s c p).
  - apply NoDup_flat_map; [apply (wf_nodup s Hs)|intros; by apply IH|].
    intros x y z Hx%(wf_parent s Hs) Hy%(wf_parent s Hs) Hzx%draw_above Hzy%draw_above; [|done..].
    by eapply siblings_disjoint.
Qed.

(** The recursion with its [seen] set computes [draw] when nothing it reaches was
    seen before. *)
Lemma foldl_push_visible s fuel d cs :
  (forall out seen c, c ∈ cs -> (forall x, x ∈ (draw s fuel d c).*1 -> x ∉ seen) ->
     push_visible s fuel d (out, seen) c
     = (out ++ draw s fuel d c, list_to_set (draw s fuel d c).*1 ∪ seen)) ->
  NoDup (flat_map (fun c => (draw s fuel d c).*1) cs) ->
  forall out seen,
  (forall x, x ∈ flat_map (fun c => (draw s fuel d c).*1) cs -> x ∉ seen) ->
  foldl (push_visible s fuel d) (out, seen) cs
  = (out ++ flat_map (draw s fuel d) cs,
     list_to_set (flat_map (fun c => (draw s fuel d c).*1) cs) ∪ seen).
Proof.
  induction cs as [|c cs IH]; intros Hpush Hnd out seen Hdis; simpl.
  - rewrite app_nil_r. f_equal. set_solver.
  - simpl in Hnd, Hdis. apply NoDup_app in Hnd as (_&Hcd&Hnd).
    rewrite Hpush; [|left|intros; apply Hdis; set_solver].
    rewrite IH; [| |done|].
    + rewrite <- app_assoc. f_equal. rewrite list_to_set_app_L. set_solver.
    + intros; apply Hpush; [by right|done].
    + intros x Hx. rewrite elem_of_union, elem_of_list_to_set.
      intros [Hx'|Hx']; [by apply (Hcd x)|]. apply (Hdis x); [set_solver|done].
Qed.

Lemma push_visible_draw s fuel : forall d out seen p,
  wf s -> (forall x, x ∈ (draw s fuel d p).*1 -> x ∉ seen) ->
  push_visible s fuel d (out, seen) p
  = (out ++ draw s fuel d p, list_to_set (draw s fuel d p).*1 ∪ seen).
Proof.
  induction fuel as [|fuel IH]; intros d out seen p Hs Hdis; simpl.
  - rewrite app_nil_r. f_equal. set_solver.
  - pose proof (draw_NoDup s (S fuel) d p Hs) as Hnd. simpl in Hdis, Hnd.
    rewrite decide_False by (apply Hdis; left).
    destruct (is_collapsed s p); simpl in *; [f_equal; set_solver|].
    rewrite fst_flat_map in *. apply NoDup_cons in Hnd as [Hp Hnd].
    rewrite foldl_push_visible; [| |done|].
    + rewrite <- app_assoc. f_equal. set_solver.
    + intros; by apply IH.
    + intros x Hx. specialize (Hdis x). set_solver.
Qed.

(** [draw_fuel] is enough: what is drawn is every row reachable from [p] through
    rows that are not shut, however deep. *)
Definition shows (s : RowSets) (p x : string) : Prop :=
  is_collapsed s p = false /\ x ∈ members_of s p.

Lemma draw_shows s fuel : forall d p x, x ∈ (draw s fuel d p).*1 -> rtc (shows s) p x.
Proof.
  induction fuel as [|fuel IH]; intros d p x; simpl; [set_solver|].
  rewrite elem_of_cons. intros [->|Hx]; [constructor|].
  destruct (is_collapsed s p) eqn:Hc; simpl in Hx; [set_solver|].
  rewrite fst_flat_map, elem_of_flat_map in Hx. destruct Hx as (c&Hcm&Hx).
  eapply rtc_l; [by split|]. by eapply IH.
Qed.

Lemma shows_draw s fuel : forall d p x (hs : gset string),
  wf s -> rtc (shows s) p x ->
  (forall a b, rtc (shows s) p a -> shows s a b -> a ∈ hs) -> size hs < fuel ->
  x ∈ (draw s fuel d p).*1.
Proof.
  induction fuel as [|fuel IH]; intros d p x hs Hs Hpx Hhs Hf; [lia|]. simpl.
  inversion Hpx as [|? c ? Hpc Hcx]; subst; [left|]. right.
  destruct Hpc as [Hcol Hc] eqn:Hpc'. rewrite Hcol, fst_flat_map. apply elem_of_flat_map.
  exists c. split; [done|]. apply (IH _ _ _ (hs ∖ {[p]})); [done|done| |].
  - intros a b Hca Hab. apply elem_of_difference. split.
    + eapply Hhs; [|done]. by eapply rtc_l.
    + intros ->%elem_of_singleton. apply (above_irrefl s c p Hs); [by apply (wf_parent s Hs)|].
      clear -Hs Hca. induction Hca as [y|y z w [_ Hz%(wf_parent s Hs)] _ IH]; [constructor|].
      eapply rtc_trans; [exact IH|]. by apply rtc_once.
  - assert (p ∈ hs) by (eapply Hhs; [constructor|by split]).
    rewrite size_difference, size_singleton by set_solver.
    assert (0 < size hs); [|lia]. assert (hs <> ∅) by set_solver.
    destruct (decide (size hs = 0)) as [Hz|]; [|lia].
    apply size_empty_inv in Hz. set_solver.
Qed.

Lemma elem_of_draw s d p x :
  wf s -> x ∈ (draw s (draw_fuel s) d p).*1 <-> rtc (shows s) p x.
Proof.
  intros Hs. split; [apply draw_shows|]. intros Hpx.
  apply (shows_draw s _ d p x (dom (members s))); [done|done| |].
  - intros a b _ [_ Hb]. apply elem_of_dom. destruct (members s !! a) eqn:Ha; [done|].
    rewrite (members_of_None _ _ Ha) in Hb. by apply elem_of_nil in Hb.
  - rewrite size_dom. unfold draw_fuel. lia.
Qed.

(** A row drawn at the top level: none of its ancestors is on this surface. *)
Definition is_root (s : RowSets) (top_level : list string) (path : string) : Prop :=
  drawn_ancestor_exists s (list_to_set top_level) path = false.

#[export] Instance is_root_dec s top p : Decision (is_root s top p).
Proof. unfold is_root. apply _. Defined.

Lemma drawn_ancestor_spec s present p :
  wf s -> drawn_ancestor_exists s present p = true <->
          exists h a, under s p h /\ above s h a /\ a ∈ present.
Proof.
  intros Hs. unfold drawn_ancestor_exists, parent_of.
  destruct (parent s !! p) as [h|] eqn:Hp.
  - rewrite find_upward_is_Some by (done || lia). split.
    + intros (a&Ha&Hin%bool_decide_eq_true). eauto.
    + intros (h'&a&Hh'&Ha&Hin). exists a. rewrite (under_fun _ _ _ _ Hh' Hp) in Ha.
      split; [done|]. by apply bool_decide_eq_true.
  - split; [done|]. intros (h&a&Hh&_). unfold under in Hh. congruence.
Qed.

Lemma roots_disjoint s top r1 r2 x :
  wf s -> r1 ∈ top -> r2 ∈ top -> is_root s top r1 -> is_root s top r2 ->
  above s x r1 -> above s x r2 -> r1 = r2.
Proof.
  intros Hs H1 H2 R1 R2 Hx1 Hx2.
  assert (forall a b, is_root s top a -> b ∈ top -> above s a b -> a = b) as Hab.
  { intros a b Ha Hb Hr. inversion Hr as [|? y ? Hy Hyb]; subst; [done|]. exfalso.
    assert (drawn_ancestor_exists s (list_to_set top) a = true); [|unfold is_root in Ha; congruence].
    apply drawn_ancestor_spec; [done|]. exists y, b. split; [done|]. split; [done|].
    by apply elem_of_list_to_set. }
  destruct (above_comparable _ _ _ _ Hx1 Hx2); [eauto|symmetry; eauto].
Qed.

Lemma foldl_roots s top l acc :
  foldl (fun acc path => if drawn_ancestor_exists s (list_to_set top) path then acc
                         else push_visible s (draw_fuel s) 0 acc path) acc l
  = foldl (push_visible s (draw_fuel s) 0) acc (filter (is_root s top) l).
Proof.
  revert acc. induction l as [|p l IH]; intros acc; simpl; [done|].
  destruct (decide (is_root s top p)) as [Hd|Hd]; unfold is_root in Hd.
  - rewrite filter_cons_True by done. rewrite Hd. apply IH.
  - rewrite filter_cons_False by done. apply not_false_iff_true in Hd. rewrite Hd. apply IH.
Qed.

Lemma visible_rows_draw s top :
  wf s -> NoDup top ->
  visible_rows s top = flat_map (draw s (draw_fuel s) 0) (filter (is_root s top) top)
  /\ NoDup (visible_rows s top).*1.
Proof.
  intros Hs Hnd.
  assert (NoDup (flat_map (fun c => (draw s (draw_fuel s) 0 c).*1) (filter (is_root s top) top)))
    as Hflat.
  { apply NoDup_flat_map; [by apply NoDup_filter|intros; by apply draw_NoDup|].
    intros x y z [Rx Hx]%list_elem_of_filter [Ry Hy]%list_elem_of_filter
      Hzx%draw_above Hzy%draw_above; [|done..].
    by eapply (roots_disjoint s top x y z). }
  assert (visible_rows s top = flat_map (draw s (draw_fuel s) 0) (filter (is_root s top) top)) as Heq.
  { unfold visible_rows. rewrite foldl_roots.
    rewrite foldl_push_visible; [done| |done|set_solver].
    intros; by apply push_visible_draw. }
  split; [done|]. by rewrite Heq, fst_flat_map.
Qed.

Lemma root_above s top p :
  wf s -> p ∈ top -> exists r, r ∈ top /\ is_root s top r /\ above s p r.
Proof.
  intros Hs. destruct (wf_rank s Hs) as [rank Hr].
  remember (rank p) as n eqn:Hn. revert p Hn. induction (lt_wf n) as [n _ IH]. intros p -> Hp.
  destruct (drawn_ancestor_exists s (list_to_set top) p) eqn:Hd.
  - apply drawn_ancestor_spec in Hd as (h&a&Hph&Hha&Hin); [|done].
    apply elem_of_list_to_set in Hin.
    pose proof (Hr _ _ Hph). pose proof (above_rank s rank Hr _ _ Hha).
    destruct (IH (rank a) ltac:(lia) a eq_refl Hin) as (r&?&?&?).
    exists r. split_and!; [done|done|]. eapply rtc_trans; [|done]. by eapply rtc_l.
  - exists p. split_and!; [done|done|constructor].
Qed.

Lemma is_hidden_spec s p :
  wf s -> is_hidden s p = false <->
          forall h a, under s p h -> above s h a -> is_collapsed s a = false.
Proof.
  intros Hs. unfold is_hidden, parent_of. destruct (parent s !! p) as [h|] eqn:Hp.
  - rewrite <- not_true_iff_false, find_upward_is_Some by (done || lia). split.
    + intros Hn h' a Hh' Ha. rewrite (under_fun _ _ _ _ Hh' Hp) in Ha.
      destruct (is_collapsed s a) eqn:?; [|done]. destruct Hn. eauto.
    + intros H (a&Ha&Hc). rewrite (H h a) in Hc; done.
  - split; [|done]. intros _ h a Hh. unfold under in Hh. congruence.
Qed.

Lemma above_shows s p r :
  wf s -> above s p r ->
  (forall h a, under s p h -> above s h a -> is_collapsed s a = false) -> rtc (shows s) r p.
Proof.
  intros Hs Hpr. induction Hpr as [p|p h r Hph Hhr IH]; intros Hopen; [constructor|].
  eapply rtc_r.
  - apply IH. intros h' a Hh' Ha. eapply Hopen; [exact Hph|]. by eapply rtc_l.
  - split; [|by apply (wf_parent s Hs)]. eapply Hopen; [exact Hph|constructor].
Qed.

(** A small arrangement for the examples: [6.0] heads [6.1], which heads [6.1.1]. *)
Definition demo : RowSets :=
  attach_at (attach_at rs_empty "6.1" "6.1.1" None) "6.0" "6.1" None.

Lemma demo_wf : wf demo.
Proof.
  assert (wf (attach_at rs_empty "6.1" "6.1.1" None)) as H1.
  { apply attach_at_wf; [apply rs_empty_wf|done|done|].
    by apply first_ancestor_None; [apply rs_empty_wf|vm_compute]. }
  apply attach_at_wf; [done|by vm_compute|done|].
  by apply first_ancestor_None; [done|vm_compute].
Qed.

(** ** The properties *)

(** C1: The row-set invariant: every state reached through the mutators (insert,
    detach, dissolve, collapse, sort, retain) has one parent per member, member
    lists that are non-empty, duplicate-free and agree with the parent index, and
    no containment cycle. *)
Theorem row_sets_invariant s :
  rtc rs_step rs_empty s -> wf s.
Proof.
  intros H. pattern s. eapply (rtc_ind_r _ rs_empty); [apply rs_empty_wf| |exact H].
  intros x y _ Hxy Hx. by eapply rs_step_wf.
Qed.

Lemma row_sets_invariant_witness :
  exists s, insert_member rs_empty "a" "b" None = Ok s /\ wf s.
Proof.
  eexists. split; [vm_compute; reflexivity|]. apply row_sets_invariant.
  apply rtc_once. eapply (step_insert rs_empty "a" "b" None false). vm_compute. reflexivity.
Defined.

(** Inserting a member decides exactly: it refuses a row as its own head, a
    head that already sits beneath the member (the only way to a cycle), and,
    unless nesting is allowed, a member that heads a set; otherwise the member
    ends under the head, keeps its own members, and no other row changes head. *)
Theorem insert_member_decides s head member index allow :
  wf s ->
  match insert_member_with_children s head member index allow with
  | Err SelfParent => head = member
  | Err (WouldCycle through) => head <> member /\ through = member /\ above s head member
  | Err (WouldNestHead m n) =>
      head <> member /\ ~ above s head member /\ allow = false
      /\ m = member /\ members_of s member <> [] /\ descendant_count s member = Some n
  | Ok s' =>
      head <> member /\ ~ above s head member
      /\ (allow = true \/ members_of s member = [])
      /\ wf s' /\ parent s' = <[member := head]> (parent s)
      /\ members_of s' member = members_of s member
  end.
Proof. apply insert_member_spec. Qed.

Lemma insert_member_decides_witness :
  match insert_member_with_children demo "6.1.1" "6.0" None true with
  | Err SelfParent => "6.1.1" = "6.0"
  | Err (WouldCycle through) => "6.1.1" <> "6.0" /\ through = "6.0" /\ above demo "6.1.1" "6.0"
  | Err (WouldNestHead m n) =>
      "6.1.1" <> "6.0" /\ ~ above demo "6.1.1" "6.0" /\ true = false
      /\ m = "6.0" /\ members_of demo "6.0" <> [] /\ descendant_count demo "6.0" = Some n
  | Ok s' =>
      "6.1.1" <> "6.0" /\ ~ above demo "6.1.1" "6.0"
      /\ (true = true \/ members_of demo "6.0" = [])
      /\ wf s' /\ parent s' = <["6.0" := "6.1.1"]> (parent demo)
      /\ members_of s' "6.0" = members_of demo "6.0"
  end.
Proof. apply (insert_member_decides demo "6.1.1" "6.0" None true demo_wf). Defined.

(** Dissolving a head of a well-formed relation never panics and promotes its
    members in order: they stand where the head stood in the set that held it, or
    become top level when nothing held it. *)
Theorem dissolve_promotes s head :
  wf s ->
  exists s', dissolve s head = Some (members_of s head, s') /\ wf s' /\ members_of s' head = []
    /\ match parent s !! head with
       | Some g => exists i, members_of s g !! i = Some head
                   /\ members_of s' g = splice (members_of s g) i (members_of s head)
       | None => forall m, m ∈ members_of s head -> parent s' !! m = None
       end.
Proof.
  intros Hs. destruct (dissolve_wf s head Hs) as (s'&Hd&Hs'). exists s'.
  split; [done|]. split; [done|]. pose proof (dissolve_shape s head Hs) as Hshape.
  destruct (parent s !! head) as [g|].
  - destruct Hshape as (i&Hi&Hne&Heq). rewrite Heq in Hd. injection Hd as <-. split.
    + rewrite dissolved_into_members_of, decide_False, decide_True; done.
    + exists i. split; [done|]. by rewrite dissolved_into_members_of, decide_True.
  - rewrite Hshape in Hd. injection Hd as <-. split.
    + by rewrite dissolved_loose_members_of, decide_True.
    + intros m Hm. rewrite dissolved_loose_parent by done.
      repeat case_decide; done.
Qed.

Lemma dissolve_promotes_witness :
  exists s', dissolve demo "6.1" = Some (members_of demo "6.1", s') /\ wf s'
    /\ members_of s' "6.1" = []
    /\ match parent demo !! "6.1" with
       | Some g => exists i, members_of demo g !! i = Some "6.1"
                   /\ members_of s' g = splice (members_of demo g) i (members_of demo "6.1")
       | None => forall m, m ∈ members_of demo "6.1" -> parent s' !! m = None
       end.
Proof. apply (dissolve_promotes demo "6.1" demo_wf). Defined.

(** Reconciling against the live rows always succeeds, whatever the iteration
    order of the hash maps, and leaves a well-formed relation that mentions live
    rows only and no stale collapse flag. *)
Theorem retain_live_correct iter s live :
  (forall X, iter X ≡ₚ elements X) -> wf s ->
  exists s' changed, retain_live iter s live = Some (s', changed) /\ wf s'
    /\ (forall m h, under s' m h -> m ∈ live /\ h ∈ live)
    /\ collapsed s' ⊆ dom (members s')
    /\ (changed = false -> s' = s).
Proof.
  intros Hiter Hs. destruct (retain_live_total iter Hiter s live Hs) as (s'&ch&Heq&?&?&?).
  exists s', ch. split_and!; try done. intros ->. by eapply retain_live_unchanged.
Qed.

Lemma retain_live_correct_witness :
  exists s' changed, retain_live elements demo {["6.1"]} = Some (s', changed) /\ wf s'
    /\ (forall m h, under s' m h -> m ∈ ({["6.1"]} : gset string) /\ h ∈ ({["6.1"]} : gset string))
    /\ collapsed s' ⊆ dom (members s')
    /\ (changed = false -> s' = demo).
Proof. apply (retain_live_correct elements demo {["6.1"]} (fun X => reflexivity _) demo_wf). Defined.

(** C33: Drawing the sidebar is the forest traversal: each row that has no drawn
    ancestor draws itself and, unless shut, its members in order one level deeper;
    no row is drawn twice, and no row of the surface disappears unless one of its
    ancestors is collapsed. *)
Theorem visible_rows_correct s top_level :
  wf s -> NoDup top_level ->
  visible_rows s top_level
    = flat_map (draw s (draw_fuel s) 0) (filter (is_root s top_level) top_level)
  /\ NoDup (visible_rows s top_level).*1
  /\ (forall p, p ∈ top_level -> is_hidden s p = false -> p ∈ (visible_rows s top_level).*1).
Proof.
  intros Hs Hnd. destruct (visible_rows_draw s top_level Hs Hnd) as [Heq Hnd'].
  split; [done|]. split; [done|]. intros p Hp Hh.
  destruct (root_above s top_level p Hs Hp) as (r&Hr&Hroot&Hpr).
  rewrite Heq, fst_flat_map. apply elem_of_flat_map. exists r.
  split; [by apply list_elem_of_filter|]. apply elem_of_draw; [done|].
  apply above_shows; [done|done|]. by apply is_hidden_spec.
Qed.

Lemma visible_rows_correct_witness :
  visible_rows demo ["6.0"; "6.1.1"]
    = flat_map (draw demo (draw_fuel demo) 0) (filter (is_root demo ["6.0"; "6.1.1"]) ["6.0"; "6.1.1"])
  /\ NoDup (visible_rows demo ["6.0"; "6.1.1"]).*1
  /\ (forall p, p ∈ ["6.0"; "6.1.1"] -> is_hidden demo p = false ->
        p ∈ (visible_rows demo ["6.0"; "6.1.1"]).*1).
Proof.
  apply (visible_rows_correct demo ["6.0"; "6.1.1"] demo_wf). by apply (bool_decide_unpack _).
Defined.

(** The loader drops duplicate parents but not cycles: two rows that a stored
    arrangement names as each other's head are loaded that way, and a sidebar
    holding exactly those two live rows draws nothing. *)
Theorem loaded_cycle_hides_rows :
  let s := from_wire [("a", ["b"]); ("b", ["a"])] ∅ in
  parent s !! "a" = Some "b" /\ parent s !! "b" = Some "a"
  /\ is_hidden s "a" = false /\ is_hidden s "b" = false
  /\ visible_rows s ["a"; "b"] = [].
Proof. vm_compute. repeat split. Qed.
