(* ===== verification/RowSetOutline.v ===== *)
(** The arrangement the sidebar draws (core/row_set_outline.rs): what the user arranged by
    hand, completed by what the outline seats imply. *)
From S2P Require Import Prelude RustStr SessionOutline RowSet.
#[local] Open Scope nat_scope.

(** ** The user's own arrangement *)

Record RowArrangement : Type := mkArrangement {
  sets : RowSets;
  detached : gset string
}.

Definition no_arrangement : RowArrangement := mkArrangement rs_empty ∅.

Definition answered (a : RowArrangement) (path : string) : bool :=
  is_Some_b (parent_of (sets a) path) || bool_decide (path ∈ detached a).

Definition attach_with_children (a : RowArrangement) (head member : string)
    (index : option nat) (allow_nest : bool) : result RowArrangement RowSetRefusal :=
  match insert_member_with_children (sets a) head member index allow_nest with
  | Ok s => Ok (mkArrangement s (detached a ∖ {[member]}))
  | Err e => Err e
  end.

Definition attach (a : RowArrangement) (head member : string) (index : option nat)
    : result RowArrangement RowSetRefusal := attach_with_children a head member index false.

Definition detach_row (a : RowArrangement) (member : string) : RowArrangement :=
  mkArrangement (detach (sets a) member) ({[member]} ∪ detached a).

Definition clear (a : RowArrangement) (member : string) : RowArrangement :=
  mkArrangement (detach (sets a) member) (detached a ∖ {[member]}).

Definition arrangement_retain_live (iter : gset string -> list string) (a : RowArrangement)
    (live : gset string) : option (RowArrangement * bool) :=
  '(s, changed) ← retain_live iter (sets a) live;
  let departed := filter (fun path => path ∉ live) (iter (detached a)) in
  Some (mkArrangement s (detached a ∖ list_to_set departed),
        changed || negb (bool_decide (departed = []))).

(** ** Seats *)

Definition Row : Type := string * option string.

Definition head_seat_candidates (segments : list N) : list (list N) :=
  if length segments <? 2 then []
  else
    let parent := take (length segments - 1) segments in
    let level_head := parent ++ [0%N] in
    if decide (level_head = segments) then [parent] else [level_head; parent].

Fixpoint seated (rows : list Row) : list (string * list N) :=
  match rows with
  | [] => []
  | (path, prefix) :: rows' =>
    match parse_outline_key prefix with
    | Numbered segments => (path, segments) :: seated rows'
    | Unnumbered => seated rows'
    end
  end.

(** [entry(segments).or_insert(path)]. *)
Definition or_insert (m : gmap (list N) string) (row : string * list N) : gmap (list N) string :=
  match m !! row.2 with Some _ => m | None => <[row.2 := row.1]> m end.

Definition head_by_seat (rows : list (string * list N)) : gmap (list N) string :=
  foldl or_insert ∅ rows.

Fixpoint first_head (heads : gmap (list N) string) (path : string) (candidates : list (list N))
    : option string :=
  match candidates with
  | [] => None
  | candidate :: rest =>
    match heads !! candidate with
    | Some head => if decide (head = path) then first_head heads path rest else Some head
    | None => first_head heads path rest
    end
  end.

Definition seat_step (arrangement : RowArrangement) (heads : gmap (list N) string)
    (s : RowSets) (row : string * list N) : RowSets :=
  let '(path, segments) := row in
  if answered arrangement path then s
  else match first_head heads path (head_seat_candidates segments) with
       | None => s
       | Some head => match insert_member s head path None with Ok s' => s' | Err _ => s end
       end.

Definition outline_row_sets_with (rows : list Row) (arrangement : RowArrangement) : RowSets :=
  let seated_rows := seated rows in
  foldl (seat_step arrangement (head_by_seat seated_rows)) (sets arrangement) seated_rows.

Definition outline_row_sets (rows : list Row) : RowSets :=
  outline_row_sets_with rows no_arrangement.

(** Collecting into a map keeps the last value of a key. *)
Definition seat_of (rows : list Row) : gmap string OutlineKey :=
  foldl (fun m row => <[row.1 := parse_outline_key row.2]> m) ∅ rows.

Definition member_key (rows : list Row) (member : string) : OutlineKey :=
  default Unnumbered (seat_of rows !! member).

Definition shut (s : RowSets) (head : string) : RowSets :=
  if is_head s head then set_collapsed s head true else s.

Definition sidebar_row_sets (rows : list Row) (arrangement : RowArrangement)
    (collapsed_heads : list string) : RowSets :=
  let s := outline_row_sets_with rows arrangement in
  let s := sort_members_by_key
             (fun x y => outline_leb (member_key rows x) (member_key rows y)) s in
  foldl shut s collapsed_heads.

(** * Lemmas *)

(** The head a seat asks for: the row of the first candidate seat that another row holds. *)
Definition seat_head (rows : list (string * list N)) (row : string * list N) : option string :=
  first_head (head_by_seat rows) row.1 (head_seat_candidates row.2).

Lemma segments_leb_app p a b :
  segments_leb (p ++ a) (p ++ b) = segments_leb a b.
Proof. induction p as [|x p IH]; [done|]. simpl. by rewrite N.ltb_irrefl. Qed.

Lemma head_seat_below segments c :
  c ∈ head_seat_candidates segments -> segments_leb c segments = true /\ c <> segments.
Proof.
  unfold head_seat_candidates. destruct (Nat.ltb_spec (length segments) 2); [set_solver|].
  destruct (exists_last (l := segments)) as (parent & k & ->);
    [intros ->; simpl in *; lia|].
  rewrite length_app, Nat.add_sub, take_app_length. intros Hc.
  assert (segments_leb parent (parent ++ [k]) = true /\ parent <> parent ++ [k]) as [Hp1 Hp2].
  { split; [apply segments_prefix_leb, segments_prefix_spec; by eexists|].
    intros Heq%(f_equal length). rewrite length_app in Heq. simpl in Heq. lia. }
  case_decide as Hd; [apply list_elem_of_singleton in Hc as ->; done|].
  apply elem_of_cons in Hc as [->| ->%list_elem_of_singleton]; [|done].
  split; [|done]. rewrite segments_leb_app. simpl.
  destruct (N.ltb_spec 0 k); [done|]. destruct (N.ltb_spec k 0); [lia|done].
Qed.

Lemma or_insert_lookup m row seat :
  or_insert m row !! seat
  = match m !! seat with Some p => Some p | None => if decide (row.2 = seat) then Some row.1 else None end.
Proof.
  unfold or_insert. destruct (m !! row.2) as [p|] eqn:E.
  - destruct (m !! seat) eqn:E'; [done|]. case_decide; [congruence|done].
  - rewrite lookup_insert. case_decide; subst; [by rewrite E|]. by destruct (m !! seat).
Qed.

Lemma head_by_seat_In rows seat p :
  head_by_seat rows !! seat = Some p -> (p, seat) ∈ rows.
Proof.
  unfold head_by_seat.
  enough (forall m, foldl or_insert m rows !! seat = Some p -> m !! seat = Some p \/ (p, seat) ∈ rows)
    as H by (intros Hl; destruct (H ∅ Hl) as [H'|?]; [by rewrite lookup_empty in H'|done]).
  induction rows as [|[q s] rows IH]; intros m; cbn [foldl]; [auto|].
  intros [H|H]%IH; [|right; by right]. rewrite or_insert_lookup in H.
  destruct (m !! seat); [by left|]. case_decide; [|done]. simpl in *. subst. injection H as ->.
  right. left.
Qed.

Lemma first_head_Some heads path candidates h :
  first_head heads path candidates = Some h ->
  h <> path /\ exists c, c ∈ candidates /\ heads !! c = Some h.
Proof.
  induction candidates as [|c cs IH]; cbn; [done|].
  destruct (heads !! c) as [q|] eqn:E; [case_decide|].
  - intros [? (c'&?&?)]%IH. split; [done|]. exists c'. split; [by right|done].
  - intros [= ->]. split; [done|]. exists c. split; [left|done].
  - intros [? (c'&?&?)]%IH. split; [done|]. exists c'. split; [by right|done].
Qed.

(** The head a seat asks for is another row, whose own seat is strictly before. *)
Lemma seat_head_before rows row h :
  seat_head rows row = Some h ->
  h <> row.1 /\ exists c, (h, c) ∈ rows /\ segments_leb c row.2 = true /\ c <> row.2.
Proof.
  intros [? (c & Hc & Hl)]%first_head_Some. split; [done|]. exists c.
  split; [by apply head_by_seat_In|]. by apply head_seat_below.
Qed.

(** ** One pass over the seats *)

Lemma seat_step_spec arr rows s row :
  wf s ->
  let s' := seat_step arr (head_by_seat rows) s row in
  wf s' /\ (parent s' = parent s
            \/ answered arr row.1 = false
               /\ exists h, seat_head rows row = Some h /\ parent s' = <[row.1 := h]> (parent s)).
Proof.
  intros Hs. destruct row as [p seg]. cbn [seat_step fst]. destruct (answered arr p) eqn:Ha; [auto|].
  destruct (first_head _ p _) as [h|] eqn:Hh; [|auto].
  pose proof (insert_member_spec s h p None false Hs) as Hspec. unfold insert_member.
  destruct (insert_member_with_children s h p None false) as [s'|e]; [|auto].
  destruct Hspec as (?&?&?&?&Hp&_). split; [done|]. right. split; [done|]. exists h. done.
Qed.

Record seat_inv (arr : RowArrangement) (rows : list (string * list N)) (s : RowSets) : Prop := {
  inv_wf : wf s;
  inv_answered : forall m, answered arr m = true -> parent s !! m = parent (sets arr) !! m;
  inv_edge : forall m h, parent s !! m = Some h ->
    parent (sets arr) !! m = Some h
    \/ answered arr m = false /\ exists seg, (m, seg) ∈ rows /\ seat_head rows (m, seg) = Some h
}.

Lemma seat_fold_inv arr rows l s :
  (forall x, x ∈ l -> x ∈ rows) -> seat_inv arr rows s ->
  seat_inv arr rows (foldl (seat_step arr (head_by_seat rows)) s l).
Proof.
  revert s. induction l as [|[p seg] l IH]; intros s Hsub Hinv; [done|]. cbn [foldl].
  apply IH; [intros; apply Hsub; by right|].
  destruct (seat_step_spec arr rows s (p, seg) (inv_wf _ _ _ Hinv)) as [Hwf [Heq|(Ha&h&Hh&Heq)]].
  - split; [done|..]; intros; rewrite Heq in *; by apply Hinv.
  - cbn [fst] in *. split; [done|..].
    + intros m Hm. rewrite Heq, lookup_insert_ne by congruence. by apply Hinv.
    + intros m h'. rewrite Heq, lookup_insert. case_decide as Hm; [|by apply Hinv].
      subst m. intros [= <-]. right. split; [done|]. exists seg. split; [apply Hsub; left|done].
Qed.

Lemma outline_inv rows arr :
  wf (sets arr) -> seat_inv arr (seated rows) (outline_row_sets_with rows arr).
Proof.
  intros Hs. apply seat_fold_inv; [done|]. split; [done|done|]. intros; by left.
Qed.

(** ** Sorting and shutting change no edge *)

Lemma shut_parent s hs : parent (foldl shut s hs) = parent s.
Proof.
  revert s. induction hs as [|h hs IH]; intros s; [done|]. cbn [foldl]. rewrite IH.
  unfold shut. by destruct (is_head s h).
Qed.

Lemma shut_members s hs : members (foldl shut s hs) = members s.
Proof.
  revert s. induction hs as [|h hs IH]; intros s; [done|]. cbn [foldl]. rewrite IH.
  unfold shut. by destruct (is_head s h).
Qed.

Lemma shut_wf s hs : wf s -> wf (foldl shut s hs).
Proof.
  revert s. induction hs as [|h hs IH]; intros s Hs; [done|]. cbn [foldl]. apply IH.
  unfold shut. destruct (is_head s h); [|done]. by apply collapsed_irrelevant.
Qed.

Lemma shut_collapsed s hs h :
  h ∈ collapsed (foldl shut s hs) <-> h ∈ collapsed s \/ (h ∈ hs /\ is_head s h = true).
Proof.
  revert s. induction hs as [|x hs IH]; intros s; cbn [foldl]; [set_solver|].
  rewrite IH. unfold shut. destruct (is_head s x) eqn:E; cbn.
  - unfold is_head at 1. cbn. fold (is_head s h). set_solver.
  - split; [set_solver|]. intros [?|[[->|?]%elem_of_cons ?]]; [by left|congruence|by right].
Qed.

(** ** In outline order nothing is refused *)

Definition seat_leb (a b : string * list N) : Prop := segments_leb a.2 b.2 = true.

Lemma path_row_unique (rows : list (string * list N)) p a b :
  NoDup rows.*1 -> (p, a) ∈ rows -> (p, b) ∈ rows -> a = b.
Proof.
  intros Hnd [i Hi]%list_elem_of_lookup [j Hj]%list_elem_of_lookup.
  assert (i = j) as ->.
  { eapply NoDup_lookup; [exact Hnd| |]; rewrite list_lookup_fmap; [by rewrite Hi|by rewrite Hj]. }
  congruence.
Qed.

Lemma sorted_seats_fold rows done_ l s :
  NoDup rows.*1 -> StronglySorted seat_leb rows -> rows = done_ ++ l -> wf s ->
  (forall m h, parent s !! m = Some h <-> exists seg, (m, seg) ∈ done_ /\ seat_head rows (m, seg) = Some h) ->
  let s' := foldl (seat_step no_arrangement (head_by_seat rows)) s l in
  forall m h, parent s' !! m = Some h <-> exists seg, (m, seg) ∈ rows /\ seat_head rows (m, seg) = Some h.
Proof.
  intros Hnd Hsorted. revert done_ s. induction l as [|[p seg] l IH]; intros done_ s Heq Hwf Hinv.
  { rewrite app_nil_r in Heq. subst. exact Hinv. }
  cbn [foldl]. assert ((p, seg) ∈ rows) as Hin by (rewrite Heq; set_solver).
  (* no row processed so far names [p] as its head *)
  assert (forall y, parent s !! y <> Some p) as Hnohead.
  { intros y (sg & Hy & Hh)%Hinv. apply seat_head_before in Hh as (_ & c & Hc & Hle & Hne).
    assert (c = seg) as -> by by eapply path_row_unique. simpl in *.
    apply Hne, segments_leb_antisym; [done|]. rewrite Heq in Hsorted.
    apply StronglySorted_app_1_elem_of with (x1 := (y, sg)) (x2 := (p, seg)) in Hsorted;
      [done|done|left]. }
  apply (IH (done_ ++ [(p, seg)])); [by rewrite <- app_assoc| |].
  - by apply (seat_step_spec no_arrangement rows s (p, seg)).
  - assert (forall sg, (p, sg) ∈ done_ -> False) as Hfresh.
    { intros sg Hsg. rewrite Heq, fmap_app in Hnd. apply NoDup_app in Hnd as (_ & Hd & _).
      apply (Hd p); [apply list_elem_of_fmap; by exists (p, sg)|left]. }
    intros m h. cbn [seat_step]. change (answered no_arrangement p) with false. cbn iota beta.
    unfold seat_head in *. cbn [fst snd] in *.
    destruct (first_head _ p _) as [h0|] eqn:Hh0.
    + assert (exists s', insert_member s h0 p None = Ok s' /\ parent s' = <[p := h0]> (parent s))
        as (s' & -> & ->).
      { pose proof (insert_member_spec s h0 p None false Hwf) as Hspec.
        unfold insert_member. destruct (insert_member_with_children s h0 p None false) as [s'|[]].
        - exists s'. naive_solver.
        - apply first_head_Some in Hh0 as [? _]. congruence.
        - destruct Hspec as (Hne & -> & Hab). exfalso.
          apply rtc_inv_r in Hab as [->|(y & _ & Hy)]; [done|]. by apply (Hnohead y).
        - destruct Hspec as (_ & _ & _ & -> & Hm & _). exfalso.
          destruct (members_of s p) as [|y ys] eqn:E; [done|].
          apply (Hnohead y), (wf_parent s Hwf). rewrite E. left. }
      rewrite lookup_insert. case_decide as Hpm.
      * subst m. split.
        -- intros [= <-]. exists seg. split; [set_solver|done].
        -- intros (sg & Hsg & Hh). apply elem_of_app in Hsg as [Hsg|Hsg]; [by destruct (Hfresh sg)|].
           apply list_elem_of_singleton in Hsg as [= ->]. congruence.
      * rewrite Hinv. split; intros (sg & Hsg & Hh); exists sg; (split; [|done]); set_solver.
    + rewrite Hinv. split; intros (sg & Hsg & Hh); exists sg; (split; [|done]); [set_solver|].
      apply elem_of_app in Hsg as [Hsg|Hsg]; [done|].
      apply list_elem_of_singleton in Hsg as [= -> ->]. congruence.
Qed.

Lemma seated_In rows p seg :
  (p, seg) ∈ seated rows <-> exists prefix, (p, prefix) ∈ rows /\ parse_outline_key prefix = Numbered seg.
Proof.
  induction rows as [|[q prefix] rows IH]; cbn [seated].
  - split; [intros ?%elem_of_nil; done|]. by intros (? & ?%elem_of_nil & _).
  - destruct (parse_outline_key prefix) as [sg|] eqn:E.
    + rewrite elem_of_cons, IH. split.
      * intros [[= -> ->]|(pre & ? & ?)]; [exists prefix|exists pre]; (split; [|done]); [left|by right].
      * intros (pre & [[= -> ->]|?]%elem_of_cons & Hpre); [left; congruence|]. right. by exists pre.
    + rewrite IH. split; intros (pre & Hpre & Heq); exists pre; (split; [|done]); [by right|].
      apply elem_of_cons in Hpre as [[= -> ->]|?]; [congruence|done].
Qed.

Lemma seated_NoDup rows : NoDup rows.*1 -> NoDup (seated rows).*1.
Proof.
  induction rows as [|[q prefix] rows IH]; cbn [seated]; [done|]. intros [Hq Hnd]%NoDup_cons.
  destruct (parse_outline_key prefix) as [sg|]; [|by apply IH]. cbn. constructor; [|by apply IH].
  intros ([p sg'] & -> & (pre & Hin & _)%seated_In)%list_elem_of_fmap. apply Hq.
  apply list_elem_of_fmap. by exists (p, pre).
Qed.

Lemma seated_sorted rows :
  StronglySorted (fun a b : Row => row_leb snd a b = true) rows -> StronglySorted seat_leb (seated rows).
Proof.
  induction 1 as [|[q prefix] rows Hs IH Hall]; cbn [seated]; [constructor|].
  destruct (parse_outline_key prefix) as [sg|] eqn:E; [|done]. constructor; [done|].
  apply Forall_forall. intros [p sg'] (pre & Hin & Hpre)%seated_In.
  rewrite Forall_forall in Hall. specialize (Hall _ Hin). unfold row_leb in Hall. cbn in Hall.
  by rewrite E, Hpre in Hall.
Qed.

Lemma outline_collapsed rows arr :
  collapsed (outline_row_sets_with rows arr) ⊆ collapsed (sets arr).
Proof.
  unfold outline_row_sets_with. generalize (head_by_seat (seated rows)) as heads. intros heads.
  generalize (seated rows) as l. intros l. generalize (sets arr) as s.
  induction l as [|[p seg] l IH]; intros s; [done|]. cbn [foldl]. etrans; [apply IH|].
  unfold seat_step. destruct (answered arr p); [done|]. destruct (first_head _ _ _); [|done].
  unfold insert_member, insert_member_with_children. repeat case_match; simplify_eq; try done.
  cbn. apply detach_collapsed.
Qed.

Lemma answers_stand rows arr shut_heads :
  wf (sets arr) -> forall m, answered arr m = true ->
  parent_of (sidebar_row_sets rows arr shut_heads) m = parent_of (sets arr) m.
Proof.
  intros Hwf m Hm. unfold parent_of, sidebar_row_sets. rewrite shut_parent.
  by apply (inv_answered _ _ _ (outline_inv rows arr Hwf)).
Qed.

(** * Properties *)

(** The sidebar's arrangement is well formed whatever the user arranged and whatever seats
    the rows hold.  A row the user answered for keeps that answer, a head or a place at the top
    level; every other edge is the one its own seat asks for; the members of each set stand in
    seat order; and a set is shut exactly when it was shut by hand or is a head the user's
    collapse store names. *)
Theorem sidebar_row_sets_correct rows arr shut_heads :
  wf (sets arr) ->
  let s := sidebar_row_sets rows arr shut_heads in
  wf s
  /\ (forall m, answered arr m = true -> parent_of s m = parent_of (sets arr) m)
  /\ (forall m h, parent_of s m = Some h ->
        parent_of (sets arr) m = Some h
        \/ answered arr m = false
           /\ exists seg, (m, seg) ∈ seated rows /\ seat_head (seated rows) (m, seg) = Some h)
  /\ (forall h, ordered (fun x y => outline_leb (member_key rows x) (member_key rows y))
                  (members_of s h))
  /\ (forall h, is_collapsed s h = true ->
        h ∈ collapsed (sets arr) \/ h ∈ shut_heads /\ is_head s h = true)
  /\ (forall h, h ∈ shut_heads -> is_head s h = true -> is_collapsed s h = true).
Proof.
  intros Hwf. cbn zeta. destruct (outline_inv rows arr Hwf) as [Hs Hans Hedge].
  unfold sidebar_row_sets. set (leb := fun x y => _). set (s1 := sort_members_by_key leb _).
  assert (wf s1) as Hs1 by by apply sort_members_wf.
  assert (forall h, is_head (foldl shut s1 shut_heads) h = is_head s1 h) as Hhead
    by (intros h; unfold is_head; by rewrite shut_members).
  split_and!.
  - by apply shut_wf.
  - by apply answers_stand.
  - intros m h. unfold parent_of. rewrite shut_parent. apply Hedge.
  - intros h. unfold members_of. rewrite shut_members. fold (members_of s1 h).
    subst s1. rewrite sort_members_members_of. apply stable_sort_sorted. subst leb. apply _.
  - intros h Hc%bool_decide_eq_true. rewrite Hhead. apply shut_collapsed in Hc as [Hc|?]; [|by right].
    left. by apply outline_collapsed in Hc.
  - intros h Hin Hh. rewrite Hhead in Hh. apply bool_decide_eq_true, shut_collapsed. by right.
Qed.

Definition by_hand : RowArrangement := mkArrangement demo {["11"]}.

Lemma sidebar_row_sets_correct_witness :
  parent_of (sidebar_row_sets [("6", Some "6"); ("11", Some "6.3"); ("12", Some "6.4")] by_hand []) "11"
    = parent_of (sets by_hand) "11"
  /\ parent_of (sidebar_row_sets [("6", Some "6"); ("11", Some "6.3"); ("12", Some "6.4")] by_hand [])
       "12" = Some "6".
Proof.
  split; [|vm_compute; reflexivity].
  apply (sidebar_row_sets_correct [("6", Some "6"); ("11", Some "6.3"); ("12", Some "6.4")]
           by_hand [] demo_wf). vm_compute. reflexivity.
Defined.

(** Without a hand-made arrangement, and with the rows in outline order, the sidebar nests
    every row exactly where its seat says: under the row holding the zero seat of its own
    level, or failing that the bare parent seat, and at the top level when another row holds
    neither.  In that order no insertion is ever refused. *)
Theorem sorted_sidebar_is_the_seats rows shut_heads :
  NoDup rows.*1 ->
  let sorted := sort_by_outline snd rows in
  forall m h, parent_of (sidebar_row_sets sorted no_arrangement shut_heads) m = Some h <->
    exists seg, (m, seg) ∈ seated sorted /\ seat_head (seated sorted) (m, seg) = Some h.
Proof.
  intros Hnd sorted m h. unfold parent_of, sidebar_row_sets. rewrite shut_parent.
  destruct (sort_by_outline_correct snd rows) as (Hperm & Hsorted & _).
  assert (NoDup sorted.*1) as Hnd' by (unfold sorted; by rewrite Hperm).
  apply (sorted_seats_fold (seated sorted) [] (seated sorted) rs_empty).
  - by apply seated_NoDup.
  - by apply seated_sorted.
  - done.
  - apply rs_empty_wf.
  - intros x y. cbn. rewrite lookup_empty. split; [done|]. intros (? & ?%elem_of_nil & _). done.
Qed.

Definition unsorted_rows : list Row :=
  [("sub", Some "6.1.1"); ("mid", Some "6.1"); ("top", Some "6.0")]%string.

Lemma sorted_sidebar_is_the_seats_witness :
  NoDup unsorted_rows.*1
  /\ parent_of (sidebar_row_sets (sort_by_outline snd unsorted_rows) no_arrangement []) "mid"
     = Some "top".
Proof.
  split; [by apply (bool_decide_unpack _)|].
  apply (sorted_sidebar_is_the_seats unsorted_rows []); [by apply (bool_decide_unpack _)|].
  exists [6; 1]%N. split; [apply list_elem_of_In; vm_compute; tauto|vm_compute; reflexivity].
Defined.

(** The order of the rows decides the nesting, although the derivation is written as if no
    refusal could happen: rows met members-first keep a head out of its own set, because an
    insertion refuses a row that already heads one.  The same three rows nest two deep in
    outline order, and leave the middle one at the top level in the reverse order. *)
Theorem unsorted_rows_nest_differently :
  let s := sidebar_row_sets unsorted_rows no_arrangement [] in
  let s' := sidebar_row_sets (sort_by_outline snd unsorted_rows) no_arrangement [] in
  parent_of s "sub" = Some "mid" /\ parent_of s "mid" = None
  /\ parent_of s' "sub" = Some "mid" /\ parent_of s' "mid" = Some "top"
  /\ insert_member s "top" "mid" None = Err (WouldNestHead "mid" 1).
Proof. vm_compute. done. Qed.

(** The user's gestures stick, and can be taken back.  A row attached by hand is drawn
    under that head wherever its seat would put it; a row pulled out stays at the top level;
    a cleared row has no answer left, and no other row's answer changes. *)
Theorem gestures_stick rows a head member index shut_heads :
  wf (sets a) ->
  (forall a', attach a head member index = Ok a' ->
     parent_of (sidebar_row_sets rows a' shut_heads) member = Some head)
  /\ parent_of (sidebar_row_sets rows (detach_row a member) shut_heads) member = None
  /\ answered (clear a member) member = false
  /\ (forall other, other <> member -> answered (clear a member) other = answered a other).
Proof.
  intros Hwf. split_and!.
  - intros a'. unfold attach, attach_with_children.
    pose proof (insert_member_spec (sets a) head member index false Hwf) as Hspec.
    destruct (insert_member_with_children (sets a) head member index false) as [s|]; [|done].
    destruct Hspec as (_ & _ & _ & Hs & Hp & _). intros [= <-].
    assert (parent_of s member = Some head) as Hm
      by (unfold parent_of; rewrite Hp; apply lookup_insert_eq).
    pose proof (answers_stand rows
                  (mkArrangement s (detached a ∖ {[member]})) shut_heads Hs) as Hcore.
    rewrite Hcore; [done|]. unfold answered. cbn. by rewrite Hm.
  - assert (wf (sets (detach_row a member))) as Hs by by apply detach_wf.
    rewrite (answers_stand rows _ shut_heads Hs).
    + unfold parent_of. cbn. rewrite detach_parent. apply lookup_delete_eq.
    + unfold answered. cbn. rewrite bool_decide_eq_true_2 by set_solver. apply orb_true_r.
  - unfold answered, clear, parent_of. cbn. rewrite detach_parent, lookup_delete_eq. cbn.
    apply bool_decide_eq_false. set_solver.
  - intros other Hne. unfold answered, clear, parent_of. cbn.
    rewrite detach_parent, lookup_delete_ne by congruence. f_equal.
    apply bool_decide_ext. set_solver.
Qed.

Lemma gestures_stick_witness :
  wf (sets no_arrangement)
  /\ parent_of (sidebar_row_sets unsorted_rows (detach_row no_arrangement "sub") []) "sub" = None.
Proof.
  split; [apply rs_empty_wf|].
  exact (proj1 (proj2 (gestures_stick unsorted_rows no_arrangement "top" "sub" None [] rs_empty_wf))).
Defined.
