(* ===== verification/AgentRegistry.v ===== *)
(** The registry of agent command-line programs (core/agent_cli.rs and
    core/session_kind.rs): the session kinds, the descriptor each program declares and
    the table [AGENT_CLIS] every other predicate derives from.

    A descriptor keeps every field of the source except the reader functions that open
    files or databases; of those only whether the program declares one is kept (a
    [bool]).  A [char] is its code point. *)
From S2P Require Import Prelude RustStr.
#[local] Open Scope string_scope.
#[local] Open Scope list_scope.

Inductive SessionKind : Type :=
| Codex | CodexLiteLlm | ClaudeCode | Pi | OpenCode | QwenCode | Kimi | Muse
| Antigravity | GrokBuild | ZcodeTui | Devin | MimoCode | Shell | SshShell | Document.

#[export] Instance SessionKind_eq_dec : EqDecision SessionKind.
Proof. solve_decision. Defined.

(** [SessionKind::ALL]. *)
Definition ALL : list SessionKind :=
  [Codex; CodexLiteLlm; ClaudeCode; Pi; OpenCode; QwenCode; Kimi; Muse;
   Antigravity; GrokBuild; ZcodeTui; Devin; MimoCode; Shell; SshShell; Document].

Inductive ResumeSelector : Type := Flag (flag : string) | Subcommand (sub : string).
Inductive ResumeMissingIdBehavior : Type := Picker | Refuses | Fabricates | AdoptsLatest.
Inductive TitleAuthority : Type := TitleStore | TitleGenerated.
Inductive CliInstall : Type :=
| Npm (package : string) | Uv (package : string) | VendorScript (url : string) | Manual.
Inductive CliUpdate : Type := Reinstall | SelfCommand (argv : list string).
Inductive StartupGateConfirm : Type := Enter.
Inductive FlagArity : Type := Standalone | TakesValue.
Inductive OverriddenBy : Type := OverModel | OverPermissionMode.
Inductive AgentPermissionMode : Type := PmDefault | PmPlan | PmAcceptEdits | PmBypass.
Inductive PermissionProvenance : Type := Measured | Documented | Unmeasured (reason : string).
Inductive LiveSessionMarker : Type :=
| EnclosingDirectory (root file_name : string)
| FileStem (root extension : string).
Inductive RemoteStoreLocators : Type :=
| StoreGlobs
| CliHomeFiles (names : list string)
| StoreGlobsAndCliHomeFiles (names : list string)
| HomeRelative (path : string).

#[export] Instance FlagArity_eq_dec : EqDecision FlagArity.
Proof. solve_decision. Defined.
#[export] Instance OverriddenBy_eq_dec : EqDecision OverriddenBy.
Proof. solve_decision. Defined.
#[export] Instance AgentPermissionMode_eq_dec : EqDecision AgentPermissionMode.
Proof. solve_decision. Defined.

Record ScreenWorkingPhrase : Type := phrase { needle : string; also_any : list string }.

Record StartupGateAutoAnswer : Type := auto_answer {
  confirm : StartupGateConfirm;
  selected_option_needle : string;
  ready_markers : list string
}.

Record PermissionPreset : Type := preset {
  preset_id : string;
  preset_label : string;
  preset_args : string;
  explanation : string;
  is_default : bool
}.

Record AgentCliDescriptor : Type := {
  kind : SessionKind;
  display_name : string;
  session_metadata_label : string;
  slug : string;
  binary_name : string;
  install : CliInstall;
  update : CliUpdate;
  icon_glyph : string;
  brand_color : string;
  menu_hint : N;
  title_authority : TitleAuthority;
  id_assigned_at_birth : bool;
  resume_missing_id_behavior : option ResumeMissingIdBehavior;
  wrapper_slug : option string;
  remote_row_scheme : option string;
  runtime_key_scheme : option string;
  working_screen_phrases : list ScreenWorkingPhrase;
  working_screen_negations : list string;
  limit_wait_screen_phrases : list ScreenWorkingPhrase;
  question_picker_screen_phrases : list ScreenWorkingPhrase;
  background_agent_hint_screen_phrases : list ScreenWorkingPhrase;
  startup_gate_screen_phrases : list ScreenWorkingPhrase;
  startup_gate_auto_answer : option StartupGateAutoAnswer;
  plan_limit_choice_screen_phrases : list ScreenWorkingPhrase;
  resume_selector : ResumeSelector;
  resume_re_roots_with_cwd : bool;
  model_flag : option string;
  composer_marker : N;
  composer_region_label : option string;
  composer_placeholder_needles : list string;
  composer_footer_hints : list string;
  working_footer_hints : list string;
  permission_modes : list (AgentPermissionMode * list string);
  overridden_flags : list (string * FlagArity * OverriddenBy);
  extra_args_slug : string;
  permission_presets : list PermissionPreset;
  permission_provenance : PermissionProvenance;
  content_rederives_on_resume : bool;
  session_store_globs : list string;
  store_excluded_name_fragments : list string;
  durable_store_files : list string;
  store_scan_gap : option string;
  store_home_env_override : option string;
  store_membership_index : bool;
  live_session_argv_flag : option string;
  live_session_marker : option LiveSessionMarker;
  read_live_store_title : bool;
  submit_byte_own_chunk : bool;
  pty_echo_confirms_input : bool;
  remote_live_store_title : option RemoteStoreLocators
}.

(** ** The table *)

Definition codex_cli : AgentCliDescriptor := {|
  kind := Codex;
  display_name := "Codex";
  session_metadata_label := "Codex Session";
  slug := "codex";
  binary_name := "codex";
  install := Npm "@openai/codex";
  update := Reinstall;
  icon_glyph := ">_";
  brand_color := "#0f766e";
  menu_hint := 99;
  title_authority := TitleStore;
  id_assigned_at_birth := false;
  resume_missing_id_behavior := Some Refuses;
  wrapper_slug := Some "codex";
  remote_row_scheme := Some "remote-session://";
  runtime_key_scheme := Some "codex-runtime://";
  working_screen_phrases := [phrase "esc to interrupt" [];
    phrase "working (" ["/stop to close"; "background terminal running"]];
  working_screen_negations := ["worked for "];
  limit_wait_screen_phrases := [];
  question_picker_screen_phrases := [];
  background_agent_hint_screen_phrases := [];
  startup_gate_screen_phrases := [phrase "do you trust the contents of this directory" []; phrase "no, quit" []];
  startup_gate_auto_answer := None;
  plan_limit_choice_screen_phrases := [];
  resume_selector := Subcommand "resume";
  resume_re_roots_with_cwd := true;
  model_flag := Some "--model";
  composer_marker := 8250;
  composer_region_label := None;
  composer_placeholder_needles := [];
  composer_footer_hints := ["gpt-"; "claude"; "tab to "; "ctrl"; "esc"];
  working_footer_hints := [];
  permission_modes := [(PmDefault, []); (PmBypass, ["--dangerously-bypass-approvals-and-sandbox"])];
  overridden_flags := [("--model", TakesValue, OverModel);
    ("-m", TakesValue, OverModel);
    ("--ask-for-approval", TakesValue, OverPermissionMode);
    ("-a", TakesValue, OverPermissionMode);
    ("--sandbox", TakesValue, OverPermissionMode);
    ("-s", TakesValue, OverPermissionMode);
    ("--dangerously-bypass-approvals-and-sandbox", Standalone, OverPermissionMode)];
  extra_args_slug := "codex";
  permission_presets := [preset "ask" "Ask each time"
      "-a untrusted -s read-only"
      "Runs only trusted commands (ls, cat, sed) unasked and escalates everything else; the filesystem is read-only." false;
    preset "sandboxed" "Sandboxed"
      "-a on-request -s workspace-write"
      "The model decides when to ask; writes are confined to the workspace." false;
    preset "skip" "Skip checks"
      "-s danger-full-access"
      "No sandbox: model-generated commands run against the whole machine. Confirmation prompts are still asked — the tier beside this one is what removes those too." true;
    preset "bypass-all" "YOLO: skip checks and prompts"
      "--dangerously-bypass-approvals-and-sandbox"
      "No sandbox and no confirmation prompts at all. --dangerously-bypass-hook-trust is a separate switch that also runs hooks without persisted trust; it is not included here." false];
  permission_provenance := Measured;
  content_rederives_on_resume := true;
  session_store_globs := [".codex/sessions/**/rollout-*.jsonl"];
  store_excluded_name_fragments := [".bak."];
  durable_store_files := [];
  store_scan_gap := None;
  store_home_env_override := Some "YGGTERM_CODEX_HOME";
  store_membership_index := false;
  live_session_argv_flag := None;
  live_session_marker := None;
  read_live_store_title := true;
  submit_byte_own_chunk := false;
  pty_echo_confirms_input := true;
  remote_live_store_title := Some (StoreGlobs)
|}.

Definition codex_litellm_cli : AgentCliDescriptor := {|
  kind := CodexLiteLlm;
  display_name := "Codex-LiteLLM";
  session_metadata_label := "Codex-LiteLLM Session";
  slug := "codex-litellm";
  binary_name := "codex-litellm";
  install := Npm "@avikalpa/codex-litellm";
  update := Reinstall;
  icon_glyph := ">_";
  brand_color := "#0369a1";
  menu_hint := 120;
  title_authority := TitleStore;
  id_assigned_at_birth := false;
  resume_missing_id_behavior := None;
  wrapper_slug := None;
  remote_row_scheme := None;
  runtime_key_scheme := None;
  working_screen_phrases := [phrase "esc to interrupt" [];
    phrase "working (" ["/stop to close"; "background terminal running"]];
  working_screen_negations := ["worked for "];
  limit_wait_screen_phrases := [];
  question_picker_screen_phrases := [];
  background_agent_hint_screen_phrases := [];
  startup_gate_screen_phrases := [];
  startup_gate_auto_answer := None;
  plan_limit_choice_screen_phrases := [];
  resume_selector := Subcommand "resume";
  resume_re_roots_with_cwd := false;
  model_flag := Some "--model";
  composer_marker := 8250;
  composer_region_label := None;
  composer_placeholder_needles := [];
  composer_footer_hints := ["gpt-"; "claude"; "tab to "; "ctrl"; "esc"];
  working_footer_hints := [];
  permission_modes := [(PmDefault, []); (PmBypass, ["--dangerously-bypass-approvals-and-sandbox"])];
  overridden_flags := [("--model", TakesValue, OverModel);
    ("-m", TakesValue, OverModel);
    ("--ask-for-approval", TakesValue, OverPermissionMode);
    ("-a", TakesValue, OverPermissionMode);
    ("--sandbox", TakesValue, OverPermissionMode);
    ("-s", TakesValue, OverPermissionMode);
    ("--dangerously-bypass-approvals-and-sandbox", Standalone, OverPermissionMode)];
  extra_args_slug := "codex";
  permission_presets := [];
  permission_provenance := Measured;
  content_rederives_on_resume := true;
  session_store_globs := [".codex-litellm/sessions/**/rollout-*.jsonl"];
  store_excluded_name_fragments := [".bak."];
  durable_store_files := [];
  store_scan_gap := None;
  store_home_env_override := None;
  store_membership_index := false;
  live_session_argv_flag := None;
  live_session_marker := None;
  read_live_store_title := true;
  submit_byte_own_chunk := false;
  pty_echo_confirms_input := true;
  remote_live_store_title := None
|}.

Definition claude_code_cli : AgentCliDescriptor := {|
  kind := ClaudeCode;
  display_name := "Claude Code";
  session_metadata_label := "Claude Code Session";
  slug := "claude-code";
  binary_name := "claude";
  install := Npm "@anthropic-ai/claude-code";
  update := Reinstall;
  icon_glyph := "*_";
  brand_color := "#c2410c";
  menu_hint := 108;
  title_authority := TitleStore;
  id_assigned_at_birth := true;
  resume_missing_id_behavior := None;
  wrapper_slug := Some "cc";
  remote_row_scheme := Some "remote-cc://";
  runtime_key_scheme := Some "cc-runtime://";
  working_screen_phrases := [phrase "esc to interrupt" []];
  working_screen_negations := [];
  limit_wait_screen_phrases := [phrase "usage limit reached" ["continuing"; "esc to cancel"]];
  question_picker_screen_phrases := [phrase "to navigate" ["to select"; "to cancel"];
    phrase "ready to submit your answers" [];
    phrase "(use arrow keys" []];
  background_agent_hint_screen_phrases := [phrase "←" ["agent"]];
  startup_gate_screen_phrases := [phrase "quick safety check" []; phrase "trust this folder" []];
  startup_gate_auto_answer := None;
  plan_limit_choice_screen_phrases := [phrase "session limit" [];
    phrase "usage limit" [];
    phrase "team account" [];
    phrase "api billing" [];
    phrase "pay per token" [];
    phrase "stop and wait" []];
  resume_selector := Flag "--resume";
  resume_re_roots_with_cwd := false;
  model_flag := Some "--model";
  composer_marker := 10095;
  composer_region_label := None;
  composer_placeholder_needles := [];
  composer_footer_hints := ["claude"; "permissions"; "shift+tab"; "for agents"; "ctrl"; "esc"];
  working_footer_hints := ["esc to interrupt"];
  permission_modes := [(PmDefault, []);
    (PmPlan, ["--permission-mode"; "plan"]);
    (PmAcceptEdits, ["--permission-mode"; "acceptEdits"]);
    (PmBypass, ["--dangerously-skip-permissions"])];
  overridden_flags := [("--model", TakesValue, OverModel);
    ("--permission-mode", TakesValue, OverPermissionMode);
    ("--dangerously-skip-permissions", Standalone, OverPermissionMode);
    ("--allow-dangerously-skip-permissions", Standalone, OverPermissionMode)];
  extra_args_slug := "claude-code";
  permission_presets := [preset "ask" "Ask each time"
      "--permission-mode manual"
      "Every tool use is confirmed by you." false;
    preset "sandboxed" "Sandboxed"
      "--permission-mode acceptEdits"
      "File edits apply without asking; commands still ask." false;
    preset "skip" "Skip checks"
      "--dangerously-skip-permissions"
      "Bypasses all permission checks. Recommended by Anthropic only for sandboxes with no internet access. Note --allow-dangerously-skip-permissions is a DIFFERENT flag: it only permits the bypass, it does not perform it." true];
  permission_provenance := Measured;
  content_rederives_on_resume := true;
  session_store_globs := [".claude/projects/*/*.jsonl"];
  store_excluded_name_fragments := [];
  durable_store_files := [];
  store_scan_gap := None;
  store_home_env_override := None;
  store_membership_index := false;
  live_session_argv_flag := None;
  live_session_marker := None;
  read_live_store_title := true;
  submit_byte_own_chunk := false;
  pty_echo_confirms_input := true;
  remote_live_store_title := Some (StoreGlobs)
|}.

Definition pi_cli : AgentCliDescriptor := {|
  kind := Pi;
  display_name := "Pi";
  session_metadata_label := "Pi Session";
  slug := "pi";
  binary_name := "pi";
  install := Npm "@earendil-works/pi-coding-agent";
  update := Reinstall;
  icon_glyph := "π_";
  brand_color := "#be185d";
  menu_hint := 112;
  title_authority := TitleStore;
  id_assigned_at_birth := true;
  resume_missing_id_behavior := None;
  wrapper_slug := Some "pi";
  remote_row_scheme := Some "remote-pi://";
  runtime_key_scheme := Some "pi-runtime://";
  working_screen_phrases := [phrase "working..." []; phrase "thinking..." []];
  working_screen_negations := [];
  limit_wait_screen_phrases := [];
  question_picker_screen_phrases := [];
  background_agent_hint_screen_phrases := [];
  startup_gate_screen_phrases := [];
  startup_gate_auto_answer := None;
  plan_limit_choice_screen_phrases := [];
  resume_selector := Flag "--session";
  resume_re_roots_with_cwd := false;
  model_flag := Some "--model";
  composer_marker := 8250;
  composer_region_label := None;
  composer_placeholder_needles := [];
  composer_footer_hints := ["esc"; "ctrl"; "/help"; "tab"];
  working_footer_hints := ["to interrupt"];
  permission_modes := [(PmDefault, [])];
  overridden_flags := [("--model", TakesValue, OverModel);
    ("--approve", Standalone, OverPermissionMode);
    ("-a", Standalone, OverPermissionMode);
    ("--no-approve", Standalone, OverPermissionMode);
    ("-na", Standalone, OverPermissionMode)];
  extra_args_slug := "pi";
  permission_presets := [preset "restricted" "No tools"
      "--no-tools"
      "Disables all built-in tools and extensions — pi's only real safety control. For a narrower set use --tools read,grep or --exclude-tools bash." false;
    preset "no-project-trust" "Ignore project settings"
      "--no-approve"
      "Nothing in the repo can widen what pi may do this run." false;
    preset "project-trust" "Trust project settings"
      "--approve"
      "Trusts project-local settings files for this run. This is NOT a tool-permission bypass — pi never asks about tool calls either way." true];
  permission_provenance := Measured;
  content_rederives_on_resume := true;
  session_store_globs := [".pi/agent/sessions/*/*.jsonl"];
  store_excluded_name_fragments := [];
  durable_store_files := [];
  store_home_env_override := None;
  store_scan_gap := None;
  store_membership_index := false;
  live_session_argv_flag := None;
  live_session_marker := None;
  read_live_store_title := true;
  submit_byte_own_chunk := false;
  pty_echo_confirms_input := true;
  remote_live_store_title := Some (StoreGlobs)
|}.

Definition opencode_cli : AgentCliDescriptor := {|
  kind := OpenCode;
  display_name := "OpenCode";
  session_metadata_label := "OpenCode Session";
  slug := "opencode";
  binary_name := "opencode2";
  install := Npm "@opencode/cli";
  update := Reinstall;
  icon_glyph := "OC_";
  brand_color := "#4338ca";
  menu_hint := 111;
  title_authority := TitleStore;
  id_assigned_at_birth := false;
  resume_missing_id_behavior := Some AdoptsLatest;
  wrapper_slug := Some "opencode";
  remote_row_scheme := Some "remote-opencode://";
  runtime_key_scheme := Some "opencode-runtime://";
  working_screen_phrases := [phrase "esc interrupt" []];
  working_screen_negations := [];
  limit_wait_screen_phrases := [];
  question_picker_screen_phrases := [];
  background_agent_hint_screen_phrases := [];
  startup_gate_screen_phrases := [];
  startup_gate_auto_answer := None;
  plan_limit_choice_screen_phrases := [];
  resume_selector := Flag "--session";
  resume_re_roots_with_cwd := false;
  model_flag := None;
  composer_marker := 9475;
  composer_region_label := None;
  composer_placeholder_needles := ["ask anything"];
  composer_footer_hints := ["ctrl"; "tab"; "shift+tab"; "ctrl+p"; "agents"; "commands"; "opencode zen"];
  working_footer_hints := ["esc interrupt"];
  permission_modes := [(PmDefault, []); (PmBypass, ["--auto"])];
  overridden_flags := [("--model", TakesValue, OverModel); ("--auto", Standalone, OverPermissionMode)];
  extra_args_slug := "opencode";
  permission_presets := [preset "ask" "Ask each time"
      ""
      "opencode's own default: each permission is asked." false;
    preset "skip" "Skip checks"
      "--auto"
      "Auto-approves every permission that is not explicitly denied — opencode's own help calls this dangerous. A `deny` in opencode.json still holds; only `ask` is overridden." true];
  permission_provenance := Measured;
  content_rederives_on_resume := true;
  session_store_globs := [];
  store_excluded_name_fragments := [];
  durable_store_files := [".local/share/opencode/opencode.db"];
  store_home_env_override := None;
  store_scan_gap := None;
  store_membership_index := true;
  live_session_argv_flag := Some "--session";
  live_session_marker := None;
  read_live_store_title := true;
  submit_byte_own_chunk := false;
  pty_echo_confirms_input := true;
  remote_live_store_title := Some (HomeRelative ".local/share/opencode/opencode.db")
|}.

Definition qwen_code_cli : AgentCliDescriptor := {|
  kind := QwenCode;
  display_name := "Qwen Code";
  session_metadata_label := "Qwen Code Session";
  slug := "qwen-code";
  binary_name := "qwen";
  install := Npm "@qwen-code/qwen-code";
  update := Reinstall;
  icon_glyph := "Q_";
  brand_color := "#6d28d9";
  menu_hint := 113;
  title_authority := TitleStore;
  id_assigned_at_birth := true;
  resume_missing_id_behavior := None;
  wrapper_slug := Some "qwen";
  remote_row_scheme := Some "remote-qwen://";
  runtime_key_scheme := Some "qwen-runtime://";
  working_screen_phrases := [phrase "esc to cancel" []];
  working_screen_negations := [];
  limit_wait_screen_phrases := [];
  question_picker_screen_phrases := [];
  background_agent_hint_screen_phrases := [];
  startup_gate_screen_phrases := [];
  startup_gate_auto_answer := None;
  plan_limit_choice_screen_phrases := [];
  resume_selector := Flag "--resume";
  resume_re_roots_with_cwd := false;
  model_flag := Some "--model";
  composer_marker := 10095;
  composer_region_label := None;
  composer_placeholder_needles := [];
  composer_footer_hints := ["esc"; "ctrl"; "qwen"; "tab"];
  working_footer_hints := ["esc to cancel"];
  permission_modes := [(PmDefault, []);
    (PmPlan, ["--approval-mode"; "plan"]);
    (PmAcceptEdits, ["--approval-mode"; "auto-edit"]);
    (PmBypass, ["--yolo"])];
  overridden_flags := [("--model", TakesValue, OverModel);
    ("--approval-mode", TakesValue, OverPermissionMode);
    ("--yolo", Standalone, OverPermissionMode);
    ("-y", Standalone, OverPermissionMode)];
  extra_args_slug := "qwen-code";
  permission_presets := [preset "ask" "Ask each time"
      "--approval-mode default"
      "Every tool call is confirmed. --approval-mode plan is read-only planning." false;
    preset "auto-edit" "Auto-edit"
      "--approval-mode auto-edit"
      "File edits apply unprompted; commands still ask." false;
    preset "sandboxed" "Sandboxed"
      "-s --approval-mode default"
      "Runs the session inside Qwen's sandbox and still confirms every tool call. -s composes with ANY approval mode, so add it to a custom line for sandbox plus auto-edit." false;
    preset "skip" "Skip checks"
      "--yolo"
      "Auto-approves everything (equivalent to --approval-mode yolo)." true];
  permission_provenance := Measured;
  content_rederives_on_resume := true;
  session_store_globs := [".qwen/projects/*/chats/*.jsonl"];
  store_excluded_name_fragments := [".runtime."];
  durable_store_files := [];
  store_home_env_override := None;
  store_scan_gap := None;
  store_membership_index := false;
  live_session_argv_flag := None;
  live_session_marker := None;
  read_live_store_title := true;
  submit_byte_own_chunk := false;
  pty_echo_confirms_input := true;
  remote_live_store_title := Some (StoreGlobs)
|}.

Definition kimi_cli : AgentCliDescriptor := {|
  kind := Kimi;
  display_name := "Kimi Code";
  session_metadata_label := "Kimi Code Session";
  slug := "kimi";
  binary_name := "kimi";
  install := VendorScript "https://code.kimi.com/kimi-code/install.sh";
  update := Reinstall;
  icon_glyph := "K_";
  brand_color := "#1e40af";
  menu_hint := 107;
  title_authority := TitleGenerated;
  id_assigned_at_birth := false;
  resume_missing_id_behavior := None;
  wrapper_slug := Some "kimi";
  remote_row_scheme := Some "remote-kimi://";
  runtime_key_scheme := Some "kimi-runtime://";
  working_screen_phrases := [phrase "composing..." []; phrase "thinking..." []; phrase "compacting..." []];
  working_screen_negations := ["thought for "];
  limit_wait_screen_phrases := [];
  question_picker_screen_phrases := [];
  background_agent_hint_screen_phrases := [];
  startup_gate_screen_phrases := [phrase "Trust this folder?" []; phrase "Migrate this data to kimi-code?" []];
  startup_gate_auto_answer := None;
  plan_limit_choice_screen_phrases := [];
  resume_selector := Flag "--session";
  resume_re_roots_with_cwd := false;
  model_flag := Some "--model";
  composer_marker := 62;
  composer_region_label := None;
  composer_placeholder_needles := [];
  composer_footer_hints := ["/goal"; "context:"];
  working_footer_hints := ["composing..."; "thinking..."];
  permission_modes := [(PmDefault, []); (PmPlan, ["--plan"]); (PmBypass, ["--yolo"])];
  overridden_flags := [("--model", TakesValue, OverModel);
    ("--yolo", Standalone, OverPermissionMode);
    ("-y", Standalone, OverPermissionMode);
    ("--auto", Standalone, OverPermissionMode);
    ("--plan", Standalone, OverPermissionMode)];
  extra_args_slug := "kimi";
  permission_presets := [preset "ask" "Ask each time"
      ""
      "Kimi's own default: every tool call is confirmed." false;
    preset "skip" "Skip checks"
      "--yolo"
      "Auto-approves all tool calls; you are still reachable for a question the agent asks. Alias: -y." true];
  permission_provenance := Measured;
  content_rederives_on_resume := false;
  session_store_globs := [".kimi-code/sessions/*/*/state.json"];
  store_excluded_name_fragments := [];
  durable_store_files := [];
  store_home_env_override := None;
  store_scan_gap := None;
  store_membership_index := false;
  live_session_argv_flag := None;
  live_session_marker := None;
  read_live_store_title := true;
  submit_byte_own_chunk := false;
  pty_echo_confirms_input := true;
  remote_live_store_title := Some (StoreGlobs)
|}.

Definition muse_cli : AgentCliDescriptor := {|
  kind := Muse;
  display_name := "Muse Code";
  session_metadata_label := "Muse Code Session";
  slug := "muse";
  binary_name := "muse";
  install := VendorScript "https://dev.meta.ai/install.sh";
  update := Reinstall;
  icon_glyph := "M_";
  brand_color := "#86198f";
  menu_hint := 109;
  title_authority := TitleStore;
  id_assigned_at_birth := false;
  resume_missing_id_behavior := Some Refuses;
  wrapper_slug := Some "muse";
  remote_row_scheme := Some "remote-muse://";
  runtime_key_scheme := Some "muse-runtime://";
  working_screen_phrases := [phrase "esc to interrupt" []];
  working_screen_negations := [];
  limit_wait_screen_phrases := [];
  question_picker_screen_phrases := [];
  background_agent_hint_screen_phrases := [];
  startup_gate_screen_phrases := [phrase "do you trust this workspace?" []; phrase "trust and continue" []];
  startup_gate_auto_answer := None;
  plan_limit_choice_screen_phrases := [];
  resume_selector := Subcommand "resume";
  resume_re_roots_with_cwd := false;
  model_flag := Some "--model";
  composer_footer_hints := ["esc"; "ctrl"; "enter"; "tab"];
  composer_marker := 10095;
  composer_region_label := None;
  composer_placeholder_needles := [];
  working_footer_hints := ["esc to interrupt"];
  permission_modes := [(PmDefault, []); (PmBypass, ["--yolo"])];
  overridden_flags := [("--model", TakesValue, OverModel);
    ("--yolo", Standalone, OverPermissionMode);
    ("--approval-mode", TakesValue, OverPermissionMode);
    ("--disable-approval", Standalone, OverPermissionMode);
    ("--disable-sandbox", Standalone, OverPermissionMode)];
  extra_args_slug := "muse";
  permission_presets := [preset "ask" "Ask each time"
      "--approval-mode untrusted"
      "Every tool call is confirmed and the sandbox stays on." false;
    preset "sandboxed" "Sandboxed"
      "--approval-mode on-request"
      "Muse's own default: the model decides when to ask, and shell filesystem/network sandboxing stays on (--sandbox-network defaults to proxy-only)." false;
    preset "skip" "Skip checks"
      "--yolo"
      "Disables approval AND sandboxing and trusts this workspace for the run. --disable-approval and --disable-sandbox are the separate halves if you want only one of them." true];
  permission_provenance := Measured;
  content_rederives_on_resume := true;
  session_store_globs := [".local/share/muse/sessions/**/session.jsonl"];
  store_excluded_name_fragments := ["/subagent/"; "/tool-outputs/"];
  durable_store_files := [];
  store_home_env_override := None;
  store_scan_gap := None;
  store_membership_index := true;
  live_session_argv_flag := None;
  live_session_marker := Some (EnclosingDirectory ".local/share/muse/sessions" ".session.lock");
  read_live_store_title := true;
  submit_byte_own_chunk := false;
  pty_echo_confirms_input := true;
  remote_live_store_title := Some (StoreGlobsAndCliHomeFiles ["session-index.db"])
|}.

Definition antigravity_cli : AgentCliDescriptor := {|
  kind := Antigravity;
  display_name := "Antigravity";
  session_metadata_label := "Antigravity Session";
  slug := "antigravity";
  binary_name := "agy";
  install := Manual;
  update := SelfCommand ["update"];
  icon_glyph := "A_";
  brand_color := "#1557b0";
  menu_hint := 97;
  title_authority := TitleStore;
  id_assigned_at_birth := false;
  resume_missing_id_behavior := Some Fabricates;
  wrapper_slug := Some "agy";
  remote_row_scheme := Some "remote-agy://";
  runtime_key_scheme := Some "agy-runtime://";
  working_screen_phrases := [phrase "esc to cancel" []; phrase "generating..." []];
  working_screen_negations := [];
  limit_wait_screen_phrases := [];
  question_picker_screen_phrases := [phrase "requesting permission for:" []; phrase "run this command?" []];
  background_agent_hint_screen_phrases := [];
  startup_gate_screen_phrases := [phrase "do you trust the contents of this project?" []];
  startup_gate_auto_answer := Some (auto_answer Enter "> yes, i trust this folder" ["? for shortcuts"; "google ai"]);
  plan_limit_choice_screen_phrases := [];
  resume_selector := Flag "--conversation";
  resume_re_roots_with_cwd := false;
  model_flag := Some "--model";
  composer_marker := 62;
  composer_region_label := None;
  composer_placeholder_needles := [];
  composer_footer_hints := ["shortcuts"; "esc"; "ctrl"; "enter"; "tab"; "gemini"; "?"];
  working_footer_hints := ["esc to cancel"; "generating..."];
  permission_modes := [(PmDefault, []);
    (PmPlan, ["--mode"; "plan"]);
    (PmAcceptEdits, ["--mode"; "accept-edits"]);
    (PmBypass, ["--dangerously-skip-permissions"])];
  overridden_flags := [("--model", TakesValue, OverModel);
    ("--dangerously-skip-permissions", Standalone, OverPermissionMode);
    ("--mode", TakesValue, OverPermissionMode);
    ("--sandbox", Standalone, OverPermissionMode)];
  extra_args_slug := "antigravity";
  permission_presets := [preset "ask" "Ask each time"
      ""
      "Every tool permission request is prompted." false;
    preset "sandboxed" "Sandboxed"
      "--sandbox"
      "Runs with terminal restrictions enabled." false;
    preset "accept-edits" "Auto-edit"
      "--mode accept-edits"
      "File edits apply unprompted; --mode plan is read-only planning." false;
    preset "skip" "Skip checks"
      "--dangerously-skip-permissions"
      "Auto-approves all tool permission requests. It does NOT answer the workspace-trust prompt a first run in a new folder shows: agy has no flag for that gate and keeps the answer in its own settings, so it is asked once per folder and never again." true];
  permission_provenance := Measured;
  content_rederives_on_resume := true;
  session_store_globs := [".gemini/antigravity-cli/conversations/*.db";
    ".gemini/antigravity-cli/brain/*/.system_generated/logs/transcript_full.jsonl";
    ".antigravitycli/*.json"];
  store_excluded_name_fragments := ["-shm"; "-wal"];
  durable_store_files := [];
  store_home_env_override := None;
  store_scan_gap := None;
  store_membership_index := true;
  live_session_argv_flag := None;
  live_session_marker := Some (FileStem ".gemini/antigravity-cli/presence" "lock");
  read_live_store_title := true;
  submit_byte_own_chunk := false;
  pty_echo_confirms_input := true;
  remote_live_store_title := Some (StoreGlobsAndCliHomeFiles ["conversation_summaries.db"; "history.jsonl"])
|}.

Definition grok_build_cli : AgentCliDescriptor := {|
  kind := GrokBuild;
  display_name := "Grok Build";
  session_metadata_label := "Grok Build Session";
  slug := "grok-build";
  binary_name := "grok";
  install := Npm "@xai-official/grok";
  update := Reinstall;
  icon_glyph := "G_";
  brand_color := "#000000";
  menu_hint := 103;
  title_authority := TitleStore;
  id_assigned_at_birth := true;
  resume_missing_id_behavior := None;
  wrapper_slug := Some "grok";
  remote_row_scheme := Some "remote-grok://";
  runtime_key_scheme := Some "grok-runtime://";
  working_screen_phrases := [phrase "waiting for response" []; phrase "[stop]" []];
  working_screen_negations := [];
  limit_wait_screen_phrases := [];
  question_picker_screen_phrases := [];
  background_agent_hint_screen_phrases := [];
  startup_gate_screen_phrases := [phrase "approve in your browser to finish signing in" [];
    phrase "waiting for approval" []];
  startup_gate_auto_answer := None;
  plan_limit_choice_screen_phrases := [];
  resume_selector := Flag "--resume";
  resume_re_roots_with_cwd := false;
  model_flag := Some "--model";
  composer_marker := 10095;
  composer_region_label := None;
  composer_placeholder_needles := [];
  composer_footer_hints := ["shift+tab:mode"; "ctrl+x:shortcuts"];
  working_footer_hints := ["ctrl+c:cancel"];
  permission_modes := [(PmDefault, []);
    (PmPlan, ["--permission-mode"; "plan"]);
    (PmAcceptEdits, ["--permission-mode"; "acceptEdits"]);
    (PmBypass, ["--permission-mode"; "bypassPermissions"])];
  overridden_flags := [("--model", TakesValue, OverModel);
    ("-m", TakesValue, OverModel);
    ("--permission-mode", TakesValue, OverPermissionMode);
    ("--always-approve", Standalone, OverPermissionMode);
    ("--sandbox", TakesValue, OverPermissionMode)];
  extra_args_slug := "grok-build";
  permission_presets := [preset "ask" "Ask each time"
      "--permission-mode default"
      "Every tool use is confirmed by you. --permission-mode plan is read-only planning." false;
    preset "accept-edits" "Auto-edit"
      "--permission-mode acceptEdits"
      "File edits apply without asking; commands still ask." false;
    preset "skip" "Skip checks"
      "--permission-mode bypassPermissions"
      "Auto-approves every tool execution (--always-approve is the same posture spelled as a flag). For a middle ground grok takes --allow and --deny rules, and a sandbox profile named with --sandbox <PROFILE>." true];
  permission_provenance := Measured;
  content_rederives_on_resume := true;
  session_store_globs := [".grok/sessions/*/*/summary.json"];
  store_excluded_name_fragments := [];
  durable_store_files := [];
  store_home_env_override := None;
  store_scan_gap := None;
  store_membership_index := false;
  live_session_argv_flag := None;
  live_session_marker := None;
  read_live_store_title := true;
  submit_byte_own_chunk := false;
  pty_echo_confirms_input := true;
  remote_live_store_title := Some (StoreGlobs)
|}.

Definition zcode_tui_cli : AgentCliDescriptor := {|
  kind := ZcodeTui;
  display_name := "ZCode TUI";
  session_metadata_label := "ZCode TUI Session";
  slug := "zcode-tui";
  binary_name := "zcode-tui";
  install := Npm "@avikalpa/zcode-tui";
  update := Reinstall;
  icon_glyph := "Z_";
  brand_color := "#2563eb";
  menu_hint := 122;
  title_authority := TitleStore;
  id_assigned_at_birth := false;
  resume_missing_id_behavior := None;
  wrapper_slug := Some "zcode-tui";
  remote_row_scheme := Some "remote-zcode-tui://";
  runtime_key_scheme := Some "zcode-tui-runtime://";
  working_screen_phrases := [phrase "working · working…" []; phrase "esc cancel" []];
  working_screen_negations := [];
  limit_wait_screen_phrases := [];
  question_picker_screen_phrases := [phrase "y allow · a always" []; phrase "type to filter…" []];
  background_agent_hint_screen_phrases := [];
  startup_gate_screen_phrases := [];
  startup_gate_auto_answer := None;
  plan_limit_choice_screen_phrases := [];
  resume_selector := Flag "--resume";
  resume_re_roots_with_cwd := false;
  model_flag := Some "--model";
  composer_marker := 9612;
  composer_region_label := None;
  composer_placeholder_needles := [];
  composer_footer_hints := ["i to type"; "zcode-tui"];
  working_footer_hints := ["esc cancel"];
  permission_modes := [(PmDefault, []); (PmPlan, []); (PmAcceptEdits, []); (PmBypass, [])];
  overridden_flags := [("--model", TakesValue, OverModel)];
  extra_args_slug := "zcode-tui";
  permission_presets := [];
  permission_provenance := Unmeasured "zcode-tui takes no launch permission flags; tool permissions are gated in-app per ask (y allow-once / a allow-project / n deny)";
  content_rederives_on_resume := true;
  session_store_globs := [".zcode/cli/rollout/model-io-*.jsonl"];
  store_excluded_name_fragments := [];
  durable_store_files := [];
  store_scan_gap := None;
  store_home_env_override := None;
  store_membership_index := false;
  live_session_argv_flag := None;
  live_session_marker := None;
  read_live_store_title := true;
  submit_byte_own_chunk := false;
  pty_echo_confirms_input := true;
  remote_live_store_title := Some (StoreGlobs)
|}.

Definition devin_cli : AgentCliDescriptor := {|
  kind := Devin;
  display_name := "Devin";
  session_metadata_label := "Devin Session";
  slug := "devin";
  binary_name := "devin";
  install := VendorScript "https://cli.devin.ai/install.sh";
  update := SelfCommand ["update"];
  icon_glyph := "D_";
  brand_color := "#111827";
  menu_hint := 100;
  title_authority := TitleStore;
  id_assigned_at_birth := false;
  resume_missing_id_behavior := None;
  wrapper_slug := Some "devin";
  remote_row_scheme := Some "remote-devin://";
  runtime_key_scheme := Some "devin-runtime://";
  working_screen_phrases := [phrase "thinking · " []; phrase "esc twice to interrupt" []];
  working_screen_negations := [];
  limit_wait_screen_phrases := [];
  question_picker_screen_phrases := [];
  background_agent_hint_screen_phrases := [];
  startup_gate_screen_phrases := [phrase "do you trust the authors of this directory?" [];
    phrase "yes, trust" [];
    phrase "no, exit" []];
  startup_gate_auto_answer := None;
  plan_limit_choice_screen_phrases := [];
  resume_selector := Flag "--resume";
  resume_re_roots_with_cwd := false;
  model_flag := Some "--model";
  composer_marker := 10093;
  composer_region_label := None;
  composer_placeholder_needles := ["ask devin to build features"; "guide devin while it works"];
  composer_footer_hints := ["swe-1.6 slow"; "alt+m"];
  working_footer_hints := [];
  permission_modes := [(PmDefault, []);
    (PmPlan, []);
    (PmAcceptEdits, ["--permission-mode"; "accept-edits"]);
    (PmBypass, ["--permission-mode"; "dangerous"])];
  overridden_flags := [("--model", TakesValue, OverModel);
    ("--permission-mode", TakesValue, OverPermissionMode)];
  extra_args_slug := "devin";
  permission_presets := [preset "auto" "Auto (read-only tools)"
      "--permission-mode auto"
      "Devin's own default: auto-approves read-only tools and asks before anything that writes." true;
    preset "accept-edits" "Accept edits"
      "--permission-mode accept-edits"
      "Also auto-approves workspace edits on top of the read-only tier." false;
    preset "smart" "Smart"
      "--permission-mode smart"
      "Additionally auto-runs actions a fast model judges safe." false;
    preset "dangerous" "Dangerous: approve all tools"
      "--permission-mode dangerous"
      "Auto-approves ALL tools — the unattended-delegate posture. Devin's own spelling, not a yggterm coinage." false];
  permission_provenance := Measured;
  content_rederives_on_resume := true;
  session_store_globs := [];
  store_excluded_name_fragments := [];
  durable_store_files := [".local/share/devin/cli/sessions.db"];
  store_scan_gap := None;
  store_home_env_override := None;
  store_membership_index := true;
  live_session_argv_flag := Some "--resume";
  live_session_marker := None;
  read_live_store_title := true;
  submit_byte_own_chunk := true;
  pty_echo_confirms_input := false;
  remote_live_store_title := Some (HomeRelative ".local/share/devin/cli/sessions.db")
|}.

Definition mimo_code_cli : AgentCliDescriptor := {|
  kind := MimoCode;
  display_name := "MiMo Code";
  session_metadata_label := "MiMo Code Session";
  slug := "mimo";
  binary_name := "mimo";
  install := Npm "@mimo-ai/cli";
  update := SelfCommand ["upgrade"];
  icon_glyph := "MC_";
  brand_color := "#9a3412";
  menu_hint := 105;
  title_authority := TitleStore;
  id_assigned_at_birth := false;
  resume_missing_id_behavior := None;
  wrapper_slug := Some "mimo";
  remote_row_scheme := Some "remote-mimo://";
  runtime_key_scheme := Some "mimo-runtime://";
  working_screen_phrases := [];
  working_screen_negations := [];
  limit_wait_screen_phrases := [];
  question_picker_screen_phrases := [];
  background_agent_hint_screen_phrases := [];
  startup_gate_screen_phrases := [phrase "quick safety check" []; phrase "yes, i trust this folder" []];
  startup_gate_auto_answer := None;
  plan_limit_choice_screen_phrases := [];
  resume_selector := Flag "--session";
  resume_re_roots_with_cwd := false;
  model_flag := Some "--model";
  composer_marker := 9475;
  composer_region_label := None;
  composer_placeholder_needles := ["type your message..."; "type / for commands"];
  composer_footer_hints := ["tab switch mode";
    "ctrl+p settings";
    "@ attach file";
    "$ subagent";
    "/ commands"];
  working_footer_hints := [];
  permission_modes := [(PmDefault, []); (PmBypass, ["--dangerously-skip-permissions"])];
  overridden_flags := [("--model", TakesValue, OverModel);
    ("--dangerously-skip-permissions", Standalone, OverPermissionMode)];
  extra_args_slug := "mimo";
  permission_presets := [preset "build" "Build (mimo's default)"
      ""
      "MiMo Code's own default posture; permission asks ride the                               TUI." true;
    preset "yolo" "YOLO: approve all tools"
      "--dangerously-skip-permissions"
      "Auto-approves permissions that are not explicitly denied —                               mimo's own spelling (alias `--yolo`), the unattended-delegate                               posture." false];
  permission_provenance := Measured;
  content_rederives_on_resume := false;
  session_store_globs := [];
  store_excluded_name_fragments := [];
  durable_store_files := [".local/share/mimocode/mimocode.db"];
  store_scan_gap := None;
  store_home_env_override := None;
  store_membership_index := true;
  live_session_argv_flag := Some "--session";
  live_session_marker := None;
  read_live_store_title := true;
  submit_byte_own_chunk := false;
  pty_echo_confirms_input := true;
  remote_live_store_title := Some (HomeRelative ".local/share/mimocode/mimocode.db")
|}.

Definition AGENT_CLIS : list AgentCliDescriptor :=
  [codex_cli; codex_litellm_cli; claude_code_cli; pi_cli; opencode_cli; qwen_code_cli; kimi_cli; muse_cli; antigravity_cli; grok_build_cli; zcode_tui_cli; devin_cli; mimo_code_cli].

(** ** Queries over the table *)

Definition agent_cli_descriptor (k : SessionKind) : option AgentCliDescriptor :=
  List.find (fun d => bool_decide (kind d = k)) AGENT_CLIS.

Definition is_agent (k : SessionKind) : bool :=
  existsb (fun d => bool_decide (kind d = k)) AGENT_CLIS.

Definition title_is_store_authoritative (d : AgentCliDescriptor) : bool :=
  match title_authority d with TitleStore => true | TitleGenerated => false end.

Definition self_generates_copy (k : SessionKind) : bool :=
  match agent_cli_descriptor k with
  | Some d => title_is_store_authoritative d
  | None => false
  end.

Definition offers_rendered_view (k : SessionKind) : bool :=
  is_agent k || match k with Document => true | _ => false end.

Definition provisions_unattended (i : CliInstall) : bool :=
  match i with Npm _ | Uv _ | VendorScript _ => true | Manual => false end.

(** The bytes of the confirm: one carriage return. *)
Definition confirm_bytes (c : StartupGateConfirm) : string :=
  match c with Enter => String "013" "" end.

Definition session_kind_label (k : SessionKind) : string :=
  match agent_cli_descriptor k with
  | Some d => slug d
  | None =>
    match k with
    | Shell => "shell"
    | SshShell => "ssh"
    | Document => "document"
    | _ => "shell"
    end
  end.

Definition session_kind_label_is_known (token : string) : bool :=
  existsb (fun d => String.eqb (slug d) token) AGENT_CLIS
  || existsb (fun k => String.eqb (session_kind_label k) token) [Shell; SshShell; Document].

Definition agent_cli_brand_color (k : SessionKind) : option string :=
  brand_color <$> agent_cli_descriptor k.

Definition agent_cli_open_session_label (k : option SessionKind) : string :=
  match k ≫= agent_cli_descriptor with
  | Some d => "Open this " +:+ display_name d +:+ " Session"
  | None => "Open"
  end.

Definition new_session_label (d : AgentCliDescriptor) : string :=
  "New " +:+ display_name d +:+ " Session".

Definition row_icon_kind (k : SessionKind) : option string :=
  d ← agent_cli_descriptor k;
  Some (match k with Codex | CodexLiteLlm => "session" | _ => slug d end).

Inductive TitleMutability : Type := TmDynamic | TmStatic.

Definition title_mutability (k : SessionKind) : TitleMutability :=
  match k with
  | OpenCode | Codex | CodexLiteLlm | Muse => TmDynamic
  | _ => TmStatic
  end.

Definition suppresses_mouse_tracking (k : SessionKind) : bool :=
  match k with OpenCode => true | _ => false end.

Definition escape_byte : ascii := "027".

Definition alternate_scroll_keys (k : SessionKind) : string * string * N :=
  match k with
  | OpenCode => (String escape_byte "[5~", String escape_byte "[6~", 120%N)
  | _ => (String escape_byte "[A", String escape_byte "[B", 0%N)
  end.

(** ** Invocation *)

Definition resume_selector_token (d : AgentCliDescriptor) : string :=
  match resume_selector d with Flag f => f | Subcommand s => s end.

Definition resume_tokens (d : AgentCliDescriptor) (session_id_quoted : string)
    (cwd_known : bool) : list string :=
  [match resume_selector d with Flag f => f | Subcommand s => s end]
  ++ (if resume_re_roots_with_cwd d && cwd_known
      then ["-C"; String "034" ("$PWD" +:+ String "034" "")] else [])
  ++ [session_id_quoted].

Definition resume_picker_tokens (d : AgentCliDescriptor) : list string :=
  match resume_selector d with Flag f => [f] | Subcommand s => [s] end.

Definition has_remote_arm (d : AgentCliDescriptor) : bool := is_Some_b (wrapper_slug d).
Definition resume_subcommand (d : AgentCliDescriptor) : option string :=
  (fun s => "resume-" +:+ s) <$> wrapper_slug d.
Definition start_subcommand (d : AgentCliDescriptor) : option string :=
  (fun s => "start-" +:+ s) <$> wrapper_slug d.
Definition terminate_subcommand (d : AgentCliDescriptor) : option string :=
  (fun s => "terminate-" +:+ s) <$> wrapper_slug d.
Definition session_exists_subcommand (d : AgentCliDescriptor) : option string :=
  (fun s => s +:+ "-session-exists") <$> wrapper_slug d.

Definition default_permission_preset (d : AgentCliDescriptor) : option PermissionPreset :=
  List.find is_default (permission_presets d).

Definition owns_its_extra_args_box (d : AgentCliDescriptor) : bool :=
  String.eqb (extra_args_slug d) (slug d).

(** ** Birth titles *)

Definition session_kind_birth_noun (k : SessionKind) : string :=
  match agent_cli_descriptor k with
  | Some d => display_name d
  | None =>
    match k with
    | Shell | SshShell => "Terminal"
    | Document => "Document"
    | _ => "Session"
    end
  end.

Definition birth_nouns : list string :=
  map display_name AGENT_CLIS
  ++ map session_kind_birth_noun (List.filter (fun k => negb (is_agent k)) ALL).

Definition new_row_birth_title (machine : option string) (what : string) : string :=
  let what := trim what in
  match machine with
  | Some m =>
    let m := trim m in
    if str_is_empty m then "New " +:+ what else "New " +:+ m +:+ " " +:+ what
  | None => "New " +:+ what
  end.

Definition new_session_birth_title (k : SessionKind) (machine : option string) : string :=
  new_row_birth_title machine (session_kind_birth_noun k).

Definition birth_head_ok (head : string) : bool :=
  let machine := trim head in
  if str_is_empty machine then str_is_empty head else negb (contains_ws machine).

Definition is_new_row_birth_title (title : string) : bool :=
  match strip_prefix "New " (trim title) with
  | None => false
  | Some rest =>
    let rest := trim rest in
    if str_is_empty rest then false
    else existsb (fun noun =>
           match strip_suffix noun rest with
           | None => false
           | Some head => birth_head_ok head
           end) birth_nouns
  end.

(** * Lemmas *)

Lemma agent_cli_descriptor_Some k d :
  agent_cli_descriptor k = Some d -> d ∈ AGENT_CLIS /\ kind d = k.
Proof.
  unfold agent_cli_descriptor. intros [Hin Hk]%find_some.
  split; [by apply list_elem_of_In|]. by apply bool_decide_eq_true in Hk.
Qed.

Lemma agent_cli_descriptor_In d : d ∈ AGENT_CLIS -> agent_cli_descriptor (kind d) = Some d.
Proof.
  intros Hd. repeat (apply elem_of_cons in Hd as [->|Hd]; [vm_compute; reflexivity|]).
  by apply elem_of_nil in Hd.
Qed.

Lemma is_agent_descriptor k : is_agent k = is_Some_b (agent_cli_descriptor k).
Proof. by destruct k. Qed.

Lemma elem_of_ALL k : k ∈ ALL.
Proof. apply list_elem_of_In. destruct k; simpl; tauto. Qed.

Lemma birth_noun_in k : session_kind_birth_noun k ∈ birth_nouns.
Proof. apply list_elem_of_In. destruct k; vm_compute; tauto. Qed.

(** A text in lower case: one with an upper-case letter is found in no lower-cased line. *)
Definition lower_case (s : string) : bool := String.eqb (to_ascii_lowercase s) s.

Definition phrase_is_lower (p : ScreenWorkingPhrase) : bool :=
  lower_case (needle p) && forallb lower_case (also_any p).

(** The phrases of the classifiers other than the startup gate. *)
Definition screen_phrases (d : AgentCliDescriptor) : list ScreenWorkingPhrase :=
  working_screen_phrases d ++ limit_wait_screen_phrases d ++ question_picker_screen_phrases d
  ++ background_agent_hint_screen_phrases d ++ plan_limit_choice_screen_phrases d.

(** Everything a descriptor declares that is looked for in lower-cased text: the phrases, what negates
    them, the composer's placeholders and footer hints, and the texts of the automatic answer to a
    startup gate. *)
Definition needles (d : AgentCliDescriptor) : list string :=
  flat_map (fun p => needle p :: also_any p) (screen_phrases d) ++ working_screen_negations d
  ++ composer_placeholder_needles d ++ composer_footer_hints d ++ working_footer_hints d
  ++ match startup_gate_auto_answer d with Some a => selected_option_needle a :: ready_markers a | None => [] end.

(** The flags of an argument list: its tokens that start with a dash. *)
Definition flags_of (tokens : list string) : list string :=
  List.filter (fun t => starts_with t "-") tokens.

Definition overrides (d : AgentCliDescriptor) (by_ : OverriddenBy) (flag : string) : bool :=
  existsb (fun '(f, _, o) => String.eqb f flag && bool_decide (o = by_)) (overridden_flags d).

Definition same_shape {A B C} (a : option A) (b : option B) (c : option C) : bool :=
  match a, b, c with
  | Some _, Some _, Some _ | None, None, None => true
  | _, _, _ => false
  end.

(** The invariants every descriptor keeps. *)
Record descriptor_ok (d : AgentCliDescriptor) : Prop := {
  ok_label : session_metadata_label d = display_name d +:+ " Session";
  ok_remote : same_shape (wrapper_slug d) (remote_row_scheme d) (runtime_key_scheme d) = true;
  ok_default_mode : (PmDefault, []) ∈ permission_modes d;
  ok_modes_nodup : NoDup (map fst (permission_modes d));
  ok_mode_flags : forall mode tokens flag, (mode, tokens) ∈ permission_modes d ->
    flag ∈ flags_of tokens -> overrides d OverPermissionMode flag = true;
  ok_model_flag : forall flag, model_flag d = Some flag -> overrides d OverModel flag = true;
  ok_presets : permission_presets d = [] \/
    length (List.filter is_default (permission_presets d)) = 1;
  ok_lower : forallb lower_case (needles d) = true;
  ok_gate_lower : kind d <> Kimi ->
    forallb phrase_is_lower (startup_gate_screen_phrases d) = true
}.

Ltac decide_elem := apply list_elem_of_In; vm_compute; tauto.

Lemma all_modes_flags d :
  forallb (fun '(_, tokens) =>
    forallb (overrides d OverPermissionMode) (flags_of tokens)) (permission_modes d) = true ->
  forall mode tokens flag, (mode, tokens) ∈ permission_modes d ->
    flag ∈ flags_of tokens -> overrides d OverPermissionMode flag = true.
Proof.
  rewrite forallb_forall. intros H mode tokens flag Hm%list_elem_of_In Hf%list_elem_of_In.
  specialize (H _ Hm). simpl in H. rewrite forallb_forall in H. by apply H.
Qed.

Lemma descriptors_ok d : d ∈ AGENT_CLIS -> descriptor_ok d.
Proof.
  intros Hd. repeat (apply elem_of_cons in Hd as [->|Hd]; [clear|]);
    [..|by apply elem_of_nil in Hd].
  all: split; [reflexivity|reflexivity|decide_elem|
    apply (bool_decide_unpack _); vm_compute; exact I|
    apply all_modes_flags; vm_compute; reflexivity|
    intros ? [= <-]; vm_compute; reflexivity|
    first [left; reflexivity|right; vm_compute; reflexivity]|vm_compute; reflexivity|
    intros Hk; first [vm_compute; reflexivity|by destruct Hk]].
Qed.

(** Every descriptor of the registry is well formed, and the registry is a
    partial function of the kind.  The kinds, slugs and display names are pairwise distinct;
    a kind is an agent exactly when it has a descriptor, which is the one listed for it; a
    CLI has a wrapper slug, a remote row scheme and a runtime key scheme or none of them;
    each permission mode is listed once, the default mode adds no token, and every flag
    that a launch emits (model flag or permission flag) is one that the same option strips
    from the configured arguments; a CLI with presets has exactly one default; and every
    needle is lower case, the startup gate's phrases included except Kimi's. *)
Theorem registry_well_formed :
  (NoDup (map kind AGENT_CLIS) /\ NoDup (map slug AGENT_CLIS)
   /\ NoDup (map display_name AGENT_CLIS) /\ NoDup ALL /\ forall k, k ∈ ALL)
  /\ (forall d, d ∈ AGENT_CLIS -> descriptor_ok d)
  /\ (forall k d, agent_cli_descriptor k = Some d <-> d ∈ AGENT_CLIS /\ kind d = k)
  /\ (forall k, is_agent k = true <-> exists d, agent_cli_descriptor k = Some d).
Proof.
  split; [repeat split; try (apply (bool_decide_unpack _); vm_compute; exact I);
          apply elem_of_ALL|].
  split; [apply descriptors_ok|]. split.
  - intros k d. split; [apply agent_cli_descriptor_Some|].
    intros [Hd <-]. by apply agent_cli_descriptor_In.
  - intros k. rewrite is_agent_descriptor. destruct (agent_cli_descriptor k); simpl; naive_solver.
Qed.

(** ** Birth titles *)

Definition noun_ok (noun : string) : bool :=
  String.eqb (trim noun) noun
  && match str_rev noun with String a _ => plain a | EmptyString => false end.

Lemma birth_noun_ok k : noun_ok (session_kind_birth_noun k) = true.
Proof. by destruct k. Qed.

Lemma trim_new_noun p noun :
  noun_ok noun = true -> strip_ws (p ++ noun) = None -> trim (p ++ noun)%string = (p ++ noun)%string.
Proof.
  intros [_ H]%andb_true_iff Hp. apply trim_tight; [done|]. rewrite str_rev_app.
  destruct (str_rev noun) as [|a r]; [done|]. by apply strip_ws_rev_plain.
Qed.

Lemma birth_title_with_head k head :
  birth_head_ok head = true ->
  strip_ws (head ++ session_kind_birth_noun k)%string = None ->
  is_new_row_birth_title ("New " ++ head ++ session_kind_birth_noun k) = true.
Proof.
  intros Hhead Hws. set (noun := session_kind_birth_noun k).
  pose proof (birth_noun_ok k) as Hn. fold noun in Hn.
  unfold is_new_row_birth_title. rewrite string_app_assoc, trim_new_noun by done.
  rewrite <- string_app_assoc, strip_prefix_app, trim_new_noun by done.
  destruct (str_is_empty (head ++ noun)) eqn:He.
  { exfalso. destruct head; [|done]. unfold noun in He. by destruct k. }
  apply existsb_exists. exists noun. split; [by apply list_elem_of_In, birth_noun_in|].
  by rewrite (proj2 (strip_suffix_Some noun _ head) eq_refl).
Qed.

(** A row's birth name is recognised as the placeholder it is, so it may be replaced:
    for every session kind, with no machine name, a blank one, or one that is a single word
    once trimmed, the composed title passes [is_new_row_birth_title]. *)
Theorem birth_title_recognised k machine :
  (forall m, machine = Some m -> contains_ws (trim m) = false) ->
  is_new_row_birth_title (new_session_birth_title k machine) = true.
Proof.
  intros Hm. unfold new_session_birth_title, new_row_birth_title.
  assert (trim (session_kind_birth_noun k) = session_kind_birth_noun k) as -> by by destruct k.
  assert (is_new_row_birth_title ("New " +:+ session_kind_birth_noun k) = true) as Hbare.
  { apply (birth_title_with_head k ""); [done|]. by destruct k. }
  destruct machine as [m|]; [|done]. specialize (Hm m eq_refl).
  destruct (trim m) as [|a t] eqn:Ht; [done|]. rewrite <- Ht in *. cbn [str_is_empty].
  assert (trim m <> "") as Hne by by rewrite Ht.
  destruct (str_is_empty (trim m)) eqn:He; [done|].
  rewrite (string_app_assoc (trim m)). apply birth_title_with_head.
  - unfold birth_head_ok. rewrite trim_no_ws_space by done. by rewrite He, Hm.
  - rewrite <- string_app_assoc. by apply strip_ws_app_space.
Qed.

Lemma birth_title_recognised_witness :
  contains_ws (trim " devhost ") = false
  /\ new_session_birth_title ClaudeCode (Some " devhost ") = "New devhost Claude Code"
  /\ is_new_row_birth_title (new_session_birth_title ClaudeCode (Some " devhost ")) = true.
Proof.
  split; [reflexivity|]. split; [reflexivity|].
  apply (birth_title_recognised ClaudeCode (Some " devhost ")). intros m [= <-]. reflexivity.
Defined.
