(* ===== verification/ScreenState.v ===== *)
(** What a row's rendered screen says (core/screen_state.rs, the screen predicates of
    core/agent_cli.rs and their kind-agnostic unions in core/lib.rs). *)
From S2P Require Import Prelude RustStr AgentRegistry.
#[local] Open Scope string_scope.
#[local] Open Scope list_scope.

(** ** The phrase matcher *)

Definition SCREEN_FOOTER_WINDOW_ROWS : nat := 10.
Definition SCREEN_MODAL_WINDOW_ROWS : nat := 24.

Definition phrase_on_line (lower : string) (p : ScreenWorkingPhrase) : bool :=
  contains lower (needle p)
  && (match also_any p with [] => true | _ => false end
      || existsb (contains lower) (also_any p)).

Definition line_matches (phrases : list ScreenWorkingPhrase) (negations : list string)
    (line : string) : bool :=
  let lower := to_ascii_lowercase line in
  if existsb (contains lower) negations then false
  else existsb (phrase_on_line lower) phrases.

Definition screen_phrases_match (sample : string) (phrases : list ScreenWorkingPhrase)
    (negations : list string) (window : nat) : bool :=
  existsb (line_matches phrases negations)
    (take window
       (List.filter (fun line => negb (str_is_empty line)) (map trim (rev (lines sample))))).

Definition screen_shows_working (d : AgentCliDescriptor) (sample : string) : bool :=
  screen_phrases_match sample (working_screen_phrases d) (working_screen_negations d)
    SCREEN_FOOTER_WINDOW_ROWS.
Definition screen_shows_limit_wait (d : AgentCliDescriptor) (sample : string) : bool :=
  screen_phrases_match sample (limit_wait_screen_phrases d) [] SCREEN_FOOTER_WINDOW_ROWS.
Definition screen_shows_question_picker (d : AgentCliDescriptor) (sample : string) : bool :=
  screen_phrases_match sample (question_picker_screen_phrases d) [] SCREEN_FOOTER_WINDOW_ROWS.
Definition screen_shows_background_agent_hint (d : AgentCliDescriptor) (sample : string) : bool :=
  screen_phrases_match sample (background_agent_hint_screen_phrases d) []
    SCREEN_FOOTER_WINDOW_ROWS.
Definition screen_shows_startup_gate (d : AgentCliDescriptor) (sample : string) : bool :=
  screen_phrases_match sample (startup_gate_screen_phrases d) [] SCREEN_MODAL_WINDOW_ROWS.
Definition screen_shows_plan_limit_choice (d : AgentCliDescriptor) (sample : string) : bool :=
  screen_phrases_match sample (plan_limit_choice_screen_phrases d) [] SCREEN_MODAL_WINDOW_ROWS.

Definition screen_text_shows_agent_working (s : string) : bool :=
  existsb (fun d => screen_shows_working d s) AGENT_CLIS.
Definition screen_text_shows_agent_limit_wait (s : string) : bool :=
  existsb (fun d => screen_shows_limit_wait d s) AGENT_CLIS.
Definition screen_text_shows_agent_question_picker (s : string) : bool :=
  existsb (fun d => screen_shows_question_picker d s) AGENT_CLIS.
Definition screen_text_shows_agent_background_hint (s : string) : bool :=
  existsb (fun d => screen_shows_background_agent_hint d s) AGENT_CLIS.
Definition screen_text_shows_agent_startup_gate (s : string) : bool :=
  existsb (fun d => screen_shows_startup_gate d s) AGENT_CLIS.

(** ** The states *)

Inductive RowScreenState : Type :=
| Unreadable | StartupGate | PlanLimitChoice | QuestionPicker | LimitWait | Working | Ready.

#[export] Instance RowScreenState_eq_dec : EqDecision RowScreenState.
Proof. solve_decision. Defined.

Definition state_slug (st : RowScreenState) : string :=
  match st with
  | Unreadable => "unreadable"
  | StartupGate => "startup_gate"
  | PlanLimitChoice => "plan_limit_choice"
  | QuestionPicker => "question_picker"
  | LimitWait => "limit_wait"
  | Working => "working"
  | Ready => "ready"
  end.

Definition may_type (st : RowScreenState) : bool :=
  match st with Ready => true | _ => false end.

Definition needs_a_human (st : RowScreenState) : bool :=
  match st with PlanLimitChoice | QuestionPicker => true | _ => false end.

Definition ALL_ROW_SCREEN_STATES : list RowScreenState :=
  [Unreadable; StartupGate; PlanLimitChoice; QuestionPicker; LimitWait; Working; Ready].

(** The UTF-8 bytes of a code point of at most three bytes (every marker of the
    registry is one). *)
Definition utf8_char (c : N) : string :=
  if (c <? 128)%N then String (ascii_of_N c) ""
  else if (c <? 2048)%N then
    String (ascii_of_N (192 + c / 64)) (String (ascii_of_N (128 + c mod 64)) "")
  else String (ascii_of_N (224 + c / 4096))
         (String (ascii_of_N (128 + (c / 64) mod 64))
            (String (ascii_of_N (128 + c mod 64)) "")).

(** A digit and then a dot or a closing parenthesis. *)
Definition numbered_option (s : string) : bool :=
  match s with
  | String d (String p _) => is_digit d && (Ascii.eqb p "." || Ascii.eqb p ")")
  | _ => false
  end.

Definition screen_has_selected_numbered_option (sample : string) (marker : N) : bool :=
  existsb (fun line =>
    match find_sub (utf8_char marker) line with
    | None => false
    | Some (_, after) => numbered_option (trim_start after)
    end) (lines sample).

Definition plan_limit_dialog (screen : string) : bool :=
  existsb (fun d => screen_shows_plan_limit_choice d screen
                    && screen_has_selected_numbered_option screen (composer_marker d))
    AGENT_CLIS.

Definition classify_screen (screen : option string) : RowScreenState :=
  match screen with
  | None => Unreadable
  | Some screen =>
    if screen_text_shows_agent_startup_gate screen then StartupGate
    else if plan_limit_dialog screen then PlanLimitChoice
    else if screen_text_shows_agent_question_picker screen then QuestionPicker
    else if screen_text_shows_agent_limit_wait screen then LimitWait
    else if screen_text_shows_agent_working screen then Working
    else Ready
  end.

(** * Lemmas *)

Lemma filter_rev {A} (f : A -> bool) l : List.filter f (rev l) = rev (List.filter f l).
Proof.
  induction l as [|x l IH]; [done|]. cbn. rewrite List.filter_app, IH. cbn.
  destruct (f x); cbn; [done|]. apply app_nil_r.
Qed.

Lemma screen_phrases_match_populated sample phrases negations window :
  screen_phrases_match sample phrases negations window
  = existsb (line_matches phrases negations) (take window (rev (populated_rows sample))).
Proof. unfold screen_phrases_match, populated_rows. by rewrite map_rev, filter_rev. Qed.

Lemma to_ascii_lower_idemp a : to_ascii_lower (to_ascii_lower a) = to_ascii_lower a.
Proof. destruct a as [[] [] [] [] [] [] [] []]; reflexivity. Qed.

Lemma to_ascii_lowercase_app s t :
  to_ascii_lowercase (s ++ t)%string = (to_ascii_lowercase s ++ to_ascii_lowercase t)%string.
Proof. induction s as [|a s IH]; simpl; [done|]. by rewrite IH. Qed.

Lemma to_ascii_lowercase_idemp s : to_ascii_lowercase (to_ascii_lowercase s) = to_ascii_lowercase s.
Proof. induction s as [|a s IH]; simpl; [done|]. by rewrite to_ascii_lower_idemp, IH. Qed.

Lemma lower_app_inv x y u :
  to_ascii_lowercase u = u -> u = (x ++ y)%string ->
  to_ascii_lowercase x = x /\ to_ascii_lowercase y = y.
Proof.
  intros Hu ->. rewrite to_ascii_lowercase_app in Hu. revert Hu.
  induction x as [|a x IH]; simpl; intros H; [done|].
  injection H as Ha H. destruct (IH H) as [Hx Hy]. split; [|done]. by rewrite Ha, Hx.
Qed.

Lemma contains_lower line n : contains (to_ascii_lowercase line) n = true -> lower_case n = true.
Proof.
  rewrite contains_spec. intros (x & y & Heq). apply String.eqb_eq.
  apply lower_app_inv in Heq as [_ Heq]; [|apply to_ascii_lowercase_idemp].
  by destruct (lower_app_inv n y _ Heq eq_refl).
Qed.

(** A phrase with an upper-case needle matches no screen. *)
Lemma upper_case_phrases_never_match sample phrases negations window :
  forallb (fun p => negb (lower_case (needle p))) phrases = true ->
  screen_phrases_match sample phrases negations window = false.
Proof.
  intros Hup. rewrite screen_phrases_match_populated. apply not_true_is_false.
  rewrite existsb_exists. intros (line & _ & Hl). revert Hl. unfold line_matches.
  destruct (existsb _ negations); [done|]. rewrite existsb_exists.
  intros (p & Hp & [Hc _]%andb_true_iff). apply contains_lower in Hc.
  rewrite forallb_forall in Hup. specialize (Hup p Hp). by rewrite Hc in Hup.
Qed.

(** * Properties *)

(** A row is reported typeable exactly when its screen was read and nothing holds it:
    no CLI's startup gate, no limit dialog with its marker on a numbered option, no question
    picker, no limit wait and no turn in flight.  The first of those that holds, in that
    order, is the state reported. *)
Theorem classify_screen_precedence screen :
  (may_type (classify_screen screen) = true <->
   exists s, screen = Some s
     /\ screen_text_shows_agent_startup_gate s = false
     /\ plan_limit_dialog s = false
     /\ screen_text_shows_agent_question_picker s = false
     /\ screen_text_shows_agent_limit_wait s = false
     /\ screen_text_shows_agent_working s = false)
  /\ (classify_screen screen = Unreadable <-> screen = None)
  /\ (forall s, screen = Some s ->
      (classify_screen screen = StartupGate <-> screen_text_shows_agent_startup_gate s = true)
      /\ (classify_screen screen = Working ->
          screen_text_shows_agent_working s = true
          /\ screen_text_shows_agent_question_picker s = false
          /\ screen_text_shows_agent_limit_wait s = false)
      /\ (classify_screen screen = LimitWait ->
          screen_text_shows_agent_limit_wait s = true /\ plan_limit_dialog s = false)
      /\ (plan_limit_dialog s = true -> may_type (classify_screen screen) = false)
      /\ (needs_a_human (classify_screen screen) = true <->
          screen_text_shows_agent_startup_gate s = false
          /\ (plan_limit_dialog s = true \/ screen_text_shows_agent_question_picker s = true))).
Proof.
  split; [|split].
  - destruct screen as [s|]; cbn [classify_screen].
    + split.
      * intros H. exists s. repeat case_match; done.
      * intros (s' & [= <-] & -> & -> & -> & -> & ->). done.
    + split; [done|]. by intros (s & ? & _).
  - destruct screen as [s|]; cbn [classify_screen]; [|done]. split; [|done].
    repeat case_match; done.
  - intros s ->. cbn [classify_screen].
    destruct (screen_text_shows_agent_startup_gate s), (plan_limit_dialog s),
      (screen_text_shows_agent_question_picker s), (screen_text_shows_agent_limit_wait s),
      (screen_text_shows_agent_working s); cbn; intuition discriminate.
Qed.

Lemma classify_screen_precedence_witness :
  exists s, Some "ready" = Some s
    /\ (classify_screen (Some s) = StartupGate <-> screen_text_shows_agent_startup_gate s = true).
Proof.
  exists "ready". split; [reflexivity|].
  exact (proj1 (proj2 (proj2 (classify_screen_precedence (Some "ready"))) "ready" eq_refl)).
Defined.

(** The window of the screen classifiers counts populated rows: rows that hold only
    white space, however many stand below the text, change no classifier's answer. *)
Theorem screen_window_skips_blank_rows s blank phrases negations window :
  populated_rows blank = [] ->
  screen_phrases_match (s ++ String newline blank) phrases negations window
  = screen_phrases_match s phrases negations window.
Proof.
  intros Hb. rewrite !screen_phrases_match_populated.
  by rewrite (populated_rows_blank s blank Hb).
Qed.

Definition thirty_blank_rows : string := String.concat (String newline "") (repeat "   " 30).

Lemma screen_window_skips_blank_rows_witness :
  populated_rows thirty_blank_rows = []
  /\ screen_shows_startup_gate claude_code_cli
       ("Quick safety check" ++ String newline thirty_blank_rows)%string = true.
Proof.
  split; [vm_compute; reflexivity|]. unfold screen_shows_startup_gate.
  rewrite (screen_window_skips_blank_rows "Quick safety check" thirty_blank_rows);
    vm_compute; reflexivity.
Defined.

(** Kimi's declared startup gate is recognised on no screen at all, because its two
    needles carry upper-case letters and the matcher compares them with the lower-cased
    line; the one-time migration picker, whose wording no other CLI declares, is reported
    as a row that may be typed into. *)
Theorem kimi_startup_gate_is_never_recognised :
  (forall s, screen_shows_startup_gate kimi_cli s = false)
  /\ startup_gate_screen_phrases kimi_cli <> []
  /\ may_type (classify_screen (Some "Migrate this data to kimi-code?")) = true.
Proof.
  split; [|split; [done|vm_compute; reflexivity]].
  intros s. by apply upper_case_phrases_never_match.
Qed.
