(* ===== verification/AgentLaunch.v ===== *)
(** What one launch asks of an agent CLI (core/agent_cli.rs [AgentLaunchOptions]) and the
    argument readers it rests on (core/cli_args.rs).

    A refusal is a value naming its case and the data its message prints. *)
From S2P Require Import Prelude RustStr AgentRegistry.
#[local] Open Scope string_scope.
#[local] Open Scope list_scope.

(** ** Reading an argument list *)

(** [cli_flag_value]. *)
Fixpoint cli_flag_value (args : list string) (flag : string) : option string :=
  match args with
  | [] => None
  | value :: rest =>
    if String.eqb value flag then
      match rest with
      | next :: _ => if starts_with next "--" then None else Some next
      | [] => None
      end
    else match strip_prefix (flag +:+ "=") value with
         | Some inline => Some inline
         | None => cli_flag_value rest flag
         end
  end.

(** The loop of [cli_positional_args]. *)
Fixpoint positional_from (args : list string) : list string :=
  match args with
  | [] => []
  | value :: rest =>
    if starts_with value "--" then
      match rest with
      | next :: rest' => if starts_with next "--" then positional_from rest else positional_from rest'
      | [] => []
      end
    else value :: positional_from rest
  end.

Definition cli_positional_args (args : list string) (start : nat) : list string :=
  positional_from (drop start args).

Inductive PayloadRefusal : Type := FlagShaped (value : string) | MissingPayload.

Definition refuse_flag_shaped_payload (value : string) : result string PayloadRefusal :=
  if starts_with value "--" then Err (FlagShaped value) else Ok value.

Definition cli_payload_arg (args : list string) (start : nat) : result string PayloadRefusal :=
  match cli_positional_args args start with
  | value :: _ => refuse_flag_shaped_payload value
  | [] =>
    match args !! start with
    | Some flagged =>
      if starts_with flagged "--" then refuse_flag_shaped_payload flagged else Err MissingPayload
    | None => Err MissingPayload
    end
  end.

(** ** Launch options *)

Record AgentLaunchOptions : Type := mk_options {
  model : option string;
  permission_mode : option AgentPermissionMode
}.

Inductive LaunchRefusal : Type :=
| NoCliForOptions (asked : list string) (kind_flag : string)
| EmptyModel
| NoModelFlag (display : string)
| NoSuchMode (display mode : string) (offers : list string)
| ModelNeedsValue
| ModeNeedsValue
| UnknownMode (raw : string).

Definition AGENT_PERMISSION_MODE_NAMES : list (string * AgentPermissionMode) :=
  [("default", PmDefault); ("plan", PmPlan); ("accept-edits", PmAcceptEdits); ("bypass", PmBypass)].

Definition mode_parse (raw : string) : result AgentPermissionMode LaunchRefusal :=
  match List.find (fun '(name, _) => String.eqb name (trim raw)) AGENT_PERMISSION_MODE_NAMES with
  | Some (_, mode) => Ok mode
  | None => Err (UnknownMode raw)
  end.

Definition mode_name (m : AgentPermissionMode) : string :=
  match List.find (fun '(_, mode) => bool_decide (mode = m)) AGENT_PERMISSION_MODE_NAMES with
  | Some (name, _) => name
  | None => "default"
  end.

Definition options_is_empty (o : AgentLaunchOptions) : bool :=
  negb (is_Some_b (model o)) && negb (is_Some_b (permission_mode o)).

Definition asked_flag_names (o : AgentLaunchOptions) : list string :=
  (if is_Some_b (model o) then ["--model"] else [])
  ++ (if is_Some_b (permission_mode o) then ["--permission-mode"] else []).

Definition session_kind_flag_name (k : SessionKind) : string :=
  match agent_cli_descriptor k with
  | Some d =>
    match kind d with ClaudeCode => "claude-code" | CodexLiteLlm => "codex-litellm" | _ => "codex" end
  | None => match k with SshShell => "ssh" | Document => "document" | _ => "shell" end
  end.

Definition model_tokens (d : AgentCliDescriptor) (o : AgentLaunchOptions)
    : result (list string) LaunchRefusal :=
  match model o with
  | None => Ok []
  | Some m =>
    if str_is_empty (trim m) then Err EmptyModel
    else match model_flag d with
         | None => Err (NoModelFlag (display_name d))
         | Some flag => Ok [flag; trim m]
         end
  end.

Definition mode_tokens (d : AgentCliDescriptor) (o : AgentLaunchOptions)
    : result (list string) LaunchRefusal :=
  match permission_mode o with
  | None => Ok []
  | Some mode =>
    match List.find (fun '(candidate, _) => bool_decide (candidate = mode)) (permission_modes d) with
    | Some (_, tokens) => Ok tokens
    | None => Err (NoSuchMode (display_name d) (mode_name mode)
                     (map (fun '(candidate, _) => mode_name candidate) (permission_modes d)))
    end
  end.

Definition launch_tokens (o : AgentLaunchOptions) (k : SessionKind)
    : result (list string) LaunchRefusal :=
  match agent_cli_descriptor k with
  | None =>
    if options_is_empty o then Ok []
    else Err (NoCliForOptions (asked_flag_names o) (session_kind_flag_name k))
  | Some d =>
    match model_tokens d o with
    | Err e => Err e
    | Ok mt => match mode_tokens d o with Err e => Err e | Ok pt => Ok (mt ++ pt) end
    end
  end.

(** ** Stripping what a launch overrides *)

Definition asked (o : AgentLaunchOptions) (by_ : OverriddenBy) : bool :=
  match by_ with
  | OverModel => is_Some_b (model o)
  | OverPermissionMode => is_Some_b (permission_mode o)
  end.

Definition strip_flags (d : AgentCliDescriptor) (o : AgentLaunchOptions)
    : list (string * FlagArity) :=
  map fst (List.filter (fun '(_, _, by_) => asked o by_) (overridden_flags d)).

(** [token.split_once('=')]: the head, and whether a value is inline. *)
Definition token_head (token : string) : string * bool :=
  match split_once "=" token with Some (head, _) => (head, true) | None => (token, false) end.

Fixpoint strip_loop (strip : list (string * FlagArity)) (configured : list string)
    : list string :=
  match configured with
  | [] => []
  | token :: rest =>
    let '(head, inline_value) := token_head token in
    match List.find (fun '(flag, _) => String.eqb flag head) strip with
    | Some (_, TakesValue) =>
      if inline_value then strip_loop strip rest
      else match rest with [] => [] | _ :: rest' => strip_loop strip rest' end
    | Some (_, Standalone) => strip_loop strip rest
    | None => token :: strip_loop strip rest
    end
  end.

Definition strip_overridden (o : AgentLaunchOptions) (k : SessionKind) (configured : list string)
    : list string :=
  match agent_cli_descriptor k with
  | None => configured
  | Some d =>
    match strip_flags d o with
    | [] => configured
    | strip => strip_loop strip configured
    end
  end.

(** ** The options of a command line *)

Definition flag_present (args : list string) (flag : string) : bool :=
  existsb (fun arg => String.eqb arg flag || starts_with arg (flag +:+ "=")) args.

Definition flag_text (args : list string) (flag : string) : option string :=
  match cli_flag_value args flag with
  | Some v => if str_is_empty (trim v) then None else Some (trim v)
  | None => None
  end.

Definition agent_launch_options_from_args (args : list string)
    : result AgentLaunchOptions LaunchRefusal :=
  let model_part :=
    if flag_present args "--model" then
      match flag_text args "--model" with
      | Some m => Ok (Some m)
      | None => Err ModelNeedsValue
      end
    else Ok None in
  match model_part with
  | Err e => Err e
  | Ok model =>
    if flag_present args "--permission-mode" then
      match flag_text args "--permission-mode" with
      | Some raw =>
        match mode_parse raw with
        | Ok mode => Ok (mk_options model (Some mode))
        | Err e => Err e
        end
      | None => Err ModeNeedsValue
      end
    else Ok (mk_options model None)
  end.

(** * Lemmas *)

(** Induction on the loop: its recursive calls drop one or two tokens. *)
Lemma list_ind2 {A} (P : list A -> Prop) :
  P [] -> (forall x, P [x]) -> (forall x y l, P l -> P (y :: l) -> P (x :: y :: l)) ->
  forall l, P l.
Proof.
  intros H0 H1 H2 l. enough (P l /\ forall x, P (x :: l)) by tauto.
  induction l as [|y l [IH1 IH2]]; auto.
Qed.

Definition stripped_head (strip : list (string * FlagArity)) (token : string) : bool :=
  existsb (fun '(flag, _) => String.eqb flag (fst (token_head token))) strip.

Lemma find_stripped strip token :
  List.find (fun '(flag, _) => String.eqb flag (fst (token_head token))) strip = None
  <-> stripped_head strip token = false.
Proof.
  unfold stripped_head. induction strip as [|[flag arity] strip IH]; simpl; [done|].
  by destruct (String.eqb flag _).
Qed.

Lemma strip_loop_cons strip token rest :
  strip_loop strip (token :: rest)
  = match List.find (fun '(flag, _) => String.eqb flag (fst (token_head token))) strip with
    | Some (_, TakesValue) =>
      if snd (token_head token) then strip_loop strip rest else strip_loop strip (tail rest)
    | Some (_, Standalone) => strip_loop strip rest
    | None => token :: strip_loop strip rest
    end.
Proof.
  cbn [strip_loop]. destruct (token_head token) as [head inline]; cbn [fst snd].
  destruct (List.find _ strip) as [[? []]|]; [done| |done]. destruct inline; [done|]. by destruct rest.
Qed.

Lemma strip_loop_sublist strip l : strip_loop strip l `sublist_of` l.
Proof.
  induction l as [|x|x y l IH1 IH2] using list_ind2; [done|..]; rewrite strip_loop_cons;
    (destruct (List.find _ strip) as [[? []]|]; [|destruct (snd _)|]); cbn [tail];
    change (strip_loop strip []) with (@nil string);
    solve [auto using sublist_nil_l, sublist_skip, sublist_cons].
Qed.

Lemma strip_loop_heads strip l :
  Forall (fun t => stripped_head strip t = false) (strip_loop strip l).
Proof.
  induction l as [|x|x y l IH1 IH2] using list_ind2; [constructor|..]; rewrite strip_loop_cons;
    (destruct (List.find _ strip) as [[? []]|] eqn:E; [|destruct (snd _)|]); cbn [tail];
    change (strip_loop strip []) with (@nil string); try done;
    (constructor; [by apply find_stripped|done]).
Qed.

Lemma strip_loop_id strip l :
  Forall (fun t => stripped_head strip t = false) l -> strip_loop strip l = l.
Proof.
  induction 1 as [|t l Ht Hl IH]; [done|]. rewrite strip_loop_cons.
  rewrite (proj2 (find_stripped strip t) Ht). by rewrite IH.
Qed.

Lemma strip_flags_overrides d o token :
  stripped_head (strip_flags d o) token = false <->
  forall by_, asked o by_ = true -> overrides d by_ (fst (token_head token)) = false.
Proof.
  unfold stripped_head, strip_flags, overrides. generalize (fst (token_head token)) as h. intros h.
  induction (overridden_flags d) as [|[[flag arity] by_] l IH]; simpl; [naive_solver|].
  destruct (asked o by_) eqn:Ha; simpl.
  - rewrite orb_false_iff, IH. split.
    + intros [Hf Hr] b Hb. rewrite Hf. simpl. by apply Hr.
    + intros Hall. split.
      * specialize (Hall by_ Ha). apply orb_false_iff in Hall as [Hall _].
        rewrite bool_decide_eq_true_2, andb_true_r in Hall by done. done.
      * intros b Hb. specialize (Hall b Hb). by apply orb_false_iff in Hall as [_ Hall].
  - rewrite IH. split; intros Hall b Hb; specialize (Hall b Hb).
    + apply orb_false_iff. split; [|done]. rewrite bool_decide_eq_false_2, andb_false_r; [done|].
      intros ->. congruence.
    + by apply orb_false_iff in Hall as [_ Hall].
Qed.

Lemma strip_overridden_loop o k d configured :
  agent_cli_descriptor k = Some d ->
  strip_overridden o k configured = strip_loop (strip_flags d o) configured.
Proof.
  intros Hd. unfold strip_overridden. rewrite Hd. destruct (strip_flags d o) eqn:E; [|done].
  symmetry. apply strip_loop_id. apply Forall_true. intros t. done.
Qed.

(** * Properties *)

(** A per-launch option wins over the configured arguments.  What is kept is a
    subsequence of them in which no token is a flag the launch overrides (bare or with an
    inline value); arguments that hold no such flag are kept whole, so stripping twice is
    stripping once; a flag of an option the launch does not ask for is untouched. *)
Theorem strip_overridden_correct o k d configured :
  agent_cli_descriptor k = Some d ->
  let kept := strip_overridden o k configured in
  kept `sublist_of` configured
  /\ Forall (fun t => forall by_, asked o by_ = true ->
               overrides d by_ (fst (token_head t)) = false) kept
  /\ (Forall (fun t => forall by_, asked o by_ = true ->
               overrides d by_ (fst (token_head t)) = false) configured -> kept = configured)
  /\ strip_overridden o k kept = kept.
Proof.
  intros Hd kept. subst kept. rewrite !(strip_overridden_loop o k d) by done.
  split_and!.
  - apply strip_loop_sublist.
  - eapply Forall_impl; [apply (strip_loop_heads (strip_flags d o))|].
    intros t Ht. by apply strip_flags_overrides.
  - intros H. apply strip_loop_id. eapply Forall_impl; [exact H|].
    intros t Ht. by apply strip_flags_overrides.
  - apply strip_loop_id, strip_loop_heads.
Qed.

Definition pinned : AgentLaunchOptions := mk_options (Some " opus ") None.

Lemma strip_overridden_correct_witness :
  agent_cli_descriptor ClaudeCode = Some claude_code_cli
  /\ strip_overridden pinned ClaudeCode
       ["--model"; "haiku"; "--dangerously-skip-permissions"; "--model=sonnet"; "-v"]
     = ["--dangerously-skip-permissions"; "-v"]
  /\ strip_overridden pinned ClaudeCode ["--dangerously-skip-permissions"; "-v"]
     = ["--dangerously-skip-permissions"; "-v"].
Proof.
  split; [reflexivity|]. split; [vm_compute; reflexivity|].
  apply (strip_overridden_correct pinned ClaudeCode claude_code_cli
           ["--model"; "haiku"; "--dangerously-skip-permissions"; "--model=sonnet"; "-v"]).
  reflexivity.
Defined.

Lemma mode_listed d mode tokens :
  List.find (fun '(candidate, _) => bool_decide (candidate = mode)) (permission_modes d)
  = Some (mode, tokens) -> (mode, tokens) ∈ permission_modes d.
Proof. intros [H _]%find_some. by apply list_elem_of_In. Qed.

(** A launch is either honoured in full or refused by name.  On a kind with no CLI it is
    accepted only when it asks for nothing; on a CLI, it is accepted exactly when a model
    asked for is not blank and the CLI has a model flag, and a permission mode asked for is
    in the CLI's table; the tokens are then the flag with the trimmed model followed by the
    table's tokens, and those tokens are themselves all stripped from a configured list by
    the same launch. *)
Theorem launch_tokens_correct o k :
  (agent_cli_descriptor k = None ->
    launch_tokens o k = (if options_is_empty o then Ok []
                         else Err (NoCliForOptions (asked_flag_names o) (session_kind_flag_name k))))
  /\ (forall d, agent_cli_descriptor k = Some d -> forall tokens,
      launch_tokens o k = Ok tokens <->
      exists mt pt, tokens = mt ++ pt
        /\ (forall m, model o = Some m ->
              str_is_empty (trim m) = false /\ exists flag, model_flag d = Some flag
                /\ mt = [flag; trim m])
        /\ (model o = None -> mt = [])
        /\ (forall mode, permission_mode o = Some mode ->
              exists mode', List.find (fun '(c, _) => bool_decide (c = mode)) (permission_modes d)
                            = Some (mode', pt))
        /\ (permission_mode o = None -> pt = []))
  /\ (forall tokens, launch_tokens o k = Ok tokens -> strip_overridden o k tokens = []).
Proof.
  split; [|split].
  - intros Hd. unfold launch_tokens. by rewrite Hd.
  - intros d Hd tokens. unfold launch_tokens. rewrite Hd. unfold model_tokens, mode_tokens. split.
    + intros H. destruct (model o) as [m|] eqn:Hm.
      * destruct (str_is_empty (trim m)) eqn:He; [done|].
        destruct (model_flag d) as [flag|] eqn:Hf; [|done].
        destruct (permission_mode o) as [mode|] eqn:Hp.
        -- destruct (List.find _ _) as [[mode' pt]|] eqn:Hpt; [|done]. injection H as <-.
           exists [flag; trim m], pt. naive_solver.
        -- injection H as <-. exists [flag; trim m], []. naive_solver.
      * destruct (permission_mode o) as [mode|] eqn:Hp.
        -- destruct (List.find _ _) as [[mode' pt]|] eqn:Hpt; [|done]. injection H as <-.
           exists [], pt. naive_solver.
        -- injection H as <-. exists [], []. naive_solver.
    + intros (mt & pt & -> & Hm & Hm0 & Hp & Hp0).
      destruct (model o) as [m|].
      * destruct (Hm m eq_refl) as (-> & flag & -> & ->).
        destruct (permission_mode o) as [mode|]; [|by rewrite (Hp0 eq_refl)].
        by destruct (Hp mode eq_refl) as [mode' ->].
      * rewrite (Hm0 eq_refl). destruct (permission_mode o) as [mode|]; [|by rewrite (Hp0 eq_refl)].
        by destruct (Hp mode eq_refl) as [mode' ->].
  - intros tokens. unfold launch_tokens, model_tokens, mode_tokens. destruct o as [[m|] [mode|]]; destruct k;
      cbn -[trim strip_overridden]; try (destruct (str_is_empty (trim m)); [done|]);
      try (destruct mode; cbn -[trim strip_overridden]); intros [= <-]; reflexivity.
Qed.

(** The three parts at one input each. *)
Lemma launch_tokens_correct_witness :
  launch_tokens pinned Shell = Err (NoCliForOptions ["--model"] "shell")
  /\ launch_tokens (mk_options (Some " opus ") (Some PmBypass)) Codex
     = Ok ["--model"; "opus"; "--dangerously-bypass-approvals-and-sandbox"]
  /\ strip_overridden (mk_options (Some " opus ") (Some PmBypass)) Codex
       ["--model"; "opus"; "--dangerously-bypass-approvals-and-sandbox"] = [].
Proof.
  split.
  - exact (proj1 (launch_tokens_correct pinned Shell) eq_refl).
  - split; [vm_compute; reflexivity|].
    apply (launch_tokens_correct (mk_options (Some " opus ") (Some PmBypass)) Codex).
    vm_compute. reflexivity.
Defined.

(** The registry's own rule says that a permission mode a CLI cannot express is refused
    by name and never approximated; yet every mode of zcode-tui, and the plan mode of devin,
    are accepted and add no flag at all. *)
Theorem some_postures_launch_without_a_flag :
  (forall mode, launch_tokens (mk_options None (Some mode)) ZcodeTui = Ok [])
  /\ launch_tokens (mk_options None (Some PmPlan)) Devin = Ok [].
Proof. split; [by intros []|vm_compute; reflexivity]. Qed.
