(* ===== verification/AgentStore.v ===== *)
(** Which CLI's session store a path belongs to (core/agent_cli.rs): the roots derived from
    the declared globs, the glob matcher, the path predicates, and the clamp that turns a
    store value into a row label. *)
From S2P Require Import Prelude RustStr AgentRegistry.
#[local] Open Scope string_scope.
#[local] Open Scope list_scope.

(** ** Slicing *)

Fixpoint str_drop (n : nat) (s : string) : string :=
  match n, s with
  | O, _ => s
  | S n', String _ s' => str_drop n' s'
  | S _, EmptyString => EmptyString
  end.

Fixpoint str_take (n : nat) (s : string) : string :=
  match n, s with
  | S n', String a s' => String a (str_take n' s')
  | _, _ => EmptyString
  end.

(** [trim_start_matches(c)]. *)
Definition trim_start_char (c : ascii) (s : string) : string :=
  strip_while (strip_char c) (String.length s) s.

(** Order-preserving unique, [unique]. *)
Fixpoint unique_from (out items : list string) : list string :=
  match items with
  | [] => out
  | item :: rest =>
    unique_from (if existsb (String.eqb item) out then out else out ++ [item]) rest
  end.

Definition unique (items : list string) : list string := unique_from [] items.

(** ** Globs *)

Fixpoint literal_end (segments : list string) : nat :=
  match segments with
  | [] => 0
  | segment :: rest =>
    if contains segment "*" then 0 else String.length segment + 1 + literal_end rest
  end.

Definition literal_prefix (glob : string) : string :=
  str_take (pred (literal_end (split_on "/" glob))) glob.

Definition glob_tail (glob : string) : string :=
  str_drop (String.length (literal_prefix glob) + 1) glob.

(** Below, [cursor] is what is left of the segment after the parts matched so far. *)
Fixpoint match_parts (parts : list string) (cursor : string) : bool :=
  match parts with
  | [] => str_is_empty cursor
  | [last] => ends_with cursor last
  | part :: rest =>
    match find_sub part cursor with
    | None => false
    | Some (_, after) => match_parts rest after
    end
  end.

Definition segment_matches (pattern segment : string) : bool :=
  match split_on "*" pattern with
  | [] => String.eqb pattern segment
  | first :: parts =>
    match strip_prefix first segment with
    | None => false
    | Some rest => match_parts parts rest
    end
  end.

Fixpoint segments_match (pattern path : list string) : bool :=
  match pattern with
  | [] => match path with [] => true | _ => false end
  | head :: pattern' =>
    if String.eqb head "**" then
      existsb (fun take => segments_match pattern' (drop take path)) (seq 0 (S (length path)))
    else
      match path with
      | [] => false
      | segment :: path' => segment_matches head segment && segments_match pattern' path'
      end
  end.

Definition glob_matches (pattern path : string) : bool :=
  segments_match (split_on "/" pattern) (split_on "/" path).

Definition path_tail_after_root (path root : string) : option string :=
  snd <$> find_sub ("/" +:+ root +:+ "/") path.

Definition file_name_of (path : string) : string := List.last (split_on "/" path) path.

(** ** The store of one CLI *)

Definition store_roots (d : AgentCliDescriptor) : list string :=
  unique (map literal_prefix (session_store_globs d)).

Definition cli_home_relative (d : AgentCliDescriptor) : option string :=
  match store_roots d with
  | [] => None
  | root :: _ => fst <$> rsplit_once "/" root
  end.

Definition cli_home_file_locators (d : AgentCliDescriptor) (names : list string) : list string :=
  match cli_home_relative d with
  | None => []
  | Some home => map (fun name => home +:+ "/" +:+ name) names
  end.

Definition remote_store_title_locators (d : AgentCliDescriptor) : list string :=
  match remote_live_store_title d with
  | None => []
  | Some StoreGlobs => session_store_globs d
  | Some (CliHomeFiles names) => cli_home_file_locators d names
  | Some (StoreGlobsAndCliHomeFiles names) =>
      session_store_globs d ++ cli_home_file_locators d names
  | Some (HomeRelative path) => [path]
  end.

Definition store_path_fragments (d : AgentCliDescriptor) : list string :=
  map (fun root => "/" +:+ root +:+ "/") (store_roots d).

Definition store_path_is_under_root (d : AgentCliDescriptor) (path : string) : bool :=
  existsb (contains path) (store_path_fragments d).

Definition durable_store_file_is (d : AgentCliDescriptor) (path : string) : bool :=
  let trimmed := trim path in
  existsb (fun file =>
    ends_with trimmed (trim_start_char "/" file)
    || ends_with trimmed ("/" +:+ trim_start_char "/" file)) (durable_store_files d).

Definition path_is_durable_store_container (path : string) : bool :=
  existsb (fun d => durable_store_file_is d path) AGENT_CLIS.

Fixpoint home_prefix_go (pairs : list (string * string)) (path : string) : option string :=
  match pairs with
  | [] => None
  | (root, fragment) :: rest =>
    match find_sub fragment path with
    | None => home_prefix_go rest path
    | Some (before, _) =>
      let keep := match rsplit_once "/" root with
                  | Some (parent, _) => 1 + String.length parent
                  | None => 1 + String.length root
                  end in
      Some (str_take (String.length before + keep) path)
    end
  end.

Definition store_home_prefix_of (d : AgentCliDescriptor) (path : string) : option string :=
  home_prefix_go (combine (store_roots d) (store_path_fragments d)) path.

Definition store_file_name_is_session (d : AgentCliDescriptor) (file_name : string) : bool :=
  if existsb (contains file_name) (store_excluded_name_fragments d) then false
  else existsb (fun glob => segment_matches (file_name_of glob) file_name) (session_store_globs d).

Definition store_path_is_session_file (d : AgentCliDescriptor) (path : string) : bool :=
  if existsb (fun fragment =>
       if contains fragment "/" then contains path fragment
       else contains (file_name_of path) fragment) (store_excluded_name_fragments d)
  then false
  else existsb (fun glob =>
         match path_tail_after_root path (literal_prefix glob) with
         | None => false
         | Some tail => glob_matches (glob_tail glob) tail
         end) (session_store_globs d).

Definition store_home_dir_names (d : AgentCliDescriptor) : list string :=
  unique (map (fun root => hd root (split_on "/" root)) (store_roots d)).

(** [segment.replace('*', "sample")]. *)
Fixpoint replace_star (s : string) : string :=
  match s with
  | EmptyString => EmptyString
  | String a s' => if Ascii.eqb a "*" then "sample" +:+ replace_star s' else String a (replace_star s')
  end.

Definition example_store_path (d : AgentCliDescriptor) (home : string) : string :=
  let glob := hd "" (session_store_globs d) in
  home +:+ "/" +:+ join "/" (map (fun segment =>
    if String.eqb segment "**" then "sample" else replace_star segment) (split_on "/" glob)).

(** ** Over the registry *)

Definition agent_cli_for_store_path (path : string) : option AgentCliDescriptor :=
  List.find (fun d => store_path_is_under_root d path) AGENT_CLIS.

Definition agent_cli_for_store_session_file (path : string) : option AgentCliDescriptor :=
  List.find (fun d => store_path_is_session_file d path) AGENT_CLIS.

Definition all_agent_cli_store_path_fragments : list string :=
  unique (List.concat (map store_path_fragments AGENT_CLIS)).

Definition CODEX_FAMILY : list SessionKind := [Codex; CodexLiteLlm].

Definition store_path_is_under_any (kinds : list SessionKind) (path : string) : bool :=
  existsb (fun d => bool_decide (kind d ∈ kinds) && store_path_is_under_root d path) AGENT_CLIS.

Definition store_home_dir_name_is_any (kinds : list SessionKind) (dir_name : string) : bool :=
  existsb (fun d => bool_decide (kind d ∈ kinds)
                    && existsb (String.eqb dir_name) (store_home_dir_names d)) AGENT_CLIS.

(** ** A store value as a row label *)

Definition is_continuation (a : ascii) : bool := in_range 128 191 (byte_of a).

(** [chars().count()]: the bytes that start a character. *)
Fixpoint char_count (s : string) : nat :=
  match s with
  | EmptyString => 0
  | String a s' => (if is_continuation a then 0 else 1) + char_count s'
  end.

(** [chars().take(n).collect()]. *)
Fixpoint take_chars (n : nat) (s : string) : string :=
  match s with
  | EmptyString => EmptyString
  | String a s' =>
    if is_continuation a then String a (take_chars n s')
    else match n with O => EmptyString | S n' => String a (take_chars n' s') end
  end.

Definition is_sentence_end (a : ascii) : bool :=
  Ascii.eqb a "." || Ascii.eqb a "!" || Ascii.eqb a "?".

(** The first piece of [split_inclusive(['.', '!', '?'])]. *)
Fixpoint first_sentence_of (s : string) : string :=
  match s with
  | EmptyString => EmptyString
  | String a s' => if is_sentence_end a then String a "" else String a (first_sentence_of s')
  end.

Definition strip_sentence_end (s : string) : option string :=
  match s with
  | String a s' => if is_sentence_end a then Some s' else None
  | EmptyString => None
  end.

Definition trim_sentence_ends (s : string) : string :=
  str_rev (strip_while strip_sentence_end (String.length s) (str_rev s)).

Definition push_word (word : string) (words : list string) : list string :=
  if str_is_empty word then words else word :: words.

(** [split_whitespace], with the word read so far; [fuel] bounds the bytes left. *)
Fixpoint split_ws_go (fuel : nat) (word s : string) : list string :=
  match fuel with
  | O => push_word word []
  | S fuel' =>
    match s with
    | EmptyString => push_word word []
    | String a s' =>
      match strip_ws s with
      | Some rest => push_word word (split_ws_go fuel' "" rest)
      | None => split_ws_go fuel' (word +:+ String a "") s'
      end
    end
  end.

Definition split_whitespace (s : string) : list string := split_ws_go (S (String.length s)) "" s.

Definition STORE_TITLE_MAX_CHARS : nat := 72.

Fixpoint clamp_words (clamped : string) (words : list string) : string :=
  match words with
  | [] => clamped
  | word :: rest =>
    let projected := if str_is_empty clamped then char_count word
                     else char_count clamped + 1 + char_count word in
    if (STORE_TITLE_MAX_CHARS <? projected)%nat then clamped
    else clamp_words (if str_is_empty clamped then word else clamped +:+ " " +:+ word) rest
  end.

Definition condense_store_title (raw : string) : option string :=
  let trimmed := trim raw in
  if str_is_empty trimmed then None
  else if (char_count trimmed <=? STORE_TITLE_MAX_CHARS)%nat && negb (contains trimmed ". ")
  then Some trimmed
  else
    let first_sentence := trim (trim_sentence_ends (trim (first_sentence_of trimmed))) in
    let candidate := if str_is_empty first_sentence then trimmed else first_sentence in
    if (char_count candidate <=? STORE_TITLE_MAX_CHARS)%nat then Some candidate
    else
      let clamped := clamp_words "" (split_whitespace candidate) in
      Some (if str_is_empty clamped then take_chars STORE_TITLE_MAX_CHARS candidate else clamped).

(** * Lemmas: the glob matcher *)

(** What a segment pattern means: its star-free parts in order, with any text between. *)
Inductive star_match : list string -> string -> Prop :=
| star_last p : star_match [p] p
| star_cons p gap ps s : star_match ps s -> star_match (p :: ps) (p +:+ gap +:+ s).

(** The same for the parts after the first: any text, then the parts. *)
Definition gap_match (ps : list string) (s : string) : Prop :=
  exists gap s', s = gap +:+ s' /\ star_match ps s'.

Lemma star_match_nil s : ~ star_match [] s.
Proof. inversion 1. Qed.

Lemma star_match_one p s : star_match [p] s <-> s = p.
Proof.
  split; [|intros ->; constructor]. intros H.
  inversion H as [|? ? ? ? Hnil]; subst; [done|]. by apply star_match_nil in Hnil.
Qed.

Lemma string_app_suffix a b c d :
  (a +:+ b = c +:+ d)%string -> String.length a <= String.length c ->
  exists w, b = w +:+ d.
Proof.
  revert c. induction a as [|x a IH]; intros c H Hl; simpl in *; [by exists c|].
  destruct c as [|y c]; simpl in *; [lia|]. injection H as -> H. apply (IH c); [done|lia].
Qed.

Lemma gap_match_prepend w ps s : gap_match ps s -> gap_match ps (w +:+ s).
Proof.
  intros (gap & s' & -> & H). exists (w +:+ gap), s'. by rewrite string_app_assoc.
Qed.

Lemma star_match_cons_inv p ps s :
  ps <> [] -> star_match (p :: ps) s <-> exists r, s = p +:+ r /\ gap_match ps r.
Proof.
  intros Hne. split.
  - inversion 1; subst; [done|]. eexists. split; [done|]. by eexists _, _.
  - intros (r & -> & gap & s' & -> & H). by constructor.
Qed.

Lemma gap_match_last p s : gap_match [p] s <-> exists r, s = r +:+ p.
Proof.
  split.
  - intros (gap & s' & -> & ->%star_match_one). by eexists.
  - intros [r ->]. exists r, p. split; [done|constructor].
Qed.

(** Taking the leftmost occurrence of a part loses no match. *)
Lemma gap_match_greedy p ps s :
  ps <> [] ->
  gap_match (p :: ps) s <->
  exists before after, find_sub p s = Some (before, after) /\ gap_match ps after.
Proof.
  intros Hne. split.
  - intros (gap & s' & -> & H). apply star_match_cons_inv in H as (r & -> & Hr); [|done].
    destruct (find_sub_least p _ gap r eq_refl) as (x & y & Hxy & Hle).
    exists x, y. split; [done|]. apply find_sub_Some in Hxy.
    rewrite !string_app_assoc in Hxy.
    destruct (string_app_suffix (x +:+ p) y (gap +:+ p) r) as [w ->]; [congruence| |].
    { rewrite !string_length_app. lia. }
    by apply gap_match_prepend.
  - intros (x & y & Hxy & Hy). apply find_sub_Some in Hxy as ->.
    exists x, (p +:+ y). split; [done|]. apply star_match_cons_inv; [done|]. by exists y.
Qed.

Lemma match_parts_correct ps s : ps <> [] -> match_parts ps s = true <-> gap_match ps s.
Proof.
  revert s. induction ps as [|p ps IH]; intros s Hne; [done|].
  destruct ps as [|q ps].
  - change (match_parts [p] s) with (ends_with s p). by rewrite ends_with_spec, gap_match_last.
  - rewrite gap_match_greedy by done.
    change (match_parts (p :: q :: ps) s) with
      (match find_sub p s with None => false | Some (_, after) => match_parts (q :: ps) after end).
    destruct (find_sub p s) as [[x y]|].
    + rewrite IH by done. split; [by eexists _, _|]. intros (? & ? & [= <- <-] & ?). done.
    + split; [done|]. by intros (? & ? & ? & _).
Qed.

Lemma segment_matches_correct pattern segment :
  segment_matches pattern segment = true <-> star_match (split_on "*" pattern) segment.
Proof.
  unfold segment_matches. destruct (split_on "*" pattern) as [|first parts] eqn:E.
  { by apply split_on_nonempty in E. }
  destruct (strip_prefix first segment) as [rest|] eqn:Hp.
  - apply strip_prefix_Some in Hp as ->. destruct parts as [|q parts].
    + rewrite star_match_one. cbn. split.
      * destruct rest; [|done]. intros _. apply string_app_nil_r.
      * intros H. rewrite <- (string_app_nil_r first) in H at 2.
        by apply string_app_inv_l in H as ->.
    + rewrite match_parts_correct, star_match_cons_inv by done. split; [by eexists|].
      intros (r & Hr & ?). by apply string_app_inv_l in Hr as ->.
  - split; [done|]. intros H. exfalso.
    enough (exists r, segment = first +:+ r) as [r Hr].
    { apply strip_prefix_Some in Hr. congruence. }
    inversion H; subst; [exists ""; by rewrite string_app_nil_r|by eexists].
Qed.

(** What a path pattern means: a double star is any number of segments. *)
Inductive path_match : list string -> list string -> Prop :=
| path_nil : path_match [] []
| path_stars ps skipped rest : path_match ps rest -> path_match ("**" :: ps) (skipped ++ rest)
| path_segment p ps s ss :
    p <> "**" -> star_match (split_on "*" p) s -> path_match ps ss ->
    path_match (p :: ps) (s :: ss).

Lemma segments_match_correct pattern path :
  segments_match pattern path = true <-> path_match pattern path.
Proof.
  revert path. induction pattern as [|p ps IH]; intros path.
  - destruct path; simpl; split; try done; [constructor|by inversion 1].
  - cbn [segments_match]. destruct (String.eqb_spec p "**") as [->|Hp].
    + rewrite existsb_exists. split.
      * intros (n & _ & Hn%IH). rewrite <- (take_drop n path). by constructor.
      * inversion 1 as [|? skipped rest Hm|]; subst; [|done]. exists (length skipped).
        split; [apply in_seq; rewrite length_app; lia|]. apply IH.
        by rewrite drop_app_length.
    + destruct path as [|s ss].
      * split; [done|]. by inversion 1.
      * rewrite andb_true_iff, segment_matches_correct, IH. split.
        -- intros [??]. by constructor.
        -- by inversion 1.
Qed.

(** ** Roots *)

Lemma elem_of_unique_from out items x : x ∈ unique_from out items <-> x ∈ out \/ x ∈ items.
Proof.
  revert out. induction items as [|y items IH]; intros out; cbn [unique_from]; [set_solver|].
  rewrite IH. destruct (existsb (String.eqb y) out) eqn:E; [|set_solver].
  apply existsb_exists in E as (z & Hz & ->%String.eqb_eq). apply list_elem_of_In in Hz.
  set_solver.
Qed.

Lemma elem_of_unique items x : x ∈ unique items <-> x ∈ items.
Proof. unfold unique. rewrite elem_of_unique_from. set_solver. Qed.

Lemma NoDup_unique_from out items : NoDup out -> NoDup (unique_from out items).
Proof.
  revert out. induction items as [|y items IH]; intros out Hout; cbn [unique_from]; [done|].
  apply IH. destruct (existsb (String.eqb y) out) eqn:E; [done|].
  apply NoDup_app. split_and!; [done| |apply NoDup_singleton].
  intros z Hz ->%list_elem_of_singleton. apply not_true_iff_false in E. apply E.
  apply existsb_exists. exists y. split; [by apply list_elem_of_In|apply String.eqb_refl].
Qed.

Lemma under_root_spec d path :
  store_path_is_under_root d path = true <->
  exists root, root ∈ store_roots d /\ contains path ("/" +:+ root +:+ "/") = true.
Proof.
  unfold store_path_is_under_root, store_path_fragments. rewrite existsb_exists. split.
  - intros (f & (root & <- & Hr)%in_map_iff & Hc). exists root.
    split; [by apply list_elem_of_In|done].
  - intros (root & Hr & Hc). eexists. split; [|exact Hc]. apply in_map_iff. exists root.
    split; [done|by apply list_elem_of_In].
Qed.

Lemma session_file_under_root d path :
  store_path_is_session_file d path = true -> store_path_is_under_root d path = true.
Proof.
  unfold store_path_is_session_file. destruct (existsb _ (store_excluded_name_fragments d)); [done|].
  rewrite existsb_exists. intros (glob & Hg & Hm). apply under_root_spec.
  exists (literal_prefix glob). split.
  - apply elem_of_unique, list_elem_of_In, in_map_iff. by exists glob.
  - revert Hm. unfold path_tail_after_root, contains. by destruct (find_sub _ path).
Qed.

Lemma home_prefix_go_spec roots path :
  let pairs := combine roots (map (fun root => "/" +:+ root +:+ "/") roots) in
  (is_Some (home_prefix_go pairs path) <->
   exists root, root ∈ roots /\ contains path ("/" +:+ root +:+ "/") = true)
  /\ (forall p, home_prefix_go pairs path = Some p -> exists n, p = str_take n path).
Proof.
  induction roots as [|root roots [IH1 IH2]]; cbn [map combine home_prefix_go].
  { split; [|done]. split; [by intros []|]. intros (? & ?%elem_of_nil & _). done. }
  destruct (find_sub ("/" +:+ root +:+ "/") path) as [[before after]|] eqn:E.
  - split; [|intros p [= <-]; by eexists]. split; [|by intros _]. intros _.
    exists root. split; [left|]. unfold contains. by rewrite E.
  - split; [|done]. rewrite IH1. split.
    + intros (r & Hr & Hc). exists r. split; [by right|done].
    + intros (r & Hr & Hc). apply elem_of_cons in Hr as [->|Hr]; [|by exists r].
      unfold contains in Hc. by rewrite E in Hc.
Qed.

(** ** Counting characters *)

Lemma char_count_app s t : char_count (s +:+ t) = char_count s + char_count t.
Proof. induction s as [|a s IH]; simpl; [done|]. rewrite IH. lia. Qed.

Lemma char_count_take n s : char_count (take_chars n s) <= n.
Proof.
  revert n. induction s as [|a s IH]; intros n; simpl; [lia|].
  destruct (is_continuation a) eqn:E; simpl; [rewrite E; apply IH|].
  destruct n; simpl; [lia|]. rewrite E. specialize (IH n). lia.
Qed.

Lemma clamp_words_bound clamped words :
  char_count clamped <= STORE_TITLE_MAX_CHARS ->
  char_count (clamp_words clamped words) <= STORE_TITLE_MAX_CHARS.
Proof.
  revert clamped. induction words as [|w words IH]; intros clamped Hc; cbn [clamp_words]; [done|].
  destruct (str_is_empty clamped); case_match eqn:E; try done; apply Nat.ltb_ge in E;
    apply IH; rewrite ?char_count_app; change (char_count " ") with 1; lia.
Qed.

(** * Properties *)

(** The glob matcher decides what its patterns say: a path matches when its segments can
    be consumed in order, a double star standing for any number of segments, and each other
    pattern segment for one path segment in which the star-free parts occur in order, the
    first as a prefix and the last as a suffix.  Taking the leftmost occurrence of each part
    never misses a match. *)
Theorem glob_matches_correct pattern path :
  (glob_matches pattern path = true <-> path_match (split_on "/" pattern) (split_on "/" path))
  /\ (segment_matches pattern path = true <-> star_match (split_on "*" pattern) path).
Proof. split; [apply segments_match_correct|apply segment_matches_correct]. Qed.

(** The store predicates of a descriptor agree with each other: a session file lies under
    a store root, the home prefix exists exactly for a path under a root and is a prefix of
    it; and the roots of the registered CLIs are mutually exclusive, no CLI's path fragment
    occurring in another's, so every example path is claimed by its own CLI. *)
Theorem store_predicates_agree :
  (forall d path, store_path_is_session_file d path = true ->
     store_path_is_under_root d path = true)
  /\ (forall d path, is_Some (store_home_prefix_of d path)
        <-> store_path_is_under_root d path = true)
  /\ (forall d path p, store_home_prefix_of d path = Some p -> exists n, p = str_take n path)
  /\ (forall d, NoDup (store_roots d))
  /\ forallb (fun d1 => forallb (fun d2 =>
        bool_decide (kind d1 = kind d2)
        || forallb (fun f1 => forallb (fun f2 => negb (contains f1 f2)) (store_path_fragments d2))
             (store_path_fragments d1)) AGENT_CLIS) AGENT_CLIS = true
  /\ forallb (fun d =>
        match session_store_globs d with
        | [] => true
        | _ => match agent_cli_for_store_session_file (example_store_path d "/home/user") with
               | Some d' => bool_decide (kind d' = kind d)
               | None => false
               end
        end) AGENT_CLIS = true.
Proof.
  split_and!; [apply session_file_under_root|..].
  - intros d path. rewrite under_root_spec. apply (home_prefix_go_spec (store_roots d) path).
  - intros d path. apply (home_prefix_go_spec (store_roots d) path).
  - intros d. apply NoDup_unique_from. constructor.
  - vm_compute. reflexivity.
  - vm_compute. reflexivity.
Qed.

Lemma store_predicates_agree_witness :
  store_path_is_session_file codex_cli "/home/u/.codex/sessions/2026/07/rollout-a-b.jsonl" = true
  /\ store_path_is_under_root codex_cli "/home/u/.codex/sessions/2026/07/rollout-a-b.jsonl" = true.
Proof.
  split; [vm_compute; reflexivity|].
  apply (proj1 store_predicates_agree). vm_compute. reflexivity.
Defined.

(** A store value becomes a row label of at most 72 characters and at least one, and is
    dropped exactly when it is blank. *)
Theorem condense_store_title_bounded raw :
  (condense_store_title raw = None <-> trim raw = "")
  /\ forall title, condense_store_title raw = Some title ->
     char_count title <= STORE_TITLE_MAX_CHARS /\ title <> "".
Proof.
  unfold condense_store_title. generalize (trim raw) as trimmed. intros trimmed.
  destruct (str_is_empty trimmed) eqn:He.
  { destruct trimmed; [|done]. split; [done|]. intros ? [=]. }
  assert (trimmed <> "") as Ht by (by intros ->). clear He.
  split; [cbv zeta; repeat case_match; split; intros; simplify_eq; done|].
  intros title. destruct (_ && _) eqn:E1.
  { intros [= <-]. apply andb_true_iff in E1 as [E1%Nat.leb_le _]. split; [done|congruence]. }
  set (first := trim (trim_sentence_ends _)). clearbody first.
  set (candidate := if str_is_empty first then trimmed else first).
  assert (candidate <> "") as Hne by (subst candidate; by destruct first).
  destruct (Nat.leb_spec (char_count candidate) STORE_TITLE_MAX_CHARS).
  { intros [= <-]. done. }
  intros [= <-]. destruct (str_is_empty (clamp_words _ _)) eqn:E2.
  - split; [apply char_count_take|]. destruct candidate as [|b c]; [done|]. cbn.
    by destruct (is_continuation b).
  - split; [by apply clamp_words_bound; cbn; lia|]. by intros Hc; rewrite Hc in E2.
Qed.

Lemma condense_store_title_bounded_witness :
  condense_store_title "Fix the build. Then ship it." = Some "Fix the build"
  /\ char_count "Fix the build" <= STORE_TITLE_MAX_CHARS.
Proof.
  split; [vm_compute; reflexivity|].
  apply (condense_store_title_bounded "Fix the build. Then ship it."). vm_compute. reflexivity.
Defined.
