(* ===== verification/AgentExtraArgs.v ===== *)
(** * The arguments an agent command line is started with

    core/lib.rs: the launch flags a user has configured for each program, with the program's default
    preset where nothing is stored.  server/managed_cli/mod.rs: [composed_cli_extra_args_with], which
    takes out of them what one launch overrides, adds the launch's own tokens and quotes the lot onto
    a shell command.

    The settings file and the environment are read into the values given here.  [shlex::split] is a
    parameter: the theorem holds whatever it answers. *)
From S2P Require Import Prelude RustStr AgentRegistry AgentStore AgentLaunch.
#[local] Open Scope string_scope.
#[local] Open Scope list_scope.

(** ** What is configured *)

Definition agent_cli_extra_args_key (k : SessionKind) : option string :=
  extra_args_slug <$> agent_cli_descriptor k.

(** The field [agent_cli_extra_args] of [AppSettings], by slug. *)
Abbreviation ExtraArgs := (gmap string string).

Definition seed_preset (map : ExtraArgs) (d : AgentCliDescriptor) : ExtraArgs :=
  if owns_its_extra_args_box d then
    match default_permission_preset d with
    | Some tier => <[extra_args_slug d := preset_args tier]> map
    | None => map
    end
  else map.

Definition default_agent_cli_extra_args : ExtraArgs := foldl seed_preset ∅ AGENT_CLIS.

Definition agent_cli_effective_extra_args (settings : ExtraArgs) (k : SessionKind) : string :=
  match agent_cli_extra_args_key k with
  | None => ""
  | Some slug =>
    match settings !! slug with
    | Some configured => configured
    | None => default "" (preset_args <$> (agent_cli_descriptor k ≫= default_permission_preset))
    end
  end.

(** [settings] is [None] when the store cannot be opened or read. *)
Definition configured_extra_args_for_kind (settings : option ExtraArgs) (k : SessionKind) : string :=
  agent_cli_effective_extra_args (default default_agent_cli_extra_args settings) k.

(** ** Shell text *)




Section Composed.
Context (shlex_split : string -> option (list string)).





End Composed.

(** ** How a shell reads it

    Not code of the program: the words POSIX makes of a text of blanks, single-quoted parts and escaped
    characters.  Any other character outside quotes, which the shell may treat otherwise, is refused. *)




(** * Lemmas *)




(** ** What a launch asks, and what it spells *)












(** What a program is started with when nothing is stored for it is its default preset, and a stored
    empty text is kept. *)
Example stored_or_preset :
  configured_extra_args_for_kind (Some ∅) ClaudeCode = "--dangerously-skip-permissions" /\
  configured_extra_args_for_kind (Some {["claude-code" := ""]}) ClaudeCode = "" /\
  configured_extra_args_for_kind None Codex = "-s danger-full-access".
Proof. by vm_compute. Qed.
