(* ===== verification/AgentScheme.v ===== *)
(** The scheme registry (core/agent_scheme.rs) and the row identities and runtime keys
    the server reads off a path (server/lib.rs). *)
From S2P Require Import Prelude RustStr AgentRegistry AgentStore.
#[local] Open Scope string_scope.
#[local] Open Scope list_scope.

Inductive SchemeRole : Type := RowIdentity | RuntimeKey | RowAndRuntimeKey.
Inductive SchemeLocality : Type := Local | Remote.

Record SchemeDescriptor : Type := scheme {
  prefix : string;
  role : SchemeRole;
  locality : SchemeLocality;
  scheme_kind : option SessionKind;
  agent : bool;
  legacy : bool;
  example : string
}.

Definition first_agent_schemes : list SchemeDescriptor :=
  [scheme "local://" RowAndRuntimeKey Local None true false
     "local://00000000-0000-4000-8000-00000000qw01";
   scheme "remote-session://" RowIdentity Remote (Some Codex) true false
     "remote-session://devhost/00000000-0000-4000-8000-00000000gr02";
   scheme "remote-cc://" RowIdentity Remote (Some ClaudeCode) true false
     "remote-cc://devhost/00000000-0000-4000-8000-00000000cx03";
   scheme "codex-runtime://" RuntimeKey Remote (Some Codex) true false
     "codex-runtime://00000000-0000-4000-8000-00000000ms04";
   scheme "cc-runtime://" RuntimeKey Remote (Some ClaudeCode) true false
     "cc-runtime://00000000-0000-4000-8000-00000000un05"].

Definition intake_schemes_a : list SchemeDescriptor :=
  [scheme "remote-pi://" RowIdentity Remote (Some Pi) true false
     "remote-pi://devhost/00000000-0000-4000-8000-000000000006";
   scheme "pi-runtime://" RuntimeKey Remote (Some Pi) true false
     "pi-runtime://00000000-0000-4000-8000-000000000026";
   scheme "remote-opencode://" RowIdentity Remote (Some OpenCode) true false
     "remote-opencode://devhost/00000000-0000-4000-8000-000000000007";
   scheme "opencode-runtime://" RuntimeKey Remote (Some OpenCode) true false
     "opencode-runtime://00000000-0000-4000-8000-000000000027";
   scheme "remote-qwen://" RowIdentity Remote (Some QwenCode) true false
     "remote-qwen://devhost/00000000-0000-4000-8000-000000000008";
   scheme "qwen-runtime://" RuntimeKey Remote (Some QwenCode) true false
     "qwen-runtime://00000000-0000-4000-8000-000000000028";
   scheme "remote-kimi://" RowIdentity Remote (Some Kimi) true false
     "remote-kimi://devhost/00000000-0000-4000-8000-000000000009";
   scheme "kimi-runtime://" RuntimeKey Remote (Some Kimi) true false
     "kimi-runtime://00000000-0000-4000-8000-000000000029";
   scheme "remote-muse://" RowIdentity Remote (Some Muse) true false
     "remote-muse://devhost/00000000-0000-4000-8000-000000000010";
   scheme "muse-runtime://" RuntimeKey Remote (Some Muse) true false
     "muse-runtime://00000000-0000-4000-8000-000000000030"].

Definition intake_schemes_b : list SchemeDescriptor :=
  [scheme "remote-agy://" RowIdentity Remote (Some Antigravity) true false
     "remote-agy://devhost/00000000-0000-4000-8000-000000000011";
   scheme "agy-runtime://" RuntimeKey Remote (Some Antigravity) true false
     "agy-runtime://00000000-0000-4000-8000-000000000031";
   scheme "remote-grok://" RowIdentity Remote (Some GrokBuild) true false
     "remote-grok://devhost/00000000-0000-4000-8000-0000000000cd";
   scheme "grok-runtime://" RuntimeKey Remote (Some GrokBuild) true false
     "grok-runtime://00000000-0000-4000-8000-0000000000ce";
   scheme "remote-zcode-tui://" RowIdentity Remote (Some ZcodeTui) true false
     "remote-zcode-tui://devhost/00000000-0000-4000-8000-000000000032";
   scheme "zcode-tui-runtime://" RuntimeKey Remote (Some ZcodeTui) true false
     "zcode-tui-runtime://00000000-0000-4000-8000-000000000033";
   scheme "remote-devin://" RowIdentity Remote (Some Devin) true false
     "remote-devin://devhost/00000000-0000-4000-8000-00000000d300";
   scheme "devin-runtime://" RuntimeKey Remote (Some Devin) true false
     "devin-runtime://00000000-0000-4000-8000-00000000d301";
   scheme "remote-mimo://" RowIdentity Remote (Some MimoCode) true false
     "remote-mimo://devhost/00000000-0000-4000-8000-00000000d400";
   scheme "mimo-runtime://" RuntimeKey Remote (Some MimoCode) true false
     "mimo-runtime://00000000-0000-4000-8000-00000000d401"].

Definition non_agent_schemes : list SchemeDescriptor :=
  [scheme "live::" RowAndRuntimeKey Local (Some Shell) false false
     "live::00000000-0000-4000-8000-000000000006";
   scheme "ssh://" RowIdentity Remote (Some SshShell) false false
     "ssh://devhost/00000000-0000-4000-8000-000000000007";
   scheme "document::" RowIdentity Local (Some Document) false false
     "document::00000000-0000-4000-8000-000000000008"].

Definition legacy_schemes : list SchemeDescriptor :=
  [scheme "codex://" RowAndRuntimeKey Local (Some Codex) true true
     "codex://00000000-0000-4000-8000-000000000009";
   scheme "codex::" RowAndRuntimeKey Local (Some Codex) true true
     "codex::00000000-0000-4000-8000-00000000000a";
   scheme "codex-litellm://" RowAndRuntimeKey Local (Some CodexLiteLlm) true true
     "codex-litellm://00000000-0000-4000-8000-00000000000b";
   scheme "codex-litellm::" RowAndRuntimeKey Local (Some CodexLiteLlm) true true
     "codex-litellm::00000000-0000-4000-8000-00000000000c";
   scheme "local::" RowAndRuntimeKey Local None true true
     "local::00000000-0000-4000-8000-00000000000d";
   scheme "remote-runtime://" RowIdentity Remote None true true
     "remote-runtime://devhost/00000000-0000-4000-8000-00000000000e"].

Definition SESSION_PATH_SCHEMES : list SchemeDescriptor :=
  first_agent_schemes ++ intake_schemes_a ++ intake_schemes_b ++ non_agent_schemes ++ legacy_schemes.

(** ** Filters *)

Definition names_row (s : SchemeDescriptor) : bool :=
  match role s with RowIdentity | RowAndRuntimeKey => true | RuntimeKey => false end.
Definition names_runtime (s : SchemeDescriptor) : bool :=
  match role s with RuntimeKey | RowAndRuntimeKey => true | RowIdentity => false end.
Definition is_remote (s : SchemeDescriptor) : bool :=
  match locality s with Remote => true | Local => false end.

Definition agent_row_identity_schemes : list SchemeDescriptor :=
  List.filter (fun s => agent s && negb (legacy s) && names_row s) SESSION_PATH_SCHEMES.
Definition agent_runtime_key_schemes : list SchemeDescriptor :=
  List.filter (fun s => agent s && negb (legacy s) && names_runtime s) SESSION_PATH_SCHEMES.
Definition remote_agent_schemes : list SchemeDescriptor :=
  List.filter (fun s => agent s && negb (legacy s) && is_remote s) SESSION_PATH_SCHEMES.
Definition remote_agent_row_schemes : list SchemeDescriptor :=
  List.filter (fun s => agent s && negb (legacy s) && is_remote s && names_row s)
    SESSION_PATH_SCHEMES.
Definition remote_row_schemes : list SchemeDescriptor :=
  List.filter (fun s => negb (legacy s) && is_remote s && names_row s) SESSION_PATH_SCHEMES.
Definition legacy_alias_schemes : list SchemeDescriptor :=
  List.filter legacy SESSION_PATH_SCHEMES.

Definition scheme_for_prefix (p : string) : option SchemeDescriptor :=
  List.find (fun s => String.eqb (prefix s) p) SESSION_PATH_SCHEMES.

(** [find_map(|scheme| path.strip_prefix(scheme.prefix))], with the scheme found. *)
Fixpoint find_scheme (schemes : list SchemeDescriptor) (path : string)
    : option (SchemeDescriptor * string) :=
  match schemes with
  | [] => None
  | s :: rest =>
    match strip_prefix (prefix s) path with
    | Some r => Some (s, r)
    | None => find_scheme rest path
    end
  end.

(** ** The kind a path names *)

Definition session_kind_for_path (path : string) : option SessionKind :=
  match find_scheme (List.filter agent SESSION_PATH_SCHEMES) (trim_start path) with
  | Some (s, _) => scheme_kind s
  | None => None
  end.

Definition session_kind_for_row (full_path icon_kind : string) : option SessionKind :=
  match session_kind_for_path full_path with
  | Some k => Some k
  | None =>
    match agent_cli_for_store_path full_path with
    | Some d => Some (kind d)
    | None =>
      let icon_kind := trim icon_kind in
      if str_is_empty icon_kind then None
      else if String.eqb icon_kind "session" then Some Codex
      else kind <$> List.find (fun d => String.eqb (slug d) icon_kind) AGENT_CLIS
    end
  end.

Definition session_kind_for_scanned_row (session_path : string)
    (kind_on_wire : option SessionKind) : SessionKind :=
  match kind_on_wire with
  | Some k => k
  | None =>
    match session_kind_for_path session_path with
    | Some k => k
    | None =>
      let trimmed := trim_start session_path in
      if starts_with trimmed "local://" then Shell
      else if starts_with trimmed "live::" || starts_with trimmed "ssh://" then SshShell
      else match agent_cli_for_store_path session_path with
           | Some d => kind d
           | None => Shell
           end
    end
  end.

(** ** Remote row paths *)

Definition remote_agent_session_path (k : SessionKind) (machine_key session_id : string) : string :=
  let p := match List.find (fun s => bool_decide (scheme_kind s = Some k)) remote_agent_row_schemes with
           | Some s => prefix s
           | None => "remote-session://"
           end in
  p +:+ machine_key +:+ "/" +:+ session_id.

Definition parse_remote_agent_session_path (path : string)
    : option (SessionKind * string * string) :=
  match find_scheme remote_agent_row_schemes (trim_start path) with
  | None => None
  | Some (s, rest) =>
    match scheme_kind s with
    | None => None
    | Some k =>
      match split_once "/" rest with
      | None => None
      | Some (machine_key, session_id) =>
        let machine_key := trim machine_key in
        let session_id := trim session_id in
        if str_is_empty machine_key || str_is_empty session_id then None
        else Some (k, machine_key, session_id)
      end
    end
  end.

Definition is_remote_agent_session_path (path : string) : bool :=
  existsb (fun s => starts_with (trim_start path) (prefix s)) remote_agent_row_schemes.

Definition remote_row_machine_key (path : string) : option string :=
  match find_scheme remote_row_schemes (trim_start path) with
  | None => None
  | Some (_, rest) =>
    let key := trim (hd "" (split_on "/" rest)) in
    if str_is_empty key then None else Some key
  end.

Definition is_remote_row_path (path : string) : bool :=
  existsb (fun s => starts_with (trim_start path) (prefix s)) remote_row_schemes.

(** ** The server's readings of a path *)

(** server/lib.rs [parse_remote_agent_session_path_with_kind]: no trimming. *)
Fixpoint find_remote_row (schemes : list SchemeDescriptor) (path : string)
    : option (string * string * SessionKind) :=
  match schemes with
  | [] => None
  | s :: rest =>
    match scheme_kind s, strip_prefix (prefix s) path with
    | Some k, Some r =>
      match split_once "/" r with
      | Some (machine_key, session_id) => Some (machine_key, session_id, k)
      | None => find_remote_row rest path
      end
    | _, _ => find_remote_row rest path
    end
  end.

Definition parse_remote_agent_session_path_with_kind (path : string)
    : option (string * string * SessionKind) := find_remote_row remote_agent_row_schemes path.

(** server/lib.rs [remote_agent_session_path]. *)
Definition server_remote_agent_session_path (k : SessionKind) (machine_key session_id : string)
    : option string :=
  match agent_cli_descriptor k with
  | None => None
  | Some d => (fun s => s +:+ machine_key +:+ "/" +:+ session_id) <$> remote_row_scheme d
  end.

Definition session_path_is_remote_agent (path : string) : bool :=
  is_Some_b (parse_remote_agent_session_path_with_kind path).

(** server/lib.rs [session_path_is_remote]. *)
Definition session_path_is_remote (path : string) : bool :=
  starts_with path "remote-cc://" || starts_with path "remote-session://"
  || starts_with path "remote-runtime://".

Definition local_id_schemes : list SchemeDescriptor :=
  List.filter (fun s => negb (is_remote s) || names_runtime s) SESSION_PATH_SCHEMES.

Definition local_runtime_id_from_key (key : string) : option string :=
  match find_scheme local_id_schemes key with
  | Some (_, id) => if str_is_empty (trim id) then None else Some id
  | None => None
  end.

Definition local_live_runtime_key (session_id : string) : string := "local://" +:+ session_id.

Definition canonical_local_live_runtime_key (key session_id : string) : string :=
  if existsb (fun s => starts_with key (prefix s)) agent_runtime_key_schemes then key
  else match local_runtime_id_from_key key with
       | Some id => local_live_runtime_key id
       | None => local_live_runtime_key session_id
       end.

Definition normalized_live_row_identity (key : string) : string :=
  match local_runtime_id_from_key key with
  | Some id => "id::" +:+ id
  | None => key
  end.

Definition stored_document_owns_runtime_uri (k : SessionKind) (path : string) : bool :=
  bool_decide (k = Document) && is_Some_b (local_runtime_id_from_key path).

Definition parse_remote_runtime_agent_session_key (path : string) : option string :=
  snd <$> find_scheme agent_runtime_key_schemes path.

Definition agent_store_recoverable_row (key : string) (k : SessionKind) (local_row : bool) : bool :=
  ((local_row || is_Some_b (local_runtime_id_from_key key)) && is_agent k)
  || session_path_is_remote_agent key.

(** * Lemmas *)

Lemma strip_prefix_either q p r t :
  strip_prefix q (p +:+ r) = Some t -> starts_with p q = true \/ starts_with q p = true.
Proof.
  revert q. induction p as [|a p IH]; intros q H; [by right; apply starts_with_spec; exists q|].
  destruct q as [|b q]; [left; by apply starts_with_spec; exists (String a p)|]. cbn in H.
  unfold starts_with. cbn. rewrite (Ascii.eqb_sym a b).
  destruct (Ascii.eqb_spec b a) as [->|]; [|done]. by apply IH.
Qed.

Definition comparable (s1 s2 : SchemeDescriptor) : bool :=
  starts_with (prefix s1) (prefix s2) || starts_with (prefix s2) (prefix s1).

(** No prefix of the table is a prefix of another, so the order of the table is immaterial. *)
Lemma table_prefix_free s1 s2 :
  s1 ∈ SESSION_PATH_SCHEMES -> s2 ∈ SESSION_PATH_SCHEMES -> comparable s1 s2 = true -> s1 = s2.
Proof.
  assert (forallb (fun '(i, s1) => forallb (fun '(j, s2) =>
            Nat.eqb i j || negb (comparable s1 s2)) (imap pair SESSION_PATH_SCHEMES))
          (imap pair SESSION_PATH_SCHEMES) = true) as Hall by (vm_compute; reflexivity).
  intros [i Hi]%list_elem_of_lookup [j Hj]%list_elem_of_lookup Hc.
  rewrite forallb_forall in Hall.
  assert (forall k s, SESSION_PATH_SCHEMES !! k = Some s ->
            In (k, s) (imap pair SESSION_PATH_SCHEMES)) as Hin.
  { intros k s Hk. apply list_elem_of_In, list_elem_of_lookup. exists k.
    by rewrite list_lookup_imap, Hk. }
  specialize (Hall _ (Hin _ _ Hi)). cbn beta iota in Hall. rewrite forallb_forall in Hall.
  specialize (Hall _ (Hin _ _ Hj)). cbn beta iota in Hall. rewrite Hc, orb_false_r in Hall.
  apply Nat.eqb_eq in Hall as ->. congruence.
Qed.

Lemma find_scheme_prefix schemes s r :
  (forall x, x ∈ schemes -> x ∈ SESSION_PATH_SCHEMES) -> s ∈ schemes ->
  find_scheme schemes (prefix s +:+ r) = Some (s, r).
Proof.
  intros Hsub Hs. assert (s ∈ SESSION_PATH_SCHEMES) as Hst by auto.
  induction schemes as [|x schemes IH]; [by apply elem_of_nil in Hs|]. cbn [find_scheme].
  destruct (strip_prefix (prefix x) (prefix s +:+ r)) as [t|] eqn:E.
  - assert (s = x) as ->.
    { apply table_prefix_free; [done|apply Hsub; left|]. unfold comparable.
      by destruct (strip_prefix_either _ _ _ _ E) as [->| ->]; rewrite ?orb_true_r. }
    by rewrite strip_prefix_app in E; injection E as <-.
  - apply elem_of_cons in Hs as [->|Hs]; [by rewrite strip_prefix_app in E|].
    apply IH; [|done]. intros; apply Hsub; by right.
Qed.

Lemma find_scheme_Some schemes path s r :
  find_scheme schemes path = Some (s, r) -> s ∈ schemes /\ path = prefix s +:+ r.
Proof.
  induction schemes as [|x schemes IH]; cbn; [done|].
  destruct (strip_prefix (prefix x) path) as [t|] eqn:E.
  - intros [= <- <-]. split; [left|by apply strip_prefix_Some].
  - intros [? ?]%IH. split; [by right|done].
Qed.

Lemma filter_subset (f : SchemeDescriptor -> bool) x :
  x ∈ List.filter f SESSION_PATH_SCHEMES -> x ∈ SESSION_PATH_SCHEMES.
Proof. rewrite !list_elem_of_In. by intros [? _]%filter_In. Qed.

Lemma elem_of_filter_table (f : SchemeDescriptor -> bool) s :
  s ∈ List.filter f SESSION_PATH_SCHEMES <-> s ∈ SESSION_PATH_SCHEMES /\ f s = true.
Proof. by rewrite !list_elem_of_In, filter_In. Qed.

Lemma prefix_plain s :
  s ∈ SESSION_PATH_SCHEMES -> exists a p, prefix s = String a p /\ plain a = true.
Proof.
  intros Hs. repeat (apply elem_of_cons in Hs as [->|Hs]; [by eexists _, _|]).
  by apply elem_of_nil in Hs.
Qed.

Lemma trim_start_prefix s r :
  s ∈ SESSION_PATH_SCHEMES -> trim_start (prefix s +:+ r) = prefix s +:+ r.
Proof.
  intros (a & p & -> & Ha)%prefix_plain. rewrite trim_start_step. cbn [append].
  by rewrite strip_ws_plain.
Qed.

(** The remote row scheme of a kind. *)
Definition kind_row_scheme (k : SessionKind) : option SchemeDescriptor :=
  List.find (fun s => bool_decide (scheme_kind s = Some k)) remote_agent_row_schemes.

Definition declared_row_scheme (k : SessionKind) : option string :=
  agent_cli_descriptor k ≫= remote_row_scheme.

Lemma kind_row_scheme_declared k : prefix <$> kind_row_scheme k = declared_row_scheme k.
Proof. by destruct k; vm_compute. Qed.

Lemma remote_row_of_kind k p :
  declared_row_scheme k = Some p ->
  exists s, s ∈ remote_agent_row_schemes /\ prefix s = p /\ scheme_kind s = Some k
    /\ forall m i, remote_agent_session_path k m i = prefix s +:+ m +:+ "/" +:+ i.
Proof.
  rewrite <- kind_row_scheme_declared. unfold kind_row_scheme, remote_agent_session_path.
  destruct (List.find _ remote_agent_row_schemes) as [s|] eqn:E; [|done].
  intros [= <-]. exists s. pose proof (find_some _ _ E) as [Hs Hk%bool_decide_eq_true].
  split_and!; [by apply list_elem_of_In|done|done|done].
Qed.

Lemma remote_agent_row_remote_row s : s ∈ remote_agent_row_schemes -> s ∈ remote_row_schemes.
Proof.
  unfold remote_agent_row_schemes, remote_row_schemes. rewrite !elem_of_filter_table.
  intros [? H]. split; [done|]. rewrite !andb_true_iff in *. naive_solver.
Qed.

Lemma remote_agent_row_not_local s : s ∈ remote_agent_row_schemes -> s ∉ local_id_schemes.
Proof.
  unfold remote_agent_row_schemes, local_id_schemes. rewrite !elem_of_filter_table.
  intros Hs. intros Hl. destruct Hs as [Hs1 Hs2], Hl as [_ Hl].
  revert Hs1 Hs2 Hl. intros Hin.
  repeat (apply elem_of_cons in Hin as [->|Hin]; [by vm_compute|]). by apply elem_of_nil in Hin.
Qed.

Lemma split_once_slash m i : free_of "/" m = true -> split_once "/" (m +:+ "/" +:+ i) = Some (m, i).
Proof. intros H. by apply split_once_Some. Qed.

Lemma split_on_hd c m i : free_of c m = true -> hd "" (split_on c (m +:+ String c i)) = m.
Proof. intros H. by rewrite split_on_app. Qed.

(** The server's parser finds the same scheme. *)
Lemma parse_with_kind_prefix s k m i :
  s ∈ remote_agent_row_schemes -> scheme_kind s = Some k -> free_of "/" m = true ->
  parse_remote_agent_session_path_with_kind (prefix s +:+ m +:+ "/" +:+ i) = Some (m, i, k).
Proof.
  unfold parse_remote_agent_session_path_with_kind. intros Hs Hk Hm.
  assert (forall x, x ∈ remote_agent_row_schemes -> x ∈ SESSION_PATH_SCHEMES) as Hsub
    by apply filter_subset.
  revert Hs Hsub. generalize remote_agent_row_schemes as l.
  induction l as [|x l IH]; intros Hs Hsub; [by apply elem_of_nil in Hs|]. cbn [find_remote_row].
  assert (s = x \/ s <> x /\ s ∈ l) as [->|[Hne Hl]].
  { destruct (decide (prefix s = prefix x)) as [Heq|Hne].
    - left. apply table_prefix_free; [by apply Hsub|apply Hsub; left|].
      unfold comparable. rewrite Heq. apply orb_true_iff. left. apply starts_with_spec. exists "".
      by rewrite string_app_nil_r.
    - right. apply elem_of_cons in Hs as [->|Hs]; [done|]. split; [congruence|done]. }
  - rewrite Hk, strip_prefix_app, split_once_slash by done. done.
  - assert (strip_prefix (prefix x) (prefix s +:+ (m +:+ "/" +:+ i)) = None) as ->.
    { destruct (strip_prefix _ _) as [t|] eqn:E; [|done]. destruct Hne.
      apply table_prefix_free; [by apply Hsub|apply Hsub; left|]. unfold comparable.
      by destruct (strip_prefix_either _ _ _ _ E) as [->| ->]; rewrite ?orb_true_r. }
    destruct (scheme_kind x); (apply IH; [done|]; intros; apply Hsub; by right).
Qed.

Lemma local_id_prefix s id :
  s ∈ local_id_schemes -> str_is_empty (trim id) = false ->
  local_runtime_id_from_key (prefix s +:+ id) = Some id.
Proof.
  intros Hs Hid. unfold local_runtime_id_from_key.
  rewrite find_scheme_prefix; [by rewrite Hid|apply filter_subset|done].
Qed.

(** * Properties *)

(** A remote agent row's path is a faithful name: for every kind with a remote arm, a
    machine key without a slash and a session id (neither blank nor padded), the composed
    path parses back to the same kind, machine and id with the core parser and with the
    server's, the server composes the same path, the machine key and the kind read off it
    are those, and it is a remote row and no local runtime key. *)
Theorem remote_path_roundtrip k p m i :
  declared_row_scheme k = Some p ->
  free_of "/" m = true -> trim m = m -> m <> "" -> trim i = i -> i <> "" ->
  let path := remote_agent_session_path k m i in
  parse_remote_agent_session_path path = Some (k, m, i)
  /\ parse_remote_agent_session_path_with_kind path = Some (m, i, k)
  /\ server_remote_agent_session_path k m i = Some path
  /\ remote_row_machine_key path = Some m
  /\ session_kind_for_path path = Some k
  /\ is_remote_row_path path = true
  /\ local_runtime_id_from_key path = None.
Proof.
  intros Hp Hm Htm Hme Hti Hie. destruct (remote_row_of_kind k p Hp) as (s & Hs & <- & Hk & Hpath).
  cbn zeta. rewrite Hpath. assert (s ∈ SESSION_PATH_SCHEMES) as Hst by by eapply filter_subset.
  assert (str_is_empty m = false /\ str_is_empty i = false) as [He1 He2] by by destruct m, i.
  split_and!.
  - unfold parse_remote_agent_session_path. rewrite trim_start_prefix by done.
    rewrite find_scheme_prefix by (try apply filter_subset; done). rewrite Hk.
    rewrite split_once_slash by done. rewrite Htm, Hti, He1, He2. done.
  - by apply parse_with_kind_prefix.
  - unfold server_remote_agent_session_path. unfold declared_row_scheme in Hp.
    destruct (agent_cli_descriptor k) as [d|]; [|done]. cbn in Hp. by rewrite Hp.
  - unfold remote_row_machine_key. rewrite trim_start_prefix by done.
    rewrite find_scheme_prefix;
      [|apply filter_subset|by apply remote_agent_row_remote_row].
    change ("/" +:+ i) with (String "/" i). rewrite split_on_hd by done. by rewrite Htm, He1.
  - unfold session_kind_for_path. rewrite trim_start_prefix by done.
    rewrite find_scheme_prefix; [done|apply filter_subset|].
    unfold remote_agent_row_schemes in Hs. apply elem_of_filter_table in Hs as [_ Hs].
    apply elem_of_filter_table. rewrite !andb_true_iff in Hs. naive_solver.
  - unfold is_remote_row_path. rewrite trim_start_prefix by done. apply existsb_exists.
    exists s. split; [by apply list_elem_of_In, remote_agent_row_remote_row|].
    apply starts_with_spec. by eexists.
  - unfold local_runtime_id_from_key. destruct (find_scheme local_id_schemes _) as [[s' r]|] eqn:E; [|done].
    exfalso. apply find_scheme_Some in E as [Hs' Heq].
    assert (s' = s) as ->; [|by apply (remote_agent_row_not_local s)].
    apply table_prefix_free; [by eapply filter_subset|done|].
    unfold comparable. apply orb_true_iff.
    assert (strip_prefix (prefix s') (prefix s +:+ (m +:+ "/" +:+ i)) = Some r) as Hstrip
      by by apply strip_prefix_Some.
    apply strip_prefix_either in Hstrip as [->| ->]; auto.
Qed.

Lemma remote_path_roundtrip_witness :
  remote_agent_session_path Muse "devhost" "s-1" = "remote-muse://devhost/s-1"
  /\ parse_remote_agent_session_path (remote_agent_session_path Muse "devhost" "s-1")
     = Some (Muse, "devhost", "s-1").
Proof.
  split; [vm_compute; reflexivity|].
  exact (proj1 (remote_path_roundtrip Muse "remote-muse://" "devhost" "s-1"
    eq_refl eq_refl eq_refl ltac:(discriminate) eq_refl ltac:(discriminate))).
Defined.

(** The fold of a live row's keys.  Under any two local spellings of the scheme table,
    two keys with ids that are not blank are the same row exactly when the ids are equal;
    the canonical key of a local row names the same row and is its own canonical key. *)
Theorem normalized_identity_folds :
  (forall s1 s2 i j, s1 ∈ local_id_schemes -> s2 ∈ local_id_schemes ->
     str_is_empty (trim i) = false -> str_is_empty (trim j) = false ->
     (normalized_live_row_identity (prefix s1 +:+ i) = normalized_live_row_identity (prefix s2 +:+ j)
      <-> i = j))
  /\ (forall key id session_id, local_runtime_id_from_key key = Some id ->
     normalized_live_row_identity (canonical_local_live_runtime_key key session_id)
     = normalized_live_row_identity key)
  /\ (forall key session_id other,
     canonical_local_live_runtime_key (canonical_local_live_runtime_key key session_id) other
     = canonical_local_live_runtime_key key session_id).
Proof.
  split_and!.
  - intros s1 s2 i j H1 H2 Hi Hj. unfold normalized_live_row_identity.
    rewrite !local_id_prefix by done. split; [|by intros ->]. by intros [= ?].
  - intros key id sid Hid. unfold canonical_local_live_runtime_key.
    destruct (existsb _ _); [done|]. rewrite Hid. unfold normalized_live_row_identity.
    rewrite Hid. enough (local_runtime_id_from_key (local_live_runtime_key id) = Some id) as ->
      by done.
    apply (local_id_prefix (hd (scheme "" RowIdentity Local None false false "") local_id_schemes));
      [left|]. revert Hid. unfold local_runtime_id_from_key.
    destruct (find_scheme _ key) as [[? r]|]; [|done]. destruct (str_is_empty (trim r)) eqn:E; [done|].
    by intros [= <-].
  - intros key sid other. unfold canonical_local_live_runtime_key at 1.
    enough (existsb (fun s => starts_with (canonical_local_live_runtime_key key sid) (prefix s))
              agent_runtime_key_schemes = true) as -> by done.
    unfold canonical_local_live_runtime_key.
    destruct (existsb (fun s => starts_with key (prefix s)) _) eqn:E; [done|].
    apply existsb_exists. exists (hd (scheme "" RowIdentity Local None false false "") agent_runtime_key_schemes).
    split; [left; reflexivity|]. apply starts_with_spec.
    destruct (local_runtime_id_from_key key); by eexists.
Qed.

Lemma normalized_identity_folds_witness :
  local_runtime_id_from_key "codex-litellm::7" = Some "7"
  /\ canonical_local_live_runtime_key "codex-litellm::7" "x" = "local://7"
  /\ normalized_live_row_identity (canonical_local_live_runtime_key "codex-litellm::7" "x")
     = normalized_live_row_identity "codex-litellm::7".
Proof.
  split; [vm_compute; reflexivity|]. split; [vm_compute; reflexivity|].
  apply (proj1 (proj2 normalized_identity_folds) "codex-litellm::7" "7" "x").
  vm_compute. reflexivity.
Defined.

(** Two of the server's predicates disagree with the registry they stand beside.  The
    hand-written [session_path_is_remote] says that a remote row is on this machine for
    every remote CLI but Codex and Claude Code; and for the one CLI with no remote arm the
    core composer borrows Codex's scheme (so the path parses as a Codex row) where the
    server's composer of the same name refuses. *)
Theorem remote_predicates_disagree :
  (forall k m i, is_Some_b (declared_row_scheme k) = true ->
     session_path_is_remote (remote_agent_session_path k m i)
     = bool_decide (k = Codex \/ k = ClaudeCode))
  /\ (forall m i, server_remote_agent_session_path CodexLiteLlm m i = None
     /\ remote_agent_session_path CodexLiteLlm m i = remote_agent_session_path Codex m i).
Proof. split; [|done]. intros k m i. by destruct k. Qed.

Lemma remote_predicates_disagree_witness :
  session_path_is_remote (remote_agent_session_path Pi "devhost" "1") = false
  /\ is_remote_row_path (remote_agent_session_path Pi "devhost" "1") = true.
Proof.
  split; [|vm_compute; reflexivity].
  exact (proj1 remote_predicates_disagree Pi "devhost" "1" eq_refl).
Defined.

(** The scheme registry and the CLI registry declare the same schemes: a CLI's remote row
    scheme and runtime key scheme are each registered, under its kind and in the right role,
    and every current remote agent scheme is declared by the descriptor of its kind; no
    prefix of the table is a prefix of another, and any text after the prefix of an agent
    scheme resolves to that scheme's kind. *)
Theorem schemes_match_descriptors :
  (forall k d, agent_cli_descriptor k = Some d ->
     (forall p, remote_row_scheme d = Some p -> exists s, scheme_for_prefix p = Some s
        /\ scheme_kind s = Some k /\ s ∈ remote_agent_row_schemes)
     /\ (forall p, runtime_key_scheme d = Some p -> exists s, scheme_for_prefix p = Some s
        /\ scheme_kind s = Some k /\ s ∈ agent_runtime_key_schemes))
  /\ (forall s k, s ∈ remote_agent_schemes -> scheme_kind s = Some k ->
     exists d, agent_cli_descriptor k = Some d
       /\ (remote_row_scheme d = Some (prefix s) \/ runtime_key_scheme d = Some (prefix s)))
  /\ (forall s1 s2, s1 ∈ SESSION_PATH_SCHEMES -> s2 ∈ SESSION_PATH_SCHEMES ->
     comparable s1 s2 = true -> s1 = s2)
  /\ (forall s r, s ∈ SESSION_PATH_SCHEMES -> agent s = true ->
     session_kind_for_path (prefix s +:+ r) = scheme_kind s).
Proof.
  split_and!; [| |apply table_prefix_free|].
  - intros k d Hd%agent_cli_descriptor_Some. destruct Hd as [Hd <-].
    repeat (apply elem_of_cons in Hd as [->|Hd];
      [split; intros p; try (intros [=]; fail); intros [= <-]; eexists;
       (split; [vm_compute; reflexivity|]); (split; [reflexivity|]); decide_elem|]).
    by apply elem_of_nil in Hd.
  - intros s k Hs. vm_compute in Hs.
    repeat (apply elem_of_cons in Hs as [->|Hs];
      [intros [= <-]; eexists; (split; [vm_compute; reflexivity|]);
       first [left; reflexivity|right; reflexivity]|]).
    by apply elem_of_nil in Hs.
  - intros s r Hs Ha. unfold session_kind_for_path. rewrite trim_start_prefix by done.
    rewrite find_scheme_prefix; [done|apply filter_subset|]. by apply elem_of_filter_table.
Qed.

Lemma schemes_match_descriptors_witness :
  exists s, scheme_for_prefix "remote-cc://" = Some s /\ scheme_kind s = Some ClaudeCode
    /\ s ∈ remote_agent_row_schemes.
Proof.
  apply (proj1 (proj1 schemes_match_descriptors ClaudeCode claude_code_cli eq_refl)).
  reflexivity.
Defined.
