(* ===== verification/LiveOrder.v ===== *)
(** The order of the Live Sessions rows (server/lib.rs): resolving a path to a row,
    reordering, and seating a new row.

    [sessions] is the [BTreeMap] as the list of its entries in key order, so [find] over it
    meets entries as the code does.  Of a session only the fields these operations read are
    kept; [storage] and [cwd] are its "Storage" and "Cwd" metadata values and [stored] says
    that its source is [SessionSource::Stored]. *)
From S2P Require Import Prelude RustStr SessionOutline AgentRegistry AgentScheme.
#[local] Open Scope nat_scope.

Record Session : Type := mkSession {
  session_path : string;
  title : string;
  outline_prefix : option string;
  stored : bool;
  storage : option string;
  kind_of : SessionKind;
  cwd : option string
}.

Record Server : Type := mkServer {
  sessions : list (string * Session);
  live_session_order : list string
}.

Definition get_session (sv : Server) (key : string) : option Session :=
  snd <$> List.find (fun '(k, _) => String.eqb k key) (sessions sv).

(** ** Resolving *)

Definition resolve_live_terminal_key_for_storage_path (sv : Server) (path : string)
    : option string :=
  fst <$> List.find (fun '(_, s) => negb (stored s) && bool_decide (storage s = Some path))
            (sessions sv).

(** The four readings of [resolve_live_session_entry], of which only the key is used here. *)
Definition resolve_live_session_key (sv : Server) (key_or_path : string) : option string :=
  match get_session sv key_or_path with
  | Some _ => Some key_or_path
  | None =>
    match resolve_live_terminal_key_for_storage_path sv key_or_path with
    | Some key => Some key
    | None =>
      let canonical :=
        match local_runtime_id_from_key key_or_path with
        | Some id =>
          let canonical := local_live_runtime_key id in
          match get_session sv canonical with Some _ => Some canonical | None => None end
        | None => None
        end in
      match canonical with
      | Some key => Some key
      | None => fst <$> List.find (fun '(_, s) => String.eqb (session_path s) key_or_path) (sessions sv)
      end
    end
  end.

Definition live_session_row_key (sv : Server) (path : string) : option string :=
  match resolve_live_session_key sv path with
  | Some key => if decide (key ∈ live_session_order sv) then Some key else None
  | None => None
  end.

Definition live_session_row_exists (sv : Server) (path : string) : bool :=
  is_Some_b (live_session_row_key sv path).

(** ** Reordering *)

Inductive SkipReason : Type := SKIPPED_NOT_A_LIVE_ROW | SKIPPED_DUPLICATE_ROW.

Record LiveSessionOrderUpdate : Type := mkUpdate {
  changed : bool;
  applied : list string;
  skipped : list (string * SkipReason)
}.

(** The loop over the requested paths: the keys applied so far (which are also the keys
    seen) and the paths skipped so far. *)
Definition reorder_step (sv : Server) (acc : list string * list (string * SkipReason))
    (path : string) : list string * list (string * SkipReason) :=
  let '(applied, skipped) := acc in
  match live_session_row_key sv path with
  | None => (applied, skipped ++ [(path, SKIPPED_NOT_A_LIVE_ROW)])
  | Some row_key =>
    if decide (row_key ∈ applied) then (applied, skipped ++ [(path, SKIPPED_DUPLICATE_ROW)])
    else (applied ++ [row_key], skipped)
  end.

Definition replace_live_session_order (sv : Server) (ordered_paths : list string)
    : Server * LiveSessionOrderUpdate :=
  let '(applied, skipped) := foldl (reorder_step sv) ([], []) ordered_paths in
  let next := applied ++ dedup_from applied (live_session_order sv) in
  let changed := negb (bool_decide (next = live_session_order sv)) in
  (if changed then mkServer (sessions sv) next else sv, mkUpdate changed applied skipped).

(** ** Seating *)

Definition outline_key_for_seating (sv : Server) (key : string) : OutlineKey :=
  match get_session sv key with
  | None => Unnumbered
  | Some s =>
    match parse_outline_key (outline_prefix s) with
    | Unnumbered => outline_key_from_title (title s)
    | numbered => numbered
    end
  end.

(** The scan: [index] is the position of the head of [order]. *)
Fixpoint seat_scan (sv : Server) (seat_key : OutlineKey) (index : nat) (last_before : option nat)
    (order : list string) : option nat * option nat :=
  match order with
  | [] => (None, last_before)
  | existing :: order' =>
    let existing_key := outline_key_for_seating sv existing in
    if decide (existing_key = Unnumbered) then seat_scan sv seat_key (S index) last_before order'
    else if outline_gtb existing_key seat_key then (Some index, last_before)
    else seat_scan sv seat_key (S index) (Some index) order'
  end.

Definition outline_seat_for (sv : Server) (key : string) : option nat :=
  let seat_key := outline_key_for_seating sv key in
  if decide (seat_key = Unnumbered) then None
  else Some (match seat_scan sv seat_key 0 None (live_session_order sv) with
             | (Some index, _) => index
             | (None, Some index) => index + 1
             | (None, None) => 0
             end).

Inductive SeatRule : Type := RuleOutline | RuleFront | RuleAfterAnchor | RuleRefused.

Definition retain_other (key : string) (order : list string) : list string :=
  filter (fun existing => existing <> key) order.

Definition seat_new_live_session (sv : Server) (key : string) : Server * SeatRule :=
  let sv := mkServer (sessions sv) (retain_other key (live_session_order sv)) in
  match outline_seat_for sv key with
  | Some index =>
    (mkServer (sessions sv) (vec_insert index key (live_session_order sv)), RuleOutline)
  | None => (mkServer (sessions sv) (key :: live_session_order sv), RuleFront)
  end.

Definition set_prefix (prefix : string) (s : Session) : Session :=
  let prefix := trim prefix in
  mkSession (session_path s) (title s)
    (if str_is_empty prefix then None else Some prefix) (stored s) (storage s) (kind_of s) (cwd s).

(** [sessions.get_mut(path)] and the update of the entry found. *)
Definition set_session_outline_prefix (sv : Server) (path prefix : string) : Server * bool :=
  match get_session sv path with
  | None => (sv, false)
  | Some _ =>
    (mkServer (map (fun '(k, s) => (k, if String.eqb k path then set_prefix prefix s else s))
                 (sessions sv)) (live_session_order sv), true)
  end.

Definition non_blank (s : option string) : option string :=
  match s with
  | Some v => if str_is_empty (trim v) then None else Some (trim v)
  | None => None
  end.

Definition move_row (order : list string) (current_idx anchor_idx : nat) (key : string)
    : list string :=
  let rest := vec_remove current_idx order in
  let anchor_idx := if current_idx <? anchor_idx then anchor_idx - 1 else anchor_idx in
  vec_insert (Nat.min (anchor_idx + 1) (length rest)) key rest.

Definition index_of (key : string) (order : list string) : option nat :=
  position (fun existing => bool_decide (existing = key)) order.

Definition place_live_session_after (sv : Server) (key : string) (anchor : option string)
    : Server * bool :=
  match non_blank anchor with
  | None => (sv, false)
  | Some anchor =>
    match resolve_live_session_key sv anchor with
    | None => (sv, false)
    | Some anchor_key =>
      if decide (anchor_key = key) then (sv, false)
      else
        match index_of anchor_key (live_session_order sv), index_of key (live_session_order sv) with
        | Some anchor_idx, Some current_idx =>
          (mkServer (sessions sv) (move_row (live_session_order sv) current_idx anchor_idx key), true)
        | _, _ => (sv, false)
        end
    end
  end.

Record LiveSeatOutcome : Type := mkOutcome {
  rule : SeatRule;
  seated_prefix : option string;
  refusal : option string
}.

Definition unplaced : LiveSeatOutcome := mkOutcome RuleFront None None.

Definition anchor_refusal : string :=
  "insert-after anchor is not a row in this daemon's live order, so the new row kept its birth position".

Definition seat_created_live_session (sv : Server) (key : string)
    (prefix insert_after : option string) : Server * LiveSeatOutcome :=
  match non_blank prefix with
  | Some prefix =>
    match normalize_outline_prefix prefix with
    | Ok (Some normalized) =>
      let sv := fst (set_session_outline_prefix sv key normalized) in
      let '(sv, rule) := seat_new_live_session sv key in
      (sv, mkOutcome rule (Some normalized) None)
    | Ok None => (sv, unplaced)
    | Err refusal => (sv, mkOutcome RuleRefused None (Some refusal))
    end
  | None =>
    match non_blank insert_after with
    | None => (sv, unplaced)
    | Some anchor =>
      let '(sv, placed) := place_live_session_after sv key (Some anchor) in
      if placed then (sv, mkOutcome RuleAfterAnchor None None)
      else (sv, mkOutcome RuleRefused None (Some anchor_refusal))
    end
  end.

Definition append_restored_live_session_order (sv : Server) (key : string) : Server :=
  mkServer (sessions sv) (retain_other key (live_session_order sv) ++ [key]).

Definition move_live_session_after (sv : Server) (key : string) (anchor : option string) : Server :=
  match index_of key (live_session_order sv) with
  | None => sv
  | Some from =>
    let rest := vec_remove from (live_session_order sv) in
    let insert_at :=
      match anchor with
      | Some anchor =>
        match index_of anchor rest with Some index => index + 1 | None => length rest end
      | None => 0
      end in
    mkServer (sessions sv) (vec_insert insert_at key rest)
  end.

(** ** The interface to the order

    What [live_session_order_keys] and [replace_live_session_order] promise to a module that
    keeps its own copy of the order: a write only permutes the rows, and writing a permutation
    of rows that are all addressed by their own keys is exact. *)
Class OrderWriter (S U : Type) : Type := {
  row_order : S -> list string;
  write_order : S -> list string -> S * U;
  unchanged : U;
  addressed : S -> Prop;
  write_order_perm : forall s paths, NoDup (row_order s) -> row_order (write_order s paths).1 ≡ₚ row_order s;
  write_order_exact : forall s paths, NoDup (row_order s) -> paths ≡ₚ row_order s -> addressed s ->
    row_order (write_order s paths).1 = paths
}.

(** * Lemmas *)

Lemma live_session_row_key_In sv path key :
  live_session_row_key sv path = Some key -> key ∈ live_session_order sv.
Proof.
  unfold live_session_row_key. destruct (resolve_live_session_key sv path); [|done].
  case_decide; [|done]. by intros [= <-].
Qed.

Lemma get_session_In sv key : is_Some (get_session sv key) <-> key ∈ (sessions sv).*1.
Proof.
  unfold get_session. induction (sessions sv) as [|[k s] l IH]; cbn.
  - split; [by intros []|by intros ?%elem_of_nil].
  - rewrite elem_of_cons, <- IH. destruct (String.eqb_spec k key) as [->|Hne]; cbn.
    + split; [by left|by eexists].
    + split; [by right|]. intros [->|?]; done.
Qed.

Lemma row_key_of_row sv key :
  key ∈ live_session_order sv -> is_Some (get_session sv key) -> live_session_row_key sv key = Some key.
Proof.
  intros Hin [s Hs]. unfold live_session_row_key, resolve_live_session_key. rewrite Hs.
  by rewrite decide_True.
Qed.

(** ** Reordering *)

Lemma reorder_fold sv paths : forall acc sk,
  let r := foldl (reorder_step sv) (acc, sk) paths in
  r.1 = acc ++ dedup_from acc (omap (live_session_row_key sv) paths)
  /\ length r.1 + length r.2 = length acc + length sk + length paths
  /\ (forall p reason, (p, reason) ∈ r.2 -> (p, reason) ∈ sk
      \/ p ∈ paths /\ match reason with
         | SKIPPED_NOT_A_LIVE_ROW => live_session_row_key sv p = None
         | SKIPPED_DUPLICATE_ROW => exists key, live_session_row_key sv p = Some key /\ key ∈ r.1
         end).
Proof.
  induction paths as [|p paths IH]; intros acc sk; cbn [foldl omap list_omap].
  { rewrite app_nil_r. split_and!; [done|simpl; lia|by left]. }
  cbn [reorder_step]. destruct (live_session_row_key sv p) as [key|] eqn:Hk.
  - cbn [dedup_from]. case_decide as Hin.
    + destruct (IH acc (sk ++ [(p, SKIPPED_DUPLICATE_ROW)])) as (H1 & H2 & H3).
      split_and!; [done|rewrite H2, length_app; simpl; lia|].
      intros q reason [Hq|[Hq ?]]%H3; [|right; split; [by right|done]].
      apply elem_of_app in Hq as [Hq|[= -> ->]%list_elem_of_singleton]; [by left|].
      right. split; [left|]. exists key. split; [done|]. rewrite H1. set_solver.
    + destruct (IH (acc ++ [key]) sk) as (H1 & H2 & H3).
      split_and!; [|rewrite H2, length_app; simpl; lia|].
      * rewrite H1, <- app_assoc. cbn. do 2 f_equal. apply dedup_from_ext. set_solver.
      * intros q reason [Hq|[Hq ?]]%H3; [by left|]. right. split; [by right|done].
  - destruct (IH acc (sk ++ [(p, SKIPPED_NOT_A_LIVE_ROW)])) as (H1 & H2 & H3).
    split_and!; [done|rewrite H2, length_app; simpl; lia|].
    intros q reason [Hq|[Hq ?]]%H3; [|right; split; [by right|done]].
    apply elem_of_app in Hq as [Hq|[= -> ->]%list_elem_of_singleton]; [by left|].
    right. split; [left|done].
Qed.

Lemma replace_eq sv paths :
  let app_ := dedup (omap (live_session_row_key sv) paths) in
  live_session_order (fst (replace_live_session_order sv paths))
    = app_ ++ dedup_from app_ (live_session_order sv)
  /\ applied (snd (replace_live_session_order sv paths)) = app_
  /\ sessions (fst (replace_live_session_order sv paths)) = sessions sv
  /\ changed (snd (replace_live_session_order sv paths))
     = negb (bool_decide (live_session_order (fst (replace_live_session_order sv paths))
                          = live_session_order sv))
  /\ skipped (snd (replace_live_session_order sv paths))
     = snd (foldl (reorder_step sv) ([], []) paths).
Proof.
  destruct (reorder_fold sv paths [] []) as (H1 & _ & _). cbn zeta in *.
  unfold replace_live_session_order. destruct (foldl (reorder_step sv) ([], []) paths) as [a k].
  cbn in H1. subst a. cbn [fst snd applied skipped changed app].
  fold (dedup (omap (live_session_row_key sv) paths)). case_bool_decide as Hd; cbn.
  - split_and!; try done. by rewrite bool_decide_eq_true_2.
  - split_and!; try done. by rewrite bool_decide_eq_false_2.
Qed.

Lemma replace_order sv paths :
  NoDup (live_session_order sv) ->
  let sv' := fst (replace_live_session_order sv paths) in
  let app_ := applied (snd (replace_live_session_order sv paths)) in
  live_session_order sv' = app_ ++ filter (fun k => k ∉ app_) (live_session_order sv)
  /\ live_session_order sv' ≡ₚ live_session_order sv.
Proof.
  intros Hnd. pose proof (replace_eq sv paths) as H. cbn zeta in *. destruct H as (-> & -> & _).
  set (app_ := dedup _). assert (NoDup app_) as Ha by apply NoDup_dedup.
  assert (forall k, k ∈ app_ -> k ∈ live_session_order sv) as Hsub.
  { intros k Hk. apply elem_of_dedup, list_elem_of_omap in Hk as (p & _ & Hp).
    by eapply live_session_row_key_In. }
  rewrite dedup_from_filter by done. split; [done|]. apply NoDup_Permutation; [|done|].
  - apply NoDup_app. split_and!; [done| |by apply NoDup_filter].
    intros k Hk [? _]%list_elem_of_filter. done.
  - intros k. rewrite elem_of_app, list_elem_of_filter. destruct (decide (k ∈ app_)); naive_solver.
Qed.

(** Writing back a permutation of the rows gives that permutation. *)
Lemma replace_with_rows sv paths :
  NoDup (live_session_order sv) -> paths ≡ₚ live_session_order sv ->
  (forall key, key ∈ live_session_order sv -> is_Some (get_session sv key)) ->
  live_session_order (replace_live_session_order sv paths).1 = paths.
Proof.
  intros Hnd Hp Hses. destruct (replace_eq sv paths) as [-> _].
  assert (omap (live_session_row_key sv) paths = paths) as ->.
  { assert (forall k, k ∈ paths -> k ∈ live_session_order sv) as Hin by (intros k; by rewrite Hp).
    clear Hp. induction paths as [|k paths IH]; [done|]. cbn [omap list_omap].
    rewrite row_key_of_row by (try apply Hses; apply Hin; left).
    change (k :: omap (live_session_row_key sv) paths = k :: paths).
    f_equal. apply IH. intros; apply Hin; by right. }
  assert (NoDup paths) as Hpn by by rewrite Hp. rewrite dedup_id by done.
  rewrite dedup_from_filter, list_filter_none, app_nil_r; [done| |done].
  intros k Hk Hn. apply Hn. by rewrite Hp.
Qed.

#[export] Program Instance server_order : OrderWriter Server LiveSessionOrderUpdate := {|
  row_order := live_session_order;
  write_order := replace_live_session_order;
  unchanged := mkUpdate false [] [];
  addressed sv := forall key, key ∈ live_session_order sv -> is_Some (get_session sv key)
|}.
Next Obligation. intros sv paths Hnd. by apply replace_order. Qed.
Next Obligation. intros sv paths Hnd Hp Ha. by apply replace_with_rows. Qed.

(** ** Seating *)

Definition numbered (sv : Server) (key : string) : Prop :=
  outline_key_for_seating sv key <> Unnumbered.

#[export] Instance numbered_dec sv key : Decision (numbered sv key).
Proof. unfold numbered. apply _. Defined.

Definition seat_before (sv : Server) (a b : string) : Prop :=
  outline_leb (outline_key_for_seating sv a) (outline_key_for_seating sv b) = true.

(** The numbered rows stand in outline order. *)
Definition outline_ordered (sv : Server) : Prop :=
  StronglySorted (seat_before sv) (filter (numbered sv) (live_session_order sv)).

(** What the scan found: the rows split into those that stay before and those after. *)
Lemma seat_scan_spec sv seat l : forall index last,
  StronglySorted (seat_before sv) (filter (numbered sv) l) ->
  match seat_scan sv seat index last l with
  | (Some i, _) => index <= i /\ i - index <= length l
      /\ (forall x, x ∈ take (i - index) l -> numbered sv x ->
            outline_leb (outline_key_for_seating sv x) seat = true)
      /\ (forall x, x ∈ drop (i - index) l -> numbered sv x ->
            outline_leb (outline_key_for_seating sv x) seat = false)
  | (None, r) =>
      (forall x, x ∈ l -> numbered sv x -> outline_leb (outline_key_for_seating sv x) seat = true)
      /\ (r = last /\ (forall x, x ∈ l -> ~ numbered sv x)
          \/ exists j, r = Some j /\ index <= j /\ j - index < length l
             /\ (forall x, x ∈ drop (S (j - index)) l -> ~ numbered sv x))
  end.
Proof.
  induction l as [|x l IH]; intros index last Hs; cbn [seat_scan].
  { split; [set_solver|]. left. split; [done|set_solver]. }
  case_decide as Hx.
  - assert (StronglySorted (seat_before sv) (filter (numbered sv) l)) as Hs'.
    { rewrite filter_cons_False in Hs; [done|]. unfold numbered. tauto. }
    specialize (IH (S index) last Hs'). destruct (seat_scan _ _ (S index) last l) as [[i|] r].
    + destruct IH as (Hle & Hlen & Hb & Ha).
      replace (i - index) with (S (i - S index)) by lia. cbn [take drop length]. split_and!; [lia|lia| |done].
      intros y [->|Hy]%elem_of_cons Hn; [done|by apply Hb].
    + destruct IH as (Hall & Hr). split.
      { intros y [->|Hy]%elem_of_cons Hn; [done|by apply Hall]. }
      destruct Hr as [[-> Hno]|(j & -> & Hj & Hlt & Hno)].
      * left. split; [done|]. intros y [->|Hy]%elem_of_cons; [by intros ?|by apply Hno].
      * right. exists j. replace (j - index) with (S (j - S index)) by lia.
        cbn [drop length]. split_and!; [done|lia|lia|done].
  - rewrite filter_cons_True in Hs by done. apply StronglySorted_inv in Hs as [Hs Hf].
    unfold outline_gtb. destruct (outline_leb (outline_key_for_seating sv x) seat) eqn:Hle; cbn [negb].
    + specialize (IH (S index) (Some index) Hs).
      destruct (seat_scan _ _ (S index) (Some index) l) as [[i|] r].
      * destruct IH as (Hi & Hlen & Hb & Ha).
        replace (i - index) with (S (i - S index)) by lia. cbn [take drop length].
        split_and!; [lia|lia| |done]. intros y [->|Hy]%elem_of_cons Hn; [done|by apply Hb].
      * destruct IH as (Hall & Hr). split.
        { intros y [->|Hy]%elem_of_cons Hn; [done|by apply Hall]. }
        right. destruct Hr as [[-> Hno]|(j & -> & Hj & Hlt & Hno)].
        -- exists index. rewrite Nat.sub_diag. cbn [drop length]. split_and!; [done|lia|lia|done].
        -- exists j. replace (j - index) with (S (j - S index)) by lia.
           cbn [drop length]. split_and!; [done|lia|lia|done].
    + rewrite Nat.sub_diag. cbn [take drop]. split_and!; [lia|lia|set_solver|].
      intros y [->|Hy]%elem_of_cons Hn; [done|]. rewrite Forall_forall in Hf.
      assert (seat_before sv x y) as Hxy by (apply Hf; by apply list_elem_of_filter).
      apply not_true_is_false. intros Hys. rewrite (outline_leb_trans _ _ _ Hxy Hys) in Hle. done.
Qed.

Lemma outline_seat_split sv key i :
  outline_ordered sv -> outline_seat_for sv key = Some i ->
  numbered sv key /\ i <= length (live_session_order sv)
  /\ (forall x, x ∈ take i (live_session_order sv) -> numbered sv x -> seat_before sv x key)
  /\ (forall x, x ∈ drop i (live_session_order sv) -> numbered sv x -> ~ seat_before sv x key).
Proof.
  intros Hs. unfold outline_seat_for, seat_before. case_decide as Hk; [done|].
  pose proof (seat_scan_spec sv (outline_key_for_seating sv key) (live_session_order sv) 0 None Hs) as H.
  destruct (seat_scan _ _ _ _ _) as [[j|] r].
  - destruct H as (_ & Hlen & Hb & Ha). rewrite Nat.sub_0_r in *. intros [= <-].
    split_and!; [done|done|done|]. intros x Hx Hn. rewrite (Ha x Hx Hn). done.
  - destruct H as (Hall & [[-> Hno]|(j & -> & _ & Hlt & Hno)]); intros [= <-].
    + split_and!; [done|lia|set_solver|]. intros x Hx Hn. by destruct (Hno x Hx).
    + rewrite Nat.sub_0_r in *. split_and!; [done|lia| |].
      * intros x Hx Hn. apply Hall; [|done]. eapply elem_of_take in Hx as (n & Hnx & _).
        by eapply list_elem_of_lookup_2.
      * intros x Hx Hn. rewrite Nat.add_1_r in Hx. by destruct (Hno x Hx).
Qed.

Lemma sorted_insert_middle {A} (R : A -> A -> Prop) l1 l2 x :
  StronglySorted R (l1 ++ l2) -> (forall y, y ∈ l1 -> R y x) -> (forall y, y ∈ l2 -> R x y) ->
  StronglySorted R (l1 ++ x :: l2).
Proof.
  intros Hs H1 H2. induction l1 as [|y l1 IH]; simpl in *.
  - constructor; [done|]. apply Forall_forall. set_solver.
  - apply StronglySorted_inv in Hs as [Hs Hf]. constructor.
    + apply IH; [done|]. set_solver.
    + rewrite Forall_forall in *. set_solver.
Qed.

Lemma seat_inserted_ordered sv key i :
  outline_ordered sv -> outline_seat_for sv key = Some i ->
  StronglySorted (seat_before sv)
    (filter (numbered sv) (vec_insert i key (live_session_order sv))).
Proof.
  intros Hs Hi. destruct (outline_seat_split sv key i Hs Hi) as (Hn & _ & Hb & Ha).
  unfold vec_insert. rewrite filter_app, filter_cons_True by done.
  apply sorted_insert_middle.
  - by rewrite <- filter_app, take_drop.
  - intros y [Hy Hin]%list_elem_of_filter. by apply Hb.
  - intros y [Hy Hin]%list_elem_of_filter. unfold seat_before.
    destruct (outline_leb_total (outline_key_for_seating sv key) (outline_key_for_seating sv y));
      [done|]. by destruct (Ha y Hin Hy).
Qed.

Lemma retain_other_ordered sv key :
  outline_ordered sv ->
  outline_ordered (mkServer (sessions sv) (retain_other key (live_session_order sv))).
Proof.
  unfold outline_ordered, retain_other. cbn [live_session_order]. intros Hs.
  change (numbered (mkServer _ _)) with (numbered sv).
  change (seat_before (mkServer _ _)) with (seat_before sv).
  rewrite list_filter_filter. rewrite (list_filter_iff _ (fun x => x <> key /\ numbered sv x)) by tauto.
  rewrite <- list_filter_filter. by apply StronglySorted_filter.
Qed.

Lemma seat_new_order sv key :
  let sv' := fst (seat_new_live_session sv key) in
  sessions sv' = sessions sv
  /\ filter (fun x => x <> key) (live_session_order sv')
     = filter (fun x => x <> key) (live_session_order sv)
  /\ live_session_order sv' ≡ₚ key :: retain_other key (live_session_order sv).
Proof.
  unfold seat_new_live_session. set (sv1 := mkServer _ _).
  assert (filter (fun x => x <> key) (retain_other key (live_session_order sv))
          = filter (fun x => x <> key) (live_session_order sv)) as Hff
    by (unfold retain_other; rewrite list_filter_filter; apply list_filter_iff; tauto).
  destruct (outline_seat_for sv1 key) as [i|]; cbn [fst sessions live_session_order].
  - split_and!; [done| |apply vec_insert_perm]. rewrite vec_insert_filter by tauto. done.
  - split_and!; [done| |done]. rewrite filter_cons_False by tauto. done.
Qed.

Lemma index_of_Some key order i : index_of key order = Some i -> order !! i = Some key.
Proof. intros (x & Hx & ->%bool_decide_eq_true & _)%position_Some. done. Qed.

Lemma index_of_None key order : index_of key order = None <-> key ∉ order.
Proof.
  unfold index_of. rewrite position_None, Forall_forall. split.
  - intros H Hin. specialize (H key Hin). by rewrite bool_decide_eq_true_2 in H.
  - intros H x Hx. apply bool_decide_eq_false. congruence.
Qed.

(** Moving a row: out of its place, and back in directly below the anchor. *)
Lemma move_row_spec order ci ai key anchor :
  order !! ci = Some key -> order !! ai = Some anchor -> ci <> ai -> NoDup order ->
  move_row order ci ai key ≡ₚ order
  /\ filter (fun x => x <> key) (move_row order ci ai key) = filter (fun x => x <> key) order
  /\ exists l r, move_row order ci ai key = l ++ [anchor; key] ++ r.
Proof.
  intros Hc Ha Hne Hnd. unfold move_row. set (rest := vec_remove ci order).
  set (a := if ci <? ai then ai - 1 else ai).
  pose proof (lookup_lt_Some _ _ _ Hc) as Hclt.
  assert (rest !! a = Some anchor) as Hra.
  { unfold rest, a. rewrite vec_remove_lookup by done.
    destruct (Nat.ltb_spec ci ai); case_decide; try lia; [|done].
    by replace (S (ai - 1)) with ai by lia. }
  pose proof (lookup_lt_Some _ _ _ Hra) as Hlt. rewrite Nat.min_l by lia.
  split_and!.
  - rewrite vec_insert_perm. unfold rest. by rewrite vec_remove_perm.
  - rewrite vec_insert_filter by tauto. apply (vec_remove_filter (fun x => x <> key) ci key); tauto.
  - exists (take a rest), (drop (S a) rest). unfold vec_insert. rewrite Nat.add_1_r.
    rewrite (take_S_r _ _ _ Hra), <- app_assoc. done.
Qed.

Lemma place_live_session_after_spec sv key anchor :
  NoDup (live_session_order sv) ->
  let '(sv', placed) := place_live_session_after sv key anchor in
  if placed then
    exists a ak, non_blank anchor = Some a /\ resolve_live_session_key sv a = Some ak
      /\ (exists l r, live_session_order sv' = l ++ [ak; key] ++ r)
      /\ live_session_order sv' ≡ₚ live_session_order sv
      /\ filter (fun x => x <> key) (live_session_order sv')
         = filter (fun x => x <> key) (live_session_order sv)
      /\ sessions sv' = sessions sv
  else sv' = sv
    /\ match non_blank anchor with
       | None => True
       | Some a => match resolve_live_session_key sv a with
                   | None => True
                   | Some ak => ak = key \/ ak ∉ live_session_order sv \/ key ∉ live_session_order sv
                   end
       end.
Proof.
  intros Hnd. unfold place_live_session_after.
  destruct (non_blank anchor) as [a|]; [|done].
  destruct (resolve_live_session_key sv a) as [ak|] eqn:Hak; [|done].
  case_decide as Hne; [by split; [|left]|].
  destruct (index_of ak _) as [ai|] eqn:Hai.
  2:{ split; [done|]. right. left. by apply index_of_None. }
  destruct (index_of key _) as [ci|] eqn:Hci.
  2:{ split; [done|]. right. right. by apply index_of_None. }
  apply index_of_Some in Hai, Hci.
  destruct (move_row_spec _ ci ai key ak Hci Hai) as (H1 & H2 & H3); [congruence|done|].
  exists a, ak. split_and!; done.
Qed.

Lemma place_live_session_after_frame sv key anchor :
  NoDup (live_session_order sv) ->
  live_session_order (fst (place_live_session_after sv key anchor)) ≡ₚ live_session_order sv
  /\ sessions (fst (place_live_session_after sv key anchor)) = sessions sv.
Proof.
  intros Hnd. pose proof (place_live_session_after_spec sv key anchor Hnd) as H.
  destruct (place_live_session_after sv key anchor) as [sv' []]; cbn [fst].
  - destruct H as (? & ? & _ & _ & _ & ? & _ & ?). done.
  - by destruct H as [-> _].
Qed.

(** * Properties *)

(** A reorder permutes the rows and reports honestly.  The requested paths that resolve to
    rows are promoted, each once and in the requested order; every other row keeps its
    relative place after them; no row is added or lost.  Each requested path is either applied
    or skipped, a path skipped as not a row resolves to none, and one skipped as a duplicate
    names a row already applied; [changed] says exactly whether the order moved. *)
Theorem replace_live_session_order_correct sv paths :
  NoDup (live_session_order sv) ->
  let '(sv', u) := replace_live_session_order sv paths in
  live_session_order sv' = applied u ++ filter (fun k => k ∉ applied u) (live_session_order sv)
  /\ live_session_order sv' ≡ₚ live_session_order sv
  /\ sessions sv' = sessions sv
  /\ applied u = dedup (omap (live_session_row_key sv) paths)
  /\ length (applied u) + length (skipped u) = length paths
  /\ (forall p, (p, SKIPPED_NOT_A_LIVE_ROW) ∈ skipped u -> live_session_row_key sv p = None)
  /\ (forall p, (p, SKIPPED_DUPLICATE_ROW) ∈ skipped u ->
        exists key, live_session_row_key sv p = Some key /\ key ∈ applied u)
  /\ (changed u = true <-> live_session_order sv' <> live_session_order sv).
Proof.
  intros Hnd. pose proof (replace_eq sv paths) as H. pose proof (replace_order sv paths Hnd) as Ho.
  pose proof (reorder_fold sv paths [] []) as (H1 & H2 & H3).
  destruct (replace_live_session_order sv paths) as [sv' u]. cbn [fst snd] in *. cbn zeta in *.
  destruct H as (_ & Ha & Hs & Hc & Hsk). destruct Ho as [Ho Hp]. rewrite <- Hsk in H2, H3.
  assert (applied u = (foldl (reorder_step sv) ([], []) paths).1) as Hau by by rewrite Ha, H1.
  split_and!; try done.
  - rewrite Hau, H2. simpl. lia.
  - intros p Hin. by destruct (H3 _ _ Hin) as [?%elem_of_nil|[_ ?]].
  - intros p Hin. rewrite Hau. by destruct (H3 _ _ Hin) as [?%elem_of_nil|[_ ?]].
  - rewrite Hc, negb_true_iff, bool_decide_eq_false. done.
Qed.

Definition plain_session (path : string) (prefix : option string) : Session :=
  mkSession path path prefix false None Shell None.

Definition three_rows : Server :=
  mkServer [("local://a", plain_session "local://a" (Some "1"));
            ("local://b", plain_session "local://b" (Some "2"));
            ("local://c", plain_session "local://c" None);
            ("local://n", plain_session "local://n" (Some "1.5"))]
    ["local://c"; "local://a"; "local://b"].

Lemma replace_live_session_order_correct_witness :
  NoDup (live_session_order three_rows)
  /\ let '(sv', u) := replace_live_session_order three_rows ["codex-runtime://b"; "local://b"; "ghost"] in
     live_session_order sv' = ["local://b"; "local://c"; "local://a"]
     /\ live_session_order sv' ≡ₚ live_session_order three_rows.
Proof.
  split; [by apply (bool_decide_unpack _)|].
  pose proof (replace_live_session_order_correct three_rows
    ["codex-runtime://b"; "local://b"; "ghost"] ltac:(by apply (bool_decide_unpack _))) as H.
  destruct (replace_live_session_order _ _) as [sv' u] eqn:E. split; [|apply H].
  vm_compute in E. injection E as <- <-. reflexivity.
Defined.

(** A new row is seated where its number entitles it and moves no other row.  Once the
    numbered rows stand in outline order they still do with the new row among them, rows with
    the same number before it; a row with no number goes to the front; and seating a row twice
    does not list it twice. *)
Theorem seat_new_live_session_correct sv key :
  outline_ordered sv ->
  let '(sv', r) := seat_new_live_session sv key in
  outline_ordered sv'
  /\ filter (fun x => x <> key) (live_session_order sv')
     = filter (fun x => x <> key) (live_session_order sv)
  /\ live_session_order sv' ≡ₚ key :: filter (fun x => x <> key) (live_session_order sv)
  /\ (r = RuleOutline /\ numbered sv key
      /\ (exists l1 l2, live_session_order sv' = l1 ++ key :: l2
          /\ (forall x, x ∈ l1 -> numbered sv x -> seat_before sv x key)
          /\ (forall x, x ∈ l2 -> numbered sv x -> ~ seat_before sv x key))
      \/ r = RuleFront /\ ~ numbered sv key /\ head (live_session_order sv') = Some key).
Proof.
  intros Hs. pose proof (seat_new_order sv key) as (_ & Hf & Hp).
  destruct (seat_new_live_session sv key) as [sv' r] eqn:E. cbn [fst] in *.
  revert E. unfold seat_new_live_session. set (sv1 := mkServer _ _).
  assert (outline_ordered sv1) as Hs1 by by apply retain_other_ordered.
  destruct (outline_seat_for sv1 key) as [i|] eqn:Hi; intros [= <- <-].
  - pose proof (outline_seat_split sv1 key i Hs1 Hi) as (Hn & Hlen & Hb & Ha).
    split_and!; [by apply (seat_inserted_ordered sv1)|done|done|]. left.
    split_and!; [done|done|]. by eexists _, _.
  - assert (~ numbered sv key) as Hn.
    { unfold outline_seat_for in Hi. case_decide as Hd; [|done]. intros Hk. by apply Hk. }
    split_and!; [|done|done|right; done].
    unfold outline_ordered. cbn [live_session_order]. rewrite filter_cons_False by done. exact Hs1.
Qed.

Lemma seat_new_live_session_correct_witness :
  outline_ordered three_rows
  /\ let '(sv', r) := seat_new_live_session three_rows "local://n" in
     outline_ordered sv' /\ live_session_order sv' = ["local://c"; "local://a"; "local://n"; "local://b"].
Proof.
  assert (outline_ordered three_rows) as Hs.
  { unfold outline_ordered.
    assert (filter (numbered three_rows) (live_session_order three_rows)
            = ["local://a"; "local://b"]) as -> by (vm_compute; reflexivity).
    repeat constructor; vm_compute; reflexivity. }
  split; [exact Hs|]. pose proof (seat_new_live_session_correct three_rows "local://n" Hs) as H.
  destruct (seat_new_live_session _ _) as [sv' r] eqn:E. split; [apply H|].
  vm_compute in E. injection E as <- <-. reflexivity.
Defined.

(** Placing a row below an anchor either does exactly that or does nothing.  When it
    answers true the row stands directly below the row the anchor resolves to, no other two
    rows changed their relative order, and no row was added or lost; when it answers false the
    server is untouched, and that happens only for a blank or unresolvable anchor, the row
    itself, or a row that is not listed. *)
Theorem place_live_session_after_correct sv key anchor :
  NoDup (live_session_order sv) ->
  let '(sv', placed) := place_live_session_after sv key anchor in
  if placed then
    exists a ak, non_blank anchor = Some a /\ resolve_live_session_key sv a = Some ak
      /\ (exists l r, live_session_order sv' = l ++ [ak; key] ++ r)
      /\ live_session_order sv' ≡ₚ live_session_order sv
      /\ filter (fun x => x <> key) (live_session_order sv')
         = filter (fun x => x <> key) (live_session_order sv)
      /\ sessions sv' = sessions sv
  else sv' = sv
    /\ match non_blank anchor with
       | None => True
       | Some a => match resolve_live_session_key sv a with
                   | None => True
                   | Some ak => ak = key \/ ak ∉ live_session_order sv \/ key ∉ live_session_order sv
                   end
       end.
Proof. apply place_live_session_after_spec. Qed.

Lemma place_live_session_after_correct_witness :
  NoDup (live_session_order three_rows)
  /\ let '(sv', placed) := place_live_session_after three_rows "local://c" (Some " local://b ") in
     placed = true /\ live_session_order sv' ≡ₚ live_session_order three_rows.
Proof.
  split; [by apply (bool_decide_unpack _)|].
  pose proof (place_live_session_after_correct three_rows "local://c" (Some " local://b ")
    ltac:(by apply (bool_decide_unpack _))) as H.
  destruct (place_live_session_after _ _ _) as [sv' placed] eqn:E.
  vm_compute in E. injection E as <- <-. split; [reflexivity|].
  destruct H as (a & ak & _ & _ & _ & Hp & _). exact Hp.
Defined.

(** ** Seating on creation *)

Lemma find_map_update (l : list (string * Session)) key f :
  snd <$> List.find (fun '(k, _) => String.eqb k key)
            (map (fun '(k, s) => (k, if String.eqb k key then f s else s)) l)
  = f <$> (snd <$> List.find (fun '(k, _) => String.eqb k key) l).
Proof.
  induction l as [|[k s] l IH]; cbn; [done|]. destruct (String.eqb k key) eqn:E; [|exact IH].
  done.
Qed.

Lemma set_session_outline_prefix_get sv key prefix :
  get_session (fst (set_session_outline_prefix sv key prefix)) key
  = set_prefix prefix <$> get_session sv key.
Proof.
  unfold set_session_outline_prefix. destruct (get_session sv key) as [s|] eqn:E; [|done].
  cbn [fst]. unfold get_session at 1. cbn [sessions]. rewrite find_map_update.
  unfold get_session in E. by rewrite E.
Qed.

Lemma set_session_outline_prefix_frame sv key prefix :
  live_session_order (fst (set_session_outline_prefix sv key prefix)) = live_session_order sv
  /\ (sessions (fst (set_session_outline_prefix sv key prefix))).*1 = (sessions sv).*1.
Proof.
  unfold set_session_outline_prefix. destruct (get_session sv key); [|done]. cbn.
  split; [done|]. induction (sessions sv) as [|[k se] l IH]; cbn; [done|]. by rewrite IH.
Qed.

Lemma stored_prefix_is_numbered sv key prefix q :
  normalize_outline_prefix prefix = Ok (Some q) -> is_Some (get_session sv key) ->
  let sv' := fst (set_session_outline_prefix sv key q) in
  (exists s, get_session sv' key = Some s /\ outline_prefix s = Some q) /\ numbered sv' key.
Proof.
  intros Hq [se Hs]. destruct (normalize_canonical _ _ Hq) as (l & Hl & Hr & _).
  assert (trim q = q) as Ht by (rewrite Hr; apply trim_plain, render_segments_plain).
  assert (str_is_empty q = false) as He.
  { destruct q; [|done]. cbn in Hl. discriminate. }
  cbn zeta. unfold numbered, outline_key_for_seating. rewrite set_session_outline_prefix_get, Hs.
  cbn [fmap option_fmap option_map]. unfold set_prefix. rewrite Ht, He. cbn [outline_prefix title].
  split; [by eexists|]. by rewrite Hl.
Qed.

Inductive live_step : Server -> Server -> Prop :=
| step_replace sv paths : live_step sv (fst (replace_live_session_order sv paths))
| step_seat_new sv key : live_step sv (fst (seat_new_live_session sv key))
| step_place sv key anchor : live_step sv (fst (place_live_session_after sv key anchor))
| step_prefix sv key prefix : live_step sv (fst (set_session_outline_prefix sv key prefix))
| step_append sv key : live_step sv (append_restored_live_session_order sv key)
| step_move sv key anchor : live_step sv (move_live_session_after sv key anchor).

Lemma live_step_inv sv sv' :
  live_step sv sv' -> NoDup (live_session_order sv) ->
  NoDup (live_session_order sv') /\ (sessions sv').*1 = (sessions sv).*1.
Proof.
  intros Hstep Hnd. destruct Hstep.
  - destruct (replace_order sv paths Hnd) as [_ Hp]. rewrite Hp. split; [done|].
    by rewrite (proj1 (proj2 (proj2 (replace_eq sv paths)))).
  - destruct (seat_new_order sv key) as (-> & _ & ->). split; [|done]. constructor.
    + unfold retain_other. rewrite list_elem_of_filter. tauto.
    + by apply NoDup_filter.
  - pose proof (place_live_session_after_frame sv key anchor Hnd) as [-> ->]. done.
  - destruct (set_session_outline_prefix_frame sv key prefix) as [-> ->]. done.
  - split; [|done]. cbn. apply NoDup_app. split_and!; [by apply NoDup_filter| |apply NoDup_singleton].
    unfold retain_other. intros x Hx ->%list_elem_of_singleton.
    apply list_elem_of_filter in Hx. tauto.
  - unfold move_live_session_after. destruct (index_of key _) as [from|] eqn:E; [|done].
    split; [|done]. cbn [live_session_order]. apply index_of_Some in E.
    by rewrite vec_insert_perm, vec_remove_perm.
Qed.

(** The order of the live rows lists no row twice, under every reorder, seating,
    placement, restore and move, and none of them creates or drops a session. *)
Theorem live_order_invariant sv sv' :
  rtc live_step sv sv' -> NoDup (live_session_order sv) ->
  NoDup (live_session_order sv') /\ (sessions sv').*1 = (sessions sv).*1.
Proof.
  induction 1 as [sv|sv sv1 sv2 H1 _ IH]; intros Hnd; [done|].
  destruct (live_step_inv _ _ H1 Hnd) as [Hnd1 <-]. by apply IH.
Qed.

Lemma live_order_invariant_witness :
  NoDup (live_session_order three_rows)
  /\ NoDup (live_session_order (fst (seat_new_live_session three_rows "local://n"))).
Proof.
  split; [by apply (bool_decide_unpack _)|].
  apply (live_order_invariant three_rows); [apply rtc_once; constructor|].
  by apply (bool_decide_unpack _).
Defined.

(** The answer of a create's seating is the effect, not the request.  A refusal leaves the
    server untouched; an accepted number is stored on the row in canonical form and the row is
    seated by it; an anchor reported as honoured leaves the row directly below it; and an
    answer without an instruction changed nothing. *)
Theorem seat_created_live_session_honest sv key prefix insert_after :
  NoDup (live_session_order sv) -> is_Some (get_session sv key) ->
  let '(sv', out) := seat_created_live_session sv key prefix insert_after in
  (refusal out <> None <-> rule out = RuleRefused)
  /\ (rule out = RuleRefused -> sv' = sv)
  /\ (forall q, seated_prefix out = Some q -> rule out = RuleOutline
        /\ exists s, get_session sv' key = Some s /\ outline_prefix s = Some q)
  /\ (rule out = RuleAfterAnchor -> exists a ak l r, non_blank insert_after = Some a
        /\ resolve_live_session_key sv a = Some ak
        /\ live_session_order sv' = l ++ [ak; key] ++ r)
  /\ (rule out = RuleFront -> sv' = sv).
Proof.
  intros Hnd Hs. unfold seat_created_live_session. destruct (non_blank prefix) as [p|].
  - destruct (normalize_outline_prefix p) as [[q|]|e] eqn:Hq; [|naive_solver..].
    destruct (stored_prefix_is_numbered sv key p q Hq Hs) as [Hget Hnum].
    set (sv1 := fst (set_session_outline_prefix sv key q)) in *.
    pose proof (seat_new_order sv1 key) as (Hss & _ & _).
    assert (snd (seat_new_live_session sv1 key) = RuleOutline) as Hr.
    { unfold seat_new_live_session, outline_seat_for. by rewrite decide_False by exact Hnum. }
    destruct (seat_new_live_session sv1 key) as [sv2 r] eqn:E. cbn [fst snd] in *. subst r.
    cbn [refusal rule seated_prefix]. split_and!; try done.
    intros q' [= <-]. split; [done|]. unfold get_session in *. by rewrite Hss.
  - destruct (non_blank insert_after) as [a|] eqn:Ha; [|naive_solver].
    pose proof (place_live_session_after_spec sv key (Some a) Hnd) as Hplace.
    destruct (place_live_session_after sv key (Some a)) as [sv' placed].
    assert (non_blank (Some a) = Some a) as Hna.
    { unfold non_blank in Ha. destruct insert_after as [v|]; [|done].
      destruct (str_is_empty (trim v)) eqn:Ev; [done|]. injection Ha as <-.
      unfold non_blank. by rewrite trim_idemp, Ev. }
    rewrite Hna in Hplace. destruct placed; cbn [refusal rule seated_prefix]; split_and!; try done.
    + intros _. destruct Hplace as (a' & ak & [= <-] & Hak & (l & r & Hlr) & _).
      by exists a, ak, l, r.
    + by destruct Hplace as [-> _].
Qed.

Lemma seat_created_live_session_honest_witness :
  is_Some (get_session three_rows "local://c")
  /\ let '(sv', out) := seat_created_live_session three_rows "local://c" (Some " 1.7. ") None in
     seated_prefix out = Some "1.7" /\ rule out = RuleOutline
     /\ live_session_order sv' = ["local://a"; "local://c"; "local://b"].
Proof.
  split; [vm_compute; by eexists|].
  pose proof (seat_created_live_session_honest three_rows "local://c" (Some " 1.7. ") None
    ltac:(by apply (bool_decide_unpack _)) ltac:(vm_compute; by eexists)) as H.
  destruct (seat_created_live_session _ _ _ _) as [sv' out] eqn:E.
  vm_compute in E. injection E as <- <-. destruct H as (_ & _ & H & _).
  split; [reflexivity|]. split; [exact (proj1 (H "1.7" eq_refl))|reflexivity].
Defined.
