(* ===== verification/RowOrderLedger.v ===== *)
(** The durable memory of row slots (server/row_order_ledger.rs): recording a live order,
    placing a row that comes back, and putting a rebuilt order back the way it was left.

    A scope's rows are a list; the file behind the ledger is not modelled.  The two loops of
    the module that attach a row to the nearest preceding row of another kind are both
    [attachments]. *)
From S2P Require Import Prelude RustStr SessionOutline AgentRegistry AgentScheme LiveOrder.
#[local] Open Scope nat_scope.

Definition SHARED_ROW_ORDER_SCOPE : string := "shared".
Definition MAX_ROWS_PER_SCOPE : nat := 1000.

Inductive RowLedgerPlacement : Type := Front | AfterLive (row : string) | Unknown.

Definition RowOrderLedger : Type := gmap string (list string).

Definition scope_rows (l : RowOrderLedger) (scope : string) : list string := default [] (l !! scope).

(** ** Attaching rows to anchors *)

(** Each first occurrence of a row that is no anchor, with the last anchor before it. *)
Fixpoint attachments (is_anchor : string -> bool) (seen : list string) (last : option string)
    (rows : list string) : list (option string * string) :=
  match rows with
  | [] => []
  | row :: rows' =>
    if decide (row ∈ seen) then attachments is_anchor seen last rows'
    else if is_anchor row then attachments is_anchor (row :: seen) (Some row) rows'
    else (last, row) :: attachments is_anchor (row :: seen) last rows'
  end.

(** [map.entry(key).or_default().push(row)]. *)
Definition push_entry {K} `{Countable K} (m : gmap K (list string)) (kv : K * string)
    : gmap K (list string) := <[kv.1 := default [] (m !! kv.1) ++ [kv.2]]> m.

Definition push_all {K} `{Countable K} (pairs : list (K * string)) : gmap K (list string) :=
  foldl push_entry ∅ pairs.

(** ** Recording *)

Definition anchor_index (live_order : list string) (anchor : option string) : option nat :=
  anchor ≫= fun a => position (fun row => bool_decide (row = a)) live_order.

(** [live_set.contains]. *)
Definition in_order (live_order : list string) (row : string) : bool :=
  bool_decide (row ∈ live_order).

Definition woven (live_order old : list string) : list string :=
  let absent_after :=
    push_all (map (fun '(anchor, row) => (anchor_index live_order anchor, row))
                (attachments (in_order live_order) [] None old)) in
  default [] (absent_after !! None)
  ++ List.concat (imap (fun ix row => row :: default [] (absent_after !! Some ix)) live_order).

(** The loop that drops remembered rows from the tail, then truncates. *)
Fixpoint cap_rows (fuel : nat) (live_order next : list string) : list string :=
  match fuel with
  | O => next
  | S fuel' =>
    if MAX_ROWS_PER_SCOPE <? length next then
      match rposition (fun row => negb (in_order live_order row)) next with
      | Some pos => cap_rows fuel' live_order (vec_remove pos next)
      | None => cap_rows fuel' live_order (take MAX_ROWS_PER_SCOPE next)
      end
    else next
  end.

Definition next_rows (live_order old : list string) : list string :=
  let next := woven live_order old in cap_rows (length next) live_order next.

Definition record_live_order (l : RowOrderLedger) (scope : string) (live_order : list string)
    : RowOrderLedger * bool :=
  let next := next_rows live_order (default [] (l !! scope)) in
  if bool_decide (l !! scope = Some next)
     || (bool_decide (next = []) && bool_decide (l !! scope = None))
  then (l, false)
  else (<[scope := next]> l, true).

(** ** Placing *)

Fixpoint nearest_live (is_live : string -> bool) (path : string) (anchors : list string)
    : RowLedgerPlacement :=
  match anchors with
  | [] => Front
  | anchor :: rest =>
    if bool_decide (anchor <> path) && is_live anchor then AfterLive anchor
    else nearest_live is_live path rest
  end.

Definition placement_in (is_live : string -> bool) (path : string) (rows : list string)
    : option RowLedgerPlacement :=
  match position (fun row => bool_decide (row = path)) rows with
  | None => None
  | Some row_ix => Some (nearest_live is_live path (rev (take row_ix rows)))
  end.

Definition placement_for (l : RowOrderLedger) (scope path : string) (is_live : string -> bool)
    : RowLedgerPlacement :=
  match placement_in is_live path (scope_rows l scope) with
  | Some p => p
  | None => match placement_in is_live path (scope_rows l SHARED_ROW_ORDER_SCOPE) with
            | Some p => p
            | None => Unknown
            end
  end.

(** ** Reconciling *)

(** The ledger's first occurrence of a row. *)
Definition remembered_rank (remembered : list string) (row : string) : option nat :=
  position (fun r => bool_decide (r = row)) remembered.

Definition rank_leb (remembered : list string) (a b : string) : bool :=
  default 0 (remembered_rank remembered a) <=? default 0 (remembered_rank remembered b).

Definition is_remembered (remembered : list string) (row : string) : bool :=
  is_Some_b (remembered_rank remembered row).

Definition reconcile_order_with_remembered (current remembered : list string) : list string :=
  match current, remembered with
  | [], _ | _, [] => current
  | _, _ =>
    let known := List.filter (is_remembered remembered) (dedup current) in
    let after := push_all (attachments (is_remembered remembered) [] None current) in
    default [] (after !! None)
    ++ List.concat (map (fun row => row :: default [] (after !! Some row))
                      (stable_sort (rank_leb remembered) known))
  end.

Definition restore_live_row_order {S U} `{OrderWriter S U} (sv : S) (remembered : list string) : S * U :=
  let current := row_order sv in
  let reconciled := reconcile_order_with_remembered current remembered in
  if bool_decide (reconciled = current) then (sv, unchanged)
  else write_order sv reconciled.

(** ** The pre-swap snapshot names kept: the newest of the sorted list *)

Definition MAX_PRE_DAEMON_SWAP_SNAPSHOTS : nat := 32.

Definition pruned_snapshots (sorted_names : list string) : list string :=
  if length sorted_names <=? MAX_PRE_DAEMON_SWAP_SNAPSHOTS then []
  else take (length sorted_names - MAX_PRE_DAEMON_SWAP_SNAPSHOTS) sorted_names.

(** * Lemmas *)

Section groups.
Context {K : Type} `{Countable K}.

Definition group (k : K) (pairs : list (K * string)) : list string :=
  map snd (filter (fun p => p.1 = k) pairs).

Lemma push_all_group pairs k : default [] (push_all pairs !! k) = group k pairs.
Proof.
  unfold push_all.
  enough (forall m, default [] (foldl push_entry m pairs !! k) = default [] (m !! k) ++ group k pairs)
    as -> by (rewrite lookup_empty; reflexivity).
  induction pairs as [|[k' v] pairs IH]; intros m; cbn [foldl]; [unfold group; cbn; by rewrite app_nil_r|].
  rewrite IH. unfold push_entry, group. cbn [fst snd]. rewrite lookup_insert, filter_cons. cbn [fst].
  destruct (decide (k' = k)) as [->|]; cbn; [|done]. by rewrite <- app_assoc.
Qed.

Lemma group_app k l1 l2 : group k (l1 ++ l2) = group k l1 ++ group k l2.
Proof. unfold group. by rewrite filter_app, map_app. Qed.

Lemma group_cons k p l : group k (p :: l) = if decide (p.1 = k) then p.2 :: group k l else group k l.
Proof. unfold group. rewrite filter_cons. by case_decide. Qed.

Lemma group_tagged k k' l : group k (map (pair k') l) = if decide (k' = k) then l else [].
Proof.
  induction l as [|x l IH]; [by case_decide|]. cbn [map]. rewrite group_cons, IH. cbn.
  by case_decide.
Qed.

Lemma elem_of_group k l x : x ∈ group k l <-> (k, x) ∈ l.
Proof.
  unfold group. split.
  - intros ([k' y] & -> & [Hk ?]%list_elem_of_filter)%list_elem_of_fmap. cbn in *. by subst.
  - intros Hx. apply list_elem_of_fmap. exists (k, x). split; [done|]. by apply list_elem_of_filter.
Qed.

(** Every pair lands in exactly one group. *)
Lemma groups_partition (ks : list K) pairs :
  NoDup ks -> (forall p, p ∈ pairs -> p.1 ∈ ks) ->
  List.concat (map (fun k => group k pairs) ks) ≡ₚ map snd pairs.
Proof.
  intros Hnd. induction pairs as [|[k v] pairs IH]; intros Hks.
  - clear. induction ks; cbn; done.
  - assert (k ∈ ks) as Hk by (apply (Hks (k, v)); left).
    assert (List.concat (map (fun k' => group k' ((k, v) :: pairs)) ks)
            ≡ₚ v :: List.concat (map (fun k' => group k' pairs) ks)) as ->.
    { clear -Hnd Hk. induction ks as [|k' ks IH]; [by apply elem_of_nil in Hk|].
      apply NoDup_cons in Hnd as [Hn Hnd]. cbn [map List.concat]. rewrite group_cons. cbn [fst snd].
      case_decide as Hkk.
      - subst k'. rewrite (map_ext_in _ (fun k' => group k' pairs)); [done|].
        intros k' Hk'%list_elem_of_In. rewrite group_cons, decide_False; [done|]. cbn. congruence.
      - apply elem_of_cons in Hk as [?|Hk]; [congruence|]. rewrite IH by done.
        by rewrite Permutation_middle. }
    cbn. f_equiv. apply IH. intros; apply Hks; by right.
Qed.
End groups.

(** ** The walk that attaches rows, and laying the attached rows out again *)

(** [attachments] when no row repeats. *)
Fixpoint att (p : string -> bool) (last : option string) (rows : list string)
    : list (option string * string) :=
  match rows with
  | [] => []
  | row :: rows' => if p row then att p (Some row) rows' else (last, row) :: att p last rows'
  end.

Lemma attachments_att p seen last rows :
  attachments p seen last rows = att p last (dedup_from seen rows).
Proof.
  revert seen last. induction rows as [|r rows IH]; intros seen last; [done|]. cbn [attachments dedup_from].
  case_decide; [apply IH|]. cbn [att]. rewrite !IH. done.
Qed.

Lemma att_anchors p last rows a r :
  (a, r) ∈ att p last rows ->
  (a = last \/ exists k, a = Some k /\ k ∈ rows /\ p k = true) /\ r ∈ rows /\ p r = false.
Proof.
  revert last. induction rows as [|x rows IH]; intros last; [by intros ?%elem_of_nil|]. cbn [att].
  destruct (p x) eqn:Hp.
  - intros (Ha & Hr & ?)%IH. split_and!; [|by right|done]. destruct Ha as [->|(k & ? & ? & ?)].
    + right. exists x. split_and!; [done|left|done].
    + right. exists k. split_and!; [done|by right|done].
  - intros [[= -> ->]|Hin]%elem_of_cons; [split_and!; [by left|left|done]|].
    apply IH in Hin as (Ha & ? & ?). split_and!; [|by right|done].
    destruct Ha as [->|(k & ? & ? & ?)]; [by left|]. right. exists k. split_and!; [done|by right|done].
Qed.

Lemma att_rows p last rows : map snd (att p last rows) = List.filter (fun r => negb (p r)) rows.
Proof.
  revert last. induction rows as [|x rows IH]; intros last; [done|]. cbn.
  destruct (p x); cbn; [|f_equal]; apply IH.
Qed.

Lemma att_app_plain p last l1 l2 :
  Forall (fun r => p r = false) l1 -> att p last (l1 ++ l2) = map (pair last) l1 ++ att p last l2.
Proof. induction 1 as [|x l1 Hx _ IH]; [done|]. cbn. by rewrite Hx, IH. Qed.

(** The anchors [ks] in order, each followed by the rows attached to it. *)
Definition lay (ks : list string) (g : option string -> list string) : list string :=
  g None ++ List.concat (map (fun k => k :: g (Some k)) ks).

Lemma lay_ext ks g g' : (forall a, a = None \/ (exists k, a = Some k /\ k ∈ ks) -> g a = g' a) ->
  lay ks g = lay ks g'.
Proof.
  intros Hg. unfold lay. rewrite (Hg None) by by left. f_equal. f_equal. apply map_ext_in.
  intros k Hk%list_elem_of_In. f_equal. apply Hg. right. by exists k.
Qed.

Lemma lay_perm ks g : lay ks g ≡ₚ ks ++ List.concat (map g (None :: map Some ks)).
Proof.
  unfold lay. cbn [map List.concat]. rewrite (Permutation_app_swap_app ks). f_equiv.
  induction ks as [|k ks IH]; [done|]. cbn. f_equiv. rewrite IH. by rewrite Permutation_app_swap_app.
Qed.

(** The attached rows are all laid out, once each. *)
Lemma lay_groups_perm ks pairs :
  NoDup ks -> (forall p, p ∈ pairs -> p.1 = None \/ exists k, p.1 = Some k /\ k ∈ ks) ->
  lay ks (fun a => group a pairs) ≡ₚ ks ++ map snd pairs.
Proof.
  intros Hnd Hp. rewrite lay_perm. f_equiv.
  apply (groups_partition (None :: map Some ks)).
  - apply NoDup_cons. split; [intros (? & ? & ?)%list_elem_of_fmap; done|].
    by apply (NoDup_fmap_2 Some).
  - intros p [->|(k & -> & Hk)]%Hp; [left|right]. by apply list_elem_of_fmap_2.
Qed.

Lemma filter_lay p ks g :
  Forall (fun k => p k = true) ks ->
  (forall a, Forall (fun r => p r = false) (g a)) ->
  List.filter p (lay ks g) = ks.
Proof.
  intros Hks Hg. assert (forall a, List.filter p (g a) = []) as Hn.
  { intros a. induction (Hg a) as [|x l Hx _ IH]; [done|]. cbn. by rewrite Hx. }
  unfold lay. rewrite List.filter_app, Hn. cbn. induction Hks as [|k ks Hk _ IH]; [done|].
  cbn. rewrite Hk, List.filter_app, Hn. cbn. by f_equal.
Qed.

Lemma att_concat p last ks g :
  Forall (fun k => p k = true) ks -> (forall a, Forall (fun r => p r = false) (g a)) ->
  att p last (List.concat (map (fun k => k :: g (Some k)) ks))
  = List.concat (map (fun k => map (pair (Some k)) (g (Some k))) ks).
Proof.
  intros Hks Hg. revert last. induction Hks as [|k ks Hk _ IH]; intros last; [done|]. cbn.
  rewrite Hk, att_app_plain by apply Hg. by rewrite IH.
Qed.

(** Reading the attachments back from a laid-out list. *)
Lemma group_att_lay p ks g a :
  NoDup ks -> Forall (fun k => p k = true) ks -> (forall a', Forall (fun r => p r = false) (g a')) ->
  (a = None \/ exists k, a = Some k /\ k ∈ ks) ->
  group a (att p None (lay ks g)) = g a.
Proof.
  intros Hnd Hks Hg Ha. unfold lay. rewrite att_app_plain, att_concat by done.
  rewrite group_app, group_tagged.
  assert (forall ks', group None (List.concat (map (fun k => map (pair (Some k)) (g (Some k))) ks')) = [])
    as Hnone.
  { induction ks' as [|k ks' IH]; [done|]. cbn [map List.concat]. by rewrite group_app, group_tagged, IH. }
  destruct Ha as [->|(k & -> & Hk)]; [by rewrite Hnone, app_nil_r|]. rewrite decide_False by done. cbn [app]. clear Hnone Hks.
  induction ks as [|k' ks IH]; [by apply elem_of_nil in Hk|].
  apply NoDup_cons in Hnd as [Hn Hnd]. cbn [map List.concat]. rewrite group_app, group_tagged.
  apply elem_of_cons in Hk as [->|Hk].
  - rewrite decide_True by done. rewrite <- (app_nil_r (g (Some k'))) at 2. f_equal.
    clear -Hn. induction ks as [|k ks IH]; [done|]. cbn [map List.concat]. rewrite group_app, group_tagged, decide_False.
    + apply IH. intros ?; apply Hn; by right.
    + intros [= ->]. apply Hn. left.
  - rewrite decide_False by (intros [= ->]; done). by apply IH.
Qed.

(** A list whose anchors are in place is its own layout. *)
Lemma lay_att p last l :
  NoDup l -> (forall k, last = Some k -> k ∉ l) ->
  group last (att p last l)
  ++ List.concat (map (fun k => k :: group (Some k) (att p last l)) (List.filter p l)) = l.
Proof.
  revert last. induction l as [|x l IH]; intros last Hnd Hl; [done|].
  apply NoDup_cons in Hnd as [Hx Hnd]. cbn [att List.filter]. destruct (p x) eqn:Hp.
  - assert (group last (att p (Some x) l) = []) as ->.
    { destruct (group last _) as [|y g'] eqn:Hg; [done|]. exfalso.
      assert (y ∈ group last (att p (Some x) l)) as ([->|(k & -> & Hk & _)] & _)%elem_of_group%att_anchors
        by (rewrite Hg; left).
      - apply (Hl x); [done|left].
      - apply (Hl k); [done|by right]. }
    cbn. f_equal. apply IH; [done|]. by intros k [= <-].
  - rewrite group_cons. cbn [fst snd]. rewrite decide_True by done. cbn [app]. f_equal.
    rewrite <- (IH last) at 3; [|done|intros k ->]; [|intros ?; apply (Hl k); [done|by right]].
    f_equal. f_equal. apply map_ext_in. intros k [Hk _]%List.filter_In.
    rewrite group_cons, decide_False; [done|]. cbn. intros ->.
    apply (Hl k); [done|]. right. by apply list_elem_of_In.
Qed.

(** ** Recording *)

Lemma in_order_true live k : in_order live k = true <-> k ∈ live.
Proof. apply bool_decide_eq_true. Qed.

Lemma in_order_false live k : in_order live k = false <-> k ∉ live.
Proof. apply bool_decide_eq_false. Qed.

Lemma position_eq_lookup (l : list string) a i :
  position (fun row => bool_decide (row = a)) l = Some i -> l !! i = Some a.
Proof. by intros (x & Hx & ->%bool_decide_eq_true & _)%position_Some. Qed.

Lemma position_eq_elem (l : list string) a :
  a ∈ l -> exists i, position (fun row => bool_decide (row = a)) l = Some i /\ l !! i = Some a.
Proof.
  intros Ha. destruct (position _ l) as [i|] eqn:Hp.
  - exists i. split; [done|]. by apply position_eq_lookup.
  - rewrite position_None, Forall_forall in Hp. specialize (Hp a Ha).
    by rewrite bool_decide_eq_false in Hp.
Qed.

(** The map keyed by positions in the live order is the map keyed by live rows. *)
Lemma group_anchor_index live pairs a ix :
  NoDup live -> (forall p k, p ∈ pairs -> p.1 = Some k -> k ∈ live) ->
  match ix with None => a = None | Some i => exists k, a = Some k /\ live !! i = Some k end ->
  group ix (map (fun '(anchor, row) => (anchor_index live anchor, row)) pairs) = group a pairs.
Proof.
  intros Hnd Hp Hix. induction pairs as [|[a' r] pairs IH]; [done|]. cbn [map].
  rewrite !group_cons, IH by (intros ? ? Hin; apply Hp; by right). cbn [fst snd].
  assert (anchor_index live a' = ix <-> a' = a) as Hiff; [|destruct (decide (a' = a));
    [rewrite decide_True by tauto|rewrite decide_False by tauto]; done].
  destruct a' as [k'|]; cbn.
  - destruct (position_eq_elem live k') as (i' & -> & Hi'); [by apply (Hp (Some k', r)); [left|]|].
    destruct ix as [i|]; [destruct Hix as (k & -> & Hi)|subst a; done]. split; intros [= ->].
    + congruence.
    + by rewrite (NoDup_lookup _ _ _ _ Hnd Hi' Hi).
  - destruct ix as [i|]; [destruct Hix as (k & -> & Hi)|subst a]; done.
Qed.

Lemma imap_lookup_ext {A B} (f : nat -> A -> B) (g : A -> B) l :
  (forall i x, l !! i = Some x -> f i x = g x) -> imap f l = map g l.
Proof.
  revert f. induction l as [|x l IH]; intros f Hf; [done|]. cbn. f_equal; [by apply (Hf 0)|].
  apply IH. intros i y Hi. by apply (Hf (S i)).
Qed.

Lemma att_anchors_in p rows pr k :
  pr ∈ att p None rows -> pr.1 = Some k -> k ∈ List.filter p rows.
Proof.
  destruct pr as [a r]. cbn [fst]. intros Hin ->. apply att_anchors in Hin as [[?|(k' & [= <-] & ? & ?)] _]; [done|].
  apply list_elem_of_In, List.filter_In. by rewrite <- list_elem_of_In.
Qed.

(** The woven list: the live rows, each followed by the absent rows attached to it. *)
Lemma woven_lay live old :
  NoDup live ->
  woven live old = lay live (fun a => group a (att (in_order live) None (dedup old))).
Proof.
  intros Hnd. unfold woven, lay. rewrite attachments_att. fold (dedup old).
  assert (forall p k, p ∈ att (in_order live) None (dedup old) -> p.1 = Some k -> k ∈ live) as Hin.
  { intros p k Hp Hk. pose proof (att_anchors_in _ _ _ _ Hp Hk) as H.
    apply list_elem_of_In, List.filter_In in H as [_ H]. by apply in_order_true in H. }
  rewrite push_all_group, (group_anchor_index live _ None None) by done. f_equal. f_equal.
  apply imap_lookup_ext. intros i k Hi. f_equal. rewrite push_all_group.
  apply group_anchor_index; [done..|]. by exists k.
Qed.

Lemma att_plain_groups p last rows a : Forall (fun r => p r = false) (group a (att p last rows)).
Proof. rewrite Forall_forall. intros r Hr%elem_of_group. by apply att_anchors in Hr as (_ & _ & ?). Qed.

Lemma in_order_all live : Forall (fun k => in_order live k = true) live.
Proof. rewrite Forall_forall. intros k Hk. by apply in_order_true. Qed.

Section woven.
Context (live old : list string) (Hlive : NoDup live).

Lemma woven_perm :
  woven live old ≡ₚ live ++ List.filter (fun r => negb (in_order live r)) (dedup old).
Proof using Hlive.
  rewrite woven_lay, lay_groups_perm, att_rows by
    (done || (intros [[k|] r] Hin; [right; exists k; split; [done|]|by left];
              by apply att_anchors_in with (k := k) in Hin as
                [_ H%in_order_true]%list_elem_of_In%List.filter_In)). done.
Qed.

Lemma woven_NoDup : NoDup (woven live old).
Proof using Hlive.
  rewrite woven_perm. apply NoDup_app. split_and!; [done| |].
  - intros r Hr [_ H]%list_elem_of_In%List.filter_In. by rewrite (proj2 (in_order_true _ _) Hr) in H.
  - apply NoDup_ListNoDup, List.NoDup_filter, NoDup_ListNoDup, NoDup_dedup.
Qed.

Lemma woven_live : List.filter (in_order live) (woven live old) = live.
Proof using Hlive.
  rewrite woven_lay by done. apply filter_lay; [apply in_order_all|]. intros a. apply att_plain_groups.
Qed.

Lemma woven_attachments a :
  (a = None \/ exists k, a = Some k /\ k ∈ live) ->
  group a (attachments (in_order live) [] None (woven live old))
  = group a (attachments (in_order live) [] None old).
Proof using Hlive.
  intros Ha. rewrite !attachments_att. fold (dedup (woven live old)) (dedup old).
  rewrite (dedup_id (woven live old)) by apply woven_NoDup. rewrite woven_lay by done.
  apply group_att_lay; [done|apply in_order_all| |done]. intros ?. apply att_plain_groups.
Qed.
End woven.

(** Recording over a list that already holds the live rows in order changes nothing. *)
Lemma woven_fixed live l :
  NoDup live -> NoDup l -> List.filter (in_order live) l = live -> woven live l = l.
Proof.
  intros Hlive Hl Hf. rewrite woven_lay, dedup_id by done. unfold lay.
  pose proof (lay_att (in_order live) None l Hl) as H. rewrite Hf in H. by apply H.
Qed.

(** The cap drops remembered rows that are not live, the last first. *)
Lemma cap_rows_inv fuel live next :
  length live <= MAX_ROWS_PER_SCOPE -> NoDup next -> List.filter (in_order live) next = live ->
  length next <= MAX_ROWS_PER_SCOPE + fuel ->
  let l := cap_rows fuel live next in
  l `sublist_of` next /\ List.filter (in_order live) l = live /\ length l <= MAX_ROWS_PER_SCOPE
  /\ (length next <= MAX_ROWS_PER_SCOPE -> l = next)
  /\ (MAX_ROWS_PER_SCOPE < length next -> length l = MAX_ROWS_PER_SCOPE).
Proof.
  intros Hlen. revert next. induction fuel as [|fuel IH]; intros next Hnd Hf Hn; cbv zeta; cbn [cap_rows].
  - split_and!; try done; lia.
  - destruct (Nat.ltb_spec MAX_ROWS_PER_SCOPE (length next)) as [Hlt|]; [|split_and!; try done; lia].
    destruct (rposition _ next) as [pos|] eqn:Hp.
    + apply rposition_Some in Hp as (x & Hx & Hxl%negb_true_iff).
      pose proof (lookup_lt_Some _ _ _ Hx) as Hpos. pose proof (vec_remove_length pos next Hpos) as Hl.
      pose proof (vec_remove_sublist pos next) as Hsub.
      destruct (IH (vec_remove pos next)) as (I1 & I2 & I3 & I4 & I5).
      * by eapply sublist_NoDup.
      * rewrite <- Hf at 2. unfold vec_remove. rewrite <- (take_drop_middle next pos x Hx) at 3.
        rewrite !List.filter_app. cbn [List.filter]. by rewrite Hxl.
      * lia.
      * split_and!; [by etrans|done|done|lia|]. intros _.
        destruct (decide (length (vec_remove pos next) <= MAX_ROWS_PER_SCOPE)) as [Hle|]; [|apply I5; lia].
        rewrite I4 by done. lia.
    + exfalso. apply rposition_None in Hp.
      assert (List.filter (in_order live) next = next) as Hall.
      { clear -Hp. induction Hp as [|x l Hx%negb_false_iff _ IH]; [done|]. cbn. by rewrite Hx, IH. }
      rewrite Hall in Hf. subst. lia.
Qed.

Section next_rows.
Context (live old : list string) (Hlive : NoDup live) (Hlen : length live <= MAX_ROWS_PER_SCOPE).

Lemma next_rows_cap :
  let next := next_rows live old in
  next `sublist_of` woven live old /\ List.filter (in_order live) next = live
  /\ length next <= MAX_ROWS_PER_SCOPE
  /\ (length (woven live old) <= MAX_ROWS_PER_SCOPE -> next = woven live old)
  /\ (MAX_ROWS_PER_SCOPE < length (woven live old) -> length next = MAX_ROWS_PER_SCOPE).
Proof using Hlive Hlen.
  unfold next_rows. apply cap_rows_inv; [done|by apply woven_NoDup|by apply woven_live|lia].
Qed.

Lemma next_rows_NoDup : NoDup (next_rows live old).
Proof using Hlive Hlen.
  destruct next_rows_cap as (H & _). eapply sublist_NoDup; [by apply woven_NoDup|exact H].
Qed.

Lemma next_rows_live : List.filter (in_order live) (next_rows live old) = live.
Proof using Hlive Hlen. by destruct next_rows_cap as (_ & ? & _). Qed.

(** Recording again changes nothing, capped or not. *)
Lemma next_rows_idemp : next_rows live (next_rows live old) = next_rows live old.
Proof using Hlive Hlen.
  unfold next_rows at 1.
  rewrite (woven_fixed live (next_rows live old)) by (apply next_rows_NoDup || apply next_rows_live || done).
  apply cap_rows_inv; [done|apply next_rows_NoDup|apply next_rows_live|lia|].
  by destruct next_rows_cap as (_ & _ & ? & _).
Qed.
End next_rows.

Lemma record_rows l scope live :
  scope_rows (record_live_order l scope live).1 scope = next_rows live (scope_rows l scope).
Proof.
  unfold record_live_order, scope_rows. cbv zeta. case_match eqn:Hc; cbn [fst].
  - apply orb_true_iff in Hc as [H%bool_decide_eq_true|[Hn H]%andb_true_iff]; [by rewrite H at 1|].
    apply bool_decide_eq_true in Hn as ->. by apply bool_decide_eq_true in H as ->.
  - unfold RowOrderLedger. by rewrite lookup_insert_eq.
Qed.

Lemma record_other l scope live scope' :
  scope' <> scope -> scope_rows (record_live_order l scope live).1 scope' = scope_rows l scope'.
Proof.
  intros Hs. unfold record_live_order, scope_rows. cbv zeta. case_match; cbn [fst]; [done|].
  unfold RowOrderLedger. by rewrite lookup_insert_ne.
Qed.

Lemma record_again l scope live :
  NoDup live -> length live <= MAX_ROWS_PER_SCOPE ->
  let l' := (record_live_order l scope live).1 in record_live_order l' scope live = (l', false).
Proof.
  intros Hnd Hlen. cbv zeta.
  set (next := next_rows live (default [] (l !! scope))).
  assert (next_rows live next = next) as Hn by by apply next_rows_idemp.
  destruct (record_live_order l scope live) as [l' b] eqn:Hr. cbn [fst].
  unfold record_live_order in Hr. cbv zeta in Hr. fold next in Hr.
  destruct (bool_decide _ || _) eqn:Hc in Hr; injection Hr as <- _; unfold record_live_order; cbv zeta.
  - fold next. by rewrite Hc.
  - unfold RowOrderLedger. rewrite lookup_insert_eq. change (default [] (Some next)) with next.
    rewrite Hn. by rewrite (bool_decide_eq_true_2 (Some next = Some next)).
Qed.

(** ** Reconciling *)

Section ranks.
Context (remembered : list string).

Lemma is_remembered_true row : is_remembered remembered row = true <-> row ∈ remembered.
Proof.
  unfold is_remembered, remembered_rank. split.
  - destruct (position _ _) as [i|] eqn:Hp; [intros _|done]. apply position_eq_lookup in Hp.
    by apply list_elem_of_lookup_2 in Hp.
  - intros (i & -> & _)%position_eq_elem. done.
Qed.

#[export] Instance rank_order : BoolOrder (rank_leb remembered).
Proof. unfold rank_leb. apply _. Qed.

Lemma rank_anti a b :
  a ∈ remembered -> rank_leb remembered a b = true -> rank_leb remembered b a = true ->
  b ∈ remembered -> a = b.
Proof.
  unfold rank_leb, remembered_rank. intros (i & -> & Hi)%position_eq_elem H1 H2 (j & Hj' & Hj)%position_eq_elem.
  rewrite Hj' in H1, H2. cbn in *. apply Nat.leb_le in H1, H2. assert (i = j) as -> by lia. congruence.
Qed.

Lemma rank_prefix pre x rest : x ∉ pre -> remembered = pre ++ x :: rest ->
  remembered_rank remembered x = Some (length pre).
Proof.
  intros Hx ->. unfold remembered_rank. apply position_Some. exists x. split_and!.
  - by rewrite lookup_app_r, Nat.sub_diag.
  - by apply bool_decide_eq_true.
  - intros j y Hj Hy. apply bool_decide_eq_false. intros ->. apply Hx.
    rewrite lookup_app_l in Hy by done. by apply list_elem_of_lookup_2 in Hy.
Qed.

Lemma rank_outside pre rest y i : y ∉ pre -> remembered = pre ++ rest ->
  remembered_rank remembered y = Some i -> length pre <= i.
Proof.
  intros Hy -> Hi%position_eq_lookup. destruct (decide (i < length pre)) as [Hlt|]; [|lia].
  rewrite lookup_app_l in Hi by done. by apply list_elem_of_lookup_2 in Hi.
Qed.

(** Without its repetitions the ledger is sorted by rank. *)
Lemma dedup_ordered : ordered (rank_leb remembered) (dedup remembered).
Proof.
  unfold dedup.
  assert (forall pre rest, remembered = pre ++ rest ->
            ordered (rank_leb remembered) (dedup_from pre rest)) as H; [|by apply (H [])].
  intros pre rest. revert pre. induction rest as [|x rest IH]; intros pre Hr; [constructor|].
  cbn [dedup_from]. case_decide as Hx.
  - rewrite (dedup_from_ext _ (pre ++ [x])) by set_solver. apply IH. by rewrite <- app_assoc.
  - constructor.
    + rewrite (dedup_from_ext _ (pre ++ [x])) by set_solver. apply IH. by rewrite <- app_assoc.
    + rewrite Forall_forall. intros y [Hy Hn]%elem_of_dedup_from. unfold rank_leb.
      rewrite (rank_prefix pre x rest) by done. apply Nat.leb_le. cbn.
      assert (y ∈ remembered) as (i & Hi & _)%position_eq_elem by (rewrite Hr; set_solver).
      fold (remembered_rank remembered y) in Hi. rewrite Hi. cbn.
      apply (rank_outside pre (x :: rest) y i); [set_solver|done|done].
Qed.

(** The known rows sorted by rank are the ledger's rows that are present. *)
Lemma sorted_known (current : list string) :
  NoDup current ->
  stable_sort (rank_leb remembered) (List.filter (is_remembered remembered) current)
  = filter (fun r => r ∈ current) (dedup remembered).
Proof.
  intros Hnd. apply (sorted_unique (rank_leb remembered)).
  - intros x y Hx Hy H1 H2. rewrite elem_of_stable_sort, list_elem_of_In, List.filter_In in Hx, Hy.
    destruct Hx as [_ Hx%is_remembered_true], Hy as [_ Hy%is_remembered_true]. by apply rank_anti.
  - apply stable_sort_sorted, _.
  - apply StronglySorted_filter, dedup_ordered.
  - rewrite stable_sort_perm. apply NoDup_Permutation.
    + by apply NoDup_ListNoDup, List.NoDup_filter, NoDup_ListNoDup.
    + apply NoDup_filter, NoDup_dedup.
    + intros x. rewrite list_elem_of_In, List.filter_In, <- list_elem_of_In, is_remembered_true,
        list_elem_of_filter, elem_of_dedup. done.
Qed.
End ranks.

(** Reconciling, as a layout: the ledger's rows that are present, each followed by the unknown
    rows that followed it. *)
Lemma reconcile_lay (current remembered : list string) :
  current <> [] -> remembered <> [] ->
  reconcile_order_with_remembered current remembered
  = lay (filter (fun r => r ∈ dedup current) (dedup remembered))
      (fun a => group a (att (is_remembered remembered) None (dedup current))).
Proof.
  intros Hc Hr. unfold reconcile_order_with_remembered.
  destruct current as [|c current]; [done|]. destruct remembered as [|r remembered]; [done|].
  cbv zeta. rewrite sorted_known by apply NoDup_dedup. rewrite attachments_att. unfold lay.
  rewrite push_all_group. f_equal. f_equal. apply map_ext. intros k. by rewrite push_all_group.
Qed.

Lemma known_att (current remembered : list string) p :
  p ∈ att (is_remembered remembered) None (dedup current) ->
  p.1 = None \/ exists k, p.1 = Some k /\ k ∈ filter (fun r => r ∈ dedup current) (dedup remembered).
Proof.
  intros Hp. destruct (p.1) as [k|] eqn:Hk; [right|by left]. exists k. split; [done|].
  pose proof (att_anchors_in _ _ _ _ Hp Hk) as [Hc Hr%is_remembered_true]%list_elem_of_In%List.filter_In.
  apply list_elem_of_filter. split; [by apply list_elem_of_In|by apply elem_of_dedup].
Qed.

Lemma known_all (current remembered : list string) :
  Forall (fun k => is_remembered remembered k = true) (filter (fun r => r ∈ current) (dedup remembered)).
Proof.
  rewrite Forall_forall. intros k [_ Hk]%list_elem_of_filter. apply is_remembered_true.
  by apply elem_of_dedup.
Qed.

Lemma filter_negb_perm {A} (p : A -> bool) (l : list A) :
  List.filter p l ++ List.filter (fun x => negb (p x)) l ≡ₚ l.
Proof.
  induction l as [|x l IH]; [done|]. cbn. destruct (p x); cbn; [by f_equiv|].
  rewrite <- Permutation_middle. by f_equiv.
Qed.

Lemma reconcile_perm (current remembered : list string) :
  NoDup current -> reconcile_order_with_remembered current remembered ≡ₚ current.
Proof.
  intros Hnd. destruct (decide (current = [])) as [->|Hc]; [done|].
  destruct (decide (remembered = [])) as [->|Hr]; [by destruct current|].
  rewrite reconcile_lay by done. rewrite dedup_id by done.
  rewrite lay_groups_perm, att_rows.
  - rewrite <- sorted_known by done. rewrite stable_sort_perm. apply filter_negb_perm.
  - apply NoDup_filter, NoDup_dedup.
  - intros p. rewrite <- (dedup_id current) at 1 by done. intros Hp%known_att.
    by rewrite dedup_id in Hp.
Qed.

Lemma reconcile_known (current remembered : list string) :
  NoDup current -> remembered <> [] ->
  filter (fun r => r ∈ remembered) (reconcile_order_with_remembered current remembered)
  = filter (fun r => r ∈ current) (dedup remembered).
Proof.
  intros Hnd Hr. destruct (decide (current = [])) as [->|Hc].
  { cbn. symmetry. apply list_filter_none. intros ? _. apply not_elem_of_nil. }
  rewrite reconcile_lay by done. rewrite dedup_id by done.
  set (ks := filter (fun r => r ∈ current) (dedup remembered)).
  set (g := fun a => group a (att (is_remembered remembered) None current)).
  etrans; [|apply (filter_lay (is_remembered remembered) ks g);
    [apply known_all|intros a; apply att_plain_groups]].
  generalize (lay ks g) as l.
  intros l. clear. induction l as [|x l IH]; [done|]. cbn [List.filter]. rewrite filter_cons, IH.
  destruct (is_remembered remembered x) eqn:Hx.
  - apply is_remembered_true in Hx. by rewrite decide_True.
  - rewrite decide_False; [done|]. intros H%is_remembered_true. congruence.
Qed.

Lemma reconcile_attachments (current remembered : list string) a :
  NoDup current -> current <> [] -> remembered <> [] ->
  (a = None \/ exists k, a = Some k /\ k ∈ remembered /\ k ∈ current) ->
  group a (attachments (is_remembered remembered) [] None (reconcile_order_with_remembered current remembered))
  = group a (attachments (is_remembered remembered) [] None current).
Proof.
  intros Hnd Hc Hr Ha. rewrite !attachments_att.
  fold (dedup current) (dedup (reconcile_order_with_remembered current remembered)).
  rewrite (dedup_id (reconcile_order_with_remembered current remembered))
    by (rewrite reconcile_perm by done; done).
  rewrite reconcile_lay by done. apply group_att_lay.
  - apply NoDup_filter, NoDup_dedup.
  - apply known_all.
  - intros ?. apply att_plain_groups.
  - destruct Ha as [->|(k & -> & ? & ?)]; [by left|right]. exists k. split; [done|].
    apply list_elem_of_filter. by rewrite !elem_of_dedup.
Qed.

(** When the ledger knows every row, the reconciled order is the ledger's. *)
Lemma reconcile_all_known (current remembered : list string) :
  NoDup current -> (forall r, r ∈ current -> r ∈ remembered) ->
  reconcile_order_with_remembered current remembered = filter (fun r => r ∈ current) (dedup remembered).
Proof.
  intros Hnd Hk. destruct (decide (remembered = [])) as [->|Hr].
  { destruct current as [|c current]; [done|]. by pose proof (Hk c ltac:(left)) as ?%elem_of_nil. }
  rewrite <- reconcile_known by done. symmetry. apply list_filter_all.
  intros r. rewrite reconcile_perm by done. apply Hk.
Qed.

(** ** Placing *)

Lemma nearest_live_last is_live path l :
  nearest_live is_live path (rev l)
  = match last (List.filter (fun a => bool_decide (a <> path) && is_live a) l) with
    | Some a => AfterLive a
    | None => Front
    end.
Proof.
  induction l as [|x l IH] using rev_ind; [done|]. rewrite rev_app_distr, List.filter_app. cbn.
  destruct (bool_decide (x <> path) && is_live x); [by rewrite last_snoc|by rewrite app_nil_r].
Qed.

Lemma position_eq_split (u v : list string) path :
  path ∉ u -> position (fun row => bool_decide (row = path)) (u ++ path :: v) = Some (length u).
Proof. intros Hu. by apply (rank_prefix (u ++ path :: v) u path v). Qed.

Lemma placement_in_split is_live u path v :
  path ∉ u ->
  placement_in is_live path (u ++ path :: v)
  = Some (match last (List.filter is_live u) with Some a => AfterLive a | None => Front end).
Proof.
  intros Hu. unfold placement_in. rewrite position_eq_split by done.
  rewrite take_app_length, nearest_live_last. do 2 f_equal.
  assert (List.filter (fun a => bool_decide (a <> path) && is_live a) u = List.filter is_live u) as ->; [|done].
  apply List.filter_ext_in. intros a Ha%list_elem_of_In.
  rewrite bool_decide_eq_true_2; [done|]. intros ->. done.
Qed.

Lemma filter_filter_imp (p q : string -> bool) l :
  (forall r, q r = true -> p r = true) -> List.filter q (List.filter p l) = List.filter q l.
Proof.
  intros Hqp. induction l as [|x l IH]; [done|]. cbn. destruct (p x) eqn:Hp; cbn; [by rewrite IH|].
  destruct (q x) eqn:Hq; [|done]. apply Hqp in Hq. congruence.
Qed.

Lemma filter_prop_bool (p : string -> Prop) `{!forall x, Decision (p x)} (l : list string) :
  filter p l = List.filter (fun x => bool_decide (p x)) l.
Proof.
  induction l as [|x l IH]; [done|]. cbn [List.filter]. rewrite filter_cons, IH.
  by destruct (decide (p x)); [rewrite bool_decide_eq_true_2|rewrite bool_decide_eq_false_2].
Qed.

Lemma filter_comm (p q : string -> Prop) `{!forall x, Decision (p x)} `{!forall x, Decision (q x)}
    (l : list string) :
  filter p (filter q l) = filter q (filter p l).
Proof. rewrite !list_filter_filter. apply list_filter_iff. naive_solver. Qed.

Lemma in_order_filter (live l : list string) : filter (fun r => r ∈ live) l = List.filter (in_order live) l.
Proof. apply filter_prop_bool. Qed.

(** The split of the recorded rows at a live row. *)
Lemma recorded_split live l l1 path l2 :
  NoDup l -> List.filter (in_order live) l = l1 ++ path :: l2 ->
  exists u v, l = u ++ path :: v /\ (path ∉ u) /\ List.filter (in_order live) u = l1.
Proof.
  revert l1. induction l as [|x l IH]; intros l1 Hnd Hf; [by destruct l1|].
  pose proof Hnd as [Hx Hnd']%NoDup_cons. cbn in Hf. destruct (in_order live x) eqn:Hin.
  - destruct l1 as [|y l1]; injection Hf as -> Hf.
    + exists [], l. split_and!; [done|apply not_elem_of_nil|done].
    + destruct (IH l1 Hnd' Hf) as (u & v & -> & Hu & Hfu). exists (y :: u), v.
      split_and!; [done| |cbn; by rewrite Hin, Hfu].
      intros [->|?]%elem_of_cons; [|done]. apply Hx. set_solver.
  - destruct (IH l1 Hnd' Hf) as (u & v & -> & Hu & Hfu). exists (x :: u), v.
    split_and!; [done| |cbn; by rewrite Hin].
    intros [->|?]%elem_of_cons; [|done]. apply Hx. set_solver.
Qed.

(** * Properties *)

(** Recording the live order keeps the live rows exactly in their order, forgets no slot
    while there is room, and is settled after one write.  The new list has no repetition and
    at most the cap; with room for every remembered row it is the live rows and the absent
    ones, each absent row still directly behind the live row it was remembered behind, and
    with no room it is filled to the cap; the other scopes are untouched; and recording the
    same order again changes nothing and says so. *)
Theorem record_live_order_correct l scope live :
  NoDup live -> length live <= MAX_ROWS_PER_SCOPE ->
  let l' := (record_live_order l scope live).1 in
  let old := scope_rows l scope in
  let new := scope_rows l' scope in
  let absent := filter (fun r => r ∉ live) (dedup old) in
  filter (fun r => r ∈ live) new = live
  /\ NoDup new /\ length new <= MAX_ROWS_PER_SCOPE
  /\ (length live + length absent <= MAX_ROWS_PER_SCOPE ->
        new ≡ₚ live ++ absent
        /\ forall anchor, (anchor = None \/ exists k, anchor = Some k /\ k ∈ live) ->
             group anchor (attachments (in_order live) [] None new)
             = group anchor (attachments (in_order live) [] None old))
  /\ (MAX_ROWS_PER_SCOPE < length live + length absent -> length new = MAX_ROWS_PER_SCOPE)
  /\ (forall scope', scope' <> scope -> scope_rows l' scope' = scope_rows l scope')
  /\ record_live_order l' scope live = (l', false).
Proof.
  intros Hnd Hlen l' old new absent. pose proof (record_again l scope live Hnd Hlen) as Hagain.
  assert (new = next_rows live old) as -> by apply record_rows.
  assert (List.filter (fun r => negb (in_order live r)) (dedup old) = absent) as Habs.
  { unfold absent. rewrite filter_prop_bool. apply List.filter_ext. intros r. unfold in_order.
    by rewrite bool_decide_not. }
  destruct (next_rows_cap live old Hnd Hlen) as (_ & Hf & Hle & Hroom & Hfull).
  pose proof (woven_perm live old Hnd) as Hw. rewrite Habs in Hw.
  assert (length (woven live old) = length live + length absent) as Hwl by by rewrite Hw, length_app.
  split_and!; [by rewrite in_order_filter|by apply next_rows_NoDup|done| | | |done].
  - intros Hr. rewrite Hroom by lia. split; [done|]. intros anchor Ha. by apply woven_attachments.
  - intros Hr. apply Hfull. lia.
  - intros scope'. apply record_other.
Qed.

Lemma record_live_order_correct_witness :
  let live := ["d"; "a"]%string in
  let l := {["gui" := ["x"; "a"; "b"; "c"; "d"; "e"]%string]} : RowOrderLedger in
  scope_rows (record_live_order l "gui" live).1 "gui" = ["x"; "d"; "e"; "a"; "b"; "c"]%string
  /\ record_live_order (record_live_order l "gui" live).1 "gui" live
     = ((record_live_order l "gui" live).1, false).
Proof.
  intros live l. split; [by vm_compute|].
  apply (record_live_order_correct l "gui" live); [by apply (bool_decide_unpack _)|].
  by apply (bool_decide_unpack _).
Defined.

(** Reconciling a rebuilt order against the remembered one only permutes it: no row of the
    ledger that is not present appears, the rows the ledger knows come out in the ledger's
    order, and every row it does not know stays behind the known row it followed (or in
    front), in the same relative order. *)
Theorem reconcile_order_correct current remembered :
  NoDup current -> current <> [] -> remembered <> [] ->
  let next := reconcile_order_with_remembered current remembered in
  next ≡ₚ current
  /\ filter (fun r => r ∈ remembered) next = filter (fun r => r ∈ current) (dedup remembered)
  /\ forall anchor, (anchor = None \/ exists k, anchor = Some k /\ k ∈ remembered /\ k ∈ current) ->
       group anchor (attachments (is_remembered remembered) [] None next)
       = group anchor (attachments (is_remembered remembered) [] None current).
Proof.
  intros Hnd Hc Hr next. split_and!; [by apply reconcile_perm|by apply reconcile_known|].
  intros anchor Ha. by apply reconcile_attachments.
Qed.

Lemma reconcile_order_correct_witness :
  let current := ["n"; "c"; "m"; "a"; "b"; "p"]%string in
  let remembered := ["a"; "gone"; "b"; "a"; "c"]%string in
  reconcile_order_with_remembered current remembered = ["n"; "a"; "b"; "p"; "c"; "m"]%string
  /\ reconcile_order_with_remembered current remembered ≡ₚ current.
Proof.
  intros current remembered. split; [by vm_compute|].
  apply (reconcile_order_correct current remembered); [by apply (bool_decide_unpack _)|done|done].
Defined.

(** C4: Restoring after a rebuild puts the rows back where the recording found them: whatever
    order the rebuild produced, and whichever rows it lost or brought in, the rows of the
    recorded order that are present stand in their recorded order afterwards, and no row is
    added or lost.  When the rebuild only scrambled the recorded rows, the order is the
    recorded one exactly. *)
Theorem record_then_restore {S U} `{OrderWriter S U} l scope live (sv : S) :
  NoDup live -> length live <= MAX_ROWS_PER_SCOPE ->
  NoDup (row_order sv) -> addressed sv ->
  let remembered := scope_rows (record_live_order l scope live).1 scope in
  let sv' := (restore_live_row_order sv remembered).1 in
  row_order sv' ≡ₚ row_order sv
  /\ filter (fun r => r ∈ live) (row_order sv') = filter (fun r => r ∈ row_order sv) live
  /\ (row_order sv ≡ₚ live -> row_order sv' = live).
Proof.
  intros Hnd Hlen Hsv Hses remembered sv'. set (current := row_order sv).
  assert (row_order sv' = reconcile_order_with_remembered current remembered) as ->.
  { unfold sv', restore_live_row_order. fold current. case_bool_decide as Hcase; [by rewrite Hcase|].
    apply write_order_exact; [done|by apply reconcile_perm|done]. }
  assert (remembered = next_rows live (scope_rows l scope)) as Hrem by apply record_rows.
  pose proof (next_rows_live live (scope_rows l scope) Hnd Hlen) as Hlive. rewrite <- Hrem in Hlive.
  pose proof (next_rows_NoDup live (scope_rows l scope) Hnd Hlen) as Hnr. rewrite <- Hrem in Hnr.
  pose proof (reconcile_perm current remembered Hsv) as Hperm.
  assert (filter (fun r => r ∈ live) (reconcile_order_with_remembered current remembered)
          = filter (fun r => r ∈ current) live) as Hf.
  { rewrite <- in_order_filter in Hlive. destruct (decide (remembered = [])) as [Hr|Hr].
    { rewrite Hr in Hlive. rewrite <- Hlive. cbn. apply list_filter_none. intros ? _.
      apply not_elem_of_nil. }
    pose proof (reconcile_known current remembered Hsv Hr) as Hk. rewrite (dedup_id remembered) in Hk by done.
    transitivity (filter (fun r => r ∈ current) (filter (fun r => r ∈ live) remembered));
      [|by rewrite Hlive].
    rewrite (filter_comm (fun r => r ∈ current)), <- Hk, list_filter_filter.
    apply list_filter_iff. intros r. split; [|tauto]. intros Hr'. split; [done|].
    rewrite <- Hlive in Hr'. by apply list_elem_of_filter in Hr' as [_ ?]. }
  split_and!; [done|done|]. intros Hcl.
  rewrite list_filter_all in Hf by (intros r; by rewrite Hperm, Hcl). rewrite Hf.
  apply list_filter_all. intros r. by rewrite Hcl.
Qed.

Lemma record_then_restore_witness :
  let row k := (k, mkSession k "" None false None Shell None) in
  let sv := mkServer [row "a"; row "b"; row "c"]%string ["c"; "b"; "a"]%string in
  row_order
    (restore_live_row_order sv (scope_rows (record_live_order ∅ "shared" ["b"; "a"; "c"]%string).1 "shared")).1
  = ["b"; "a"; "c"]%string.
Proof.
  intros row sv. apply (record_then_restore ∅ "shared" ["b"; "a"; "c"]%string sv);
    [by apply (bool_decide_unpack _)..| |].
  - intros key Hkey. cbn in Hkey. rewrite !elem_of_cons in Hkey.
    destruct Hkey as [->|[->|[->|[]%not_elem_of_nil]]]; by eexists.
  - by apply (bool_decide_unpack _).
Defined.

(** A row that comes back is seated by its recorded slot: after recording, the placement of
    a row is directly below the nearest row that preceded it in the recorded order and is still
    live, at the front when none is, for every set of surviving rows. *)
Theorem record_then_place l scope l1 path l2 is_live :
  NoDup (l1 ++ path :: l2) -> length (l1 ++ path :: l2) <= MAX_ROWS_PER_SCOPE ->
  (forall r, is_live r = true -> r ∈ l1 ++ path :: l2) ->
  placement_for (record_live_order l scope (l1 ++ path :: l2)).1 scope path is_live
  = match last (List.filter is_live l1) with Some a => AfterLive a | None => Front end.
Proof.
  intros Hnd Hlen Hl. unfold placement_for. rewrite record_rows.
  set (live := l1 ++ path :: l2) in *.
  destruct (recorded_split live (next_rows live (scope_rows l scope)) l1 path l2) as (u & v & -> & Hu & Hf).
  - by apply next_rows_NoDup.
  - by apply next_rows_live.
  - rewrite placement_in_split by done. rewrite <- Hf, filter_filter_imp; [done|].
    intros r Hr. by apply in_order_true, Hl.
Qed.

Lemma record_then_place_witness :
  placement_for (record_live_order ∅ "gui" ["a"; "b"; "c"; "d"]%string).1 "gui" "c"
    (fun r => bool_decide (r ∈ ["a"; "d"]%string)) = AfterLive "a".
Proof.
  apply (record_then_place ∅ "gui" ["a"; "b"]%string "c" ["d"]%string); [by apply (bool_decide_unpack _)| |].
  - by apply (bool_decide_unpack _).
  - intros r Hr%bool_decide_eq_true. set_solver.
Defined.
