(* ===== verification/Tombstones.v ===== *)
(** The closes and departures of live rows that every daemon of a host shares
    (server/live_row_tombstones.rs), the questions other modules ask of them (server/lib.rs)
    and a daemon's closing and reconciling of its rows (server/daemon.rs).

    The shared file is a value [SharedFile]; a write that fails leaves it as it was.  Each
    read-modify-write is one atomic step, which the exclusive lock gives; the fallback that
    proceeds without the lock after its wait budget is not modelled. *)
From S2P Require Import Prelude RustStr SessionOutline AgentRegistry AgentScheme LiveOrder.
#[local] Open Scope N_scope.

Definition TOMBSTONE_TTL_SECS : N := 3 * 24 * 60 * 60.
Definition TOMBSTONE_RENEWAL_AGE_SECS : N := TOMBSTONE_TTL_SECS / 2.
Definition MAX_TOMBSTONES : nat := 512.
Definition MAX_DEPARTURES : nat := 2048.

(** [EnteredLiveRows::since]: [live] minus [seen], sorted. *)
Definition entered_since (seen live : gset string) : list string :=
  stable_sort String.leb (elements (live ∖ seen)).

Inductive RowDeparture : Type := ExplicitClose | GuiCloseDisposable | PersistDropped | PeerSessionGone.

#[export] Instance RowDeparture_eq_dec : EqDecision RowDeparture.
Proof. solve_decision. Defined.

Definition departure_label (r : RowDeparture) : string :=
  match r with
  | ExplicitClose => "explicit-close"
  | GuiCloseDisposable => "gui-close-disposable"
  | PersistDropped => "persist-dropped"
  | PeerSessionGone => "peer-session-gone"
  end.

Record LiveRowDeparture : Type := mkDeparture {
  dep_identity : string;
  dep_path : string;
  dep_title : string;
  dep_reason : RowDeparture;
  dep_at : N;
  dep_detail : option string;
  dep_kind : option string;
  dep_cwd : option string
}.

Record LiveRowTombstones : Type := mkTombstones {
  entries : gmap string N;
  departures : list LiveRowDeparture
}.

Definition no_tombstones : LiveRowTombstones := mkTombstones ∅ [].

Record ClosedRowIdentity : Type := mkClosedRow {
  closed_kind : option SessionKind;
  closed_cwd : option string;
  closed_title : option string
}.

(** ** The in-memory primitives *)

Definition expired (recorded now : N) : bool := (TOMBSTONE_TTL_SECS <=? now - recorded).

(** The order of the pairs [(u64, String)]. *)
Definition entry_leb (a b : N * string) : bool :=
  (a.1 <? b.1) || ((a.1 =? b.1) && String.leb a.2 b.2).

Definition oldest_first (m : gmap string N) : list (N * string) :=
  stable_sort entry_leb (map (fun kv => (kv.2, kv.1)) (map_to_list m)).

Definition evict_over_cap (t : LiveRowTombstones) : LiveRowTombstones * bool :=
  if (size (entries t) <=? MAX_TOMBSTONES)%nat then (t, false)
  else
    let excess := (size (entries t) - MAX_TOMBSTONES)%nat in
    (mkTombstones (foldl (fun m x => delete x.2 m) (entries t) (take excess (oldest_first (entries t))))
       (departures t), true).

(** [now = 0] only caps. *)
Definition gc_departures (t : LiveRowTombstones) (now : N) : LiveRowTombstones * bool :=
  let kept := if now =? 0 then departures t
              else List.filter (fun d => negb (expired (dep_at d) now)) (departures t) in
  let kept := if (MAX_DEPARTURES <? length kept)%nat
              then drop (length kept - MAX_DEPARTURES) (stable_sort (fun x y => dep_at x <=? dep_at y) kept)
              else kept in
  (mkTombstones (entries t) kept, negb (length kept =? length (departures t))%nat).

Definition push_departure (t : LiveRowTombstones) (d : LiveRowDeparture) : LiveRowTombstones :=
  fst (gc_departures (mkTombstones (entries t) (departures t ++ [d])) 0).

Definition gc (t : LiveRowTombstones) (now : N) : LiveRowTombstones * bool :=
  let kept := filter (fun kv => expired kv.2 now = false) (entries t) in
  let changed := negb (size kept =? size (entries t))%nat in
  let '(t, evicted) := evict_over_cap (mkTombstones kept (departures t)) in
  let '(t, departed) := gc_departures t now in
  (t, changed || evicted || departed).

Definition record (t : LiveRowTombstones) (identity : string) (now : N) : LiveRowTombstones * bool :=
  match entries t !! identity with
  | Some _ => (t, false)
  | None => (fst (evict_over_cap (mkTombstones (<[identity := now]> (entries t)) (departures t))), true)
  end.

Definition clear (t : LiveRowTombstones) (identity : string) : LiveRowTombstones :=
  mkTombstones (delete identity (entries t)) (departures t).

Definition blocks (t : LiveRowTombstones) (identity : string) (now : N) : bool :=
  match entries t !! identity with Some recorded => negb (expired recorded now) | None => false end.

(** The mutation of [touch_close]. *)
Definition touch (t : LiveRowTombstones) (identity : string) (now : N) : LiveRowTombstones :=
  match entries t !! identity with
  | None => t
  | Some recorded =>
    if expired recorded now then mkTombstones (delete identity (entries t)) (departures t)
    else if TOMBSTONE_RENEWAL_AGE_SECS <=? now - recorded
    then mkTombstones (<[identity := now]> (entries t)) (departures t)
    else t
  end.

(** [departures()]: newest first. *)
Definition newest_departures (t : LiveRowTombstones) : list LiveRowDeparture :=
  stable_sort (fun x y => dep_at y <=? dep_at x) (departures t).

(** ** The shared file *)

Inductive SharedFile : Type := Missing | Unreadable | Holds (t : LiveRowTombstones).

Definition read_shared (f : SharedFile) : LiveRowTombstones :=
  match f with Holds t => t | Missing | Unreadable => no_tombstones end.

Definition load (f : SharedFile) (now : N) : LiveRowTombstones := fst (gc (read_shared f) now).

(** The file, the cache and what the call answers; [save_ok] says whether the write lands. *)
Definition mutate_shared (save_ok : bool) (f : SharedFile) (cache : LiveRowTombstones)
    (mutate : LiveRowTombstones -> LiveRowTombstones)
    : SharedFile * LiveRowTombstones * result bool unit :=
  let before := read_shared f in
  let shared := mutate before in
  let changed := negb (bool_decide (entries shared = entries before))
                 || negb (length (departures shared) =? length (departures before))%nat in
  if changed
  then if save_ok then (Holds shared, shared, Ok true) else (f, cache, Err tt)
  else (f, shared, Ok false).

Definition record_close save_ok f cache identity now :=
  mutate_shared save_ok f cache (fun t => fst (record t identity now)).

Definition close_recorded_within (f : SharedFile) (identity : string) (window_secs now : N) : bool :=
  match entries (load f now) !! identity with
  | Some recorded => now - recorded <=? window_secs
  | None => false
  end.

Definition touch_close save_ok f cache identity now :=
  mutate_shared save_ok f cache (fun t => touch t identity now).

Definition record_departure save_ok f cache d :=
  mutate_shared save_ok f cache (fun t => push_departure t d).

Definition reconcile save_ok f cache now (entered : list string) :=
  mutate_shared save_ok f cache (fun t => foldl clear (fst (gc t now)) entered).

(** ** Asking from outside *)

Definition live_row_closes_remembered_among (f : SharedFile) (now : N) (session_paths : list string)
    : list string :=
  let tombstones := load f now in
  List.filter (fun path => blocks tombstones (normalized_live_row_identity path) now) session_paths.

Definition live_row_close_is_remembered (f : SharedFile) (now : N) (session_path : string) : bool :=
  negb (bool_decide (live_row_closes_remembered_among f now [session_path] = [])).

Definition live_row_close_is_fresh (f : SharedFile) (now : N) (session_path : string) (window_secs : N)
    : bool := close_recorded_within f (normalized_live_row_identity session_path) window_secs now.

(** Each path with whether its write lands. *)
Definition rearm_live_row_closes_among (f : SharedFile) (now : N) (session_paths : list (string * bool))
    : SharedFile :=
  fst (foldl (fun '(f, tombstones) '(path, save_ok) =>
                fst (touch_close save_ok f tombstones (normalized_live_row_identity path) now))
         (f, load f now) session_paths).

(** ** A daemon's rows *)

Section daemon.
(** [serde_json::to_string] and [from_str] of a session kind. *)
Context (kind_to_json : SessionKind -> option string) (kind_from_json : string -> option SessionKind).

Definition closed_row_identity (t : LiveRowTombstones) (identity : string) : option ClosedRowIdentity :=
  d ← List.find (fun d => String.eqb (dep_identity d) identity
                          && bool_decide (dep_reason d = ExplicitClose)) (rev (departures t));
  Some (mkClosedRow (dep_kind d ≫= kind_from_json) (dep_cwd d)
          (if str_is_empty (trim (dep_title d)) then None else Some (dep_title d))).

Definition live_row_closed_identity (f : SharedFile) (now : N) (path : string)
    : option ClosedRowIdentity := closed_row_identity (load f now) (normalized_live_row_identity path).

Record Daemon : Type := mkDaemon {
  server : Server;
  live_row_tombstones : LiveRowTombstones;
  live_row_identities_seen : gset string
}.

(** The departure written for a row: title, kind and cwd are those of its session, if it
    resolves. *)
Definition departure_of (sv : Server) (key : string) (r : RowDeparture) (now : N) : LiveRowDeparture :=
  let s := resolve_live_session_key sv key ≫= get_session sv in
  mkDeparture (normalized_live_row_identity key) key
    (match s with Some s => title s | None => "" end) r now None
    (s ≫= fun s => kind_to_json (kind_of s)) (s ≫= cwd).

Definition record_row_departure (save_ok : bool) (f : SharedFile) (d : Daemon) (path : string)
    (r : RowDeparture) (now : N) : SharedFile * Daemon :=
  match live_session_row_key (server d) path with
  | None => (f, d)
  | Some key =>
    let '(f, cache, _) := record_departure save_ok f (live_row_tombstones d)
                            (departure_of (server d) key r now) in
    (f, mkDaemon (server d) cache (live_row_identities_seen d))
  end.

(** The close: its departure, its identity out of the rows seen, its tombstone. *)
Definition tombstone_live_row_as (departure_ok close_ok : bool) (f : SharedFile) (d : Daemon)
    (path : string) (r : RowDeparture) (now : N) : SharedFile * Daemon :=
  let '(f, d) := record_row_departure departure_ok f d path r now in
  match live_session_row_key (server d) path with
  | None => (f, d)
  | Some key =>
    let identity := normalized_live_row_identity key in
    let '(f, cache, _) := record_close close_ok f (live_row_tombstones d) identity now in
    (f, mkDaemon (server d) cache (live_row_identities_seen d ∖ {[identity]}))
  end.

Definition live_row_identity_set (d : Daemon) : gset string :=
  list_to_set (map normalized_live_row_identity (live_session_order (server d))).

Definition reconcile_live_row_tombstones (save_ok : bool) (f : SharedFile) (d : Daemon) (now : N)
    : SharedFile * Daemon :=
  let live := live_row_identity_set d in
  let entered := entered_since (live_row_identities_seen d) live in
  let '(f, cache, _) := reconcile save_ok f (live_row_tombstones d) now entered in
  (f, mkDaemon (server d) cache live).

(** [refresh], before the import passes. *)
Definition refresh (f : SharedFile) (d : Daemon) (now : N) : Daemon :=
  mkDaemon (server d) (load f now) (live_row_identities_seen d).
End daemon.

(** * Lemmas *)

(** ** The order of eviction *)

Lemma entry_leb_spec a b :
  entry_leb a b = true <-> a.1 < b.1 \/ (a.1 = b.1 /\ String.leb a.2 b.2 = true).
Proof.
  unfold entry_leb. rewrite orb_true_iff, andb_true_iff, N.ltb_lt, N.eqb_eq. done.
Qed.

#[export] Instance entry_leb_order : BoolOrder entry_leb.
Proof.
  split.
  - intros a b. rewrite !entry_leb_spec. destruct (N.lt_trichotomy a.1 b.1) as [?|[?|?]]; [by left; left| |by right; left].
    destruct (bool_order_total a.2 b.2) as [?|?]; [left|right]; right; done.
  - intros a b c. rewrite !entry_leb_spec. intros [?|[? ?]] [?|[? ?]]; [left; lia..|right].
    split; [lia|]. by eapply bool_order_trans.
Qed.

Lemma ordered_app_cross {A} (leb : A -> A -> bool) l1 l2 x y :
  ordered leb (l1 ++ l2) -> x ∈ l1 -> y ∈ l2 -> leb x y = true.
Proof.
  induction l1 as [|z l1 IH]; intros Hs Hx Hy; [by apply elem_of_nil in Hx|].
  apply StronglySorted_inv in Hs as [Hs Hall]. apply elem_of_cons in Hx as [->|Hx]; [|by apply IH].
  rewrite Forall_forall in Hall. apply Hall. set_solver.
Qed.

Lemma elem_of_oldest_first m x : x ∈ oldest_first m <-> m !! x.2 = Some x.1.
Proof.
  unfold oldest_first. rewrite elem_of_stable_sort, list_elem_of_fmap. split.
  - intros ([k v] & -> & Hin). by apply elem_of_map_to_list in Hin.
  - intros Hx. exists (x.2, x.1). split; [by destruct x|]. by apply elem_of_map_to_list.
Qed.

Lemma oldest_first_keys m : NoDup (map snd (oldest_first m)).
Proof.
  assert (map snd (oldest_first m) ≡ₚ map fst (map_to_list m)) as ->; [|apply NoDup_fst_map_to_list].
  unfold oldest_first. rewrite stable_sort_perm, map_map. done.
Qed.

Lemma length_oldest_first m : length (oldest_first m) = size m.
Proof. unfold oldest_first. by rewrite length_stable_sort, length_map, length_map_to_list. Qed.

Lemma lookup_foldl_delete (l : list (N * string)) (m : gmap string N) k :
  foldl (fun m x => delete x.2 m) m l !! k = if decide (k ∈ map snd l) then None else m !! k.
Proof.
  revert m. induction l as [|x l IH]; intros m; [done|]. cbn [foldl map]. rewrite IH, lookup_delete.
  destruct (decide (k ∈ map snd l)), (decide (x.2 = k)), (decide (k ∈ x.2 :: map snd l)) as [|Hn];
    try done; try (exfalso; apply Hn; set_solver); set_solver.
Qed.

Lemma size_foldl_delete (l : list (N * string)) (m : gmap string N) :
  NoDup (map snd l) -> (forall x, x ∈ l -> is_Some (m !! x.2)) ->
  (size (foldl (fun m x => delete x.2 m) m l) = size m - length l)%nat.
Proof.
  revert m. induction l as [|x l IH]; intros m Hnd Hin; cbn [foldl length]; [lia|].
  cbn [map] in Hnd. apply NoDup_cons in Hnd as [Hx Hnd]. rewrite IH; [|done|].
  - rewrite map_size_delete_Some by (apply Hin; left). lia.
  - intros y Hy. rewrite lookup_delete, decide_False; [apply Hin; by right|].
    intros Heq. apply Hx. rewrite Heq. by apply list_elem_of_fmap_2.
Qed.

(** Eviction keeps the newest closes, as many as the cap allows. *)
Lemma evict_spec t :
  let t' := fst (evict_over_cap t) in
  departures t' = departures t
  /\ size (entries t') = Nat.min (size (entries t)) MAX_TOMBSTONES
  /\ (forall id r, entries t' !! id = Some r -> entries t !! id = Some r)
  /\ (forall id r id' r', entries t' !! id = Some r -> entries t !! id' = Some r' ->
        entries t' !! id' = None -> entry_leb (r', id') (r, id) = true).
Proof.
  unfold evict_over_cap. destruct (Nat.leb_spec (size (entries t)) MAX_TOMBSTONES) as [Hle|Hgt]; cbn zeta; cbn [fst].
  { split_and!; [done|lia|done|]. intros; congruence. }
  set (n := (size (entries t) - MAX_TOMBSTONES)%nat). set (l := oldest_first (entries t)).
  cbn [entries departures]. split_and!; [done| | |].
  - rewrite size_foldl_delete.
    + rewrite length_take. unfold l at 1. rewrite length_oldest_first. lia.
    + rewrite <- firstn_map. eapply sublist_NoDup; [apply oldest_first_keys|apply sublist_take].
    + intros x Hx. apply elem_of_take in Hx as (i & Hi & _). apply list_elem_of_lookup_2 in Hi.
      apply elem_of_oldest_first in Hi. by eexists.
  - intros id r. rewrite lookup_foldl_delete. by case_decide.
  - intros id r id' r'. rewrite !lookup_foldl_delete. destruct (decide (id ∈ map snd (take n l))) as [|Hk]; [done|].
    intros Hid Hid'. destruct (decide (id' ∈ map snd (take n l))) as [Hd|]; [|congruence]. intros _.
    apply list_elem_of_fmap in Hd as ([r0 id0] & -> & Hd). cbn [snd] in *.
    assert (r0 = r') as ->.
    { apply elem_of_take in Hd as (i & Hi & _). apply list_elem_of_lookup_2 in Hi.
      apply elem_of_oldest_first in Hi. cbn in Hi. congruence. }
    apply (ordered_app_cross entry_leb (take n l) (drop n l)); [|done|].
    + rewrite take_drop. apply stable_sort_sorted, _.
    + assert ((r, id) ∈ take n l ++ drop n l) as Hin by (rewrite take_drop; by apply elem_of_oldest_first).
      apply elem_of_app in Hin as [Hin|]; [|done]. exfalso. apply Hk.
      change id with (snd (r, id)). by apply list_elem_of_fmap_2.
Qed.

Lemma evict_id t : (size (entries t) <= MAX_TOMBSTONES)%nat -> fst (evict_over_cap t) = t.
Proof. intros H. unfold evict_over_cap. by rewrite (proj2 (Nat.leb_le _ _) H). Qed.

(** ** One entry through each operation *)

Definition capped (t : LiveRowTombstones) : Prop :=
  (size (entries t) <= MAX_TOMBSTONES)%nat /\ (length (departures t) <= MAX_DEPARTURES)%nat.

(** The close of [id] is held, from [r] or a later re-arming. *)
Definition held (id : string) (r : N) (t : LiveRowTombstones) : Prop :=
  exists r', entries t !! id = Some r' /\ r <= r'.

Lemma expired_false r now : expired r now = false <-> now - r < TOMBSTONE_TTL_SECS.
Proof. unfold expired. apply N.leb_gt. Qed.

Lemma expired_mono r r' now : r <= r' -> now - r < TOMBSTONE_TTL_SECS -> expired r' now = false.
Proof. intros. apply expired_false. lia. Qed.

Lemma gc_departures_entries t now : entries (fst (gc_departures t now)) = entries t.
Proof. done. Qed.

Lemma gc_departures_bounded t now :
  (length (departures (fst (gc_departures t now))) <= MAX_DEPARTURES)%nat.
Proof.
  unfold gc_departures. cbn zeta; cbn [fst departures]. destruct (Nat.ltb_spec MAX_DEPARTURES
    (length (if now =? 0 then departures t
             else List.filter (fun d => negb (expired (dep_at d) now)) (departures t)))) as [Hlt|Hle]; [|done].
  rewrite length_drop, length_stable_sort. lia.
Qed.

Lemma gc_eq t now :
  fst (gc t now) = fst (gc_departures
    (fst (evict_over_cap (mkTombstones (filter (fun kv => expired kv.2 now = false) (entries t)) (departures t)))) now).
Proof. unfold gc. cbn zeta. destruct (evict_over_cap _) as [t1 b]. cbn [fst]. by destruct (gc_departures t1 now). Qed.

Lemma gc_entries t now :
  (size (entries t) <= MAX_TOMBSTONES)%nat ->
  entries (fst (gc t now)) = filter (fun kv => expired kv.2 now = false) (entries t).
Proof.
  intros Hs. rewrite gc_eq, gc_departures_entries, evict_id; [done|]. cbn [entries].
  etrans; [apply map_size_filter|done].
Qed.

Lemma gc_lookup t now id r :
  entries (fst (gc t now)) !! id = Some r -> entries t !! id = Some r /\ expired r now = false.
Proof.
  rewrite gc_eq, gc_departures_entries. intros Hg. apply evict_spec in Hg. cbn [entries] in Hg.
  by apply map_lookup_filter_Some in Hg as [? ?].
Qed.

Lemma gc_capped t now : capped (fst (gc t now)).
Proof.
  split; [|rewrite gc_eq; apply gc_departures_bounded].
  rewrite gc_eq, gc_departures_entries. destruct (evict_spec (mkTombstones
    (filter (fun kv => expired kv.2 now = false) (entries t)) (departures t))) as (_ & -> & _). lia.
Qed.

Lemma gc_held t now id r :
  (size (entries t) <= MAX_TOMBSTONES)%nat -> now - r < TOMBSTONE_TTL_SECS ->
  held id r t -> held id r (fst (gc t now)).
Proof.
  intros Hs Hr (r' & Hid & Hle). exists r'. split; [|done]. rewrite gc_entries by done.
  apply map_lookup_filter_Some. split; [done|]. by eapply expired_mono.
Qed.

Lemma clears_lookup t ids id :
  id ∉ ids -> entries (foldl clear t ids) !! id = entries t !! id.
Proof.
  revert t. induction ids as [|i ids IH]; intros t Hn; [done|]. cbn [foldl].
  rewrite IH by set_solver. cbn [clear entries]. rewrite lookup_delete_ne by set_solver. done.
Qed.

Lemma clears_capped t ids : capped t -> capped (foldl clear t ids).
Proof.
  revert t. induction ids as [|i ids IH]; intros t [H1 H2]; [done|]. cbn [foldl]. apply IH.
  split; [|done]. cbn [clear entries]. rewrite map_size_delete. destruct (entries t !! i); unfold id; lia.
Qed.

Lemma record_capped t id now : capped t -> capped (fst (record t id now)).
Proof.
  intros [H1 H2]. unfold record. destruct (entries t !! id); cbn [fst]; [done|].
  destruct (evict_spec (mkTombstones (<[id:=now]> (entries t)) (departures t))) as (Hd & Hs & _).
  split; [rewrite Hs; lia|by rewrite Hd].
Qed.

Lemma record_room t id now :
  (size (entries t) < MAX_TOMBSTONES)%nat ->
  entries (fst (record t id now))
  = match entries t !! id with Some _ => entries t | None => <[id := now]> (entries t) end
  /\ departures (fst (record t id now)) = departures t.
Proof.
  intros Hs. unfold record. destruct (entries t !! id) eqn:Hid; cbn [fst]; [done|].
  rewrite evict_id; [done|]. cbn [entries]. rewrite map_size_insert_None by done. lia.
Qed.

Lemma record_held t i now id r :
  (size (entries t) < MAX_TOMBSTONES)%nat -> held id r t -> held id r (fst (record t i now)).
Proof.
  intros Hs (r' & Hid & Hle). exists r'. split; [|done]. rewrite (proj1 (record_room t i now Hs)).
  destruct (entries t !! i) eqn:Hi; [done|]. rewrite lookup_insert_ne; [done|]. congruence.
Qed.

Lemma touch_capped t i now : capped t -> capped (touch t i now).
Proof.
  intros [H1 H2]. unfold touch. destruct (entries t !! i) as [r|] eqn:Hi; [|done].
  destruct (expired r now); [|destruct (TOMBSTONE_RENEWAL_AGE_SECS <=? now - r); [|done]];
    (split; [|done]); cbn [entries].
  - rewrite map_size_delete, Hi. lia.
  - rewrite map_size_insert_Some by done. done.
Qed.

Lemma touch_held t i now id r :
  now - r < TOMBSTONE_TTL_SECS -> held id r t -> held id r (touch t i now).
Proof.
  intros Hr (r' & Hid & Hle). unfold touch. destruct (entries t !! i) as [ri|] eqn:Hi; [|by exists r'].
  destruct (decide (i = id)) as [->|Hne].
  - assert (ri = r') as -> by congruence. rewrite (expired_mono r r') by done.
    destruct (N.leb_spec TOMBSTONE_RENEWAL_AGE_SECS (now - r')) as [Hren|]; [|by exists r'].
    exists now. cbn [entries]. rewrite lookup_insert_eq. split; [done|].
    unfold TOMBSTONE_RENEWAL_AGE_SECS in *. change (TOMBSTONE_TTL_SECS / 2) with 129600 in *. lia.
  - exists r'. split; [|done].
    destruct (expired ri now); [|destruct (TOMBSTONE_RENEWAL_AGE_SECS <=? now - ri); [|done]];
      cbn [entries]; [by rewrite lookup_delete_ne|by rewrite lookup_insert_ne].
Qed.

Lemma push_departure_entries t d : entries (push_departure t d) = entries t.
Proof. done. Qed.

Lemma push_capped t d : capped t -> capped (push_departure t d).
Proof. intros [H1 _]. split; [done|]. apply gc_departures_bounded. Qed.

(** ** The shared file *)

(** What a mutation preserves, the file keeps, whether or not the write happens. *)
Lemma mutate_shared_keeps (P : LiveRowTombstones -> Prop) ok f c m :
  P (read_shared f) -> (P (read_shared f) -> P (m (read_shared f))) ->
  P (read_shared (mutate_shared ok f c m).1.1).
Proof. intros Hf Hm. unfold mutate_shared. cbv zeta. destruct (_ || _), ok; cbn; auto. Qed.

Lemma rearm_keeps_among (P : LiveRowTombstones -> Prop) now f paths :
  P (read_shared f) ->
  (forall t path, path ∈ paths.*1 -> P t -> P (touch t (normalized_live_row_identity path) now)) ->
  P (read_shared (rearm_live_row_closes_among f now paths)).
Proof.
  intros Hf Hm. unfold rearm_live_row_closes_among. generalize (load f now) as c. revert f Hf.
  induction paths as [|[p ok] paths IH]; intros f Hf c; [done|]. cbn [foldl].
  destruct (touch_close ok f c (normalized_live_row_identity p) now) as [[f' c'] res] eqn:Ht. cbn [fst].
  apply IH; [intros t path Hp; apply Hm; cbn; by right|].
  pose proof (mutate_shared_keeps P ok f c (fun t => touch t (normalized_live_row_identity p) now)) as H.
  unfold touch_close in Ht. rewrite Ht in H. apply H; [done|]. intros Hp. apply Hm; [cbn; left|done].
Qed.

Lemma rearm_keeps (P : LiveRowTombstones -> Prop) now f paths :
  P (read_shared f) -> (forall t i, P t -> P (touch t i now)) ->
  P (read_shared (rearm_live_row_closes_among f now paths)).
Proof. intros Hf Hm. apply rearm_keeps_among; auto. Qed.

Lemma load_blocks f id r now :
  (size (entries (read_shared f)) <= MAX_TOMBSTONES)%nat -> held id r (read_shared f) ->
  now - r < TOMBSTONE_TTL_SECS -> blocks (load f now) id now = true.
Proof.
  intros Hs Hh Hr. destruct (gc_held _ now _ _ Hs Hr Hh) as (r' & Hid & Hle). unfold blocks, load.
  rewrite Hid. by rewrite (expired_mono r r').
Qed.

Lemma remembered_blocks f now path :
  live_row_close_is_remembered f now path = blocks (load f now) (normalized_live_row_identity path) now.
Proof.
  unfold live_row_close_is_remembered, live_row_closes_remembered_among. cbn.
  by destruct (blocks _ _ _).
Qed.

Lemma elem_of_entered_since seen live id : id ∈ entered_since seen live <-> id ∈ live /\ id ∉ seen.
Proof. unfold entered_since. by rewrite elem_of_stable_sort, elem_of_elements, elem_of_difference. Qed.

(** ** Many daemons and one file *)

Record World : Type := mkWorld { file : SharedFile; daemons : gmap nat Daemon }.

Inductive act : Type :=
| ActClose (d : nat) (path : string) (r : RowDeparture) (departure_ok close_ok : bool)
| ActDepart (d : nat) (path : string) (r : RowDeparture) (ok : bool)
| ActReconcile (d : nat) (ok : bool)
| ActRearm (paths : list (string * bool))
| ActRefresh (d : nat)
| ActRows (d : nat) (sv : Server).

Section world.
Context (kind_to_json : SessionKind -> option string).

Definition on_daemon (w : World) (d : nat) (f : Daemon -> SharedFile * Daemon) : World :=
  match daemons w !! d with
  | None => w
  | Some dm => let '(file', dm') := f dm in mkWorld file' (<[d := dm']> (daemons w))
  end.

(** One step of one daemon at the time its clock reads; [ActRows] is any change of its rows. *)
Definition perform (now : N) (a : act) (w : World) : World :=
  match a with
  | ActClose d path r departure_ok close_ok =>
    on_daemon w d (fun dm => tombstone_live_row_as kind_to_json departure_ok close_ok (file w) dm path r now)
  | ActDepart d path r ok =>
    on_daemon w d (fun dm => record_row_departure kind_to_json ok (file w) dm path r now)
  | ActReconcile d ok => on_daemon w d (fun dm => reconcile_live_row_tombstones ok (file w) dm now)
  | ActRearm paths => mkWorld (rearm_live_row_closes_among (file w) now paths) (daemons w)
  | ActRefresh d => on_daemon w d (fun dm => (file w, refresh (file w) dm now))
  | ActRows d sv =>
    on_daemon w d (fun dm => (file w, mkDaemon sv (live_row_tombstones dm) (live_row_identities_seen dm)))
  end.

Fixpoint perform_all (acts : list (N * act)) (w : World) : World :=
  match acts with
  | [] => w
  | (now, a) :: acts' => perform_all acts' (perform now a w)
  end.

(** The row [id] re-enters nowhere: a daemon that reconciles either does not show it or showed
    it at its last reconcile. *)
Definition does_not_enter (id : string) (a : act) (w : World) : Prop :=
  match a with
  | ActReconcile d _ =>
    forall dm, daemons w !! d = Some dm -> id ∈ live_row_identity_set dm -> id ∈ live_row_identities_seen dm
  | _ => True
  end.

(** A close takes one more slot. *)
Definition has_room (a : act) (w : World) : Prop :=
  match a with
  | ActClose _ _ _ _ _ => (size (entries (read_shared (file w))) < MAX_TOMBSTONES)%nat
  | _ => True
  end.

Fixpoint undisturbed (id : string) (r : N) (acts : list (N * act)) (w : World) : Prop :=
  match acts with
  | [] => True
  | (now, a) :: acts' =>
    now - r < TOMBSTONE_TTL_SECS /\ does_not_enter id a w /\ has_room a w
    /\ undisturbed id r acts' (perform now a w)
  end.

Lemma record_row_departure_keeps (P : LiveRowTombstones -> Prop) ok f d path r now :
  P (read_shared f) -> (forall t x, P t -> P (push_departure t x)) ->
  P (read_shared (record_row_departure kind_to_json ok f d path r now).1).
Proof.
  intros Hf Hp. unfold record_row_departure. destruct (live_session_row_key _ _) as [key|]; [|done].
  pose proof (mutate_shared_keeps P ok f (live_row_tombstones d)
    (fun t => push_departure t (departure_of kind_to_json (server d) key r now))) as H.
  unfold record_departure. destruct (mutate_shared _ _ _ _) as [[f' c'] res]. cbn in *. auto.
Qed.

Lemma tombstone_keeps (P : LiveRowTombstones -> Prop) ok1 ok2 f d path r now :
  P (read_shared f) -> (forall t x, P t -> P (push_departure t x)) ->
  (forall t i, P t -> entries t = entries (read_shared f) -> P (fst (record t i now))) ->
  P (read_shared (tombstone_live_row_as kind_to_json ok1 ok2 f d path r now).1).
Proof.
  intros Hf Hp Hr. unfold tombstone_live_row_as.
  pose proof (record_row_departure_keeps
    (fun t => P t /\ entries t = entries (read_shared f)) ok1 f d path r now) as H.
  destruct (record_row_departure _ _ _ _ _ _ _) as [f1 d1]. cbn [fst] in H.
  destruct H as [H1 H2]; [done|intros t x [? ?]; by auto|].
  destruct (live_session_row_key _ _) as [key|]; [|done]. cbv zeta.
  pose proof (mutate_shared_keeps P ok2 f1 (live_row_tombstones d1)
    (fun t => fst (record t (normalized_live_row_identity key) now))) as H.
  unfold record_close. destruct (mutate_shared _ _ _ _) as [[f2 c2] res]. cbn in *. auto.
Qed.

Lemma on_daemon_file (P : SharedFile -> Prop) w d f :
  P (file w) -> (forall dm, daemons w !! d = Some dm -> P (f dm).1) -> P (file (on_daemon w d f)).
Proof.
  intros Hw Hf. unfold on_daemon. destruct (daemons w !! d) as [dm|] eqn:Hd; [|done].
  specialize (Hf dm eq_refl). by destruct (f dm) as [f' dm'].
Qed.

Lemma reconcile_keeps (P : LiveRowTombstones -> Prop) ok f d now :
  P (read_shared f) ->
  P (foldl clear (fst (gc (read_shared f) now))
       (entered_since (live_row_identities_seen d) (live_row_identity_set d))) ->
  P (read_shared (reconcile_live_row_tombstones ok f d now).1).
Proof.
  intros Hf Hm. unfold reconcile_live_row_tombstones. cbv zeta.
  pose proof (mutate_shared_keeps P ok f (live_row_tombstones d)
    (fun t => foldl clear (fst (gc t now))
       (entered_since (live_row_identities_seen d) (live_row_identity_set d)))) as H.
  unfold reconcile. destruct (mutate_shared _ _ _ _) as [[f2 c2] res]. cbn in *. auto.
Qed.

Lemma perform_capped now a w :
  capped (read_shared (file w)) -> capped (read_shared (file (perform now a w))).
Proof.
  intros Hc. destruct a; cbn [perform].
  - apply (on_daemon_file (fun f => capped (read_shared f))); [done|]. intros dm _.
    apply tombstone_keeps; [done|apply push_capped|]. intros t i Ht _. by apply record_capped.
  - apply (on_daemon_file (fun f => capped (read_shared f))); [done|]. intros dm _.
    apply record_row_departure_keeps; [done|apply push_capped].
  - apply (on_daemon_file (fun f => capped (read_shared f))); [done|]. intros dm _.
    apply reconcile_keeps; [done|]. apply clears_capped, gc_capped.
  - cbn [file]. apply rearm_keeps; [done|]. intros t i. apply touch_capped.
  - by apply (on_daemon_file (fun f => capped (read_shared f))).
  - by apply (on_daemon_file (fun f => capped (read_shared f))).
Qed.

Lemma perform_held id r now a w :
  (size (entries (read_shared (file w))) <= MAX_TOMBSTONES)%nat ->
  held id r (read_shared (file w)) ->
  now - r < TOMBSTONE_TTL_SECS -> does_not_enter id a w -> has_room a w ->
  held id r (read_shared (file (perform now a w))).
Proof.
  intros Hs Hh Hr Hd Hroom. destruct a; cbn [perform does_not_enter has_room] in *.
  - apply (on_daemon_file (fun f => held id r (read_shared f))); [done|]. intros dm _.
    apply tombstone_keeps; [done|by intros t x|]. intros t i Ht He. apply record_held; [by rewrite He|done].
  - apply (on_daemon_file (fun f => held id r (read_shared f))); [done|]. intros dm _.
    apply record_row_departure_keeps; [done|by intros t x].
  - apply (on_daemon_file (fun f => held id r (read_shared f))); [done|]. intros dm Hdm.
    apply reconcile_keeps; [done|]. destruct (gc_held _ now _ _ Hs Hr Hh) as (r' & Hid & Hle).
    exists r'. split; [|done]. rewrite clears_lookup; [done|].
    rewrite elem_of_entered_since. intros [Hl Hn]. by apply Hn, (Hd dm).
  - cbn [file]. apply rearm_keeps; [done|]. intros t i. by apply touch_held.
  - by apply (on_daemon_file (fun f => held id r (read_shared f))).
  - by apply (on_daemon_file (fun f => held id r (read_shared f))).
Qed.

Lemma perform_all_held id r acts w :
  capped (read_shared (file w)) -> held id r (read_shared (file w)) -> undisturbed id r acts w ->
  capped (read_shared (file (perform_all acts w))) /\ held id r (read_shared (file (perform_all acts w))).
Proof.
  revert w. induction acts as [|[now a] acts IH]; intros w Hc Hh; [done|]. cbn [undisturbed perform_all].
  intros (Hr & Hd & Hroom & Hu). apply IH; [by apply perform_capped| |done].
  apply perform_held; [apply Hc|done..].
Qed.
End world.

(** ** Outcomes of the writes *)

Lemma push_room t d :
  (length (departures t) < MAX_DEPARTURES)%nat ->
  push_departure t d = mkTombstones (entries t) (departures t ++ [d]).
Proof.
  intros H. unfold push_departure, gc_departures. cbn zeta. cbn [N.eqb departures entries fst].
  destruct (Nat.ltb_spec MAX_DEPARTURES (length (departures t ++ [d]))) as [Hlt|]; [|done].
  rewrite length_app in Hlt. cbn in Hlt. lia.
Qed.

Lemma push_full_length t d :
  length (departures t) = MAX_DEPARTURES -> length (departures (push_departure t d)) = MAX_DEPARTURES.
Proof.
  intros H. unfold push_departure, gc_departures. cbn zeta. cbn [N.eqb departures entries fst].
  destruct (Nat.ltb_spec MAX_DEPARTURES (length (departures t ++ [d]))) as [Hlt|Hle];
    rewrite length_app in *; cbn [length] in *; [|lia].
  rewrite length_drop, length_stable_sort, length_app. cbn [length]. lia.
Qed.

Lemma record_departure_room f c d :
  (length (departures (read_shared f)) < MAX_DEPARTURES)%nat ->
  let t := mkTombstones (entries (read_shared f)) (departures (read_shared f) ++ [d]) in
  record_departure true f c d = (Holds t, t, Ok true).
Proof.
  intros H t. unfold record_departure, mutate_shared. cbv zeta. rewrite push_room by done. cbn [departures entries].
  rewrite length_app, (proj2 (Nat.eqb_neq _ _)) by (cbn; lia). by rewrite orb_true_r.
Qed.

Lemma record_departure_full ok f c d :
  length (departures (read_shared f)) = MAX_DEPARTURES ->
  (record_departure ok f c d).1.1 = f /\ (record_departure ok f c d).2 = Ok false.
Proof.
  intros H. unfold record_departure, mutate_shared. cbv zeta.
  rewrite push_departure_entries, push_full_length by done. rewrite H, Nat.eqb_refl.
  by rewrite bool_decide_eq_true_2.
Qed.

Lemma record_close_room f c id now :
  (size (entries (read_shared f)) < MAX_TOMBSTONES)%nat ->
  let t := read_shared (record_close true f c id now).1.1 in
  departures t = departures (read_shared f)
  /\ entries t = match entries (read_shared f) !! id with
                 | Some _ => entries (read_shared f)
                 | None => <[id := now]> (entries (read_shared f))
                 end.
Proof.
  intros Hs. pose proof (record_room (read_shared f) id now Hs) as [He Hd].
  unfold record_close, mutate_shared. cbv zeta. rewrite Hd, Nat.eqb_refl, orb_false_r, He.
  case_bool_decide as Hc; cbn [negb fst read_shared]; [by rewrite Hc|by rewrite He].
Qed.

Section identity.
Context (kind_to_json : SessionKind -> option string) (kind_from_json : string -> option SessionKind).

Lemma load_departures f now d :
  (length (departures (read_shared f) ++ [d]) <= MAX_DEPARTURES)%nat -> dep_at d = now ->
  forall e, exists ds, departures (load (Holds (mkTombstones e (departures (read_shared f) ++ [d]))) now)
                       = ds ++ [d].
Proof.
  intros Hlen Hat e. unfold load. rewrite gc_eq. unfold gc_departures. cbn zeta. cbn [fst departures read_shared entries].
  destruct (evict_spec (mkTombstones (filter (fun kv => expired kv.2 now = false) e)
    (departures (read_shared f) ++ [d]))) as (-> & _). cbn [departures].
  assert (exists ds, (if now =? 0 then departures (read_shared f) ++ [d]
      else List.filter (fun d0 => negb (expired (dep_at d0) now)) (departures (read_shared f) ++ [d])) = ds ++ [d]
      /\ (length (ds ++ [d]) <= MAX_DEPARTURES)%nat) as (ds & -> & Hds).
  { destruct (now =? 0); [by eexists|]. rewrite List.filter_app. cbn [List.filter].
    rewrite (proj2 (expired_false (dep_at d) now)) by (unfold TOMBSTONE_TTL_SECS; lia). cbn [negb].
    eexists. split; [done|]. rewrite length_app in *. pose proof (List.filter_length_le
      (fun d0 => negb (expired (dep_at d0) now)) (departures (read_shared f))). lia. }
  rewrite (proj2 (Nat.ltb_ge _ _) Hds). by eexists.
Qed.

(** A close with both writes landing, from what the file held. *)
Lemma tombstone_room f d path key r now :
  live_session_row_key (server d) path = Some key ->
  (size (entries (read_shared f)) < MAX_TOMBSTONES)%nat ->
  (length (departures (read_shared f)) < MAX_DEPARTURES)%nat ->
  let id := normalized_live_row_identity key in
  let '(f', d') := tombstone_live_row_as kind_to_json true true f d path r now in
  f' = Holds (mkTombstones
         (match entries (read_shared f) !! id with
          | Some _ => entries (read_shared f) | None => <[id := now]> (entries (read_shared f)) end)
         (departures (read_shared f) ++ [departure_of kind_to_json (server d) key r now]))
  /\ live_row_identities_seen d' = live_row_identities_seen d ∖ {[id]}.
Proof.
  intros Hk Hs Hd id. unfold tombstone_live_row_as, record_row_departure. rewrite Hk.
  rewrite record_departure_room by done. cbn [server live_row_tombstones live_row_identities_seen]. rewrite Hk.
  cbv zeta. fold id. set (t := mkTombstones (entries (read_shared f)) _).
  pose proof (record_close_room (Holds t) t id now) as H. cbn [read_shared] in H. cbv zeta in H.
  unfold record_close in *. destruct (mutate_shared _ _ _ _) as [[f2 c2] res] eqn:Hm. cbn [fst] in H.
  destruct H as [H1 H2]; [done|]. split; [|done]. unfold t in H1, H2. cbn [entries departures] in H1, H2.
  assert (f2 = Holds (read_shared f2)) as ->.
  { unfold mutate_shared in Hm. cbv zeta in Hm. destruct (_ || _); by injection Hm as <- _ _. }
  f_equal. destruct (read_shared f2). cbn in *. by subst.
Qed.
End identity.

(** ** A close that keeps being contested *)

(** The offers come at most half a lifetime apart, the first within half of [since]. *)
Fixpoint offered_often (path : string) (since : N) (offers : list (N * list (string * bool))) : Prop :=
  match offers with
  | [] => True
  | (now, paths) :: offers' =>
    since <= now /\ now <= since + TOMBSTONE_RENEWAL_AGE_SECS /\ (path, true) ∈ paths
    /\ offered_often path now offers'
  end.

Fixpoint last_offer (since : N) (offers : list (N * list (string * bool))) : N :=
  match offers with [] => since | (now, _) :: offers' => last_offer now offers' end.

(** The close of [id] was recorded or re-armed less than [age] before [now]. *)
Definition younger (id : string) (age now : N) (t : LiveRowTombstones) : Prop :=
  exists r, entries t !! id = Some r /\ r <= now /\ now < r + age.

Lemma renewal_half : TOMBSTONE_RENEWAL_AGE_SECS + TOMBSTONE_RENEWAL_AGE_SECS = TOMBSTONE_TTL_SECS.
Proof. by vm_compute. Qed.

Lemma renewal_pos : 0 < TOMBSTONE_RENEWAL_AGE_SECS.
Proof. by vm_compute. Qed.

Lemma touch_younger id age now t i :
  TOMBSTONE_RENEWAL_AGE_SECS <= age <= TOMBSTONE_TTL_SECS ->
  younger id age now t -> younger id age now (touch t i now).
Proof.
  intros Ha (r & Hid & Hr & Hn). unfold touch. destruct (entries t !! i) as [ri|] eqn:Hi; [|by exists r].
  destruct (decide (i = id)) as [->|Hne].
  - assert (ri = r) as -> by congruence. rewrite (proj2 (expired_false r now)) by lia.
    destruct (TOMBSTONE_RENEWAL_AGE_SECS <=? now - r); [|by exists r].
    exists now. cbn [entries]. rewrite lookup_insert_eq. split; [done|].
    pose proof renewal_pos. lia.
  - exists r. split; [|done].
    destruct (expired ri now); [|destruct (TOMBSTONE_RENEWAL_AGE_SECS <=? now - ri); [|done]];
      cbn [entries]; [by rewrite lookup_delete_ne|by rewrite lookup_insert_ne].
Qed.

Lemma touch_renews id now t :
  younger id TOMBSTONE_TTL_SECS now t -> younger id TOMBSTONE_RENEWAL_AGE_SECS now (touch t id now).
Proof.
  intros (r & Hid & Hr & Hn). unfold touch. rewrite Hid, (proj2 (expired_false r now)) by lia.
  destruct (N.leb_spec TOMBSTONE_RENEWAL_AGE_SECS (now - r)).
  - exists now. cbn [entries]. rewrite lookup_insert_eq. split; [done|].
    pose proof renewal_pos. lia.
  - exists r. split; [done|]. lia.
Qed.

(** A write that lands, or is not needed, leaves the mutated entries in the file. *)
Lemma mutate_shared_lands (P : gmap string N -> Prop) f c m :
  P (entries (m (read_shared f))) -> P (entries (read_shared (mutate_shared true f c m).1.1)).
Proof.
  intros HP. unfold mutate_shared. cbv zeta.
  destruct (decide (entries (m (read_shared f)) = entries (read_shared f))) as [He|He].
  - destruct (_ || _); cbn; [done|]. by rewrite <- He.
  - by rewrite (bool_decide_eq_false_2 _ He).
Qed.

Lemma rearm_renews now f paths path id :
  normalized_live_row_identity path = id -> (path, true) ∈ paths ->
  younger id TOMBSTONE_TTL_SECS now (read_shared f) ->
  younger id TOMBSTONE_RENEWAL_AGE_SECS now (read_shared (rearm_live_row_closes_among f now paths)).
Proof.
  intros Hid Hin Hy. unfold rearm_live_row_closes_among. generalize (load f now) as c. revert f Hy.
  induction paths as [|[p ok] paths IH]; intros f Hy c; [by apply elem_of_nil in Hin|]. cbn [foldl].
  destruct (touch_close ok f c (normalized_live_row_identity p) now) as [[f' c'] res] eqn:Ht. cbn [fst].
  unfold touch_close in Ht. apply elem_of_cons in Hin as [[= <- <-]|Hin].
  - assert (younger id TOMBSTONE_RENEWAL_AGE_SECS now (read_shared f')) as Hy'.
    { pose proof (mutate_shared_lands (fun e => exists r, e !! id = Some r /\ r <= now
        /\ now < r + TOMBSTONE_RENEWAL_AGE_SECS) f c
        (fun t => touch t (normalized_live_row_identity path) now)) as H.
      rewrite Ht in H. apply H. rewrite Hid. by apply touch_renews. }
    clear -Hy'. revert f' Hy' c'. induction paths as [|[q ok] paths IH]; intros f Hy c; [done|]. cbn [foldl].
    destruct (touch_close ok f c (normalized_live_row_identity q) now) as [[f' c'] res] eqn:Ht. cbn [fst].
    apply IH. pose proof (mutate_shared_keeps (younger id TOMBSTONE_RENEWAL_AGE_SECS now) ok f c
      (fun t => touch t (normalized_live_row_identity q) now)) as H.
    unfold touch_close in Ht. rewrite Ht in H. apply H; [done|]. intros _. apply touch_younger; [|done].
    pose proof renewal_half. lia.
  - apply IH; [done|]. pose proof (mutate_shared_keeps (younger id TOMBSTONE_TTL_SECS now) ok f c
      (fun t => touch t (normalized_live_row_identity p) now)) as H.
    rewrite Ht in H. apply H; [done|]. intros _. apply touch_younger; [|done].
    pose proof renewal_half. lia.
Qed.

Definition rearm_all (offers : list (N * list (string * bool))) (f : SharedFile) : SharedFile :=
  foldl (fun f '(now, paths) => rearm_live_row_closes_among f now paths) f offers.

Lemma rearm_all_younger path since offers f :
  offered_often path since offers ->
  younger (normalized_live_row_identity path) TOMBSTONE_RENEWAL_AGE_SECS since (read_shared f) ->
  younger (normalized_live_row_identity path) TOMBSTONE_RENEWAL_AGE_SECS (last_offer since offers)
    (read_shared (rearm_all offers f)).
Proof.
  revert since f. induction offers as [|[now paths] offers IH]; intros since f Ho Hy; [done|].
  cbn [offered_often] in Ho. destruct Ho as (H1 & H2 & Hin & Ho). cbn [rearm_all foldl last_offer].
  apply IH; [done|]. eapply rearm_renews; [done..|].
  destruct Hy as (r & Hr & H3 & H4). exists r. split; [done|]. pose proof renewal_half. lia.
Qed.

Lemma rearm_all_capped offers f : capped (read_shared f) -> capped (read_shared (rearm_all offers f)).
Proof.
  revert f. induction offers as [|[now paths] offers IH]; intros f Hc; [done|]. cbn [rearm_all foldl].
  apply IH, rearm_keeps; [done|]. intros t i. apply touch_capped.
Qed.

(** * Properties *)

Section properties.
Context (kind_to_json : SessionKind -> option string) (kind_from_json : string -> option SessionKind).

(** C2: A remembered close sticks against every daemon of the host.  Whatever closes, departures,
    reconciles, re-armings, refreshes and changes of rows the daemons interleave, and whichever
    of their writes fail, every door asked within the close's lifetime answers that the row was
    closed, under each key that names the row: only the row entering a daemon's live order, the
    lifetime, or a full set undo a close. *)
Theorem close_sticks acts w id r now path :
  capped (read_shared (file w)) -> entries (read_shared (file w)) !! id = Some r ->
  undisturbed kind_to_json id r acts w ->
  now - r < TOMBSTONE_TTL_SECS -> normalized_live_row_identity path = id ->
  live_row_close_is_remembered (file (perform_all kind_to_json acts w)) now path = true.
Proof.
  intros Hc Hid Hu Hnow <-. rewrite remembered_blocks.
  destruct (perform_all_held kind_to_json (normalized_live_row_identity path) r acts w Hc) as [[Hs _] Hh];
    [exists r; by split|done|].
  by eapply load_blocks.
Qed.

(** C38: The shared file stays bounded whatever the daemons do, a load shows only closes that are
    recorded and alive, and a close recorded at the cap costs the oldest closes only: every
    close it drops is no newer than every close it keeps. *)
Theorem tombstones_bounded acts w :
  capped (read_shared (file w)) ->
  let f := file (perform_all kind_to_json acts w) in
  capped (read_shared f)
  /\ (forall now id r, entries (load f now) !! id = Some r ->
        entries (read_shared f) !! id = Some r /\ expired r now = false)
  /\ (forall now id kept k dropped r,
        let t := read_shared f in
        let t' := fst (record t id now) in
        entries t' !! kept = Some k -> entries t' !! dropped = None ->
        entries t !! dropped = Some r -> entry_leb (r, dropped) (k, kept) = true).
Proof.
  intros Hc f. assert (capped (read_shared f)) as Hf.
  { unfold f. clear f. revert w Hc. induction acts as [|[now a] acts IH]; intros w Hc; [done|].
    cbn [perform_all]. by apply IH, perform_capped. }
  split_and!; [done|intros now id r; apply gc_lookup|].
  intros now id kept k dropped r t t' Hk Hd Hr. unfold t', record in Hk, Hd.
  destruct (entries t !! id) as [ri|] eqn:Hi; cbn [fst] in Hk, Hd; [congruence|].
  apply (evict_spec _) with (id := kept) (id' := dropped) (r := k) (r' := r) in Hk; [done| |done].
  cbn [entries]. rewrite lookup_insert_ne; [done|]. congruence.
Qed.

(** Closing a row writes down what it was.  When both writes land and there is room, the row
    is out of the daemon's seen set, so that reopening it counts as entering; its kind, cwd
    and title come back from the file as the session had them; and the close is remembered
    unless the file still held an expired close of the row, which the new one does not
    replace. *)
Theorem close_is_recorded f d path key s now :
  (forall k, kind_to_json k ≫= kind_from_json = Some k) ->
  live_session_row_key (server d) path = Some key ->
  resolve_live_session_key (server d) key ≫= get_session (server d) = Some s ->
  (size (entries (read_shared f)) < MAX_TOMBSTONES)%nat ->
  (length (departures (read_shared f)) < MAX_DEPARTURES)%nat ->
  let id := normalized_live_row_identity key in
  let '(f', d') := tombstone_live_row_as kind_to_json true true f d path ExplicitClose now in
  live_row_close_is_remembered f' now key
    = match entries (read_shared f) !! id with Some r => negb (expired r now) | None => true end
  /\ (id ∉ live_row_identities_seen d')
  /\ live_row_closed_identity kind_from_json f' now key
     = Some (mkClosedRow (Some (kind_of s)) (cwd s)
               (if str_is_empty (trim (title s)) then None else Some (title s))).
Proof.
  intros Hjson Hk Hses Hs Hd id. pose proof (tombstone_room kind_to_json f d path key ExplicitClose now Hk Hs Hd) as H.
  cbv zeta in H. fold id in H. destruct (tombstone_live_row_as _ _ _ _ _ _ _ _) as [f' d'].
  destruct H as [Hf' Hseen]. set (dep := departure_of kind_to_json (server d) key ExplicitClose now) in *.
  split_and!; [|rewrite Hseen; set_solver|].
  - rewrite remembered_blocks. fold id. unfold blocks, load. rewrite Hf'. rewrite gc_entries; cbn [read_shared entries].
    + destruct (entries (read_shared f) !! id) as [r|] eqn:Hid.
      * destruct (expired r now) eqn:He.
        -- rewrite (proj2 (map_lookup_filter_None _ _ _)); [done|]. right. intros r' Hr'. cbn. congruence.
        -- rewrite (proj2 (map_lookup_filter_Some _ _ _ _)) by done. by rewrite He.
      * assert (expired now now = false) as He by (apply expired_false; unfold TOMBSTONE_TTL_SECS; lia).
        rewrite (proj2 (map_lookup_filter_Some _ _ _ now)) by (by rewrite lookup_insert_eq). by rewrite He.
    + destruct (entries (read_shared f) !! id) eqn:Hid; [lia|]. rewrite map_size_insert_None by done. lia.
  - unfold live_row_closed_identity, closed_row_identity. fold id. rewrite Hf'.
    set (e := match entries (read_shared f) !! id with Some _ => _ | None => _ end).
    destruct (load_departures f now dep) with (e := e) as (ds & ->); [rewrite length_app; cbn; lia|done|].
    rewrite rev_app_distr. cbn [rev app List.find]. unfold dep, departure_of. rewrite Hses.
    cbn [dep_identity dep_reason]. fold id. rewrite String.eqb_refl. cbn [andb].
    rewrite (bool_decide_eq_true_2 (ExplicitClose = ExplicitClose)) by done.
    pose proof (Hjson (kind_of s)) as Hj. cbn in *. by rewrite Hj.
Qed.

(** A departure is written down while the ledger has room, and it is not when the ledger is
    exactly full: the append evicts one record, the length the write is decided by does not
    change, and the file stays as it was while the call answers that nothing changed. *)
Theorem record_departure_outcome f c d :
  ((length (departures (read_shared f)) < MAX_DEPARTURES)%nat ->
     let t := mkTombstones (entries (read_shared f)) (departures (read_shared f) ++ [d]) in
     record_departure true f c d = (Holds t, t, Ok true))
  /\ (length (departures (read_shared f)) = MAX_DEPARTURES ->
     (record_departure true f c d).1.1 = f /\ (record_departure true f c d).2 = Ok false).
Proof. split; [apply record_departure_room|apply record_departure_full]. Qed.

(** An offerer that never stops cannot wait out a close.  While refused offers of a row re-arm
    its close at least every half lifetime, the close is remembered at every time up to half a
    lifetime after the last of them, however long that goes on. *)
Theorem contested_close_does_not_expire f path r offers now :
  capped (read_shared f) -> entries (read_shared f) !! normalized_live_row_identity path = Some r ->
  offered_often path r offers ->
  last_offer r offers <= now <= last_offer r offers + TOMBSTONE_RENEWAL_AGE_SECS ->
  live_row_close_is_remembered (rearm_all offers f) now path = true.
Proof.
  intros Hc Hid Ho Hnow. rewrite remembered_blocks.
  destruct (rearm_all_younger path r offers f Ho) as (r' & Hr' & Hle & Hlt).
  { exists r. split; [done|]. pose proof renewal_pos. lia. }
  apply (load_blocks _ _ r'); [by apply rearm_all_capped|exists r'; by split|].
  pose proof renewal_half. lia.
Qed.
End properties.

(** ** Witnesses *)

(** A kind's own name as its JSON text. *)
Definition kind_json (k : SessionKind) : option string := Some (session_kind_label k).

Definition json_kind (text : string) : option SessionKind :=
  List.find (fun k => String.eqb (session_kind_label k) text) ALL.

(** A stale peer that still shows the row reconciles, offers it, and closes another one. *)
Definition row (key : string) : string * Session := (key, mkSession key "t" None false None Shell (Some "/w")).

Definition peer : Daemon :=
  mkDaemon (mkServer [row "local://abc"; row "local://xyz"] ["local://abc"; "local://xyz"])
    no_tombstones {["id::abc"; "id::xyz"]}.

Definition two_daemons : World :=
  mkWorld (Holds (mkTombstones {["id::abc" := 1000]} []))
    {[0%nat := mkDaemon (mkServer [] []) no_tombstones ∅; 1%nat := peer]}.

Lemma close_sticks_witness :
  live_row_close_is_remembered (file (perform_all kind_json
    [(1010, ActReconcile 1 true); (1020, ActRearm [("codex-runtime://abc", true)]);
     (1030, ActClose 1 "local://xyz" ExplicitClose true false); (131000, ActRefresh 0)] two_daemons))
    200000 "local://abc" = true.
Proof.
  apply (close_sticks kind_json _ two_daemons "id::abc" 1000); [|by vm_compute| |by vm_compute|by vm_compute].
  - split; apply (bool_decide_unpack _); by vm_compute.
  - split; [by vm_compute|split; [|split; [exact I|]]].
    { intros dm [= <-] _. apply (bool_decide_unpack _). by vm_compute. }
    do 3 (split; [by vm_compute|split; [exact I|split; [first [exact I | cbn [has_room]; apply (bool_decide_unpack _); by vm_compute]|]]]).
    done.
Defined.

Lemma tombstones_bounded_witness :
  capped (read_shared (file (perform_all kind_json [(1010, ActReconcile 1 true)] two_daemons))).
Proof.
  apply (tombstones_bounded kind_json [(1010, ActReconcile 1 true)] two_daemons).
  split; apply (bool_decide_unpack _); by vm_compute.
Defined.

Lemma close_is_recorded_witness :
  let '(f', d') := tombstone_live_row_as kind_json true true Missing peer "local://abc" ExplicitClose 500 in
  live_row_close_is_remembered f' 500 "local://abc" = true
  /\ ("id::abc" ∉ live_row_identities_seen d')
  /\ live_row_closed_identity json_kind f' 500 "local://abc"
     = Some (mkClosedRow (Some Shell) (Some "/w") (Some "t")).
Proof.
  apply (close_is_recorded kind_json json_kind Missing peer "local://abc" "local://abc"
           (row "local://abc").2 500); [|by vm_compute|by vm_compute| |].
  - intros k. by destruct k.
  - apply (bool_decide_unpack _). by vm_compute.
  - apply (bool_decide_unpack _). by vm_compute.
Defined.

Lemma record_departure_outcome_witness :
  (record_departure true Missing no_tombstones
     (mkDeparture "id::abc" "local://abc" "t" GuiCloseDisposable 7 None None None)).2 = Ok true.
Proof.
  set (d := mkDeparture _ _ _ _ _ _ _ _).
  rewrite (proj1 (record_departure_outcome Missing no_tombstones d)); [done|].
  apply (bool_decide_unpack _). by vm_compute.
Defined.

Lemma contested_close_does_not_expire_witness :
  live_row_close_is_remembered
    (rearm_all [(101000, [("local://abc", true)]); (201000, [("x", false); ("local://abc", true)]);
                (300000, [("local://abc", true)])] (file two_daemons)) 400000 "local://abc" = true.
Proof.
  apply (contested_close_does_not_expire (file two_daemons) "local://abc" 1000).
  - split; apply (bool_decide_unpack _); by vm_compute.
  - by vm_compute.
  - split_and!; try (by vm_compute); apply (bool_decide_unpack _); by vm_compute.
  - by vm_compute.
Defined.
