(* ===== verification/HotRestartQueue.v ===== *)
(** The one daemon swap a host owes (server/hot_restart_queue.rs) and the lane by which a
    retiring daemon drains it (server/daemon.rs, [hot_restart_swap_step]).

    The slot is the file [hot-restart-queue.json]: absent or unreadable is [None].  Every
    write of it may fail and no caller looks, so each carries whether it lands.  A poll of
    the lane is given what it asks the outside for: the clock, the newest live daemon's
    version and what the handoff attempt answers. *)
From S2P Require Import Prelude RustStr.
#[local] Open Scope N_scope.

(** ** Versions *)

Definition Triple : Type := N * N * N.

Definition parse_daemon_version_triple (version : string) : option Triple :=
  let parts := split_on "." version in
  major ← parts !! 0%nat ≫= fun p => parse_u64 (trim p);
  minor ← parts !! 1%nat ≫= fun p => parse_u64 (trim p);
  patch ← parse_u64 (trim (default "0" (parts !! 2%nat)));
  Some (major, minor, patch).

(** The derived order of the tuple. *)
Definition triple_leb (a b : Triple) : bool :=
  let '(a1, a2, a3) := a in
  let '(b1, b2, b3) := b in
  (a1 <? b1) || ((a1 =? b1) && ((a2 <? b2) || ((a2 =? b2) && (a3 <=? b3)))).

Definition triple_ltb (a b : Triple) : bool := negb (triple_leb b a).

(** ** The slot *)

Record QueuedHotRestart : Type := mkQueued {
  target_version : string;
  daemon_executable : string;
  requested_by : string;
  requested_at_ms : N;
  attempts : N;
  last_attempt_ms : option N;
  last_outcome : option string;
  relay_boundary_at_ms : option N;
  relay_boundary_by : option string
}.

Inductive QueueDecision : Type :=
| Queued | Superseded (replaced_version : string) | Unchanged | Ignored (reason : string).

Definition writes (d : QueueDecision) : bool :=
  match d with Queued | Superseded _ => true | Unchanged | Ignored _ => false end.

Definition decision_word (d : QueueDecision) : string :=
  match d with
  | Queued => "queued" | Superseded _ => "superseded" | Unchanged => "unchanged" | Ignored _ => "ignored"
  end.

Definition decide_queue (existing : option QueuedHotRestart) (incoming : QueuedHotRestart)
    : QueueDecision :=
  match parse_daemon_version_triple (trim (target_version incoming)) with
  | None => Ignored "target version is not a version triple"
  | Some incoming_triple =>
    match existing with
    | None => Queued
    | Some entry =>
      match parse_daemon_version_triple (trim (target_version entry)) with
      | None => Superseded (target_version entry)
      | Some existing_triple =>
        if triple_ltb existing_triple incoming_triple then Superseded (target_version entry)
        else if bool_decide (incoming_triple = existing_triple) then Unchanged
        else Ignored "a newer swap is already queued"
      end
    end
  end.

Definition target_satisfied_by (target live_version : string) : bool :=
  match parse_daemon_version_triple (trim live_version), parse_daemon_version_triple (trim target) with
  | Some live, Some target => triple_leb target live
  | _, _ => false
  end.

Definition satisfied_by (request : QueuedHotRestart) (live_version : string) : bool :=
  target_satisfied_by (target_version request) live_version.

Definition Slot : Type := option QueuedHotRestart.

Definition save (ok : bool) (slot : Slot) (request : QueuedHotRestart) : Slot :=
  if ok then Some request else slot.

Definition clear (ok : bool) (slot : Slot) : Slot := if ok then None else slot.

Definition enqueue (ok : bool) (slot : Slot) (incoming : QueuedHotRestart) : Slot * QueueDecision :=
  let decision := decide_queue slot incoming in
  (if writes decision then save ok slot incoming else slot, decision).

Definition record_attempt (ok : bool) (slot : Slot) (now_ms : N) (outcome : string) : Slot :=
  match slot with
  | None => slot
  | Some r =>
    save ok slot (mkQueued (target_version r) (daemon_executable r) (requested_by r) (requested_at_ms r)
      (sat_add u32_max (attempts r) 1) (Some now_ms) (Some outcome)
      (relay_boundary_at_ms r) (relay_boundary_by r))
  end.

Definition relay_boundary_is_unspent (r : QueuedHotRestart) : bool :=
  match relay_boundary_at_ms r, last_attempt_ms r with
  | None, _ => false
  | Some _, None => true
  | Some boundary, Some last_attempt => last_attempt <? boundary
  end.

Definition attempt_is_due (r : QueuedHotRestart) (now_ms interval_ms : N) : bool :=
  if relay_boundary_is_unspent r then true
  else match last_attempt_ms r with
       | None => true
       | Some last => interval_ms <=? now_ms - last
       end.

Inductive RelayBoundaryOutcome : Type :=
| Declared (declared_target : string) (waiting_ms : N) | NothingOwed.

Definition declare_relay_boundary (ok : bool) (slot : Slot) (now_ms : N) (declared_by : string)
    : Slot * RelayBoundaryOutcome :=
  match slot with
  | None => (slot, NothingOwed)
  | Some r =>
    (save ok slot (mkQueued (target_version r) (daemon_executable r) (requested_by r) (requested_at_ms r)
       (attempts r) (last_attempt_ms r) (last_outcome r) (Some now_ms) (Some declared_by)),
     Declared (target_version r) (now_ms - requested_at_ms r))
  end.

Definition format_queued_swap (r : QueuedHotRestart) (now_ms : N) : string :=
  let waiting_min := (now_ms - requested_at_ms r) / 60000 in
  let outcome := default "queued, not yet attempted" (last_outcome r) in
  let boundary :=
    if relay_boundary_is_unspent r
    then (" · relay boundary declared by " ++ default "unknown" (relay_boundary_by r) ++ ", unspent")%string
    else ""%string in
  ("  swap owed → " ++ target_version r ++ ": queued " ++ u64_to_string waiting_min ++ "m ago by "
   ++ requested_by r ++ ", " ++ u64_to_string (attempts r) ++ " attempt(s), last: " ++ outcome
   ++ boundary ++ String newline "")%string.

(** ** The lane of a retiring daemon *)

Definition HOT_RESTART_SWAP_RETRY_INTERVAL_MS : N := 300000.

Inductive SwapStep : Type := HandedOff | Lingering | Converged | Failed.

(** The process-local cells: the lane is settled, the target remembered, the time of the last
    attempt (zero is never). *)
Record Lane : Type := mkLane {
  settled : bool;
  local_target : option string;
  asked_at_ms : N
}.

Record SelfRetireHandoff : Type := mkHandoff { handoff_target : option string; handoff_executable : string }.

Definition swap_target_is_ahead (target mine : string) : bool :=
  match parse_daemon_version_triple target, parse_daemon_version_triple mine with
  | Some target, Some mine => triple_ltb mine target
  | _, _ => false
  end.

Definition hot_restart_swap_target_supersedes (existing : option string) (incoming : string) : bool :=
  match existing with Some existing => target_satisfied_by existing incoming | None => true end.

Definition remember_hot_restart_swap_target (slot : option string) (target : string) : option string :=
  if hot_restart_swap_target_supersedes slot target then Some target else slot.

Definition queue_self_retire_swap (ok : bool) (slot : Slot) (mine : string) (h : SelfRetireHandoff)
    (retire_trigger : string) (now_ms : N) : Slot :=
  match handoff_target h with
  | None => slot
  | Some target =>
    if swap_target_is_ahead target mine
    then fst (enqueue ok slot (mkQueued target (handoff_executable h) retire_trigger now_ms 1 (Some now_ms)
                (Some "handoff requested; successor not yet confirmed live") None None))
    else slot
  end.

(** What one poll is given: the clock, the newest live newer daemon, what the handoff attempt
    answers if it is made, and whether the writes of the slot land. *)
Record Poll : Type := mkPoll {
  now_ms : N;
  live_newer : option string;
  handoff : option SelfRetireHandoff;
  writes_ok : bool
}.

Definition remembered_target (mine : string) (local : option string) (h : SelfRetireHandoff)
    : option string :=
  match handoff_target h with
  | Some target => if swap_target_is_ahead target mine
                   then remember_hot_restart_swap_target local target else local
  | None => local
  end.

Definition boundary_releases (slot : Slot) (lane : Lane) : bool :=
  match slot ≫= relay_boundary_at_ms with Some b => asked_at_ms lane <? b | None => false end.

(** The poll from the attempt on. *)
Definition swap_attempt (mine retire_trigger : string) (p : Poll) (slot : Slot) (lane : Lane)
    : Slot * Lane * SwapStep :=
  let outcome := if boundary_releases slot lane
    then "a relay boundary was declared; retrying the handoff at it"
    else "no daemon at or above the target version is live yet; retrying the handoff" in
  let slot' := record_attempt (writes_ok p) slot (now_ms p) outcome in
  match handoff p with
  | Some h =>
    (queue_self_retire_swap (writes_ok p) slot' mine h retire_trigger (now_ms p),
     mkLane (settled lane) (remembered_target mine (local_target lane) h) (now_ms p), HandedOff)
  | None =>
    (slot', mkLane (settled lane) (local_target lane) (now_ms p),
     if is_Some_b slot || is_Some_b (local_target lane) then Lingering else Failed)
  end.

(** A daemon at or above the target is live; the target is the slot's, or the one remembered. *)
Definition swap_satisfied (p : Poll) (slot : Slot) (lane : Lane) : bool :=
  let convergence_target :=
    match slot with Some queued => Some (target_version queued) | None => local_target lane end in
  match convergence_target, live_newer p with
  | Some target, Some live => target_satisfied_by target live
  | _, _ => false
  end.

(** The retry floor of the slot, and the one of this process. *)
Definition slot_floor_holds (p : Poll) (slot : Slot) : bool :=
  match slot with
  | Some queued => negb (attempt_is_due queued (now_ms p) HOT_RESTART_SWAP_RETRY_INTERVAL_MS)
  | None => false
  end.

Definition lane_floor_holds (p : Poll) (slot : Slot) (lane : Lane) : bool :=
  negb (boundary_releases slot lane) && negb (asked_at_ms lane =? 0)
  && (now_ms p - asked_at_ms lane <? HOT_RESTART_SWAP_RETRY_INTERVAL_MS).

Definition hot_restart_swap_step (mine retire_trigger : string) (p : Poll) (slot : Slot) (lane : Lane)
    : Slot * Lane * SwapStep :=
  if settled lane then (slot, lane, Lingering)
  else if swap_satisfied p slot lane
  then (clear (writes_ok p) slot, mkLane true (local_target lane) (asked_at_ms lane), Converged)
  else if slot_floor_holds p slot then (slot, lane, Lingering)
  else if lane_floor_holds p slot lane then (slot, lane, Lingering)
  else swap_attempt mine retire_trigger p slot lane.

(** * Lemmas *)

Lemma triple_leb_refl a : triple_leb a a = true.
Proof. destruct a as [[a1 a2] a3]. cbn. rewrite !N.eqb_refl, N.leb_refl. by rewrite !orb_true_r. Qed.

Lemma triple_leb_spec a b :
  triple_leb a b = true <->
  a.1.1 < b.1.1 \/ (a.1.1 = b.1.1 /\ (a.1.2 < b.1.2 \/ (a.1.2 = b.1.2 /\ a.2 <= b.2))).
Proof.
  destruct a as [[a1 a2] a3], b as [[b1 b2] b3]. cbn.
  rewrite !orb_true_iff, !andb_true_iff, !orb_true_iff, !andb_true_iff, !N.ltb_lt, !N.eqb_eq, N.leb_le. done.
Qed.

Lemma triple_leb_trans a b c : triple_leb a b = true -> triple_leb b c = true -> triple_leb a c = true.
Proof. rewrite !triple_leb_spec. lia. Qed.

Lemma triple_leb_antisym a b : triple_leb a b = true -> triple_leb b a = true -> a = b.
Proof.
  rewrite !triple_leb_spec. destruct a as [[a1 a2] a3], b as [[b1 b2] b3]. cbn. intros H1 H2.
  assert (a1 = b1 /\ a2 = b2 /\ a3 = b3) as (-> & -> & ->) by lia. done.
Qed.

Lemma triple_ltb_leb a b : triple_ltb a b = true -> triple_leb a b = true.
Proof.
  unfold triple_ltb. rewrite negb_true_iff, <- not_true_iff_false, !triple_leb_spec. lia.
Qed.

Lemma triple_ltb_irrefl a : triple_ltb a a = false.
Proof. unfold triple_ltb. by rewrite triple_leb_refl. Qed.

Definition version_of (text : string) : option Triple := parse_daemon_version_triple (trim text).

(** A target the process remembers is satisfied only by as new a version. *)
Lemma target_satisfied_by_spec target live :
  target_satisfied_by target live = true <->
  exists t l, version_of target = Some t /\ version_of live = Some l /\ triple_leb t l = true.
Proof.
  unfold target_satisfied_by, version_of. split.
  - destruct (parse_daemon_version_triple (trim live)) as [l|]; [|done].
    destruct (parse_daemon_version_triple (trim target)) as [t|]; [|done]. intros H. by exists t, l.
  - intros (t & l & -> & -> & H). done.
Qed.

(** ** The slot under any sequence of writes *)

Inductive slot_op : Type :=
| OpEnqueue (ok : bool) (incoming : QueuedHotRestart)
| OpAttempt (ok : bool) (at_ms : N) (outcome : string)
| OpDeclare (ok : bool) (at_ms : N) (declared_by : string).

Definition slot_step (slot : Slot) (op : slot_op) : Slot :=
  match op with
  | OpEnqueue ok incoming => fst (enqueue ok slot incoming)
  | OpAttempt ok at_ms outcome => record_attempt ok slot at_ms outcome
  | OpDeclare ok at_ms declared_by => fst (declare_relay_boundary ok slot at_ms declared_by)
  end.

(** [r'] is what became of the entry [r]: the same intent, or a newer build's. *)
Definition advances (r r' : QueuedHotRestart) : Prop :=
  exists t t', version_of (target_version r) = Some t /\ version_of (target_version r') = Some t'
  /\ triple_leb t t' = true
  /\ (t = t' -> target_version r' = target_version r /\ daemon_executable r' = daemon_executable r
               /\ requested_by r' = requested_by r /\ requested_at_ms r' = requested_at_ms r).

Lemma advances_refl r t : version_of (target_version r) = Some t -> advances r r.
Proof. intros H. exists t, t. split_and!; auto using triple_leb_refl. Qed.

Lemma advances_trans r1 r2 r3 : advances r1 r2 -> advances r2 r3 -> advances r1 r3.
Proof.
  intros (t1 & t2 & H1 & H2 & H12 & Hs) (t2' & t3 & H2' & H3 & H23 & Hs').
  assert (t2' = t2) as -> by congruence. exists t1, t3. split_and!; [done|done|by eapply triple_leb_trans|].
  intros ->. assert (t3 = t2) as -> by by apply triple_leb_antisym.
  destruct (Hs eq_refl) as (? & ? & ? & ?), (Hs' eq_refl) as (? & ? & ? & ?). split_and!; congruence.
Qed.

Lemma enqueue_advances ok r incoming t :
  version_of (target_version r) = Some t ->
  exists r', fst (enqueue ok (Some r) incoming) = Some r' /\ advances r r'.
Proof.
  intros Ht. unfold enqueue, decide_queue, save. unfold version_of in Ht. rewrite Ht.
  destruct (parse_daemon_version_triple (trim (target_version incoming))) as [i|] eqn:Hi;
    [|exists r; split; [done|by eapply advances_refl]].
  destruct (triple_ltb t i) eqn:Hlt; [|case_bool_decide; exists r; (split; [done|by eapply advances_refl])].
  destruct ok; [|exists r; split; [done|by eapply advances_refl]]. exists incoming. split; [done|].
  exists t, i. split_and!; [done|done|by apply triple_ltb_leb|]. intros ->. by rewrite triple_ltb_irrefl in Hlt.
Qed.

Lemma slot_step_advances r op t :
  version_of (target_version r) = Some t -> exists r', slot_step (Some r) op = Some r' /\ advances r r'.
Proof.
  intros Ht. destruct op as [ok incoming|ok at_ms outcome|ok at_ms declared_by]; cbn [slot_step].
  - by eapply enqueue_advances.
  - destruct ok; (eexists; split; [done|]; exists t, t; split_and!; auto using triple_leb_refl).
  - destruct ok; (eexists; split; [done|]; exists t, t; split_and!; auto using triple_leb_refl).
Qed.

Lemma advances_version r r' : advances r r' -> exists t, version_of (target_version r') = Some t.
Proof. intros (? & t & _ & ? & _). by exists t. Qed.

Lemma slot_steps_advance ops r t :
  version_of (target_version r) = Some t -> exists r', foldl slot_step (Some r) ops = Some r' /\ advances r r'.
Proof.
  revert r t. induction ops as [|op ops IH]; intros r t Ht; [exists r; split; [done|by eapply advances_refl]|].
  cbn [foldl]. destruct (slot_step_advances r op t Ht) as (r1 & -> & H1).
  destruct (advances_version _ _ H1) as (t1 & Ht1). destruct (IH r1 t1 Ht1) as (r' & -> & H2).
  exists r'. split; [done|]. by eapply advances_trans.
Qed.

Lemma enqueue_covers slot incoming i :
  version_of (target_version incoming) = Some i ->
  exists r' t', fst (enqueue true slot incoming) = Some r'
  /\ version_of (target_version r') = Some t' /\ triple_leb i t' = true.
Proof.
  intros Hi. unfold enqueue, decide_queue, save. unfold version_of in *. rewrite Hi.
  destruct slot as [r|]; [|exists incoming, i; split_and!; auto using triple_leb_refl].
  destruct (parse_daemon_version_triple (trim (target_version r))) as [t|] eqn:Ht;
    [|exists incoming, i; split_and!; auto using triple_leb_refl].
  destruct (triple_ltb t i) eqn:Hlt; [exists incoming, i; split_and!; auto using triple_leb_refl|].
  exists r, t. unfold triple_ltb in Hlt. apply negb_false_iff in Hlt. by case_bool_decide.
Qed.

(** ** The lane *)

(** The branches of a poll, up to the attempt. *)
Ltac step_branches p slot lane :=
  unfold hot_restart_swap_step; destruct (settled lane) eqn:?Hsettled;
  [|destruct (swap_satisfied p slot lane) eqn:?Hsat;
    [|destruct (slot_floor_holds p slot) eqn:?Hslot;
      [|destruct (lane_floor_holds p slot lane) eqn:?Hlane]]].

Section lane.
Context (mine retire_trigger : string).

Definition step := hot_restart_swap_step mine retire_trigger.

(** A target remembered is kept, or replaced by one that is as new. *)
Definition remembers (l l' : option string) : Prop :=
  forall target, l = Some target ->
    exists target', l' = Some target' /\ (target' = target \/ target_satisfied_by target target' = true).

Lemma remembers_refl l : remembers l l.
Proof. intros t ->. exists t. auto. Qed.

Lemma remembers_trans l1 l2 l3 : remembers l1 l2 -> remembers l2 l3 -> remembers l1 l3.
Proof.
  intros H12 H23 t1 H1. destruct (H12 t1 H1) as (t2 & H2 & H2'). destruct (H23 t2 H2) as (t3 & H3 & H3').
  exists t3. split; [done|]. destruct H2' as [->|H2'], H3' as [->|H3']; auto. right.
  rewrite target_satisfied_by_spec in *. destruct H2' as (a & b & ? & ? & ?), H3' as (b' & c & ? & ? & ?).
  assert (b' = b) as -> by congruence. exists a, c. split_and!; [done|done|by eapply triple_leb_trans].
Qed.

Lemma remembered_target_remembers l h : remembers l (remembered_target mine l h).
Proof.
  unfold remembered_target. destruct (handoff_target h) as [t|]; [|apply remembers_refl].
  destruct (swap_target_is_ahead t mine); [|apply remembers_refl].
  unfold remember_hot_restart_swap_target. intros t0 ->. cbn [hot_restart_swap_target_supersedes].
  destruct (target_satisfied_by t0 t) eqn:Ht; [exists t|exists t0]; auto.
Qed.

Lemma step_remembers p slot lane : remembers (local_target lane) (local_target (step p slot lane).1.2).
Proof.
  unfold step; step_branches p slot lane; try apply remembers_refl. unfold swap_attempt.
  destruct (handoff p) as [h|]; [apply remembered_target_remembers|apply remembers_refl].
Qed.

Lemma step_failed p slot lane :
  (step p slot lane).2 = Failed -> slot = None /\ local_target lane = None /\ handoff p = None.
Proof.
  unfold step; step_branches p slot lane; try done. unfold swap_attempt. destruct (handoff p); [done|]. destruct slot; [done|].
  by destruct (local_target lane).
Qed.

(** The answers of a run of polls, each finding whatever the other daemons left in the slot. *)
Fixpoint poll_all (polls : list (Poll * Slot)) (lane : Lane) : Lane * list SwapStep :=
  match polls with
  | [] => (lane, [])
  | (p, slot) :: polls' =>
    let '(_, lane', answer) := step p slot lane in
    let '(lane'', answers) := poll_all polls' lane' in (lane'', answer :: answers)
  end.

Lemma poll_all_remembers polls lane : remembers (local_target lane) (local_target (poll_all polls lane).1).
Proof.
  revert lane. induction polls as [|[p slot] polls IH]; intros lane; [apply remembers_refl|]. cbn [poll_all].
  pose proof (step_remembers p slot lane) as H. destruct (step p slot lane) as [[slot' lane'] answer].
  specialize (IH lane'). destruct (poll_all polls lane') as [lane'' answers]. by eapply remembers_trans.
Qed.

Lemma poll_all_never_fails polls lane target :
  local_target lane = Some target -> Failed ∉ (poll_all polls lane).2.
Proof.
  revert lane target. induction polls as [|[p slot] polls IH]; intros lane target Hl; [apply not_elem_of_nil|].
  cbn [poll_all]. pose proof (step_remembers p slot lane target Hl) as (t' & Hl' & _).
  pose proof (step_failed p slot lane) as Hf. destruct (step p slot lane) as [[slot' lane'] answer].
  specialize (IH lane' t' Hl'). destruct (poll_all polls lane') as [lane'' answers]. cbn [snd fst] in *.
  intros [<-|?]%elem_of_cons; [|done]. destruct (Hf eq_refl) as (_ & ? & _). congruence.
Qed.

Lemma step_handed_off p slot lane :
  (step p slot lane).2 = HandedOff ->
  exists h, handoff p = Some h /\ settled lane = false
  /\ (step p slot lane).1.2 = mkLane false (remembered_target mine (local_target lane) h) (now_ms p).
Proof.
  unfold step; step_branches p slot lane; try done.
  unfold swap_attempt. destruct (handoff p) as [h|]; [|by destruct (_ || _)]. intros _. exists h.
  by rewrite Hsettled.
Qed.

(** What an attempt implies. *)
Lemma swap_step_asks p slot lane :
  let '(_, lane', answer) := step p slot lane in
  asked_at_ms lane' <> asked_at_ms lane \/ answer = HandedOff \/ answer = Failed ->
  asked_at_ms lane' = now_ms p
  /\ (forall r, slot = Some r -> attempt_is_due r (now_ms p) HOT_RESTART_SWAP_RETRY_INTERVAL_MS = true)
  /\ (asked_at_ms lane = 0 \/ asked_at_ms lane + HOT_RESTART_SWAP_RETRY_INTERVAL_MS <= now_ms p
      \/ exists r b, slot = Some r /\ relay_boundary_at_ms r = Some b /\ asked_at_ms lane < b).
Proof.
  unfold step; step_branches p slot lane; try (by intros [?|[?|?]]).
  assert (asked_at_ms (swap_attempt mine retire_trigger p slot lane).1.2 = now_ms p) as Ha
    by (unfold swap_attempt; by destruct (handoff p)).
  destruct (swap_attempt _ _ _ _ _) as [[slot' lane'] answer]. intros _. split; [done|]. split.
  - intros r ->. by apply negb_false_iff in Hslot.
  - unfold lane_floor_holds in Hlane.
    apply andb_false_iff in Hlane as [Hlane|Hlane%N.ltb_ge]; [|destruct (N.eq_dec (asked_at_ms lane) 0);
      [by left|right; left; unfold HOT_RESTART_SWAP_RETRY_INTERVAL_MS in *; lia]].
    apply andb_false_iff in Hlane as [Hb%negb_false_iff|Hz%negb_false_iff%N.eqb_eq]; [|by left].
    right; right. unfold boundary_releases in Hb. destruct slot as [r|]; [|done]. cbn in Hb.
    destruct (relay_boundary_at_ms r) as [b|] eqn:Hrb; [|done]. exists r, b.
    split_and!; [done|done|by apply N.ltb_lt].
Qed.

Lemma remembered_ahead l h target :
  handoff_target h = Some target -> swap_target_is_ahead target mine = true ->
  is_Some (remembered_target mine l h).
Proof.
  intros Ht Ha. unfold remembered_target, remember_hot_restart_swap_target. rewrite Ht, Ha.
  destruct l as [t0|]; cbn; [case_match|]; by eexists.
Qed.
End lane.

(** * Properties *)

(** The slot never forgets or weakens what is owed.  Whatever requests, attempts and relay
    boundaries follow, and whichever of their writes fail, a readable request stays queued until
    it is cleared: the slot ends with the same request, with the moment it was first made
    intact, or with a strictly newer build's; and a request whose write lands leaves the slot
    owing at least the version it asked for. *)
Theorem queue_slot_correct ops r t :
  version_of (target_version r) = Some t ->
  (exists r', foldl slot_step (Some r) ops = Some r' /\ advances r r')
  /\ forall slot incoming i, version_of (target_version incoming) = Some i ->
       exists r' t', fst (enqueue true slot incoming) = Some r'
       /\ version_of (target_version r') = Some t' /\ triple_leb i t' = true.
Proof. intros Ht. split; [by eapply slot_steps_advance|apply enqueue_covers]. Qed.

Definition owed : QueuedHotRestart :=
  mkQueued "3.0.120" "/opt/y" "poll" 1000 1 (Some 1000) None None None.

Lemma queue_slot_correct_witness :
  exists r', foldl slot_step (Some owed)
    [OpEnqueue true (mkQueued "3.0.119" "/opt/x" "gui" 2000 0 None None None None);
     OpAttempt true 3000 "retry"; OpEnqueue true owed; OpDeclare false 4000 "relay"] = Some r'
  /\ advances owed r'.
Proof. apply (queue_slot_correct _ owed (3, 0, 120)). by vm_compute. Defined.

(** A declared relay boundary buys exactly one attempt.  It makes the owed swap due at once,
    whatever the retry floor, and keeps the moment of the request; the next recorded attempt
    spends it, after which only the floor decides, and declaring a boundary no later than that
    attempt buys nothing. *)
Theorem relay_boundary_buys_one_attempt r boundary by_whom :
  (forall last, last_attempt_ms r = Some last -> last < boundary) ->
  exists r1, fst (declare_relay_boundary true (Some r) boundary by_whom) = Some r1
  /\ requested_at_ms r1 = requested_at_ms r
  /\ (forall now interval, attempt_is_due r1 now interval = true)
  /\ forall at_ms outcome, boundary <= at_ms ->
       exists r2, record_attempt true (Some r1) at_ms outcome = Some r2
       /\ requested_at_ms r2 = requested_at_ms r
       /\ (forall now interval, attempt_is_due r2 now interval = (interval <=? now - at_ms))
       /\ forall again whom, again <= at_ms ->
            exists r3, fst (declare_relay_boundary true (Some r2) again whom) = Some r3
            /\ forall now interval, attempt_is_due r3 now interval = (interval <=? now - at_ms).
Proof.
  intros Hlast. eexists. split; [done|]. split; [done|]. split.
  - intros now interval. unfold attempt_is_due, relay_boundary_is_unspent. cbn.
    destruct (last_attempt_ms r) as [last|]; [|done]. by rewrite (proj2 (N.ltb_lt _ _) (Hlast last eq_refl)).
  - intros at_ms outcome Hat. eexists. split; [done|]. split; [done|]. split.
    + intros now interval. unfold attempt_is_due, relay_boundary_is_unspent. cbn.
      by rewrite (proj2 (N.ltb_ge _ _) Hat).
    + intros again whom Hag. eexists. split; [done|]. intros now interval.
      unfold attempt_is_due, relay_boundary_is_unspent. cbn. by rewrite (proj2 (N.ltb_ge _ _) Hag).
Qed.

Lemma relay_boundary_buys_one_attempt_witness :
  exists r1, fst (declare_relay_boundary true (Some owed) 2000 "relay") = Some r1
  /\ requested_at_ms r1 = 1000.
Proof.
  destruct (relay_boundary_buys_one_attempt owed 2000 "relay") as (r1 & H1 & H2 & _).
  - intros last [= <-]. done.
  - by exists r1.
Defined.

(** C6: Which handoffs protect a daemon from the cold shutdown that only [Failed] reaches.  After
    a handoff to a build ahead of this one, no later poll ever answers [Failed], whatever the
    other daemons do to the shared slot in between, and the target stays remembered or is
    replaced by one as new.  After a handoff whose successor named no version, or one not
    ahead, nothing in this process remembers it: once the slot is empty, the first failing
    attempt past the retry floor answers [Failed]. *)
Theorem handoff_protection mine trigger p slot lane h :
  (hot_restart_swap_step mine trigger p slot lane).2 = HandedOff -> handoff p = Some h ->
  let lane' := (hot_restart_swap_step mine trigger p slot lane).1.2 in
  (forall target, handoff_target h = Some target -> swap_target_is_ahead target mine = true ->
     forall polls, let run := poll_all mine trigger polls lane' in
       (Failed ∉ run.2) /\ is_Some (local_target run.1) /\ remembers (local_target lane') (local_target run.1))
  /\ ((forall target, handoff_target h = Some target -> swap_target_is_ahead target mine = false) ->
      local_target lane = None ->
      forall p', handoff p' = None -> now_ms p + HOT_RESTART_SWAP_RETRY_INTERVAL_MS <= now_ms p' ->
        (hot_restart_swap_step mine trigger p' None lane').2 = Failed).
Proof.
  intros Ho Hh lane'. destruct (step_handed_off mine trigger p slot lane Ho) as (h' & Hh' & _ & Hl).
  assert (h' = h) as -> by congruence. fold lane' in Hl.
  change ((step mine trigger p slot lane).1.2) with lane' in Hl. split.
  - intros target Ht Ha polls run. destruct (remembered_ahead mine (local_target lane) h target Ht Ha) as (t & Hr).
    assert (local_target lane' = Some t) as Hlt by by rewrite Hl.
    pose proof (poll_all_remembers mine trigger polls lane') as Hrem. fold run in Hrem.
    split_and!; [by eapply poll_all_never_fails| |done].
    destruct (Hrem t Hlt) as (t' & Ht' & _). by eexists.
  - intros Hna Hnone p' Hp' Hnow. rewrite Hl, Hnone.
    assert (remembered_target mine None h = None) as ->.
    { unfold remembered_target. destruct (handoff_target h) as [t|]; [|done]. by rewrite (Hna t eq_refl). }
    unfold hot_restart_swap_step. cbn [settled]. unfold swap_satisfied, slot_floor_holds, lane_floor_holds.
    cbn [local_target boundary_releases asked_at_ms mbind option_bind negb andb].
    rewrite (proj2 (N.ltb_ge _ _)) by lia. rewrite andb_false_r. unfold swap_attempt. by rewrite Hp'.
Qed.

Lemma handoff_protection_witness :
  let p := mkPoll 5000 None (Some (mkHandoff (Some "3.0.121") "/opt/z")) true in
  let lane' := (hot_restart_swap_step "3.0.120" "poll" p None (mkLane false None 0)).1.2 in
  Failed ∉ (poll_all "3.0.120" "poll" [(mkPoll 900000 None None true, None)] lane').2.
Proof.
  intros p lane'.
  apply (handoff_protection "3.0.120" "poll" p None (mkLane false None 0)
           (mkHandoff (Some "3.0.121") "/opt/z")) with (target := "3.0.121"%string);
    [by vm_compute|done|done|by vm_compute].
Defined.

(** One poll of the swap lane.  A settled lane only lingers; it converges exactly on a live
    daemon that satisfies the target, clearing the slot and settling; and it asks for a handoff
    only when the slot says the attempt is due and, in this process, the retry interval has
    passed since the last one or a boundary was declared after it, stamping the attempt's
    time, which no other answer moves. *)
Theorem swap_step_correct mine trigger p slot lane :
  let '(slot', lane', answer) := hot_restart_swap_step mine trigger p slot lane in
  (settled lane = true -> slot' = slot /\ lane' = lane /\ answer = Lingering)
  /\ (answer = Converged <-> settled lane = false /\ swap_satisfied p slot lane = true)
  /\ (answer = Converged -> settled lane' = true /\ (writes_ok p = true -> slot' = None))
  /\ (asked_at_ms lane' <> asked_at_ms lane \/ answer = HandedOff \/ answer = Failed ->
      asked_at_ms lane' = now_ms p
      /\ (forall r, slot = Some r -> attempt_is_due r (now_ms p) HOT_RESTART_SWAP_RETRY_INTERVAL_MS = true)
      /\ (asked_at_ms lane = 0 \/ asked_at_ms lane + HOT_RESTART_SWAP_RETRY_INTERVAL_MS <= now_ms p
          \/ exists r b, slot = Some r /\ relay_boundary_at_ms r = Some b /\ asked_at_ms lane < b)).
Proof.
  pose proof (swap_step_asks mine trigger p slot lane) as Hask. unfold step in Hask.
  destruct (hot_restart_swap_step mine trigger p slot lane) as [[slot' lane'] answer] eqn:He.
  split_and!; [| | |exact Hask]; clear Hask; revert He; step_branches p slot lane;
    try (unfold swap_attempt; destruct (handoff p); [|destruct (is_Some_b slot || _)]);
    intros [= <- <- <-]; try (by intuition congruence).
  intros _. split; [done|]. by intros ->.
Qed.
