(* ===== verification/PtyHandoff.v ===== *)
(** * Handing a terminal from one daemon to the next

    src/crates/yggterm-server/src/pty_handoff.rs and pty_handoff_wire.rs, with the seat rule of
    src/crates/yggterm-server/src/terminal.rs ([seat_verdict], [adopt_session]) and the listener's
    two closures of src/crates/yggterm-server/src/daemon.rs.

    Both ends are programs over a stream ([Proc], a free monad of the calls they make), so that
    their interleavings, timeouts, broken writes and broken reads can be run against each other
    ([step]).  The JSON of a line is a third-party encoding: the class [Wire] states what is used of
    it.  What a broken write has sent has no newline and
    runs on into the next line.  A descriptor in flight is a packet of its own, as ancillary data is.  The text of an I/O
    error is the platform's. *)
From S2P Require Import Prelude RustStr.
From Stdlib Require Import ZifyBool ZifyN.
#[local] Open Scope N_scope.
#[local] Open Scope string_scope.

(** ** What travels *)

Record HandoffMetadata := mkMetadata {
  version : N; runtime_key : string; launch_command : string; cwd : option string; cols : N; rows : N;
  shell_pid : N; shell_start_time : N; screen : string; precommit_verdict : bool }.

Definition HANDOFF_WIRE_VERSION : N := 1.

Definition HANDOFF_TOKEN_MAX_BYTES : nat := 512.

(** [version.replace('.', "-")]. *)
Fixpoint dashed (s : string) : string :=
  match s with
  | "" => ""
  | String c s' => String (if Ascii.eqb c "." then "-"%char else c) (dashed s')
  end.

Definition handoff_socket_name (v : string) : string := "pty-handoff-" ++ dashed v ++ ".sock".

Definition parse_handoff_socket_name (name : string) : option (N * N * N) :=
  match strip_prefix "pty-handoff-" name ≫= strip_suffix ".sock" with
  | Some rest =>
      match split_on "-" rest with
      | [major; minor; patch] =>
          match parse_u64 major, parse_u64 minor, parse_u64 patch with
          | Some a, Some b, Some c => Some (a, b, c)
          | _, _, _ => None
          end
      | _ => None
      end
  | None => None
  end.

Definition handoff_token (key : string) (pid start : N) : string :=
  "key=" ++ key ++ " pid=" ++ u64_to_string pid ++ " start=" ++ u64_to_string start.

Definition token_of (m : HandoffMetadata) : string :=
  handoff_token (runtime_key m) (shell_pid m) (shell_start_time m).

(** The answer before the descriptor moves; its field [precommit] is always set. *)
Record HandoffVerdict := mkVerdict { proceed : bool; verdict_error : option string }.

Definition verdict_proceed : HandoffVerdict := mkVerdict true None.
Definition verdict_refused (error : string) : HandoffVerdict := mkVerdict false (Some error).

Record HandoffAck := mkAck {
  adopted : bool; ack_error : option string; adopter_pid : option N; adopter_start_time : option N }.

(** The adopter's process, with the start time the system reports for it. *)
Definition adopted_here (pid : N) (start : option N) : HandoffAck := mkAck true None (Some pid) start.
Definition ack_refused (error : string) : HandoffAck := mkAck false (Some error) None None.

Definition adopter_identity (a : HandoffAck) : option (N * N) :=
  match adopter_pid a, adopter_start_time a with Some p, Some s => Some (p, s) | _, _ => None end.

Record HandoffError := mkError { committed : bool; refused : bool; message : string }.

(** ** What one sweep has learned of its successor *)

Inductive PrecommitSupport := Unknown | Speaks | OneSilence | Silent.

#[export] Instance PrecommitSupport_eq_dec : EqDecision PrecommitSupport.
Proof. solve_decision. Defined.

Definition saw_silence (s : PrecommitSupport) : PrecommitSupport :=
  match s with Speaks => Speaks | Unknown => OneSilence | OneSilence | Silent => Silent end.

(** ** Markers, worded by one end and read by the other *)

Definition BOOT_READINESS_MARKER : string := "successor still starting up: seating not ready yet".
Definition verdict_is_boot_refusal (m : string) : bool := contains m BOOT_READINESS_MARKER.

Definition SELF_DIAL_MARKER : string := "predecessor dialed its own pty-handoff listener (self-dial)".
Definition verdict_is_self_dial (m : string) : bool := contains m SELF_DIAL_MARKER.

Definition SEAT_CONFLICT_MARKER : string := "this daemon already runs a live PTY for it".
Definition message_is_seat_conflict (m : string) : bool := contains m SEAT_CONFLICT_MARKER.
Definition seat_conflict_reason (key : string) : string :=
  "refusing to adopt " ++ key ++ ": " ++ SEAT_CONFLICT_MARKER.

(** ** The seat rule *)

Inductive SeatVerdict := Vacant | AlreadySeated | PlaceholderYields | Conflict.

Record Runtime := mkRuntime { running : bool; process_id : option N; is_a_stand_in : bool }.

Abbreviation Sessions := (gmap string Runtime).

(** [procs] is the system's table of processes and their start times. *)
Definition seat_verdict (procs : N -> option N) (sessions : Sessions) (key : string) (pid start : N) : SeatVerdict :=
  match sessions !! key with
  | None => Vacant
  | Some existing =>
      if negb (running existing) then Vacant
      else if bool_decide (process_id existing = Some pid) && bool_decide (procs pid = Some start)
           then AlreadySeated
      else if is_a_stand_in existing then PlaceholderYields else Conflict
  end.

(** [installs]: whether a runtime can be built around the descriptor.  The error, or the sessions
    left. *)
Definition adopt_session (procs : N -> option N) (installs : option string) (m : HandoffMetadata)
    (sessions : Sessions) : option string * Sessions :=
  match seat_verdict procs sessions (runtime_key m) (shell_pid m) (shell_start_time m) with
  | AlreadySeated => (None, sessions)
  | Conflict => (Some (seat_conflict_reason (runtime_key m)), sessions)
  | Vacant | PlaceholderYields =>
      let removed := delete (runtime_key m) sessions in
      match installs with
      | Some error => (Some error, removed)
      | None => (None, <[runtime_key m := mkRuntime true (Some (shell_pid m)) false]> removed)
      end
  end.

(** The listener's first closure. *)
Definition seat_answer (ready : bool) (procs : N -> option N) (sessions : Sessions) (m : HandoffMetadata) :
    option string :=
  if negb ready then Some ("refusing to adopt " ++ runtime_key m ++ ": " ++ BOOT_READINESS_MARKER)
  else match seat_verdict procs sessions (runtime_key m) (shell_pid m) (shell_start_time m) with
       | Conflict => Some (seat_conflict_reason (runtime_key m))
       | PlaceholderYields | Vacant | AlreadySeated => None
       end.

(** ** The encoding of a line *)

(** Part of a line, and not all of it. *)
Definition fragment (part line : string) : Prop := exists p s, line = p ++ part ++ s /\ part <> line.

(** Part of a line, or all of it. *)
Definition inside (part line : string) : Prop := exists p s, line = p ++ part ++ s.

Class Wire := {
  encode_metadata : HandoffMetadata -> string;
  decode_metadata : string -> option HandoffMetadata;
  encode_verdict : HandoffVerdict -> string;
  decode_verdict : string -> option HandoffVerdict;
  encode_ack : HandoffAck -> string;
  decode_ack : string -> option HandoffAck;
  (** [line_is_a_precommit_verdict] *)
  line_is_a_precommit_verdict : string -> bool;
  decode_encode_metadata m : decode_metadata (encode_metadata m) = Some m;
  decode_encode_verdict v : decode_verdict (encode_verdict v) = Some v;
  decode_encode_ack a : decode_ack (encode_ack a) = Some a;
  verdicts_are_marked v : line_is_a_precommit_verdict (encode_verdict v) = true;
  acks_are_not a : line_is_a_precommit_verdict (encode_ack a) = false;
  metadata_not_empty m : str_is_empty (encode_metadata m) = false;
  verdict_not_empty v : str_is_empty (encode_verdict v) = false;
  ack_not_empty a : str_is_empty (encode_ack a) = false;
  trim_metadata m : trim (encode_metadata m) = encode_metadata m;
  trim_verdict v : trim (encode_verdict v) = encode_verdict v;
  trim_ack a : trim (encode_ack a) = encode_ack a;
  part_of_verdict part v : fragment part (encode_verdict v) -> decode_ack (trim part) = None;
  part_of_ack part a : fragment part (encode_ack a) -> decode_ack (trim part) = None;
  (** A verdict that broke off, with the beginning of an ack after it, is no ack; unless what is left of
      the verdict is blank. *)
  verdict_then_ack part v a start rest :
    inside part (encode_verdict v) -> encode_ack a = start ++ rest -> start <> "" ->
    decode_ack (trim (part ++ start)) = None \/ trim (part ++ start) = trim start }.

(** ** Programs over the stream *)

Inductive LineRead := Got (line : string) | TimedOut | Failed (error : string).

(** [read_line_without_overreading], [write_all], [send_master_fd], [recv_master_fd] and the two
    closures of the listener; an [option string] is an error or none. *)
Inductive Proc (A : Type) :=
| Ret (a : A)
| Connect (k : option string -> Proc A)
| WriteLine (line : string) (k : option string -> Proc A)
| ReadLine (k : LineRead -> Proc A)
| SendFd (token : string) (k : option string -> Proc A)
| RecvFd (k : string + string -> Proc A)
| Seat (m : HandoffMetadata) (k : option string -> Proc A)
| Adopt (m : HandoffMetadata) (k : option string -> Proc A).

Arguments Ret {A} a.
Arguments Connect {A} k.
Arguments WriteLine {A} line k.
Arguments ReadLine {A} k.
Arguments SendFd {A} token k.
Arguments RecvFd {A} k.
Arguments Seat {A} m k.
Arguments Adopt {A} m k.

Section Ends.
Context `{Wire}.

(** *** The predecessor *)

Abbreviation Sent := ((HandoffError + HandoffAck) * PrecommitSupport)%type.

Definition fails (c r : bool) (text : string) (support : PrecommitSupport) : Proc Sent :=
  Ret (inl (mkError c r text), support).

Definition reason_or_none (e : option string) : string := default "no reason given" e.

(** At most [n] more lines. *)
Fixpoint read_ack_past_a_late_verdict (n : nat) (support : PrecommitSupport) : Proc Sent :=
  match n with
  | O => fails true false "successor sent pre-commit verdicts but never an ack" support
  | S n' =>
      ReadLine (fun r =>
        match r with
        | Got line =>
            let trimmed := trim line in
            if str_is_empty trimmed
            then fails true false "successor accepted the fd but never acknowledged it" support
            else if line_is_a_precommit_verdict trimmed then read_ack_past_a_late_verdict n' support
            else match decode_ack trimmed with
                 | None => fails true false ("successor sent an unreadable ack: " ++ trimmed) support
                 | Some ack =>
                     if adopted ack then Ret (inr ack, support)
                     else fails true true
                       ("successor took the fd and refused to seat it: " ++ reason_or_none (ack_error ack)) support
                 end
        | TimedOut | Failed _ => fails true false "successor accepted the fd but never acknowledged it" support
        end)
  end.

(** [send_master_fd] refuses an empty token and one over the limit before it sends. *)
Definition send_master_fd {A} (token : string) (k : option string -> Proc A) : Proc A :=
  if str_is_empty token then k (Some "handoff token must be non-empty")
  else if (HANDOFF_TOKEN_MAX_BYTES <? String.length token)%nat
       then k (Some "the transcript travels as its own line BEFORE the fd")
  else SendFd token k.

(** From the commit point on. *)
Definition commit (m : HandoffMetadata) (support : PrecommitSupport) : Proc Sent :=
  send_master_fd (token_of m) (fun e =>
    match e with
    | Some error => fails false false ("sending master fd: " ++ error) support
    | None => read_ack_past_a_late_verdict 2 support
    end).

Definition read_precommit_verdict (support : PrecommitSupport) (k : PrecommitSupport -> Proc Sent) : Proc Sent :=
  ReadLine (fun r =>
    match r with
    | TimedOut => k (saw_silence support)
    | Failed error => fails false false ("reading the successor's pre-commit verdict: " ++ error) support
    | Got line =>
        let trimmed := trim line in
        if str_is_empty trimmed
        then fails false false "successor closed the handoff before answering whether it could seat the session" support
        else match decode_verdict trimmed with
             | None => fails false false ("successor sent an unreadable pre-commit verdict: " ++ trimmed) support
             | Some v =>
                 if proceed v then k Speaks
                 else fails false true ("successor refused to seat it: " ++ reason_or_none (verdict_error v)) Speaks
             end
    end).

Definition send_session (m : HandoffMetadata) (support : PrecommitSupport) : Proc Sent :=
  Connect (fun e =>
    match e with
    | Some error => fails false false ("connecting to successor handoff socket: " ++ error) support
    | None =>
        WriteLine (encode_metadata m) (fun e =>
          match e with
          | Some error => fails false false ("sending handoff metadata: " ++ error) support
          | None =>
              if precommit_verdict m && negb (bool_decide (support = Silent))
              then read_precommit_verdict support (commit m)
              else commit m support
          end)
    end).

(** *** The successor *)

Record HandoffServed := mkServed {
  served_key : option string; served_adopted : bool; served_error : option string; refused_before_commit : bool }.

Definition refuse (key : option string) (error : string) (before_commit : bool) : Proc HandoffServed :=
  WriteLine (encode_ack (ack_refused error)) (fun _ => Ret (mkServed key false (Some error) before_commit)).

(** [receive_metadata]. *)
Definition receive_metadata (r : LineRead) : string + HandoffMetadata :=
  match r with
  | TimedOut => inl "reading handoff metadata line"
  | Failed e => inl ("reading handoff metadata line: " ++ e)
  | Got line =>
      let trimmed := trim line in
      if str_is_empty trimmed then inl "handoff connection closed before sending metadata"
      else match decode_metadata trimmed with
           | None => inl "decoding handoff metadata"
           | Some m =>
               if (version m =? HANDOFF_WIRE_VERSION)%N then inr m
               else inl ("handoff wire version " ++ u64_to_string (version m) ++ " is not 1; refusing BEFORE the fd moves")
           end
  end.

(** [receive_descriptor]: the descriptor, or why not. *)
Definition receive_descriptor (m : HandoffMetadata) (r : string + string) : option string :=
  match r with
  | inl e => Some ("receiving master fd: " ++ e)
  | inr token =>
      if bool_decide (token = token_of m) then None
      else Some ("handoff token " ++ token ++ " does not match the metadata line")
  end.

Section Successor.
(** The successor's own process, and its start time. *)
Context (own_pid : N) (own_start : option N).

Definition take_descriptor (m : HandoffMetadata) : Proc HandoffServed :=
  let key := Some (runtime_key m) in
  RecvFd (fun r =>
    match receive_descriptor m r with
    | Some error => refuse key error false
    | None =>
        Adopt m (fun e =>
          match e with
          | None => WriteLine (encode_ack (adopted_here own_pid own_start)) (fun _ => Ret (mkServed key true None false))
          | Some error => WriteLine (encode_ack (ack_refused error)) (fun _ => Ret (mkServed key false (Some error) false))
          end)
    end).

Definition serve_handoff : Proc HandoffServed :=
  ReadLine (fun r =>
    match receive_metadata r with
    | inl error => refuse None error true
    | inr m =>
        let key := Some (runtime_key m) in
        Seat m (fun conflict =>
          let go := match conflict with
                    | Some reason => refuse key reason true
                    | None => take_descriptor m
                    end in
          if precommit_verdict m then
            WriteLine (encode_verdict (match conflict with Some r => verdict_refused r | None => verdict_proceed end))
              (fun e => match e with Some error => refuse key ("writing handoff verdict: " ++ error) true | None => go end)
          else go)
    end).

(** A daemon that dialed itself is answered by name. *)
Definition serve_self_dial : Proc HandoffServed :=
  WriteLine (encode_verdict (verdict_refused SELF_DIAL_MARKER))
    (fun _ => Ret (mkServed None false (Some SELF_DIAL_MARKER) true)).

Definition serve_connection (peer_is_self : bool) : Proc HandoffServed :=
  if peer_is_self then serve_self_dial else serve_handoff.

End Successor.
End Ends.

(** ** The two ends together *)

(** A line with its newline, text without one, or the descriptor with its token. *)
Inductive Packet := Full (line : string) | Cut (part : string) | Fd (token : string).

Definition text_of (p : Packet) : option string :=
  match p with Full l | Cut l => Some l | Fd _ => None end.

(** Text that has no newline yet runs on into what is written next. *)
Definition glue (part : string) (x : Packet) : list Packet :=
  match x with Full l => [Full (part ++ l)] | Cut l => [Cut (part ++ l)] | Fd _ => [Cut part; x] end.

Fixpoint put (l : list Packet) (x : Packet) : list Packet :=
  match l with
  | [] => [x]
  | y :: l' =>
      match l', y with
      | [], Cut part => glue part x
      | _, _ => y :: put l' x
      end
  end.

(** What is left when a read gave up after the beginning of a packet. *)
Definition unread_part (x : Packet) (y : string) : Packet := match x with Full _ => Full y | _ => Cut y end.

Definition finished {A} (p : Proc A) : Prop := match p with Ret _ => True | _ => False end.

Section Together.
Context `{Wire} (own_pid : N) (own_start : option N).

(** The programs, the packets under way to each, the successor's sessions, and what became of the
    descriptor: sent, in the successor's hands, and seated. *)
Record Sys := mkSys {
  pred : Proc ((HandoffError + HandoffAck) * PrecommitSupport); succ : Proc HandoffServed;
  to_succ : list Packet; to_pred : list Packet; sessions : Sessions;
  fd_sent : bool; fd_held : bool; fd_seated : bool }.

Inductive step : Sys -> Sys -> Prop :=
| pred_connect k e ts tp ss a b c q :
    step (mkSys (Connect k) q ts tp ss a b c) (mkSys (k e) q ts tp ss a b c)
| pred_write l k ts tp ss a b c q :
    step (mkSys (WriteLine l k) q ts tp ss a b c) (mkSys (k None) q (put ts (Full l)) tp ss a b c)
| pred_write_broken l part rest k e ts tp ss a b c q :
    l = part ++ rest ->
    step (mkSys (WriteLine l k) q ts tp ss a b c) (mkSys (k (Some e)) q (put ts (Cut part)) tp ss a b c)
| pred_read l k ts tp ss a b c q :
    step (mkSys (ReadLine k) q ts (Full l :: tp) ss a b c) (mkSys (k (Got l)) q ts tp ss a b c)
| pred_read_cut l k ts ss a b c q :
    finished q -> step (mkSys (ReadLine k) q ts [Cut l] ss a b c) (mkSys (k (Got l)) q ts [] ss a b c)
| pred_read_end k ts ss a b c q :
    finished q -> step (mkSys (ReadLine k) q ts [] ss a b c) (mkSys (k (Got "")) q ts [] ss a b c)
| pred_timeout k ts tp ss a b c q :
    step (mkSys (ReadLine k) q ts tp ss a b c) (mkSys (k TimedOut) q ts tp ss a b c)
| pred_timeout_inside p l x y k ts tp ss a b c q :
    text_of p = Some l -> l = x ++ y -> x <> "" ->
    step (mkSys (ReadLine k) q ts (p :: tp) ss a b c) (mkSys (k TimedOut) q ts (unread_part p y :: tp) ss a b c)
| pred_read_failed k e ts tp ss a b c q :
    step (mkSys (ReadLine k) q ts tp ss a b c) (mkSys (k (Failed e)) q ts tp ss a b c)
| pred_send token k ts tp ss a b c q :
    step (mkSys (SendFd token k) q ts tp ss a b c) (mkSys (k None) q (put ts (Fd token)) tp ss true b c)
| pred_send_failed token k e ts tp ss a b c q :
    step (mkSys (SendFd token k) q ts tp ss a b c) (mkSys (k (Some e)) q ts tp ss a b c)
| succ_write l k ts tp ss a b c p :
    step (mkSys p (WriteLine l k) ts tp ss a b c) (mkSys p (k None) ts (put tp (Full l)) ss a b c)
| succ_write_broken l part rest k e ts tp ss a b c p :
    l = part ++ rest ->
    step (mkSys p (WriteLine l k) ts tp ss a b c) (mkSys p (k (Some e)) ts (put tp (Cut part)) ss a b c)
| succ_read l k ts tp ss a b c p :
    step (mkSys p (ReadLine k) (Full l :: ts) tp ss a b c) (mkSys p (k (Got l)) ts tp ss a b c)
| succ_read_cut l k tp ss a b c p :
    finished p -> step (mkSys p (ReadLine k) [Cut l] tp ss a b c) (mkSys p (k (Got l)) [] tp ss a b c)
| succ_read_end k tp ss a b c p :
    finished p -> step (mkSys p (ReadLine k) [] tp ss a b c) (mkSys p (k (Got "")) [] tp ss a b c)
| succ_read_failed k e ts tp ss a b c p :
    step (mkSys p (ReadLine k) ts tp ss a b c) (mkSys p (k (Failed e)) ts tp ss a b c)
| succ_recv token k ts tp ss a b c p :
    step (mkSys p (RecvFd k) (Fd token :: ts) tp ss a b c) (mkSys p (k (inr token)) ts tp ss a true c)
| succ_recv_line x l k ts tp ss a b c p :
    text_of x = Some l ->
    step (mkSys p (RecvFd k) (x :: ts) tp ss a b c)
      (mkSys p (k (inl "no ancillary data arrived")) ts tp ss a b c)
| succ_recv_end k tp ss a b c p :
    finished p ->
    step (mkSys p (RecvFd k) [] tp ss a b c) (mkSys p (k (inl "no ancillary data arrived")) [] tp ss a b c)
| succ_recv_failed k e ts tp ss a b c p :
    step (mkSys p (RecvFd k) ts tp ss a b c) (mkSys p (k (inl e)) ts tp ss a b c)
| succ_seat ready procs m k ts tp ss a b c p :
    step (mkSys p (Seat m k) ts tp ss a b c) (mkSys p (k (seat_answer ready procs ss m)) ts tp ss a b c)
| succ_adopts procs installs m k ts tp ss ss' a b c p :
    adopt_session procs installs m ss = (None, ss') ->
    step (mkSys p (Adopt m k) ts tp ss a b c) (mkSys p (k None) ts tp ss' a b true)
| succ_cannot_adopt procs installs m k e ts tp ss ss' a b c p :
    adopt_session procs installs m ss = (Some e, ss') ->
    step (mkSys p (Adopt m k) ts tp ss a b c) (mkSys p (k (Some e)) ts tp ss' a b c)
| elsewhere ss' p q ts tp ss a b c :
    step (mkSys p q ts tp ss a b c) (mkSys p q ts tp ss' a b c).

Definition init (m : HandoffMetadata) (support : PrecommitSupport) (self : bool) (ss : Sessions) : Sys :=
  mkSys (send_session m support) (serve_connection own_pid own_start self) [] [] ss false false false.

(** *** What each end promises, whatever the other does *)

(** A line that the predecessor reads as an ack, of either kind. *)
Definition says (yes : bool) (line : string) : Prop :=
  str_is_empty (trim line) = false /\ line_is_a_precommit_verdict (trim line) = false /\
  exists a, decode_ack (trim line) = Some a /\ adopted a = yes.

Definition heard (yes : bool) (r : LineRead) : Prop := match r with Got l => says yes l | _ => False end.

(** The predecessor: what it answers about the descriptor it knows by what it did and read. *)
Fixpoint answers_for (sent : bool) (yes no : Prop) (p : Proc ((HandoffError + HandoffAck) * PrecommitSupport)) : Prop :=
  match p with
  | Ret (inl e, _) => committed e = sent /\ (refused e = true -> sent = true -> no)
  | Ret (inr a, _) => sent = true /\ adopted a = true /\ yes
  | Connect k | WriteLine _ k | Seat _ k | Adopt _ k => forall e, answers_for sent yes no (k e)
  | ReadLine k => forall r, answers_for sent (yes \/ heard true r) (no \/ heard false r) (k r)
  | SendFd _ k => answers_for true yes no (k None) /\ forall e, answers_for sent yes no (k (Some e))
  | RecvFd k => forall r, answers_for sent yes no (k r)
  end.

(** What a reader may be given of a line written after one of the texts [tails]. *)
Definition readable (tails : string -> Prop) (l q : string) : Prop := exists t, tails t /\ inside q (t ++ l).

(** The texts that may be left without a newline at the end of the stream. *)
Definition nothing_left : string -> Prop := fun t => t = "".

Definition left_after (tails : string -> Prop) (l : string) (e : option string) : string -> Prop :=
  match e with
  | None => nothing_left
  | Some _ => fun t => exists part rest, l = part ++ rest /\ readable tails part t
  end.

(** The successor: an ack, whatever stands before it in the stream, says what became of the descriptor,
    and after one that refuses it is not seated any more. *)
Fixpoint keeps_its_word (held seated : bool) (refused : Prop) (tails : string -> Prop) (p : Proc HandoffServed) : Prop :=
  match p with
  | Ret s => served_adopted s = seated /\ (refused_before_commit s = true -> held = false)
  | WriteLine l k =>
      (forall q, readable tails l q -> (says true q -> seated = true) /\ (says false q -> seated = false)) /\
      (seated = true -> ~ refused) /\
      forall e, keeps_its_word held seated (refused \/ exists q, readable tails l q /\ says false q)
                  (left_after tails l e) (k e)
  | ReadLine k => forall r, keeps_its_word held seated refused tails (k r)
  | RecvFd k => (forall token, keeps_its_word true seated refused tails (k (inr token))) /\
                forall e, keeps_its_word held seated refused tails (k (inl e))
  | Adopt _ k => held = true /\ seated = false /\ ~ refused /\ keeps_its_word held true refused tails (k None) /\
                 forall e, keeps_its_word held false refused tails (k (Some e))
  | Connect k | SendFd _ k | Seat _ k => forall e, keeps_its_word held seated refused tails (k e)
  end.

Lemma answers_for_mono sent (yes yes' no no' : Prop) p :
  (yes -> yes') -> (no -> no') -> answers_for sent yes no p -> answers_for sent yes' no' p.
Proof.
  revert sent yes yes' no no'. induction p as [[[e|a] s]| | | | | | |]; cbn; intros sent yes yes' no no' Hy Hn Hp.
  - destruct Hp as [? Hp]. split; auto.
  - destruct Hp as (? & ? & ?). auto.
  - intros e. eapply H0; eauto.
  - intros e. eapply H0; eauto.
  - intros r. eapply (H0 r); [| |apply Hp]; cbn; tauto.
  - destruct Hp as [H1 H2]. split; [eapply H0; eauto|intros e; eapply H0; eauto].
  - intros r. eapply H0; eauto.
  - intros e. eapply H0; eauto.
  - intros e. eapply H0; eauto.
Qed.

(** *** The two programs keep them *)

Lemma inside_refl l : inside l l.
Proof. exists "", "". cbn. by rewrite string_app_nil_r. Qed.

Lemma inside_trans a b c : inside a b -> inside b c -> inside a c.
Proof. intros (p & s & ->) (p' & s' & ->). exists (p' ++ p), (s ++ s'). by rewrite <- !string_app_assoc. Qed.

Lemma inside_start a b : inside a (a ++ b).
Proof. by exists "", b. Qed.

Lemma inside_end a b : inside b (a ++ b).
Proof. exists a, "". by rewrite string_app_nil_r. Qed.

Lemma inside_fragment part line : inside part line -> part = line \/ fragment part line.
Proof. intros (p & s & E). destruct (decide (part = line)); [by left|right; by exists p, s]. Qed.

Lemma app_meets x y t l : x ++ y = t ++ l ->
  (exists u, t = x ++ u /\ y = u ++ l) \/ (exists u, x = t ++ u /\ l = u ++ y).
Proof.
  revert t. induction x as [|c x IH]; intros t E; [left; by exists t|].
  destruct t as [|d t]; [right; by exists (String c x)|]. cbn in E. injection E as <- E.
  destruct (IH t E) as [(u & -> & ->)|(u & -> & ->)]; [left|right]; by exists u.
Qed.

(** A part of a text made of two is a part of either, or an end of the one and a beginning of the other. *)
Lemma inside_app q t l : inside q (t ++ l) ->
  inside q t \/ inside q l \/
  exists t' q' rest, inside t' t /\ l = q' ++ rest /\ q' <> "" /\ q = t' ++ q'.
Proof.
  intros (x & y & E). symmetry in E. apply app_meets in E as [(u & -> & E)|(u & -> & ->)].
  - apply app_meets in E as [(w & -> & ->)|(w & -> & ->)].
    + left. by exists x, w.
    + destruct (decide (w = "")) as [->|Hw].
      * left. rewrite string_app_nil_r. apply inside_end.
      * right. right. exists u, w, y. split; [apply inside_end|done].
  - right. left. by exists u, y.
Qed.

Lemma ack_says yes q a : inside q (encode_ack a) -> says yes q -> adopted a = yes.
Proof.
  intros [->|Hp]%inside_fragment (_ & _ & b & Hb & <-).
  - rewrite trim_ack, decode_encode_ack in Hb. by injection Hb as ->.
  - by rewrite (part_of_ack _ _ Hp) in Hb.
Qed.

Lemma verdict_says_nothing yes q v : inside q (encode_verdict v) -> ~ says yes q.
Proof.
  intros [->|Hp]%inside_fragment (_ & Hm & b & Hb & _).
  - by rewrite trim_verdict, verdicts_are_marked in Hm.
  - by rewrite (part_of_verdict _ _ Hp) in Hb.
Qed.

Lemma glued_says yes t q v a :
  inside t (encode_verdict v) -> inside q (t ++ encode_ack a) -> says yes q -> adopted a = yes.
Proof.
  intros Ht [Hq|[Hq|(t' & q' & rest & Ht' & Ha & Hne & ->)]]%inside_app Hs.
  - destruct (verdict_says_nothing yes q v); [by eapply inside_trans|done].
  - by eapply ack_says.
  - destruct (verdict_then_ack t' v a q' rest) as [E|E]; [by eapply inside_trans|done..| |].
    + destruct Hs as (_ & _ & b & Hb & _). by rewrite E in Hb.
    + apply (ack_says yes q'); [rewrite Ha; apply inside_start|]. unfold says in *. by rewrite <- E.
Qed.

Lemma read_ack_answers n support yes no : answers_for true yes no (read_ack_past_a_late_verdict n support).
Proof.
  revert yes no. induction n as [|n IH]; intros yes no; [done|]. cbn. intros [line| |e]; [|done..].
  destruct (str_is_empty (trim line)) eqn:E0; [done|].
  destruct (line_is_a_precommit_verdict (trim line)) eqn:Em; [apply IH|].
  destruct (decode_ack (trim line)) as [a|] eqn:Ea; [|done]. destruct (adopted a) eqn:Ead; cbn.
  - split; [done|]. split; [done|]. right. repeat split; [done..|]. by exists a.
  - split; [done|]. intros _ _. right. repeat split; [done..|]. by exists a.
Qed.

Lemma commit_answers m support yes no : answers_for false yes no (commit m support).
Proof.
  unfold commit, send_master_fd. repeat case_match; try done.
  refine (conj (read_ack_answers 2 support yes no) _). by intros e.
Qed.

Lemma send_session_answers m support : answers_for false False False (send_session m support).
Proof.
  cbn. intros [e|]; cbn; [done|]. intros [e|]; cbn; [done|]. case_match; [|apply commit_answers].
  cbn. intros [line| |e]; cbn; [|apply commit_answers|done].
  case_match; [done|]. case_match; [|done]. case_match; [apply commit_answers|done].
Qed.

(** The texts that may stand before an ack. *)
Definition only_verdicts (tails : string -> Prop) : Prop := forall t, tails t -> exists v, inside t (encode_verdict v).

Lemma nothing_left_only : only_verdicts nothing_left.
Proof. intros t ->. exists verdict_proceed. by exists "", (encode_verdict verdict_proceed). Qed.

Lemma readable_ack tails a q yes : only_verdicts tails -> readable tails (encode_ack a) q -> says yes q -> adopted a = yes.
Proof. intros Ht (t & [v Hv]%Ht & Hq) Hs. by eapply glued_says. Qed.

Lemma readable_verdict v q yes : readable nothing_left (encode_verdict v) q -> ~ says yes q.
Proof. intros (t & -> & Hq). by eapply verdict_says_nothing. Qed.

Lemma refuse_keeps key error before held refused tails :
  only_verdicts tails ->
  (before = true -> held = false) -> keeps_its_word held false refused tails (refuse key error before).
Proof.
  intros Ht Hb. cbn. split; [|done]. intros q Hq. split; [|done].
  intros Hs. by apply (readable_ack tails _ q true Ht Hq) in Hs.
Qed.

Lemma take_descriptor_keeps m (refused : Prop) :
  ~ refused -> keeps_its_word false false refused nothing_left (take_descriptor own_pid own_start m).
Proof.
  intros Hr. pose proof nothing_left_only as Ht.
  split; [intros token|intros e; by apply refuse_keeps]. unfold receive_descriptor.
  case_match; [by apply refuse_keeps|]. cbn. repeat split; try done; intros Hs;
    by apply (readable_ack nothing_left _ q _ Ht H1) in Hs.
Qed.

Lemma serve_keeps self : keeps_its_word false false False nothing_left (serve_connection own_pid own_start self).
Proof.
  pose proof nothing_left_only as Ht. destruct self; cbn.
  { split; [|done]. intros q Hq. split; [by intros []%(readable_verdict _ _ _ Hq)|done]. }
  intros r. destruct (receive_metadata r) as [error|m]; [by apply refuse_keeps|]. cbn. intros conflict.
  destruct (precommit_verdict m).
  - cbn. split; [|split; [done|]]; [intros q Hq; split; [by intros []%(readable_verdict _ _ _ Hq)|done]|].
    intros [e|].
    { apply refuse_keeps; [|done]. intros t (part & rest & E & (t0 & -> & Hin)). eexists. rewrite E.
      eapply inside_trans; [exact Hin|]. apply inside_start. }
    destruct conflict; [by apply refuse_keeps|].
    apply take_descriptor_keeps. intros [[]|(q & Hq & Hs)]. by apply (readable_verdict _ _ _ Hq) in Hs.
  - destruct conflict; [by apply refuse_keeps|]. apply take_descriptor_keeps; tauto.
Qed.

(** *** The invariant of a run *)

Definition packet_ok (seated : bool) (refused : Prop) (x : Packet) : Prop :=
  forall l q, text_of x = Some l -> inside q l -> (says true q -> seated = true) /\ (says false q -> refused).

Record good (yes no refused : Prop) (tails : string -> Prop) (s : Sys) : Prop := {
  good_pred : answers_for (fd_sent s) yes no (pred s);
  good_succ : keeps_its_word (fd_held s) (fd_seated s) refused tails (succ s);
  good_yes : yes -> fd_seated s = true;
  good_no : no -> refused;
  good_refused : refused -> fd_seated s = false;
  good_packets : Forall (packet_ok (fd_seated s) refused) (to_pred s);
  good_tail : forall t, last (to_pred s) = Some (Cut t) -> tails t;
  good_tails : tails "" /\ forall t t', tails t -> inside t' t -> tails t';
  good_sent : (exists token, Fd token ∈ to_succ s) \/ fd_held s = true -> fd_sent s = true;
  good_held : fd_seated s = true -> fd_held s = true }.

Lemma packet_ok_part seated refused x x' l part :
  packet_ok seated refused x -> text_of x = Some l -> text_of x' = Some part -> inside part l ->
  packet_ok seated refused x'.
Proof.
  intros Hok Hx Hx' Hp l' q Hl Hq. rewrite Hx' in Hl. injection Hl as <-.
  by eapply Hok; [|eapply inside_trans].
Qed.

Lemma packet_ok_mono (seated seated' : bool) (refused refused' : Prop) x :
  (seated = true -> seated' = true) -> (refused -> refused') ->
  packet_ok seated refused x -> packet_ok seated' refused' x.
Proof. intros Hs Hr Hok l q Hl Hq. destruct (Hok l q Hl Hq). auto. Qed.

(** What is written stands at the end, alone or after the text that was there. *)
Lemma put_spec l x :
  put l x = (l ++ [x])%list \/ exists l' t, l = (l' ++ [Cut t])%list /\ put l x = (l' ++ glue t x)%list.
Proof.
  induction l as [|y l IH]; [by left|]. cbn [put]. destruct l as [|z l].
  - destruct y as [s|t|token]; [by left| |by left]. right. by exists [], t.
  - destruct IH as [->|(l' & t & -> & ->)]; [by left; destruct y|right]. exists (y :: l'), t. by destruct y.
Qed.

Lemma put_descriptor l x token : Fd token ∈ put l x -> Fd token ∈ l \/ x = Fd token.
Proof.
  destruct (put_spec l x) as [->|(l' & t & -> & ->)]; rewrite !elem_of_app.
  - rewrite list_elem_of_singleton. intros [?| ->]; auto.
  - intros [?|Hin]; [auto|]. right. destruct x; cbn in Hin; rewrite ?elem_of_cons in Hin;
      repeat (destruct Hin as [Hin|Hin]; [by try injection Hin as ->|]); by apply elem_of_nil in Hin.
Qed.

Lemma got_nothing yes l : trim l = "" -> ~ says yes l.
Proof. intros Hl [He _]. by rewrite Hl in He. Qed.

(** The predecessor reads: what it heard is what the packet was allowed to say. *)
Lemma good_read yes no refused tails k r q ts tp tp' ss a b c :
  good yes no refused tails (mkSys (ReadLine k) q ts tp ss a b c) ->
  Forall (packet_ok c refused) tp' -> (forall t, last tp' = Some (Cut t) -> tails t) ->
  (heard true r -> c = true) -> (heard false r -> refused) ->
  good (yes \/ heard true r) (no \/ heard false r) refused tails (mkSys (k r) q ts tp' ss a b c).
Proof.
  intros [Hp Hq Hy Hn Hr Hpk Htl Hts Hs Hh] Htp Hlast H1 H2. split; cbn in *; try done; try tauto.
Qed.

(** The predecessor reads a whole packet. *)
Lemma good_read_packet yes no refused tails x l k q ts tp ss a b c :
  good yes no refused tails (mkSys (ReadLine k) q ts (x :: tp) ss a b c) -> text_of x = Some l ->
  exists yes' no' refused' tails', good yes' no' refused' tails' (mkSys (k (Got l)) q ts tp ss a b c).
Proof.
  intros Hg Hx. pose proof (good_packets _ _ _ _ _ Hg) as Hpk. apply Forall_cons in Hpk as [Hok Hpk].
  destruct (Hok l l Hx (inside_refl l)) as [Hyes Hno].
  do 4 eexists. eapply good_read; [exact Hg|exact Hpk| |exact Hyes|exact Hno].
  intros t Ht. apply (good_tail _ _ _ _ _ Hg). cbn in *. by destruct tp.
Qed.

(** It reads and hears nothing of the descriptor. *)
Lemma good_read_nothing yes no refused tails k r q ts tp ss a b c :
  good yes no refused tails (mkSys (ReadLine k) q ts tp ss a b c) ->
  (forall yes, ~ heard yes r) ->
  exists yes' no' refused' tails', good yes' no' refused' tails' (mkSys (k r) q ts tp ss a b c).
Proof.
  intros Hg Hr. do 4 eexists.
  eapply good_read; [exact Hg|apply (good_packets _ _ _ _ _ Hg)|apply (good_tail _ _ _ _ _ Hg)|by intros []%Hr|by intros []%Hr].
Qed.

(** The predecessor moves without hearing anything. *)
Lemma good_pred_move yes no refused tails p p' q ts ts' tp ss (a a' : bool) b c :
  good yes no refused tails (mkSys p q ts tp ss a b c) ->
  answers_for a' yes no p' -> (a = true -> a' = true) ->
  ((exists token, Fd token ∈ ts') -> (exists token, Fd token ∈ ts) \/ a' = true) ->
  exists yes' no' refused' tails', good yes' no' refused' tails' (mkSys p' q ts' tp ss a' b c).
Proof.
  intros [Hp Hq Hy Hn Hr Hpk Htl Htls Hs Hh] Hp' Ha Hts. exists yes, no, refused, tails. split; cbn in *; try done.
  intros [[Hx| ?]%Hts|Hb]; [|done|]; apply Ha, Hs; [by left|by right].
Qed.

(** The successor moves without writing. *)
Lemma good_succ_move yes no refused tails p q q' ts ts' tp ss ss' a (b b' : bool) c (c' : bool) :
  good yes no refused tails (mkSys p q ts tp ss a b c) ->
  keeps_its_word b' c' refused tails q' -> (c = true -> c' = true) -> (c' = true -> b' = true) ->
  (refused -> c' = false) -> (b' = true -> b = true \/ exists token, Fd token ∈ ts) -> ts' ⊆ ts ->
  exists yes' no' refused' tails', good yes' no' refused' tails' (mkSys p q' ts' tp ss' a b' c').
Proof.
  intros [Hp Hq Hy Hn Hr Hpk Htl Htls Hs Hh] Hq' Hc Hcb Hrc Hb Hts. exists yes, no, refused, tails.
  split; cbn in *; try done; auto.
  - eapply Forall_impl; [exact Hpk|]. intros x. by apply packet_ok_mono.
  - intros [[token Hx]|Hx]; apply Hs; [left; exists token; by apply Hts|]. destruct (Hb Hx); [by right|by left].
Qed.

(** It only reads or looks: what it knows does not change. *)
Lemma good_succ_look yes no refused tails p q q' ts ts' tp ss ss' a b c :
  good yes no refused tails (mkSys p q ts tp ss a b c) ->
  (keeps_its_word b c refused tails q -> keeps_its_word b c refused tails q') -> ts' ⊆ ts ->
  exists yes' no' refused' tails', good yes' no' refused' tails' (mkSys p q' ts' tp ss' a b c).
Proof.
  intros Hg Hq Hts.
  eapply good_succ_move; [exact Hg|apply Hq, (good_succ _ _ _ _ _ Hg)|done|apply (good_held _ _ _ _ _ Hg)|
    apply (good_refused _ _ _ _ _ Hg)|by left|exact Hts].
Qed.

Lemma left_after_closed tails l e : tails "" ->
  left_after tails l e "" /\ forall t t', left_after tails l e t -> inside t' t -> left_after tails l e t'.
Proof.
  intros Ht. destruct e as [error|]; cbn; unfold nothing_left.
  - split; [exists "", l; split; [done|]; exists ""; split; [done|apply inside_refl]|].
    intros t t' (part & rest & E & (t0 & H0 & Hin)) Ht'. exists part, rest. split; [done|].
    exists t0. split; [done|]. by eapply inside_trans.
  - split; [done|]. intros t t' -> (p & s & E). symmetry in E. destruct p; [|done]. cbn in E. by destruct t'.
Qed.

(** The successor writes, all of it or a beginning. *)
Lemma good_write yes no refused tails p l part rest k e x ts tp ss a b c :
  good yes no refused tails (mkSys p (WriteLine l k) ts tp ss a b c) -> l = part ++ rest ->
  (x = Full l /\ e = None) \/ (x = Cut part /\ exists error, e = Some error) ->
  exists yes' no' refused' tails', good yes' no' refused' tails' (mkSys p (k e) ts (put tp x) ss a b c).
Proof.
  intros [Hp Hq Hy Hn Hr Hpk Htl [Ht0 Htc] Hs Hh] Hl Hx. cbn in *. destruct Hq as (H1 & H2 & H3).
  set (refused' := refused \/ exists q, readable tails l q /\ says false q).
  assert (forall t x', tails t -> x' = Full (t ++ l) \/ x' = Cut (t ++ part) -> packet_ok c refused' x') as Hok.
  { intros t x' Ht Hx' l' q Hl' Hq. assert (readable tails l q) as Hrd.
    { exists t. split; [done|]. destruct Hx' as [-> | ->]; injection Hl' as <-; [done|].
      rewrite Hl, string_app_assoc. eapply inside_trans; [exact Hq|apply inside_start]. }
    split; [by apply H1|]. intros Hsays. right. by exists q. }
  assert (forall t, tails t -> x = Cut part -> left_after tails l e (t ++ part)) as Hleft.
  { intros t Ht ->. destruct Hx as [[? _]|(_ & error & ->)]; [done|]. exists part, rest. split; [done|].
    exists t. split; [done|apply inside_refl]. }
  exists yes, no, refused', (left_after tails l e). split; cbn; try done; [unfold refused'; tauto| | | |by apply left_after_closed].
  - intros [?|(q & Hq & Hsays)]; [auto|]. by apply (H1 q Hq).
  - assert (Forall (packet_ok c refused') tp) as Hpk'.
    { eapply Forall_impl; [exact Hpk|]. intros y. apply packet_ok_mono; [done|by left]. }
    destruct (put_spec tp x) as [->|(tp' & t & -> & ->)]; rewrite Forall_app in *.
    + split; [done|]. constructor; [|constructor].
      apply (Hok "" x Ht0). destruct Hx as [[-> _]|[-> _]]; [by left|by right].
    + destruct Hpk' as [Hpk' _]. split; [done|]. rewrite last_snoc in Htl.
      destruct Hx as [[-> _]|[-> _]]; apply Forall_singleton; apply (Hok t); auto.
  - intros t Hlast. destruct (put_spec tp x) as [E|(tp' & t' & -> & E)]; rewrite E in Hlast.
    + rewrite last_snoc in Hlast. injection Hlast as Hlast. destruct Hx as [[-> _]|[-> Hx]]; [done|].
      injection Hlast as <-. by apply (Hleft "").
    + rewrite last_snoc in Htl. destruct Hx as [[-> _]|[-> Hx]]; cbn [glue] in Hlast; rewrite last_snoc in Hlast; [done|].
      injection Hlast as <-. apply Hleft; auto.
Qed.

(** A wait that runs out after a beginning of a packet. *)
Lemma good_timeout_inside yes no refused tails p l x y k ts tp ss a b c q :
  text_of p = Some l -> l = x ++ y ->
  good yes no refused tails (mkSys (ReadLine k) q ts (p :: tp) ss a b c) ->
  exists yes' no' refused' tails', good yes' no' refused' tails' (mkSys (k TimedOut) q ts (unread_part p y :: tp) ss a b c).
Proof.
  intros Hl Hxy Hg. pose proof (good_packets _ _ _ _ _ Hg) as Hpk. apply Forall_cons in Hpk as [Hok Hpk].
  do 4 eexists. eapply good_read; [exact Hg| | |done|done].
  - constructor; [|done]. eapply (packet_ok_part _ _ p _ l y); [exact Hok|exact Hl|by destruct p|].
    rewrite Hxy. apply inside_end.
  - intros t Ht. pose proof (good_tail _ _ _ _ _ Hg) as Htl. cbn [to_pred] in Htl.
    destruct tp as [|z tp]; [|by apply Htl]. destruct p; cbn in Hl, Ht; try done.
    injection Hl as ->. injection Ht as <-. eapply (proj2 (good_tails _ _ _ _ _ Hg)); [by apply Htl|].
    rewrite Hxy. apply inside_end.
Qed.

Lemma good_step yes no refused tails s s' :
  good yes no refused tails s -> step s s' ->
  exists yes' no' refused' tails', good yes' no' refused' tails' s'.
Proof.
  intros Hg Hst. destruct Hst.
  - eapply good_pred_move; [exact Hg|apply (good_pred _ _ _ _ _ Hg)|done|by left].
  - eapply good_pred_move; [exact Hg|apply (good_pred _ _ _ _ _ Hg)|done|].
    intros [token [?|?]%put_descriptor]; [left; by exists token|done].
  - eapply good_pred_move; [exact Hg|apply (good_pred _ _ _ _ _ Hg)|done|].
    intros [token [?|?]%put_descriptor]; [left; by exists token|done].
  - by eapply good_read_packet.
  - by eapply good_read_packet.
  - eapply good_read_nothing; [exact Hg|]. by intros yes' []%got_nothing.
  - eapply good_read_nothing; [exact Hg|]. by intros ? [].
  - by eapply good_timeout_inside.
  - eapply good_read_nothing; [exact Hg|]. by intros ? [].
  - eapply good_pred_move; [exact Hg|apply (good_pred _ _ _ _ _ Hg)|done|by right].
  - eapply good_pred_move; [exact Hg|apply (good_pred _ _ _ _ _ Hg)|done|by left].
  - eapply (good_write _ _ _ _ _ l l ""); [exact Hg|by rewrite string_app_nil_r|by left].
  - eapply good_write; [exact Hg|done|right; by eauto].
  - eapply good_succ_look; [exact Hg|intros Hq; apply Hq|set_solver].
  - eapply good_succ_look; [exact Hg|intros Hq; apply Hq|set_solver].
  - eapply good_succ_look; [exact Hg|intros Hq; apply Hq|set_solver].
  - eapply good_succ_look; [exact Hg|intros Hq; apply Hq|set_solver].
  - destruct (good_succ _ _ _ _ _ Hg) as [Hq _]. cbn in Hq.
    eapply good_succ_move; [exact Hg|apply Hq|done|done|apply (good_refused _ _ _ _ _ Hg)|right; exists token; by left|set_solver].
  - eapply good_succ_look; [exact Hg|intros [_ Hq]; apply Hq|set_solver].
  - eapply good_succ_look; [exact Hg|intros [_ Hq]; apply Hq|set_solver].
  - eapply good_succ_look; [exact Hg|intros [_ Hq]; apply Hq|set_solver].
  - eapply good_succ_look; [exact Hg|intros Hq; apply Hq|set_solver].
  - destruct (good_succ _ _ _ _ _ Hg) as (Hb & Hc & Hnr & Hq & _). cbn in *.
    eapply good_succ_move; [exact Hg|subst b; apply Hq|done|done|done|by left|set_solver].
  - destruct (good_succ _ _ _ _ _ Hg) as (Hb & Hc & Hnr & _ & Hq). cbn in *.
    eapply good_succ_move; [exact Hg|subst b c; apply Hq|done|by subst|by subst|by left|set_solver].
  - by eapply good_succ_look; [exact Hg| |].
Qed.

Lemma init_good m support self ss : good False False False nothing_left (init m support self ss).
Proof.
  split; cbn [init fd_sent fd_held fd_seated pred succ to_pred to_succ]; try done.
  - apply send_session_answers.
  - apply serve_keeps.
  - apply (left_after_closed nothing_left "" None). done.
  - intros [[? Hx]|Hx]; [by apply elem_of_nil in Hx|discriminate].
Qed.

Lemma run_good m support self ss s :
  rtc step (init m support self ss) s -> exists yes no refused tails, good yes no refused tails s.
Proof.
  intros Hrun. assert (exists yes no refused tails, good yes no refused tails (init m support self ss)) as Hi
    by (do 4 eexists; apply init_good).
  induction Hrun as [|x y z Hxy _ IH]; [done|]. apply IH. destruct Hi as (? & ? & ? & ? & Hg). by eapply good_step.
Qed.

(** *** A whole hand-off, when nothing breaks *)

Lemma token_sent {A} m (k : option string -> Proc A) :
  (String.length (token_of m) <= HANDOFF_TOKEN_MAX_BYTES)%nat ->
  send_master_fd (token_of m) k = SendFd (token_of m) k.
Proof.
  intros Hl. unfold send_master_fd. by rewrite (proj2 (Nat.ltb_ge _ _) Hl).
Qed.

Lemma receive_sent_metadata m :
  version m = HANDOFF_WIRE_VERSION -> receive_metadata (Got (encode_metadata m)) = inr m.
Proof.
  intros Hv. unfold receive_metadata. by rewrite trim_metadata, metadata_not_empty, decode_encode_metadata, Hv.
Qed.

Lemma receive_sent_descriptor m : receive_descriptor m (inr (token_of m)) = None.
Proof. unfold receive_descriptor. by rewrite bool_decide_true. Qed.

(** The ends agree on everything, and both are answered. *)
Definition done_with (m : HandoffMetadata) (support : PrecommitSupport) (ss : Sessions) : Sys :=
  mkSys (Ret (inr (adopted_here own_pid own_start), support))
    (Ret (mkServed (Some (runtime_key m)) true None false)) [] [] ss true true true.

#[local] Arguments send_master_fd : simpl never.
#[local] Arguments token_of : simpl never.
#[local] Arguments append : simpl never.
#[local] Arguments receive_metadata : simpl never.
#[local] Arguments receive_descriptor : simpl never.

Lemma honest_run m support procs ss ss' :
  support <> Silent -> version m = HANDOFF_WIRE_VERSION -> (String.length (token_of m) <= HANDOFF_TOKEN_MAX_BYTES)%nat ->
  seat_answer true procs ss m = None -> adopt_session procs None m ss = (None, ss') ->
  rtc step (init m support false ss) (done_with m (if precommit_verdict m then Speaks else support) ss').
Proof.
  intros Hsup Hv Hl Hs Ha. unfold init, send_session, serve_connection, serve_handoff, commit.
  eapply rtc_l; [apply (pred_connect _ None)|]. cbn.
  eapply rtc_l; [apply pred_write|]. cbn.
  eapply rtc_l; [by eapply succ_read|]. cbn. rewrite receive_sent_metadata by done.
  eapply rtc_l; [apply (succ_seat true procs)|]. rewrite Hs. rewrite (bool_decide_false _ Hsup). destruct (precommit_verdict m); cbn.
  1: eapply rtc_l; [apply succ_write|]; cbn; eapply rtc_l; [by eapply pred_read|]; cbn;
     rewrite trim_verdict, verdict_not_empty, decode_encode_verdict; cbn.
  all: rewrite token_sent by done; eapply rtc_l; [apply pred_send|]; cbn;
    eapply rtc_l; [apply succ_recv|]; cbn; rewrite receive_sent_descriptor; cbn;
    (eapply rtc_l; [by eapply succ_adopts|]); cbn;
    eapply rtc_l; [apply succ_write|]; cbn; (eapply rtc_l; [by eapply pred_read|]); cbn;
    rewrite trim_ack, ack_not_empty, acks_are_not, decode_encode_ack; reflexivity.
Qed.

(** The wait for the verdict runs out after its part [x], and the rest [y] is read as the ack. *)
Lemma cut_run m procs ss ss' x y :
  version m = HANDOFF_WIRE_VERSION -> (String.length (token_of m) <= HANDOFF_TOKEN_MAX_BYTES)%nat ->
  precommit_verdict m = true ->
  seat_answer true procs ss m = None -> adopt_session procs None m ss = (None, ss') ->
  encode_verdict verdict_proceed = x ++ y -> x <> "" ->
  str_is_empty (trim y) = false -> line_is_a_precommit_verdict (trim y) = false -> decode_ack (trim y) = None ->
  rtc step (init m Unknown false ss)
    (mkSys (Ret (inl (mkError true false ("successor sent an unreadable ack: " ++ trim y)), OneSilence))
       (Ret (mkServed (Some (runtime_key m)) true None false)) []
       [Full (encode_ack (adopted_here own_pid own_start))] ss' true true true).
Proof.
  intros Hv Hl Hpv Hs Ha Hxy Hx Hy1 Hy2 Hy3. unfold init, send_session, serve_connection, serve_handoff.
  eapply rtc_l; [apply (pred_connect _ None)|]. cbn.
  eapply rtc_l; [apply pred_write|]. cbn.
  eapply rtc_l; [by eapply succ_read|]. cbn. rewrite receive_sent_metadata by done.
  eapply rtc_l; [apply (succ_seat true procs)|]. rewrite Hs, Hpv. cbn.
  eapply rtc_l; [apply succ_write|]. cbn.
  eapply rtc_l; [by eapply pred_timeout_inside|]. cbn. unfold commit. rewrite token_sent by done.
  eapply rtc_l; [apply pred_send|]. cbn.
  eapply rtc_l; [apply succ_recv|]. cbn. rewrite receive_sent_descriptor. cbn.
  eapply rtc_l; [by eapply succ_adopts|]. cbn.
  eapply rtc_l; [apply succ_write|]. cbn.
  eapply rtc_l; [by eapply pred_read|]. cbn. by rewrite Hy1, Hy2, Hy3.
Qed.

(** The verdict breaks after its part [x], and the refusal that follows runs on from it. *)
Lemma glued_run m procs ss error x y :
  version m = HANDOFF_WIRE_VERSION -> precommit_verdict m = true -> seat_answer true procs ss m = None ->
  encode_verdict verdict_proceed = x ++ y ->
  let reason := "writing handoff verdict: " ++ error in
  let line := x ++ encode_ack (ack_refused reason) in
  str_is_empty (trim line) = false -> decode_verdict (trim line) = None ->
  rtc step (init m Unknown false ss)
    (mkSys (Ret (inl (mkError false false ("successor sent an unreadable pre-commit verdict: " ++ trim line)), Unknown))
       (Ret (mkServed (Some (runtime_key m)) false (Some reason) true)) [] [] ss false false false).
Proof.
  intros Hv Hpv Hs Hxy reason line Hl1 Hl2. unfold init, send_session, serve_connection, serve_handoff.
  eapply rtc_l; [apply (pred_connect _ None)|]. cbn.
  eapply rtc_l; [apply pred_write|]. cbn.
  eapply rtc_l; [by eapply succ_read|]. cbn. rewrite receive_sent_metadata by done.
  eapply rtc_l; [apply (succ_seat true procs)|]. rewrite Hs, Hpv. cbn.
  eapply rtc_l; [by eapply (succ_write_broken _ x y _ error)|]. cbn.
  eapply rtc_l; [apply succ_write|]. cbn.
  eapply rtc_l; [by eapply pred_read|]. cbn. fold reason line. by rewrite Hl1, Hl2.
Qed.

(** What the ends may say of the descriptor in a state of the run. *)
Definition agree (s : Sys) : Prop :=
  (forall ack final, pred s = Ret (inr ack, final) -> adopted ack = true /\ fd_sent s = true /\ fd_seated s = true) /\
  (forall e final, pred s = Ret (inl e, final) ->
     committed e = fd_sent s /\
     (committed e = false -> fd_held s = false /\ fd_seated s = false) /\
     (refused e = true -> fd_seated s = false)) /\
  (forall served, succ s = Ret served ->
     served_adopted served = fd_seated s /\ (refused_before_commit served = true -> fd_held s = false)).

Lemma ends_agree m support self ss s : rtc step (init m support self ss) s -> agree s.
Proof.
  intros Hrun. destruct (run_good _ _ _ _ _ Hrun) as (yes & no & refused' & tails & [Hp Hq Hy Hn Hr _ _ _ Hs Hh]).
  assert (fd_sent s = false -> fd_held s = false /\ fd_seated s = false) as Hkept.
  { intros Hf. assert (fd_held s = false) as Eh.
    { apply not_true_iff_false. intros Hx. rewrite Hs in Hf; [discriminate|by right]. }
    split; [done|]. apply not_true_iff_false. intros Hx. rewrite Hh in Eh by done. discriminate. }
  split_and!.
  - intros ack final He. rewrite He in Hp. destruct Hp as (? & ? & ?). auto.
  - intros e final He. rewrite He in Hp. destruct Hp as (Hc & Href). split; [done|]. rewrite Hc.
    split; [done|]. intros Hre. destruct (fd_sent s) eqn:Es; [auto|by apply Hkept].
  - intros served He. rewrite He in Hq. exact Hq.
Qed.

(** C9: in every state a hand-off can reach, through any interleaving, timeout, broken write or
    broken read, with the successor's sessions changing under it: a predecessor that was told
    "adopted" gave its terminal away, and it is seated; one that was told an error knows by
    [committed] whether its descriptor left, and when it did not, nobody else holds or seats it;
    a refusal it was told, before or after the commit point, leaves the terminal unseated for good;
    and the successor's record says "adopted" exactly when the terminal is seated, and "refused
    before the commit point" only when it never held the descriptor. *)
Theorem handoff_agreement m support self ss s :
  rtc step (init m support self ss) s ->
  (forall ack final, pred s = Ret (inr ack, final) -> adopted ack = true /\ fd_sent s = true /\ fd_seated s = true) /\
  (forall e final, pred s = Ret (inl e, final) ->
     committed e = fd_sent s /\
     (committed e = false -> fd_held s = false /\ fd_seated s = false) /\
     (refused e = true -> fd_seated s = false)) /\
  (forall served, succ s = Ret served ->
     served_adopted served = fd_seated s /\ (refused_before_commit served = true -> fd_held s = false)).
Proof. apply ends_agree. Qed.

End Together.

(** ** The seat rule never takes a terminal from anyone *)

Lemma seat_answer_ready procs ss m :
  seat_answer true procs ss m = None <->
  seat_verdict procs ss (runtime_key m) (shell_pid m) (shell_start_time m) <> Conflict.
Proof. unfold seat_answer. cbn. by destruct (seat_verdict _ _ _ _ _). Qed.

Lemma seat_verdict_spares procs ss key pid start r :
  ss !! key = Some r -> running r = true -> is_a_stand_in r = false ->
  seat_verdict procs ss key pid start = AlreadySeated \/ seat_verdict procs ss key pid start = Conflict.
Proof. intros Hk Hrun Hst. unfold seat_verdict. rewrite Hk, Hrun, Hst. cbn. case_match; auto. Qed.

Lemma already_seated_inv procs ss key pid start :
  seat_verdict procs ss key pid start = AlreadySeated ->
  exists r, ss !! key = Some r /\ running r = true /\ process_id r = Some pid /\ procs pid = Some start.
Proof.
  unfold seat_verdict. destruct (ss !! key) as [r|]; [|done]. destruct (running r) eqn:Er; [|done]. cbn.
  destruct (bool_decide _ && bool_decide _) eqn:Eb; [|by destruct (is_a_stand_in r)].
  apply andb_true_iff in Eb as [?%bool_decide_eq_true ?%bool_decide_eq_true]. by exists r.
Qed.

(** Adopting a terminal never takes one away: a running child that is not a stand-in keeps its
    key, and so does every other key, whatever the outcome.  When it succeeds the key runs the
    process handed over.  And the answer given before the descriptor moves is the answer after it:
    a ready successor that let it come, with no change of its sessions between, fails only if no
    runtime can be built around it, and one that refused would have refused it, unchanged. *)
Theorem adoption_takes_nothing procs installs m ss :
  let key := runtime_key m in
  let '(error, ss') := adopt_session procs installs m ss in
  (forall k r, ss !! k = Some r -> (k <> key \/ (running r = true /\ is_a_stand_in r = false)) -> ss' !! k = Some r) /\
  (error = None -> exists r, ss' !! key = Some r /\ running r = true /\ process_id r = Some (shell_pid m)) /\
  (seat_answer true procs ss m = None -> error = None \/ error = installs) /\
  (forall reason, seat_answer true procs ss m = Some reason -> error = Some reason /\ ss' = ss).
Proof.
  cbn. pose proof (seat_verdict_spares procs ss (runtime_key m) (shell_pid m) (shell_start_time m)) as Hsp.
  pose proof (already_seated_inv procs ss (runtime_key m) (shell_pid m) (shell_start_time m)) as Hal.
  unfold adopt_session, seat_answer. cbn. destruct (seat_verdict _ _ _ _ _) eqn:Ev.
  1,3: destruct installs as [e|]; (split; [|split; [|by split; [auto|]]]); [|done| |];
    [intros k r Hk [Hne|[? ?]]; [by rewrite ?lookup_insert_ne, lookup_delete_ne by done|];
     destruct (decide (k = runtime_key m)) as [->|]; [by destruct (Hsp r)|];
     by rewrite ?lookup_insert_ne, lookup_delete_ne by done..|].
  1,2: intros _; eexists; by rewrite lookup_insert_eq.
  - split; [done|]. split; [intros _; destruct (Hal eq_refl) as (r & ? & ? & ? & _); by exists r|by split; [auto|]].
  - split; [done|]. split; [done|]. split; [done|]. by intros ? [= <-].
Qed.

(** ** An encoding that keeps the laws *)

Module Tagged.

#[local] Instance metadata_countable : EqDecision HandoffMetadata.
Proof. solve_decision. Defined.
#[local] Instance verdict_eq_dec : EqDecision HandoffVerdict.
Proof. solve_decision. Defined.
#[local] Instance ack_eq_dec : EqDecision HandoffAck.
Proof. solve_decision. Defined.
#[local] Instance metadata_count : Countable HandoffMetadata.
Proof.
  refine (inj_countable'
    (fun m => (version m, runtime_key m, launch_command m, cwd m, cols m, rows m,
               (shell_pid m, shell_start_time m, screen m, precommit_verdict m)))
    (fun '(a, b, c, d, e, f, (g, h, i, j)) => mkMetadata a b c d e f g h i j) _).
  by intros [].
Defined.
#[local] Instance verdict_count : Countable HandoffVerdict.
Proof. refine (inj_countable' (fun v => (proceed v, verdict_error v)) (fun '(a, b) => mkVerdict a b) _). by intros []. Defined.
#[local] Instance ack_count : Countable HandoffAck.
Proof.
  refine (inj_countable' (fun a => (adopted a, ack_error a, adopter_pid a, adopter_start_time a))
    (fun '(a, b, c, d) => mkAck a b c d) _). by intros [].
Defined.

Fixpoint bits (p : positive) : string :=
  match p with xH => "}" | xO q => String "0" (bits q) | xI q => String "1" (bits q) end.

Fixpoint of_bits (s : string) : option positive :=
  match s with
  | "" => None
  | String c s' =>
      if Ascii.eqb c "0" then xO <$> of_bits s'
      else if Ascii.eqb c "1" then xI <$> of_bits s'
      else if Ascii.eqb c "}" && str_is_empty s' then Some xH else None
  end.

Definition tag `{Countable A} (c : ascii) (a : A) : string := String c (bits (encode a)).

Definition untag `{Countable A} (c : ascii) (s : string) : option A :=
  match s with "" => None | String d s' => if Ascii.eqb c d then of_bits s' ≫= decode else None end.

Definition starts_with (c : ascii) (s : string) : bool :=
  match s with "" => false | String d _ => Ascii.eqb c d end.

Lemma of_bits_bits p : of_bits (bits p) = Some p.
Proof. induction p as [q IH|q IH|]; cbn; by rewrite ?IH. Qed.

Lemma untag_tag `{Countable A} c (a : A) : untag c (tag c a) = Some a.
Proof. unfold untag, tag. by rewrite Ascii.eqb_refl, of_bits_bits; cbn; rewrite decode_encode. Qed.

Lemma bits_are_plain p : str_forallb plain (bits p) = true.
Proof. by induction p. Qed.

Lemma bits_no_letter p x y : bits p = x ++ String "a" y -> False.
Proof.
  revert x. induction p as [q IH|q IH|]; intros [|c x]; cbn; intros Hb; try discriminate Hb.
  1,2: injection Hb as _ Hb; by eapply IH.
  injection Hb as _ Hb. by destruct x.
Qed.

Lemma bits_cut p x y : bits p = x ++ y -> y <> "" -> of_bits x = None.
Proof.
  revert x. induction p as [q IH|q IH|]; intros [|c x]; cbn; intros Hb Hy; try done;
    injection Hb as <- Hb; cbn; [by rewrite (IH x)..|].
  destruct x; [|done]. cbn in Hb. by subst.
Qed.

Lemma untag_part `{Countable A} c p part :
  fragment part (String c (bits p)) -> untag (A:=A) "a" part = None.
Proof.
  intros (x & y & Hl & Hne). destruct part as [|d part]; [done|]. unfold untag.
  destruct (Ascii.eqb_spec "a" d) as [<-|]; [|done]. destruct x as [|e x]; cbn in Hl; injection Hl as Hc Hb.
  - subst c. rewrite (bits_cut p part y Hb); [done|]. intros ->. apply Hne. f_equal.
    by rewrite string_app_nil_r in Hb.
  - by apply bits_no_letter in Hb.
Qed.

Lemma plain_part part line : str_forallb plain line = true -> fragment part line -> trim part = part.
Proof.
  intros Hl (x & y & -> & _). apply trim_plain. rewrite !str_forallb_app in Hl.
  by apply andb_true_iff in Hl as [_ [? _]%andb_true_iff].
Qed.

Lemma tag_is_plain `{Countable A} c (a : A) : plain c = true -> str_forallb plain (tag c a) = true.
Proof. intros Hc. cbn. by rewrite Hc, bits_are_plain. Qed.

#[export] Program Instance tagged_wire : Wire := {
  encode_metadata := tag "m"; decode_metadata := untag "m";
  encode_verdict := tag "v"; decode_verdict := untag "v";
  encode_ack := tag "a"; decode_ack := untag "a";
  line_is_a_precommit_verdict := starts_with "v" }.
Next Obligation. intros. apply untag_tag. Qed.
Next Obligation. intros. apply untag_tag. Qed.
Next Obligation. intros. apply untag_tag. Qed.
Next Obligation. done. Qed.
Next Obligation. done. Qed.
Next Obligation. done. Qed.
Next Obligation. done. Qed.
Next Obligation. done. Qed.
Next Obligation. intros. by apply trim_plain, tag_is_plain. Qed.
Next Obligation. intros. by apply trim_plain, tag_is_plain. Qed.
Next Obligation. intros. by apply trim_plain, tag_is_plain. Qed.
Next Obligation.
  intros part v Hp. rewrite (plain_part part (tag "v" v)) by (done || by apply tag_is_plain). by eapply untag_part.
Qed.
Next Obligation.
  intros part a Hp. rewrite (plain_part part (tag "a" a)) by (done || by apply tag_is_plain). by eapply untag_part.
Qed.

Next Obligation.
  cbn. intros part v a start rest (x & y & Hl) Ha Hne. destruct part as [|d part]; [by right|left].
  assert (str_forallb plain (String d part) = true /\ d <> "a"%char) as [Hplain Hd].
  { split.
    - pose proof (tag_is_plain "v" v eq_refl) as Hp. rewrite Hl, !str_forallb_app in Hp.
      by apply andb_true_iff in Hp as [_ [? _]%andb_true_iff].
    - intros ->. destruct x as [|c x]; [discriminate Hl|]. injection Hl as _ Hl. by apply bits_no_letter in Hl. }
  rewrite trim_plain.
  - change (untag (A:=HandoffAck) "a" (String d (part ++ start)) = None). unfold untag.
    by destruct (Ascii.eqb_spec "a" d) as [<-|].
  - rewrite str_forallb_app, Hplain. cbn [andb].
    pose proof (tag_is_plain "a" a eq_refl) as Hp. rewrite Ha, str_forallb_app in Hp. by apply andb_true_iff in Hp as [? _].
Qed.

(** ** A hand-off of one shell *)

Definition a_shell : HandoffMetadata :=
  mkMetadata 1 "local://a" "bash" None 80 24 4242 77 "" true.

Definition seated_shell : Sessions := <["local://a" := mkRuntime true (Some 4242%N) false]> ∅.

Lemma handoff_agreement_witness :
  rtc step (init 9000 (Some 5%N) a_shell Unknown false ∅) (done_with 9000 (Some 5%N) a_shell Speaks seated_shell) /\
  fd_seated (done_with 9000 (Some 5%N) a_shell Speaks seated_shell) = true.
Proof.
  assert (rtc step (init 9000 (Some 5%N) a_shell Unknown false ∅)
            (done_with 9000 (Some 5%N) a_shell Speaks seated_shell)) as Hrun
    by (apply (honest_run 9000 (Some 5%N) a_shell Unknown (fun _ => None)); [done|reflexivity|vm_compute; lia|reflexivity|reflexivity]).
  split; [exact Hrun|].
  by apply (proj1 (handoff_agreement 9000 (Some 5%N) a_shell Unknown false ∅ _ Hrun) (adopted_here 9000 (Some 5%N)) Speaks).
Defined.

(** A wait for the verdict that runs out inside the line drops the part it had read; the rest of
    that line is then read where the ack was due.  The shell is seated and acked, and the predecessor
    reports an unreadable ack. *)
Example timeout_inside_the_verdict :
  exists s e served,
    rtc step (init 9000 (Some 5%N) a_shell Unknown false ∅) s /\
    pred s = Ret (inl e, OneSilence) /\ message e = "successor sent an unreadable ack: }" /\
    succ s = Ret served /\ served_adopted served = true.
Proof.
  do 3 eexists. split.
  - apply (cut_run 9000 (Some 5%N) a_shell (fun _ => None) ∅ seated_shell "v1" "}");
      first [reflexivity | discriminate | vm_compute; lia].
  - cbn. split_and!; reflexivity.
Qed.

(** A verdict whose write breaks is followed at once by the refusal, and the two read as one line: the
    predecessor keeps the shell, but is told neither the reason nor that it was refused. *)
Example refusal_after_a_broken_verdict :
  exists s e served,
    rtc step (init 9000 (Some 5%N) a_shell Unknown false ∅) s /\
    pred s = Ret (inl e, Unknown) /\ committed e = false /\ refused e = false /\
    succ s = Ret served /\ refused_before_commit served = true /\ fd_sent s = false.
Proof.
  do 3 eexists. split.
  - apply (glued_run 9000 (Some 5%N) a_shell (fun _ => None) ∅ "timed out" "v1" "}"); vm_compute; reflexivity.
  - cbn. split_and!; reflexivity.
Qed.

End Tagged.
