(* ===== verification/OwnershipLedger.v ===== *)
(** The ledger of who holds which agent session across a daemon handoff
    (server/ownership_ledger.rs).

    The file is absent, unreadable or a list of records; [file_len] is the length its bytes
    have, [process_is_alive] the probe of [/proc].  Each call is given whether its writes and
    renames land, which no caller but the writers looks at. *)
From S2P Require Import Prelude RustStr AgentRegistry.
#[local] Open Scope N_scope.

Definition ADOPTED_RECORD_TTL_MS : N := 60 * 60 * 1000.
Definition DIED_WITH_ME_TTL_MS : N := 5 * 60 * 1000.
Definition LEDGER_MAX_BYTES : N := 4 * 1024 * 1024.

Inductive OwnershipDisposition : Type :=
| Adopted (by_pid by_start_time : N)
| DiedWithMe (store_session_id : string) (resume_argv : list string).

Record OwnershipRecord : Type := mkRecord {
  kind : SessionKind;
  session_id : string;
  runtime_key : string;
  disposition : OwnershipDisposition;
  written_at_ms : N;
  written_by_pid : N;
  from_version : string
}.

Inductive LedgerAnswer : Type :=
| AnswerAdopted (by_pid : N)
| AnswerDiedWithMe (store_session_id : string) (resume_argv : list string)
| NoAnswer.

Definition answer_word (a : LedgerAnswer) : string :=
  match a with
  | AnswerAdopted _ => "adopted" | AnswerDiedWithMe _ _ => "died_with_me" | NoAnswer => "no_answer"
  end.

Inductive LedgerFile : Type := Absent | Unreadable (len : N) | Records (rs : list OwnershipRecord).

Section ledger.
Context (file_len : list OwnershipRecord -> N) (process_is_alive : N -> bool).

Definition record_is_still_true (r : OwnershipRecord) (now : N) : bool :=
  let ttl := match disposition r with
             | Adopted _ _ => ADOPTED_RECORD_TTL_MS | DiedWithMe _ _ => DIED_WITH_ME_TTL_MS end in
  let age_ok := now - written_at_ms r <=? ttl in
  match disposition r with
  | Adopted by_pid _ => age_ok && process_is_alive by_pid
  | DiedWithMe _ _ => age_ok
  end.

(** What a read answers, and the file after it: an oversize file is set aside unread. *)
Definition load (ok : bool) (f : LedgerFile) : list OwnershipRecord * LedgerFile :=
  match f with
  | Absent => ([], f)
  | Unreadable len => ([], if (LEDGER_MAX_BYTES <? len) && ok then Absent else f)
  | Records rs => if LEDGER_MAX_BYTES <? file_len rs then ([], if ok then Absent else f) else (rs, f)
  end.

Definition save (ok : bool) (f : LedgerFile) (rs : list OwnershipRecord) : LedgerFile :=
  if ok then Records rs else f.

Definition write_records (ok : bool) (f : LedgerFile) (writer_pid : N) (records : list OwnershipRecord)
    : LedgerFile :=
  let '(existing, f) := load ok f in
  let merged := List.filter (fun r => negb (written_by_pid r =? writer_pid)) existing in
  save ok f (merged ++ records).

Definition record_handoff := write_records.

(** The keys of [records] hold the key of [r]. *)
Definition keyed_among (records : list OwnershipRecord) (r : OwnershipRecord) : bool :=
  existsb (fun s => bool_decide (kind s = kind r) && String.eqb (session_id s) (session_id r)) records.

Definition merge_exit_records (existing dying : list OwnershipRecord) (writer_pid : N)
    : list OwnershipRecord :=
  List.filter (fun r => negb (written_by_pid r =? writer_pid) || negb (keyed_among dying r)) existing ++ dying.

Definition save_exit_merge (ok : bool) (f : LedgerFile) (dying : list OwnershipRecord) (writer_pid : N)
    : LedgerFile :=
  let '(existing, f) := load ok f in save ok f (merge_exit_records existing dying writer_pid).

Definition prune (ok : bool) (f : LedgerFile) (stale : list OwnershipRecord) : LedgerFile :=
  let '(existing, f) := load ok f in
  save ok f (List.filter (fun r => negb (keyed_among stale r)) existing).

Definition asks_for (k : SessionKind) (id : string) (r : OwnershipRecord) : bool :=
  bool_decide (kind r = k) && String.eqb (session_id r) id.

(** The loop of [lookup]: the newest true record so far, the first of equals. *)
Fixpoint newest_true (k : SessionKind) (id : string) (now : N) (newest : option OwnershipRecord)
    (rs : list OwnershipRecord) : option OwnershipRecord :=
  match rs with
  | [] => newest
  | r :: rs' =>
    if negb (record_is_still_true r now) || negb (asks_for k id r) then newest_true k id now newest rs'
    else newest_true k id now
           (match newest with
            | Some current => if written_at_ms r <=? written_at_ms current then Some current else Some r
            | None => Some r
            end) rs'
  end.

Definition answer_of (r : OwnershipRecord) : LedgerAnswer :=
  match disposition r with
  | Adopted by_pid _ => AnswerAdopted by_pid
  | DiedWithMe store_session_id resume_argv => AnswerDiedWithMe store_session_id resume_argv
  end.

Definition lookup (ok : bool) (f : LedgerFile) (now : N) (k : SessionKind) (id : string)
    : LedgerFile * LedgerAnswer :=
  let '(rs, f) := load ok f in
  let stale := List.filter (fun r => negb (record_is_still_true r now)) rs in
  let answer := match newest_true k id now None rs with Some r => answer_of r | None => NoAnswer end in
  (match stale with [] => f | _ => prune ok f stale end, answer).

Definition clear_satisfied (ok : bool) (f : LedgerFile) (k : SessionKind) (id : string) : LedgerFile :=
  let '(rs, f) := load ok f in save ok f (List.filter (fun r => negb (asks_for k id r)) rs).

Definition handoff_ownership_records (identity : list (string * SessionKind * string))
    (adopted : list (string * (N * N))) (now writer_pid : N) (version : string) : list OwnershipRecord :=
  omap (fun '(key, (by_pid, by_start_time)) =>
          '(_, k, id) ← List.find (fun '(key', _, _) => String.eqb key' key) identity;
          Some (mkRecord k id key (Adopted by_pid by_start_time) now writer_pid version)) adopted.

Definition died_with_me_records (identity : list (string * SessionKind * string * list string))
    (now writer_pid : N) (version : string) : list OwnershipRecord :=
  map (fun '(key, k, id, argv) => mkRecord k id key (DiedWithMe id argv) now writer_pid version) identity.

(** * Lemmas *)

Lemma asks_for_spec k id r : asks_for k id r = true <-> kind r = k /\ session_id r = id.
Proof. unfold asks_for. by rewrite andb_true_iff, bool_decide_eq_true, String.eqb_eq. Qed.

Lemma keyed_among_spec rs r :
  keyed_among rs r = true <-> exists s, s ∈ rs /\ kind s = kind r /\ session_id s = session_id r.
Proof.
  unfold keyed_among. rewrite existsb_exists. split; intros (s & Hs & H); exists s;
    rewrite andb_true_iff, bool_decide_eq_true, String.eqb_eq, list_elem_of_In in *; done.
Qed.

(** The records a lookup may answer from. *)
Definition answers (k : SessionKind) (id : string) (now : N) (r : OwnershipRecord) : Prop :=
  record_is_still_true r now = true /\ kind r = k /\ session_id r = id.

Lemma newest_true_spec k id now newest rs :
  match newest_true k id now newest rs with
  | None => newest = None /\ forall r, r ∈ rs -> ~ answers k id now r
  | Some r0 => (newest = Some r0 \/ (r0 ∈ rs /\ answers k id now r0))
               /\ (forall r, newest = Some r \/ (r ∈ rs /\ answers k id now r) ->
                     written_at_ms r <= written_at_ms r0)
  end.
Proof.
  revert newest. induction rs as [|r rs IH]; intros newest; cbn [newest_true].
  - destruct newest; [|split; [done|intros ? ?%elem_of_nil; done]]. split; [by left|].
    intros r [[= ->]|[?%elem_of_nil _]]; [lia|done].
  - destruct (negb (record_is_still_true r now) || negb (asks_for k id r)) eqn:Hskip.
    + assert (~ answers k id now r) as Hr.
      { intros (H1 & H2). rewrite H1, (proj2 (asks_for_spec k id r) H2) in Hskip. done. }
      specialize (IH newest). destruct (newest_true k id now newest rs) as [r0|].
      * destruct IH as [H1 H2]. split; [destruct H1 as [?|[? ?]]; [by left|right; split; [by right|done]]|].
        intros s [?|[[->|?]%elem_of_cons ?]]; [apply H2; by left|done|apply H2; by right].
      * destruct IH as [H1 H2]. split; [done|]. intros s [->|?]%elem_of_cons; [done|by apply H2].
    + apply orb_false_iff in Hskip as [H1%negb_false_iff H2%negb_false_iff].
      assert (answers k id now r) as Hr by (split; [done|by apply asks_for_spec]).
      set (n := match newest with Some c => _ | None => _ end).
      specialize (IH n). destruct (newest_true k id now n rs) as [r0|].
      * destruct IH as [I1 I2]. split.
        -- destruct I1 as [I1|[? ?]]; [|right; split; [by right|done]]. unfold n in I1.
           destruct newest as [c|]; [destruct (written_at_ms r <=? written_at_ms c)|]; injection I1 as <-;
             [by left|right; split; [left|done]..].
        -- assert (forall s, newest = Some s \/ s = r -> written_at_ms s <= written_at_ms r0) as Hn.
           { intros s Hs. unfold n in I2. destruct newest as [c|].
             - destruct (N.leb_spec (written_at_ms r) (written_at_ms c)).
               + assert (written_at_ms c <= written_at_ms r0) by (apply I2; by left).
                 destruct Hs as [[= ->]| ->]; lia.
               + assert (written_at_ms r <= written_at_ms r0) by (apply I2; by left).
                 destruct Hs as [[= ->]| ->]; lia.
             - destruct Hs as [?| ->]; [done|]. apply I2. by left. }
           intros s [?|[[->|?]%elem_of_cons ?]]; [apply Hn; by left|apply Hn; by right|apply I2; by right].
      * destruct IH as [I1 _]. unfold n in I1. destruct newest as [c|]; [case_match|]; done.
Qed.

Lemma load_records (ok : bool) rs : file_len rs <= LEDGER_MAX_BYTES -> load ok (Records rs) = (rs, Records rs).
Proof. intros H. unfold load. by rewrite (proj2 (N.ltb_ge _ _) H). Qed.

Lemma lookup_file rs now k id :
  file_len rs <= LEDGER_MAX_BYTES ->
  (lookup true (Records rs) now k id).1
  = Records (List.filter (fun r => negb (keyed_among (List.filter
               (fun r => negb (record_is_still_true r now)) rs) r)) rs).
Proof.
  intros H. unfold lookup. rewrite load_records by done. cbn [fst].
  destruct (List.filter (fun r => negb (record_is_still_true r now)) rs) as [|s stale]; cbn [keyed_among existsb].
  - f_equal. clear H. by induction rs as [|r rs IH]; [|cbn; f_equal].
  - unfold prune. by rewrite load_records.
Qed.
End ledger.

Section merging.
Context (pid : N) (dying : list OwnershipRecord) (Hdying : Forall (fun r => written_by_pid r = pid) dying).

Definition by_others (rs : list OwnershipRecord) : list OwnershipRecord :=
  List.filter (fun r => negb (written_by_pid r =? pid)) rs.

Lemma by_others_dying : by_others dying = [].
Proof using Hdying.
  unfold by_others. revert Hdying. generalize dying. intros l Hl.
  induction Hl as [|r rs Hr _ IH]; [done|]. cbn. rewrite Hr, N.eqb_refl. exact IH.
Qed.

Lemma by_others_merge rs : by_others (merge_exit_records rs dying pid) = by_others rs.
Proof using Hdying.
  unfold by_others, merge_exit_records. rewrite List.filter_app. fold (by_others dying).
  rewrite by_others_dying, app_nil_r. induction rs as [|r rs IH]; [done|]. cbn.
  destruct (written_by_pid r =? pid) eqn:Hr; cbn; [|rewrite Hr; cbn; by rewrite IH].
  destruct (keyed_among dying r); cbn; [exact IH|]. rewrite Hr. exact IH.
Qed.

Lemma keyed_self rs r : r ∈ rs -> keyed_among rs r = true.
Proof. intros Hr. apply keyed_among_spec. by exists r. Qed.

Lemma filter_bool_idemp {A} (p : A -> bool) l : List.filter p (List.filter p l) = List.filter p l.
Proof. induction l as [|x l IH]; [done|]. cbn. destruct (p x) eqn:Hp; [|done]. cbn. by rewrite Hp, IH. Qed.

Lemma merge_again rs :
  merge_exit_records (merge_exit_records rs dying pid) dying pid = merge_exit_records rs dying pid.
Proof using Hdying.
  unfold merge_exit_records. rewrite List.filter_app, filter_bool_idemp. f_equal.
  assert (forall l, (forall r, r ∈ l -> r ∈ dying) -> List.filter (fun r => negb (written_by_pid r =? pid)
            || negb (keyed_among dying r)) l = []) as H; [|by rewrite (H dying), app_nil_r].
  intros l Hl. induction l as [|r l IH]; [done|]. cbn. rewrite Forall_forall in Hdying.
  rewrite (Hdying r), N.eqb_refl, (keyed_self dying r) by (apply Hl; left). cbn.
  apply IH. intros; apply Hl; by right.
Qed.

Lemma merge_length rs : (length (merge_exit_records rs dying pid) <= length rs + length dying)%nat.
Proof.
  unfold merge_exit_records. rewrite length_app.
  pose proof (List.filter_length_le (fun r => negb (written_by_pid r =? pid) || negb (keyed_among dying r)) rs). lia.
Qed.
End merging.

(** * Properties *)

Section properties.
Context (file_len : list OwnershipRecord -> N) (process_is_alive : N -> bool).

(** A reattach is answered by the newest record that is still true, and by nothing else: the
    answer is [NoAnswer] exactly when no record of the session is still true, and otherwise it
    is the disposition of a true record none of the others is newer than.  The read also
    compacts the file: what stays is exactly the records no stale record shares a session
    with, so every record that stays is still true. *)
Theorem lookup_correct rs now k id :
  file_len rs <= LEDGER_MAX_BYTES ->
  let '(f', a) := lookup file_len process_is_alive true (Records rs) now k id in
  (a = NoAnswer <-> forall r, r ∈ rs -> ~ answers process_is_alive k id now r)
  /\ (a <> NoAnswer -> exists r0, r0 ∈ rs /\ answers process_is_alive k id now r0 /\ a = answer_of r0
      /\ forall r, r ∈ rs -> answers process_is_alive k id now r -> written_at_ms r <= written_at_ms r0)
  /\ exists rs', f' = Records rs' /\ forall r, r ∈ rs' <->
       r ∈ rs /\ forall s, s ∈ rs -> record_is_still_true process_is_alive s now = false ->
                   ~ (kind s = kind r /\ session_id s = session_id r).
Proof.
  intros Hlen. pose proof (lookup_file file_len process_is_alive rs now k id Hlen) as Hf.
  destruct (lookup _ _ _ _ _ _ _) as [f' a] eqn:Hl. cbn [fst] in Hf. subst f'.
  unfold lookup in Hl. rewrite load_records in Hl by done. injection Hl as _ Ha.
  pose proof (newest_true_spec process_is_alive k id now None rs) as Hn.
  destruct (newest_true process_is_alive k id now None rs) as [r0|].
  - destruct Hn as [[?|[Hin Hr0]] Hmax]; [done|]. assert (a <> NoAnswer) as Hne.
    { subst a. unfold answer_of. by destruct (disposition r0). }
    split_and!; [split; [done|intros H; by destruct (H r0 Hin)]| |].
    + intros _. exists r0. split_and!; [done|done|done|]. intros r ? ?. apply Hmax. by right.
    + eexists. split; [done|]. intros r. rewrite elem_of_filter_bool, negb_true_iff, <- not_true_iff_false,
        keyed_among_spec. split; intros [Hr Hk]; (split; [done|]).
      * intros s Hs Ht Hkey. apply Hk. exists s. split; [|done]. apply elem_of_filter_bool. by rewrite Ht.
      * intros (s & [Hs Ht%negb_true_iff]%elem_of_filter_bool & Hkey). by apply (Hk s).
  - destruct Hn as [_ Hnone]. split_and!; [split; [done|by intros]|by intros []|].
    eexists. split; [done|]. intros r. rewrite elem_of_filter_bool, negb_true_iff, <- not_true_iff_false,
        keyed_among_spec. split; intros [Hr Hk]; (split; [done|]).
    + intros s Hs Ht Hkey. apply Hk. exists s. split; [|done]. apply elem_of_filter_bool. by rewrite Ht.
    + intros (s & [Hs Ht%negb_true_iff]%elem_of_filter_bool & Hkey). by apply (Hk s).
Qed.

(** A true record does not survive a stale one of the same session.  Where a session has both,
    the first lookup is answered from the true record, and its compaction, which goes by the
    session and not by the record, makes the next lookup of it answer [NoAnswer]. *)
Theorem stale_record_forgets_a_true_one rs now k id r s :
  file_len rs <= LEDGER_MAX_BYTES ->
  r ∈ rs -> answers process_is_alive k id now r ->
  s ∈ rs -> record_is_still_true process_is_alive s now = false -> kind s = k -> session_id s = id ->
  let '(f', a) := lookup file_len process_is_alive true (Records rs) now k id in
  a <> NoAnswer /\ (lookup file_len process_is_alive true f' now k id).2 = NoAnswer.
Proof.
  intros Hlen Hr Hans Hs Hst Hk Hid. pose proof (lookup_file file_len process_is_alive rs now k id Hlen) as Hf.
  destruct (lookup _ _ _ _ _ _ _) as [f' a] eqn:Hl. cbn [fst] in Hf. subst f'.
  unfold lookup in Hl. rewrite load_records in Hl by done. injection Hl as _ Ha. split.
  - pose proof (newest_true_spec process_is_alive k id now None rs) as Hn.
    destruct (newest_true process_is_alive k id now None rs) as [r0|].
    + subst a. unfold answer_of. by destruct (disposition r0).
    + destruct Hn as [_ Hn]. by destruct (Hn r Hr).
  - unfold lookup, load. destruct (LEDGER_MAX_BYTES <? file_len _); [done|]. cbn [snd].
    set (rs' := List.filter _ rs). pose proof (newest_true_spec process_is_alive k id now None rs') as Hn.
    destruct (newest_true process_is_alive k id now None rs') as [r0|]; [|done].
    destruct Hn as [[?|[Hin (_ & Hk0 & Hid0)]] _]; [done|]. exfalso.
    apply elem_of_filter_bool in Hin as [_ Hin%negb_true_iff]. apply not_true_iff_false in Hin. apply Hin.
    apply keyed_among_spec. exists s. rewrite elem_of_filter_bool, Hst. split_and!; [done|done|congruence..].
Qed.

(** The exit write adds the dying rows and leaves every other daemon's word as it was.  It
    keeps the records of the other writers exactly, holds every dying record, grows the ledger
    by no more than the dying rows, and repeating it changes nothing; handing its result to
    [record_handoff] instead would write every other daemon's record twice. *)
Theorem exit_merge_correct rs dying pid :
  file_len rs <= LEDGER_MAX_BYTES ->
  file_len (merge_exit_records rs dying pid) <= LEDGER_MAX_BYTES ->
  Forall (fun r => written_by_pid r = pid) dying ->
  exists rs1, save_exit_merge file_len true (Records rs) dying pid = Records rs1
  /\ by_others pid rs1 = by_others pid rs
  /\ (forall r, r ∈ dying -> r ∈ rs1)
  /\ (length rs1 <= length rs + length dying)%nat
  /\ save_exit_merge file_len true (Records rs1) dying pid = Records rs1
  /\ exists rs2, record_handoff file_len true (Records rs) pid rs1 = Records rs2
     /\ by_others pid rs2 = by_others pid rs ++ by_others pid rs.
Proof.
  intros Hlen Hlen1 Hdy. exists (merge_exit_records rs dying pid). unfold save_exit_merge.
  rewrite load_records by done. split_and!; [done|by apply by_others_merge| |apply merge_length| |].
  - intros r Hr. unfold merge_exit_records. apply elem_of_app. by right.
  - rewrite load_records by done. cbn [save]. by rewrite merge_again.
  - unfold record_handoff, write_records. rewrite load_records by done. eexists. split; [done|].
    fold (by_others pid rs). rewrite <- (by_others_merge pid dying Hdy rs) at 3.
    unfold by_others. by rewrite List.filter_app, filter_bool_idemp.
Qed.
End properties.

Definition adopted_record : OwnershipRecord := mkRecord Codex "s" "local://s" (Adopted 7 1) 9000000 3 "3.0.1".

Definition died_record : OwnershipRecord :=
  mkRecord Codex "s" "local://s" (DiedWithMe "s" ["codex"; "resume"; "s"]%string) 1000 4 "3.0.0".

Lemma lookup_correct_witness :
  let f := Records [died_record; adopted_record] in
  let r := lookup (fun rs => N.of_nat (length rs)) (fun _ => true) true f 9000000 Codex "s" in
  r.2 = AnswerAdopted 7
  /\ (r.2 = NoAnswer <-> forall r, r ∈ [died_record; adopted_record] -> ~ answers (fun _ => true) Codex "s" 9000000 r).
Proof.
  split; [by vm_compute|].
  apply (lookup_correct (fun rs => N.of_nat (length rs)) (fun _ => true) [died_record; adopted_record] 9000000 Codex "s").
  by vm_compute.
Defined.

Lemma stale_record_forgets_a_true_one_witness :
  let f := Records [died_record; adopted_record] in
  let r := lookup (fun rs => N.of_nat (length rs)) (fun _ => true) true f 9000000 Codex "s" in
  r.2 <> NoAnswer
  /\ (lookup (fun rs => N.of_nat (length rs)) (fun _ => true) true r.1 9000000 Codex "s").2 = NoAnswer.
Proof.
  apply (stale_record_forgets_a_true_one (fun rs => N.of_nat (length rs)) (fun _ => true)
           [died_record; adopted_record] 9000000 Codex "s" adopted_record died_record);
    [by vm_compute|right; left|split; [by vm_compute|done]|left|by vm_compute|done|done].
Defined.

Lemma exit_merge_correct_witness :
  exists rs1, save_exit_merge (fun rs => N.of_nat (length rs)) true (Records [adopted_record]) [died_record] 4
              = Records rs1 /\ by_others 4 rs1 = [adopted_record].
Proof.
  destruct (exit_merge_correct (fun rs => N.of_nat (length rs)) [adopted_record] [died_record] 4)
    as (rs1 & H1 & H2 & _); [by vm_compute|by vm_compute|by constructor; [reflexivity|constructor]|].
  exists rs1. split; [exact H1|exact H2].
Defined.
