(* ===== verification/HandoffSweep.v ===== *)
(** * Retiring a daemon: the sweep, the settle, and who reads a terminal meanwhile

    src/crates/yggterm-server/src/daemon.rs: [hand_off_all_runtimes] with its retry loop,
    [classify_handoff_sweep], [handoff_sweep_target], [spawn_handoff_settle_watch] and one round of
    [spawn_superseded_self_retire_sweep].

    Each send of a terminal is a run of the protocol of PtyHandoff.v; what came of the [n]-th send,
    and how long it took, are inputs.  The clock is advanced by them and by the sweep's own pauses;
    the two readings of one retry are one instant.  The daemon's terminals and which of their readers
    are parked are state. *)
From S2P Require Import Prelude RustStr AgentRegistry PtyHandoff OwnershipLedger.
From Stdlib Require Import ZifyBool ZifyN.
#[local] Open Scope N_scope.
#[local] Open Scope string_scope.

(** ** Constants, in milliseconds *)

Definition BOOT_REFUSAL_RETRY_BUDGET : N := 30000.
Definition BOOT_REFUSAL_RETRY_PAUSE : N := 500.
Definition SELF_DIAL_RETRY_ATTEMPTS : nat := 3.
Definition SELF_DIAL_RETRY_PAUSE : N := 300.

(** ** What a sweep concludes *)

Inductive HandoffSweep :=
| AllMoved (moved : nat)
| NoneMoved (reason : string)
| Partial (moved : nat) (reason : string).

Definition count_text (n : nat) : string := u64_to_string (N.of_nat n).

Definition classify_handoff_sweep (total moved dropped : nat) (first_failure : option string) : HandoffSweep :=
  let drained := (moved + dropped)%nat in
  match first_failure with
  | None =>
      if (drained =? total)%nat then AllMoved moved
      else Partial moved (count_text moved ++ " of " ++ count_text total ++ " moved with no error reported")
  | Some reason =>
      if ((moved =? 0) && (dropped =? 0))%nat then NoneMoved reason else Partial moved reason
  end.

(** The version the sweep knocks on. *)
Definition handoff_sweep_target (live_successor : option string) (spawn_ok : bool) (expected : option string)
    (own_version : string) : option string :=
  match live_successor with
  | Some v => Some v
  | None => if spawn_ok then Some (default own_version expected) else None
  end.

(** [handoff_takeout]: what a live runtime travels as. *)
Record HandoffTakeout := mkTakeout {
  take_command : string; take_cwd : option string; take_cols : N; take_rows : N;
  take_pid : N; take_start : N; take_screen : string }.

Definition metadata_of (key : string) (t : HandoffTakeout) : HandoffMetadata :=
  mkMetadata HANDOFF_WIRE_VERSION key (take_command t) (take_cwd t) (take_cols t) (take_rows t)
    (take_pid t) (take_start t) (take_screen t) true.

(** ** The state of a sweep *)

(** The daemon: the terminals it holds, and those whose reader is parked. *)
Record Hands := mkHands { terminals : gset string; parked : gset string }.

(** What the sends share: what is known of the successor, the budget, every send so far with what it
    was told, and the clock. *)
Record Link := mkLink {
  precommit : PrecommitSupport; boot_retry_deadline : option N;
  sent : list (HandoffMetadata * PrecommitSupport); now : N }.

Definition sends (l : Link) : nat := length (sent l).

Record Tally := mkTally {
  moved_keys : list string; successor_identity : option (N * N); first_failure : option string;
  refused_before : nat; refused_after : nat;
  adopted_identities : list (string * (N * N)); dropped_keys : list string }.

(** [moved] and [dropped_duplicates] count the lists. *)
Definition moved (t : Tally) : nat := length (moved_keys t).
Definition dropped_duplicates (t : Tally) : nat := length (dropped_keys t).

Definition no_tally : Tally := mkTally [] None None 0 0 [] [].

Definition sleep (ms : N) (l : Link) : Link :=
  mkLink (precommit l) (boot_retry_deadline l) (sent l) (now l + ms).

Definition fail (text : string) (t : Tally) : Tally :=
  mkTally (moved_keys t) (successor_identity t)
    (match first_failure t with Some f => Some f | None => Some text end)
    (refused_before t) (refused_after t) (adopted_identities t) (dropped_keys t).

Definition count_refusal (e : HandoffError) (t : Tally) : Tally :=
  let after := if refused e && committed e then 1%nat else 0%nat in
  let before := if refused e && negb (committed e) then 1%nat else 0%nat in
  mkTally (moved_keys t) (successor_identity t) (first_failure t)
    (refused_before t + before) (refused_after t + after) (adopted_identities t) (dropped_keys t).

Definition book_ack (key : string) (a : HandoffAck) (t : Tally) : Tally :=
  mkTally (moved_keys t ++ [key])
    (match adopter_identity a with Some i => Some i | None => successor_identity t end)
    (first_failure t) (refused_before t) (refused_after t)
    (adopted_identities t ++ match adopter_identity a with Some i => [(key, i)] | None => [] end)
    (dropped_keys t).

Definition book_drop (key : string) (t : Tally) : Tally :=
  mkTally (moved_keys t) (successor_identity t) (first_failure t) (refused_before t) (refused_after t)
    (adopted_identities t) (dropped_keys t ++ [key]).

(** The text of a failed hand-off. *)
Definition error_text (e : HandoffError) : string :=
  message e ++ " (" ++ (if committed e then "AFTER the commit point — the fd is gone"
                        else "before the commit point — the fd stayed") ++ ")".

(** The reader of [key] resumes, and one that is parked stops. *)
Definition unpark (key : string) (h : Hands) : Hands := mkHands (terminals h) (parked h ∖ {[key]}).

Definition park_all (h : Hands) : Hands := mkHands (terminals h) (parked h ∪ terminals h).

Section Sweep.
(** The system: the [n]-th send with what it leaves known of the successor, and its time; what a
    runtime travels as; and the text with which a shutdown fails. *)
Context (wire : nat -> HandoffMetadata -> PrecommitSupport -> (HandoffError + HandoffAck) * PrecommitSupport)
        (took : nat -> N) (handoff_takeout : string -> option HandoffTakeout) (shutdown : string -> option string).

Definition send (m : HandoffMetadata) (l : Link) : (HandoffError + HandoffAck) * Link :=
  let '(r, support) := wire (sends l) m (precommit l) in
  (r, mkLink support (boot_retry_deadline l) (sent l ++ [(m, precommit l)])%list (now l + took (sends l))).

(** The loop around a send. *)
Fixpoint send_until (fuel : nat) (m : HandoffMetadata) (self_dials : nat) (l : Link) :
    option ((HandoffError + HandoffAck) * Link) :=
  match fuel with
  | O => None
  | S fuel' =>
      let '(r, l) := send m l in
      match r with
      | inr ack => Some (inr ack, l)
      | inl e =>
          if negb (committed e) && verdict_is_self_dial (message e) && (self_dials <? SELF_DIAL_RETRY_ATTEMPTS)%nat
          then send_until fuel' m (S self_dials) (sleep SELF_DIAL_RETRY_PAUSE l)
          else if negb (negb (committed e) && verdict_is_boot_refusal (message e)) then Some (inl e, l)
          else
            let deadline := default (now l + BOOT_REFUSAL_RETRY_BUDGET) (boot_retry_deadline l) in
            let l := mkLink (precommit l) (Some deadline) (sent l) (now l) in
            if (deadline <=? now l)%N then Some (inl e, l)
            else send_until fuel' m self_dials (sleep BOOT_REFUSAL_RETRY_PAUSE l)
      end
  end.

(** One send, three self-dials and a retry for each pause of the budget. *)
Definition RETRY_FUEL : nat := 65.

(** [remove_session]: the debug text of what is not [Ok(true)]. *)
Definition remove_session (key : string) (h : Hands) : option string * Hands :=
  if bool_decide (key ∈ terminals h)
  then (match shutdown key with Some e => Some ("Err(" ++ e ++ ")") | None => None end,
        mkHands (terminals h ∖ {[key]}) (parked h))
  else (Some "Ok(false)", h).

(** One turn of the loop over the keys. *)
Definition sweep_key (key : string) (st : Hands * Link * Tally) : option (Hands * Link * Tally) :=
  let '(h, l, t) := st in
  match if bool_decide (key ∈ terminals h) then handoff_takeout key else None with
  | None => Some (h, l, fail (key ++ ": no live runtime to take") t)
  | Some takeout =>
      '(r, l) ← send_until RETRY_FUEL (metadata_of key takeout) 0 l;
      Some match r with
      | inr ack => (h, l, book_ack key ack t)
      | inl e =>
          let t := count_refusal e t in
          if refused e && negb (committed e) && message_is_seat_conflict (message e) then
            let '(odd, h) := remove_session key (unpark key h) in
            match odd with
            | None => (h, l, book_drop key t)
            | Some other => (h, l, fail (key ++ ": duplicate drop failed: " ++ other) t)
            end
          else (h, l, fail (key ++ ": " ++ error_text e) t)
      end
  end.

Fixpoint sweep_keys (keys : list string) (st : Hands * Link * Tally) : option (Hands * Link * Tally) :=
  match keys with
  | [] => Some st
  | key :: keys' => st' ← sweep_key key st; sweep_keys keys' st'
  end.

Record HandoffSweepOutcome := mkOutcome {
  sweep : HandoffSweep; still_parked : list string; identity : option (N * N); resumed : nat;
  learned : PrecommitSupport; before_commit : nat; after_commit : nat; duplicates : nat }.

Definition nothing_to_do (reason : string) : HandoffSweepOutcome :=
  mkOutcome (NoneMoved reason) [] None 0 Unknown 0 0 0.

(** [keys] are the daemon's terminals, in the order of its table. *)
Definition hand_off_all_runtimes (keys : list string) (h : Hands) (start : N) :
    option (HandoffSweepOutcome * Hands * Link * Tally) :=
  match keys with
  | [] => Some (nothing_to_do "this daemon owns no live PTYs", h, mkLink Unknown None [] start, no_tally)
  | _ =>
      '(h, l, t) ← sweep_keys keys (park_all h, mkLink Unknown None [] start, no_tally);
      let mine := List.filter (fun key => negb (bool_decide (key ∈ dropped_keys t))) keys in
      let held := List.filter (fun key => bool_decide (key ∈ moved_keys t)) mine in
      let released := List.filter (fun key => negb (bool_decide (key ∈ moved_keys t))) mine in
      Some (mkOutcome (classify_handoff_sweep (length keys) (moved t) (dropped_duplicates t) (first_failure t))
              held (successor_identity t) (length released) (precommit l)
              (refused_before t) (refused_after t) (dropped_duplicates t),
            foldr unpark h released, l, t)
  end.

(** What the sweep writes in the ownership ledger. *)
Definition ledger_after_sweep (identity : list (string * SessionKind * string)) (t : Tally)
    (at_ms own_pid : N) (own_version : string) (file_len : list OwnershipRecord -> N) (ok : bool) (f : LedgerFile) :
    LedgerFile :=
  record_handoff file_len ok f own_pid
    (handoff_ownership_records identity (adopted_identities t) at_ms own_pid own_version).

End Sweep.

(** ** The settle *)

Definition all_moved (o : HandoffSweepOutcome) : bool := match sweep o with AllMoved _ => true | _ => false end.

(** [YGGTERM_HANDOFF_SETTLE_MS]. *)
Definition handoff_settle_window (env : option string) : N :=
  default 10000 (env ≫= fun value => parse_u64 (trim value)).

Definition SETTLE_POLL_MS : N := 250.

(** [procs]: the start time of the process with that number at the [n]-th look; [answers]: whether a
    daemon answers on the successor's socket then. *)
Definition successor_still_holding (procs : nat -> N -> option N) (answers : nat -> bool) (n : nat)
    (identity : option (N * N)) : bool :=
  match identity with
  | Some (pid, start_time) => bool_decide (procs n pid = Some start_time)
  | None => answers n
  end.

(** Whether the successor was there at every look; the [n]-th round takes [lag n] beyond its pause. *)
Fixpoint settled (fuel : nat) (holding : nat -> bool) (lag : nat -> N) (window : N) (n : nat) (elapsed : N) : option bool :=
  match fuel with
  | O => None
  | S fuel' =>
      if (elapsed <? window)%N then
        if holding n then settled fuel' holding lag window (S n) (elapsed + SETTLE_POLL_MS + lag n)
        else Some false
      else Some true
  end.

Definition settle_fuel (window : N) : nat := S (N.to_nat (window / SETTLE_POLL_MS + 1)).

Inductive Retired := Exited | Woke | Keeps.

Definition settle_watch (holding : nat -> bool) (lag : nat -> N) (window : N) (o : HandoffSweepOutcome) (h : Hands) :
    option (Retired * Hands) :=
  good ← settled (settle_fuel window) holding lag window 0 0;
  Some (if negb good then (Woke, foldr unpark h (still_parked o))
        else if negb (all_moved o) then (Keeps, h)
        else (Exited, h)).

(** One round of the sweep thread: hand everything over, and if readers were parked, watch. *)
Definition retire_round wire took handoff_takeout shutdown (procs : nat -> N -> option N) (answers : nat -> bool)
    (lag : nat -> N) (window : N) (keys : list string) (h : Hands) (start : N) : option (Retired * Hands) :=
  '(o, h, _, _) ← hand_off_all_runtimes wire took handoff_takeout shutdown keys h start;
  match still_parked o with
  | [] => Some (Keeps, h)
  | _ => settle_watch (fun n => successor_still_holding procs answers n (identity o)) lag window o h
  end.

(** * Lemmas *)

(** The retries for a young successor that the budget still allows. *)
Definition in_budget (l : Link) : Prop :=
  match boot_retry_deadline l with Some d => d <= now l + BOOT_REFUSAL_RETRY_BUDGET | None => True end%N.

Definition boot_budget (l : Link) : nat :=
  match boot_retry_deadline l with
  | Some d => N.to_nat ((d - now l + (BOOT_REFUSAL_RETRY_PAUSE - 1)) / BOOT_REFUSAL_RETRY_PAUSE)
  | None => 60%nat
  end%N.

Lemma boot_budget_60 l : in_budget l -> (boot_budget l <= 60)%nat.
Proof.
  unfold in_budget, boot_budget, BOOT_REFUSAL_RETRY_BUDGET, BOOT_REFUSAL_RETRY_PAUSE.
  destruct (boot_retry_deadline l) as [d|]; [|lia]. intros Hd.
  pose proof (N.Div0.div_le_mono (d - now l + (500 - 1)) 30499 500). change (30499 / 500)%N with 60%N in *. lia.
Qed.

(** Time alone only uses the budget up. *)
Lemma budget_later p d n a n' b :
  (a <= b)%N -> in_budget (mkLink p d n a) ->
  in_budget (mkLink p d n' b) /\ (boot_budget (mkLink p d n' b) <= boot_budget (mkLink p d n a))%nat.
Proof.
  unfold in_budget, boot_budget. cbn. destruct d as [d|]; [|done]. intros Hab Hd. split; [lia|].
  pose proof (N.Div0.div_le_mono (d - b + (BOOT_REFUSAL_RETRY_PAUSE - 1)) (d - a + (BOOT_REFUSAL_RETRY_PAUSE - 1)) BOOT_REFUSAL_RETRY_PAUSE). lia.
Qed.

Lemma budget_sleep ms l :
  in_budget l -> in_budget (sleep ms l) /\ (boot_budget (sleep ms l) <= boot_budget l)%nat.
Proof. destruct l as [p d n a]. apply (budget_later p d n a n (a + ms)). lia. Qed.

Lemma sends_sleep ms l : sends (sleep ms l) = sends l.
Proof. done. Qed.

Lemma sends_mk p d n a : sends (mkLink p d n a) = length n.
Proof. done. Qed.

(** A retry uses one of them. *)
Lemma budget_retry p d n a :
  (a < d)%N -> (d <= a + BOOT_REFUSAL_RETRY_BUDGET)%N ->
  let l := mkLink p (Some d) n a in
  in_budget (sleep BOOT_REFUSAL_RETRY_PAUSE l) /\
  (S (boot_budget (sleep BOOT_REFUSAL_RETRY_PAUSE l)) <= boot_budget l)%nat.
Proof.
  unfold in_budget, boot_budget, sleep, BOOT_REFUSAL_RETRY_PAUSE. cbn. intros Ha Hd. split; [lia|].
  assert ((d - a + (500 - 1)) / 500 = (d - a - 1) / 500 + 1)%N as ->.
  { replace (d - a + (500 - 1))%N with (d - a - 1 + 1 * 500)%N by lia. by rewrite N.div_add. }
  pose proof (N.Div0.div_le_mono (d - (a + 500) + (500 - 1)) (d - a - 1) 500) as Hm.
  destruct (N.le_gt_cases (a + 500) d) as [?|?]; [lia|].
  replace (d - (a + 500))%N with 0%N by lia. change ((0 + (500 - 1)) / 500)%N with 0%N. lia.
Qed.

(** What becomes of one terminal, and what is booked. *)
Inductive Fate := Moved | Dropped | Failed.

#[local] Instance Fate_eq_dec : EqDecision Fate.
Proof. solve_decision. Defined.

Record booked (key : string) (f : Fate) (h : Hands) (t : Tally) (h' : Hands) (t' : Tally) : Prop := {
  booked_moved : moved_keys t' = (moved_keys t ++ if decide (f = Moved) then [key] else [])%list;
  booked_dropped : dropped_keys t' = (dropped_keys t ++ if decide (f = Dropped) then [key] else [])%list;
  booked_failure : first_failure t' = None <-> first_failure t = None /\ f <> Failed;
  booked_parked : parked h' ⊆ parked h /\ parked h ∖ {[key]} ⊆ parked h';
  booked_held : terminals h' ⊆ terminals h /\ terminals h ∖ {[key]} ⊆ terminals h';
  booked_adopted : forall k i, (k, i) ∈ adopted_identities t' -> (k, i) ∈ adopted_identities t \/ (k = key /\ f = Moved);
  booked_kept : f = Moved -> h' = h;
  booked_gone : f = Dropped -> (key ∉ terminals h') /\ (key ∉ parked h') }.

Lemma booked_fail key text h t h' :
  parked h' ⊆ parked h -> parked h ∖ {[key]} ⊆ parked h' ->
  terminals h' ⊆ terminals h -> terminals h ∖ {[key]} ⊆ terminals h' ->
  booked key Failed h t h' (fail text t).
Proof.
  intros ? ? ? ?. split; cbn; rewrite ?app_nil_r; auto; try done.
  destruct (first_failure t); (split; [done|by intros []]).
Qed.

Lemma booked_counted key f h t h' t' e : booked key f h (count_refusal e t) h' t' -> booked key f h t h' t'.
Proof. intros []. by split. Qed.

(** The keys of one fate, in the order of the sweep. *)
Definition with_fate (fate : string -> Fate) (f : Fate) (keys : list string) : list string :=
  List.filter (fun key => bool_decide (fate key = f)) keys.

Lemma with_fate_ext fate fate' f keys :
  (forall key, key ∈ keys -> fate key = fate' key) -> with_fate fate f keys = with_fate fate' f keys.
Proof.
  intros He. apply List.filter_ext_in. intros key Hk. rewrite He by by apply list_elem_of_In. done.
Qed.

Lemma filter_filter_bool {A} (p q r : A -> bool) (l : list A) :
  (forall x, x ∈ l -> q x && p x = r x) -> List.filter p (List.filter q l) = List.filter r l.
Proof.
  induction l as [|x l IH]; intros Hx; [done|]. cbn [List.filter].
  rewrite <- IH by (intros y Hy; apply Hx; by right). rewrite <- (Hx x) by by left.
  destruct (q x); [|done]. cbn [andb List.filter]. done.
Qed.

Lemma elem_of_with_fate fate f keys key : key ∈ with_fate fate f keys <-> key ∈ keys /\ fate key = f.
Proof. unfold with_fate. by rewrite elem_of_filter_bool, bool_decide_eq_true. Qed.

Lemma unpark_all keys h : foldr unpark h keys = mkHands (terminals h) (parked h ∖ list_to_set keys).
Proof.
  induction keys as [|key keys IH]; cbn; [destruct h; cbn; f_equal; set_solver|].
  rewrite IH. unfold unpark. cbn. f_equal. set_solver.
Qed.

Lemma fates_complete fate keys :
  (length (with_fate fate Moved keys) + length (with_fate fate Dropped keys) + length (with_fate fate Failed keys)
   = length keys)%nat.
Proof.
  unfold with_fate. induction keys as [|k keys IH]; [done|]. cbn [List.filter].
  destruct (fate k); cbn [bool_decide decide_rel Fate_eq_dec length]; repeat (case_bool_decide; cbn [length]); (done || lia).
Qed.

Lemma with_fate_none fate f keys : with_fate fate f keys = [] <-> Forall (fun key => fate key <> f) keys.
Proof.
  rewrite Forall_forall. split.
  - intros Hn key Hk Hf. assert (key ∈ with_fate fate f keys) as Hin by by apply elem_of_with_fate.
    rewrite Hn in Hin. by apply elem_of_nil in Hin.
  - intros Hn. destruct (with_fate fate f keys) as [|k l] eqn:E; [done|].
    assert (k ∈ with_fate fate f keys) as [Hin Hf]%elem_of_with_fate by (rewrite E; by left). by apply Hn in Hin.
Qed.

Lemma with_fate_all fate f keys : with_fate fate f keys = keys <-> length (with_fate fate f keys) = length keys.
Proof.
  split; [by intros ->|]. unfold with_fate. induction keys as [|k keys IH]; [done|]. cbn [List.filter length].
  pose proof (List.filter_length_le (fun key => bool_decide (fate key = f)) keys).
  destruct (bool_decide (fate k = f)); cbn [length]; intros Hl; [by rewrite IH by lia|lia].
Qed.

Lemma classified fate keys first :
  (first = None <-> Forall (fun key => fate key <> Failed) keys) -> keys <> [] ->
  match classify_handoff_sweep (length keys) (length (with_fate fate Moved keys)) (length (with_fate fate Dropped keys)) first with
  | AllMoved n => n = length (with_fate fate Moved keys) /\ with_fate fate Failed keys = []
  | NoneMoved _ => with_fate fate Failed keys = keys
  | Partial n _ => n = length (with_fate fate Moved keys) /\ with_fate fate Failed keys <> [] /\
                   with_fate fate Failed keys <> keys
  end.
Proof.
  intros Hf Hne. pose proof (fates_complete fate keys) as Hc. unfold classify_handoff_sweep.
  destruct first as [reason|].
  - assert (with_fate fate Failed keys <> []) as Hn by (intros Hn%with_fate_none; by apply Hf in Hn).
    destruct ((_ =? 0) && (_ =? 0))%nat eqn:E; [apply with_fate_all; lia|]. split; [done|]. split; [done|].
    intros Ha%with_fate_all. lia.
  - assert (with_fate fate Failed keys = []) as Hn by by apply with_fate_none, Hf.
    rewrite Hn in Hc. cbn in Hc. rewrite (proj2 (Nat.eqb_eq _ _)) by lia. done.
Qed.

Section Facts.
Context (wire : nat -> HandoffMetadata -> PrecommitSupport -> (HandoffError + HandoffAck) * PrecommitSupport)
        (took : nat -> N) (handoff_takeout : string -> option HandoffTakeout) (shutdown : string -> option string).

(** [m] was sent, and answered with [r]. *)
Definition sent_as (l : Link) (m : HandoffMetadata) (r : HandoffError + HandoffAck) : Prop :=
  exists n support, sent l !! n = Some (m, support) /\ (wire n m support).1 = r.

Lemma sent_as_later l l' m r : sent l `prefix_of` sent l' -> sent_as l m r -> sent_as l' m r.
Proof. intros Hp (n & support & Hn & Hr). exists n, support. split; [by eapply prefix_lookup_Some|done]. Qed.

Lemma send_spec m l :
  let '(r, l') := send wire took m l in
  sent_as l' m r /\ sent l `prefix_of` sent l' /\ sends l' = S (sends l) /\
  (in_budget l -> in_budget l' /\ (boot_budget l' <= boot_budget l)%nat).
Proof.
  unfold send. destruct (wire (sends l) m (precommit l)) as [r support] eqn:E. split_and!.
  - exists (sends l), (precommit l). cbn [sent]. rewrite E. split; [by apply list_lookup_middle|done].
  - by eexists.
  - unfold sends. cbn [sent]. rewrite length_app. cbn [length]. lia.
  - intros Hb. destruct l as [p d n a]. apply (budget_later p d n a (n ++ [(m, p)])%list (a + took (length n))); [lia|done].
Qed.

Lemma send_until_spec fuel m dials l :
  in_budget l -> (dials <= SELF_DIAL_RETRY_ATTEMPTS)%nat ->
  (1 + (SELF_DIAL_RETRY_ATTEMPTS - dials) + boot_budget l <= fuel)%nat ->
  exists r l', send_until wire took fuel m dials l = Some (r, l') /\
    sent_as l' m r /\ sent l `prefix_of` sent l' /\ in_budget l' /\
    (sends l' + boot_budget l' <= sends l + 1 + (SELF_DIAL_RETRY_ATTEMPTS - dials) + boot_budget l)%nat.
Proof.
  revert dials l. induction fuel as [|fuel IH]; intros dials l Hb Hd Hf; [lia|]. cbn [send_until].
  pose proof (send_spec m l) as Hsend. destruct (send wire took m l) as [r l1]. destruct Hsend as (Hr & Hpre & Hn & Hb1).
  destruct (Hb1 Hb) as [Hin Hle]. clear Hb1. destruct r as [e|ack]; [|exists (inr ack), l1; split_and!; (done || lia)].
  destruct (negb (committed e) && verdict_is_self_dial (message e) && (dials <? SELF_DIAL_RETRY_ATTEMPTS)%nat) eqn:Edial.
  - apply andb_true_iff in Edial as [_ Hdl%Nat.ltb_lt].
    destruct (budget_sleep SELF_DIAL_RETRY_PAUSE l1 Hin) as [Hin' Hle'].
    destruct (IH (S dials) (sleep SELF_DIAL_RETRY_PAUSE l1)) as (r & l' & -> & ? & ? & ? & Hs); [done|lia|lia|].
    rewrite sends_sleep in Hs. exists r, l'. split_and!; (done || lia || by etrans).
  - destruct (negb (negb (committed e) && verdict_is_boot_refusal (message e)));
      [exists (inl e), l1; split_and!; (done || lia)|].
    destruct l1 as [p d n a]. cbn [precommit boot_retry_deadline sent now] in *. rewrite sends_mk in *.
    set (deadline := default (a + BOOT_REFUSAL_RETRY_BUDGET)%N d).
    assert (deadline <= a + BOOT_REFUSAL_RETRY_BUDGET)%N as Hdl by (unfold deadline; destruct d; [exact Hin|cbn; lia]).
    assert (boot_budget (mkLink p (Some deadline) n a) <= boot_budget (mkLink p d n a))%nat as Hset.
    { unfold deadline. destruct d; [done|]. by apply (boot_budget_60 (mkLink p (Some _) n a)). }
    destruct (deadline <=? a)%N eqn:Edl;
      [exists (inl e), (mkLink p (Some deadline) n a); rewrite sends_mk; split_and!; (done || lia)|].
    destruct (budget_retry p deadline n a) as [Hin' Hless]; [lia|done|].
    destruct (IH dials (sleep BOOT_REFUSAL_RETRY_PAUSE (mkLink p (Some deadline) n a))) as (r & l' & -> & ? & ? & ? & Hs);
      [done|lia|lia|].
    rewrite sends_sleep, sends_mk in Hs. exists r, l'. split_and!; (done || lia || by etrans).
Qed.

(** What shows it. *)
Definition evidence (l : Link) (key : string) (f : Fate) : Prop :=
  match f with
  | Moved => exists takeout ack, handoff_takeout key = Some takeout /\ sent_as l (metadata_of key takeout) (inr ack)
  | Dropped => exists takeout e, handoff_takeout key = Some takeout /\ sent_as l (metadata_of key takeout) (inl e) /\
      refused e = true /\ committed e = false /\ message_is_seat_conflict (message e) = true
  | Failed => handoff_takeout key = None \/
      exists takeout e, handoff_takeout key = Some takeout /\ sent_as l (metadata_of key takeout) (inl e)
  end.

Lemma evidence_later l l' key f : sent l `prefix_of` sent l' -> evidence l key f -> evidence l' key f.
Proof. intros Hp. pose proof (fun m r => sent_as_later l l' m r Hp). destruct f; cbn; naive_solver. Qed.

(** An acknowledgement that names the process [i]. *)
Definition named_by_an_ack (l : Link) (i : N * N) : Prop :=
  exists key takeout ack, handoff_takeout key = Some takeout /\
    sent_as l (metadata_of key takeout) (inr ack) /\ adopter_identity ack = Some i.

Lemma named_later l l' i : sent l `prefix_of` sent l' -> named_by_an_ack l i -> named_by_an_ack l' i.
Proof.
  intros Hp (key & takeout & ack & ? & Hs & ?). exists key, takeout, ack.
  split_and!; [done|by eapply sent_as_later|done].
Qed.

Lemma sweep_key_spec key h l t :
  in_budget l -> key ∈ terminals h ->
  exists h' l' t' f, sweep_key wire took handoff_takeout shutdown key (h, l, t) = Some (h', l', t') /\
    sent l `prefix_of` sent l' /\
    in_budget l' /\ (sends l' + boot_budget l' <= sends l + 4 + boot_budget l)%nat /\
    evidence l' key f /\ booked key f h t h' t' /\
    (forall i, successor_identity t' = Some i -> successor_identity t = Some i \/ named_by_an_ack l' i).
Proof.
  intros Hb Hk. unfold sweep_key. rewrite bool_decide_true by done.
  destruct (handoff_takeout key) as [takeout|] eqn:Et.
  2: { exists h, l, (fail (key ++ ": no live runtime to take") t), Failed.
       split_and!; try done; [lia|by left|apply booked_fail; set_solver|by auto]. }
  pose proof (boot_budget_60 l Hb).
  destruct (send_until_spec RETRY_FUEL (metadata_of key takeout) 0 l) as (r & l' & -> & Hr & Hpre & Hb' & Hn);
    [done|unfold SELF_DIAL_RETRY_ATTEMPTS; lia|unfold RETRY_FUEL, SELF_DIAL_RETRY_ATTEMPTS; lia|].
  cbn [mbind option_bind]. unfold SELF_DIAL_RETRY_ATTEMPTS in Hn.
  assert (forall h1 t1 f, evidence l' key f -> booked key f h t h1 t1 ->
    (forall i, successor_identity t1 = Some i -> successor_identity t = Some i \/ named_by_an_ack l' i) ->
    exists h' l'' t' f, Some (h1, l', t1) = Some (h', l'', t') /\ sent l `prefix_of` sent l'' /\ in_budget l'' /\
      (sends l'' + boot_budget l'' <= sends l + 4 + boot_budget l)%nat /\ evidence l'' key f /\ booked key f h t h' t' /\
      (forall i, successor_identity t' = Some i -> successor_identity t = Some i \/ named_by_an_ack l'' i)) as Hdone.
  { intros h1 t1 f ? ? ?. exists h1, l', t1, f. split_and!; (done || lia). }
  destruct r as [e|ack].
  2: { apply (Hdone _ _ Moved); [by exists takeout, ack| |].
       - split; cbn; rewrite ?app_nil_r; try done; [naive_solver|set_solver|set_solver|].
         intros k i [?|Hi]%elem_of_app; [by left|right]. destruct (adopter_identity ack); [|by apply elem_of_nil in Hi].
       apply list_elem_of_singleton in Hi. by injection Hi as -> _.
       - cbn. intros i. destruct (adopter_identity ack) as [j|] eqn:Ej; [|by left]. intros [= ->]. right. by exists key, takeout, ack. }
  destruct (refused e && negb (committed e) && message_is_seat_conflict (message e)) eqn:Ec.
  2: { apply (Hdone _ _ Failed); [right; by exists takeout, e|eapply booked_counted, booked_fail; set_solver|by left]. }
  rewrite !andb_true_iff, negb_true_iff in Ec. destruct Ec as [[? ?] ?].
  unfold remove_session, unpark. cbn [terminals parked]. rewrite bool_decide_true by done.
  destruct (shutdown key) as [text|].
  - apply (Hdone _ _ Failed); [right; by exists takeout, e|eapply booked_counted, booked_fail; cbn; set_solver|by left].
  - apply (Hdone _ _ Dropped); [exists takeout, e; by split_and!| |by left].
    split; cbn; rewrite ?app_nil_r; try done; [naive_solver|set_solver|set_solver|by left|set_solver].
Qed.

Record swept (l : Link) (keys : list string) (fate : string -> Fate) (h : Hands) (t : Tally) (h' : Hands) (t' : Tally) : Prop := {
  swept_evidence : forall key, key ∈ keys -> evidence l key (fate key);
  swept_moved : moved_keys t' = (moved_keys t ++ with_fate fate Moved keys)%list;
  swept_dropped : dropped_keys t' = (dropped_keys t ++ with_fate fate Dropped keys)%list;
  swept_failure : first_failure t' = None <-> first_failure t = None /\ Forall (fun key => fate key <> Failed) keys;
  swept_parked : parked h' ⊆ parked h /\ forall key, key ∈ parked h -> key ∉ keys \/ fate key = Moved -> key ∈ parked h';
  swept_held : terminals h' ⊆ terminals h /\
    forall key, key ∈ terminals h -> key ∉ keys \/ fate key = Moved -> key ∈ terminals h';
  swept_adopted : forall key i, (key, i) ∈ adopted_identities t' ->
    (key, i) ∈ adopted_identities t \/ (key ∈ keys /\ fate key = Moved);
  swept_gone : forall key, key ∈ keys -> fate key = Dropped -> (key ∉ terminals h') /\ (key ∉ parked h') }.

Lemma swept_cons l key keys f fate h t h1 t1 h' t' :
  key ∉ keys -> evidence l key f -> booked key f h t h1 t1 -> swept l keys fate h1 t1 h' t' ->
  swept l (key :: keys) (fun k => if decide (k = key) then f else fate k) h t h' t'.
Proof.
  intros Hk He [B1 B2 B3 [B4 B4'] [B5 B5'] B8 B6 B7] [E1 E2 E3 E4 [E5 E5'] [E6 E6'] E8 E7].
  set (fate' := fun k => if decide (k = key) then f else fate k).
  assert (fate' key = f) as Hkey by (unfold fate'; by rewrite decide_True).
  assert (forall k, k ∈ keys -> fate' k = fate k) as Hrest by (intros k Hk'; unfold fate'; rewrite decide_False; [done|set_solver]).
  assert (forall g, with_fate fate' g (key :: keys) = (if decide (f = g) then [key] else []) ++ with_fate fate g keys)%list as Hw.
  { intros g. unfold with_fate at 1. cbn [List.filter]. rewrite Hkey, <- (with_fate_ext fate' fate g keys Hrest).
    destruct (decide (f = g)); [by rewrite bool_decide_true|by rewrite bool_decide_false]. }
  split.
  - intros k [->|Hk']%elem_of_cons; [by rewrite Hkey|]. rewrite Hrest by done. by apply E1.
  - by rewrite E2, B1, Hw, app_assoc.
  - by rewrite E3, B2, Hw, app_assoc.
  - rewrite E4, B3, Forall_cons, Hkey. rewrite !Forall_forall.
    split; [intros [[? ?] Hf]|intros [? [? Hf]]]; split_and!; try done;
      intros k Hk'; [rewrite Hrest by done|rewrite <- Hrest by done]; by apply Hf.
  - split; [set_solver|]. intros k Hp Hor.
    destruct (decide (k = key)) as [->|Hne].
    + destruct Hor as [Hor|Hor]; [set_solver|]. rewrite Hkey in Hor. rewrite (B6 Hor) in *. apply E5'; [done|by left].
    + apply E5'; [set_solver|]. destruct Hor as [Hor|Hor]; [set_solver|].
      unfold fate' in Hor. rewrite decide_False in Hor by done. by right.
  - split; [set_solver|]. intros k Hp Hor.
    destruct (decide (k = key)) as [->|Hne].
    + destruct Hor as [Hor|Hor]; [set_solver|]. rewrite Hkey in Hor. rewrite (B6 Hor) in *. apply E6'; [done|by left].
    + apply E6'; [set_solver|]. destruct Hor as [Hor|Hor]; [set_solver|].
      unfold fate' in Hor. rewrite decide_False in Hor by done. by right.
  - intros k i [Hi|[Hk' Hf]]%E8.
    + destruct (B8 k i Hi) as [?|[-> ?]]; [by left|right]. split; [by left|by rewrite Hkey].
    + right. split; [by right|by rewrite Hrest].
  - intros k [->|Hk']%elem_of_cons Hd; [rewrite Hkey in Hd; specialize (B7 Hd); set_solver|].
    rewrite Hrest in Hd by done. by apply E7.
Qed.

Lemma sweep_keys_spec keys h l t :
  NoDup keys -> (forall key, key ∈ keys -> key ∈ terminals h) -> in_budget l ->
  exists h' l' t' fate, sweep_keys wire took handoff_takeout shutdown keys (h, l, t) = Some (h', l', t') /\
    sent l `prefix_of` sent l' /\
    in_budget l' /\ (sends l' + boot_budget l' <= sends l + 4 * length keys + boot_budget l)%nat /\
    swept l' keys fate h t h' t' /\
    (forall i, successor_identity t' = Some i -> successor_identity t = Some i \/ named_by_an_ack l' i).
Proof.
  intros Hnd. revert h l t. induction Hnd as [|key keys Hk Hnd IH]; intros h l t Hin Hb.
  - exists h, l, t, (fun _ => Failed). split_and!; [done..|cbn; lia| |by auto].
    split; cbn; rewrite ?app_nil_r; try done; try set_solver.
  - destruct (sweep_key_spec key h l t Hb (Hin key ltac:(left))) as (h1 & l1 & t1 & f & Hs & Hp1 & Hb1 & Hn1 & He & Hbk & Hi1).
    destruct (IH h1 l1 t1) as (h' & l' & t' & fate & Hr & Hp & Hb' & Hn' & Hsw & Hi); [|done|].
    { intros k Hk'. destruct (booked_held _ _ _ _ _ _ Hbk) as [_ Hheld]. apply Hheld.
      apply elem_of_difference. split; [apply Hin; by right|]. by intros ->%elem_of_singleton. }
    exists h', l', t', (fun k => if decide (k = key) then f else fate k).
    split_and!; [cbn [sweep_keys]; by rewrite Hs|by etrans|done|cbn [length]; lia| |].
    + eapply swept_cons; [done|by eapply evidence_later|done..].
    + intros i [[?|Hn]%Hi1|?]%Hi; [by left| |by right]. right. by eapply named_later.
Qed.

(** A sweep of everything the daemon holds. *)
Record swept_all (l : Link) (keys : list string) (fate : string -> Fate) (o : HandoffSweepOutcome) (h' : Hands) (t : Tally) : Prop := {
  all_evidence : forall key, key ∈ keys -> evidence l key (fate key);
  all_sweep : match sweep o with
              | AllMoved n => n = length (with_fate fate Moved keys) /\ with_fate fate Failed keys = []
              | NoneMoved _ => with_fate fate Failed keys = keys
              | Partial n _ => n = length (with_fate fate Moved keys) /\ with_fate fate Failed keys <> [] /\
                               with_fate fate Failed keys <> keys
              end;
  all_still_parked : still_parked o = with_fate fate Moved keys;
  all_resumed : resumed o = length (with_fate fate Failed keys);
  all_duplicates : duplicates o = length (with_fate fate Dropped keys);
  all_parked : forall key, key ∈ keys -> key ∈ parked h' <-> fate key = Moved;
  all_held : forall key, key ∈ keys -> (fate key = Moved -> key ∈ terminals h') /\ (fate key = Dropped -> key ∉ terminals h');
  all_adopted : forall key i, (key, i) ∈ adopted_identities t -> key ∈ keys /\ fate key = Moved }.

Lemma hand_off_spec keys h start :
  NoDup keys -> keys <> [] -> (forall key, key ∈ keys -> key ∈ terminals h) ->
  exists fate o h' l t,
    hand_off_all_runtimes wire took handoff_takeout shutdown keys h start = Some (o, h', l, t) /\
    (sends l <= 4 * length keys + 60)%nat /\ swept_all l keys fate o h' t /\
    (forall i, identity o = Some i -> named_by_an_ack l i).
Proof.
  intros Hnd Hne Hin.
  destruct (sweep_keys_spec keys (park_all h) (mkLink Unknown None [] start) no_tally Hnd Hin I)
    as (h1 & l & t & fate & Hs & _ & _ & Hn & [E1 E2 E3 E4 [E5 E5'] [E6 E6'] E8 E7] & Hid).
  assert (sends l <= 4 * length keys + 60)%nat as Hn'.
  { pose proof (boot_budget_60 (mkLink Unknown None [] start) I).
    assert (sends (mkLink Unknown None [] start) = 0%nat) as H0 by done. lia. }
  clear Hn. unfold hand_off_all_runtimes. rewrite Hs. cbn [mbind option_bind]. destruct keys as [|k keys']; [done|].
  set (keys := k :: keys') in *. exists fate. do 4 eexists. split; [done|].
  split; [exact Hn'|]. split; [|by intros i [?|?]%Hid].
  cbn [moved_keys dropped_keys no_tally app] in E2, E3. assert (first_failure t = None <-> Forall (fun key => fate key <> Failed) keys) as E4'
    by (rewrite E4; split; [by intros [_ ?]|by split]).
  assert (forall key, key ∈ keys -> bool_decide (key ∈ moved_keys t) = bool_decide (fate key = Moved)) as Hm.
  { intros key Hk. apply bool_decide_ext. rewrite E2, elem_of_with_fate. tauto. }
  assert (forall key, key ∈ keys -> bool_decide (key ∈ dropped_keys t) = bool_decide (fate key = Dropped)) as Hd.
  { intros key Hk. apply bool_decide_ext. rewrite E3, elem_of_with_fate. tauto. }
  assert (List.filter (fun key => negb (bool_decide (key ∈ moved_keys t)))
            (List.filter (fun key => negb (bool_decide (key ∈ dropped_keys t))) keys) = with_fate fate Failed keys) as Hrel.
  { apply filter_filter_bool. intros key Hk. rewrite Hm, Hd by done.
    destruct (fate key); repeat case_bool_decide; done. }
  split; cbn [sweep still_parked resumed duplicates]; try done.
  - unfold moved, dropped_duplicates. rewrite E2, E3. by apply classified.
  - apply filter_filter_bool. intros key Hk. rewrite Hm, Hd by done. destruct (fate key); repeat case_bool_decide; done.
  - by rewrite Hrel.
  - unfold dropped_duplicates. by rewrite E3.
  - intros key Hk. rewrite Hrel, unpark_all. cbn [parked]. rewrite elem_of_difference, elem_of_list_to_set, elem_of_with_fate.
    split.
    + intros [Hp Hnf]. destruct (fate key) eqn:Ef; [done| |by destruct Hnf]. by destruct (E7 key Hk Ef).
    + intros Hf. split; [|intros [_ Hf']; congruence]. apply E5'; [|by right]. cbn. apply elem_of_union. right. by apply Hin.
  - intros key Hk. rewrite Hrel, unpark_all. cbn [terminals]. split.
    + intros Hf. apply E6'; [by apply Hin|by right].
    + intros Hf. by apply (E7 key Hk Hf).
  - intros key i [Hi|?]%E8; [by apply elem_of_nil in Hi|done].
Qed.

End Facts.




Section Composed.
Context `{Wire}.
Context (wire : nat -> HandoffMetadata -> PrecommitSupport -> (HandoffError + HandoffAck) * PrecommitSupport)
        (world : nat -> HandoffMetadata -> PrecommitSupport -> Sys)
        (took : nat -> N) (handoff_takeout : string -> option HandoffTakeout) (shutdown : string -> option string).








(** C8: a sweep of every terminal a daemon holds returns, whatever its successor answers and however
    slow it is: at most four sends for each terminal and sixty retries in all.  Every terminal then
    has one of three fates, each shown by an answer on the wire: moved (it was acknowledged, it is
    still in the table and its reader stays parked), dropped (refused before the commit point for
    the seat's sake, and gone from the table), or failed (its reader runs again).  The verdict says
    which: everything moved exactly if nothing failed, nothing moved exactly if everything failed,
    and a part otherwise; and the ledger is told only of moved terminals. *)
Theorem sweep_settles_every_terminal keys h start :
  NoDup keys -> keys <> [] -> (forall key, key ∈ keys -> key ∈ terminals h) ->
  exists fate o h' l t,
    hand_off_all_runtimes wire took handoff_takeout shutdown keys h start = Some (o, h', l, t) /\
    (sends l <= 4 * length keys + 60)%nat /\
    swept_all wire handoff_takeout l keys fate o h' t /\
    forall identity at_ms pid own_version r,
      r ∈ handoff_ownership_records identity (adopted_identities t) at_ms pid own_version ->
      OwnershipLedger.runtime_key r ∈ keys /\ fate (OwnershipLedger.runtime_key r) = Moved.
Proof.
  intros Hnd Hne Hin. destruct (hand_off_spec wire took handoff_takeout shutdown keys h start Hnd Hne Hin)
    as (fate & o & h' & l & t & Hs & Hn & Hsw & _). exists fate, o, h', l, t. split_and!; [done..|].
  intros identity at_ms pid own_version r (x & Hx & Hr)%list_elem_of_omap. destruct x as [key [by_pid by_start]].
  destruct (List.find _ identity) as [[[k' kd] id]|]; [|done]. cbn in Hr. injection Hr as <-. cbn.
  by apply (all_adopted _ _ _ _ _ _ _ _ Hsw) in Hx.
Qed.


End Composed.

(** * Concrete rounds *)

Module Rounds.

Import PtyHandoff.Tagged.

Definition takeouts (key : string) : option HandoffTakeout := Some (mkTakeout "bash" None 80 24 4242 77 "").

Definition gone : HandoffError := mkError false false "connecting to successor handoff socket: gone".

Definition served (m : HandoffMetadata) (support : PrecommitSupport) : bool :=
  negb (bool_decide (support = Silent)) && (version m =? HANDOFF_WIRE_VERSION)%N
  && (String.length (token_of m) <=? HANDOFF_TOKEN_MAX_BYTES)%nat.

(** A successor that seats everything it can be told of. *)
Definition willing (n : nat) (m : HandoffMetadata) (support : PrecommitSupport) :
    (HandoffError + HandoffAck) * PrecommitSupport :=
  if served m support
  then (inr (adopted_here 9000 (Some 5%N)), if precommit_verdict m then Speaks else support)
  else (inl gone, support).



Definition no_shutdown_fails (key : string) : option string := None.

Definition hands (keys : list string) : Hands := mkHands (list_to_set keys) ∅.

Lemma sweep_settles_every_terminal_witness :
  let keys := ["local://a"; "local://b"] in
  exists fate o h' l t,
    hand_off_all_runtimes willing (fun _ => 10%N) takeouts no_shutdown_fails keys (hands keys) 0 = Some (o, h', l, t) /\
    sweep o = AllMoved 2 /\ (sends l <= 68)%nat /\ fate "local://b" = Moved.
Proof.
  intros keys.
  destruct (sweep_settles_every_terminal willing (fun _ => 10%N) takeouts no_shutdown_fails keys (hands keys) 0)
    as (fate & o & h' & l & t & Hs & Hn & Hsw & _);
    [by apply (bool_decide_unpack _); vm_compute|done|by set_solver|].
  exists fate, o, h', l, t. split; [exact Hs|].
  assert (sweep o = AllMoved 2) as Ho by (vm_compute in Hs; by injection Hs as <-).
  split; [exact Ho|]. split; [exact Hn|].
  destruct Hsw as [_ Hv Hp _ _ _ _ _]. assert ("local://b" ∈ still_parked o) as Hb.
  { vm_compute in Hs. injection Hs as <- _ _ _. by right; left. }
  rewrite Hp, elem_of_with_fate in Hb. exact (proj2 Hb).
Defined.


(** An answer lost after the descriptor has left: the successor has seated the terminal, and the
    predecessor wakes its own reader on it and will offer it again. *)
Definition cut_short : HandoffError := mkError true false "successor sent an unreadable ack: }".

Example committed_failure_is_driven_again :
  let keys := ["local://a"] in
  let wire n (m : HandoffMetadata) (s : PrecommitSupport) := (inl cut_short, OneSilence) in
  (exists sys, rtc step (init 9000 (Some 5%N) a_shell Unknown false ∅) sys /\
     pred sys = Ret (wire 0%nat a_shell Unknown) /\ fd_seated sys = true) /\
  exists o h' l t,
    hand_off_all_runtimes wire (fun _ => 10%N) takeouts no_shutdown_fails keys (hands keys) 0 = Some (o, h', l, t) /\
    sent l = [(a_shell, Unknown)] /\
    still_parked o = [] /\ "local://a" ∈ terminals h' /\ ("local://a" ∉ parked h').
Proof.
  split.
  - eexists. split; [|split].
    + apply (cut_run 9000 (Some 5%N) a_shell (fun _ => None) ∅ seated_shell "v1" "}");
        first [reflexivity | discriminate | vm_compute; lia].
    + reflexivity.
    + reflexivity.
  - do 4 eexists. split; [by vm_compute|]. split; [reflexivity|]. split; [reflexivity|].
    split; by apply (bool_decide_unpack _); vm_compute.
Qed.

(** A terminal that moved in one round is offered again in the next, because the other one failed;
    if the connection fails then, its reader is woken here while the successor reads it too. *)
Example second_round_wakes_a_moved_reader :
  let keys := ["local://a"; "local://b"] in
  let first n m s := if String.eqb (PtyHandoff.runtime_key m) "local://a" then willing n m s else (inl gone, s) in
  let second n (m : HandoffMetadata) (s : PrecommitSupport) := (inl gone, s) in
  exists o h1 l t,
    hand_off_all_runtimes first (fun _ => 10%N) takeouts no_shutdown_fails keys (hands keys) 0 = Some (o, h1, l, t) /\
    sweep o = Partial 1 "local://b: connecting to successor handoff socket: gone (before the commit point — the fd stayed)" /\
    "local://a" ∈ parked h1 /\
    exists o' h2 l' t',
      hand_off_all_runtimes second (fun _ => 10%N) takeouts no_shutdown_fails keys h1 60000 = Some (o', h2, l', t') /\
      ("local://a" ∉ parked h2).
Proof.
  intros keys first second. do 4 eexists. split; [by vm_compute|]. split; [reflexivity|].
  split; [by apply (bool_decide_unpack _); vm_compute|].
  do 4 eexists. split; [by vm_compute|]. by apply (bool_decide_unpack _); vm_compute.
Qed.

(** The identity watched is the one of the last ack: a successor that is replaced between two
    terminals takes the first one with it, and the process exits all the same. *)
Example replaced_successor_is_not_noticed :
  let keys := ["local://a"; "local://b"] in
  let wire n (m : HandoffMetadata) (s : PrecommitSupport) :=
    (inr (if String.eqb (PtyHandoff.runtime_key m) "local://a" then adopted_here 100 (Some 1%N) else adopted_here 200 (Some 2%N)), Speaks) in
  let procs (n : nat) (pid : N) := if (pid =? 200)%N then Some 2%N else None in
  exists h', retire_round wire (fun _ => 10%N) takeouts no_shutdown_fails procs (fun _ => false) (fun _ => 0%N)
               10000 keys (hands keys) 0 = Some (Exited, h').
Proof. intros keys wire procs. eexists. by vm_compute. Qed.

(** The documentation says that a sweep stops at the first failure. *)
Example sweep_goes_on_after_a_failure :
  let keys := ["local://a"; "local://b"] in
  let wire n m s := if String.eqb (PtyHandoff.runtime_key m) "local://a" then (inl gone, s) else willing n m s in
  exists o h' l t,
    hand_off_all_runtimes wire (fun _ => 10%N) takeouts no_shutdown_fails keys (hands keys) 0 = Some (o, h', l, t) /\
    still_parked o = ["local://b"] /\ sends l = 2%nat.
Proof. intros keys wire. do 4 eexists. split; [by vm_compute|]. by split. Qed.

End Rounds.
