(* ===== verification/WpeJson.v ===== *)
(** * The JSON of the embedded web engine's line protocol

    src/crates/yggterm-wpe/src/json.rs: a reader and a writer for one object per line, without
    dependencies.  A [char] is its code point and a [&\[char\]] cursor is the characters that are
    left, with the index the error messages name.  An object is a [BTreeMap]: the list of its
    entries by strictly rising key.

    Numbers are [f64].  The code asks of them only [is_finite], [Display], [FromStr] and a cast;
    these are the class [F64], with the two facts of their documentation the round trip rests on
    in [F64Laws].  [int_f64] is an instance: the integers and one value that is not finite.

    The reader is recursive; [parse] gives it more fuel than it can use ([parse_total]). *)
From S2P Require Import Prelude RustStr RustChar.
From Stdlib Require Import ZifyBool ZifyN.
#[local] Open Scope N_scope.
#[local] Set Warnings "-register-all".

(** ** Characters *)

(** [char::from_u32]: surrogates and values past the last plane are not characters. *)
Definition char_from_u32 (code : N) : option N :=
  if in_range 55296 57343 code || (1114111 <? code) then None else Some code.

Definition hex_value (c : N) : option N :=
  if in_range 48 57 c then Some (c - 48)
  else if in_range 97 102 c then Some (c - 87)
  else if in_range 65 70 c then Some (c - 55)
  else None.

(** [u32::from_str_radix(_, 16)]; four digits cannot overflow. *)
Fixpoint hex_digits (acc : N) (s : text) : option N :=
  match s with
  | [] => Some acc
  | c :: s' => match hex_value c with Some d => hex_digits (16 * acc + d) s' | None => None end
  end.

Definition from_str_radix_16 (s : text) : option N :=
  match s with
  | [] => None
  | [c] => hex_digits 0 [c]
  | c :: s' => if c =? 43 then hex_digits 0 s' else hex_digits 0 s
  end.

Definition hex_char (d : N) : N := if d <? 10 then 48 + d else 87 + d.

(** [format!("{:04x}")] of a value below 65536. *)
Definition hex4 (c : N) : text :=
  [hex_char (c / 4096 mod 16); hex_char (c / 256 mod 16); hex_char (c / 16 mod 16); hex_char (c mod 16)].

(** [String]'s order, which on UTF-8 is the order of the code points. *)
Fixpoint text_compare (a b : text) : comparison :=
  match a, b with
  | [], [] => Eq
  | [], _ :: _ => Lt
  | _ :: _, [] => Gt
  | x :: a', y :: b' => match x ?= y with Eq => text_compare a' b' | o => o end
  end.

(** ** Numbers *)

Class F64 (num : Type) := {
  is_finite : num -> bool;
  f64_nonneg : num -> bool;
  f64_show : num -> text;
  f64_parse : text -> option num;
  f64_as_u32 : num -> N
}.

(** The characters [parse_number] collects after an optional sign. *)
Definition number_char (c : N) : bool :=
  is_ascii_digit c || (c =? 46) || (c =? 101) || (c =? 69) || (c =? 43) || (c =? 45).

(** [Display] of a finite [f64] is a sign, digits and at most a point, and reads back as the
    same value. *)
Class F64Laws (num : Type) `{!F64 num} : Prop := {
  show_number n : is_finite n = true ->
    Forall (fun c => number_char c = true) (f64_show n) /\
    exists c r, f64_show n = c :: r /\ (is_ascii_digit c = true \/ c = 45);
  parse_show n : is_finite n = true -> f64_parse (f64_show n) = Some n
}.

Ltac char_lia :=
  unfold is_whitespace, number_char, is_ascii_digit, in_range in *; try lia.

(** ** Values *)

Section json.
Context {num : Type} `{!F64 num}.

Inductive Json : Type :=
| Null
| Bool (b : bool)
| Number (n : num)
| JString (s : text)
| Array (items : list Json)
| Object (map : list (text * Json)).

(** [BTreeMap::insert] and [BTreeMap::get]. *)
Fixpoint map_insert (key : text) (value : Json) (map : list (text * Json)) : list (text * Json) :=
  match map with
  | [] => [(key, value)]
  | (k, v) :: map' =>
    match text_compare key k with
    | Lt => (key, value) :: map
    | Eq => (k, value) :: map'
    | Gt => (k, v) :: map_insert key value map'
    end
  end.

Fixpoint map_get (key : text) (map : list (text * Json)) : option Json :=
  match map with
  | [] => None
  | (k, v) :: map' => if decide (key = k) then Some v else map_get key map'
  end.

Definition get (key : text) (j : Json) : option Json :=
  match j with Object map => map_get key map | _ => None end.

Definition as_str (j : Json) : option text := match j with JString s => Some s | _ => None end.
Definition as_f64 (j : Json) : option num := match j with Number n => Some n | _ => None end.
Definition as_bool (j : Json) : option bool := match j with Bool b => Some b | _ => None end.
Definition as_array (j : Json) : option (list Json) :=
  match j with Array items => Some items | _ => None end.

Definition as_u32 (j : Json) : option N :=
  match as_f64 j with
  | Some n => if f64_nonneg n && is_finite n then Some (f64_as_u32 n) else None
  | None => None
  end.

Definition obj (pairs : list (text * Json)) : Json :=
  Object (foldl (fun map '(k, v) => map_insert k v map) [] pairs).

(** ** Writing *)

Definition write_char (ch : N) : text :=
  if ch =? 34 then chars "\" ++ [34]
  else if ch =? 92 then chars "\\"
  else if ch =? 10 then chars "\n"
  else if ch =? 13 then chars "\r"
  else if ch =? 9 then chars "\t"
  else if ch <? 32 then chars "\u" ++ hex4 ch
  else [ch].

Definition write_string (s : text) : text := 34 :: flat_map write_char s ++ [34].

Fixpoint comma_separated (parts : list text) : text :=
  match parts with
  | [] => []
  | [p] => p
  | p :: parts' => p ++ 44 :: comma_separated parts'
  end.

Fixpoint write (j : Json) : text :=
  match j with
  | Null => chars "null"
  | Bool true => chars "true"
  | Bool false => chars "false"
  | Number n => if is_finite n then f64_show n else chars "null"
  | JString s => write_string s
  | Array items => 91 :: comma_separated (map write items) ++ [93]
  | Object entries =>
    123 :: comma_separated (map (fun '(k, v) => write_string k ++ 58 :: write v) entries) ++ [125]
  end.

Definition to_string (j : Json) : text := write j.

(** ** Reading *)

Inductive parse_error :=
| TrailingInput (at_ : nat)
| UnexpectedEnd
| ExpectedWord (word : text) (at_ : nat)
| ExpectedColon (key : text)
| ExpectedObjectSeparator
| ExpectedArraySeparator
| ExpectedString (at_ : nat)
| UnterminatedString
| UnterminatedEscape
| ShortUnicodeEscape
| BadUnicodeEscape
| UnknownEscape (other : N)
| BadNumber (text_ : text).

(** [(b, at)]: the index and the characters from it on. *)
Record cursor := { at_ : nat; rest : text }.

Definition peek (c : cursor) : option N := head (rest c).
Definition advance (n : nat) (c : cursor) : cursor :=
  {| at_ := at_ c + n; rest := drop n (rest c) |}.

Fixpoint count_while (f : N -> bool) (s : text) : nat :=
  match s with
  | c :: s' => if f c then S (count_while f s') else 0
  | [] => 0
  end.

Definition skip_ws (c : cursor) : cursor := advance (count_while is_whitespace (rest c)) c.

Definition literal (c : cursor) (word : text) (value : Json) : result (Json * cursor) parse_error :=
  if decide (take (length word) (rest c) = word) then Ok (value, advance (length word) c)
  else Err (ExpectedWord word (at_ c)).

(** The simple escapes of [parse_string]. *)
Definition unescape (escape : N) : option N :=
  if escape =? 34 then Some 34
  else if escape =? 92 then Some 92
  else if escape =? 47 then Some 47
  else if escape =? 98 then Some 8
  else if escape =? 102 then Some 12
  else if escape =? 110 then Some 10
  else if escape =? 114 then Some 13
  else if escape =? 116 then Some 9
  else None.

Definition unicode_escape (hex : text) : result N parse_error :=
  match from_str_radix_16 hex with
  | Some code => Ok (default 65533 (char_from_u32 code))
  | None => Err BadUnicodeEscape
  end.

(** The loop of [parse_string], after the opening quote. *)
Fixpoint string_loop (s : text) (at_ : nat) (out : text) : result (text * cursor) parse_error :=
  match s with
  | [] => Err UnterminatedString
  | ch :: s' =>
    if ch =? 34 then Ok (out, {| at_ := at_ + 1; rest := s' |})
    else if ch =? 92 then
      match s' with
      | [] => Err UnterminatedEscape
      | escape :: s'' =>
        match unescape escape with
        | Some c => string_loop s'' (at_ + 2) (out ++ [c])
        | None =>
          if escape =? 117 then
            match s'' with
            | h1 :: h2 :: h3 :: h4 :: s''' =>
              match unicode_escape [h1; h2; h3; h4] with
              | Ok c => string_loop s''' (at_ + 6) (out ++ [c])
              | Err e => Err e
              end
            | _ => Err ShortUnicodeEscape
            end
          else Err (UnknownEscape escape)
        end
      end
    else string_loop s' (at_ + 1) (out ++ [ch])
  end.

Definition parse_string (c : cursor) : result (text * cursor) parse_error :=
  match rest c with
  | ch :: s => if ch =? 34 then string_loop s (at_ c + 1) [] else Err (ExpectedString (at_ c))
  | [] => Err (ExpectedString (at_ c))
  end.

Definition parse_number (c : cursor) : result (Json * cursor) parse_error :=
  let sign := if decide (peek c = Some 45) then 1%nat else 0%nat in
  let n := (sign + count_while number_char (drop sign (rest c)))%nat in
  match f64_parse (take n (rest c)) with
  | Some v => Ok (Number v, advance n c)
  | None => Err (BadNumber (take n (rest c)))
  end.

(** The readers of values.  [None] is fuel that ran out; the code has no such outcome. *)
Fixpoint parse_value (fuel : nat) (c0 : cursor) : option (result (Json * cursor) parse_error) :=
  match fuel with
  | O => None
  | S fuel =>
    let c := skip_ws c0 in
    match peek c with
    | None => Some (Err UnexpectedEnd)
    | Some ch =>
      if ch =? 123 then parse_object fuel c
      else if ch =? 91 then parse_array fuel c
      else if ch =? 34 then
        Some (match parse_string c with Ok (s, c') => Ok (JString s, c') | Err e => Err e end)
      else if ch =? 116 then Some (literal c (chars "true") (Bool true))
      else if ch =? 102 then Some (literal c (chars "false") (Bool false))
      else if ch =? 110 then Some (literal c (chars "null") Null)
      else Some (parse_number c)
    end
  end
with parse_object (fuel : nat) (c : cursor) : option (result (Json * cursor) parse_error) :=
  match fuel with
  | O => None
  | S fuel =>
    let c1 := skip_ws (advance 1 c) in
    if decide (peek c1 = Some 125) then Some (Ok (Object [], advance 1 c1))
    else object_loop fuel c1 []
  end
with object_loop (fuel : nat) (c : cursor) (map : list (text * Json)) :
    option (result (Json * cursor) parse_error) :=
  match fuel with
  | O => None
  | S fuel =>
    match parse_string (skip_ws c) with
    | Err e => Some (Err e)
    | Ok (key, c1) =>
      let c2 := skip_ws c1 in
      if decide (peek c2 = Some 58) then
        match parse_value fuel (advance 1 c2) with
        | None => None
        | Some (Err e) => Some (Err e)
        | Some (Ok (value, c3)) =>
          let map := map_insert key value map in
          let c4 := skip_ws c3 in
          match peek c4 with
          | Some ch =>
            if ch =? 44 then object_loop fuel (advance 1 c4) map
            else if ch =? 125 then Some (Ok (Object map, advance 1 c4))
            else Some (Err ExpectedObjectSeparator)
          | None => Some (Err ExpectedObjectSeparator)
          end
        end
      else Some (Err (ExpectedColon key))
    end
  end
with parse_array (fuel : nat) (c : cursor) : option (result (Json * cursor) parse_error) :=
  match fuel with
  | O => None
  | S fuel =>
    let c1 := skip_ws (advance 1 c) in
    if decide (peek c1 = Some 93) then Some (Ok (Array [], advance 1 c1))
    else array_loop fuel c1 []
  end
with array_loop (fuel : nat) (c : cursor) (items : list Json) :
    option (result (Json * cursor) parse_error) :=
  match fuel with
  | O => None
  | S fuel =>
    match parse_value fuel c with
    | None => None
    | Some (Err e) => Some (Err e)
    | Some (Ok (item, c1)) =>
      let items := items ++ [item] in
      let c2 := skip_ws c1 in
      match peek c2 with
      | Some ch =>
        if ch =? 44 then array_loop fuel (advance 1 c2) items
        else if ch =? 93 then Some (Ok (Array items, advance 1 c2))
        else Some (Err ExpectedArraySeparator)
      | None => Some (Err ExpectedArraySeparator)
      end
    end
  end.

Definition parse_fuel (input : text) : nat := 4 * length input + 4.

Definition parse (input : text) : option (result Json parse_error) :=
  let c := skip_ws {| at_ := 0; rest := input |} in
  match parse_value (parse_fuel input) c with
  | None => None
  | Some (Err e) => Some (Err e)
  | Some (Ok (value, c')) =>
    let c' := skip_ws c' in
    if decide (at_ c' = length input) then Some (Ok value)
    else Some (Err (TrailingInput (at_ c')))
  end.

(** ** Well-formed values, and what of a value reaches the other side *)

Definition key_lt (a b : text * Json) : Prop := text_compare a.1 b.1 = Lt.

(** Objects have their keys strictly in order, at every depth. *)
Fixpoint wf (j : Json) : Prop :=
  match j with
  | Array items => foldr (fun i P => wf i /\ P) True items
  | Object entries => StronglySorted key_lt entries /\ foldr (fun e P => wf e.2 /\ P) True entries
  | _ => True
  end.

(** A number that is not finite is written as [null]. *)
Fixpoint wire (j : Json) : Json :=
  match j with
  | Number n => if is_finite n then Number n else Null
  | Array items => Array (map wire items)
  | Object entries => Object (map (fun '(k, v) => (k, wire v)) entries)
  | _ => j
  end.

Lemma Json_nested_ind (P : Json -> Prop) :
  P Null -> (forall b, P (Bool b)) -> (forall n, P (Number n)) -> (forall s, P (JString s)) ->
  (forall items, Forall P items -> P (Array items)) ->
  (forall entries, Forall (fun e => P e.2) entries -> P (Object entries)) ->
  forall j, P j.
Proof.
  intros Hnull Hbool Hnum Hstr Harr Hobj. fix IH 1. intros [|b|n|s|items|entries].
  - exact Hnull.
  - apply Hbool.
  - apply Hnum.
  - apply Hstr.
  - apply Harr. induction items; constructor; auto.
  - apply Hobj. induction entries as [|[k v] entries IHe]; constructor; auto.
Qed.

Lemma foldr_and {A} (P : A -> Prop) (l : list A) : foldr (fun x Q => P x /\ Q) True l <-> Forall P l.
Proof. induction l; simpl; [split; [constructor|done]|]. rewrite Forall_cons. tauto. Qed.

Lemma wf_Array items : wf (Array items) <-> Forall wf items.
Proof. apply foldr_and. Qed.

Lemma wf_Object entries :
  wf (Object entries) <-> StronglySorted key_lt entries /\ Forall (fun e => wf e.2) entries.
Proof. cbn [wf]. by rewrite (foldr_and (fun e : text * Json => wf e.2)). Qed.

(** ** The order of keys *)

Lemma text_compare_eq a b : text_compare a b = Eq <-> a = b.
Proof.
  revert b. induction a as [|x a IH]; intros [|y b]; simpl; try done.
  destruct (x ?= y) eqn:E.
  - apply N.compare_eq_iff in E as ->. rewrite IH. split; congruence.
  - split; [done|]. intros [= -> _]. by rewrite N.compare_refl in E.
  - split; [done|]. intros [= -> _]. by rewrite N.compare_refl in E.
Qed.

Lemma text_compare_antisym a b : text_compare b a = CompOpp (text_compare a b).
Proof.
  revert b. induction a as [|x a IH]; intros [|y b]; simpl; try done.
  rewrite (N.compare_antisym x y). destruct (x ?= y); simpl; auto.
Qed.

Lemma text_compare_lt_trans a b c :
  text_compare a b = Lt -> text_compare b c = Lt -> text_compare a c = Lt.
Proof.
  revert b c. induction a as [|x a IH]; intros [|y b] [|z c]; simpl; try done.
  destruct (N.compare_spec x y) as [->|Hxy|Hxy]; [|intros _|done].
  - destruct (N.compare_spec y z); [by apply IH|done|done].
  - destruct (N.compare_spec y z) as [->|Hyz|Hyz]; [intros _|intros _|done];
      by rewrite (proj2 (N.compare_lt_iff x z) ltac:(lia)).
Qed.

Lemma text_compare_refl a : text_compare a a = Eq.
Proof. by apply text_compare_eq. Qed.

Lemma map_insert_last k v entries :
  Forall (fun e => text_compare e.1 k = Lt) entries -> map_insert k v entries = entries ++ [(k, v)].
Proof.
  induction 1 as [|[k' v'] entries Hlt _ IH]; simpl; [done|].
  rewrite text_compare_antisym. simpl in Hlt. rewrite Hlt. simpl. by rewrite IH.
Qed.

Lemma map_insert_Forall (P : text * Json -> Prop) k v entries :
  (forall k', k' = k -> P (k', v)) -> Forall P entries -> Forall P (map_insert k v entries).
Proof.
  intros HP. induction 1 as [|[k' v'] entries He Hes IH]; simpl.
  - repeat constructor. by apply HP.
  - destruct (text_compare k k') eqn:E; repeat constructor; auto.
    apply HP. symmetry. by apply text_compare_eq.
Qed.

Lemma map_insert_sorted k v entries :
  StronglySorted key_lt entries -> StronglySorted key_lt (map_insert k v entries).
Proof.
  induction 1 as [|[k' v'] entries Hs IH Hall]; simpl; [repeat constructor|].
  destruct (text_compare k k') eqn:E.
  - by constructor.
  - constructor; [by constructor|]. constructor; [done|].
    eapply Forall_impl; [exact Hall|]. intros e He. by eapply text_compare_lt_trans.
  - constructor; [done|]. apply map_insert_Forall; [|done].
    intros ? ->. unfold key_lt. simpl. by rewrite text_compare_antisym, E.
Qed.

Lemma map_get_insert key k v entries :
  map_get key (map_insert k v entries) = if decide (key = k) then Some v else map_get key entries.
Proof.
  induction entries as [|[k' v'] entries IH]; simpl; [done|].
  destruct (text_compare k k') eqn:E; simpl.
  - apply text_compare_eq in E as ->. repeat case_decide; congruence.
  - repeat case_decide; congruence.
  - rewrite IH. destruct (decide (key = k)) as [->|]; [|done].
    rewrite decide_False; [done|]. intros ->. by rewrite text_compare_refl in E.
Qed.

(** ** Cursors: every reader moves forward over what it reads *)

Definition follows (c c' : cursor) : Prop := exists n, (n <= length (rest c))%nat /\ c' = advance n c.

Definition left_of (c : cursor) : nat := length (rest c).

Lemma cursor_eq n s c : at_ c = n -> rest c = s -> c = {| at_ := n; rest := s |}.
Proof. destruct c; simpl; congruence. Qed.

Lemma advance_advance n m c : advance m (advance n c) = advance (n + m) c.
Proof. unfold advance; simpl. by rewrite drop_drop, Nat.add_assoc. Qed.

Lemma advance_0 c : advance 0 c = c.
Proof. destruct c. unfold advance; simpl. by rewrite Nat.add_0_r. Qed.

Lemma follows_refl c : follows c c.
Proof. exists 0%nat. split; [lia|]. by rewrite advance_0. Qed.

Lemma follows_trans c1 c2 c3 : follows c1 c2 -> follows c2 c3 -> follows c1 c3.
Proof.
  intros (n&Hn&->) (m&Hm&->). exists (n + m)%nat. rewrite advance_advance. split; [|done].
  simpl in Hm. rewrite length_drop in Hm. lia.
Qed.

Lemma follows_left c c' : follows c c' -> (left_of c' <= left_of c)%nat /\
  (at_ c' + left_of c' = at_ c + left_of c)%nat.
Proof. intros (n&Hn&->). unfold left_of. simpl. rewrite length_drop. lia. Qed.

Lemma count_while_le f s : (count_while f s <= length s)%nat.
Proof. induction s as [|c s IH]; simpl; [done|]. destruct (f c); simpl; lia. Qed.

Lemma skip_ws_follows c : follows c (skip_ws c).
Proof. eexists. split; [|done]. apply count_while_le. Qed.

Lemma peek_advance c ch : peek c = Some ch ->
  follows c (advance 1 c) /\ (left_of (advance 1 c) < left_of c)%nat.
Proof.
  unfold peek. destruct c as [a [|x s]]; [done|]. intros _. split; [exists 1%nat|]; simpl.
  - by split; [lia|].
  - unfold left_of; simpl. rewrite ?drop_0. lia.
Qed.

Lemma literal_follows c word v j c' : literal c word v = Ok (j, c') -> follows c c' /\ j = v.
Proof.
  unfold literal. case_decide as H; [|done]. intros [= <- <-]. split; [|done].
  eexists. split; [|done]. rewrite <- H at 1. rewrite length_take. lia.
Qed.

Lemma parse_number_follows c j c' :
  parse_number c = Ok (j, c') -> follows c c' /\ exists n, j = Number n.
Proof.
  unfold parse_number. destruct (f64_parse _); [|done]. intros [= <- <-]. split; [|eauto].
  eexists. split; [|done]. pose proof (count_while_le number_char (drop (if decide (peek c = Some 45) then 1%nat else 0%nat) (rest c))) as H.
  rewrite length_drop in H. unfold peek in *. case_decide as Hp; [|lia].
  destruct (rest c); simpl in *; [done|lia].
Qed.

Lemma string_loop_follows s a out t c' :
  string_loop s a out = Ok (t, c') -> follows {| at_ := a; rest := s |} c' /\ (left_of c' < length s)%nat.
Proof.
  remember (length s) as n eqn:Hn. revert s a out Hn.
  induction (lt_wf n) as [n _ IH]; intros s a out ->.
  assert (forall k s' o, (1 <= k <= length s)%nat -> s' = drop k s ->
    string_loop s' (a + k) o = Ok (t, c') ->
    follows {| at_ := a; rest := s |} c' /\ (left_of c' < length s)%nat) as Hrec.
  { intros k s' o Hk -> H. apply (IH (length (drop k s))) in H as [Hf Hl]; [|rewrite length_drop; lia|done].
    split; [|rewrite length_drop in Hl; lia]. eapply follows_trans; [|exact Hf].
    exists k. split; [simpl; lia|done]. }
  destruct s as [|ch s]; simpl; [done|]. case_match.
  { intros [= <- <-]. split; [|unfold left_of; simpl; lia]. exists 1%nat. split; [simpl; lia|done]. }
  case_match; [|apply (Hrec 1%nat); simpl; [lia|done]].
  destruct s as [|escape s]; [done|].
  destruct (unescape escape); [apply (Hrec 2%nat); simpl; [lia|done]|].
  case_match; [|done]. destruct s as [|h1 [|h2 [|h3 [|h4 s]]]]; try done.
  destruct (unicode_escape _); [|done]. apply (Hrec 6%nat); simpl; [lia|done].
Qed.

Lemma parse_string_follows c t c' :
  parse_string c = Ok (t, c') -> follows c c' /\ (left_of c' < left_of c)%nat.
Proof.
  unfold parse_string. destruct c as [a [|ch s]]; simpl; [done|]. case_match; [|done].
  intros [Hf Hl]%string_loop_follows. split; [|unfold left_of in *; simpl; lia].
  eapply follows_trans; [|exact Hf]. exists 1%nat. split; [simpl; lia|]. done.
Qed.

(** ** The readers return, move forward and build well-formed values *)

(** The outcome of a reader started at [c] with enough fuel. *)
Definition returns (r : option (result (Json * cursor) parse_error)) (c : cursor) : Prop :=
  exists x, r = Some x /\ forall j c', x = Ok (j, c') -> follows c c' /\ wf j.

Lemma returns_Err e c : returns (Some (Err e)) c.
Proof. eexists. split; [done|]. done. Qed.

Lemma returns_Ok j c c' : follows c c' -> wf j -> returns (Some (Ok (j, c'))) c.
Proof. intros Hf Hj. eexists. split; [done|]. by intros ?? [= <- <-]. Qed.

Lemma returns_later r c c' : follows c c' -> returns r c' -> returns r c.
Proof.
  intros Hf (x&->&Hx). eexists. split; [done|]. intros j c'' ->.
  destruct (Hx _ _ eq_refl) as [? ?]. split; [by eapply follows_trans|done].
Qed.

Lemma returns_leaf x c :
  (forall j c', x = Ok (j, c') -> follows c c' /\ (forall m, j <> Object m) /\ (forall a, j <> Array a)) ->
  returns (Some x) c.
Proof.
  intros H. eexists. split; [done|]. intros j c' ->. destruct (H _ _ eq_refl) as (Hf&Ho&Ha).
  split; [done|]. destruct j; try done; [by edestruct Ha|by edestruct Ho].
Qed.

Definition readers_return (fuel : nat) : Prop :=
  (forall c, 4 * left_of c + 3 <= fuel -> returns (parse_value fuel c) c)%nat /\
  (forall c, peek c <> None -> 4 * left_of c + 2 <= fuel -> returns (parse_object fuel c) c)%nat /\
  (forall c m, wf (Object m) -> 4 * left_of c + 4 <= fuel -> returns (object_loop fuel c m) c)%nat /\
  (forall c, peek c <> None -> 4 * left_of c + 2 <= fuel -> returns (parse_array fuel c) c)%nat /\
  (forall c a, wf (Array a) -> 4 * left_of c + 4 <= fuel -> returns (array_loop fuel c a) c)%nat.

Lemma peek_step c c' ch : follows c c' -> peek c' = Some ch ->
  follows c (advance 1 c') /\ (left_of (advance 1 c') < left_of c)%nat.
Proof.
  intros Hf [Hf' Hl]%peek_advance. split; [by eapply follows_trans|].
  apply follows_left in Hf. lia.
Qed.

Lemma skip_left c : (left_of (skip_ws c) <= left_of c)%nat.
Proof. apply (follows_left _ _ (skip_ws_follows c)). Qed.

Lemma parse_value_returns fuel c :
  readers_return fuel -> (4 * left_of c + 3 <= S fuel)%nat -> returns (parse_value (S fuel) c) c.
Proof.
  intros (_&Hobj&_&Harr&_) Hfuel. pose proof (skip_left c) as Hs.
  apply (returns_later _ _ _ (skip_ws_follows c)). cbn [parse_value].
  destruct (peek (skip_ws c)) as [ch|] eqn:Hp; [|apply returns_Err].
  case_match; [apply Hobj; [congruence|lia]|].
  case_match; [apply Harr; [congruence|lia]|].
  destruct (ch =? 34); [apply returns_leaf; intros j c'|].
  { destruct (parse_string _) as [[t c'']|] eqn:E; [|done]. intros [= <- <-].
    by apply parse_string_follows in E as [? _]. }
  repeat (case_match; [apply returns_leaf; by intros j c' [? ->]%literal_follows|]).
  apply returns_leaf. by intros j c' [? [n ->]]%parse_number_follows.
Qed.

Lemma object_loop_returns fuel c m :
  readers_return fuel -> wf (Object m) -> (4 * left_of c + 4 <= S fuel)%nat ->
  returns (object_loop (S fuel) c m) c.
Proof.
  intros (Hval&_&Hloop&_) Hm Hfuel. pose proof (skip_left c) as Hs. cbn [object_loop].
  destruct (parse_string (skip_ws c)) as [[key c1]|] eqn:Hkey; [|apply returns_Err].
  apply parse_string_follows in Hkey as [Hf1 Hl1].
  apply (follows_trans _ _ _ (skip_ws_follows c)) in Hf1.
  case_decide as Hcolon; [|apply returns_Err].
  destruct (peek_step _ _ _ (skip_ws_follows c1) Hcolon) as [Hf2 Hl2].
  destruct (Hval (advance 1 (skip_ws c1)) ltac:(lia)) as (x&->&Hx).
  destruct x as [[value c3]|]; [|apply returns_Err].
  destruct (Hx _ _ eq_refl) as [Hf3 Hv]. pose proof (follows_left _ _ Hf3) as [Hl3 _].
  assert (follows c c3) as Hf by eauto using follows_trans.
  apply wf_Object in Hm as [Hms Hmw].
  assert (wf (Object (map_insert key value m))) as Hm'.
  { apply wf_Object. split; [by apply map_insert_sorted|]. by apply map_insert_Forall. }
  destruct (peek (skip_ws c3)) as [ch|] eqn:Hp; [|apply returns_Err].
  destruct (peek_step _ _ _ (skip_ws_follows c3) Hp) as [Hf4 Hl4].
  destruct (ch =? 44); [|destruct (ch =? _); [|apply returns_Err]].
  - apply (returns_later _ _ (advance 1 (skip_ws c3))); [by eapply follows_trans|].
    apply Hloop; [done|lia].
  - apply returns_Ok; [by eapply follows_trans|done].
Qed.

Lemma array_loop_returns fuel c a :
  readers_return fuel -> wf (Array a) -> (4 * left_of c + 4 <= S fuel)%nat ->
  returns (array_loop (S fuel) c a) c.
Proof.
  intros (Hval&_&_&_&Hloop) Ha Hfuel. cbn [array_loop].
  destruct (Hval c ltac:(lia)) as (x&->&Hx). destruct x as [[item c1]|]; [|apply returns_Err].
  destruct (Hx _ _ eq_refl) as [Hf1 Hi]. pose proof (follows_left _ _ Hf1) as [Hl1 _].
  assert (wf (Array (a ++ [item]))) as Ha'.
  { apply wf_Array. apply wf_Array in Ha. apply Forall_app. split; [done|]. by constructor. }
  destruct (peek (skip_ws c1)) as [ch|] eqn:Hp; [|apply returns_Err].
  destruct (peek_step _ _ _ (skip_ws_follows c1) Hp) as [Hf2 Hl2].
  destruct (ch =? 44); [|destruct (ch =? _); [|apply returns_Err]].
  - apply (returns_later _ _ (advance 1 (skip_ws c1))); [by eapply follows_trans|].
    apply Hloop; [done|lia].
  - apply returns_Ok; [by eapply follows_trans|done].
Qed.

Lemma bracket_returns (c : cursor) close (empty : Json) (r : option (result (Json * cursor) parse_error)) :
  peek c <> None -> wf empty ->
  (let c1 := skip_ws (advance 1 c) in
   (left_of c1 < left_of c)%nat -> returns r c1) ->
  returns (let c1 := skip_ws (advance 1 c) in
    if decide (peek c1 = Some close) then Some (Ok (empty, advance 1 c1)) else r) c.
Proof.
  intros Hp He Hr. destruct (peek c) as [ch|] eqn:Hc; [|done]. clear Hp.
  destruct (peek_advance _ _ Hc) as [Hf Hl]. cbn zeta.
  pose proof (skip_left (advance 1 c)) as Hs. case_decide as Hclose.
  - apply returns_Ok; [|done]. eapply follows_trans; [exact Hf|].
    by eapply peek_step; [apply skip_ws_follows|].
  - eapply returns_later; [|apply Hr; lia]. eapply follows_trans; [exact Hf|apply skip_ws_follows].
Qed.

Lemma readers_return_all fuel : readers_return fuel.
Proof.
  induction fuel as [|fuel IH]; [unfold readers_return; split_and!; intros; lia|].
  pose proof IH as (_&_&Hobj&_&Harr). split_and!.
  - intros c Hc. by apply parse_value_returns.
  - intros c Hp Hc. apply bracket_returns; [done|by apply wf_Object; repeat constructor|].
    intros c1 Hl. apply Hobj; [by apply wf_Object; repeat constructor|lia].
  - intros c m Hm Hc. by apply object_loop_returns.
  - intros c Hp Hc. apply bracket_returns; [done|by apply wf_Array|].
    intros c1 Hl. apply Harr; [by apply wf_Array|lia].
  - intros c a Ha Hc. by apply array_loop_returns.
Qed.

(** ** Reading back what was written *)

(** What may follow a number without becoming part of it. *)
Definition stops (r : text) : Prop :=
  match r with ch :: _ => number_char ch = false | [] => True end.

Lemma rest_advance u r c : rest c = u ++ r -> rest (advance (length u) c) = r.
Proof. intros H. simpl. by rewrite H, drop_app_length. Qed.

Lemma skip_ws_id c ch r : rest c = ch :: r -> is_whitespace ch = false -> skip_ws c = c.
Proof. intros Hc Hch. unfold skip_ws. rewrite Hc. simpl. rewrite Hch. apply advance_0. Qed.

Lemma peek_rest c ch r : rest c = ch :: r -> peek c = Some ch.
Proof. unfold peek. by intros ->. Qed.

Lemma literal_writes c word v ch u r :
  rest c = ch :: u ++ r -> word = ch :: u -> literal c word v = Ok (v, advance (length word) c).
Proof. intros Hc ->. change (rest c = (ch :: u) ++ r) in Hc. unfold literal. by rewrite Hc, take_app_length, decide_True. Qed.

(** *** Strings *)

Lemma control_escape_reads :
  forallb (fun c => match unicode_escape (hex4 c) with Ok c' => c' =? c | Err _ => false end)
    (map N.of_nat (seq 0 32)) = true.
Proof. reflexivity. Qed.

Lemma unicode_escape_hex4 c : c < 32 -> unicode_escape (hex4 c) = Ok c.
Proof.
  intros Hc. assert (In c (map N.of_nat (seq 0 32))) as Hin.
  { apply in_map_iff. exists (N.to_nat c). rewrite N2Nat.id. split; [done|]. apply in_seq. lia. }
  pose proof (proj1 (forallb_forall _ _) control_escape_reads c Hin) as H. simpl in H.
  destruct (unicode_escape (hex4 c)); [|done]. f_equal. lia.
Qed.

Lemma string_loop_char ch s a out :
  string_loop (write_char ch ++ s) a out = string_loop s (a + length (write_char ch)) (out ++ [ch]).
Proof.
  unfold write_char.
  repeat (case_match; [simpl; repeat case_match; simplify_eq; try lia;
    by rewrite <- ?Nat.add_assoc; repeat f_equal; lia|]).
  destruct (ch <? 32) eqn:Hctl.
  - change (string_loop (92 :: 117 :: hex4 ch ++ s) a out = string_loop s (a + 6) (out ++ [ch])).
    unfold hex4. cbn [app string_loop]. change (92 =? 34) with false.
    change (92 =? 92) with true. change (unescape 117) with (None (A := N)).
    change (117 =? 117) with true. cbv iota.
    pose proof (unicode_escape_hex4 ch ltac:(lia)) as Hhex. unfold hex4 in Hhex. by rewrite Hhex.
  - cbn [app string_loop length]. by rewrite H, H0.
Qed.

Lemma string_loop_writes s a out r :
  string_loop (flat_map write_char s ++ 34 :: r) a out =
  Ok (out ++ s, {| at_ := a + length (flat_map write_char s) + 1; rest := r |}).
Proof.
  revert a out. induction s as [|ch s IH]; intros a out.
  - simpl. by rewrite Nat.add_0_r, app_nil_r.
  - cbn [flat_map]. rewrite <- app_assoc, string_loop_char, IH, length_app, <- app_assoc.
    by rewrite !Nat.add_assoc.
Qed.

Lemma parse_string_writes c s r :
  rest c = write_string s ++ r ->
  parse_string c = Ok (s, advance (length (write_string s)) c).
Proof.
  intros Hc. unfold parse_string. rewrite Hc. unfold write_string at 1. cbn [app].
  rewrite <- app_assoc. simpl ([34] ++ r). change (34 =? 34) with true. cbv iota.
  rewrite string_loop_writes. do 2 f_equal. symmetry. apply cursor_eq; [|by apply rest_advance].
  simpl. rewrite length_app. simpl. lia.
Qed.

(** *** Numbers *)

Context `{!F64Laws num}.

Lemma count_while_app f u r :
  Forall (fun c => f c = true) u -> match r with ch :: _ => f ch = false | [] => True end ->
  count_while f (u ++ r) = length u.
Proof.
  intros Hu Hr. induction Hu as [|c u Hc _ IH]; simpl; [|by rewrite Hc, IH].
  destruct r as [|ch r]; simpl; [done|]. by rewrite Hr.
Qed.

Lemma parse_number_writes c n r :
  rest c = f64_show n ++ r -> is_finite n = true -> stops r ->
  parse_number c = Ok (Number n, advance (length (f64_show n)) c).
Proof using F64Laws0.
  intros Hc Hn Hr. destruct (show_number n Hn) as (Hall&c0&u&Hu&_).
  assert (forall k, (k <= 1)%nat ->
    (k + count_while number_char (drop k (rest c)) = length (f64_show n))%nat) as Hlen.
  { intros k Hk. rewrite Hc, Hu in *. destruct k as [|[|k]]; [| |lia].
    - by rewrite drop_0, (count_while_app _ (c0 :: u)).
    - simpl. f_equal. apply count_while_app; [by apply Forall_cons in Hall as [_ ?]|done]. }
  unfold parse_number. rewrite (Hlen (if decide (peek c = Some 45) then 1%nat else 0%nat))
    by (case_decide; lia).
  by rewrite Hc, take_app_length, parse_show.
Qed.

(** *** Values *)

(** [v] is read back, in front of anything that may follow a value. *)
Definition reads_back (v : Json) : Prop :=
  forall fuel c r x, rest c = write v ++ r -> stops r ->
    parse_value fuel c = Some x -> x = Ok (wire v, advance (length (write v)) c).

Ltac fixed_start := do 2 eexists; split_and!; [reflexivity|reflexivity|discriminate|discriminate].

Lemma write_start v : exists ch u, write v = ch :: u /\ is_whitespace ch = false /\
  ch <> 93 /\ ch <> 125.
Proof using F64Laws0.
  destruct v as [|[]|n|s|items|entries]; cbn [write];
    [fixed_start..| |fixed_start|fixed_start|fixed_start].
  destruct (is_finite n) eqn:Hn; [|fixed_start].
  destruct (show_number n Hn) as (_&c&u&->&Hc). exists c, u. split; [done|]. char_lia.
Qed.

Lemma reads_back_leaf v :
  (forall fuel c ch u r, rest c = ch :: u ++ r -> write v = ch :: u -> is_whitespace ch = false ->
    stops r -> parse_value (S fuel) c = Some (Ok (wire v, advance (length (write v)) c))) ->
  reads_back v.
Proof using F64Laws0.
  intros H [|fuel] c r x Hc Hr Hx; [done|].
  destruct (write_start v) as (ch&u&Hu&Hws&_). rewrite Hu in Hc.
  rewrite (H fuel c ch u r Hc Hu Hws Hr) in Hx. congruence.
Qed.

(** One step of [parse_value] at a character that is not white space. *)
Lemma parse_value_at fuel c ch u :
  rest c = ch :: u -> is_whitespace ch = false ->
  parse_value (S fuel) c =
    (if ch =? 123 then parse_object fuel c
     else if ch =? 91 then parse_array fuel c
     else if ch =? 34 then
       Some (match parse_string c with Ok (s, c') => Ok (JString s, c') | Err e => Err e end)
     else if ch =? 116 then Some (literal c (chars "true") (Bool true))
     else if ch =? 102 then Some (literal c (chars "false") (Bool false))
     else if ch =? 110 then Some (literal c (chars "null") Null)
     else Some (parse_number c)).
Proof.
  intros Hc Hws. cbn [parse_value]. by rewrite (skip_ws_id _ _ _ Hc Hws), (peek_rest _ _ _ Hc).
Qed.

Lemma null_reads_back v : write v = chars "null" -> wire v = Null -> reads_back v.
Proof using F64Laws0.
  intros Hw Hwire. apply reads_back_leaf. intros fuel c ch u r Hc Hu Hws _.
  rewrite (parse_value_at _ _ _ _ Hc Hws), Hwire, Hw. rewrite Hw in Hu.
  change (chars "null") with [110; 117; 108; 108] in *. injection Hu as <- <-.
  cbn [N.eqb Pos.eqb]. by rewrite (literal_writes c _ _ _ _ _ Hc eq_refl).
Qed.

Lemma bool_reads_back b : reads_back (Bool b).
Proof using F64Laws0.
  apply reads_back_leaf. intros fuel c ch u r Hc Hu Hws _.
  rewrite (parse_value_at _ _ _ _ Hc Hws).
  destruct b; cbn [write wire] in *;
    [change (chars "true") with [116; 114; 117; 101] in *
    |change (chars "false") with [102; 97; 108; 115; 101] in *];
    injection Hu as <- <-; cbn [N.eqb Pos.eqb]; by rewrite (literal_writes c _ _ _ _ _ Hc eq_refl).
Qed.

Lemma string_reads_back s : reads_back (JString s).
Proof using F64Laws0.
  apply reads_back_leaf. intros fuel c ch u r Hc Hu Hws _.
  rewrite (parse_value_at _ _ _ _ Hc Hws). cbn [write] in Hu.
  rewrite (parse_string_writes c s r) by (by rewrite Hc, Hu). injection Hu as <- _. done.
Qed.

Lemma number_reads_back n : is_finite n = true -> reads_back (Number n).
Proof using F64Laws0.
  intros Hn. apply reads_back_leaf. intros fuel c ch u r Hc Hu Hws Hr.
  rewrite (parse_value_at _ _ _ _ Hc Hws). cbn [write wire] in *. rewrite Hn in *.
  destruct (show_number n Hn) as (_&c0&u0&Hshow&Hc0). rewrite Hu in Hshow. injection Hshow as <- <-.
  replace (ch =? 123) with false by char_lia. replace (ch =? 91) with false by char_lia.
  replace (ch =? 34) with false by char_lia. replace (ch =? 116) with false by char_lia.
  replace (ch =? 102) with false by char_lia. replace (ch =? 110) with false by char_lia.
  by rewrite (parse_number_writes c n r) by (rewrite ?Hu; done).
Qed.

(** A value, then white space that is not there, then a separator. *)
Lemma value_then c v u ch r :
  rest c = v ++ ch :: r -> is_whitespace ch = false -> u = length v ->
  skip_ws (advance u c) = advance u c /\ peek (advance u c) = Some ch /\
  rest (advance 1 (advance u c)) = r.
Proof.
  intros Hc Hws ->. apply rest_advance in Hc.
  split_and!; [by eapply skip_ws_id|by eapply peek_rest|].
  by apply (rest_advance [ch]).
Qed.

Lemma array_loop_reads items :
  Forall reads_back items -> items <> [] -> forall fuel c acc r x,
  rest c = comma_separated (map write items) ++ 93 :: r ->
  array_loop fuel c acc = Some x ->
  x = Ok (Array (acc ++ map wire items),
          advance (length (comma_separated (map write items)) + 1) c).
Proof.
  induction 1 as [|v items Hv Hitems IH]; [done|]. intros _ [|fuel] c acc r x Hc Hx; [done|].
  cbn [array_loop] in Hx. destruct (parse_value fuel c) as [y|] eqn:Hy; [|done].
  destruct items as [|v' items].
  - change (comma_separated (map write [v])) with (write v) in *.
    apply (Hv _ _ (93 :: r)) in Hy; [|done|done]. subst y.
    destruct (value_then c _ _ 93 r Hc eq_refl eq_refl) as (Hskip&Hpeek&_).
    rewrite Hskip, Hpeek in Hx. change (93 =? 44) with false in Hx. change (93 =? 93) with true in Hx.
    cbv iota in Hx. injection Hx as <-. by rewrite advance_advance.
  - change (rest c = (write v ++ 44 :: comma_separated (map write (v' :: items))) ++ 93 :: r) in Hc.
    rewrite <- app_assoc in Hc.
    apply (Hv _ _ (44 :: comma_separated (map write (v' :: items)) ++ 93 :: r)) in Hy; [|done|done]. subst y.
    destruct (value_then c _ _ 44 _ Hc eq_refl eq_refl) as (Hskip&Hpeek&Hrest).
    rewrite Hskip, Hpeek in Hx. change (44 =? 44) with true in Hx. cbv iota in Hx.
    apply (IH ltac:(done) _ _ _ _ _ Hrest) in Hx. rewrite Hx, <- app_assoc, !advance_advance.
    do 3 f_equal. change (comma_separated (map write (v :: v' :: items)))
      with (write v ++ 44 :: comma_separated (map write (v' :: items))).
    rewrite length_app. cbn [length]. lia.
Qed.

Lemma array_reads_back items : Forall reads_back items -> reads_back (Array items).
Proof using F64Laws0.
  intros Hitems [|fuel] c r x Hc Hr Hx; [done|]. cbn [write] in Hc.
  cbn [app] in Hc. rewrite (parse_value_at _ _ _ _ Hc eq_refl) in Hx.
  destruct fuel as [|fuel]; [done|]. change (parse_array (S fuel) c = Some x) in Hx.
  cbn [parse_array] in Hx. rewrite <- app_assoc in Hc. pose proof (rest_advance [91] _ c Hc) as Hc1.
  cbn [length] in Hc1. destruct items as [|v items].
  - rewrite (skip_ws_id _ 93 r Hc1 eq_refl), (peek_rest _ 93 r Hc1), decide_True in Hx by done.
    injection Hx as <-. by rewrite advance_advance.
  - assert (exists ch u, comma_separated (map write (v :: items)) = ch :: u /\
      is_whitespace ch = false /\ ch <> 93) as (ch&u&Hu&Hws&Hne).
    { destruct (write_start v) as (ch&u&Hu&Hws&Hne&_).
      destruct items; simpl; rewrite Hu; by do 2 eexists. }
    pose proof Hc1 as Hc2. rewrite Hu in Hc2.
    rewrite (skip_ws_id _ _ _ Hc2 Hws), (peek_rest _ _ _ Hc2), decide_False in Hx by congruence.
    apply (array_loop_reads _ Hitems ltac:(done) _ _ _ _ _ Hc1) in Hx. subst x.
    rewrite advance_advance. do 3 f_equal. cbn [write length]. rewrite length_app. simpl. lia.
Qed.

Definition write_entry : text * Json -> text := fun '(k, v) => write_string k ++ 58 :: write v.
Definition wire_entry : text * Json -> text * Json := fun '(k, v) => (k, wire v).

Lemma wire_entry_keys_sorted entries :
  StronglySorted key_lt (map wire_entry entries) <-> StronglySorted key_lt entries.
Proof.
  assert (forall k v (l : list (text * Json)), Forall (key_lt (k, v)) (map wire_entry l) <-> Forall (key_lt (k, v)) l)
    as Hf.
  { intros k v l. induction l as [|[k' v'] l IH]; [done|]. cbn [map]. by rewrite !Forall_cons, IH. }
  induction entries as [|[k v] entries IH]; cbn [map]; [done|].
  split; intros [Hs Hall]%StronglySorted_inv; (constructor; [by apply IH|]); by apply Hf.
Qed.

(** One turn of [object_loop] at a key and a value that are followed by [ch]. *)
Lemma object_loop_entry k v fuel c acc ch u x :
  reads_back v -> Forall (fun e => text_compare e.1 k = Lt) acc ->
  ch = 44 \/ ch = 125 -> rest c = write_entry (k, v) ++ ch :: u ->
  object_loop (S fuel) c acc = Some x ->
  let c' := advance (length (write_entry (k, v)) + 1) c in
  rest c' = u /\
  (if ch =? 44 then object_loop fuel c' (acc ++ [wire_entry (k, v)])
   else Some (Ok (Object (acc ++ [wire_entry (k, v)]), c'))) = Some x.
Proof using F64Laws0.
  intros Hv Hacc Hch Hc Hx. unfold write_entry in Hc. rewrite <- app_assoc in Hc.
  assert (is_whitespace ch = false /\ stops (ch :: u)) as [Hws Hstop] by (destruct Hch; by subst).
  cbn [object_loop] in Hx. rewrite (skip_ws_id c 34 _ Hc eq_refl) in Hx.
  rewrite (parse_string_writes c k _ Hc) in Hx.
  destruct (value_then c _ _ 58 _ Hc eq_refl eq_refl) as (Hskip1&Hp1&Hrest).
  rewrite Hskip1, Hp1, decide_True in Hx by done.
  destruct (parse_value fuel _) as [y|] eqn:Hy; [|done].
  apply (Hv _ _ _ _ Hrest Hstop) in Hy. subst y. cbn iota in Hx.
  destruct (value_then _ _ _ ch u Hrest Hws eq_refl) as (Hskip&Hp2&Hrest2).
  rewrite Hskip, Hp2, map_insert_last in Hx by done. cbn zeta.
  rewrite !advance_advance in *.
  replace (length (write_entry (k, v)) + 1)%nat
    with (length (write_string k) + (1 + (length (write v) + 1)))%nat
    by (unfold write_entry; rewrite length_app; simpl; lia).
  split; [exact Hrest2|]. by destruct Hch as [-> | ->].
Qed.

Lemma sorted_app_cons (acc entries : list (text * Json)) k v :
  StronglySorted key_lt (acc ++ (k, v) :: entries) -> Forall (fun e => text_compare e.1 k = Lt) acc.
Proof.
  induction acc as [|e acc IH]; [done|]. cbn [app]. intros [Hs Hall]%StronglySorted_inv.
  constructor; [|by apply IH]. apply Forall_app in Hall as [_ Hall]. by apply Forall_cons in Hall as [? _].
Qed.

Lemma object_loop_reads entries :
  Forall (fun e => reads_back e.2) entries -> entries <> [] -> forall fuel c acc r x,
  StronglySorted key_lt (acc ++ map wire_entry entries) ->
  rest c = comma_separated (map write_entry entries) ++ 125 :: r ->
  object_loop fuel c acc = Some x ->
  x = Ok (Object (acc ++ map wire_entry entries),
          advance (length (comma_separated (map write_entry entries)) + 1) c).
Proof using F64Laws0.
  induction 1 as [|[k v] entries Hv Hentries IH]; [done|]. intros _ [|fuel] c acc r x Hs Hc Hx; [done|].
  pose proof (sorted_app_cons _ _ _ _ Hs) as Hacc.
  destruct entries as [|e entries].
  - change (comma_separated (map write_entry [(k, v)])) with (write_entry (k, v)) in *.
    apply (object_loop_entry k v fuel c acc 125 r x Hv Hacc (or_intror eq_refl) Hc) in Hx as [_ Hx].
    change (125 =? 44) with false in Hx. cbv iota zeta in Hx. by injection Hx as <-.
  - change (rest c = (write_entry (k, v) ++ 44 :: comma_separated (map write_entry (e :: entries))) ++ 125 :: r) in Hc.
    rewrite <- app_assoc in Hc.
    apply (object_loop_entry k v fuel c acc 44 _ x Hv Hacc (or_introl eq_refl) Hc) in Hx as [Hrest Hx].
    assert (StronglySorted key_lt ((acc ++ [wire_entry (k, v)]) ++ map wire_entry (e :: entries))) as Hs'
      by (rewrite <- app_assoc; exact Hs).
    apply (IH ltac:(done) _ _ _ _ _ Hs' Hrest) in Hx.
    rewrite Hx, <- app_assoc, advance_advance. do 3 f_equal.
    change (comma_separated (map write_entry ((k, v) :: e :: entries)))
      with (write_entry (k, v) ++ 44 :: comma_separated (map write_entry (e :: entries))).
    rewrite (length_app (write_entry (k, v))). cbn [length]. lia.
Qed.

Lemma object_reads_back entries :
  StronglySorted key_lt entries -> Forall (fun e => reads_back e.2) entries ->
  reads_back (Object entries).
Proof using F64Laws0.
  intros Hs Hentries [|fuel] c r x Hc Hr Hx; [done|].
  change (write (Object entries)) with (123 :: comma_separated (map write_entry entries) ++ [125]) in *.
  change (wire (Object entries)) with (Object (map wire_entry entries)).
  cbn [app] in Hc. rewrite (parse_value_at _ _ _ _ Hc eq_refl) in Hx.
  destruct fuel as [|fuel]; [done|]. change (parse_object (S fuel) c = Some x) in Hx.
  cbn [parse_object] in Hx. rewrite <- app_assoc in Hc. pose proof (rest_advance [123] _ c Hc) as Hc1.
  cbn [length] in Hc1. destruct entries as [|[k v] entries].
  - rewrite (skip_ws_id _ 125 r Hc1 eq_refl), (peek_rest _ 125 r Hc1), decide_True in Hx by done.
    injection Hx as <-. by rewrite advance_advance.
  - assert (exists u, comma_separated (map write_entry ((k, v) :: entries)) = 34 :: u) as (u&Hu)
      by (destruct entries; eexists; reflexivity).
    pose proof Hc1 as Hc2. rewrite Hu in Hc2.
    rewrite (skip_ws_id _ _ _ Hc2 eq_refl), (peek_rest _ _ _ Hc2), decide_False in Hx by done.
    apply (object_loop_reads _ Hentries ltac:(done) _ _ [] r x) in Hx; [|by apply wire_entry_keys_sorted|done].
    subst x. rewrite advance_advance. do 3 f_equal. cbn [length]. rewrite length_app. simpl. lia.
Qed.

Lemma wf_reads_back v : wf v -> reads_back v.
Proof using F64Laws0.
  induction v as [|b|n|s|items IH|entries IH] using Json_nested_ind; intros Hwf.
  - by apply null_reads_back.
  - apply bool_reads_back.
  - destruct (is_finite n) eqn:Hn; [by apply number_reads_back|].
    apply null_reads_back; cbn [write wire]; by rewrite Hn.
  - apply string_reads_back.
  - apply array_reads_back. apply wf_Array in Hwf. rewrite Forall_forall in *. auto.
  - apply wf_Object in Hwf as [Hs Hwf]. apply object_reads_back; [done|].
    rewrite Forall_forall in *. auto.
Qed.

(** *** What is written stays on one line *)

Definition printable (c : N) : Prop := 32 <= c.

Lemma hex_char_printable d : printable (hex_char d).
Proof. unfold hex_char, printable. destruct (d <? 10); lia. Qed.

Lemma write_char_printable ch : Forall printable (write_char ch).
Proof.
  unfold write_char, hex4.
  repeat (case_match; [rewrite ?Forall_app; split_and?; repeat constructor; auto using hex_char_printable; done|]).
  repeat constructor. unfold printable. lia.
Qed.

Lemma write_string_printable s : Forall printable (write_string s).
Proof.
  constructor; [done|]. apply Forall_app. split; [|by repeat constructor].
  induction s as [|ch s IH]; [constructor|]. cbn [flat_map]. apply Forall_app.
  split; [apply write_char_printable|done].
Qed.

Lemma comma_separated_printable parts :
  Forall (Forall printable) parts -> Forall printable (comma_separated parts).
Proof.
  induction 1 as [|p parts Hp _ IH]; [constructor|]. destruct parts; cbn [comma_separated]; [done|].
  apply Forall_app. split; [done|]. by constructor.
Qed.

Lemma bracketed_printable a b u :
  printable a -> printable b -> Forall printable u -> Forall printable (a :: u ++ [b]).
Proof. intros Ha Hb Hu. constructor; [done|]. apply Forall_app. split; [done|]. by repeat constructor. Qed.

Lemma write_printable v : Forall printable (write v).
Proof using F64Laws0.
  induction v as [|[]|n|s|items IH|entries IH] using Json_nested_ind; cbn [write].
  1-3: by repeat constructor.
  - destruct (is_finite n) eqn:Hn; [|by repeat constructor].
    destruct (show_number n Hn) as [Hall _]. eapply Forall_impl; [exact Hall|].
    intros c Hc. unfold printable. char_lia.
  - apply write_string_printable.
  - apply bracketed_printable; [done..|]. apply comma_separated_printable.
    induction IH; cbn [map]; by constructor.
  - apply bracketed_printable; [done..|]. apply comma_separated_printable.
    induction IH as [|[k v] entries Hv _ IH]; cbn [map]; constructor; [|done].
    apply Forall_app. split; [apply write_string_printable|by constructor].
Qed.

(** *** Objects built from pairs *)

Lemma obj_fold pairs map :
  wf (Object map) -> Forall (fun e => wf e.2) pairs ->
  let map' := foldl (fun map '(k, v) => map_insert k v map) map pairs in
  wf (Object map') /\
  forall key, map_get key map' =
    match map_get key (rev pairs) with Some v => Some v | None => map_get key map end.
Proof.
  revert map. induction pairs as [|[k v] pairs IH]; intros map Hm Hp; [done|].
  apply Forall_cons in Hp as [Hv Hp]. apply wf_Object in Hm as [Hs Hw].
  destruct (IH (map_insert k v map)) as [Hwf Hget]; [|done|].
  { apply wf_Object. split; [by apply map_insert_sorted|]. by apply map_insert_Forall. }
  split; [exact Hwf|]. intros key. cbn [foldl]. rewrite Hget, map_get_insert. cbn [rev].
  assert (forall l, map_get key (l ++ [(k, v)]) =
    match map_get key l with Some w => Some w | None => if decide (key = k) then Some v else None end)
    as Hsnoc.
  { induction l as [|[k' v'] l IHl]; cbn [app map_get]; [done|]. destruct (decide (key = k')); [done|exact IHl]. }
  rewrite Hsnoc. destruct (map_get key (rev pairs)); [done|]. by destruct (decide (key = k)).
Qed.

Lemma map_get_wire key entries :
  map_get key (map wire_entry entries) = wire <$> map_get key entries.
Proof. induction entries as [|[k v] entries IH]; cbn; [done|]. by case_decide. Qed.

Lemma parse_to_string_wf v : wf v -> parse (to_string v) = Some (Ok (wire v)).
Proof using F64Laws0.
  intros Hv. unfold parse, to_string. destruct (write_start v) as (ch&u&Hu&Hws&_).
  set (c := {| at_ := 0; rest := write v |}).
  rewrite (skip_ws_id c ch u Hu Hws).
  destruct (readers_return_all (parse_fuel (write v))) as (Hret&_).
  destruct (Hret c) as (x&Hx&_); [unfold parse_fuel, left_of; simpl; lia|]. rewrite Hx.
  apply (wf_reads_back v Hv _ c [] x) in Hx; [|by rewrite app_nil_r|done]. subst x.
  assert (rest (advance (length (write v)) c) = []) as Hend by (simpl; apply drop_all).
  unfold skip_ws. rewrite Hend. cbn [count_while]. rewrite advance_0. by rewrite decide_True.
Qed.
End json.

Arguments Json : clear implicits.

(** ** An instance of the numbers

    The integers an [f64] holds exactly, and one value that is not finite. *)
Inductive int_f64 := Int (z : Z) | NotFinite.

Definition int_limit : Z := 9007199254740992.

#[export] Instance int_f64_ops : F64 int_f64 := {
  is_finite n := match n with Int z => (Z.abs z <=? int_limit)%Z | NotFinite => false end;
  f64_nonneg n := match n with Int z => (0 <=? z)%Z | NotFinite => true end;
  f64_show n :=
    match n with
    | Int z => (if (z <? 0)%Z then [45] else []) ++ chars (u64_to_string (Z.to_N (Z.abs z)))
    | NotFinite => chars "inf"
    end;
  f64_parse s :=
    let digits t := Z.of_N <$> parse_u64 (string_of_list_ascii (map ascii_of_N t)) in
    match s with
    | c :: t => if c =? 45 then Int <$> (Z.opp <$> digits t) else Int <$> digits s
    | [] => None
    end;
  f64_as_u32 n := match n with Int z => N.min u32_max (Z.to_N z) | NotFinite => u32_max end
}.

Lemma chars_back s : string_of_list_ascii (map ascii_of_N (chars s)) = s.
Proof.
  unfold chars. rewrite map_map.
  rewrite (map_ext _ (fun a => a)) by (intros a; apply ascii_N_embedding).
  rewrite map_id. apply string_of_list_ascii_of_string.
Qed.

Lemma chars_digits s : str_forallb is_digit s = true -> Forall (fun c => is_ascii_digit c = true) (chars s).
Proof.
  induction s as [|a s IH]; simpl; [constructor|]. intros [Ha Hs]%andb_prop. constructor; [exact Ha|auto].
Qed.

Lemma chars_nonempty s : str_is_empty s = false -> exists c u, chars s = c :: u.
Proof. destruct s; simpl; [done|]. by do 2 eexists. Qed.

#[export] Instance int_f64_laws : F64Laws int_f64.
Proof.
  split; intros [z|]; try done; intros Hz%Z.leb_le; cbn [f64_show f64_parse int_f64_ops];
    pose proof (chars_digits _ (u64_to_string_digits (Z.to_N (Z.abs z)))) as Hd;
    destruct (chars_nonempty _ (u64_to_string_nonempty (Z.to_N (Z.abs z)))) as (c&u&Hu).
  - split.
    + apply Forall_app. split; [by case_match; repeat constructor|].
      eapply Forall_impl; [exact Hd|]. intros d Hd'. unfold number_char. by rewrite Hd'.
    + rewrite Hu in *. apply Forall_cons in Hd as [Hc _].
      destruct (z <? 0)%Z; do 2 eexists; (split; [reflexivity|]); [by right|by left].
  - assert (parse_u64 (u64_to_string (Z.to_N (Z.abs z))) = Some (Z.to_N (Z.abs z))) as Hp
      by (apply parse_u64_to_string; unfold int_limit, u64_max in *; lia).
    destruct (z <? 0)%Z eqn:Hneg.
    + cbn [app]. change (45 =? 45) with true. cbv iota. rewrite chars_back, Hp. simpl. do 2 f_equal. lia.
    + cbn [app]. rewrite Hu in *. apply Forall_cons in Hd as [Hc _].
      replace (c =? 45) with false by char_lia. rewrite <- Hu, chars_back, Hp. simpl. do 2 f_equal. lia.
Qed.

(** ** What the reader and the writer promise *)

(** Reading returns on every input whatever: the fuel is never used up, whatever the numbers
    are, and a value it accepts has the keys of its objects strictly in order at every depth, so
    that no key is held twice. *)
Theorem parse_returns {num} `{!F64 num} (input : text) :
  exists r, parse (num := num) input = Some r /\ forall j, r = Ok j -> wf j.
Proof.
  unfold parse. set (c := skip_ws {| at_ := 0; rest := input |}).
  pose proof (follows_left _ _ (skip_ws_follows {| at_ := 0; rest := input |})) as [Hl0 _].
  destruct (readers_return_all (num := num) (parse_fuel input)) as (Hret&_).
  destruct (Hret c) as (x&->&Hx); [unfold parse_fuel, left_of in *; simpl in *; lia|].
  destruct x as [[j c']|e]; [|by eexists].
  destruct (Hx _ _ eq_refl) as [_ Hj].
  case_decide; (eexists; split; [done|]); by intros ? [= <-].
Qed.

(** C36: What is written is read back.  For every value with its keys in order, reading the written
    text succeeds and gives the value itself, except that a number that is not finite arrives as
    [null]; and the text is one line, without a control character, whatever the strings hold. *)
Theorem json_roundtrip {num} `{!F64 num} `{!F64Laws num} (v : Json num) :
  wf v ->
  parse (to_string v) = Some (Ok (wire v)) /\ Forall printable (to_string v).
Proof. intros Hv. split; [by apply parse_to_string_wf|apply write_printable]. Qed.

Definition sample : Json int_f64 :=
  Object [(chars "cwd", Array [Null; Number (Int (-42)); Bool true]);
          (chars "text", JString [34; 10; 1; 92; 128512]);
          (chars "zoom", Object [([], Number NotFinite)])].

Lemma json_roundtrip_witness :
  parse (to_string sample) = Some (Ok (wire sample)) /\ Forall printable (to_string sample).
Proof. apply json_roundtrip. repeat constructor. Defined.

(** A reply built from pairs carries, for each key, the value of the last pair of that key and
    nothing else, to whoever reads the line. *)
Theorem obj_fields_arrive {num} `{!F64 num} `{!F64Laws num} (pairs : list (text * Json num)) :
  Forall (fun e => wf e.2) pairs ->
  exists j, parse (to_string (obj pairs)) = Some (Ok j) /\
    forall key, get key j = wire <$> map_get key (rev pairs).
Proof.
  intros Hp. destruct (obj_fold pairs []) as [Hwf Hget]; [by apply wf_Object; repeat constructor|done|].
  exists (wire (obj pairs)). split; [by apply parse_to_string_wf|].
  intros key. change (wire (obj pairs)) with (Object (map wire_entry
    (foldl (fun map '(k, v) => map_insert k v map) [] pairs))).
  cbn [get]. rewrite map_get_wire, Hget. by destruct (map_get key (rev pairs)).
Qed.

Definition sample_pairs : list (text * Json int_f64) :=
  [(chars "ok", Bool false); (chars "id", JString (chars "7")); (chars "ok", Bool true)].

Lemma obj_fields_arrive_witness :
  exists j, parse (to_string (obj sample_pairs)) = Some (Ok j) /\
    forall key, get key j = wire <$> map_get key (rev sample_pairs).
Proof. apply obj_fields_arrive. repeat constructor. Defined.

(** A character outside the basic plane, escaped as the pair of surrogates every JSON writer that
    escapes uses, is read as two replacement characters; and [from_str_radix] lets a sign into an
    escape. *)
Example surrogate_pair_is_lost :
  parse (num := int_f64) (34 :: chars "\ud83d\ude00" ++ [34]) = Some (Ok (JString [65533; 65533])).
Proof. reflexivity. Qed.

Example signed_escape_is_accepted :
  parse (num := int_f64) (34 :: chars "\u+041" ++ [34]) = Some (Ok (JString [65])).
Proof. reflexivity. Qed.
