(* ===== verification/PngFormat.v ===== *)
(** * The file a PNG reader accepts

    Written from the PNG, zlib and deflate formats alone, and used by WpeFrame.v to say what the
    program's writer promises.  Nothing here is code of the program, and nothing here is shared with
    it: the signature and the chunk names, the cyclic redundancy code fed one bit at a time, the Adler
    checksum as two sums, the headers, the stored blocks and the unfiltered scanlines.

    The reader is narrower than the formats (one data chunk, stored blocks, 8-bit RGBA, no filter and
    no interlace), so a file it accepts is one every reader accepts. *)
From S2P Require Import Prelude.
From Stdlib Require Import ZifyBool ZifyN.
#[local] Open Scope N_scope.

Module Png.

Definition byte (b : N) : Prop := b < 256.

Definition text (s : string) : list N := map Ascii.N_of_ascii (String.list_ascii_of_string s).

(** Big-endian numbers, and the next [n] bytes. *)
Definition number (bytes : list N) : N := foldl (fun n b => n * 256 + b) 0 bytes.

Definition next (n : nat) (s : list N) : option (list N * list N) :=
  if decide (n <= length s)%nat then Some (take n s, drop n s) else None.

(** ** CRC-32: least significant bit first, the register starting at and complemented with ones *)

Definition crc_bit (crc : N) (bit : bool) : N :=
  let shifted := N.div2 crc in if xorb (N.odd crc) bit then N.lxor shifted 0xEDB88320 else shifted.

Definition bits (b : N) : list bool := map (fun i => N.testbit b (N.of_nat i)) (seq 0 8).

Definition crc (bytes : list N) : N := N.lxor (foldl crc_bit 0xFFFFFFFF (mjoin (map bits bytes))) 0xFFFFFFFF.

Example crc_check_value : crc (text "123456789") = 0xCBF43926.
Proof. by vm_compute. Qed.

(** ** Adler-32: [1 + d1 + ... + dn], and the sum of its values after each byte *)

Definition total (bytes : list N) : N := foldr N.add 0 bytes.

Fixpoint running_total (bytes : list N) : N :=
  match bytes with [] => 0 | b :: rest => (N.of_nat (length rest) + 1) * b + running_total rest end.

Definition adler (bytes : list N) : N :=
  ((N.of_nat (length bytes) + running_total bytes) mod 65521) * 65536 + (1 + total bytes) mod 65521.

Example adler_check_value : adler (text "Wikipedia") = 0x11E60398.
Proof. by vm_compute. Qed.

(** ** A chunk: its length, its name and data, and their code *)

Definition read_chunk (s : list N) : option (list N * list N * list N) :=
  '(len, s) ← next 4 s; '(kind, s) ← next 4 s; '(data, s) ← next (N.to_nat (number len)) s; '(code, s) ← next 4 s;
  if (number len <? 2 ^ 31) && (number code =? crc (kind ++ data)) then Some (kind, data, s) else None.

(** ** zlib: deflate with a window of at most 32 KiB and no dictionary, of stored blocks only *)

Definition read_block (s : list N) : option (bool * list N * list N) :=
  match s with
  | head :: l1 :: l2 :: c1 :: c2 :: s =>
    let len := l2 * 256 + l1 in
    '(data, s) ← next (N.to_nat len) s;
    if (head <=? 1) && (c2 * 256 + c1 =? 0xFFFF - len) then Some (head =? 1, data, s) else None
  | _ => None
  end.

Fixpoint read_blocks (fuel : nat) (s : list N) : option (list N * list N) :=
  match fuel with
  | O => None
  | S fuel =>
    '(last, data, s) ← read_block s;
    if last : bool then Some (data, s) else '(more, s) ← read_blocks fuel s; Some (data ++ more, s)
  end.

Definition zlib_header (cmf flg : N) : bool :=
  (N.land cmf 0xF =? 8) && (N.shiftr cmf 4 <=? 7) && ((cmf * 256 + flg) mod 31 =? 0) && negb (N.testbit flg 5).

Definition inflate (s : list N) : option (list N) :=
  match s with
  | cmf :: flg :: s =>
    if zlib_header cmf flg then
      '(data, check) ← read_blocks (length s) s;
      if decide (length check = 4%nat /\ number check = adler data) then Some data else None
    else None
  | _ => None
  end.

(** ** The picture *)

(** [height] lines, each a zero byte (no filter) and its samples. *)
Fixpoint unfilter (height line : nat) (s : list N) : option (list N) :=
  match height, s with
  | O, [] => Some []
  | O, _ | _, [] => None
  | S height, filter :: s =>
    '(samples, s) ← next line s; more ← unfilter height line s;
    if filter =? 0 then Some (samples ++ more) else None
  end.

Definition signature : list N := 0x89 :: text "PNG" ++ [0x0D; 0x0A; 0x1A; 0x0A].

(** Eight bits, colour with alpha, and the only compression, filter and order without interlace. *)
Definition rgba8 : list N := [8; 6; 0; 0; 0].

(** Width, height and samples. *)
Definition decode (s : list N) : option (N * N * list N) :=
  '(mark, s) ← next 8 s;
  '(head, ihdr, s) ← read_chunk s; '(body, idat, s) ← read_chunk s; '(last, iend, s) ← read_chunk s;
  '(w, ihdr) ← next 4 ihdr; '(h, kind) ← next 4 ihdr;
  if decide (mark = signature /\ head = text "IHDR" /\ body = text "IDAT" /\ last = text "IEND" /\
             kind = rgba8 /\ iend = [] /\ s = [] /\ 0 < number w < 2 ^ 31 /\ 0 < number h < 2 ^ 31)
  then
    raw ← inflate idat; samples ← unfilter (N.to_nat (number h)) (4 * N.to_nat (number w)) raw;
    Some (number w, number h, samples)
  else None.

(** ** Lemmas *)

Lemma next_app n l s : length l = n -> next n (l ++ s) = Some (l, s).
Proof.
  intros <-. unfold next. rewrite decide_True by (rewrite length_app; lia). by rewrite take_app_length, drop_app_length.
Qed.

(** Feeding the low [n] bits of [b] is [n] turns of the register with [b] laid over it. *)
Definition crc_turn (c : N) : N := crc_bit c false.

Lemma crc_bit_over c b : crc_turn (N.lxor c b) = N.lxor (crc_bit c (N.odd b)) (N.div2 b).
Proof.
  unfold crc_turn, crc_bit. rewrite xorb_false_r.
  assert (N.odd (N.lxor c b) = xorb (N.odd c) (N.odd b)) as -> by (rewrite <- !N.bit0_odd; apply N.lxor_spec).
  rewrite !N.div2_spec, N.shiftr_lxor. destruct (xorb (N.odd c) (N.odd b)); [|done].
  rewrite !N.lxor_assoc. f_equal. apply N.lxor_comm.
Qed.

Lemma crc_turns_over n c b :
  Nat.iter n crc_turn (N.lxor c b) =
  N.lxor (foldl crc_bit c (map (fun i => N.testbit b (N.of_nat i)) (seq 0 n))) (N.shiftr b (N.of_nat n)).
Proof.
  revert c b. induction n as [|n IH]; intros c b; [by rewrite N.shiftr_0_r|].
  rewrite Nat.iter_succ_r.
  rewrite crc_bit_over, IH. cbn [seq map foldl]. rewrite N.bit0_odd, <- seq_shift, map_map. f_equal.
  - f_equal. apply map_ext. intros i. by rewrite <- N.testbit_succ_r_div2, Nat2N.inj_succ by lia.
  - rewrite N.div2_spec, N.shiftr_shiftr, Nat2N.inj_succ. f_equal. lia.
Qed.

Lemma crc_byte c b : byte b -> foldl crc_bit c (bits b) = Nat.iter 8 crc_turn (N.lxor c b).
Proof.
  intros Hb. rewrite crc_turns_over, (N.shiftr_eq_0 b), N.lxor_0_r; [done|].
  destruct (decide (b = 0)) as [->|]; [done|]. apply N.log2_lt_pow2; [lia|]. exact Hb.
Qed.

Lemma crc_bytes c bytes : Forall byte bytes ->
  foldl crc_bit c (mjoin (map bits bytes)) = foldl (fun c b => Nat.iter 8 crc_turn (N.lxor c b)) c bytes.
Proof.
  intros Hb. revert c. induction Hb as [|b bytes Hb _ IH]; intros c; [done|].
  cbn [map foldl mjoin list_join]. by rewrite foldl_app, crc_byte, IH.
Qed.

(** The two sums, kept modulo 65521 from byte to byte. *)
Lemma adler_sums a b bytes :
  foldl (fun ab d => let a := (ab.1 + d) mod 65521 in (a, (ab.2 + a) mod 65521)) (a mod 65521, b mod 65521) bytes =
  ((a + total bytes) mod 65521, (b + N.of_nat (length bytes) * a + running_total bytes) mod 65521).
Proof.
  revert a b. induction bytes as [|d bytes IH]; intros a b.
  - cbn. by rewrite !N.add_0_r.
  - cbn [foldl fst snd]. rewrite N.Div0.add_mod_idemp_l. rewrite N.Div0.add_mod_idemp_l, N.Div0.add_mod_idemp_r, IH.
    cbn [total foldr running_total length]. fold (total bytes). rewrite Nat2N.inj_succ. f_equal; f_equal; lia.
Qed.

(** What a file of the three chunks reads as. *)
Lemma decode_chunks s w h idat s1 s2 raw samples :
  read_chunk s = Some (text "IHDR", w ++ h ++ rgba8, s1) -> read_chunk s1 = Some (text "IDAT", idat, s2) ->
  read_chunk s2 = Some (text "IEND", [], []) -> length w = 4%nat -> length h = 4%nat ->
  0 < number w < 2 ^ 31 -> 0 < number h < 2 ^ 31 -> inflate idat = Some raw ->
  unfilter (N.to_nat (number h)) (4 * N.to_nat (number w)) raw = Some samples ->
  decode (signature ++ s) = Some (number w, number h, samples).
Proof.
  intros H1 H2 H3 Hw Hh [? ?] [? ?] Hraw Hpx. unfold decode. rewrite next_app by done. cbn [mbind option_bind].
  rewrite H1. cbn [mbind option_bind]. rewrite H2. cbn [mbind option_bind]. rewrite H3. cbn [mbind option_bind].
  rewrite next_app by done. cbn [mbind option_bind]. rewrite next_app by done. cbn [mbind option_bind].
  rewrite decide_True by by split_and!. rewrite Hraw. cbn [mbind option_bind]. by rewrite Hpx.
Qed.

End Png.
