(* ===== verification/WpeFrame.v ===== *)
(** * Painted frames and the PNG they are written as

    src/crates/yggterm-wpe/src/frame.rs and png.rs: the rows of a read-back frame flipped to a
    top-left origin, a pixel, a clamped crop, a content hash; and the PNG writer, which stores the
    scanlines uncompressed in deflate blocks of at most 65,535 bytes and computes its two checksums
    itself.

    Bytes and 32-bit words are [N].  Arithmetic on [u32] and [i32] wraps, as it does in a release
    build; the theorems say for which sizes it does not.  A slice out of range panics, which is
    [None] here.  The GL calls of [read_frame] are not modelled: the bytes [glReadPixels] gives
    are the argument of [flip_rows].

    The reader the file is meant for is [Png.decode] of PngFormat.v, which is written from the formats
    and shares nothing with the writer. *)
From S2P Require Import Prelude PngFormat.
From Stdlib Require Import ZifyBool ZifyN.
#[local] Open Scope N_scope.

Definition two32 : N := 4294967296.
Definition wrap32 (n : N) : N := n mod two32.

(** [l\[start..start + len\]]. *)
Definition slice {A} (start len : nat) (l : list A) : option (list A) :=
  if decide (start + len <= length l)%nat then Some (take len (drop start l)) else None.

(** ** Checksums *)

Definition crc_step (c : N) : N :=
  if N.testbit c 0 then N.lxor 3988292384 (N.shiftr c 1) else N.shiftr c 1.

Definition crc_table : list N := map (fun i => Nat.iter 8 crc_step (N.of_nat i)) (seq 0 256).

Definition crc_update (crc byte : N) : N :=
  N.lxor (nth (N.to_nat (N.land (N.lxor crc byte) 255)) crc_table 0) (N.shiftr crc 8).

Definition crc32 (bytes : list N) : N :=
  N.lxor (foldl crc_update 4294967295 bytes) 4294967295.

Definition adler_step (ab : N * N) (byte : N) : N * N :=
  let a := wrap32 (ab.1 + byte) mod 65521 in (a, wrap32 (ab.2 + a) mod 65521).

Definition adler32 (bytes : list N) : N :=
  let '(a, b) := foldl adler_step (1, 0) bytes in
  N.lor (wrap32 (N.shiftl b 16)) a.

(** ** Byte order *)

Definition be32 (n : N) : list N := [n / 16777216 mod 256; n / 65536 mod 256; n / 256 mod 256; n mod 256].
Definition le16 (n : N) : list N := [n mod 256; n / 256 mod 256].

(** ** The PNG writer *)

Definition chunk (kind payload : list N) : list N :=
  be32 (wrap32 (N.of_nat (length payload))) ++ (kind ++ payload) ++ be32 (crc32 (kind ++ payload)).

Definition block_max : nat := N.to_nat 65535.

(** [slice::chunks]. *)
Fixpoint chunks (fuel size : nat) (l : list N) : list (list N) :=
  match fuel with
  | O => []
  | S fuel =>
    match l with
    | [] => []
    | _ => take size l :: chunks fuel size (drop size l)
    end
  end.

(** A filter byte before every scanline. *)
Definition scanlines (rgba : list N) (width height : nat) : option (list N) :=
  mjoin <$> mapM (fun row => cons 0 <$> slice (row * width * 4) (width * 4) rgba) (seq 0 height).

Definition stored_block (total index : nat) (block : list N) : list N :=
  let is_last := bool_decide (total <= (index + 1) * block_max)%nat in
  let len := N.of_nat (length block) mod 65536 in
  (if is_last then 1 else 0) :: le16 len ++ le16 (65535 - len) ++ block.

Definition zlib_stored (raw : list N) : list N :=
  [120; 1] ++ mjoin (imap (stored_block (length raw)) (chunks (length raw) block_max raw))
  ++ be32 (adler32 raw).

Definition png_signature : list N := [137; 80; 78; 71; 13; 10; 26; 10].
Definition IHDR : list N := [73; 72; 68; 82].
Definition IDAT : list N := [73; 68; 65; 84].
Definition IEND : list N := [73; 69; 78; 68].

Definition encode_rgba (rgba : list N) (width height : N) : option (list N) :=
  if decide (length rgba = N.to_nat width * N.to_nat height * 4)%nat then
    raw ← scanlines rgba (N.to_nat width) (N.to_nat height);
    Some (png_signature
      ++ chunk IHDR (be32 width ++ be32 height ++ [8; 6; 0; 0; 0])
      ++ chunk IDAT (zlib_stored raw)
      ++ chunk IEND [])
  else None.

(** ** Frames *)

Record Frame := { width : N; height : N; rgba : list N }.

Definition pixel (f : Frame) (x y : N) : option (list N) :=
  if (width f <=? x) || (height f <=? y) then None
  else
    let i := N.to_nat (wrap32 (wrap32 (wrap32 (y * width f) + x) * 4)) in
    slice i 4 (rgba f).

Definition centre_pixel (f : Frame) : list N :=
  default [0; 0; 0; 0] (pixel f (width f / 2) (height f / 2)).

(** [n as i32], [a + b] on [i32], and [n.max(0) as u32]. *)
Definition wrap_i32 (z : Z) : Z := ((z + 2147483648) mod 4294967296 - 2147483648)%Z.
Definition as_i32 (n : N) : Z := wrap_i32 (Z.of_N n).
Definition max0 (z : Z) : N := Z.to_N (Z.max z 0).

Definition crop_rows (f : Frame) (x0 w : N) (rows : list N) : option (list N) :=
  mjoin <$> mapM (fun row =>
    let start := N.to_nat (wrap32 (wrap32 (wrap32 (row * width f) + x0) * 4)) in
    slice start (N.to_nat (wrap32 (w * 4))) (rgba f)) rows.

(** [None] in the outer option is a panic, in the inner one the answer that nothing overlaps. *)
Definition crop (f : Frame) (x y : Z) (w0 h0 : N) : option (option Frame) :=
  if (w0 =? 0) || (h0 =? 0) then Some None
  else
    let x0 := max0 x in
    let y0 := max0 y in
    let x1 := N.min (max0 (wrap_i32 (x + as_i32 w0))) (width f) in
    let y1 := N.min (max0 (wrap_i32 (y + as_i32 h0))) (height f) in
    if (x1 <=? x0) || (y1 <=? y0) then Some None
    else
      let w := x1 - x0 in
      let h := y1 - y0 in
      pixels ← crop_rows f x0 w (map (fun i => y0 + N.of_nat i) (seq 0 (N.to_nat h)));
      Some (Some {| width := w; height := h; rgba := pixels |}).

Definition to_png (f : Frame) : option (list N) := encode_rgba (rgba f) (width f) (height f).

Definition is_blank (f : Frame) : bool := forallb (fun b => b =? 0) (rgba f).

Definition fingerprint (f : Frame) : N :=
  foldl (fun hash byte => N.lxor hash byte * 1099511628211 mod 18446744073709551616)
    14695981039346656037 (rgba f).

(** The flip of [read_frame]: row [row] of the bytes GL gave is copied over row [height - 1 - row]
    of a buffer of zeros. *)
Definition write_at (dst : nat) (bytes buffer : list N) : list N :=
  take dst buffer ++ bytes ++ drop (dst + length bytes) buffer.

Definition flip_rows (raw : list N) (width height : nat) : option (list N) :=
  let stride := (width * 4)%nat in
  foldl (fun buffer row =>
    out ← buffer; line ← slice (row * stride) stride raw;
    Some (write_at ((height - 1 - row) * stride) line out))
    (Some (replicate (length raw) 0)) (seq 0 height).

Definition frame_of_readback (raw : list N) (w h : N) : option Frame :=
  bytes ← flip_rows raw (N.to_nat w) (N.to_nat h);
  Some {| width := w; height := h; rgba := bytes |}.

(** ** The checksums are the ones the formats define *)

Lemma crc_step_turn c : crc_step c = Png.crc_turn c.
Proof.
  unfold crc_step, Png.crc_turn, Png.crc_bit. rewrite xorb_false_r, N.bit0_odd, N.div2_spec.
  destruct (N.odd c); [apply N.lxor_comm|done].
Qed.

Lemma crc_steps_turns n c : Nat.iter n crc_step c = Nat.iter n Png.crc_turn c.
Proof. induction n as [|n IH]; [done|]. cbn [Nat.iter nat_rect]. unfold Nat.iter in IH. by rewrite IH, crc_step_turn. Qed.

Lemma crc_step_lxor a b : crc_step (N.lxor a b) = N.lxor (crc_step a) (crc_step b).
Proof.
  unfold crc_step. rewrite N.lxor_spec, N.shiftr_lxor.
  destruct (N.testbit a 0), (N.testbit b 0); cbn [xorb]; apply N.bits_inj; intros i;
    rewrite !N.lxor_spec; repeat destruct (N.testbit _ i); done.
Qed.

Lemma crc_steps_lxor n a b : Nat.iter n crc_step (N.lxor a b) = N.lxor (Nat.iter n crc_step a) (Nat.iter n crc_step b).
Proof. induction n as [|n IH]; [done|]. cbn [Nat.iter nat_rect]. unfold Nat.iter in IH. by rewrite IH, crc_step_lxor. Qed.

Lemma crc_step_shiftl y n : crc_step (N.shiftl y (N.succ n)) = N.shiftl y n.
Proof.
  unfold crc_step. rewrite N.shiftl_spec_low by lia. rewrite N.shiftr_shiftl_l by lia. f_equal. lia.
Qed.

Lemma crc_steps_high y : Nat.iter 8 crc_step (N.shiftl y 8) = y.
Proof.
  cbn [Nat.iter nat_rect].
  change 8 with (N.succ 7). rewrite crc_step_shiftl. change 7 with (N.succ 6). rewrite crc_step_shiftl.
  change 6 with (N.succ 5). rewrite crc_step_shiftl. change 5 with (N.succ 4). rewrite crc_step_shiftl.
  change 4 with (N.succ 3). rewrite crc_step_shiftl. change 3 with (N.succ 2). rewrite crc_step_shiftl.
  change 2 with (N.succ 1). rewrite crc_step_shiftl. change 1 with (N.succ 0). rewrite crc_step_shiftl.
  apply N.shiftl_0_r.
Qed.

Lemma low_high x : x = N.lxor (N.land x 255) (N.shiftl (N.shiftr x 8) 8).
Proof.
  change 255 with (N.ones 8). apply N.bits_inj. intros i. rewrite N.lxor_spec, N.land_spec.
  destruct (decide (i < 8)).
  - rewrite N.ones_spec_low, N.shiftl_spec_low by lia. by destruct (N.testbit x i).
  - rewrite N.ones_spec_high, N.shiftl_spec_high', N.shiftr_spec' by lia.
    replace (i - 8 + 8) with i by lia. by destruct (N.testbit x i).
Qed.

Lemma crc_table_entry i : i < 256 -> nth (N.to_nat i) crc_table 0 = Nat.iter 8 crc_step i.
Proof.
  intros Hi. unfold crc_table. set (f := fun j : nat => Nat.iter 8 crc_step (N.of_nat j)).
  rewrite (nth_indep _ 0 (f 0%nat)) by (rewrite length_map, length_seq; lia).
  rewrite map_nth, seq_nth by lia. unfold f. f_equal. lia.
Qed.

Lemma crc_update_steps crc byte :
  byte < 256 -> crc_update crc byte = Nat.iter 8 crc_step (N.lxor crc byte).
Proof.
  intros Hb. unfold crc_update. rewrite crc_table_entry.
  2: { change 255 with (N.ones 8). rewrite N.land_ones. by apply N.mod_lt. }
  rewrite (low_high (N.lxor crc byte)) at 2. rewrite crc_steps_lxor, crc_steps_high. f_equal.
  rewrite N.shiftr_lxor, (N.shiftr_eq_0 byte), N.lxor_0_r; [done|].
  destruct (decide (byte = 0)) as [->|]; [done|]. apply N.log2_lt_pow2; [lia|]. done.
Qed.

Lemma lxor_lt_two32 a b : a < two32 -> b < two32 -> N.lxor a b < two32.
Proof.
  intros Ha Hb. change two32 with (2 ^ 32) in *.
  assert (N.lxor a b = N.lxor a b mod 2 ^ 32) as ->; [|by apply N.mod_lt].
  rewrite <- (N.mod_small a (2 ^ 32)), <- (N.mod_small b (2 ^ 32)) by done.
  apply N.bits_inj. intros i. destruct (decide (i < 32)).
  - by rewrite N.mod_pow2_bits_low.
  - by rewrite N.mod_pow2_bits_high, N.lxor_spec, !N.mod_pow2_bits_high by lia.
Qed.

Lemma crc_table_bounded i : nth i crc_table 0 < two32.
Proof.
  assert (forallb (fun e => e <? two32) crc_table = true) as H by reflexivity.
  rewrite forallb_forall in H. destruct (nth_in_or_default i crc_table 0) as [Hin| ->]; [|done].
  apply H in Hin. lia.
Qed.

Lemma crc32_lt bytes : crc32 bytes < two32.
Proof.
  unfold crc32. apply lxor_lt_two32; [|done].
  assert (forall crc, crc < two32 -> foldl crc_update crc bytes < two32) as H; [|by apply H].
  induction bytes as [|b bytes IH]; intros crc Hcrc; [done|]. cbn [foldl]. apply IH.
  apply lxor_lt_two32; [apply crc_table_bounded|]. rewrite N.shiftr_div_pow2.
  eapply N.le_lt_trans; [|exact Hcrc]. apply N.Div0.div_le_upper_bound. lia.
Qed.

Lemma crc32_is_png bytes : Forall Png.byte bytes -> crc32 bytes = Png.crc bytes.
Proof.
  intros Hb. unfold crc32, Png.crc. change 0xFFFFFFFF with 4294967295. f_equal. rewrite Png.crc_bytes by done.
  generalize 4294967295. induction Hb as [|b bytes Hb _ IH]; intros c; [done|]. cbn [foldl].
  by rewrite crc_update_steps, IH, crc_steps_turns by exact Hb.
Qed.

(** Two numbers side by side. *)
Lemma lor_shiftl_add a b n : a < 2 ^ n -> N.lor (N.shiftl b n) a = b * 2 ^ n + a.
Proof.
  intros Ha. rewrite <- N.shiftl_mul_pow2, <- N.lxor_lor; [symmetry; apply N.add_nocarry_lxor|];
    apply N.bits_inj; intros i; rewrite N.land_spec, N.bits_0;
    (destruct (decide (i < n)); [by rewrite N.shiftl_spec_low|]);
    assert (N.testbit a i = false) as -> by (rewrite <- (N.mod_small a (2 ^ n)) by done; apply N.mod_pow2_bits_high; lia);
    by rewrite ?andb_false_r.
Qed.

Lemma adler32_is_png bytes : Forall Png.byte bytes -> adler32 bytes = Png.adler bytes.
Proof.
  intros Hb. unfold adler32. assert (forall ab, ab.1 < 65521 -> ab.2 < 65521 -> foldl adler_step ab bytes =
    foldl (fun ab d => let a := (ab.1 + d) mod 65521 in (a, (ab.2 + a) mod 65521)) ab bytes) as Hsteps.
  { induction Hb as [|b bytes Hb _ IH]; intros ab H1 H2; [done|]. cbn [foldl].
    assert (adler_step ab b = let a := (ab.1 + b) mod 65521 in (a, (ab.2 + a) mod 65521)) as ->.
    { unfold adler_step, wrap32, two32, Png.byte in *. rewrite (N.mod_small (ab.1 + b)) by lia.
      pose proof (N.mod_lt (ab.1 + b) 65521 ltac:(done)). cbv zeta. by rewrite (N.mod_small (ab.2 + _)) by lia. }
    apply IH; cbn; by apply N.mod_lt. }
  rewrite Hsteps by done. pose proof (Png.adler_sums 1 0 bytes) as Hs. change (1 mod 65521) with 1 in Hs. change (0 mod 65521) with 0 in Hs.
  rewrite Hs. unfold Png.adler. rewrite N.add_0_l, N.mul_1_r.
  pose proof (N.mod_lt (N.of_nat (length bytes) + Png.running_total bytes) 65521 ltac:(done)).
  pose proof (N.mod_lt (1 + Png.total bytes) 65521 ltac:(done)).
  unfold wrap32, two32. rewrite N.shiftl_mul_pow2, N.mod_small by (change (2 ^ 16) with 65536; lia).
  rewrite <- N.shiftl_mul_pow2, lor_shiftl_add by (change (2 ^ 16) with 65536; lia). done.
Qed.

Lemma adler32_lt bytes : Forall Png.byte bytes -> adler32 bytes < two32.
Proof.
  intros Hb. rewrite adler32_is_png by done. unfold Png.adler, two32.
  pose proof (N.mod_lt (N.of_nat (length bytes) + Png.running_total bytes) 65521 ltac:(done)).
  pose proof (N.mod_lt (1 + Png.total bytes) 65521 ltac:(done)). lia.
Qed.

(** ** Slices and rows *)

Section slices.
Context {A : Type}.
Implicit Types (l : list A).

Lemma slice_Some start len l s :
  slice start len l = Some s <-> (start + len <= length l)%nat /\ s = take len (drop start l).
Proof. unfold slice. case_decide; naive_solver. Qed.

Lemma slice_length start len l s : slice start len l = Some s -> length s = len.
Proof. intros [H ->]%slice_Some. rewrite length_take, length_drop. lia. Qed.

Lemma slice_app_l len l k : length l = len -> slice 0 len (l ++ k) = Some l.
Proof.
  intros <-. apply slice_Some. rewrite length_app. split; [lia|]. by rewrite drop_0, take_app_length.
Qed.

Lemma slice_app_r start len l k : slice (length l + start) len (l ++ k) = slice start len k.
Proof.
  unfold slice. rewrite length_app, drop_app. rewrite drop_ge by lia.
  replace (length l + start - length l)%nat with start by lia. cbn [app].
  destruct (decide (start + len <= length k)%nat); [rewrite decide_True by lia|rewrite decide_False by lia]; done.
Qed.

(** A slice of a slice. *)
Lemma slice_slice start len k m l s :
  slice start len l = Some s -> (k + m <= len)%nat -> slice k m s = slice (start + k) m l.
Proof.
  intros Hs Hkm. pose proof (slice_length _ _ _ _ Hs) as Hl. apply slice_Some in Hs as [Hle ->].
  unfold slice. rewrite !decide_True by lia. f_equal.
  rewrite skipn_firstn_comm, drop_drop, firstn_firstn. f_equal. lia.
Qed.

Lemma mjoin_cons (r : list A) rs : mjoin (r :: rs) = r ++ mjoin rs.
Proof. done. Qed.

(** The rows of a buffer of rows of equal length. *)
Definition rows (line height : nat) l : list (list A) :=
  map (fun row => take line (drop (row * line) l)) (seq 0 height).

Lemma rows_S line height l :
  rows line (S height) l = take line l :: rows line height (drop line l).
Proof.
  unfold rows. cbn [seq map]. rewrite Nat.mul_0_l, drop_0. f_equal.
  rewrite <- seq_shift, map_map. apply map_ext. intros r. rewrite drop_drop. done.
Qed.

Lemma rows_spec line height l :
  length l = (height * line)%nat ->
  mjoin (rows line height l) = l /\ length (rows line height l) = height /\
  Forall (fun r => length r = line) (rows line height l).
Proof.
  revert l. induction height as [|height IH]; intros l Hl.
  - destruct l; [|simpl in Hl; lia]. split_and!; [done..|constructor].
  - rewrite rows_S. destruct (IH (drop line l)) as (Hj&Hn&Hf); [rewrite length_drop; lia|].
    cbn [length]. rewrite mjoin_cons, Hj, Hn, take_drop. split_and!; [done..|]. constructor; [rewrite length_take; lia|done].
Qed.

Lemma mapM_rows {B} (f : list A -> B) line height l :
  length l = (height * line)%nat ->
  mapM (fun row => f <$> slice (row * line) line l) (seq 0 height) = Some (map f (rows line height l)).
Proof.
  intros Hl. apply mapM_Some. unfold rows. rewrite map_map.
  apply Forall2_same_length_lookup. rewrite length_map. split; [done|].
  intros i x y Hx Hy. rewrite lookup_map in Hy. rewrite Hx in Hy. injection Hy as <-.
  apply lookup_seq in Hx as [-> Hi]. cbn [Nat.add].
  unfold slice. rewrite decide_True; [done|]. nia.
Qed.

(** A piece of one row of a joined buffer. *)
Lemma slice_mjoin line (rs : list (list A)) j r k m :
  Forall (fun r => length r = line) rs -> rs !! j = Some r -> (k + m <= line)%nat ->
  slice (j * line + k) m (mjoin rs) = slice k m r.
Proof.
  intros Hf. revert j. induction Hf as [|r0 rs Hr0 Hf IH]; intros [|j] Hj Hkm; try done.
  - injection Hj as ->. rewrite mjoin_cons. cbn [Nat.mul Nat.add]. unfold slice.
    rewrite length_app, !decide_True by lia. f_equal.
    by rewrite drop_app_le, take_app_le by (rewrite ?length_drop; lia).
  - rewrite mjoin_cons. replace (S j * line + k)%nat with (length r0 + (j * line + k))%nat by lia.
    rewrite slice_app_r. by apply IH.
Qed.

Lemma length_mjoin_rows line (rs : list (list A)) :
  Forall (fun r => length r = line) rs -> length (mjoin rs) = (length rs * line)%nat.
Proof.
  induction 1 as [|r rs Hr _ IH]; [done|]. rewrite mjoin_cons, length_app, Hr, IH. cbn [length]. lia.
Qed.
End slices.

(** ** Reading the file back *)

Lemma block_max_N : N.of_nat block_max = 65535.
Proof. apply N2Nat.id. Qed.
#[local] Opaque block_max.

Lemma number_be32 n : n < two32 -> Png.number (be32 n) = n.
Proof.
  intros Hn. unfold Png.number, be32. cbn [foldl]. unfold two32 in *.
  replace (n / 16777216) with (n / 256 / 256 / 256) by (rewrite !N.Div0.div_div; f_equal).
  replace (n / 65536) with (n / 256 / 256) by (rewrite !N.Div0.div_div; f_equal).
  assert (n / 256 / 256 / 256 < 256) by (rewrite !N.Div0.div_div; apply N.Div0.div_lt_upper_bound; lia).
  rewrite (N.mod_small (n / 256 / 256 / 256)) by done.
  pose proof (N.div_mod' n 256). pose proof (N.div_mod' (n / 256) 256).
  pose proof (N.div_mod' (n / 256 / 256) 256). lia.
Qed.

Lemma le16_number n : n < 65536 -> n / 256 mod 256 * 256 + n mod 256 = n.
Proof.
  intros Hn. rewrite (N.mod_small (n / 256)) by (apply N.Div0.div_lt_upper_bound; lia).
  pose proof (N.div_mod' n 256). lia.
Qed.

Lemma bytes_be32 n : Forall Png.byte (be32 n).
Proof. repeat constructor; by apply N.mod_lt. Qed.

Lemma bytes_le16 n : Forall Png.byte (le16 n).
Proof. repeat constructor; by apply N.mod_lt. Qed.

Lemma read_chunk_chunk kind payload r :
  length kind = 4%nat -> N.of_nat (length payload) < 2 ^ 31 ->
  Forall Png.byte kind -> Forall Png.byte payload ->
  Png.read_chunk (chunk kind payload ++ r) = Some (kind, payload, r).
Proof.
  intros Hk Hp Hbk Hbp. change (2 ^ 31) with 2147483648 in Hp. unfold chunk, wrap32, Png.read_chunk. rewrite <- !app_assoc.
  rewrite (N.mod_small (N.of_nat (length payload))) by (unfold two32; lia).
  rewrite (Png.next_app 4 (be32 _)) by done. cbn [mbind option_bind].
  rewrite (Png.next_app 4 kind) by done. cbn [mbind option_bind].
  rewrite number_be32, Nat2N.id by (unfold two32; lia).
  rewrite (Png.next_app _ payload) by done. cbn [mbind option_bind].
  rewrite (Png.next_app 4 (be32 _)) by done. cbn [mbind option_bind].
  rewrite number_be32 by apply crc32_lt. rewrite crc32_is_png by by apply Forall_app.
  by rewrite N.eqb_refl, (proj2 (N.ltb_lt _ _)) by exact Hp.
Qed.

Lemma length_block total i b : length (stored_block total i b) = (5 + length b)%nat.
Proof. done. Qed.

Lemma read_stored_block total i block r :
  (length block <= block_max)%nat ->
  Png.read_block (stored_block total i block ++ r) =
  Some (bool_decide (total <= (i + 1) * block_max)%nat, block, r).
Proof.
  intros Hb. pose proof block_max_N as Hmax. unfold stored_block, le16. rewrite (N.mod_small (N.of_nat _)) by lia.
  cbn [app Png.read_block]. rewrite !le16_number by lia.
  rewrite Nat2N.id, Png.next_app by done. cbn [mbind option_bind].
  change 0xFFFF with 65535. rewrite N.eqb_refl. by case_bool_decide.
Qed.

Lemma chunks_step fuel size l : l <> [] ->
  chunks (S fuel) size l = take size l :: chunks fuel size (drop size l).
Proof. by destruct l. Qed.

(** The blocks of [raw], the last one final, read as [raw]; [i] blocks stood before them. *)
Lemma read_stored_chunks raw i total fuel fuel' r :
  raw <> [] -> total = (i * block_max + length raw)%nat ->
  (length raw <= fuel)%nat -> (length raw <= fuel')%nat ->
  Png.read_blocks fuel' (mjoin (imap (fun j => stored_block total (i + j)) (chunks fuel block_max raw)) ++ r)
  = Some (raw, r).
Proof.
  revert raw i fuel'. induction fuel as [|fuel IH]; intros raw i fuel' Hraw Htotal Hfuel Hfuel'.
  { destruct raw; [done|simpl in *; lia]. }
  assert (1 <= length raw)%nat as Hpos by (destruct raw; [done|simpl; lia]).
  destruct fuel' as [|fuel']; [lia|].
  rewrite chunks_step by done. rewrite imap_cons, mjoin_cons, <- app_assoc, Nat.add_0_r.
  cbn [Png.read_blocks]. rewrite read_stored_block by (rewrite length_take; lia). cbn [mbind option_bind].
  pose proof block_max_N as Hmax.
  case_bool_decide as Hlast.
  - rewrite take_ge by lia. rewrite drop_ge by lia. by destruct fuel.
  - assert (drop block_max raw <> []) as Hne.
    { intros H%(f_equal length). rewrite length_drop in H. simpl in H. lia. }
    rewrite (imap_ext _ (fun j => stored_block total (S i + j))) by (intros; cbn; f_equal; lia).
    rewrite IH; [|done|rewrite length_drop; lia..]. cbn [mbind option_bind]. by rewrite take_drop.
Qed.

Lemma length_chunks_blocks total i fuel raw :
  (length raw <= fuel)%nat ->
  (length raw <= length (mjoin (imap (fun j => stored_block total (i + j)) (chunks fuel block_max raw))))%nat.
Proof.
  revert i raw. induction fuel as [|fuel IH]; intros i raw Hf; [lia|].
  destruct raw as [|b raw]; [simpl; lia|]. rewrite chunks_step by done.
  rewrite imap_cons, mjoin_cons, length_app, length_block, length_take.
  rewrite (imap_ext _ (fun j => stored_block total (S i + j))) by (intros; cbn; f_equal; lia).
  pose proof (IH (S i) (drop block_max (b :: raw))) as H. rewrite length_drop in H.
  pose proof block_max_N as Hmax. simpl length in *. lia.
Qed.

Lemma inflate_stored raw : raw <> [] -> Forall Png.byte raw -> Png.inflate (zlib_stored raw) = Some raw.
Proof.
  intros Hraw Hb. unfold zlib_stored. cbn [app Png.inflate]. change (Png.zlib_header 120 1) with true. cbv iota.
  change (imap (stored_block (length raw)) (chunks (length raw) block_max raw))
    with (imap (fun j => stored_block (length raw) (0 + j)) (chunks (length raw) block_max raw)).
  rewrite read_stored_chunks; [|done|lia|lia|].
  2: { rewrite length_app. pose proof (length_chunks_blocks (length raw) 0 (length raw) raw). lia. }
  cbn [mbind option_bind]. rewrite decide_True; [done|]. split; [done|].
  rewrite number_be32 by by apply adler32_lt. by rewrite adler32_is_png.
Qed.

Lemma bytes_blocks total i fuel raw :
  Forall Png.byte raw -> Forall Png.byte (mjoin (imap (fun j => stored_block total (i + j)) (chunks fuel block_max raw))).
Proof.
  revert i raw. induction fuel as [|fuel IH]; intros i raw Hb; [constructor|].
  destruct raw as [|b raw]; [constructor|]. rewrite chunks_step by done. rewrite imap_cons, mjoin_cons.
  rewrite (imap_ext _ (fun j => stored_block total (S i + j))) by (intros; cbn; f_equal; lia).
  apply Forall_app. split; [|by apply IH, Forall_drop]. unfold stored_block.
  constructor; [by case_bool_decide|]. rewrite !Forall_app. split_and!; [apply bytes_le16..|by apply Forall_take].
Qed.

Lemma bytes_zlib raw : Forall Png.byte raw -> Forall Png.byte (zlib_stored raw).
Proof.
  intros Hb. unfold zlib_stored. rewrite !Forall_app. split_and!; [by repeat constructor| |apply bytes_be32].
  exact (bytes_blocks (length raw) 0 (length raw) raw Hb).
Qed.

Lemma unfilter_scanlines line (rs : list (list N)) :
  Forall (fun r => length r = line) rs ->
  Png.unfilter (length rs) line (mjoin (map (cons 0) rs)) = Some (mjoin rs).
Proof.
  induction 1 as [|r rs Hr _ IH]; [done|]. cbn [map length]. rewrite mjoin_cons. cbn [app Png.unfilter].
  rewrite Png.next_app by done. cbn [mbind option_bind]. by rewrite IH.
Qed.

(** ** Frames *)

(** The buffer has the size the dimensions say, and every index fits in a [u32]. *)
Definition frame_ok (f : Frame) : Prop :=
  length (rgba f) = (N.to_nat (width f) * N.to_nat (height f) * 4)%nat /\
  width f * height f * 4 < two32.

Lemma frame_rows f : frame_ok f ->
  length (rgba f) = (N.to_nat (height f) * (N.to_nat (width f) * 4))%nat.
Proof. intros [H _]. lia. Qed.

Lemma pixel_index f x y : frame_ok f -> x < width f -> y < height f ->
  N.to_nat (wrap32 (wrap32 (wrap32 (y * width f) + x) * 4)) =
  (N.to_nat y * (N.to_nat (width f) * 4) + N.to_nat x * 4)%nat.
Proof.
  intros [_ Hsz] Hx Hy. assert (y * width f + x < width f * height f) by nia.
  unfold wrap32. rewrite (N.mod_small (y * width f)), (N.mod_small (y * width f + x)) by lia.
  rewrite N.mod_small by lia. lia.
Qed.

Lemma pixel_slice f x y : frame_ok f ->
  pixel f x y = if (x <? width f) && (y <? height f)
    then slice (N.to_nat y * (N.to_nat (width f) * 4) + N.to_nat x * 4) 4 (rgba f) else None.
Proof.
  intros Hf. unfold pixel.
  destruct (x <? width f) eqn:Hx, (y <? height f) eqn:Hy; cbn [andb];
    [|rewrite (proj2 (orb_true_iff _ _)) by lia; done..].
  rewrite (proj2 (orb_false_iff _ _)) by lia. by rewrite pixel_index by (done || lia).
Qed.

Lemma pixel_is_Some f x y : frame_ok f -> x < width f -> y < height f -> is_Some (pixel f x y).
Proof.
  intros Hf Hx Hy. rewrite pixel_slice by done.
  rewrite (proj2 (andb_true_iff _ _)) by lia. pose proof (frame_rows f Hf).
  unfold slice. rewrite decide_True by nia. done.
Qed.

(** A file of the three chunks, around any data. *)
Lemma decode_file w h data raw samples :
  0 < w < 2 ^ 31 -> 0 < h < 2 ^ 31 -> Forall Png.byte data -> N.of_nat (length data) < 2 ^ 31 ->
  Png.inflate data = Some raw -> Png.unfilter (N.to_nat h) (4 * N.to_nat w) raw = Some samples ->
  Png.decode (png_signature ++ chunk IHDR (be32 w ++ be32 h ++ [8; 6; 0; 0; 0]) ++ chunk IDAT data ++ chunk IEND [])
  = Some (w, h, samples).
Proof.
  intros Hw Hh Hb Hsize Hraw Hpx.
  assert (w < two32 /\ h < two32) as [? ?] by (change (2 ^ 31) with 2147483648 in *; unfold two32; lia).
  assert (Png.number (be32 w) = w /\ Png.number (be32 h) = h) as [Ew Eh] by by rewrite !number_be32.
  rewrite <- Ew in Hw, Hpx. rewrite <- Eh in Hh, Hpx. rewrite <- Ew at 2. rewrite <- Eh at 2.
  change png_signature with Png.signature. eapply Png.decode_chunks; [..|exact Hraw|exact Hpx]; [..|done|done|done|done].
  - apply (read_chunk_chunk IHDR); [done|done|by repeat constructor|].
    rewrite !Forall_app. split_and!; [apply bytes_be32..|by repeat constructor].
  - apply (read_chunk_chunk IDAT); [done|done|by repeat constructor|done].
  - rewrite <- (app_nil_r (chunk IEND [])). apply (read_chunk_chunk IEND); [done|done|by repeat constructor|done].
Qed.

Lemma decode_encode f : frame_ok f -> Forall Png.byte (rgba f) ->
  0 < width f < 2 ^ 31 -> 0 < height f < 2 ^ 31 ->
  N.of_nat (length (zlib_stored (mjoin (map (cons 0)
    (rows (N.to_nat (width f) * 4) (N.to_nat (height f)) (rgba f)))))) < 2 ^ 31 ->
  exists s, to_png f = Some s /\ Png.decode s = Some (width f, height f, rgba f).
Proof.
  intros Hf Hb Hw Hh Hsize. pose proof (frame_rows f Hf) as Hlen. destruct Hf as [Hsz _].
  set (rs := rows (N.to_nat (width f) * 4) (N.to_nat (height f)) (rgba f)) in *.
  destruct (rows_spec _ _ _ Hlen) as (Hjoin&Hcount&Hlines). fold rs in Hjoin, Hcount, Hlines.
  assert (scanlines (rgba f) (N.to_nat (width f)) (N.to_nat (height f)) = Some (mjoin (map (cons 0) rs)))
    as Hscan.
  { unfold scanlines. erewrite mapM_ext; [rewrite (mapM_rows (cons 0)) by exact Hlen; done|].
    intros r. simpl. by rewrite Nat.mul_assoc. }
  assert (Forall Png.byte (mjoin (map (cons 0) rs))) as Hraw.
  { apply Forall_join, Forall_fmap, Forall_forall. intros r (k & -> & _)%list_elem_of_fmap.
    constructor; [done|]. by apply Forall_take, Forall_drop. }
  assert (width f < two32 /\ height f < two32) as [? ?] by (change (2 ^ 31) with 2147483648 in *; unfold two32; lia).
  unfold to_png, encode_rgba. rewrite decide_True by done. rewrite Hscan. cbn [mbind option_bind].
  eexists. split; [done|].
  apply (decode_file _ _ _ (mjoin (map (cons 0) rs))); [done|done|by apply bytes_zlib|done| |].
  - apply inflate_stored; [|done]. destruct rs; [cbn in Hcount; lia|done].
  - rewrite (Nat.mul_comm 4), <- Hcount, unfilter_scanlines by done. by rewrite Hjoin.
Qed.

(** At most five bytes a block, and fewer blocks than bytes. *)
Lemma length_zlib_stored raw : (length (zlib_stored raw) <= 2 * length raw + 11)%nat.
Proof.
  unfold zlib_stored. rewrite !length_app. cbn [length be32].
  assert (forall fuel i l, length (mjoin (imap (fun j => stored_block (length raw) (i + j))
    (chunks fuel block_max l))) <= 2 * length l + 5)%nat as H.
  { induction fuel as [|fuel IH]; intros i l; [simpl; lia|].
    destruct l as [|b l]; [simpl; lia|]. rewrite chunks_step by done.
    rewrite imap_cons, mjoin_cons, length_app, length_block, length_take.
    rewrite (imap_ext _ (fun j => stored_block (length raw) (S i + j))) by (intros; cbn; f_equal; lia).
    specialize (IH (S i) (drop block_max (b :: l))). rewrite length_drop in IH.
    pose proof block_max_N as Hmax. destruct (decide (length (b :: l) <= block_max)%nat) as [Hd|Hd].
    - rewrite drop_ge in * by done. replace (chunks fuel block_max []) with (@nil (list N)) in * by by destruct fuel.
      cbn [length imap mjoin list_join] in *. simpl. lia.
    - cbn [length] in *. lia. }
  specialize (H (length raw) 0%nat raw).
  change (imap (stored_block (length raw)) (chunks (length raw) block_max raw))
    with (imap (fun j => stored_block (length raw) (0 + j)) (chunks (length raw) block_max raw)). lia.
Qed.

(** ** The flip *)

Lemma slice_row {A} line height (l : list A) k r :
  length l = (height * line)%nat -> rows line height l !! k = Some r ->
  slice (k * line) line l = Some r.
Proof.
  intros Hl Hk. destruct (rows_spec _ _ _ Hl) as (Hj&_&Hf).
  rewrite <- Hj at 1. rewrite <- (Nat.add_0_r (k * line)).
  rewrite (slice_mjoin _ _ _ r) by (done || lia).
  rewrite Forall_forall in Hf.
  pose proof (Hf r (list_elem_of_lookup_2 _ _ _ Hk)) as Hr. apply slice_Some.
  rewrite drop_0. split; [lia|]. by rewrite take_ge by lia.
Qed.

Lemma flip_rows_spec raw w h :
  length raw = (h * (w * 4))%nat -> flip_rows raw w h = Some (mjoin (rev (rows (w * 4) h raw))).
Proof.
  intros Hl. unfold flip_rows. set (stride := (w * 4)%nat) in *. set (rs := rows stride h raw).
  destruct (rows_spec stride h raw Hl) as (Hj&Hn&Hf). fold rs in Hj, Hn, Hf.
  set (step := fun (buffer : option (list N)) (row : nat) => _).
  assert (forall k, (k <= h)%nat -> foldl step (Some (replicate (length raw) 0)) (seq 0 k) =
    Some (replicate ((h - k) * stride) 0 ++ mjoin (rev (take k rs)))) as Hinv.
  { induction k as [|k IH]; intros Hk.
    - cbn [seq foldl take rev mjoin list_join]. rewrite Nat.sub_0_r, Hl. by rewrite app_nil_r.
    - rewrite seq_S, foldl_app, IH by lia. cbn [foldl Nat.add].
      destruct (lookup_lt_is_Some_2 rs k) as [r Hr]; [lia|].
      unfold step at 1. cbn [mbind option_bind].
      rewrite (slice_row stride h raw k r Hl Hr). cbn [mbind option_bind]. f_equal.
      assert (length r = stride) as Hlr by (rewrite Forall_forall in Hf; by eapply Hf, list_elem_of_lookup_2).
      rewrite (take_S_r _ _ _ Hr), rev_app_distr. cbn [rev app]. rewrite mjoin_cons.
      unfold write_at. rewrite Hlr.
      replace ((h - k) * stride)%nat with ((h - 1 - k) * stride + stride)%nat by nia.
      rewrite replicate_add, <- app_assoc.
      rewrite take_app_length', drop_app_ge by (rewrite length_replicate; lia).
      rewrite length_replicate. replace (_ + stride - _)%nat with stride by lia.
      rewrite drop_app_length' by by rewrite length_replicate.
      by replace (h - S k)%nat with (h - 1 - k)%nat by lia. }
  rewrite (Hinv h) by lia. rewrite Nat.sub_diag, take_ge by lia. done.
Qed.

Lemma frame_of_readback_spec raw w h :
  length raw = (N.to_nat w * N.to_nat h * 4)%nat -> w * h * 4 < two32 ->
  exists f, frame_of_readback raw w h = Some f /\ width f = w /\ height f = h /\ frame_ok f /\
    forall x y, x < w -> y < h ->
      pixel f x y = slice (((N.to_nat h - 1 - N.to_nat y) * N.to_nat w + N.to_nat x) * 4) 4 raw.
Proof.
  intros Hl Hsz. unfold frame_of_readback.
  assert (length raw = (N.to_nat h * (N.to_nat w * 4))%nat) as Hl' by lia.
  rewrite (flip_rows_spec _ _ _ Hl'). cbn [mbind option_bind].
  destruct (rows_spec _ _ _ Hl') as (Hj&Hn&Hf). set (rs := rows _ _ raw) in *.
  eexists. split; [done|]. set (f := {| width := w; height := h; rgba := _ |}).
  assert (Forall (fun r => length r = (N.to_nat w * 4)%nat) (rev rs)) as Hfr by by apply Forall_rev.
  assert (frame_ok f) as Hok.
  { split; [|done]. cbn [rgba f width height]. rewrite (length_mjoin_rows _ _ Hfr), length_rev. lia. }
  split_and!; [done..|]. intros x y Hx Hy. rewrite pixel_slice by done. cbn [f width height rgba].
  rewrite (proj2 (andb_true_iff _ _)) by lia.
  destruct (lookup_lt_is_Some_2 rs (N.to_nat h - 1 - N.to_nat y)) as [r Hr]; [lia|].
  rewrite (slice_mjoin _ _ _ r); [|done| |lia].
  2: { rewrite rev_alt. change (rev_append rs []) with (reverse rs).
       rewrite reverse_lookup, <- Hr by lia. f_equal. lia. }
  rewrite <- Hj at 1. rewrite <- (slice_mjoin _ rs (N.to_nat h - 1 - N.to_nat y) r _ _ Hf Hr) by lia.
  f_equal. lia.
Qed.

(** ** The crop *)

Definition i32_limit : N := 2147483648.

(** A rectangle none of whose coordinates leaves [i32]. *)
Definition rect_ok (x y : Z) (w h : N) : Prop :=
  (- 2147483648 <= x /\ x + Z.of_N w < 2147483648 /\ -2147483648 <= y /\ y + Z.of_N h < 2147483648)%Z
  /\ w < i32_limit /\ h < i32_limit.

Definition inside (x y : Z) (w h : N) (px py : N) : Prop :=
  (x <= Z.of_N px < x + Z.of_N w /\ y <= Z.of_N py < y + Z.of_N h)%Z.

Lemma wrap_i32_id z : (-2147483648 <= z < 2147483648)%Z -> wrap_i32 z = z.
Proof. intros Hz. unfold wrap_i32. rewrite Z.mod_small by lia. lia. Qed.

Lemma crop_bound x w limit : (-2147483648 <= x)%Z -> (x + Z.of_N w < 2147483648)%Z -> w < i32_limit ->
  N.min (max0 (wrap_i32 (x + as_i32 w))) limit = N.min (max0 (x + Z.of_N w)) limit.
Proof.
  intros. unfold as_i32, i32_limit in *. by rewrite (wrap_i32_id (Z.of_N w)), wrap_i32_id by lia.
Qed.

(** The pixels of the rectangle, copied row by row. *)
Lemma crop_rows_spec f x0 y0 w h :
  frame_ok f -> x0 + w <= width f -> y0 + h <= height f -> 0 < w ->
  exists px, crop_rows f x0 w (map (fun i => y0 + N.of_nat i) (seq 0 (N.to_nat h))) = Some px /\
    length px = (N.to_nat w * N.to_nat h * 4)%nat /\
    forall i j, i < w -> j < h ->
      slice (N.to_nat j * (N.to_nat w * 4) + N.to_nat i * 4) 4 px = pixel f (x0 + i) (y0 + j).
Proof.
  intros Hf Hx Hy Hw. pose proof (frame_rows f Hf) as Hlen.
  set (row := fun j : nat => take (N.to_nat w * 4)
    (drop ((N.to_nat y0 + j) * (N.to_nat (width f) * 4) + N.to_nat x0 * 4) (rgba f))).
  assert (forall j, (j < N.to_nat h)%nat ->
    slice ((N.to_nat y0 + j) * (N.to_nat (width f) * 4) + N.to_nat x0 * 4) (N.to_nat w * 4) (rgba f)
    = Some (row j)) as Hrow.
  { intros j Hj. apply slice_Some. split; [nia|done]. }
  assert (Forall (fun r => length r = (N.to_nat w * 4)%nat) (map row (seq 0 (N.to_nat h)))) as Hlines.
  { apply Forall_fmap, Forall_forall. intros j [_ Hj]%elem_of_seq. by eapply slice_length, Hrow. }
  exists (mjoin (map row (seq 0 (N.to_nat h)))). split_and!.
  - unfold crop_rows. erewrite (proj2 (mapM_Some _ _ (map row (seq 0 (N.to_nat h))))); [done|].
    apply Forall2_same_length_lookup. rewrite !length_map. split; [done|].
    intros j n r Hn Hr. rewrite lookup_map in Hn. rewrite lookup_map in Hr.
    destruct (seq 0 (N.to_nat h) !! j) as [j'|] eqn:Hj; [|done].
    apply lookup_seq in Hj as [-> Hj]. cbn [Nat.add] in *. injection Hn as <-. injection Hr as <-.
    rewrite pixel_index by (done || lia). rewrite <- (Hrow j Hj).
    replace (wrap32 (w * 4)) with (w * 4).
    { f_equal; lia. }
    unfold wrap32. rewrite N.mod_small; [done|]. destruct Hf as [_ Hsz].
    assert (width f <= width f * height f) by nia. lia.
  - rewrite (length_mjoin_rows _ _ Hlines), length_map, length_seq. lia.
  - intros i j Hi Hj. rewrite (slice_mjoin _ _ _ (row (N.to_nat j)));
      [|done|rewrite lookup_map, lookup_seq_lt by lia; done|lia].
    rewrite (slice_slice _ _ _ _ _ _ (Hrow (N.to_nat j) ltac:(lia))) by lia.
    rewrite pixel_slice by done. rewrite (proj2 (andb_true_iff _ _)) by lia. f_equal. lia.
Qed.

Lemma crop_pixel_slice f x0 y0 w h px :
  frame_ok f -> x0 + w <= width f -> y0 + h <= height f ->
  length px = (N.to_nat w * N.to_nat h * 4)%nat ->
  frame_ok {| width := w; height := h; rgba := px |}.
Proof.
  intros [_ Hsz] Hx Hy Hl. split; [done|]. cbn [width height].
  assert (w * h <= width f * height f) by (apply N.mul_le_mono; lia). lia.
Qed.

(** A crop is the overlap of the rectangle with the frame.  It never panics; it answers nothing
    exactly when no pixel of the frame lies in the rectangle, and otherwise a frame whose pixels
    are those of the overlap, each at its place relative to the overlap's corner, and no others. *)
Theorem crop_correct (f : Frame) (x y : Z) (w h : N) :
  frame_ok f -> width f < i32_limit -> height f < i32_limit -> rect_ok x y w h ->
  exists o, crop f x y w h = Some o /\
    match o with
    | None => forall px py, px < width f -> py < height f -> ~ inside x y w h px py
    | Some g =>
      frame_ok g /\ 0 < width g /\ 0 < height g /\
      (forall i j, i < width g -> j < height g ->
         inside x y w h (max0 x + i) (max0 y + j) /\ pixel g i j = pixel f (max0 x + i) (max0 y + j)) /\
      (forall px py, px < width f -> py < height f -> inside x y w h px py ->
         max0 x <= px /\ max0 y <= py /\ px - max0 x < width g /\ py - max0 y < height g)
    end.
Proof.
  intros Hf Hwf Hhf (Hr&Hw&Hh). unfold crop, i32_limit, inside in *.
  destruct ((w =? 0) || (h =? 0)) eqn:Hz; [exists None; split; [done|]; intros px py; lia|].
  cbv zeta. rewrite !crop_bound by (unfold i32_limit; lia).
  set (x1 := N.min (max0 (x + Z.of_N w)) (width f)). set (y1 := N.min (max0 (y + Z.of_N h)) (height f)).
  destruct ((x1 <=? max0 x) || (y1 <=? max0 y)) eqn:Hempty.
  { exists None. split; [done|]. intros px py Hpx Hpy. unfold x1, y1, max0 in Hempty. lia. }
  destruct (crop_rows_spec f (max0 x) (max0 y) (x1 - max0 x) (y1 - max0 y) Hf) as (px&->&Hlen&Hpx);
    [unfold x1; lia|unfold y1; lia|lia|].
  cbn [mbind option_bind]. eexists. split; [done|]. cbn [width height].
  assert (frame_ok {| width := x1 - max0 x; height := y1 - max0 y; rgba := px |}) as Hg
    by (apply (crop_pixel_slice f (max0 x) (max0 y)); [done|unfold x1; lia|unfold y1; lia|done]).
  split_and!; [done|lia|lia| |].
  - intros i j Hi Hj. split; [unfold x1, y1, max0 in *; lia|]. rewrite pixel_slice by done.
    cbn [width height rgba]. rewrite (proj2 (andb_true_iff _ _)) by lia. by apply Hpx.
  - intros px' py' Hpx' Hpy' Hin. unfold x1, y1, max0 in *. lia.
Qed.

Definition sample_frame : Frame := {| width := 3; height := 2; rgba := map N.of_nat (seq 0 24) |}.

Lemma crop_correct_witness :
  exists o, crop sample_frame (-1) 1 3 5 = Some o /\
    match o with
    | None => forall px py, px < width sample_frame -> py < height sample_frame -> ~ inside (-1) 1 3 5 px py
    | Some g =>
      frame_ok g /\ 0 < width g /\ 0 < height g /\
      (forall i j, i < width g -> j < height g ->
         inside (-1) 1 3 5 (max0 (-1) + i) (max0 1 + j) /\
         pixel g i j = pixel sample_frame (max0 (-1) + i) (max0 1 + j)) /\
      (forall px py, px < width sample_frame -> py < height sample_frame -> inside (-1) 1 3 5 px py ->
         max0 (-1) <= px /\ max0 1 <= py /\ px - max0 (-1) < width g /\ py - max0 1 < height g)
    end.
Proof.
  apply (crop_correct sample_frame (-1) 1 3 5); [split; done|done|done|].
  repeat split; done.
Defined.

Lemma bytes_readback raw w h f :
  length raw = (N.to_nat h * (N.to_nat w * 4))%nat -> Forall Png.byte raw ->
  frame_of_readback raw w h = Some f -> Forall Png.byte (rgba f).
Proof.
  intros Hl Hb. unfold frame_of_readback. rewrite (flip_rows_spec _ _ _ Hl). cbn [mbind option_bind].
  intros [= <-]. cbn [rgba]. apply Forall_join, Forall_rev, Forall_fmap, Forall_true. intros k.
  by apply Forall_take, Forall_drop.
Qed.

(** C37: The screen's pixels reach the reader of the file.  The bytes GL gave, bottom row first, make a
    frame whose pixel at [(x, y)] is the one GL had [y] rows below the top; and the PNG of that
    frame is a file that [Png.decode], a reader written from the formats with checksums of its own,
    accepts, every length and checksum right, and reads as that very frame.  For a picture of at
    least one pixel; the bound keeps the one IDAT chunk within the length a chunk may have. *)
Theorem readback_to_png (raw : list N) (w h : N) :
  length raw = (N.to_nat w * N.to_nat h * 4)%nat -> Forall Png.byte raw ->
  0 < w -> 0 < h -> (4 * w + 1) * h < 536870912 ->
  exists f s, frame_of_readback raw w h = Some f /\ width f = w /\ height f = h /\
    to_png f = Some s /\ Png.decode s = Some (w, h, rgba f) /\
    forall x y, x < w -> y < h ->
      pixel f x y = slice (((N.to_nat h - 1 - N.to_nat y) * N.to_nat w + N.to_nat x) * 4) 4 raw.
Proof.
  intros Hl Hbytes Hpos Hh Hb. destruct (frame_of_readback_spec raw w h Hl) as (f&Hread&Hw&Hhf&Hok&Hpx);
    [unfold two32; nia|].
  assert (4 * w + 1 <= (4 * w + 1) * h /\ h <= (4 * w + 1) * h) as [Hw32 Hh32] by nia.
  pose proof (frame_rows f Hok) as Hlen.
  destruct (rows_spec _ _ _ Hlen) as (Hj&Hn&Hf).
  assert (Forall Png.byte (rgba f)) as Hbf by (eapply bytes_readback; [|done..]; lia).
  change (2 ^ 31) with 2147483648 in *.
  destruct (decode_encode f Hok Hbf) as (s&Hs&Hd); change (2 ^ 31) with 2147483648; [lia|lia| |].
  2: { exists f, s. subst w h. by split_and!. }
  pose proof (length_zlib_stored (mjoin (map (cons 0) (rows (N.to_nat (width f) * 4) (N.to_nat (height f)) (rgba f)))))
    as Hz.
  rewrite (length_mjoin_rows (S (N.to_nat (width f) * 4))) in Hz
    by (apply Forall_fmap; eapply Forall_impl; [exact Hf|]; intros r Hr; cbn; f_equal; exact Hr).
  rewrite length_map, Hn, Hw, Hhf in Hz. rewrite Hw, Hhf. lia.
Qed.

Lemma readback_to_png_witness :
  exists f s, frame_of_readback (map N.of_nat (seq 0 16)) 2 2 = Some f /\ width f = 2 /\ height f = 2 /\
    to_png f = Some s /\ Png.decode s = Some (2, 2, rgba f) /\
    forall x y, x < 2 -> y < 2 ->
      pixel f x y = slice (((N.to_nat 2 - 1 - N.to_nat y) * N.to_nat 2 + N.to_nat x) * 4) 4
        (map N.of_nat (seq 0 16)).
Proof. apply (readback_to_png (map N.of_nat (seq 0 16)) 2 2); [done|by repeat constructor|done..]. Defined.

(** The checksums on the texts their definitions are checked with. *)
Example crc32_check_value : crc32 (Png.text "123456789") = 0xCBF43926.
Proof. by vm_compute. Qed.

Example adler32_check_value : adler32 (Png.text "Wikipedia") = 0x11E60398.
Proof. by vm_compute. Qed.

(** A rectangle of 2^31 columns or more overlaps nothing, as [width as i32] is then negative. *)
Example wide_crop_misses : crop sample_frame 0 0 3000000000 2 = Some None.
Proof. reflexivity. Qed.

(** A frame without rows gets no final block, and its file does not decode. *)
Example empty_frame_is_no_png :
  (to_png {| width := 1; height := 0; rgba := [] |} ≫= Png.decode) = None.
Proof. by vm_compute. Qed.
