(* ===== verification/ClickGrid.v ===== *)
(** * The click grid

    src/crates/yggterm-core/src/click_grid.rs: the rectangle of a cell code such as B7 or B7.5.  A
    code is a bijective base-26 row label, a column number counted from one, and at most a sub-cell
    from 1 to 9.  [cells] is the table an agent is shown, [resolve] what its answer is read with.

    The rectangles are [f64] arithmetic.  Nothing proved here depends on how it rounds, so the
    three operations the code uses and the conversion from [u32] are the fields of [Arith]. *)
From S2P Require Import Prelude RustStr.
From Stdlib Require Import ZifyBool ZifyN.
#[local] Open Scope N_scope.

Class Arith (f64 : Type) := {
  fadd : f64 -> f64 -> f64;
  fmul : f64 -> f64 -> f64;
  fdiv : f64 -> f64 -> f64;
  of_u32 : N -> f64
}.

Record ParsedCell := { row : N; col : N; sub : option N }.

Definition REFINE_DIVISIONS : N := 3.

Definition is_ascii_uppercase (a : ascii) : bool := in_range 65 90 (byte_of a).

(** The loop of [row_label]: [out.insert(0, _)] until nothing is left. *)
Fixpoint row_label_loop (fuel : nat) (i : N) (out : string) : string :=
  match fuel with
  | O => out
  | S fuel =>
    if i =? 0 then out
    else
      let i := i - 1 in
      row_label_loop fuel (i / 26) (String (ascii_of_N (65 + i mod 26)) out)
  end.

Definition row_label (index : N) : string :=
  row_label_loop (N.size_nat (index + 1)) (index + 1) "".

(** [u64::checked_mul] and [checked_add]. *)
Definition checked_u64 (n : N) : option N := if n <=? u64_max then Some n else None.

Fixpoint letters_value (row : N) (letters : string) : option N :=
  match letters with
  | EmptyString => Some row
  | String ch letters =>
    row ← checked_u64 (row * 26);
    row ← checked_u64 (row + (byte_of ch - 65 + 1));
    letters_value row letters
  end.

Section grid.
Context {f64 : Type} `{!Arith f64}.

Record GridRect := { x : f64; y : f64; w : f64; h : f64 }.
Record GridCell := { code : string; rect : GridRect }.
Record GridGeometry := { cols : N; rows : N; region : GridRect }.

(** [GridGeometry::new]; its callers build no geometry otherwise. *)
Definition new (cols rows : N) (region : GridRect) : GridGeometry :=
  {| cols := N.max cols 1; rows := N.max rows 1; region := region |}.

Definition center (r : GridRect) : f64 * f64 :=
  (fadd (x r) (fdiv (w r) (of_u32 2)), fadd (y r) (fdiv (h r) (of_u32 2))).

(** The sub-cell of [parse_cell]. *)
Definition split_sub (code : string) : option (string * option N) :=
  match split_once "." code with
  | Some (head, tail) =>
    value ← parse_uint 255 tail;
    if in_range 1 (REFINE_DIVISIONS * REFINE_DIVISIONS) value then Some (head, Some value) else None
  | None => Some (code, None)
  end.

Definition parse_cell (g : GridGeometry) (code : string) : option ParsedCell :=
  let code := to_ascii_uppercase (trim code) in
  '(head, sub) ← split_sub code;
  '(letters, digits) ← split_at_first is_digit head;
  if str_is_empty letters || negb (str_forallb is_ascii_uppercase letters) then None
  else if str_is_empty digits || negb (str_forallb is_digit digits) then None
  else
    value ← letters_value 0 letters;
    if value =? 0 then None
    else
      let row := value - 1 in
      if u32_max <? row then None
      else
        number ← parse_uint u32_max digits;
        if number =? 0 then None
        else
          let col := number - 1 in
          if (rows g <=? row) || (cols g <=? col) then None
          else Some {| row := row; col := col; sub := sub |}.

Definition cell_rect (g : GridGeometry) (row col : N) : GridRect :=
  let row := of_u32 (N.min row (rows g - 1)) in
  let col := of_u32 (N.min col (cols g - 1)) in
  let w0 := fdiv (w (region g)) (of_u32 (cols g)) in
  let h0 := fdiv (h (region g)) (of_u32 (rows g)) in
  {| x := fadd (x (region g)) (fmul col w0); y := fadd (y (region g)) (fmul row h0); w := w0; h := h0 |}.

Definition sub_rect (cell : GridRect) (sub : N) : GridRect :=
  let index := N.max 1 (N.min sub (REFINE_DIVISIONS * REFINE_DIVISIONS)) - 1 in
  let sr := of_u32 (index / REFINE_DIVISIONS) in
  let sc := of_u32 (index mod REFINE_DIVISIONS) in
  let w0 := fdiv (w cell) (of_u32 REFINE_DIVISIONS) in
  let h0 := fdiv (h cell) (of_u32 REFINE_DIVISIONS) in
  {| x := fadd (x cell) (fmul sc w0); y := fadd (y cell) (fmul sr h0); w := w0; h := h0 |}.

Definition resolve (g : GridGeometry) (code : string) : option GridRect :=
  parsed ← parse_cell g code;
  let rect := cell_rect g (row parsed) (col parsed) in
  Some (match sub parsed with Some sub => sub_rect rect sub | None => rect end).

Definition cell_code (row col : N) : string := (row_label row ++ u64_to_string (col + 1))%string.

Definition range (lo len : N) : list N := map (fun i => lo + N.of_nat i) (seq 0 (N.to_nat len)).

Definition cells (g : GridGeometry) : list GridCell :=
  flat_map (fun row =>
    map (fun col => {| code := cell_code row col; rect := cell_rect g row col |}) (range 0 (cols g)))
    (range 0 (rows g)).

Definition refine_cells (g : GridGeometry) (code0 : string) : option (list GridCell) :=
  parsed ← parse_cell g code0;
  let parent_code := cell_code (row parsed) (col parsed) in
  let parent := cell_rect g (row parsed) (col parsed) in
  Some (map (fun sub => {| code := (parent_code ++ String "." (u64_to_string sub))%string;
                           rect := sub_rect parent sub |})
    (range 1 (REFINE_DIVISIONS * REFINE_DIVISIONS))).

(** ** Row labels *)

Lemma checked_u64_Some n : n <= u64_max -> checked_u64 n = Some n.
Proof. intros Hn. unfold checked_u64. by rewrite (proj2 (N.leb_le _ _)). Qed.

Lemma upper_letter d : d < 26 ->
  byte_of (ascii_of_N (65 + d)) = 65 + d.
Proof. intros Hd. unfold byte_of. apply N_ascii_embedding. lia. Qed.

(** Reading a label from the left undoes the loop, and the fuel reaches the end of it. *)
Lemma letters_value_label fuel i out :
  i < 2 ^ N.of_nat fuel -> i <= 4294967296 ->
  letters_value 0 (row_label_loop fuel i out) = letters_value i out.
Proof.
  revert i out. induction fuel as [|fuel IH]; intros i out Hi Hmax.
  - assert (i = 0) as -> by (simpl in Hi; lia). done.
  - cbn [row_label_loop]. destruct (N.eqb_spec i 0) as [->|Hne]; [done|].
    pose proof (N.div_mod' (i - 1) 26) as Hdm. pose proof (N.mod_lt (i - 1) 26 ltac:(lia)) as Hm.
    rewrite IH; [| |lia].
    + cbn [letters_value]. rewrite upper_letter by done.
      rewrite checked_u64_Some by (unfold u64_max; lia). cbn [mbind option_bind].
      rewrite checked_u64_Some by (unfold u64_max; lia). cbn [mbind option_bind]. f_equal. lia.
    + rewrite Nat2N.inj_succ, N.pow_succ_r' in Hi. lia.
Qed.

Lemma row_label_loop_upper fuel i out :
  str_forallb is_ascii_uppercase out = true ->
  str_forallb is_ascii_uppercase (row_label_loop fuel i out) = true.
Proof.
  revert i out. induction fuel as [|fuel IH]; intros i out Hout; [done|].
  cbn [row_label_loop]. destruct (i =? 0); [done|]. apply IH. cbn [str_forallb].
  rewrite Hout, andb_true_r. unfold is_ascii_uppercase.
  pose proof (N.mod_lt (i - 1) 26 ltac:(lia)). rewrite upper_letter by done. unfold in_range. lia.
Qed.

Lemma row_label_loop_nonempty fuel i out :
  str_is_empty out = false -> str_is_empty (row_label_loop fuel i out) = false.
Proof.
  revert i out. induction fuel as [|fuel IH]; intros i out Hout; [done|].
  cbn [row_label_loop]. destruct (i =? 0); [done|]. by apply IH.
Qed.

Lemma row_label_spec index : index <= u32_max ->
  letters_value 0 (row_label index) = Some (index + 1) /\
  str_forallb is_ascii_uppercase (row_label index) = true /\
  str_is_empty (row_label index) = false.
Proof.
  intros Hi. split_and!.
  - unfold row_label. rewrite letters_value_label; [done|apply size_nat_gt|unfold u32_max in Hi; lia].
  - by apply row_label_loop_upper.
  - unfold row_label. destruct (N.size_nat (index + 1)) as [|fuel] eqn:Hs.
    { pose proof (size_nat_gt (index + 1)) as H. rewrite Hs in H. simpl in H. lia. }
    cbn [row_label_loop]. rewrite (proj2 (N.eqb_neq (index + 1) 0)) by lia.
    by apply row_label_loop_nonempty.
Qed.

(** ** Codes *)

(** The texts [cells] and [refine_cells] print. *)
Definition sub_suffix (sub : option N) : string :=
  match sub with Some s => String "." (u64_to_string s) | None => "" end.

Definition code_of (p : ParsedCell) : string := (cell_code (row p) (col p) ++ sub_suffix (sub p))%string.

Definition cell_in (g : GridGeometry) (p : ParsedCell) : Prop :=
  row p < rows g /\ col p < cols g /\
  match sub p with Some s => 1 <= s <= 9 | None => True end.

(** The dimensions are [u32]. *)
Definition dims_ok (g : GridGeometry) : Prop := rows g <= u32_max /\ cols g <= u32_max.

Definition code_char (a : ascii) : bool := is_ascii_uppercase a || is_digit a || Ascii.eqb a ".".

Lemma code_char_plain a : code_char a = true ->
  plain a = true /\ negb (in_range 97 122 (byte_of a)) = true.
Proof.
  unfold code_char, is_ascii_uppercase, is_digit, plain, ascii_ws, in_range.
  intros [[H|H]%orb_true_iff|H%Ascii.eqb_eq]%orb_true_iff; [lia|lia|]. by subst.
Qed.

Lemma upper_code_char s : str_forallb is_ascii_uppercase s = true -> str_forallb code_char s = true.
Proof. apply str_forallb_impl. intros a Ha. unfold code_char. by rewrite Ha. Qed.

Lemma digit_code_char s : str_forallb is_digit s = true -> str_forallb code_char s = true.
Proof. apply str_forallb_impl. intros a Ha. unfold code_char. rewrite Ha. by rewrite orb_true_r. Qed.

Lemma code_of_chars p : row p <= u32_max -> str_forallb code_char (code_of p) = true.
Proof.
  intros Hr. destruct (row_label_spec (row p) Hr) as (_&Hup&_). unfold code_of, cell_code.
  rewrite !str_forallb_app, (upper_code_char _ Hup), (digit_code_char _ (u64_to_string_digits _)).
  destruct (sub p); [|done]. cbn [sub_suffix str_forallb andb].
  by rewrite (digit_code_char _ (u64_to_string_digits _)).
Qed.

Lemma normal_code s : str_forallb code_char s = true -> to_ascii_uppercase (trim s) = s.
Proof.
  intros Hs. rewrite trim_plain.
  - apply to_ascii_uppercase_id. eapply str_forallb_impl; [|exact Hs]. intros a Ha. by apply code_char_plain.
  - eapply str_forallb_impl; [|exact Hs]. intros a Ha. by apply code_char_plain.
Qed.

Lemma cell_code_no_dot r c : r <= u32_max -> free_of "." (cell_code r c) = true.
Proof.
  intros Hr. destruct (row_label_spec r Hr) as (_&Hup&_). unfold free_of, cell_code.
  rewrite str_forallb_app. apply andb_true_intro. split; eapply str_forallb_impl.
  2: exact Hup. 3: apply u64_to_string_digits.
  all: intros a Ha; apply negb_true_iff, Ascii.eqb_neq; intros ->; done.
Qed.

Lemma split_sub_code p : row p <= u32_max ->
  match sub p with Some s => 1 <= s <= 9 | None => True end ->
  split_sub (code_of p) = Some (cell_code (row p) (col p), sub p).
Proof.
  intros Hr Hs. pose proof (cell_code_no_dot (row p) (col p) Hr) as Hdot.
  unfold split_sub, code_of. destruct (sub p) as [s|]; cbn [sub_suffix].
  - rewrite split_once_app by done. rewrite parse_uint_to_string by lia. cbn [mbind option_bind].
    assert (in_range 1 (REFINE_DIVISIONS * REFINE_DIVISIONS) s = true) as ->
      by (unfold in_range, REFINE_DIVISIONS; lia). done.
  - rewrite string_app_nil_r, split_once_None by done. done.
Qed.

Lemma split_cell_code r c : r <= u32_max ->
  split_at_first is_digit (cell_code r c) = Some (row_label r, u64_to_string (c + 1)).
Proof.
  intros Hr. destruct (row_label_spec r Hr) as (_&Hup&_).
  pose proof (u64_to_string_digits (c + 1)) as Hd. pose proof (u64_to_string_nonempty (c + 1)) as Hne.
  unfold cell_code. destruct (u64_to_string (c + 1)) as [|a s]; [done|].
  apply split_at_first_app; [|by apply andb_prop in Hd as [? _]].
  eapply str_forallb_impl; [|exact Hup]. intros b Hb.
  unfold is_ascii_uppercase, is_digit, in_range in *. lia.
Qed.

Lemma parse_cell_code g p : dims_ok g -> cell_in g p -> parse_cell g (code_of p) = Some p.
Proof.
  intros [Hrows Hcols] (Hr&Hc&Hs). unfold parse_cell.
  rewrite normal_code by (apply code_of_chars; lia).
  rewrite split_sub_code by (done || lia). cbn [mbind option_bind].
  rewrite split_cell_code by lia. cbn [mbind option_bind].
  destruct (row_label_spec (row p)) as (Hval&Hup&Hne); [lia|]. rewrite Hup, Hne, Hval.
  rewrite u64_to_string_nonempty, u64_to_string_digits. cbn [orb negb mbind option_bind].
  rewrite (proj2 (N.eqb_neq _ 0)) by lia. rewrite (proj2 (N.ltb_ge _ _)) by lia.
  rewrite parse_uint_to_string by lia. cbn [mbind option_bind].
  rewrite (proj2 (N.eqb_neq _ 0)) by lia.
  rewrite (proj2 (orb_false_iff _ _)) by lia. rewrite !N.add_sub. by destruct p.
Qed.

Lemma parse_cell_in g s p : parse_cell g s = Some p -> cell_in g p.
Proof.
  unfold parse_cell. intros H.
  destruct (split_sub _) as [[head sb]|] eqn:Hsub; [|done]. cbn [mbind option_bind] in H.
  destruct (split_at_first _ _) as [[letters digits]|]; [|done]. cbn [mbind option_bind] in H.
  destruct (_ || _); [done|]. destruct (_ || _); [done|].
  destruct (letters_value _ _) as [v|]; [|done]. cbn [mbind option_bind] in H.
  destruct (v =? 0); [done|]. destruct (u32_max <? v - 1); [done|].
  destruct (parse_uint _ digits) as [n|]; [|done]. cbn [mbind option_bind] in H.
  destruct (n =? 0); [done|]. destruct ((rows g <=? v - 1) || (cols g <=? n - 1)) eqn:Hin; [done|].
  injection H as <-. unfold cell_in. cbn [row col sub]. split_and!; [lia|lia|].
  destruct sb as [s0|]; [|done]. unfold split_sub in Hsub.
  destruct (split_once _ _) as [[? tail]|]; [|done].
  destruct (parse_uint 255 tail) as [u|]; [|done]. cbn [mbind option_bind] in Hsub.
  destruct (in_range _ _ u) eqn:Hu; [|done]. injection Hsub as _ <-.
  unfold in_range, REFINE_DIVISIONS in Hu. lia.
Qed.

Lemma elem_of_range lo len i : i ∈ range lo len <-> lo <= i < lo + len.
Proof.
  unfold range. rewrite list_elem_of_In, in_map_iff. split.
  - intros (k&<-&Hk%in_seq). lia.
  - intros Hi. exists (N.to_nat (i - lo)). rewrite in_seq. lia.
Qed.

Lemma elem_of_cells g cell : cell ∈ cells g <->
  exists r c, r < rows g /\ c < cols g /\ cell = {| code := cell_code r c; rect := cell_rect g r c |}.
Proof.
  unfold cells. rewrite list_elem_of_In, in_flat_map. split.
  - intros (r&Hr&(c&<-&Hc)%in_map_iff). rewrite <- list_elem_of_In, elem_of_range in Hr, Hc.
    exists r, c. split_and!; [lia..|done].
  - intros (r&c&Hr&Hc&->). exists r. rewrite <- list_elem_of_In, elem_of_range. split; [lia|].
    apply in_map_iff. exists c. rewrite <- list_elem_of_In, elem_of_range. split; [done|lia].
Qed.
End grid.

Arguments GridRect : clear implicits.
Arguments GridCell : clear implicits.
Arguments GridGeometry : clear implicits.

(** ** What an agent is shown is what its answer means *)

Lemma range_NoDup lo len : NoDup (range lo len).
Proof.
  apply (NoDup_fmap_2_strong (fun i => lo + N.of_nat i) (seq 0 (N.to_nat len))); [|apply NoDup_seq].
  intros. lia.
Qed.

Lemma cell_code_inj {f64} (g : GridGeometry f64) r c r' c' :
  dims_ok g -> r < rows g -> c < cols g -> r' < rows g -> c' < cols g ->
  cell_code r c = cell_code r' c' -> r = r' /\ c = c'.
Proof.
  intros Hg Hr Hc Hr' Hc' Heq.
  pose proof (parse_cell_code g {| row := r; col := c; sub := None |} Hg ltac:(done)) as H.
  pose proof (parse_cell_code g {| row := r'; col := c'; sub := None |} Hg ltac:(done)) as H'.
  unfold code_of in H, H'. cbn [row col sub sub_suffix] in H, H'. rewrite string_app_nil_r in H, H'.
  rewrite Heq, H' in H. by injection H.
Qed.

Lemma codes_NoDup {f64} (g : GridGeometry f64) : dims_ok g ->
  NoDup (flat_map (fun r => map (cell_code r) (range 0 (cols g))) (range 0 (rows g))).
Proof.
  intros Hg.
  assert (forall r y, y ∈ map (cell_code r) (range 0 (cols g)) -> exists c, c < cols g /\ y = cell_code r c) as Hin.
  { intros r y Hy. apply list_elem_of_In, in_map_iff in Hy as (c&<-&Hc).
    rewrite <- list_elem_of_In, elem_of_range in Hc. exists c. split; [lia|done]. }
  apply (NoDup_bind (fun r => map (cell_code r) (range 0 (cols g)))); [| |apply range_NoDup].
  - intros r r' y Hr%elem_of_range Hr'%elem_of_range (c&Hc&->)%Hin (c'&Hc'&Heq)%Hin.
    apply (cell_code_inj g) in Heq as [? _]; [done|done|lia..].
  - intros r Hr%elem_of_range. apply (NoDup_fmap_2_strong (cell_code r)); [|apply range_NoDup].
    intros c c' Hc%elem_of_range Hc'%elem_of_range Heq.
    apply (cell_code_inj g) in Heq as [_ ?]; [done|done|lia..].
Qed.

(** Every cell the grid lists is reached by its code.  The table lists the codes row by row,
    no two cells sharing one; and resolving a listed code, in either case and with space around
    it, gives the very rectangle the table printed beside it. *)
Theorem cells_resolve {f64} `{!Arith f64} (g : GridGeometry f64) :
  dims_ok g ->
  map code (cells g) = flat_map (fun r => map (cell_code r) (range 0 (cols g))) (range 0 (rows g)) /\
  NoDup (map code (cells g)) /\
  forall cell, cell ∈ cells g -> forall s, to_ascii_uppercase (trim s) = code cell ->
    resolve g s = Some (rect cell).
Proof.
  intros Hg.
  assert (map code (cells g) = flat_map (fun r => map (cell_code r) (range 0 (cols g))) (range 0 (rows g)))
    as Hcodes.
  { unfold cells. rewrite !flat_map_concat_map, concat_map, map_map. f_equal.
    apply map_ext. intros r. by rewrite map_map. }
  split; [done|]. split; [rewrite Hcodes; by apply codes_NoDup|].
  intros cell (r&c&Hr&Hc&->)%elem_of_cells s Hs. cbn [code] in Hs.
  pose proof (parse_cell_code g {| row := r; col := c; sub := None |} Hg ltac:(done)) as H.
  unfold code_of in H. cbn [row col sub sub_suffix] in H. rewrite string_app_nil_r in H.
  assert (to_ascii_uppercase (trim (cell_code r c)) = cell_code r c) as Hn.
  { pose proof (code_of_chars {| row := r; col := c; sub := None |}) as Hch.
    unfold code_of in Hch. cbn [row col sub sub_suffix] in Hch. rewrite string_app_nil_r in Hch.
    apply normal_code, Hch. destruct Hg. lia. }
  unfold resolve. unfold parse_cell in *. rewrite Hs. rewrite Hn in H. rewrite H. done.
Qed.

(** Exact integers stand for the arithmetic in the examples. *)
#[export] Instance Z_arith : Arith Z := {
  fadd := Z.add; fmul := Z.mul; fdiv := Z.div; of_u32 := Z.of_N
}.

Definition sample_grid : GridGeometry Z := new 3 28 {| x := 40; y := 10; w := 300; h := 560 |}%Z.

Lemma cells_resolve_witness :
  map code (cells sample_grid) =
    flat_map (fun r => map (cell_code r) (range 0 (cols sample_grid))) (range 0 (rows sample_grid)) /\
  NoDup (map code (cells sample_grid)) /\
  forall cell, cell ∈ cells sample_grid -> forall s, to_ascii_uppercase (trim s) = code cell ->
    resolve sample_grid s = Some (rect cell).
Proof. apply (cells_resolve sample_grid). split; done. Defined.

Example resolve_AB3 : resolve sample_grid " ab3 " = Some {| x := 240; y := 550; w := 100; h := 20 |}%Z.
Proof. reflexivity. Qed.

(** A code is accepted exactly when it names a cell of the grid, and then its canonical spelling
    names the same one: parsing answers a row, a column and a sub-cell inside the bounds, and the
    code printed from the answer parses to the same answer. *)
Theorem parse_cell_canonical {f64} (g : GridGeometry f64) (p : ParsedCell) :
  dims_ok g ->
  (exists s, parse_cell g s = Some p) <-> cell_in g p /\ parse_cell g (code_of p) = Some p.
Proof.
  intros Hg. split; [|by intros [_ H]; exists (code_of p)].
  intros [s Hs%parse_cell_in]. split; [done|]. by apply parse_cell_code.
Qed.

Lemma parse_cell_canonical_witness :
  (exists s, parse_cell sample_grid s = Some {| row := 27; col := 2; sub := Some 5 |}) <->
  cell_in sample_grid {| row := 27; col := 2; sub := Some 5 |} /\
  parse_cell sample_grid (code_of {| row := 27; col := 2; sub := Some 5 |})
    = Some {| row := 27; col := 2; sub := Some 5 |}.
Proof. apply (parse_cell_canonical sample_grid). split; done. Defined.

(** Refining shows nine sub-cells, each of which resolves to the rectangle shown; a code that
    already names a sub-cell refines its parent. *)
Theorem refine_cells_resolve {f64} `{!Arith f64} (g : GridGeometry f64) (s : string) (l : list (GridCell f64)) :
  dims_ok g -> refine_cells g s = Some l ->
  length l = 9%nat /\
  (forall cell, cell ∈ l ->
    resolve g (code cell) = Some (rect cell) /\ refine_cells g (code cell) = Some l).
Proof.
  intros Hg. unfold refine_cells at 1. destruct (parse_cell g s) as [p|] eqn:Hp; [|done].
  cbn [mbind option_bind]. intros Hl. apply (inj Some) in Hl. subst l. split; [done|].
  intros cell Hin. apply list_elem_of_In, in_map_iff in Hin as (k&<-&Hk).
  rewrite <- list_elem_of_In, elem_of_range in Hk. apply parse_cell_in in Hp as (Hr&Hc&_).
  set (q := {| row := row p; col := col p; sub := Some k |}).
  assert (parse_cell g (code_of q) = Some q) as Hq.
  { apply parse_cell_code; [done|]. split_and!; [done..|]. unfold REFINE_DIVISIONS in Hk. cbn [sub q]. lia. }
  change (code {| code := _; rect := _ |}) with (code_of q). cbn [rect].
  unfold resolve, refine_cells. by rewrite Hq.
Qed.

Lemma refine_cells_resolve_witness :
  exists l, refine_cells sample_grid "b2.3" = Some l /\ length l = 9%nat /\
  (forall cell, cell ∈ l ->
    resolve sample_grid (code cell) = Some (rect cell) /\ refine_cells sample_grid (code cell) = Some l).
Proof.
  eexists. split; [reflexivity|].
  apply (refine_cells_resolve sample_grid "b2.3"); [split; done|reflexivity].
Defined.
