(* ===== verification/InputArbiter.v ===== *)
(** * Agent input and the human's hand on the page

    src/crates/yggterm-shell/src/agent_input_arbiter.rs and the gate in front of it,
    [web_do_gate] of src/crates/yggterm-shell/src/shell/state.rs.  Agents drive web surfaces verb
    by verb; a verb belongs to a batch.  When the user touches a surface, every batch driving it
    is cancelled there and its later verbs are refused, until the surface's lane is forgotten: by a
    verb that asserts it has observed the page anew, or when the surface closes.

    [AgentInputArbiter] is the map of lanes; [web_do_gate] the decision on one verb, in the order
    the code takes it.  [Event] and [run] are the doors to the arbiter the shell has: a verb (alone, or
    as the opening of a batch of actions), the look a running batch takes at the seat before each
    further action ([batch_step]), a lost write lock, a closing surface.  The arbiter is behind a
    mutex and each door takes it once, so a history is a list of events, those of running batches and
    of other requests in any order.  Detecting seat input is the webview's; its count is an argument.
    The actions of a batch after its first do not ask the gate again: what stops them is their own
    look at the seat, and the outcomes of the actions are the webview's. *)
From S2P Require Import Prelude.
#[local] Open Scope N_scope.

Record SurfaceKey := { session_path : string; generation : N }.

#[export] Instance SurfaceKey_eq_dec : EqDecision SurfaceKey.
Proof. solve_decision. Defined.

#[export] Instance SurfaceKey_countable : Countable SurfaceKey.
Proof.
  refine (inj_countable' (fun k => (session_path k, generation k))
    (fun '(p, g) => {| session_path := p; generation := g |}) _).
  by intros [].
Defined.

(** [client_id] is not read anywhere yet. *)
Record AgentBatch := { batch_id : string; client_id : option string }.

Inductive AdmitOutcome := Allowed | Preempted | StaleSurface.

(** [PreemptReport]: the batches a preemption cancelled. *)
Definition PreemptReport := list string.

Record SurfaceLane := { active_batches : list string; preempted_batches : list string }.

Definition empty_lane : SurfaceLane := {| active_batches := []; preempted_batches := [] |}.

Abbreviation AgentInputArbiter := (gmap SurfaceKey SurfaceLane).

Definition is_stale (surface : SurfaceKey) (live_generation : N) : bool :=
  negb (generation surface =? live_generation).

Definition admit_input (arb : AgentInputArbiter) (surface : SurfaceKey) (batch : AgentBatch)
    (live_generation : N) : AdmitOutcome * AgentInputArbiter :=
  if is_stale surface live_generation then (StaleSurface, arb)
  else
    let lane := default empty_lane (arb !! surface) in
    if decide (batch_id batch ∈ preempted_batches lane) then (Preempted, <[surface := lane]> arb)
    else
      let active :=
        if decide (batch_id batch ∈ active_batches lane) then active_batches lane
        else active_batches lane ++ [batch_id batch] in
      (Allowed, <[surface := {| active_batches := active;
                                preempted_batches := preempted_batches lane |}]> arb).

(** The [drain] loop: each active batch joins the preempted ones, once, and the report. *)
Definition preempt_step (acc : list string * PreemptReport) (id : string) : list string * PreemptReport :=
  (if decide (id ∈ acc.1) then acc.1 else acc.1 ++ [id], acc.2 ++ [id]).

Definition preempt_surface (arb : AgentInputArbiter) (surface : SurfaceKey) :
    PreemptReport * AgentInputArbiter :=
  match arb !! surface with
  | None => ([], arb)
  | Some lane =>
    let '(preempted, report) := foldl preempt_step (preempted_batches lane, []) (active_batches lane) in
    (report, <[surface := {| active_batches := []; preempted_batches := preempted |}]> arb)
  end.

Definition note_human_input := preempt_surface.

Definition forget (arb : AgentInputArbiter) (surface : SurfaceKey) : AgentInputArbiter :=
  delete surface arb.

(** ** The gate *)

Inductive GateDecision := GateAllowed | GatePreempted | GateStaleSurface | SeatInputOnUnrevealedSurface.

#[export] Instance GateDecision_eq_dec : EqDecision GateDecision.
Proof. solve_decision. Defined.

Definition outcome_decision (o : AdmitOutcome) : GateDecision :=
  match o with
  | Allowed => GateAllowed
  | Preempted => GatePreempted
  | StaleSurface => GateStaleSurface
  end.

Definition web_do_gate (seat_input_count : N) (surface_ever_revealed new_batch : bool)
    (arb : AgentInputArbiter) (surface : SurfaceKey) (batch : AgentBatch) (live_generation : N) :
    GateDecision * PreemptReport * AgentInputArbiter :=
  if is_stale surface live_generation then (GateStaleSurface, [], arb)
  else if (0 <? seat_input_count) && negb surface_ever_revealed then
    (SeatInputOnUnrevealedSurface, [], arb)
  else if 0 <? seat_input_count then
    let '(report, arb) := note_human_input arb surface in (GatePreempted, report, arb)
  else
    let arb := if new_batch then forget arb surface else arb in
    let '(outcome, arb) := admit_input arb surface batch live_generation in
    (outcome_decision outcome, [], arb).

(** ** The look between the actions of a batch *)

Inductive BatchStep :=
| BatchRun
| AbortPreempted (remaining : N)
| AbortSeatInputOnUnrevealedSurface (remaining : N).

(** [WebBatchTally::step]: the first action was judged by the gate that opened the lane. *)
Definition batch_step (total index seat_input_count : N) (surface_ever_revealed : bool) : BatchStep :=
  if (index =? 0) || (seat_input_count =? 0) then BatchRun
  else
    let remaining := total - index in
    if negb surface_ever_revealed then AbortSeatInputOnUnrevealedSurface remaining
    else AbortPreempted remaining.

(** ** Histories: what reaches the arbiter, in order *)

Record Verb := {
  seat_input_count : N;
  surface_ever_revealed : bool;
  new_batch : bool;
  surface : SurfaceKey;
  batch : AgentBatch;
  live_generation : N
}.

(** A batch of [batch_total] actions about to run the one at [batch_index]; the seat's count and the
    flag are what it reads then. *)
Record BatchAction := {
  batch_total : N;
  batch_index : N;
  batch_seat_input : N;
  batch_ever_revealed : bool;
  batch_surface : SurfaceKey
}.

Definition action_step (a : BatchAction) : BatchStep :=
  batch_step (batch_total a) (batch_index a) (batch_seat_input a) (batch_ever_revealed a).

(** What the loop of [web_surface_batch_for] does to the arbiter before an action. *)
Definition before_action (arb : AgentInputArbiter) (a : BatchAction) : AgentInputArbiter :=
  match action_step a with
  | BatchRun => arb
  | AbortPreempted _ => (note_human_input arb (batch_surface a)).2
  | AbortSeatInputOnUnrevealedSurface _ => arb
  end.

Inductive Event :=
| DoVerb (v : Verb)
| DoAction (a : BatchAction)
| WriteLockLost (s : SurfaceKey)
| SurfaceClosed (s : SurfaceKey).

Definition gate (arb : AgentInputArbiter) (v : Verb) : GateDecision * PreemptReport * AgentInputArbiter :=
  web_do_gate (seat_input_count v) (surface_ever_revealed v) (new_batch v) arb (surface v) (batch v)
    (live_generation v).

Definition handle (arb : AgentInputArbiter) (e : Event) : AgentInputArbiter :=
  match e with
  | DoVerb v => (gate arb v).2
  | DoAction a => before_action arb a
  | WriteLockLost s => (preempt_surface arb s).2
  | SurfaceClosed s => forget arb s
  end.

Definition run (arb : AgentInputArbiter) (es : list Event) : AgentInputArbiter := foldl handle arb es.

Definition decision (arb : AgentInputArbiter) (v : Verb) : GateDecision := (gate arb v).1.1.

Definition surface_of (e : Event) : SurfaceKey :=
  match e with
  | DoVerb v => surface v
  | DoAction a => batch_surface a
  | WriteLockLost s => s
  | SurfaceClosed s => s
  end.

(** What reopens a lane: the surface closing, or a verb that opens a batch and meets neither a
    stale incarnation nor the user's input. *)
Definition resets (e : Event) : bool :=
  match e with
  | DoVerb v => new_batch v && negb (is_stale (surface v) (live_generation v)) && (seat_input_count v =? 0)
  | DoAction _ => false
  | WriteLockLost _ => false
  | SurfaceClosed _ => true
  end.

(** ** Lemmas *)

Definition preempted_on (arb : AgentInputArbiter) (s : SurfaceKey) (b : string) : Prop :=
  exists lane, arb !! s = Some lane /\ b ∈ preempted_batches lane.

Definition active_on (arb : AgentInputArbiter) (s : SurfaceKey) (b : string) : Prop :=
  exists lane, arb !! s = Some lane /\ b ∈ active_batches lane.

Definition lane_wf (lane : SurfaceLane) : Prop :=
  NoDup (active_batches lane) /\ NoDup (preempted_batches lane) /\
  forall b, b ∈ active_batches lane -> b ∉ preempted_batches lane.

Definition arbiter_wf (arb : AgentInputArbiter) : Prop := map_Forall (fun _ => lane_wf) arb.

Lemma preempt_fold active pre report :
  foldl preempt_step (pre, report) active =
  (pre ++ dedup_from pre active, report ++ active).
Proof.
  revert pre report. induction active as [|b active IH]; intros pre report; cbn [foldl dedup_from].
  - by rewrite !app_nil_r.
  - unfold preempt_step at 2. cbn [fst snd]. rewrite IH.
    case_decide; f_equal; rewrite <- ?app_assoc; cbn [app]; [done| |done].
    f_equal. f_equal. apply dedup_from_ext. set_solver.
Qed.

Lemma preempt_surface_lane arb s lane : arb !! s = Some lane ->
  preempt_surface arb s =
  (active_batches lane,
   <[s := {| active_batches := [];
             preempted_batches := preempted_batches lane ++ dedup_from (preempted_batches lane) (active_batches lane) |}]> arb).
Proof. intros Hs. unfold preempt_surface. by rewrite Hs, preempt_fold. Qed.

Lemma lookup_other_admit arb s b g s' : s' <> s -> (admit_input arb s b g).2 !! s' = arb !! s'.
Proof.
  intros Hne. unfold admit_input; cbv zeta. destruct (is_stale s g); [done|].
  repeat case_decide; cbn [snd]; by rewrite lookup_insert_ne.
Qed.

Lemma lookup_other_preempt arb s s' : s' <> s -> (preempt_surface arb s).2 !! s' = arb !! s'.
Proof.
  intros Hne. destruct (arb !! s) as [lane|] eqn:Hs.
  - rewrite (preempt_surface_lane _ _ _ Hs). cbn [snd]. by rewrite lookup_insert_ne.
  - unfold preempt_surface. by rewrite Hs.
Qed.

Lemma lookup_other_forget arb s s' : s' <> s -> forget arb s !! s' = arb !! s'.
Proof. intros Hne. unfold forget. by rewrite lookup_delete_ne. Qed.

Definition reopened (arb : AgentInputArbiter) (v : Verb) : AgentInputArbiter :=
  if new_batch v then forget arb (surface v) else arb.

(** The four ways a verb ends. *)
Lemma gate_cases arb v :
  gate arb v =
  if is_stale (surface v) (live_generation v) then (GateStaleSurface, [], arb)
  else if seat_input_count v =? 0 then
    (outcome_decision (admit_input (reopened arb v) (surface v) (batch v) (live_generation v)).1, [],
     (admit_input (reopened arb v) (surface v) (batch v) (live_generation v)).2)
  else if surface_ever_revealed v then
    (GatePreempted, (preempt_surface arb (surface v)).1, (preempt_surface arb (surface v)).2)
  else (SeatInputOnUnrevealedSurface, [], arb).
Proof.
  unfold gate, web_do_gate, note_human_input. destruct (is_stale _ _); [done|].
  destruct (N.eqb_spec (seat_input_count v) 0) as [->|Hne].
  { cbn [N.ltb N.compare andb]. unfold reopened. by destruct (admit_input _ _ _ _). }
  rewrite (proj2 (N.ltb_lt 0 (seat_input_count v))) by lia.
  destruct (surface_ever_revealed v); [|done]. cbn [negb andb].
  by destruct (preempt_surface arb (surface v)).
Qed.

(** The touch, as a running batch sees it. *)
Definition action_touched (a : BatchAction) : bool :=
  negb (batch_index a =? 0) && negb (batch_seat_input a =? 0) && batch_ever_revealed a.

Lemma before_action_eq arb a :
  before_action arb a =
  if action_touched a then (preempt_surface arb (batch_surface a)).2 else arb.
Proof.
  unfold before_action, action_step, batch_step, action_touched, note_human_input.
  by destruct (batch_index a =? 0), (batch_seat_input a =? 0), (batch_ever_revealed a).
Qed.

Lemma handle_other arb e s : s <> surface_of e -> handle arb e !! s = arb !! s.
Proof.
  intros Hne. destruct e as [v|a|s'|s']; cbn [handle surface_of] in *.
  - rewrite gate_cases. destruct (is_stale _ _); [done|].
    destruct (seat_input_count v =? 0).
    + cbn [snd]. rewrite lookup_other_admit by done.
      unfold reopened. destruct (new_batch v); [by apply lookup_other_forget|done].
    + destruct (surface_ever_revealed v); [by apply lookup_other_preempt|done].
  - rewrite before_action_eq. destruct (action_touched a); [by apply lookup_other_preempt|done].
  - by apply lookup_other_preempt.
  - by apply lookup_other_forget.
Qed.

(** Only a reset takes a preempted batch off its lane. *)
Lemma handle_keeps_preempted arb e s b :
  preempted_on arb s b -> (surface_of e = s -> resets e = false) -> preempted_on (handle arb e) s b.
Proof.
  intros (lane&Hs&Hb) Hr. destruct (decide (s = surface_of e)) as [->|Hne].
  2: { exists lane. by rewrite handle_other. }
  specialize (Hr eq_refl).
  assert (preempted_on (preempt_surface arb (surface_of e)).2 (surface_of e) b) as Hpre.
  { rewrite (preempt_surface_lane _ _ _ Hs). cbn [snd]. eexists. rewrite lookup_insert_eq.
    split; [done|]. cbn [preempted_batches]. apply elem_of_app. by left. }
  destruct e as [v|a|s'|s']; cbn [handle surface_of resets] in *; [| |done|done].
  2: { rewrite before_action_eq. destruct (action_touched a); [done|by exists lane]. }
  rewrite gate_cases. destruct (is_stale _ _) eqn:Hst; [by exists lane|].
  destruct (seat_input_count v =? 0); [|by destruct (surface_ever_revealed v); [|exists lane]].
  unfold reopened. destruct (new_batch v); [done|]. unfold admit_input; cbv zeta. rewrite Hst, Hs. cbn [default].
  repeat case_decide; cbn [snd]; eexists; rewrite lookup_insert_eq; (split; [done|]); done.
Qed.

Lemma run_keeps_preempted arb es s b :
  preempted_on arb s b -> Forall (fun e => surface_of e = s -> resets e = false) es ->
  preempted_on (run arb es) s b.
Proof.
  intros Hp Hes. revert arb Hp. induction Hes as [|e es He _ IH]; intros arb Hp; [done|].
  apply IH. by apply handle_keeps_preempted.
Qed.

Lemma preempted_refused arb v :
  preempted_on arb (surface v) (batch_id (batch v)) -> resets (DoVerb v) = false ->
  decision arb v <> GateAllowed.
Proof.
  intros (lane&Hs&Hb) Hr. unfold decision. rewrite gate_cases. cbn [resets] in Hr.
  destruct (is_stale _ _) eqn:Hst; [done|].
  destruct (seat_input_count v =? 0); [|by destruct (surface_ever_revealed v)].
  unfold reopened. destruct (new_batch v); [done|]. unfold admit_input; cbv zeta. rewrite Hst, Hs. cbn [default].
  by rewrite decide_True.
Qed.

Lemma preempt_cancels arb s b : active_on arb s b -> preempted_on (preempt_surface arb s).2 s b.
Proof.
  intros (lane&Hs&Hb). rewrite (preempt_surface_lane _ _ _ Hs). cbn [snd].
  eexists. rewrite lookup_insert_eq. split; [done|]. cbn [preempted_batches].
  rewrite elem_of_app, elem_of_dedup_from. destruct (decide (b ∈ preempted_batches lane)); tauto.
Qed.

(** The user's touch, as the gate sees it. *)
Definition user_touch (v : Verb) : Prop :=
  is_stale (surface v) (live_generation v) = false /\ seat_input_count v <> 0 /\
  surface_ever_revealed v = true.

Lemma user_touch_gate arb v : user_touch v ->
  gate arb v = (GatePreempted, (preempt_surface arb (surface v)).1, (preempt_surface arb (surface v)).2).
Proof.
  intros (Hst&Hc&Hrev). rewrite gate_cases, Hst, Hrev. by rewrite (proj2 (N.eqb_neq _ _)).
Qed.

Lemma admit_wf arb s b g : arbiter_wf arb -> arbiter_wf (admit_input arb s b g).2.
Proof.
  intros Hwf. unfold admit_input; cbv zeta. destruct (is_stale s g); [done|].
  assert (lane_wf (default empty_lane (arb !! s))) as (Ha&Hp&Hd).
  { destruct (arb !! s) as [lane|] eqn:Hs; [by eapply Hwf|]. split_and!; [constructor..|]. set_solver. }
  destruct (decide (batch_id b ∈ preempted_batches _)) as [Hpre|Hpre]; cbn [snd]; apply map_Forall_insert_2; [split_and!; done|done| |done].
  split_and!; cbn [active_batches preempted_batches]; [|done|].
  - case_decide; [done|]. apply NoDup_app. split_and!; [done|set_solver|apply NoDup_singleton].
  - intros x Hx. case_decide; [by apply Hd|]. apply elem_of_app in Hx as [Hx| ->%list_elem_of_singleton]; [by apply Hd|done].
Qed.

Lemma preempt_wf arb s : arbiter_wf arb -> arbiter_wf (preempt_surface arb s).2.
Proof.
  intros Hwf. destruct (arb !! s) as [lane|] eqn:Hs; [|unfold preempt_surface; by rewrite Hs].
  rewrite (preempt_surface_lane _ _ _ Hs). cbn [snd]. apply map_Forall_insert_2; [|done].
  destruct (Hwf s lane Hs) as (_&Hp&_). split_and!; cbn [active_batches preempted_batches]; [constructor| |set_solver].
  apply NoDup_app. split_and!; [done| |apply NoDup_dedup_from].
  intros b Hb. rewrite elem_of_dedup_from. tauto.
Qed.

Lemma handle_wf arb e : arbiter_wf arb -> arbiter_wf (handle arb e).
Proof.
  intros Hwf. destruct e as [v|a|s|s]; cbn [handle].
  - rewrite gate_cases. destruct (is_stale _ _); [done|]. destruct (seat_input_count v =? 0).
    + cbn [snd]. apply admit_wf. unfold reopened.
      destruct (new_batch v); [by apply map_Forall_delete|done].
    + destruct (surface_ever_revealed v); [by apply preempt_wf|done].
  - rewrite before_action_eq. destruct (action_touched a); [by apply preempt_wf|done].
  - by apply preempt_wf.
  - by apply map_Forall_delete.
Qed.

Lemma run_wf arb es : arbiter_wf arb -> arbiter_wf (run arb es).
Proof. revert arb. induction es as [|e es IH]; intros arb Hwf; [done|]. by apply IH, handle_wf. Qed.

Lemma preempt_congr arb1 arb2 s :
  arb1 !! s = arb2 !! s -> (preempt_surface arb1 s).2 !! s = (preempt_surface arb2 s).2 !! s.
Proof.
  intros Heq. unfold preempt_surface. rewrite Heq.
  destruct (arb2 !! s) eqn:H2; [|by cbn [snd]; rewrite ?Heq, ?H2].
  destruct (foldl _ _ _). cbn [snd]. by rewrite !lookup_insert_eq.
Qed.

Lemma handle_congr arb1 arb2 e s :
  arb1 !! s = arb2 !! s -> surface_of e = s -> handle arb1 e !! s = handle arb2 e !! s.
Proof.
  intros Heq <-. destruct e as [v|a|s'|s']; cbn [handle surface_of] in *.
  - rewrite !gate_cases. destruct (is_stale _ _); [done|]. destruct (seat_input_count v =? 0).
    + assert (reopened arb1 v !! surface v = reopened arb2 v !! surface v) as Ha.
      { unfold reopened, forget. destruct (new_batch v); [by rewrite !lookup_delete_eq|done]. }
      unfold admit_input; cbv zeta. destruct (is_stale _ _); [done|]. rewrite Ha.
      repeat case_decide; cbn [snd]; by rewrite !lookup_insert_eq.
    + destruct (surface_ever_revealed v); [by apply preempt_congr|done].
  - rewrite !before_action_eq. destruct (action_touched a); [by apply preempt_congr|done].
  - by apply preempt_congr.
  - unfold forget. by rewrite !lookup_delete_eq.
Qed.

Lemma run_congr s es arb1 arb2 :
  arb1 !! s = arb2 !! s ->
  run arb1 es !! s = run arb2 (filter (fun e => surface_of e = s) es) !! s.
Proof.
  revert arb1 arb2. induction es as [|e es IH]; intros arb1 arb2 Heq; [done|].
  rewrite filter_cons. case_decide as He; cbn [run foldl].
  - apply IH. by apply handle_congr.
  - apply IH. rewrite handle_other by congruence. done.
Qed.

(** ** What the history says about a batch *)

Definition resets_on (s : SurfaceKey) (e : Event) : Prop := surface_of e = s /\ resets e = true.

(** A verb of the batch that reached the admission: not stale, nobody touching. *)
Definition drives (s : SurfaceKey) (b : string) (e : Event) : Prop :=
  match e with
  | DoVerb v => surface v = s /\ batch_id (batch v) = b /\
      is_stale (surface v) (live_generation v) = false /\ seat_input_count v = 0
  | _ => False
  end.

Definition preempts (s : SurfaceKey) (e : Event) : Prop :=
  match e with
  | DoVerb v => surface v = s /\ user_touch v
  | DoAction a => batch_surface a = s /\ action_touched a = true
  | WriteLockLost s' => s' = s
  | SurfaceClosed _ => False
  end.

Definition driven (es : list Event) (s : SurfaceKey) (b : string) : Prop :=
  exists past e later, es = past ++ e :: later /\ drives s b e /\ Forall (fun e => ~ resets_on s e) later.

(** The batch drove the surface, then the surface was taken, and nothing reopened it since. *)
Definition taken_from (es : list Event) (s : SurfaceKey) (b : string) : Prop :=
  exists past e between taking later,
    es = past ++ e :: between ++ taking :: later /\ drives s b e /\ preempts s taking /\
    Forall (fun e => ~ resets_on s e) (between ++ taking :: later).

Lemma driven_snoc es e s b :
  driven (es ++ [e]) s b <-> drives s b e \/ (driven es s b /\ ~ resets_on s e).
Proof.
  split.
  - intros (past&d&later&Heq&Hd&Hl). destruct later as [|x later _] using rev_ind.
    + apply app_inj_tail in Heq as [-> ->]. by left.
    + rewrite app_comm_cons, app_assoc in Heq. apply app_inj_tail in Heq as [-> ->].
      apply Forall_app in Hl as [Hl He]. right. split; [by exists past, d, later|].
      by apply Forall_cons in He as [? _].
  - intros [Hd|[(past&d&later&->&Hd&Hl) He]]; [by exists es, e, []|].
    exists past, d, (later ++ [e]). rewrite <- app_assoc. split_and!; [done..|].
    apply Forall_app. split; [done|by constructor].
Qed.

Lemma taken_snoc es e s b :
  taken_from (es ++ [e]) s b <-> ~ resets_on s e /\ (taken_from es s b \/ (preempts s e /\ driven es s b)).
Proof.
  split.
  - intros (past&d&between&t&later&Heq&Hd&Ht&Hf). destruct later as [|x later _] using rev_ind.
    + rewrite app_comm_cons, app_assoc in Heq. apply app_inj_tail in Heq as [-> ->].
      apply Forall_app in Hf as [Hb He]. apply Forall_cons in He as [He _].
      split; [done|]. right. split; [done|]. by exists past, d, between.
    + replace (past ++ d :: between ++ t :: later ++ [x])
        with ((past ++ d :: between ++ t :: later) ++ [x]) in Heq
        by (rewrite <- !app_assoc; cbn [app]; rewrite <- app_assoc; done).
      apply app_inj_tail in Heq as [-> ->].
      replace (between ++ t :: later ++ [x]) with ((between ++ t :: later) ++ [x]) in Hf
        by (rewrite <- app_assoc; done).
      apply Forall_app in Hf as [Hf He]. apply Forall_cons in He as [He _].
      split; [done|]. left. by exists past, d, between, t, later.
  - intros [He [(past&d&between&t&later&->&Hd&Ht&Hf)|[Hp (past&d&later&->&Hd&Hf)]]].
    + exists past, d, between, t, (later ++ [e]). split_and!; [|done|done|].
      * rewrite <- app_assoc. cbn [app]. by rewrite <- app_assoc.
      * rewrite app_comm_cons, app_assoc. apply Forall_app. split; [done|by constructor].
    + exists past, d, later, e, []. split_and!; [by rewrite <- app_assoc|done|done|].
      apply Forall_app. split; [done|by constructor].
Qed.

(** The lanes hold what the history says. *)
Definition lanes_match (arb : AgentInputArbiter) (es : list Event) : Prop :=
  forall s b, (preempted_on arb s b <-> taken_from es s b) /\
    (active_on arb s b -> driven es s b) /\
    (driven es s b -> active_on arb s b \/ preempted_on arb s b).

Lemma preempted_on_insert arb s lane s' b :
  preempted_on (<[s := lane]> arb) s' b <->
  if decide (s' = s) then b ∈ preempted_batches lane else preempted_on arb s' b.
Proof.
  unfold preempted_on. case_decide as H; [subst; rewrite lookup_insert_eq|rewrite lookup_insert_ne by done]; naive_solver.
Qed.

Lemma active_on_insert arb s lane s' b :
  active_on (<[s := lane]> arb) s' b <->
  if decide (s' = s) then b ∈ active_batches lane else active_on arb s' b.
Proof.
  unfold active_on. case_decide as H; [subst; rewrite lookup_insert_eq|rewrite lookup_insert_ne by done]; naive_solver.
Qed.

Lemma lane_preempted arb s b : b ∈ preempted_batches (default empty_lane (arb !! s)) <-> preempted_on arb s b.
Proof. unfold preempted_on. destruct (arb !! s); cbn; [naive_solver|]. set_solver. Qed.

Lemma lane_active arb s b : b ∈ active_batches (default empty_lane (arb !! s)) <-> active_on arb s b.
Proof. unfold active_on. destruct (arb !! s); cbn; [naive_solver|]. set_solver. Qed.

Lemma preempted_em arb s b : preempted_on arb s b \/ ~ preempted_on arb s b.
Proof. rewrite <- lane_preempted. destruct (decide (b ∈ preempted_batches (default empty_lane (arb !! s)))); tauto. Qed.

(** What each operation does to the two questions. *)
Lemma admit_lanes arb s b g : is_stale s g = false ->
  forall s' b', (preempted_on (admit_input arb s b g).2 s' b' <-> preempted_on arb s' b') /\
    (active_on (admit_input arb s b g).2 s' b' <->
     active_on arb s' b' \/ (s' = s /\ b' = batch_id b /\ ~ preempted_on arb s b')).
Proof.
  intros Hst s' b'. unfold admit_input; cbv zeta. rewrite Hst.
  destruct (decide (batch_id b ∈ preempted_batches _)) as [Hp|Hp]; cbn [snd];
    rewrite preempted_on_insert, active_on_insert; rewrite lane_preempted in Hp;
    destruct (decide (s' = s)) as [->|Hne]; cbn [preempted_batches active_batches];
    rewrite ?lane_preempted, ?lane_active; [naive_solver..| |naive_solver].
  split; [done|]. case_decide as Ha; rewrite ?elem_of_app, lane_active in *;
    rewrite ?list_elem_of_singleton; naive_solver.
Qed.

Lemma preempt_lanes arb s s' b :
  (preempted_on (preempt_surface arb s).2 s' b <->
   preempted_on arb s' b \/ (s' = s /\ active_on arb s b)) /\
  (active_on (preempt_surface arb s).2 s' b <-> active_on arb s' b /\ s' <> s).
Proof.
  destruct (arb !! s) as [lane|] eqn:Hs.
  - rewrite (preempt_surface_lane _ _ _ Hs). cbn [snd]. rewrite preempted_on_insert, active_on_insert.
    destruct (decide (s' = s)) as [->|Hne]; cbn [preempted_batches active_batches]; [|naive_solver].
    rewrite elem_of_app, elem_of_dedup_from. unfold preempted_on, active_on. rewrite Hs.
    destruct (decide (b ∈ preempted_batches lane)); set_solver.
  - unfold preempt_surface. rewrite Hs. cbn [snd]. unfold active_on, preempted_on.
    destruct (decide (s' = s)) as [->|Hne]; [rewrite Hs|]; naive_solver.
Qed.

Lemma forget_lanes arb s s' b :
  (preempted_on (forget arb s) s' b <-> preempted_on arb s' b /\ s' <> s) /\
  (active_on (forget arb s) s' b <-> active_on arb s' b /\ s' <> s).
Proof.
  unfold forget, preempted_on, active_on. destruct (decide (s' = s)) as [->|Hne].
  - rewrite lookup_delete_eq. naive_solver.
  - rewrite lookup_delete_ne by done. naive_solver.
Qed.

Lemma handle_lanes_match arb es e : lanes_match arb es -> lanes_match (handle arb e) (es ++ [e]).
Proof.
  intros Hm s b. rewrite taken_snoc, driven_snoc. destruct (Hm s b) as (Ht&Ha&Hd).
  destruct e as [v|a|s'|s']; cbn [handle drives preempts]; unfold resets_on; cbn [surface_of resets].
  - rewrite gate_cases. unfold user_touch. destruct (is_stale _ _) eqn:Hst; cbn [snd negb andb].
    { rewrite andb_false_r. cbn [andb]. naive_solver. }
    rewrite andb_true_r. destruct (N.eqb_spec (seat_input_count v) 0) as [Hc|Hc]; cbn [snd].
    + rewrite andb_true_r. destruct (admit_lanes (reopened arb v) (surface v) (batch v) (live_generation v) Hst s b)
        as [-> ->].
      unfold reopened. destruct (new_batch v).
      * pose proof (forget_lanes arb (surface v) s b) as [-> ->].
        pose proof (forget_lanes arb (surface v) (surface v) b) as [-> _].
        destruct (decide (surface v = s)) as [<-|]; intuition congruence.
      * destruct (decide (surface v = s)) as [<-|]; [|naive_solver].
        destruct (decide (batch_id (batch v) = b)) as [<-|]; [|naive_solver].
        destruct (preempted_em arb (surface v) (batch_id (batch v))); intuition congruence.
    + rewrite andb_false_r. destruct (surface_ever_revealed v); cbn [snd]; [|naive_solver].
      pose proof (preempt_lanes arb (surface v) s b) as [-> ->].
      destruct (decide (surface v = s)) as [<-|]; naive_solver.
  - rewrite before_action_eq. destruct (action_touched a); [|naive_solver].
    pose proof (preempt_lanes arb (batch_surface a) s b) as [-> ->].
    destruct (decide (batch_surface a = s)) as [<-|]; naive_solver.
  - pose proof (preempt_lanes arb s' s b) as [-> ->]. destruct (decide (s' = s)) as [<-|]; naive_solver.
  - pose proof (forget_lanes arb s' s b) as [-> ->]. destruct (decide (s' = s)) as [<-|]; naive_solver.
Qed.

Lemma run_lanes_match es : lanes_match (run ∅ es) es.
Proof.
  induction es as [|e es IH] using rev_ind.
  - intros s b. unfold preempted_on, active_on, taken_from, driven. cbn [run foldl].
    rewrite lookup_empty. split_and!; [split|..].
    1,3: by intros (?&?&?).
    + intros (past&d&between&t&later&Heq&_). by destruct past.
    + intros (past&d&later&Heq&_). by destruct past.
  - unfold run. rewrite foldl_app. by apply handle_lanes_match.
Qed.

(** ** What the gate promises *)

(** C31: The human always wins.  When a verb meets the user's touch on a surface that has been shown,
    it is refused, even one that would have reopened the lane; every batch driving the surface is
    reported cancelled; and whatever happens afterwards, on this surface and on others, no verb of
    a cancelled batch is let through until something reopens the lane. *)
Theorem human_always_wins (arb : AgentInputArbiter) (v w : Verb) (es : list Event) :
  user_touch v -> surface w = surface v -> active_on arb (surface v) (batch_id (batch w)) ->
  Forall (fun e => ~ resets_on (surface v) e) es -> resets (DoVerb w) = false ->
  decision arb v = GatePreempted /\
  batch_id (batch w) ∈ (gate arb v).1.2 /\
  decision (run (handle arb (DoVerb v)) es) w <> GateAllowed.
Proof.
  intros Hv Hw Hact Hes Hr. unfold decision at 1. cbn [handle]. rewrite (user_touch_gate _ _ Hv).
  cbn [fst snd]. split; [done|]. split.
  - destruct Hact as (lane&Hs&Hb). by rewrite (preempt_surface_lane _ _ _ Hs).
  - apply preempted_refused; [|done]. rewrite Hw. apply run_keeps_preempted; [by apply preempt_cancels|].
    eapply Forall_impl; [exact Hes|]. intros e He Hs. unfold resets_on in He.
    destruct (resets e); [tauto|done].
Qed.

Definition page : SurfaceKey := {| session_path := "web://a"; generation := 1 |}.
Definition other_page : SurfaceKey := {| session_path := "web://b"; generation := 1 |}.
Definition agent (id : string) : AgentBatch := {| batch_id := id; client_id := None |}.

Definition plain_verb (s : SurfaceKey) (b : string) : Verb :=
  {| seat_input_count := 0; surface_ever_revealed := true; new_batch := false; surface := s;
     batch := agent b; live_generation := 1 |}.

Definition touched_batch_verb (s : SurfaceKey) (b : string) : Verb :=
  {| seat_input_count := 3; surface_ever_revealed := true; new_batch := true; surface := s;
     batch := agent b; live_generation := 1 |}.

Lemma human_always_wins_witness :
  let arb := run ∅ [DoVerb (plain_verb page "a"); DoVerb (plain_verb page "b")] in
  let v := touched_batch_verb page "b" in
  decision arb v = GatePreempted /\ "a" ∈ (gate arb v).1.2 /\
  decision (run (handle arb (DoVerb v)) [DoVerb (plain_verb page "c"); SurfaceClosed other_page])
    (plain_verb page "a") <> GateAllowed.
Proof.
  apply (human_always_wins _ (touched_batch_verb page "b") (plain_verb page "a")).
  - done.
  - reflexivity.
  - exists {| active_batches := ["a"; "b"]; preempted_batches := [] |}. split; [reflexivity|left].
  - repeat constructor; by intros [? ?].
  - reflexivity.
Defined.

(** C32: The arbiter is the history.  A verb is let through exactly when it is aimed at the living
    incarnation, nobody is touching the surface, and it opens a new batch or its batch has not
    been taken: taken means that a verb of it reached this surface, the surface was then taken by
    the user - met by a verb, or by a running batch between two of its actions - or by a lost write
    lock, and nothing has reopened the surface since. *)
Theorem gate_is_the_history (es : list Event) (v : Verb) :
  decision (run ∅ es) v = GateAllowed <->
  is_stale (surface v) (live_generation v) = false /\ seat_input_count v = 0 /\
  (new_batch v = true \/ ~ taken_from es (surface v) (batch_id (batch v))).
Proof.
  destruct (run_lanes_match es (surface v) (batch_id (batch v))) as (Ht&_). rewrite <- Ht.
  unfold decision. rewrite gate_cases. destruct (is_stale _ _) eqn:Hst; [naive_solver|].
  destruct (N.eqb_spec (seat_input_count v) 0) as [Hc|Hc];
    [|destruct (surface_ever_revealed v); naive_solver].
  cbn [fst]. unfold admit_input; cbv zeta. rewrite Hst.
  destruct (decide (batch_id (batch v) ∈ preempted_batches _)) as [Hp|Hp]; cbn [fst outcome_decision];
    rewrite lane_preempted in Hp; unfold reopened in Hp; destruct (new_batch v).
  - apply forget_lanes in Hp as [_ ?]. done.
  - naive_solver.
  - naive_solver.
  - naive_solver.
Qed.

(** The human wins mid-run too: a running batch that finds a touch on a surface that has been shown,
    before any action but its first, stops there, saying how many of its actions are not run; and every
    batch driving the surface, itself included, is refused until something reopens the lane. *)
Theorem human_wins_between_actions (arb : AgentInputArbiter) (a : BatchAction) (w : Verb) (es : list Event) :
  batch_index a <> 0 -> batch_seat_input a <> 0 -> batch_ever_revealed a = true ->
  surface w = batch_surface a -> active_on arb (batch_surface a) (batch_id (batch w)) ->
  Forall (fun e => ~ resets_on (batch_surface a) e) es -> resets (DoVerb w) = false ->
  action_step a = AbortPreempted (batch_total a - batch_index a) /\
  decision (run (handle arb (DoAction a)) es) w <> GateAllowed.
Proof.
  intros Hi Hc Hrev Hw Hact Hes Hr.
  apply N.eqb_neq in Hi, Hc. split; [unfold action_step, batch_step; by rewrite Hi, Hc, Hrev|].
  apply preempted_refused; [|done]. rewrite Hw. apply run_keeps_preempted.
  - cbn [handle]. rewrite before_action_eq. unfold action_touched. rewrite Hi, Hc, Hrev. by apply preempt_cancels.
  - eapply Forall_impl; [exact Hes|]. intros e He Hs. unfold resets_on in He. destruct (resets e); [tauto|done].
Qed.

Lemma human_wins_between_actions_witness :
  let arb := run ∅ [DoVerb (plain_verb page "a")] in
  let a := {| batch_total := 20; batch_index := 7; batch_seat_input := 1; batch_ever_revealed := true;
              batch_surface := page |} in
  action_step a = AbortPreempted 13 /\
  decision (run (handle arb (DoAction a)) [DoVerb (plain_verb page "c")]) (plain_verb page "a") <> GateAllowed.
Proof.
  apply (human_wins_between_actions _
    {| batch_total := 20; batch_index := 7; batch_seat_input := 1; batch_ever_revealed := true;
       batch_surface := page |} (plain_verb page "a")); try done.
  - exists {| active_batches := ["a"]; preempted_batches := [] |}. split; [reflexivity|left].
  - repeat constructor. by intros [? ?].
Defined.

(** Surfaces do not disturb each other, and the lanes stay well formed.  What a surface's lane
    holds, and so how a verb on it is answered, depends only on the events of that very surface
    and incarnation; no batch is listed twice in a lane, and none is both driving and cancelled. *)
Theorem surfaces_are_independent (es : list Event) :
  arbiter_wf (run ∅ es) /\
  (forall s, run ∅ es !! s = run ∅ (filter (fun e => surface_of e = s) es) !! s) /\
  (forall v, decision (run ∅ es) v = decision (run ∅ (filter (fun e => surface_of e = surface v) es)) v).
Proof.
  split; [apply run_wf, map_Forall_empty|]. split; [intros s; by apply run_congr|].
  intros v. pose proof (run_congr (surface v) es ∅ ∅ eq_refl) as Heq.
  set (a2 := run ∅ (filter _ _)) in *. set (a1 := run ∅ es) in *. unfold decision. rewrite !gate_cases.
  destruct (is_stale _ _); [done|]. destruct (seat_input_count v =? 0).
  - cbn [fst]. unfold admit_input; cbv zeta. destruct (is_stale _ _); [done|].
    assert (reopened a1 v !! surface v = reopened a2 v !! surface v) as Heq'.
    { unfold reopened, forget. destruct (new_batch v); [by rewrite !lookup_delete_eq|done]. }
    rewrite Heq'. by destruct (decide (batch_id (batch v) ∈ preempted_batches _)).
  - by destruct (surface_ever_revealed v).
Qed.
