(* ===== verification/HandoverGate.v ===== *)
(** * The handover paint gate

    src/crates/yggterm-shell/src/handover_gate.rs: painting stops while a daemon handover moves the
    sessions on screen, and starts again when they are here or when the ceiling has passed.

    The clock is an argument of every step, in milliseconds, and need not be monotone; subtraction
    on [u64] saturates, as [N.sub] does. *)
From S2P Require Import Prelude RustStr.
#[local] Open Scope N_scope.

Definition HANDOVER_PAINT_SUSPEND_MAX_MS : N := 90000.

Record HandoverObservation := {
  preserved_owner_present : bool;
  client_sessions_awaiting_adoption : bool;
  daemon_identity : string;
  daemon_identity_changed : bool;
  fingerprint : string
}.

Definition default_observation : HandoverObservation := {|
  preserved_owner_present := false; client_sessions_awaiting_adoption := false;
  daemon_identity := ""; daemon_identity_changed := false; fingerprint := "" |}.

Definition wants_suspend (o : HandoverObservation) : bool :=
  daemon_identity_changed o && preserved_owner_present o && client_sessions_awaiting_adoption o.

Definition set_changed (changed : bool) (o : HandoverObservation) : HandoverObservation := {|
  preserved_owner_present := preserved_owner_present o;
  client_sessions_awaiting_adoption := client_sessions_awaiting_adoption o;
  daemon_identity := daemon_identity o;
  daemon_identity_changed := changed;
  fingerprint := fingerprint o |}.

Definition handover_observation_from_parts (preserved_owner_present : bool) (daemon_identity : string)
    (preserved_keys client_runtime_keys : list string) : HandoverObservation := {|
  preserved_owner_present := preserved_owner_present;
  client_sessions_awaiting_adoption :=
    existsb (fun key => existsb (fun mounted => String.eqb mounted key) client_runtime_keys) preserved_keys;
  daemon_identity := daemon_identity;
  daemon_identity_changed := false;
  fingerprint := daemon_identity |}.

Inductive HandoverPaintPhase := Painting | Suspended (since_ms : N).

Inductive HandoverPaintTransition := ToSuspended | ResumedAdopted | ResumedTimedOut.

#[export] Instance transition_eq_dec : EqDecision HandoverPaintTransition.
Proof. solve_decision. Defined.

Definition handover_paint_phase_next (phase : HandoverPaintPhase) (resolved_fingerprint : option string)
    (observation : HandoverObservation) (now_ms : N) :
    HandoverPaintPhase * option HandoverPaintTransition :=
  match phase with
  | Painting =>
    if negb (wants_suspend observation) then (Painting, None)
    else if decide (resolved_fingerprint = Some (fingerprint observation)) then (Painting, None)
    else (Suspended now_ms, Some ToSuspended)
  | Suspended since_ms =>
    if negb (wants_suspend observation) then (Painting, Some ResumedAdopted)
    else if HANDOVER_PAINT_SUSPEND_MAX_MS <=? now_ms - since_ms then (Painting, Some ResumedTimedOut)
    else (Suspended since_ms, None)
  end.

Record HandoverPaintGate := {
  phase : HandoverPaintPhase;
  resolved_fingerprint : option string;
  last_daemon_identity : option string;
  daemon_identity_changed_latch : bool;
  last_observation : HandoverObservation;
  last_observed_at_ms : N;
  veil_label : option string;
  suspend_count : N;
  last_transition : option HandoverPaintTransition;
  last_transition_at_ms : N
}.

Definition default_gate : HandoverPaintGate := {|
  phase := Painting; resolved_fingerprint := None; last_daemon_identity := None;
  daemon_identity_changed_latch := false; last_observation := default_observation;
  last_observed_at_ms := 0; veil_label := None; suspend_count := 0;
  last_transition := None; last_transition_at_ms := 0 |}.

Definition set_veil_label (g : HandoverPaintGate) (label : option string) : HandoverPaintGate := {|
  phase := phase g; resolved_fingerprint := resolved_fingerprint g;
  last_daemon_identity := last_daemon_identity g;
  daemon_identity_changed_latch := daemon_identity_changed_latch g;
  last_observation := last_observation g; last_observed_at_ms := last_observed_at_ms g;
  veil_label := label; suspend_count := suspend_count g;
  last_transition := last_transition g; last_transition_at_ms := last_transition_at_ms g |}.

Definition paint_suspended (g : HandoverPaintGate) : bool :=
  match phase g with Suspended _ => true | Painting => false end.

Definition suspended_since_ms (g : HandoverPaintGate) : option N :=
  match phase g with Suspended since => Some since | Painting => None end.

Definition settle (g : HandoverPaintGate) (now_ms : N) :
    option HandoverPaintTransition * HandoverPaintGate :=
  let '(next_phase, transition) :=
    handover_paint_phase_next (phase g) (resolved_fingerprint g) (last_observation g) now_ms in
  let resumed := match transition with Some ResumedAdopted | Some ResumedTimedOut => true | _ => false end in
  (transition, {|
    phase := next_phase;
    resolved_fingerprint :=
      if resumed then Some (fingerprint (last_observation g)) else resolved_fingerprint g;
    last_daemon_identity := last_daemon_identity g;
    daemon_identity_changed_latch := if resumed then false else daemon_identity_changed_latch g;
    last_observation := if resumed then set_changed false (last_observation g) else last_observation g;
    last_observed_at_ms := last_observed_at_ms g;
    veil_label := veil_label g;
    suspend_count :=
      match transition with
      | Some ToSuspended => sat_add u64_max (suspend_count g) 1
      | _ => suspend_count g
      end;
    last_transition := match transition with Some t => Some t | None => last_transition g end;
    last_transition_at_ms := match transition with Some _ => now_ms | None => last_transition_at_ms g end |}).

Definition observe (g : HandoverPaintGate) (observation : HandoverObservation) (now_ms : N) :
    option HandoverPaintTransition * HandoverPaintGate :=
  let changed :=
    match last_daemon_identity g with
    | Some last => negb (String.eqb last (daemon_identity observation))
    | None => false
    end in
  let latch := changed || daemon_identity_changed_latch g in
  let observation := set_changed latch observation in
  let g' resolved := {|
    phase := phase g; resolved_fingerprint := resolved;
    last_daemon_identity := Some (daemon_identity observation);
    daemon_identity_changed_latch := latch; last_observation := observation;
    last_observed_at_ms := now_ms; veil_label := veil_label g; suspend_count := suspend_count g;
    last_transition := last_transition g; last_transition_at_ms := last_transition_at_ms g |} in
  match resolved_fingerprint g with
  | None => (None, g' (Some (fingerprint observation)))
  | Some resolved => settle (g' (Some resolved)) now_ms
  end.

Definition tick (g : HandoverPaintGate) (now_ms : N) : option HandoverPaintTransition * HandoverPaintGate :=
  if negb (paint_suspended g) then (None, g) else settle g now_ms.

(** ** Histories: polls of the daemon, wall-clock ticks, a new label *)
Inductive Event :=
| Poll (preserved : bool) (identity : string) (preserved_keys mounted_keys : list string) (now_ms : N)
| Tick (now_ms : N)
| Label (label : option string).

Definition step (g : HandoverPaintGate) (e : Event) : option HandoverPaintTransition * HandoverPaintGate :=
  match e with
  | Poll preserved identity keys mounted now =>
    observe g (handover_observation_from_parts preserved identity keys mounted) now
  | Tick now => tick g now
  | Label label => (None, set_veil_label g label)
  end.

(** The edges of a history, in order, and the gate it leaves. *)
Fixpoint run (g : HandoverPaintGate) (es : list Event) : list HandoverPaintTransition * HandoverPaintGate :=
  match es with
  | [] => ([], g)
  | e :: es =>
    let '(edge, g) := step g e in
    let '(edges, g) := run g es in
    (option_list edge ++ edges, g)
  end.

Definition time_of (e : Event) : option N :=
  match e with Poll _ _ _ _ now => Some now | Tick now => Some now | Label _ => None end.

Definition identity_of (e : Event) : option string :=
  match e with Poll _ identity _ _ _ => Some identity | _ => None end.

(** ** Lemmas *)

(** Suspensions and resumptions alternate, a suspension first. *)
Fixpoint alternating (suspended : bool) (edges : list HandoverPaintTransition) : bool :=
  match edges with
  | [] => true
  | ToSuspended :: edges => negb suspended && alternating true edges
  | _ :: edges => suspended && alternating false edges
  end.

(** Before the baseline nothing is suspended. *)
Definition gate_ok (g : HandoverPaintGate) : Prop :=
  resolved_fingerprint g = None -> paint_suspended g = false.

Lemma settle_edge g now : let '(edge, g') := settle g now in
  match edge with
  | None => paint_suspended g' = paint_suspended g /\ suspended_since_ms g' = suspended_since_ms g
  | Some ToSuspended => paint_suspended g = false /\ suspended_since_ms g' = Some now
  | Some _ => paint_suspended g = true /\ paint_suspended g' = false
  end.
Proof.
  unfold settle, handover_paint_phase_next, paint_suspended, suspended_since_ms.
  destruct (phase g) as [|since]; destruct (wants_suspend _); cbn [negb]; try done.
  - by destruct (decide (resolved_fingerprint g = _)).
  - by destruct (HANDOVER_PAINT_SUSPEND_MAX_MS <=? now - since).
Qed.

Lemma settle_bounded g now :
  match suspended_since_ms (settle g now).2 with
  | Some since => now - since < HANDOVER_PAINT_SUSPEND_MAX_MS
  | None => True
  end.
Proof.
  unfold settle, handover_paint_phase_next, suspended_since_ms, HANDOVER_PAINT_SUSPEND_MAX_MS.
  destruct (phase g) as [|since]; destruct (wants_suspend _); cbn; try done.
  - case_decide; cbn; [done|]. lia.
  - destruct (N.leb_spec 90000 (now - since)); cbn; lia.
Qed.

Lemma observe_settle g o now resolved :
  resolved_fingerprint g = Some resolved -> exists g', observe g o now = settle g' now /\
    phase g' = phase g /\ resolved_fingerprint g' = Some resolved /\
    last_observation g' = set_changed (daemon_identity_changed_latch g') o /\
    last_daemon_identity g' = Some (daemon_identity o) /\
    (daemon_identity_changed_latch g = true -> daemon_identity_changed_latch g' = true).
Proof.
  intros Hr. unfold observe. rewrite Hr. eexists. split; [reflexivity|]. cbn.
  split_and!; [done..|]. intros ->. by rewrite orb_true_r.
Qed.

Lemma observe_first g o now : resolved_fingerprint g = None ->
  (observe g o now).1 = None /\ phase (observe g o now).2 = phase g /\
  resolved_fingerprint (observe g o now).2 = Some (fingerprint o).
Proof. intros Hr. unfold observe. by rewrite Hr. Qed.

Lemma run_app g es es' :
  run g (es ++ es') =
  ((run g es).1 ++ (run (run g es).2 es').1, (run (run g es).2 es').2).
Proof.
  revert g. induction es as [|e es IH]; intros g; cbn [run app fst snd].
  - by destruct (run g es').
  - destruct (step g e) as [edge g1]. specialize (IH g1). rewrite IH.
    destruct (run g1 es) as [edges g2]. cbn [fst snd]. by rewrite app_assoc.
Qed.

Lemma run_snoc g es e :
  run g (es ++ [e]) =
  ((run g es).1 ++ option_list (step (run g es).2 e).1, (step (run g es).2 e).2).
Proof.
  rewrite run_app. cbn [run]. destruct (step (run g es).2 e) as [edge g1]. cbn [fst snd].
  by rewrite app_nil_r.
Qed.

(** One event crosses at most one edge, from the side it stands on. *)
Definition edge_fits (before after : bool) (edge : option HandoverPaintTransition) : Prop :=
  match edge with
  | None => after = before
  | Some ToSuspended => before = false /\ after = true
  | Some _ => before = true /\ after = false
  end.

Lemma settle_fits g now :
  edge_fits (paint_suspended g) (paint_suspended (settle g now).2) (settle g now).1.
Proof.
  pose proof (settle_edge g now) as H. destruct (settle g now) as [[[]|] g']; cbn in *;
    [|tauto..]. destruct H as [-> Hs]. split; [done|].
  unfold suspended_since_ms, paint_suspended in *. by destruct (phase g').
Qed.

Lemma step_fits g e :
  edge_fits (paint_suspended g) (paint_suspended (step g e).2) (step g e).1.
Proof.
  destruct e as [preserved identity keys mounted now|now|label]; cbn [step].
  - destruct (resolved_fingerprint g) as [r|] eqn:Hr.
    + destruct (observe_settle g (handover_observation_from_parts preserved identity keys mounted) now r Hr)
        as (g'&->&Hp&_). pose proof (settle_fits g' now) as H. unfold paint_suspended at 1 in H.
      rewrite Hp in H. exact H.
    + destruct (observe_first g (handover_observation_from_parts preserved identity keys mounted) now Hr)
        as (->&Hp&_). unfold edge_fits, paint_suspended. by rewrite Hp.
  - unfold tick. destruct (paint_suspended g) eqn:Hs; cbn [negb fst snd].
    + rewrite <- Hs. apply settle_fits.
    + by rewrite Hs.
  - done.
Qed.

Lemma settle_resolved g now :
  resolved_fingerprint (settle g now).2 = None -> resolved_fingerprint g = None.
Proof.
  unfold settle. destruct (handover_paint_phase_next _ _ _ _) as [p [[]|]]; cbn; done.
Qed.

Lemma step_ok g e : gate_ok g -> gate_ok (step g e).2.
Proof.
  intros Hok. destruct e as [preserved identity keys mounted now|now|label]; cbn [step]; [| |exact Hok].
  - destruct (resolved_fingerprint g) as [r|] eqn:Hr.
    + destruct (observe_settle g (handover_observation_from_parts preserved identity keys mounted) now r Hr)
        as (g'&->&_&Hr'&_). intros H%settle_resolved. congruence.
    + destruct (observe_first g (handover_observation_from_parts preserved identity keys mounted) now Hr)
        as (_&_&H). intros ?. congruence.
  - unfold tick. destruct (paint_suspended g) eqn:Hs; cbn [negb snd]; [|exact Hok].
    intros H%settle_resolved. specialize (Hok H). congruence.
Qed.

Lemma run_ok g es : gate_ok g -> gate_ok (run g es).2.
Proof.
  intros Hg. induction es as [|e es IH] using rev_ind; [done|]. rewrite run_snoc. by apply step_ok.
Qed.

Lemma step_bounded g e now since :
  gate_ok g -> time_of e = Some now -> suspended_since_ms (step g e).2 = Some since ->
  now - since < HANDOVER_PAINT_SUSPEND_MAX_MS.
Proof.
  intros Hok Ht Hs. destruct e as [preserved identity keys mounted now'|now'|label]; [| |done];
    injection Ht as ->; cbn [step] in Hs.
  - destruct (resolved_fingerprint g) as [r|] eqn:Hr.
    + destruct (observe_settle g (handover_observation_from_parts preserved identity keys mounted) now r Hr)
        as (g'&Heq&_). rewrite Heq in Hs. pose proof (settle_bounded g' now) as H. by rewrite Hs in H.
    + destruct (observe_first g (handover_observation_from_parts preserved identity keys mounted) now Hr)
        as (_&Hp&_). specialize (Hok Hr). unfold suspended_since_ms, paint_suspended in *.
      rewrite Hp in Hs. by destruct (phase g).
  - unfold tick in Hs. destruct (paint_suspended g) eqn:Hsus; cbn [negb snd] in Hs.
    + pose proof (settle_bounded g now) as H. by rewrite Hs in H.
    + unfold suspended_since_ms, paint_suspended in *. by destruct (phase g).
Qed.

Lemma run_alternating g es : alternating (paint_suspended g) (run g es).1 = true.
Proof.
  revert g. induction es as [|e es IH]; intros g; cbn [run]; [done|].
  pose proof (step_fits g e) as Hf. destruct (step g e) as [edge g1]. cbn [fst snd] in Hf.
  specialize (IH g1). destruct (run g1 es) as [edges g2]. cbn [fst] in *.
  destruct edge as [[]|]; cbn [edge_fits option_list app alternating] in *.
  - destruct Hf as [-> Hf]. by rewrite Hf in IH.
  - destruct Hf as [-> Hf]. by rewrite Hf in IH.
  - destruct Hf as [-> Hf]. by rewrite Hf in IH.
  - by rewrite Hf in IH.
Qed.

(** Without a second poll nothing moves. *)
Definition is_poll (e : Event) : bool := match e with Poll _ _ _ _ _ => true | _ => false end.

Lemma run_no_poll g es : paint_suspended g = false -> Forall (fun e => is_poll e = false) es ->
  (run g es).1 = [] /\ paint_suspended (run g es).2 = false /\
  resolved_fingerprint (run g es).2 = resolved_fingerprint g.
Proof.
  intros Hg Hes. revert g Hg. induction Hes as [|e es He _ IH]; intros g Hg; [done|].
  cbn [run]. assert (exists g1, step g e = (None, g1) /\ paint_suspended g1 = false /\
    resolved_fingerprint g1 = resolved_fingerprint g) as (g1&->&Hg1&Hr).
  { destruct e as [| |label]; [done| |by eexists]. cbn [step]. unfold tick. rewrite Hg. by eexists. }
  destruct (IH g1 Hg1) as (Hed&Hs&Hr'). destruct (run g1 es) as [edges g2]. cbn in *. subst edges.
  split_and!; [done..|congruence].
Qed.

(** What a poll says of the sessions on screen. *)
Definition justifies (e : Event) : bool :=
  match e with
  | Poll preserved identity keys mounted _ =>
    preserved && client_sessions_awaiting_adoption (handover_observation_from_parts preserved identity keys mounted)
  | _ => false
  end.

Lemma settle_unjustified g now : wants_suspend (last_observation g) = false ->
  paint_suspended (settle g now).2 = false /\ (paint_suspended g = false -> (settle g now).1 = None).
Proof.
  intros Hw. unfold settle, handover_paint_phase_next, paint_suspended. rewrite Hw.
  by destruct (phase g).
Qed.

Lemma poll_unjustified g e : gate_ok g -> is_poll e = true -> justifies e = false ->
  paint_suspended (step g e).2 = false /\ (paint_suspended g = false -> (step g e).1 = None).
Proof.
  intros Hok Hp Hj. destruct e as [preserved identity keys mounted now| |]; [|done..]. cbn [step].
  destruct (resolved_fingerprint g) as [r|] eqn:Hr.
  - destruct (observe_settle g (handover_observation_from_parts preserved identity keys mounted) now r Hr)
      as (g'&->&Hph&_&Hlast&_).
    destruct (settle_unjustified g' now) as [Hs He].
    { rewrite Hlast. unfold wants_suspend. cbn in *. rewrite <- andb_assoc, Hj. by rewrite andb_false_r. }
    split; [done|]. intros Hg. apply He. unfold paint_suspended in *. by rewrite Hph.
  - destruct (observe_first g (handover_observation_from_parts preserved identity keys mounted) now Hr)
      as (He&Hph&_). split; [|done]. specialize (Hok Hr). unfold paint_suspended in *. by rewrite Hph.
Qed.

(** *** The fingerprint dealt with, and the latch *)

Definition identity_ok (g : HandoverPaintGate) : Prop :=
  forall fp, last_daemon_identity g = Some fp -> fingerprint (last_observation g) = fp.

Lemma settle_identity g now : identity_ok g -> identity_ok (settle g now).2.
Proof.
  intros Hok. unfold settle. by destruct (handover_paint_phase_next _ _ _ _) as [p [[]|]].
Qed.

Lemma step_identity g e : identity_ok g -> identity_ok (step g e).2.
Proof.
  intros Hok. destruct e as [preserved identity keys mounted now|now|label]; cbn [step]; [| |exact Hok].
  - unfold observe. destruct (resolved_fingerprint g); [apply settle_identity|]; by intros fp [= <-].
  - unfold tick. destruct (negb _); [done|]. by apply settle_identity.
Qed.

Lemma run_identity g es : identity_ok g -> identity_ok (run g es).2.
Proof.
  intros Hg. induction es as [|e es IH] using rev_ind; [done|]. rewrite run_snoc. by apply step_identity.
Qed.

Definition polls_only (fp : string) (e : Event) : Prop :=
  match identity_of e with Some identity => identity = fp | None => True end.

(** A gate that has dealt with [fp] stays open for as long as only [fp] is polled. *)
Lemma dealt_with g fp es :
  paint_suspended g = false -> resolved_fingerprint g = Some fp -> Forall (polls_only fp) es ->
  (run g es).1 = [] /\ paint_suspended (run g es).2 = false /\
  resolved_fingerprint (run g es).2 = Some fp.
Proof.
  intros Hg Hr Hes. revert g Hg Hr. induction Hes as [|e es He _ IH]; intros g Hg Hr; [done|].
  cbn [run]. assert (exists g1, step g e = (None, g1) /\ paint_suspended g1 = false /\
    resolved_fingerprint g1 = Some fp) as (g1&->&Hg1&Hr1).
  { destruct e as [preserved identity keys mounted now|now|label]; cbn [step].
    - unfold polls_only in He. cbn in He. subst identity. unfold observe. rewrite Hr.
      unfold settle, handover_paint_phase_next. cbn. unfold paint_suspended in Hg.
      destruct (phase g); [|done]. destruct (wants_suspend _); cbn [negb].
      + rewrite decide_True by done. by eexists.
      + by eexists.
    - unfold tick. rewrite Hg. by eexists.
    - by eexists. }
  destruct (IH g1 Hg1 Hr1) as (Hed&Hs&Hr'). destruct (run g1 es) as [edges g2]. cbn in *. by subst edges.
Qed.

Definition quiet (identity : string) (e : Event) : Prop := polls_only identity e /\ justifies e = false.

(** Once the identity has changed, quiet polls leave the latch set. *)
Definition armed_for (g : HandoverPaintGate) (old new : string) : Prop :=
  paint_suspended g = false /\ resolved_fingerprint g = Some old /\
  last_daemon_identity g = Some new /\ daemon_identity_changed_latch g = true.

Lemma quiet_keeps_armed g old new e : armed_for g old new -> quiet new e ->
  (step g e).1 = None /\ armed_for (step g e).2 old new.
Proof.
  intros (Hs&Hr&Hl&Hlatch) [Hid Hj]. unfold armed_for.
  destruct e as [preserved identity keys mounted now|now|label]; cbn [step].
  - unfold polls_only in Hid. cbn in Hid. subst identity. cbn [justifies] in Hj.
    unfold observe. rewrite Hr, Hl, Hlatch, orb_true_r. unfold settle, handover_paint_phase_next. cbn.
    unfold paint_suspended in *. destruct (phase g); [|done]. unfold wants_suspend. cbn in *.
    by rewrite Hj.
  - unfold tick. by rewrite Hs.
  - done.
Qed.

Lemma run_quiet g old new es : armed_for g old new -> Forall (quiet new) es ->
  (run g es).1 = [] /\ armed_for (run g es).2 old new.
Proof.
  intros Hg Hes. revert g Hg. induction Hes as [|e es He _ IH]; intros g Hg; [done|].
  cbn [run]. destruct (quiet_keeps_armed g old new e Hg He) as [Hed Hg1].
  destruct (step g e) as [edge g1]. cbn [fst snd] in *. subst edge.
  destruct (IH g1 Hg1) as [Hed Hg2]. destruct (run g1 es). cbn in *. by subst.
Qed.

(** The first poll that is another daemon's, while nothing is preserved, arms the gate. *)
Lemma change_arms g old new e :
  paint_suspended g = false -> resolved_fingerprint g = Some old -> last_daemon_identity g = Some old ->
  is_poll e = true -> identity_of e = Some new -> justifies e = false -> old <> new ->
  (step g e).1 = None /\ armed_for (step g e).2 old new.
Proof.
  intros Hs Hr Hl Hp Hid Hj Hne.
  destruct e as [preserved identity keys mounted now| |]; [|done..]. injection Hid as ->.
  cbn [step justifies] in *. unfold armed_for, observe. rewrite Hr, Hl. cbn [daemon_identity handover_observation_from_parts].
  rewrite (proj2 (String.eqb_neq old new) Hne). cbn [negb orb].
  unfold settle, handover_paint_phase_next. cbn. unfold paint_suspended in *.
  destruct (phase g); [|done]. unfold wants_suspend. cbn in *. by rewrite Hj.
Qed.

Lemma armed_suspends g old new e :
  armed_for g old new -> identity_of e = Some new -> justifies e = true -> old <> new ->
  (step g e).1 = Some ToSuspended.
Proof.
  intros (Hs&Hr&Hl&Hlatch) Hid Hj Hne.
  destruct e as [preserved identity keys mounted now| |]; [|done..]. injection Hid as ->.
  cbn [step justifies] in *. unfold observe. rewrite Hr, Hl, Hlatch, orb_true_r.
  unfold settle, handover_paint_phase_next. cbn. unfold paint_suspended in *.
  destruct (phase g); [|done]. unfold wants_suspend. cbn in *. rewrite Hj. cbn [negb].
  by rewrite decide_False by congruence.
Qed.

(** The gate's three fail-safes, over every history.  Suspensions and resumptions alternate; a
    gate that has seen at most one poll has never suspended; a poll that does not justify the veil
    lifts it at once; after any poll or tick a suspension is younger than its ceiling on that
    event's clock; and once a handover is dealt with, adopted or timed out, no number of further
    polls of the same daemon suspends again. *)
Theorem failsafes (es : list Event) (e : Event) :
  let g := (run default_gate es).2 in
  let g' := (step g e).2 in
  alternating false (run default_gate (es ++ [e])).1 = true /\
  (Forall (fun x => is_poll x = false) es -> (step g e).1 = None /\ paint_suspended g' = false) /\
  (is_poll e = true -> justifies e = false -> paint_suspended g' = false) /\
  (forall now since, time_of e = Some now -> suspended_since_ms g' = Some since ->
     now - since < HANDOVER_PAINT_SUSPEND_MAX_MS) /\
  (forall fp later, (step g e).1 = Some ResumedAdopted \/ (step g e).1 = Some ResumedTimedOut ->
     last_daemon_identity g' = Some fp -> Forall (polls_only fp) later -> (run g' later).1 = []).
Proof.
  intros g g'. assert (gate_ok g) as Hok by (by apply run_ok). split_and!.
  - exact (run_alternating default_gate (es ++ [e])).
  - intros Hes. destruct (run_no_poll default_gate es eq_refl Hes) as (_&Hs&Hr).
    unfold g' in *. fold g in Hs, Hr. destruct e as [preserved identity keys mounted now|now|label].
    + destruct (observe_first g (handover_observation_from_parts preserved identity keys mounted) now Hr)
        as (He&Hph&_). split; [exact He|]. unfold paint_suspended in *. cbn [step]. by rewrite Hph.
    + cbn [step]. unfold tick. by rewrite Hs.
    + done.
  - intros Hp Hj. by apply poll_unjustified.
  - intros now since Ht Hs. by apply (step_bounded g e).
  - intros fp later Hedge Hid Hlater.
    assert (identity_ok g) as Hidok by (by apply run_identity).
    pose proof (step_fits g e) as Hf. pose proof (step_identity g e Hidok fp Hid) as Hfp.
    assert (paint_suspended g' = false /\ resolved_fingerprint g' = Some (fingerprint (last_observation g')))
      as [Hs Hr].
    { unfold g'. destruct Hedge as [He|He]; rewrite He in Hf; destruct Hf as [Hsus Hn]; (split; [exact Hn|]);
        clear Hfp Hn; destruct e as [preserved identity keys mounted now|now|label]; cbn [step] in *; try done;
        unfold observe, tick in *; rewrite ?Hsus in *; cbn [negb] in *;
        try (destruct (resolved_fingerprint g); [|done]);
        unfold settle in *; by destruct (handover_paint_phase_next _ _ _ _) as [p [[]|]]. }
    fold g' in Hfp. rewrite Hfp in Hr. by destruct (dealt_with g' fp later Hs Hr Hlater) as (?&_).
Qed.

(** The gate stays armed after a daemon change that moved nothing.  A client that starts on one
    daemon and meets another while no session of its own awaits adoption keeps painting, as it
    should; but however many polls later, with the daemon unchanged all that time, the first
    report of a preserved session on screen suspends painting: a steady state taken for the event
    the identity was to stand for. *)
Theorem steady_state_suspends_later (old new : string) (first change : Event) (quiet_polls : list Event) (later : Event) :
  old <> new ->
  is_poll first = true -> identity_of first = Some old ->
  is_poll change = true -> identity_of change = Some new -> justifies change = false ->
  Forall (quiet new) quiet_polls ->
  identity_of later = Some new -> justifies later = true ->
  (run default_gate (first :: change :: quiet_polls ++ [later])).1 = [ToSuspended].
Proof.
  intros Hne Hf Hfid Hc Hcid Hcj Hq Hlid Hlj.
  change (first :: change :: quiet_polls ++ [later]) with ([first] ++ [change] ++ quiet_polls ++ [later]).
  rewrite run_app. set (g1 := (run default_gate [first]).2).
  assert ((run default_gate [first]).1 = [] /\ paint_suspended g1 = false /\
    resolved_fingerprint g1 = Some old /\ last_daemon_identity g1 = Some old) as (->&Hs1&Hr1&Hl1).
  { unfold g1. destruct first as [preserved identity keys mounted now| |]; [|done..]. by injection Hfid as ->. }
  destruct (change_arms g1 old new change Hs1 Hr1 Hl1 Hc Hcid Hcj Hne) as [Hed Harm].
  cbn [fst app]. change (change :: quiet_polls ++ [later]) with ([change] ++ quiet_polls ++ [later]).
  rewrite run_app.
  assert (run g1 [change] = ([], (step g1 change).2)) as ->.
  { cbn [run]. destruct (step g1 change) as [edge g2]. cbn [fst] in Hed. by subst edge. }
  cbn [fst snd app]. destruct (run_quiet _ old new quiet_polls Harm Hq) as [Hqe Harm'].
  rewrite run_snoc, Hqe. cbn [fst app]. by rewrite (armed_suspends _ old new later Harm' Hlid Hlj Hne).
Qed.

Lemma steady_state_suspends_later_witness :
  (run default_gate
    (Poll false "pid=1:3.0.0" [] ["local://a"] 1000 :: Poll true "pid=2:3.0.1" ["local://b"] ["local://a"] 2000 ::
     [Poll false "pid=2:3.0.1" [] ["local://a"] 3000; Tick 3500;
      Poll true "pid=2:3.0.1" ["local://b"] ["local://a"] 86400000] ++
     [Poll true "pid=2:3.0.1" ["local://b"] ["local://b"] 86500000])).1 = [ToSuspended].
Proof.
  apply (steady_state_suspends_later "pid=1:3.0.0" "pid=2:3.0.1"); try reflexivity; [done|].
  repeat constructor.
Defined.
