(* ===== verification/ResumeGate.v ===== *)
(** * The remote-resume gate

    src/crates/yggterm-shell/src/resume_gate.rs: how long a remote resume may keep input off.  The
    clock is an argument; counters saturate at [u64_max]. *)
From S2P Require Import Prelude RustStr.
#[local] Open Scope N_scope.

Definition REMOTE_RESUME_GATE_MAX_HOLD_MS : N := 0.
Definition NON_PROMPT_WAIT_MAX_HOLD_MS : N := 0.

Definition non_prompt_wait_should_hold (first_seen_ms : option N) (now_ms : N)
    (snapshot_replay_budget_left recovery_budget_left : bool) : bool := false.

Inductive ResumeGatePhase := Open | Held (since_ms : N).

Inductive ResumeGateTransition := ToHeld | ReleasedConnected | ReleasedCeiling.

Definition resume_gate_phase_next (phase : ResumeGatePhase) (held : bool) (now_ms : N) :
    ResumeGatePhase * option ResumeGateTransition :=
  match phase with
  | Open => if negb held then (Open, None) else (Held now_ms, Some ToHeld)
  | Held _ => if negb held then (Open, Some ReleasedConnected) else (Open, Some ReleasedCeiling)
  end.

Record RemoteResumeGateCeiling := {
  phase : ResumeGatePhase;
  baselined : bool;
  held_count : N;
  ceiling_release_count : N;
  last_transition : option ResumeGateTransition;
  last_transition_at_ms : N;
  last_observed_at_ms : N
}.

Definition default_gate : RemoteResumeGateCeiling := {|
  phase := Open; baselined := false; held_count := 0; ceiling_release_count := 0;
  last_transition := None; last_transition_at_ms := 0; last_observed_at_ms := 0 |}.

Definition held_since_ms (g : RemoteResumeGateCeiling) : option N :=
  match phase g with Held since => Some since | Open => None end.

Definition observe (g : RemoteResumeGateCeiling) (held : bool) (now_ms : N) :
    option ResumeGateTransition * RemoteResumeGateCeiling :=
  let '(next_phase, transition) := resume_gate_phase_next (phase g) held now_ms in
  if negb (baselined g) then
    let is_held := match transition with Some ToHeld => true | _ => false end in
    (None, {|
      phase := next_phase; baselined := true;
      held_count := if is_held then sat_add u64_max (held_count g) 1 else held_count g;
      ceiling_release_count := ceiling_release_count g;
      last_transition := if is_held then transition else last_transition g;
      last_transition_at_ms := if is_held then now_ms else last_transition_at_ms g;
      last_observed_at_ms := now_ms |})
  else
    (transition, {|
      phase := next_phase; baselined := true;
      held_count :=
        match transition with Some ToHeld => sat_add u64_max (held_count g) 1 | _ => held_count g end;
      ceiling_release_count :=
        match transition with
        | Some ReleasedCeiling => sat_add u64_max (ceiling_release_count g) 1
        | _ => ceiling_release_count g
        end;
      last_transition := match transition with Some t => Some t | None => last_transition g end;
      last_transition_at_ms := match transition with Some _ => now_ms | None => last_transition_at_ms g end;
      last_observed_at_ms := now_ms |}).

(** A mount's readings of the gate, oldest first. *)
Fixpoint run (g : RemoteResumeGateCeiling) (readings : list (bool * N)) : RemoteResumeGateCeiling :=
  match readings with
  | [] => g
  | (held, now) :: readings => run (observe g held now).2 readings
  end.

Lemma run_baselined g readings : (phase g = Open \/ baselined g = true) ->
  phase (run g readings) = Open \/ baselined (run g readings) = true.
Proof.
  revert g. induction readings as [|[held now] readings IH]; intros g Hg; [done|].
  cbn [run]. apply IH. right. unfold observe.
  destruct (resume_gate_phase_next _ _ _). by destruct (baselined g).
Qed.

(** Whatever the readings were, a hold ends at the very next one, connected or not: the ceiling of
    the continuous hold is one reading, and the clock is not consulted.  The first reading starts
    a hold without an edge and releases nothing. *)
Theorem hold_is_one_reading (readings : list (bool * N)) (held : bool) (now since : N) :
  held_since_ms (run default_gate readings) = Some since ->
  (observe (run default_gate readings) held now).1 =
    Some (if held then ReleasedCeiling else ReleasedConnected) /\
  held_since_ms (observe (run default_gate readings) held now).2 = None.
Proof.
  intros Hs. destruct (run_baselined default_gate readings (or_introl eq_refl)) as [Hp|Hb].
  - unfold held_since_ms in Hs. by rewrite Hp in Hs.
  - unfold held_since_ms, observe in *. destruct (phase _) as [|s]; [done|].
    rewrite Hb. by destruct held.
Qed.

Lemma hold_is_one_reading_witness :
  (observe (run default_gate [(true, 5); (true, 10); (true, 15)]) true 16).1 = Some ReleasedCeiling /\
  held_since_ms (observe (run default_gate [(true, 5); (true, 10); (true, 15)]) true 16).2 = None.
Proof. apply (hold_is_one_reading _ true 16 15). reflexivity. Defined.
