(* ===== verification/RevealCover.v ===== *)
(** * The reveal cover

    src/crates/yggterm-shell/src/reveal_cover.rs, and the places of shell/viewport.rs that write
    through it: the live bytes of a reveal are held until a full frame or the deadline is there.
    The events are the three callers: the reveal that arms, the writer, and the timer. *)
From S2P Require Import Prelude RustStr.
#[local] Open Scope N_scope.

Definition REVEAL_COVER_DEADLINE_MS : N := 1000.

Record RevealCoverGate := {
  armed_gen : N;
  last_gen : N;
  armed_at_ms : N;
  threshold_bytes : N;
  buffer : string
}.

Definition new : RevealCoverGate :=
  {| armed_gen := 0; last_gen := 0; armed_at_ms := 0; threshold_bytes := 0; buffer := "" |}.

Definition is_holding (g : RevealCoverGate) : bool := negb (armed_gen g =? 0).

Definition arm (g : RevealCoverGate) (now_ms cols rows : N) : N * RevealCoverGate :=
  let gen := (last_gen g + 1) mod (u64_max + 1) in
  (gen, {| armed_gen := gen; last_gen := gen; armed_at_ms := now_ms;
           threshold_bytes := cols * rows; buffer := "" |}).

Definition full_frame_ready (g : RevealCoverGate) : bool :=
  is_holding g && (threshold_bytes g <=? N.of_nat (String.length (buffer g))).

Definition deadline_elapsed (g : RevealCoverGate) (now_ms : N) : bool :=
  is_holding g && (REVEAL_COVER_DEADLINE_MS <=? now_ms - armed_at_ms g).

Definition hold (g : RevealCoverGate) (data : string) (now_ms : N) : bool * RevealCoverGate :=
  if negb (is_holding g) then (false, g)
  else
    let g := {| armed_gen := armed_gen g; last_gen := last_gen g; armed_at_ms := armed_at_ms g;
                threshold_bytes := threshold_bytes g; buffer := (buffer g ++ data)%string |} in
    (full_frame_ready g || deadline_elapsed g now_ms, g).

Definition release_if_gen (g : RevealCoverGate) (generation now_ms : N) : bool :=
  is_holding g && (armed_gen g =? generation) && deadline_elapsed g now_ms.

Definition take_flush (g : RevealCoverGate) : string * RevealCoverGate :=
  (buffer g, {| armed_gen := 0; last_gen := last_gen g; armed_at_ms := 0; threshold_bytes := 0; buffer := "" |}).

(** The places of the read loop that meet the gate: a repaint nudge arms it, live bytes are held or
    passed on, and the deadline message of an arming comes back. *)
Inductive Event :=
| Arm (now_ms cols rows : N)
| Write (data : string) (now_ms : N)
| Deadline (generation now_ms : N).

(** The gate and what is passed on to the terminal. *)
Definition step (g : RevealCoverGate) (e : Event) : string * RevealCoverGate :=
  match e with
  | Arm now cols rows => ("", (arm g now cols rows).2)
  | Write data now =>
    if is_holding g then
      let '(released, g) := hold g data now in
      if released then take_flush g else ("", g)
    else (data, g)
  | Deadline generation now => if release_if_gen g generation now then take_flush g else ("", g)
  end%string.

Fixpoint run (g : RevealCoverGate) (es : list Event) : string * RevealCoverGate :=
  match es with
  | [] => (""%string, g)
  | e :: es =>
    let '(out, g) := step g e in
    let '(outs, g) := run g es in
    ((out ++ outs)%string, g)
  end.

(** What the session wrote. *)
Fixpoint written (es : list Event) : string :=
  match es with
  | [] => ""
  | Write data _ :: es => data ++ written es
  | _ :: es => written es
  end%string.

(** No arming meets a hold that is still up. *)
Fixpoint not_superseded (g : RevealCoverGate) (es : list Event) : bool :=
  match es with
  | [] => true
  | e :: es =>
    match e with Arm _ _ _ => negb (is_holding g) | _ => true end && not_superseded (step g e).2 es
  end.

(** A gate that is not holding has nothing buffered. *)
Definition gate_ok (g : RevealCoverGate) : Prop := is_holding g = false -> buffer g = ""%string.

Lemma cover_step_ok g e : gate_ok g -> gate_ok (step g e).2.
Proof.
  intros Hok. destruct e as [now cols rows|data now|gen now]; cbn [step].
  - by intros _.
  - destruct (is_holding g) eqn:Hh; [|done]. unfold hold. rewrite Hh. cbn [negb].
    destruct (_ || _); [by intros _|]. intros H. unfold is_holding in *. cbn in *. congruence.
  - destruct (release_if_gen g gen now); [by intros _|done].
Qed.

(** One event passes on or keeps every byte, in order. *)
Lemma cover_step_conserves g e : gate_ok g ->
  match e with Arm _ _ _ => is_holding g = false | _ => True end ->
  ((step g e).1 ++ buffer (step g e).2 = buffer g ++ written [e])%string.
Proof.
  intros Hok He. destruct e as [now cols rows|data now|gen now]; cbn [step written].
  - by rewrite (Hok He).
  - rewrite string_app_nil_r. destruct (is_holding g) eqn:Hh.
    + unfold hold. rewrite Hh. cbn [negb]. destruct (_ || _); cbn; [by rewrite string_app_nil_r|done].
    + cbn [fst snd]. by rewrite (Hok Hh), string_app_nil_r.
  - destruct (release_if_gen g gen now); cbn [take_flush fst snd buffer]; [done|].
    by rewrite string_app_nil_r.
Qed.

Lemma cover_run_app g es es' :
  run g (es ++ es') = (((run g es).1 ++ (run (run g es).2 es').1)%string, (run (run g es).2 es').2).
Proof.
  revert g. induction es as [|e es IH]; intros g; cbn [run app fst snd].
  - by destruct (run g es').
  - destruct (step g e) as [out g1]. specialize (IH g1). rewrite IH.
    destruct (run g1 es) as [outs g2]. cbn [fst snd]. by rewrite string_app_assoc.
Qed.

Lemma cover_run_ok g es : gate_ok g -> gate_ok (run g es).2.
Proof.
  revert g. induction es as [|e es IH]; intros g Hg; [done|]. cbn [run].
  pose proof (cover_step_ok g e Hg) as H. destruct (step g e) as [out g1]. specialize (IH g1 H).
  by destruct (run g1 es).
Qed.

Lemma written_cons e es : (written (e :: es) = written [e] ++ written es)%string.
Proof. destruct e; cbn; [done|by rewrite string_app_nil_r|done]. Qed.

Lemma cover_run_conserves g es : gate_ok g -> not_superseded g es = true ->
  ((run g es).1 ++ buffer (run g es).2 = buffer g ++ written es)%string.
Proof.
  revert g. induction es as [|e es IH]; intros g Hg Hn; [cbn; by rewrite string_app_nil_r|].
  cbn [run not_superseded] in *. apply andb_prop in Hn as [He Hn].
  assert (match e with Arm _ _ _ => is_holding g = false | _ => True end) as He'.
  { destruct e; [by apply negb_true_iff|done..]. }
  pose proof (cover_step_conserves g e Hg He') as Hc. pose proof (cover_step_ok g e Hg) as Hok.
  rewrite written_cons. destruct (step g e) as [out g1]. cbn [fst snd] in *.
  specialize (IH g1 Hok Hn). destruct (run g1 es) as [outs g2]. cbn [fst snd] in *.
  by rewrite <- string_app_assoc, IH, string_app_assoc, Hc, string_app_assoc.
Qed.

(** The cover loses nothing and keeps the order, unless it is armed again while it holds.  Over
    every history in which no arming meets a standing hold, what was passed on followed by what is
    still held is exactly what the session wrote; and after any write, a standing hold is short of
    a screen of bytes and younger than the deadline. *)
Theorem cover_conserves (es : list Event) :
  not_superseded new es = true ->
  ((run new es).1 ++ buffer (run new es).2 = written es)%string /\
  (forall data now, let g := (step (run new es).2 (Write data now)).2 in
     is_holding g = true ->
     N.of_nat (String.length (buffer g)) < threshold_bytes g /\ now - armed_at_ms g < REVEAL_COVER_DEADLINE_MS).
Proof.
  intros Hn. split; [by apply cover_run_conserves|].
  intros data now g Hg. unfold g in *. clear g. cbn [step] in *. set (g0 := (run new es).2) in *.
  destruct (is_holding g0) eqn:Hh; [|cbn [snd] in Hg; congruence]. unfold hold in *. rewrite Hh in *. cbn [negb] in *.
  destruct (_ || _) eqn:Hr; [done|]. cbn [snd] in *.
  apply orb_false_iff in Hr as [Hf Hd]. unfold full_frame_ready, deadline_elapsed in Hf, Hd.
  rewrite Hg in Hf, Hd. cbn [andb armed_at_ms] in *. split; [by apply N.leb_gt|by apply N.leb_gt].
Qed.

Lemma cover_conserves_witness :
  let es := [Write "a" 1; Arm 2 2 2; Write "bc" 3; Write "de" 4; Arm 9 4 4; Write "f" 10; Deadline 1 1005] in
  ((run new es).1 ++ buffer (run new es).2 = written es)%string /\
  (forall data now, let g := (step (run new es).2 (Write data now)).2 in
     is_holding g = true ->
     N.of_nat (String.length (buffer g)) < threshold_bytes g /\ now - armed_at_ms g < REVEAL_COVER_DEADLINE_MS).
Proof. cbv zeta. apply cover_conserves. reflexivity. Defined.

(** Arming a cover that still holds drops what it holds.  However the history goes on, the
    terminal never receives those bytes: what it is passed is what it had, and then the writes
    after the second arming. *)
Theorem superseding_drops (es later : list Event) (now cols rows : N) :
  not_superseded new es = true ->
  is_holding (run new es).2 = true ->
  not_superseded (arm (run new es).2 now cols rows).2 later = true ->
  let painted := (run new es).1 in
  let all := run new (es ++ Arm now cols rows :: later) in
  (painted ++ buffer (run new es).2 = written es /\
   all.1 ++ buffer all.2 = painted ++ written later)%string.
Proof.
  intros Hn Hh Hl. cbv zeta. split; [by apply cover_run_conserves|].
  rewrite cover_run_app. cbn [fst snd run step]. set (g := (run new es).2) in *.
  pose proof (cover_run_conserves (arm g now cols rows).2 later) as Hc.
  destruct (run (arm g now cols rows).2 later) as [outs g2]. cbn [fst snd] in *.
  rewrite <- string_app_assoc. change ("" ++ outs)%string with outs. by rewrite Hc; [|by intros _|].

Qed.

Lemma superseding_drops_witness :
  let es := [Write "a" 1; Arm 2 80 24; Write "held" 3] in
  let later := [Write "z" 5; Deadline 2 1500] in
  ((run new es).1 ++ buffer (run new es).2 = written es /\
   (run new (es ++ Arm 4 80 24 :: later)).1 ++ buffer (run new (es ++ Arm 4 80 24 :: later)).2
     = (run new es).1 ++ written later)%string.
Proof. cbv zeta. apply superseding_drops; reflexivity. Defined.
