(* ===== verification/ScrollMode.v ===== *)
(** * The scroll mode

    src/crates/yggterm-shell/src/scroll_mode.rs: where the viewport belongs after each event of the
    user, a selection held or not. *)
From S2P Require Import Prelude RustStr.
#[local] Open Scope N_scope.

Inductive ScrollMode := Following | Pinned | Selecting.

#[export] Instance ScrollMode_eq_dec : EqDecision ScrollMode.
Proof. solve_decision. Defined.

Inductive ScrollEvent :=
| UserScrolledUp (lines_from_bottom : N)
| ReachedBottom
| SelectionStarted
| SelectionCleared
| TypedAtPrompt
| SwitchedOrRevealed.

Definition PIN_THRESHOLD_LINES : N := 2.

Definition next_scroll_mode (current prior_before_selecting : ScrollMode) (event : ScrollEvent) :
    ScrollMode * ScrollMode :=
  match event with
  | SelectionStarted =>
    (Selecting, match current with Selecting => prior_before_selecting | _ => current end)
  | SelectionCleared =>
    match current with
    | Selecting => (prior_before_selecting, prior_before_selecting)
    | _ => (current, prior_before_selecting)
    end
  | UserScrolledUp lines =>
    match current with
    | Selecting => (current, prior_before_selecting)
    | _ => (if PIN_THRESHOLD_LINES <=? lines then Pinned else Following, prior_before_selecting)
    end
  | ReachedBottom =>
    match current with
    | Selecting => (current, prior_before_selecting)
    | _ => (Following, prior_before_selecting)
    end
  | TypedAtPrompt => (current, prior_before_selecting)
  | SwitchedOrRevealed => (Following, Following)
  end.

Definition should_follow_now (mode : ScrollMode) : bool :=
  match mode with Following => true | _ => false end.

Definition user_scroll_up_detected (prev_ydisp cur_ydisp prev_base_y cur_base_y : Z) (programmatic : bool) : bool :=
  negb programmatic && (cur_ydisp <? prev_ydisp)%Z && (prev_base_y <=? cur_base_y)%Z.

Definition should_settle_follow (mode : ScrollMode) (viewport_is_below_base : bool) : bool :=
  should_follow_now mode && viewport_is_below_base.

Definition run (state : ScrollMode * ScrollMode) (es : list ScrollEvent) : ScrollMode * ScrollMode :=
  foldl (fun '(mode, prior) e => next_scroll_mode mode prior e) state es.

(** What may happen during a drag without ending it. *)
Definition during_selection (e : ScrollEvent) : bool :=
  match e with SelectionCleared | SwitchedOrRevealed => false | _ => true end.

Lemma selecting_stays prior es : forallb during_selection es = true ->
  run (Selecting, prior) es = (Selecting, prior).
Proof.
  induction es as [|e es IH]; [done|]. cbn [forallb]. intros [He Hes]%andb_prop.
  unfold run in *. cbn [foldl]. by destruct e; try done; cbn [next_scroll_mode]; apply IH.
Qed.

(** A selection never moves the viewport and leaves no trace.  From any mode but a selection,
    starting one, whatever scrolling, output, typing or further selecting happens during it, and
    clearing it brings the mode back; until it is cleared, or another session is shown, the
    follow never runs. *)
Theorem selection_restores (mode prior : ScrollMode) (during : list ScrollEvent) :
  mode <> Selecting -> forallb during_selection during = true ->
  (run (mode, prior) (SelectionStarted :: during)).1 = Selecting /\
  should_follow_now (run (mode, prior) (SelectionStarted :: during)).1 = false /\
  (run (mode, prior) (SelectionStarted :: during ++ [SelectionCleared])).1 = mode.
Proof.
  intros Hm Hd. unfold run. cbn [foldl]. rewrite foldl_app.
  assert (next_scroll_mode mode prior SelectionStarted = (Selecting, mode)) as -> by (by destruct mode).
  pose proof (selecting_stays mode during Hd) as Hs. unfold run in Hs. by rewrite Hs.
Qed.

Lemma selection_restores_witness :
  (run (Pinned, Following) [SelectionStarted; ReachedBottom; TypedAtPrompt]).1 = Selecting /\
  should_follow_now (run (Pinned, Following) [SelectionStarted; ReachedBottom; TypedAtPrompt]).1 = false /\
  (run (Pinned, Following) ([SelectionStarted; ReachedBottom; TypedAtPrompt] ++ [SelectionCleared])).1 = Pinned.
Proof. apply (selection_restores Pinned Following [ReachedBottom; TypedAtPrompt]); done. Defined.
