(* ===== verification/PeerAdmission.v ===== *)
(** * Which persisted and advertised rows become rows here, and where they land

    src/crates/yggterm-server/src/lib.rs (the key a persisted row is restored under, what is
    recoverable, [restore_live_session], the restore of a saved list, the import walk) and
    daemon.rs (the admission of a peer's rows and the pass that adopts them).

    Of [restore_live_session] the model keeps every early return, the key, the birth veto and the
    order of the rows; the view it builds for the row (title, launch command, metadata) is the
    parameter [view], the session ids a machine's scan holds are [scanned], [mint] is the fresh
    uuid of the call and [parse_uuid] the parser of the uuid crate, rendered back. *)
From S2P Require Import Prelude RustStr SessionOutline AgentRegistry AgentLaunch AgentStore.
From S2P Require Import AgentScheme LiveOrder RowOrderLedger Tombstones.
#[local] Open Scope string_scope.

Record PersistedLiveSession : Type := mkLive {
  live_key : string;
  live_id : string;
  live_title : string;
  live_kind : SessionKind;
  keep_alive : bool;
  ssh_target : string;
  ssh_prefix : option string;
  live_cwd : option string;
  remote_launch_action : option string;
  storage_path : option string;
  restore_reason : option string;
  created_by : option string;
  ephemeral : option string;
  agent_launch_options : AgentLaunchOptions;
  terminal_identity_exports : list string;
  title_is_explicit : bool;
  note : option string;
  live_outline_prefix : option string;
  app_launch : option string
}.

Definition UPDATE_RESTART_RESTORE_REASON : string := "update-restart".

(** ** What may be restored at all *)

Definition ssh_host_from_target (target : string) : string :=
  trim (match rsplit_once "@" target with Some (_, host) => host | None => target end).

Definition is_loopback_ssh_target (target : string) : bool :=
  let host := ssh_host_from_target target in
  String.eqb host "localhost" || String.eqb host "127.0.0.1" || String.eqb host "::1".

Definition local_live_session_kind_is_recoverable (kind : SessionKind) : bool :=
  bool_decide (kind = Shell) || is_agent kind.

Definition is_local_codex_storage_session_path (path : string) : bool :=
  store_path_is_under_any CODEX_FAMILY path.

Definition persisted_live_session_is_recoverable (live : PersistedLiveSession) : bool :=
  if session_path_is_remote_agent (live_key live) then negb (is_loopback_ssh_target (ssh_target live))
  else if is_local_codex_storage_session_path (live_key live)
          || from_option is_local_codex_storage_session_path false (storage_path live)
  then is_loopback_ssh_target (ssh_target live) && local_live_session_kind_is_recoverable (live_kind live)
  else if is_loopback_ssh_target (ssh_target live)
  then local_live_session_kind_is_recoverable (live_kind live)
  else bool_decide (live_kind live = SshShell) && negb (is_loopback_ssh_target (ssh_target live)).

Definition persisted_live_session_is_agent_store_recoverable (live : PersistedLiveSession) : bool :=
  agent_store_recoverable_row (live_key live) (live_kind live) (is_loopback_ssh_target (ssh_target live)).

Definition is_legacy_demo_live_session (live : PersistedLiveSession) : bool :=
  bool_decide (live_kind live = SshShell)
  && ((String.eqb (ssh_target live) "prod-app-01"
       && bool_decide (ssh_prefix live = Some "sudo machinectl shell prod"))
      || (String.eqb (ssh_target live) "design-01" && bool_decide (ssh_prefix live = None))
      || (String.eqb (ssh_target live) "ghostty-admin"
          && bool_decide (ssh_prefix live = Some "tmux new-session -A -s yggterm"))).

(** ** The key a row lands under *)

Definition is_ascii_alphanumeric (a : ascii) : bool :=
  is_digit a || in_range 65 90 (byte_of a) || in_range 97 122 (byte_of a).

(** A byte that continues a character: it has no character of its own. *)
Definition is_continuation (a : ascii) : bool := in_range 128 191 (byte_of a).

Definition dash : ascii := "-".

(** The characters mapped; the bytes of one non-ASCII character give one dash. *)
Fixpoint fold_machine_chars (s : string) : list ascii :=
  match s with
  | EmptyString => []
  | String a s =>
    if is_continuation a then fold_machine_chars s
    else (if is_ascii_alphanumeric a then to_ascii_lower a else dash) :: fold_machine_chars s
  end.

Fixpoint drop_dashes (l : list ascii) : list ascii :=
  match l with
  | [] => []
  | a :: l' => if Ascii.eqb a dash then drop_dashes l' else l
  end.

Definition trim_dashes (l : list ascii) : list ascii := rev (drop_dashes (rev (drop_dashes l))).

Definition normalize_machine_key (raw_machine_key : string) : string :=
  string_of_list_ascii (trim_dashes (fold_machine_chars raw_machine_key)).

Definition remote_scanned_session_path (machine_key session_id : string) : string :=
  "remote-session://" +:+ machine_key +:+ "/" +:+ session_id.

(** The remote arm both builders use: the machine, the id, the key and the kind. *)
Definition remote_scanned_key (path : string) : option (string * string * string * SessionKind) :=
  match parse_remote_agent_session_path_with_kind path with
  | None => None
  | Some (machine_key, session_id, kind) =>
    let machine_key := normalize_machine_key machine_key in
    Some (machine_key, session_id,
          default (remote_scanned_session_path machine_key session_id)
            (server_remote_agent_session_path kind machine_key session_id), kind)
  end.

Definition normalized_remote_row_key (path : string) : option string :=
  (fun '(_, _, row_key, _) => row_key) <$> remote_scanned_key path.

Definition live_row_rekeys_onto_local_runtime (key target : string) (kind : SessionKind) : bool :=
  negb (is_Some_b (parse_remote_agent_session_path_with_kind key))
  && is_loopback_ssh_target target && local_live_session_kind_is_recoverable kind.

Definition blank (s : string) : bool := str_is_empty (trim s).

(** [Path::file_name], [Path::extension] and [Path::file_stem]. *)
Definition path_file_name (path : string) : option string :=
  match List.last (List.filter (fun c => negb (str_is_empty c || String.eqb c ".")) (split_on "/" path)) "" with
  | "" => None
  | ".." => None
  | name => Some name
  end.

Definition split_file_at_dot (name : string) : string * option string :=
  match rsplit_once "." name with
  | Some ("", _) | None => (name, None)
  | Some (stem, extension) => (stem, Some extension)
  end.

(** [stem.get(start..)]. *)
Definition get_from (start : nat) (s : string) : option string :=
  match String.get start s with
  | Some a => if is_continuation a then None else Some (substring start (String.length s - start) s)
  | None => if Nat.eqb start (String.length s) then Some "" else None
  end.

Section keys.
Context (parse_uuid : string -> option string).

Definition codex_session_id_from_storage_path (storage : string) : option string :=
  if negb (is_local_codex_storage_session_path storage) then None
  else
    match path_file_name storage with
    | None => None
    | Some name =>
      let '(stem, extension) := split_file_at_dot name in
      if negb (bool_decide (extension = Some "jsonl")) then None
      else if (String.length stem <? 36)%nat then None
      else get_from (String.length stem - 36) stem ≫= parse_uuid
    end.

Definition restored_local_runtime_id (key id : string) (kind : SessionKind) (storage : option string)
    : option string :=
  let has_storage := from_option (fun path => negb (blank path)) false storage in
  let codex := bool_decide (kind ∈ CODEX_FAMILY) && has_storage in
  let storage_id := if codex then storage ≫= codex_session_id_from_storage_path else None in
  let from_key := local_runtime_id_from_key key in
  match storage_id with
  | Some storage_id => Some storage_id
  | None =>
    if codex && negb (blank id) then Some id
    else if negb (blank id)
            && from_option (fun d => negb (id_assigned_at_birth d)) false (agent_cli_descriptor kind)
            && from_option (fun from_key => negb (String.eqb from_key id)) false from_key
    then Some id
    else
      match from_key with
      | Some from_key => if blank from_key then (if blank id then None else Some id) else Some from_key
      | None => if blank id then None else Some id
      end
  end.

(** The storage path of a row, or its key when that is one. *)
Definition storage_of (live : PersistedLiveSession) : option string :=
  match storage_path live with
  | Some path => Some path
  | None => if is_local_codex_storage_session_path (live_key live) then Some (live_key live) else None
  end.

Definition kind_by_storage (live : PersistedLiveSession) : SessionKind :=
  default (live_kind live) (storage_path live ≫= fun path => session_kind_for_row path "").

Definition restored_live_row_key (live : PersistedLiveSession) : option string :=
  match normalized_remote_row_key (live_key live) with
  | Some normalized => Some normalized
  | None =>
    let kind := kind_by_storage live in
    if negb (live_row_rekeys_onto_local_runtime (live_key live) (ssh_target live) kind)
    then Some (live_key live)
    else canonical_local_live_runtime_key (live_key live)
         <$> restored_local_runtime_id (live_key live) (live_id live) kind (storage_of live)
  end.

Definition landing_or_key (live : PersistedLiveSession) : string :=
  default (live_key live) (restored_live_row_key live).

Definition persisted_live_row_identity (live : PersistedLiveSession) : string :=
  normalized_live_row_identity (landing_or_key live).

Definition tombstoned_persisted_live_rows (f : SharedFile) (now : N) (lives : list PersistedLiveSession)
    : list string := live_row_closes_remembered_among f now (map landing_or_key lives).

(** Whether the file remembers the close of a row, asked of one persisted row. *)
Definition drop_tombstoned_live_rows (rows : list PersistedLiveSession) (t : LiveRowTombstones) (now : N)
    : list PersistedLiveSession * list string :=
  if bool_decide (entries t = ∅) then (rows, [])
  else
    let blocked live := blocks t (persisted_live_row_identity live) now in
    (List.filter (fun live => negb (blocked live)) rows, map live_key (List.filter blocked rows)).

(** ** Restoring one row *)

Context (mint : PersistedLiveSession -> string) (scanned : string -> string -> bool)
  (view : PersistedLiveSession -> string -> Session).

Fixpoint insert_session (key : string) (s : Session) (l : list (string * Session))
    : list (string * Session) :=
  match l with
  | [] => [(key, s)]
  | (k, s') :: l' =>
    if String.eqb key k then (key, s) :: l'
    else if String.ltb key k then (key, s) :: l
    else (k, s') :: insert_session key s l'
  end.

Definition with_session (sv : Server) (key : string) (s : Session) : Server :=
  mkServer (insert_session key s (sessions sv)) (live_session_order sv).

(** A passive birth: it does not resurrect a row whose close is remembered. *)
Definition insert_live_session (f : SharedFile) (now : N) (sv : Server) (key : string) (s : Session)
    : Server :=
  if negb (bool_decide (live_row_closes_remembered_among f now [key] = [])) then sv
  else fst (seat_new_live_session (with_session sv key s) key).

(** The kind the restore reads, which never re-derives a shell's. *)
Definition normalized_kind (live : PersistedLiveSession) : SessionKind :=
  match remote_scanned_key (live_key live) with
  | Some (_, _, _, kind) => kind
  | None =>
    match storage_of live ≫= fun path => session_kind_for_row path "" with
    | Some correct_kind =>
      if bool_decide (live_kind live = Shell) || bool_decide (live_kind live = SshShell)
      then live_kind live else correct_kind
    | None => live_kind live
    end
  end.

Definition restored_local_id (live : PersistedLiveSession) : string :=
  default (mint live)
    (restored_local_runtime_id (live_key live) (live_id live) (normalized_kind live) (storage_of live)).

(** The key the row is filed under, and the id its session is given. *)
Definition landing_key (live : PersistedLiveSession) : string :=
  default (canonical_local_live_runtime_key (live_key live) (restored_local_id live))
    (restored_live_row_key live).

Definition session_id_of (live : PersistedLiveSession) : string :=
  if live_row_rekeys_onto_local_runtime (live_key live) (ssh_target live) (normalized_kind live)
  then restored_local_id live else live_id live.

Definition temporary_update_restore (live : PersistedLiveSession) : bool :=
  bool_decide (restore_reason live = Some UPDATE_RESTART_RESTORE_REASON).

Definition has_saved_agent_identity (live : PersistedLiveSession) (agent_kind : SessionKind) : bool :=
  is_agent agent_kind && negb (blank (session_id_of live))
  && from_option (fun path => negb (blank path)) false (storage_of live).

Definition restored_agent_session_id (live : PersistedLiveSession) (agent_kind : SessionKind)
    (session_id : string) : string :=
  if has_saved_agent_identity live agent_kind then
    if bool_decide (agent_kind = Antigravity) && negb (String.eqb session_id (session_id_of live))
    then session_id else session_id_of live
  else session_id.

Definition restore_live_session (f : SharedFile) (now : N) (sv : Server) (live : PersistedLiveSession)
    : Server :=
  if bool_decide (live_kind live = Document) then sv
  else if negb (keep_alive live) && negb (temporary_update_restore live)
          && negb (persisted_live_session_is_recoverable live) then sv
  else
    match remote_scanned_key (live_key live) with
    | Some (machine_key, session_id, row_key, agent_kind) =>
      let saved := has_saved_agent_identity live agent_kind in
      let starts_new := bool_decide (remote_launch_action live = Some "start-codex")
                        && negb (temporary_update_restore live) && negb saved in
      let is_scanned := scanned machine_key session_id
        || (saved && scanned machine_key (restored_agent_session_id live agent_kind session_id)) in
      if negb starts_new && is_scanned
      then append_restored_live_session_order (with_session sv row_key (view live row_key)) row_key
      else if negb (bool_decide (live_kind live = SshShell) || is_agent (live_kind live)) then sv
      else append_restored_live_session_order (insert_live_session f now sv row_key (view live row_key)) row_key
    | None =>
      let key := landing_key live in
      append_restored_live_session_order (insert_live_session f now sv key (view live key)) key
    end.

(** ** Restoring a saved list *)

(** The rows so far, the keys restored and the rows vetoed. *)
Definition restore_step (f : SharedFile) (now : N) (tombstoned : list string)
    (acc : Server * list string * list string) (live : PersistedLiveSession)
    : Server * list string * list string :=
  let '(sv, restored, vetoed) := acc in
  if negb (persisted_live_session_is_recoverable live) || is_legacy_demo_live_session live then acc
  else
    let dedupe_key := landing_or_key live in
    if bool_decide (dedupe_key ∈ tombstoned) then (sv, restored, (vetoed ++ [dedupe_key])%list)
    else if bool_decide (dedupe_key ∈ restored) then acc
    else (restore_live_session f now sv live, dedupe_key :: restored, vetoed).

(** The live rows of [restore_persisted_state], and the closes it renews. *)
Definition restore_live_rows (save_ok : bool) (f : SharedFile) (now : N) (sv : Server)
    (lives : list PersistedLiveSession) : Server * list string * SharedFile :=
  let tombstoned := tombstoned_persisted_live_rows f now lives in
  let '(sv, restored, vetoed) := foldl (restore_step f now tombstoned) (sv, [], []) lives in
  (sv, restored,
   match vetoed with
   | [] => f
   | _ => rearm_live_row_closes_among f now (map (fun key => (key, save_ok)) vetoed)
   end).

(** ** Importing a peer's rows *)

Inductive PeerRowAdmission : Type := OwnedRuntimesOnly | OwnedOrAgentStore.

Definition peer_owns_row_runtime (live : PersistedLiveSession) (peer_owned_identities : list string) : bool :=
  bool_decide (normalized_live_row_identity (live_key live) ∈ peer_owned_identities).

Definition rescued (live : PersistedLiveSession) : PersistedLiveSession :=
  mkLive (live_key live) (live_id live) (live_title live) (live_kind live) (keep_alive live)
    (ssh_target live) (ssh_prefix live) (live_cwd live) (remote_launch_action live) (storage_path live)
    (Some UPDATE_RESTART_RESTORE_REASON) (created_by live) (ephemeral live) (agent_launch_options live)
    (terminal_identity_exports live) (title_is_explicit live) (note live) (live_outline_prefix live)
    (app_launch live).

Definition peer_live_rows_marked_as_rescued (rows : list PersistedLiveSession) (owned : list string)
    : list PersistedLiveSession :=
  map (fun live => if negb (peer_owns_row_runtime live owned) then live else rescued live) rows.

Definition peer_live_row_is_adoptable (live : PersistedLiveSession) (owned : list string)
    (t : LiveRowTombstones) (now : N) (admission : PeerRowAdmission) : bool :=
  if blocks t (persisted_live_row_identity live) now then false
  else if negb (persisted_live_session_is_recoverable live) then false
  else
    let peer_owns_runtime := peer_owns_row_runtime live owned in
    match admission with
    | OwnedRuntimesOnly => peer_owns_runtime
    | OwnedOrAgentStore => peer_owns_runtime || persisted_live_session_is_agent_store_recoverable live
    end.

Record import_state : Type := mkImport {
  im_server : Server;
  order_lookup : gmap string string;
  anchor : option string;
  imported : list string
}.

Definition import_step (f : SharedFile) (now : N) (admits : PersistedLiveSession -> bool)
    (st : import_state) (live : PersistedLiveSession) : import_state :=
  let identity := normalized_live_row_identity (live_key live) in
  let present :=
    match live_session_row_key (im_server st) (live_key live) with
    | Some row_key => Some row_key
    | None => order_lookup st !! identity
    end in
  match present with
  | Some present => mkImport (im_server st) (order_lookup st) (Some present) (imported st)
  | None =>
    if negb (admits live) then st
    else
      let sv := restore_live_session f now (im_server st) live in
      match live_session_row_key sv (live_key live) with
      | None => mkImport sv (order_lookup st) (anchor st) (imported st)
      | Some row_key =>
        mkImport (move_live_session_after sv row_key (anchor st))
          (<[identity := row_key]> (order_lookup st)) (Some row_key) (imported st ++ [row_key])%list
      end
  end.

(** [collect] of the pairs: a later key of the same identity replaces an earlier one. *)
Definition identity_lookup (order : list string) : gmap string string :=
  foldl (fun m key => <[normalized_live_row_identity key := key]> m) ∅ order.

Definition import_peer_live_rows_in_order (f : SharedFile) (now : N) (sv : Server)
    (peer_rows : list PersistedLiveSession) (admits : PersistedLiveSession -> bool) : Server * list string :=
  let st := foldl (import_step f now admits)
              (mkImport sv (identity_lookup (live_session_order sv)) None []) peer_rows in
  (im_server st, imported st).

Record OwnerStatus : Type := mkStatus {
  advertises_live_session_rows : bool;
  owned_terminal_session_keys : list string;
  live_terminal_sessions : list PersistedLiveSession
}.

Definition owned_identities (status : OwnerStatus) : list string :=
  map normalized_live_row_identity (owned_terminal_session_keys status).

(** What the daemon advertises, the rows whose runtime it owns marked as rescued. *)
Definition advertised_rows (status : OwnerStatus) : list PersistedLiveSession :=
  peer_live_rows_marked_as_rescued (live_terminal_sessions status) (owned_identities status).

(** One reachable daemon of the pass, after the refresh. *)
Definition adopt_from (save_ok : bool) (now : N) (acc : SharedFile * Daemon) (status : OwnerStatus)
    : SharedFile * Daemon :=
  let '(f, d) := acc in
  if negb (advertises_live_session_rows status) then acc
  else
    let owned := owned_identities status in
    let advertised := advertised_rows status in
    let f := rearm_live_row_closes_among f now (map (fun live => (live_key live, save_ok)) advertised) in
    let sv := fst (import_peer_live_rows_in_order f now (server d) advertised
                (fun live => peer_live_row_is_adoptable live owned (live_row_tombstones d) now OwnedOrAgentStore)) in
    (f, mkDaemon sv (live_row_tombstones d) (live_row_identities_seen d)).

Definition adopt_missing_live_session_rows (save_ok : bool) (f : SharedFile) (d : Daemon) (now : N)
    (statuses : list OwnerStatus) : SharedFile * Daemon :=
  foldl (adopt_from save_ok now) (f, refresh f d now) statuses.
End keys.

(** * Lemmas *)

(** ** What restoring one row does to the order *)

Section restore_lemmas.
Context (parse_uuid : string -> option string) (mint : PersistedLiveSession -> string)
  (scanned : string -> string -> bool) (view : PersistedLiveSession -> string -> Session).

Abbreviation restore := (restore_live_session parse_uuid mint scanned view).
Abbreviation landing := (landing_key parse_uuid mint).

Definition vetoed_birth (f : SharedFile) (now : N) (key : string) : Prop :=
  live_row_closes_remembered_among f now [key] <> [].

Lemma insert_live_session_spec f now sv key s :
  let sv' := insert_live_session f now sv key s in
  filter (fun x => x <> key) (live_session_order sv') = filter (fun x => x <> key) (live_session_order sv)
  /\ (sessions sv' = sessions sv /\ vetoed_birth f now key
      \/ sessions sv' = insert_session key s (sessions sv)).
Proof.
  unfold insert_live_session, vetoed_birth. cbv zeta. case_bool_decide as Hv; cbn [negb].
  - destruct (seat_new_order (with_session sv key s) key) as (Hs & Hf & _).
    split; [by rewrite Hf|right; by rewrite Hs].
  - split; [done|by left].
Qed.

(** A restored row is taken out of the order and put at its end, under the key it lands under;
    every other row stays. *)
Inductive restored_to (f : SharedFile) (now : N) (sv : Server) (live : PersistedLiveSession) : Server -> Prop :=
| restored_not : restored_to f now sv live sv
| restored_row l :
    l = sessions sv /\ vetoed_birth f now (landing live)
    \/ l = insert_session (landing live) (view live (landing live)) (sessions sv) ->
    restored_to f now sv live
      (mkServer l (retain_other (landing live) (live_session_order sv) ++ [landing live])).

Lemma remote_landing live m i k kind :
  remote_scanned_key (live_key live) = Some (m, i, k, kind) -> landing live = k.
Proof.
  intros H. unfold landing_key, restored_live_row_key, normalized_remote_row_key. by rewrite H.
Qed.

Lemma insert_append f now sv live :
  restored_to f now sv live
    (append_restored_live_session_order
       (insert_live_session f now sv (landing live) (view live (landing live))) (landing live)).
Proof.
  pose proof (insert_live_session_spec f now sv (landing live) (view live (landing live))) as [Hf Hs].
  unfold append_restored_live_session_order. unfold retain_other at 1. rewrite Hf.
  apply restored_row. naive_solver.
Qed.

Lemma restore_spec f now sv live : restored_to f now sv live (restore f now sv live).
Proof.
  unfold restore_live_session. case_bool_decide; [constructor|].
  destruct (_ && _ && _); [constructor|].
  destruct (remote_scanned_key (live_key live)) as [[[[m i] k] kind]|] eqn:Hr; [|apply insert_append].
  pose proof (remote_landing _ _ _ _ _ Hr) as <-.
  cbv zeta. match goal with |- restored_to _ _ _ _ (if ?b then _ else _) => destruct b end.
  - unfold append_restored_live_session_order, with_session. cbn [sessions live_session_order].
    apply restored_row. by right.
  - match goal with |- restored_to _ _ _ _ (if ?b then _ else _) => destruct b end; [constructor|apply insert_append].
Qed.

Lemma restore_order_subseteq f now sv live x :
  x ∈ live_session_order (restore f now sv live) -> x ∈ live_session_order sv \/ x = landing live.
Proof.
  destruct (restore_spec f now sv live) as [|l _]; [by left|]. cbn [live_session_order].
  unfold retain_other. rewrite elem_of_app, list_elem_of_filter, list_elem_of_singleton. naive_solver.
Qed.

Lemma restore_order_NoDup f now sv live :
  NoDup (live_session_order sv) -> NoDup (live_session_order (restore f now sv live)).
Proof.
  intros Hnd. destruct (restore_spec f now sv live) as [|l _]; [done|]. cbn [live_session_order].
  apply NoDup_app. split_and!; [by apply NoDup_filter| |apply NoDup_singleton].
  intros x [? _]%list_elem_of_filter ->%list_elem_of_singleton. done.
Qed.

Lemma move_live_session_after_order sv key a :
  live_session_order (move_live_session_after sv key a) ≡ₚ live_session_order sv
  /\ sessions (move_live_session_after sv key a) = sessions sv.
Proof.
  unfold move_live_session_after. destruct (index_of key (live_session_order sv)) as [from|] eqn:Hi; [|done].
  cbn [live_session_order sessions]. split; [|done]. rewrite vec_insert_perm.
  apply index_of_Some in Hi. by rewrite (vec_remove_perm from key).
Qed.

Lemma move_appended sessions order key a : key ∉ order ->
  live_session_order (move_live_session_after (mkServer sessions (order ++ [key])) key a)
  = vec_insert (match a with
                | Some a => match index_of a order with Some ix => (ix + 1)%nat | None => length order end
                | None => 0%nat
                end) key order.
Proof.
  intros Hk. unfold move_live_session_after. cbn [live_session_order].
  assert (index_of key (order ++ [key]) = Some (length order)) as ->.
  { destruct (index_of key (order ++ [key])) as [i|] eqn:Hi.
    - pose proof (index_of_Some _ _ _ Hi) as Hl. destruct (decide (i < length order)%nat) as [Hlt|Hge].
      + rewrite lookup_app_l in Hl by done. by apply list_elem_of_lookup_2 in Hl.
      + apply lookup_lt_Some in Hl. rewrite length_app in Hl. cbn in Hl. f_equal. lia.
    - apply index_of_None in Hi. exfalso. apply Hi. rewrite elem_of_app, list_elem_of_singleton. by right. }
  assert (vec_remove (length order) (order ++ [key]) = order) as ->.
  { unfold vec_remove. rewrite take_app_length, drop_ge; [by rewrite app_nil_r|].
    rewrite length_app. cbn. lia. }
  done.
Qed.

(** ** Which keys an import and a restore bring in *)

Lemma import_step_order f now admits st live x :
  x ∈ live_session_order (im_server (import_step parse_uuid mint scanned view f now admits st live)) ->
  x ∈ live_session_order (im_server st) \/ admits live = true /\ x = landing live.
Proof.
  unfold import_step. cbv zeta.
  destruct (match live_session_row_key (im_server st) (live_key live) with Some _ => _ | None => _ end); [by left|].
  destruct (admits live); cbn [negb]; [|by left].
  assert (forall y, y ∈ live_session_order (restore f now (im_server st) live) ->
            y ∈ live_session_order (im_server st) \/ true = true /\ y = landing live) as Hr.
  { intros y Hy. apply restore_order_subseteq in Hy. naive_solver. }
  destruct (live_session_row_key _ (live_key live)) as [row_key|]; cbn [im_server]; [|apply Hr].
  rewrite (proj1 (move_live_session_after_order _ row_key (anchor st))). apply Hr.
Qed.

Lemma import_order f now admits rows st x :
  x ∈ live_session_order (im_server (foldl (import_step parse_uuid mint scanned view f now admits) st rows)) ->
  x ∈ live_session_order (im_server st)
  \/ exists live, live ∈ rows /\ admits live = true /\ x = landing live.
Proof.
  revert st. induction rows as [|live rows IH]; intros st; cbn [foldl]; [by left|].
  intros [Hx|(l & Hl & Ha & ->)]%IH; [apply import_step_order in Hx as [?|[? ->]]; [by left|]|];
    right; eexists; (split; [|by split]); [left|by right].
Qed.

Lemma import_step_NoDup f now admits st live :
  NoDup (live_session_order (im_server st)) ->
  NoDup (live_session_order (im_server (import_step parse_uuid mint scanned view f now admits st live))).
Proof.
  intros Hnd. unfold import_step. cbv zeta.
  destruct (match live_session_row_key (im_server st) (live_key live) with Some _ => _ | None => _ end); [done|].
  destruct (negb _); [done|].
  pose proof (restore_order_NoDup f now (im_server st) live Hnd).
  destruct (live_session_row_key _ (live_key live)) as [row_key|]; cbn [im_server]; [|done].
  by rewrite (proj1 (move_live_session_after_order _ row_key (anchor st))).
Qed.

(** A row that asks for its own landing key is judged under the key it lands under, unless that
    key is minted in the call. *)
Lemma landing_identity live :
  restored_live_row_key parse_uuid live <> None ->
  normalized_live_row_identity (landing live) = persisted_live_row_identity parse_uuid live.
Proof.
  unfold persisted_live_row_identity, landing_or_key, landing_key.
  by destruct (restored_live_row_key parse_uuid live).
Qed.

Definition not_minted (id : string) (live : PersistedLiveSession) : Prop :=
  restored_live_row_key parse_uuid live = None -> normalized_live_row_identity (landing live) <> id.

Lemma lands_blocked id t now live :
  not_minted id live -> blocks t id now = true ->
  blocks t (persisted_live_row_identity parse_uuid live) now = false ->
  normalized_live_row_identity (landing live) <> id.
Proof.
  intros Hm Hb Hnb. destruct (restored_live_row_key parse_uuid live) as [k|] eqn:Hk; [|by apply Hm].
  rewrite landing_identity by congruence. intros <-. congruence.
Qed.

Lemma rescued_landing live : landing_or_key parse_uuid (rescued live) = landing_or_key parse_uuid live
  /\ restored_live_row_key parse_uuid (rescued live) = restored_live_row_key parse_uuid live.
Proof. by destruct live. Qed.

Lemma adoptable_not_blocked live owned t now admission :
  peer_live_row_is_adoptable parse_uuid live owned t now admission = true ->
  blocks t (persisted_live_row_identity parse_uuid live) now = false
  /\ persisted_live_session_is_recoverable live = true.
Proof.
  unfold peer_live_row_is_adoptable. destruct (blocks _ _ _); [done|].
  by destruct (persisted_live_session_is_recoverable live).
Qed.

Lemma restore_step_order f now tombstoned acc live x :
  x ∈ live_session_order (restore_step parse_uuid mint scanned view f now tombstoned acc live).1.1 ->
  x ∈ live_session_order acc.1.1 \/ (landing_or_key parse_uuid live ∉ tombstoned) /\ x = landing live.
Proof.
  destruct acc as [[sv restored] vetoed]. unfold restore_step. cbn [fst snd].
  destruct (_ || _); [by left|]. cbv zeta.
  case_bool_decide; [by left|]. case_bool_decide; [by left|]. cbn [fst].
  intros [?| ->]%restore_order_subseteq; [by left|by right].
Qed.

Lemma restore_steps_order f now tombstoned lives acc x :
  x ∈ live_session_order (foldl (restore_step parse_uuid mint scanned view f now tombstoned) acc lives).1.1 ->
  x ∈ live_session_order acc.1.1
  \/ exists live, live ∈ lives /\ (landing_or_key parse_uuid live ∉ tombstoned) /\ x = landing live.
Proof.
  revert acc. induction lives as [|live lives IH]; intros acc; cbn [foldl]; [by left|].
  intros [Hx|(l & Hl & Ha & ->)]%IH; [apply restore_step_order in Hx as [?|[? ->]]; [by left|]|];
    right; eexists; (split; [|by split]); [left|by right].
Qed.

Lemma not_tombstoned f now lives live :
  live ∈ lives -> landing_or_key parse_uuid live ∉ tombstoned_persisted_live_rows parse_uuid f now lives ->
  blocks (load f now) (persisted_live_row_identity parse_uuid live) now = false.
Proof.
  intros Hin Hn. apply not_true_is_false. intros Hb. apply Hn.
  unfold tombstoned_persisted_live_rows, live_row_closes_remembered_among. cbv zeta.
  apply list_elem_of_In, filter_In. split; [|exact Hb].
  apply in_map, list_elem_of_In, Hin.
Qed.
End restore_lemmas.

(** ** The key is settled by one restore *)

Definition machine_char (a : ascii) : bool :=
  is_digit a || in_range 97 122 (byte_of a) || Ascii.eqb a dash.

Lemma fold_char a : is_continuation a = false ->
  machine_char (if is_ascii_alphanumeric a then to_ascii_lower a else dash) = true.
Proof. by destruct a as [[] [] [] [] [] [] [] []]; vm_compute. Qed.

Lemma machine_char_spec a : machine_char a = true ->
  is_continuation a = false /\ (if is_ascii_alphanumeric a then to_ascii_lower a else dash) = a
  /\ Ascii.eqb a "/" = false.
Proof. by destruct a as [[] [] [] [] [] [] [] []]; vm_compute. Qed.

Lemma fold_machine_chars_ok s : Forall (fun a => machine_char a = true) (fold_machine_chars s).
Proof.
  induction s as [|a s IH]; cbn; [constructor|]. destruct (is_continuation a) eqn:Ha; [done|].
  constructor; [by apply fold_char|done].
Qed.

Lemma fold_machine_chars_id l : Forall (fun a => machine_char a = true) l ->
  fold_machine_chars (string_of_list_ascii l) = l.
Proof.
  induction 1 as [|a l (Hc&Ha&_)%machine_char_spec _ IH]; [done|]. cbn. rewrite Hc, IH. by f_equal.
Qed.

Definition no_lead (l : list ascii) : Prop :=
  match l with [] => True | a :: _ => Ascii.eqb a dash = false end.

Lemma drop_dashes_spec l : no_lead (drop_dashes l) /\ exists p, l = (p ++ drop_dashes l)%list.
Proof.
  induction l as [|a l [IH [p IHp]]]; [by split; [|exists []]|]. cbn. destruct (Ascii.eqb a dash) eqn:Ha.
  - split; [done|]. exists (a :: p). cbn. by rewrite <- IHp.
  - split; [done|]. by exists [].
Qed.

Lemma drop_dashes_id l : no_lead l -> drop_dashes l = l.
Proof. destruct l as [|a l]; cbn; [done|]. by intros ->. Qed.

Lemma trim_dashes_spec l : exists p q, l = (p ++ trim_dashes l ++ q)%list /\ trim_dashes (trim_dashes l) = trim_dashes l.
Proof.
  unfold trim_dashes at 1 3 4. set (y := drop_dashes l). destruct (drop_dashes_spec l) as [Hy [p Hp]]. fold y in Hy, Hp.
  destruct (drop_dashes_spec (rev y)) as [Hz [q Hq]]. set (z := drop_dashes (rev y)) in *.
  assert (y = rev z ++ rev q)%list as Hyz by (rewrite <- (rev_involutive y), Hq; apply rev_app_distr).
  exists p, (rev q). split; [by rewrite <- Hyz|].
  assert (no_lead (rev z)) as Hl.
  { revert Hyz Hy. destruct (rev z) as [|a w]; [done|]. by intros ->. }
  unfold trim_dashes. rewrite (drop_dashes_id (rev z)) by done. rewrite rev_involutive.
  by rewrite (drop_dashes_id z).
Qed.

Lemma normalize_machine_key_spec m :
  free_of "/" (normalize_machine_key m) = true
  /\ normalize_machine_key (normalize_machine_key m) = normalize_machine_key m.
Proof.
  unfold normalize_machine_key. destruct (trim_dashes_spec (fold_machine_chars m)) as (p & q & Hs & Hi).
  pose proof (fold_machine_chars_ok m) as Hf. rewrite Hs in Hf.
  apply Forall_app in Hf as [_ [Hf _]%Forall_app]. revert Hf Hi. generalize (trim_dashes (fold_machine_chars m)).
  intros l Hf Hi. split.
  - clear Hi. unfold free_of. induction Hf as [|a l (_&_&Ha)%machine_char_spec _ IH]; [done|].
    cbn [string_of_list_ascii str_forallb]. by rewrite Ha, IH.
  - rewrite fold_machine_chars_id by done. by rewrite Hi.
Qed.

(** The prefix a remote row of a kind is composed with. *)
Definition row_prefix (k : SessionKind) : string :=
  default "remote-session://" (agent_cli_descriptor k ≫= remote_row_scheme).

Lemma composed_row k m i :
  default (remote_scanned_session_path m i) (server_remote_agent_session_path k m i)
  = row_prefix k +:+ m +:+ "/" +:+ i.
Proof.
  unfold server_remote_agent_session_path, row_prefix. destruct (agent_cli_descriptor k) as [d|]; [|done].
  cbn. by destruct (remote_row_scheme d).
Qed.

Lemma row_prefix_settled s k : s ∈ remote_agent_row_schemes -> scheme_kind s = Some k ->
  exists s' k', s' ∈ remote_agent_row_schemes /\ prefix s' = row_prefix k /\ scheme_kind s' = Some k'
    /\ row_prefix k' = row_prefix k.
Proof.
  assert (forallb (fun s => match scheme_kind s with
    | Some k => existsb (fun s' => match scheme_kind s' with
        | Some k' => String.eqb (prefix s') (row_prefix k) && String.eqb (row_prefix k') (row_prefix k)
        | None => false end) remote_agent_row_schemes
    | None => true end) remote_agent_row_schemes = true) as Hall by (vm_compute; reflexivity).
  rewrite forallb_forall in Hall. intros Hs Hk. apply list_elem_of_In, Hall in Hs. rewrite Hk in Hs.
  apply existsb_exists in Hs as (s' & Hs' & Hb). destruct (scheme_kind s') as [k'|] eqn:Hk'; [|done].
  apply andb_prop in Hb as [?%String.eqb_eq ?%String.eqb_eq]. exists s', k'.
  split_and!; [by apply list_elem_of_In|done..].
Qed.

Lemma find_remote_row_kind schemes path m i k :
  find_remote_row schemes path = Some (m, i, k) -> exists s, s ∈ schemes /\ scheme_kind s = Some k.
Proof.
  induction schemes as [|s schemes IH]; cbn; [done|].
  destruct (scheme_kind s) as [k'|] eqn:Hk; [destruct (strip_prefix _ path) as [r|]; [destruct (split_once "/" r) as [[? ?]|]|]|];
    [intros [= _ _ <-]; exists s; split; [left|done]|intros (x & ? & ?)%IH; exists x; (split; [by right|done])..].
Qed.

Lemma remote_row_key_settled path m i row_key k :
  remote_scanned_key path = Some (m, i, row_key, k) ->
  exists k', remote_scanned_key row_key = Some (m, i, row_key, k').
Proof.
  unfold remote_scanned_key at 1. destruct (parse_remote_agent_session_path_with_kind path) as [[[m0 i0] k0]|] eqn:Hp; [|done].
  cbv zeta. rewrite composed_row. intros [= <- <- <- <-].
  apply find_remote_row_kind in Hp as (s & Hs & Hk).
  destruct (row_prefix_settled s k0 Hs Hk) as (s' & k' & Hs' & Hpre & Hk' & Hsame). exists k'.
  destruct (normalize_machine_key_spec m0) as [Hfree Hid].
  unfold remote_scanned_key. rewrite <- Hpre. change (String "/" i0) with ("/" +:+ i0).
  rewrite (parse_with_kind_prefix s' k' _ _ Hs' Hk' Hfree). cbv zeta.
  by rewrite Hid, composed_row, Hsame, Hpre.
Qed.

(** ** The ids a key carries *)

Lemma local_scheme : scheme "local://" RowAndRuntimeKey Local None true false
     "local://00000000-0000-4000-8000-00000000qw01" ∈ local_id_schemes.
Proof. decide_elem. Qed.

Lemma local_key_id id : blank id = false ->
  local_runtime_id_from_key (local_live_runtime_key id) = Some id.
Proof.
  intros H. exact (local_id_prefix _ id local_scheme H).
Qed.

Lemma local_runtime_id_not_blank key id : local_runtime_id_from_key key = Some id -> blank id = false.
Proof.
  unfold local_runtime_id_from_key, blank. destruct (find_scheme _ _) as [[s r]|]; [|done].
  destruct (str_is_empty (trim r)) eqn:Hb; [done|]. by intros [= <-].
Qed.

(** The canonical key of a row that has one is that key. *)
Lemma canonical_local id other : canonical_local_live_runtime_key (local_live_runtime_key id) other = local_live_runtime_key id.
Proof. reflexivity. Qed.

Lemma canonical_settled key id other :
  canonical_local_live_runtime_key (canonical_local_live_runtime_key key id) other
  = canonical_local_live_runtime_key key id.
Proof.
  unfold canonical_local_live_runtime_key at 2 3. destruct (existsb _ _) eqn:He.
  - unfold canonical_local_live_runtime_key. by rewrite He.
  - destruct (local_runtime_id_from_key key); apply canonical_local.
Qed.

Lemma local_key_not_remote id : remote_scanned_key (local_live_runtime_key id) = None.
Proof. reflexivity. Qed.

Lemma remote_scanned_key_None path :
  remote_scanned_key path = None <-> parse_remote_agent_session_path_with_kind path = None.
Proof. unfold remote_scanned_key. by destruct (parse_remote_agent_session_path_with_kind path) as [[[? ?] ?]|]. Qed.

Lemma canonical_not_remote key id :
  remote_scanned_key key = None -> remote_scanned_key (canonical_local_live_runtime_key key id) = None.
Proof.
  unfold canonical_local_live_runtime_key. intros Hk. destruct (existsb _ _); [done|].
  destruct (local_runtime_id_from_key key); apply local_key_not_remote.
Qed.

Lemma session_kind_for_row_agent path k : session_kind_for_row path "" = Some k -> is_agent k = true.
Proof.
  assert (forallb (fun s => from_option is_agent true (scheme_kind s)) (List.filter agent SESSION_PATH_SCHEMES)
          && forallb (fun d => is_agent (kind d)) AGENT_CLIS = true) as Hall by (vm_compute; reflexivity).
  apply andb_prop in Hall as [H1 H2]. rewrite forallb_forall in H1, H2.
  unfold session_kind_for_row, session_kind_for_path.
  destruct (find_scheme _ _) as [[s r]|] eqn:Hs.
  - apply find_scheme_Some in Hs as [Hs _]. apply list_elem_of_In, H1 in Hs.
    destruct (scheme_kind s) as [k'|]; [by intros [= <-]|].
    unfold agent_cli_for_store_path. destruct (List.find _ _) as [d|] eqn:Hd; [|done].
    apply find_some in Hd as [Hd _]. intros [= <-]. by apply H2.
  - unfold agent_cli_for_store_path. destruct (List.find _ _) as [d|] eqn:Hd; [|done].
    apply find_some in Hd as [Hd _]. intros [= <-]. by apply H2.
Qed.

(** What the code relies on of the uuids: a parsed or minted one is not blank. *)
Class UuidLaws (parse_uuid : string -> option string) (mint : PersistedLiveSession -> string) : Prop := {
  parsed_not_blank s u : parse_uuid s = Some u -> blank u = false;
  minted_not_blank live : blank (mint live) = false
}.

Section settled.
Context (parse_uuid : string -> option string) (mint : PersistedLiveSession -> string)
  `{!UuidLaws parse_uuid mint}.

(** The row as it is persisted again after its restore. *)
Definition landed (live : PersistedLiveSession) : PersistedLiveSession :=
  mkLive (landing_key parse_uuid mint live) (session_id_of parse_uuid mint live) (live_title live)
    (normalized_kind live) (keep_alive live) (ssh_target live) (ssh_prefix live) (live_cwd live)
    (remote_launch_action live) (storage_of live) (restore_reason live) (created_by live) (ephemeral live)
    (agent_launch_options live) (terminal_identity_exports live) (title_is_explicit live) (note live)
    (live_outline_prefix live) (app_launch live).

Lemma storage_id_not_blank path u :
  codex_session_id_from_storage_path parse_uuid path = Some u -> blank u = false.
Proof.
  unfold codex_session_id_from_storage_path. destruct (negb _); [done|].
  destruct (path_file_name path) as [name|]; [|done]. destruct (split_file_at_dot name) as [stem extension].
  destruct (negb _); [done|]. destruct (_ <? _)%nat; [done|].
  destruct (get_from _ _) as [v|]; [|done]. cbn. apply parsed_not_blank.
Qed.

Lemma restored_id_total key id kind storage : blank id = false ->
  exists r, restored_local_runtime_id parse_uuid key id kind storage = Some r /\ blank r = false.
Proof.
  intros Hid. unfold restored_local_runtime_id. cbv zeta. rewrite Hid. cbn [negb].
  rewrite andb_true_r, andb_true_l.
  match goal with |- context [match ?o with Some storage_id => Some storage_id | None => _ end] =>
    destruct o as [u|] eqn:Hu end.
  { exists u. split; [done|]. destruct (_ && _) in Hu; [|done]. destruct storage as [p|]; [|done]. by eapply storage_id_not_blank. }
  repeat match goal with |- context [if ?b then Some id else _] => destruct b; [by exists id|] end.
  destruct (local_runtime_id_from_key key) as [i|] eqn:Hi; [|by exists id].
  rewrite (local_runtime_id_not_blank _ _ Hi). exists i. split; [done|]. by eapply local_runtime_id_not_blank.
Qed.

Lemma restored_id_not_blank key id kind storage r :
  restored_local_runtime_id parse_uuid key id kind storage = Some r -> blank r = false.
Proof.
  destruct (blank id) eqn:Hid.
  - unfold restored_local_runtime_id. cbv zeta. rewrite Hid. cbn [negb]. rewrite andb_false_r, andb_false_l.
    match goal with |- context [match ?o with Some storage_id => Some storage_id | None => _ end] =>
      destruct o as [u|] eqn:Hu end.
    + intros [= <-]. destruct (_ && _) in Hu; [|done]. destruct storage as [p|]; [|done]. by eapply storage_id_not_blank.
    + destruct (local_runtime_id_from_key key) as [i|] eqn:Hi; [|done].
      rewrite (local_runtime_id_not_blank _ _ Hi). intros [= <-]. by eapply local_runtime_id_not_blank.
  - intros H. destruct (restored_id_total key id kind storage Hid) as (r' & H' & Hb). congruence.
Qed.

Lemma kind_by_storage_recoverable live : local_live_session_kind_is_recoverable (live_kind live) = true ->
  local_live_session_kind_is_recoverable (kind_by_storage live) = true.
Proof.
  intros H. unfold kind_by_storage. destruct (storage_path live) as [p|]; [|done]. cbn.
  destruct (session_kind_for_row p "") as [k|] eqn:Hk; [|done]. cbn.
  unfold local_live_session_kind_is_recoverable. rewrite (session_kind_for_row_agent _ _ Hk). apply orb_true_r.
Qed.

Lemma normalized_kind_recoverable live : remote_scanned_key (live_key live) = None ->
  local_live_session_kind_is_recoverable (live_kind live) = true ->
  local_live_session_kind_is_recoverable (normalized_kind live) = true.
Proof.
  intros Hr H. unfold normalized_kind. rewrite Hr.
  destruct (storage_of live ≫= _) as [k|] eqn:Hk; [|done]. destruct (_ || _); [done|].
  destruct (storage_of live) as [p|]; [|done]. unfold local_live_session_kind_is_recoverable.
  rewrite (session_kind_for_row_agent _ _ Hk). apply orb_true_r.
Qed.

Lemma recoverable_local live : remote_scanned_key (live_key live) = None ->
  persisted_live_session_is_recoverable live = true -> is_loopback_ssh_target (ssh_target live) = true ->
  local_live_session_kind_is_recoverable (live_kind live) = true.
Proof.
  intros Hr. apply remote_scanned_key_None in Hr. unfold persisted_live_session_is_recoverable, session_path_is_remote_agent.
  rewrite Hr. cbn [is_Some_b]. intros H Hl. rewrite Hl in H. by destruct (_ || _) in H.
Qed.

Lemma rekeys_local key target kind : remote_scanned_key key = None ->
  live_row_rekeys_onto_local_runtime key target kind
  = is_loopback_ssh_target target && local_live_session_kind_is_recoverable kind.
Proof. intros Hr%remote_scanned_key_None. unfold live_row_rekeys_onto_local_runtime. by rewrite Hr. Qed.

Lemma landing_of_local live : remote_scanned_key (live_key live) = None ->
  persisted_live_session_is_recoverable live = true -> is_loopback_ssh_target (ssh_target live) = true ->
  exists id, landing_key parse_uuid mint live = canonical_local_live_runtime_key (live_key live) id.
Proof.
  intros Hr Hrec Hl. pose proof (recoverable_local _ Hr Hrec Hl) as Hk.
  unfold landing_key, restored_live_row_key, normalized_remote_row_key. rewrite Hr. cbn [fmap option_fmap option_map].
  rewrite rekeys_local, Hl, kind_by_storage_recoverable by done. cbn [andb negb].
  destruct (restored_local_runtime_id _ _ _ _ _); by eexists.
Qed.

Lemma restored_again live : persisted_live_session_is_recoverable live = true ->
  restored_live_row_key parse_uuid (landed live) = Some (landing_key parse_uuid mint live).
Proof.
  intros Hrec. unfold restored_live_row_key, normalized_remote_row_key. cbn [landed live_key].
  destruct (remote_scanned_key (live_key live)) as [[[[m i] row_key] k]|] eqn:Hr.
  { rewrite (remote_landing _ _ _ _ _ _ _ Hr). destruct (remote_row_key_settled _ _ _ _ _ Hr) as [k' ->]. done. }
  destruct (is_loopback_ssh_target (ssh_target live)) eqn:Hl.
  - destruct (landing_of_local live Hr Hrec Hl) as [id0 Hland].
    pose proof (recoverable_local _ Hr Hrec Hl) as Hk.
    pose proof (normalized_kind_recoverable _ Hr Hk) as Hn.
    assert (remote_scanned_key (landing_key parse_uuid mint live) = None) as Hr'
      by (rewrite Hland; by apply canonical_not_remote).
    rewrite Hr'. cbn [fmap option_fmap option_map].
    rewrite rekeys_local by exact Hr'. cbn [landed ssh_target]. rewrite Hl.
    rewrite (kind_by_storage_recoverable (landed live) Hn). cbn [andb negb].
    destruct (restored_id_total (landing_key parse_uuid mint live) (live_id (landed live))
                (kind_by_storage (landed live)) (storage_of (landed live))) as (r & -> & _).
    + cbn [landed live_id]. unfold session_id_of. rewrite rekeys_local, Hl, Hn by done. cbn [andb].
      unfold restored_local_id. destruct (restored_local_runtime_id _ _ _ _ _) eqn:Hid; cbn;
        [by eapply restored_id_not_blank|apply minted_not_blank].
    + cbn [fmap option_fmap option_map]. by rewrite Hland, canonical_settled.
  - assert (landing_key parse_uuid mint live = live_key live) as ->.
    { unfold landing_key, restored_live_row_key, normalized_remote_row_key. rewrite Hr. cbn.
      by rewrite rekeys_local, Hl. }
    rewrite Hr. cbn. by rewrite rekeys_local, Hl.
Qed.
End settled.

(** ** The import walk as a weave *)

(** The row a new member of the run of [c] is placed behind. *)
Definition run_end (g : option string -> list string) (c : option string) : option string :=
  match last (g c) with Some x => Some x | None => c end.

Definition extend (g : option string -> list string) (c : option string) (r : string)
    (a : option string) : list string := if decide (a = c) then (g a ++ [r])%list else g a.

Definition insert_behind (a : option string) (r : string) (order : list string) : list string :=
  vec_insert (match a with
              | Some a => match index_of a order with Some ix => (ix + 1)%nat | None => length order end
              | None => 0%nat
              end) r order.

Lemma insert_behind_split a r (X Y : list string) :
  NoDup (X ++ Y) -> last X = a -> insert_behind a r (X ++ Y) = (X ++ r :: Y)%list.
Proof.
  intros Hnd Hl. unfold insert_behind, vec_insert. destruct a as [a|].
  - apply last_Some in Hl as [X' ->].
    assert (index_of a ((X' ++ [a]) ++ Y) = Some (length X')) as ->.
    { destruct (index_of a ((X' ++ [a]) ++ Y)) as [i|] eqn:Hi.
      - apply index_of_Some in Hi. f_equal. apply (NoDup_lookup _ _ _ _ Hnd Hi).
        rewrite <- app_assoc. by rewrite lookup_app_r, Nat.sub_diag.
      - apply index_of_None in Hi. set_solver. }
    replace (length X' + 1)%nat with (length (X' ++ [a])) by (rewrite length_app; done).
    by rewrite take_app_length, drop_app_length.
  - by apply last_None in Hl as ->.
Qed.

Lemma lay_split ks g c r : NoDup ks -> (c = None \/ exists k, c = Some k /\ k ∈ ks) ->
  exists X Y, lay ks g = (X ++ Y)%list /\ last X = run_end g c /\ lay ks (extend g c r) = (X ++ r :: Y)%list.
Proof.
  intros Hnd Hc. unfold lay.
  assert (forall ks', (forall k, c = Some k -> k ∉ ks') ->
    map (fun k => k :: extend g c r (Some k)) ks' = map (fun k => k :: g (Some k)) ks') as Hext.
  { intros ks' Hk. apply map_ext_in. intros k Hin%list_elem_of_In. unfold extend. rewrite decide_False; [done|].
    intros Heq. by apply (Hk k). }
  destruct Hc as [->|(k & -> & Hk)].
  - exists (g None), (List.concat (map (fun k => k :: g (Some k)) ks)). split_and!; [done| |].
    + unfold run_end. by destruct (last (g None)).
    + rewrite Hext by done. unfold extend. rewrite decide_True by done. by rewrite <- app_assoc.
  - apply list_elem_of_split in Hk as (l1 & l2 & ->).
    apply NoDup_app in Hnd as (H1 & H12 & [H2 _]%NoDup_cons).
    exists (g None ++ List.concat (map (fun k => k :: g (Some k)) l1) ++ k :: g (Some k))%list,
           (List.concat (map (fun k => k :: g (Some k)) l2)).
    rewrite !map_app, !List.concat_app. cbn [map List.concat]. split_and!.
    + by rewrite <- !app_assoc.
    + rewrite !last_app. unfold run_end. rewrite last_cons. by destruct (last (g (Some k))).
    + assert (k ∉ l1) as H1k by (intros Hin; apply (H12 k Hin); left).
      rewrite !Hext by (intros k' [= <-]; assumption). unfold extend.
      rewrite decide_False, decide_True by done. rewrite <- !app_assoc. cbn [app].
      by rewrite <- !app_assoc.
Qed.

Lemma lay_extend ks g c r : NoDup ks -> (c = None \/ exists k, c = Some k /\ k ∈ ks) -> NoDup (lay ks g) ->
  insert_behind (run_end g c) r (lay ks g) = lay ks (extend g c r)
  /\ lay ks (extend g c r) ≡ₚ r :: lay ks g.
Proof.
  intros Hks Hc Hnd. destruct (lay_split ks g c r Hks Hc) as (X & Y & He & Hl & ->). rewrite He in *. split.
  - by apply insert_behind_split.
  - by rewrite Permutation_middle.
Qed.

(** ** The sessions a restore adds *)

Lemma find_insert (P : string * Session -> bool) key s l :
  P (key, s) = false -> snd <$> List.find (fun '(k, _) => String.eqb k key) l = None ->
  List.find P (insert_session key s l) = List.find P l.
Proof.
  intros HP. induction l as [|[k s'] l IH]; cbn; [by rewrite HP|]. rewrite String.eqb_sym.
  destruct (String.eqb key k) eqn:Hk; [done|]. intros Hn.
  destruct (String.ltb key k); cbn; [by rewrite HP|]. destruct (P (k, s')); [done|]. by apply IH.
Qed.

Lemma get_inserted key s l order : get_session (mkServer (insert_session key s l) order) key = Some s.
Proof.
  unfold get_session. cbn [sessions]. induction l as [|[k s'] l IH]; cbn; [by rewrite String.eqb_refl|].
  destruct (String.eqb key k) eqn:Hk; cbn; [by rewrite String.eqb_refl|].
  destruct (String.ltb key k); cbn; [by rewrite String.eqb_refl|]. rewrite String.eqb_sym, Hk. apply IH.
Qed.

Lemma get_inserted_ne key k s l order order' : key <> k ->
  get_session (mkServer l order) key = None ->
  get_session (mkServer (insert_session key s l) order') k = get_session (mkServer l order) k.
Proof.
  intros Hne Hn. unfold get_session in *. cbn [sessions] in *. rewrite find_insert; [done| |done].
  by apply String.eqb_neq.
Qed.

(** A new session is found only by its own key, when its storage and path name nothing else. *)
Lemma resolve_inserted key k s l order order' :
  get_session (mkServer l order) key = None -> key <> k -> storage s <> Some k -> session_path s <> k ->
  normalized_live_row_identity key <> normalized_live_row_identity k ->
  resolve_live_session_key (mkServer (insert_session key s l) order') k
  = resolve_live_session_key (mkServer l order) k.
Proof.
  intros Hn Hne Hst Hp Hid. unfold resolve_live_session_key.
  rewrite (get_inserted_ne key k s l order order') by done.
  destruct (get_session (mkServer l order) k); [done|].
  unfold resolve_live_terminal_key_for_storage_path. cbn [sessions].
  rewrite find_insert; [|by rewrite (bool_decide_eq_false_2 _ Hst), andb_false_r|done].
  destruct (fst <$> List.find _ l); [done|].
  assert (forall i, local_runtime_id_from_key k = Some i ->
    get_session (mkServer (insert_session key s l) order') (local_live_runtime_key i)
    = get_session (mkServer l order) (local_live_runtime_key i)) as Hc.
  { intros i Hi. apply get_inserted_ne; [|done]. intros ->. apply Hid. unfold normalized_live_row_identity at 2.
    rewrite Hi. unfold normalized_live_row_identity.
    by rewrite (local_key_id i (local_runtime_id_not_blank _ _ Hi)). }
  rewrite find_insert; [|by apply String.eqb_neq|done].
  destruct (local_runtime_id_from_key k) as [i|]; [by rewrite (Hc i)|done].
Qed.

Lemma row_key_appended sv s key order :
  live_session_row_key (mkServer (insert_session key s (sessions sv)) (order ++ [key])) key = Some key.
Proof.
  apply row_key_of_row.
  - cbn [live_session_order]. rewrite elem_of_app, list_elem_of_singleton. by right.
  - rewrite get_inserted. by eexists.
Qed.

Lemma retain_other_id key order : key ∉ order -> retain_other key order = order.
Proof. intros Hn. apply list_filter_all. by intros x Hx ->. Qed.

Lemma identity_lookup_spec order id :
  match identity_lookup order !! id with
  | Some k => k ∈ order /\ normalized_live_row_identity k = id
  | None => forall k, k ∈ order -> normalized_live_row_identity k <> id
  end.
Proof.
  unfold identity_lookup. induction order as [|k order IH] using rev_ind.
  - cbn [foldl]; rewrite lookup_empty. by intros k ?%elem_of_nil.
  - rewrite foldl_app. cbn [foldl]. destruct (decide (normalized_live_row_identity k = id)) as [<-|Hne].
    + rewrite lookup_insert_eq. split; [|done]. rewrite elem_of_app, list_elem_of_singleton. by right.
    + rewrite lookup_insert_ne by done. destruct (_ !! id) as [k'|].
      * destruct IH as [? ?]. split; [|done]. rewrite elem_of_app. by left.
      * intros k'. rewrite elem_of_app, list_elem_of_singleton. intros [?| ->]; [by apply IH|done].
Qed.

Lemma resolved_has_session sv k r : resolve_live_session_key sv k = Some r -> is_Some (get_session sv r).
Proof.
  unfold resolve_live_session_key. destruct (get_session sv k) eqn:Hk; [by intros [= <-]; eexists|].
  assert (forall P, fst <$> List.find P (sessions sv) = Some r -> is_Some (get_session sv r)) as Hfind.
  { intros P H. apply get_session_In. destruct (List.find P (sessions sv)) as [[k' s]|] eqn:E; [|done].
    injection H as <-. apply find_some in E as [E%list_elem_of_In _].
    apply list_elem_of_fmap. by exists (k', s). }
  unfold resolve_live_terminal_key_for_storage_path.
  destruct (fst <$> List.find _ (sessions sv)) as [r'|] eqn:Hst.
  - intros [= ->]. by eapply Hfind.
  - destruct (local_runtime_id_from_key k) as [i|].
    + destruct (get_session sv (local_live_runtime_key i)) eqn:Hc; [intros [= <-]; by eexists|apply Hfind].
    + apply Hfind.
Qed.

Section import.
Context (parse_uuid : string -> option string) (mint : PersistedLiveSession -> string)
  (scanned : string -> string -> bool) (view : PersistedLiveSession -> string -> Session)
  (f : SharedFile) (now : N) (admits : PersistedLiveSession -> bool) (sv0 : Server).

(** The row of ours an offered row is, before the import. *)
Definition held_as (live : PersistedLiveSession) : option string :=
  match live_session_row_key sv0 (live_key live) with
  | Some row_key => Some row_key
  | None => identity_lookup (live_session_order sv0) !! normalized_live_row_identity (live_key live)
  end.

(** A row the walk takes in: admitted, and none of ours. *)
Definition taken (live : PersistedLiveSession) : bool := negb (is_Some_b (held_as live)) && admits live.

(** The row here each offered row ends as, if any. *)
Definition target (live : PersistedLiveSession) : option string :=
  match held_as live with
  | Some row_key => Some row_key
  | None => if admits live then Some (live_key live) else None
  end.

(** An offered row that lands: under its own key, which no session of ours has, and with no
    remembered close. *)
Record clean (live : PersistedLiveSession) : Prop := {
  clean_key : restored_live_row_key parse_uuid live = Some (live_key live);
  clean_recoverable : persisted_live_session_is_recoverable live = true;
  clean_kind : is_agent (live_kind live) = true \/ live_kind live = SshShell
               \/ live_kind live = Shell /\ remote_scanned_key (live_key live) = None;
  clean_close : ~ vetoed_birth f now (live_key live);
  clean_unused : get_session sv0 (live_key live) = None
}.

Lemma clean_restore sv live : clean live ->
  restore_live_session parse_uuid mint scanned view f now sv live
  = mkServer (insert_session (live_key live) (view live (live_key live)) (sessions sv))
      (retain_other (live_key live) (live_session_order sv) ++ [live_key live]).
Proof.
  intros [Hk Hrec Hkind Hc _].
  assert (append_restored_live_session_order
            (insert_live_session f now sv (live_key live) (view live (live_key live))) (live_key live)
          = mkServer (insert_session (live_key live) (view live (live_key live)) (sessions sv))
              (retain_other (live_key live) (live_session_order sv) ++ [live_key live])) as Hins.
  { pose proof (insert_live_session_spec f now sv (live_key live) (view live (live_key live))) as [Hf Hs].
    unfold append_restored_live_session_order. unfold retain_other at 1. rewrite Hf.
    destruct Hs as [[_ Hv]|Hs]; [done|]. by rewrite Hs. }
  unfold restore_live_session. rewrite bool_decide_eq_false_2; [|intros Hd; rewrite Hd in Hkind; naive_solver].
  rewrite Hrec. cbn [negb]. rewrite andb_false_r.
  destruct (remote_scanned_key (live_key live)) as [[[[m i] row_key] kind]|] eqn:Hr.
  - assert (row_key = live_key live) as ->.
    { unfold restored_live_row_key, normalized_remote_row_key in Hk. rewrite Hr in Hk. by injection Hk. }
    cbv zeta. match goal with |- (if ?b then _ else _) = _ => destruct b end; [done|].
    assert (bool_decide (live_kind live = SshShell) || is_agent (live_kind live) = true) as ->; [|done].
    destruct Hkind as [->|[->|[_ ?]]]; [apply orb_true_r|done|done].
  - unfold landing_key. rewrite Hk. exact Hins.
Qed.

Definition agrees (st : import_state) (live : PersistedLiveSession) : Prop :=
  live_session_row_key (im_server st) (live_key live) = live_session_row_key sv0 (live_key live)
  /\ order_lookup st !! normalized_live_row_identity (live_key live)
     = identity_lookup (live_session_order sv0) !! normalized_live_row_identity (live_key live)
  /\ (taken live = true -> get_session (im_server st) (live_key live) = None
      /\ live_key live ∉ live_session_order (im_server st)).

Lemma held_in live r : held_as live = Some r -> r ∈ live_session_order sv0.
Proof.
  unfold held_as. destruct (live_session_row_key sv0 (live_key live)) as [r'|] eqn:Hr.
  - intros [= <-]. by apply live_session_row_key_In in Hr.
  - intros Hl. pose proof (identity_lookup_spec (live_session_order sv0)
      (normalized_live_row_identity (live_key live))) as H. rewrite Hl in H. by destruct H.
Qed.

Lemma not_held_out live : held_as live = None -> live_key live ∉ live_session_order sv0.
Proof.
  unfold held_as. destruct (live_session_row_key sv0 (live_key live)); [done|]. intros Hl Hin.
  pose proof (identity_lookup_spec (live_session_order sv0) (normalized_live_row_identity (live_key live))) as H.
  rewrite Hl in H. by apply (H _ Hin).
Qed.

Abbreviation step := (import_step parse_uuid mint scanned view f now admits).

Lemma step_present st live r : agrees st live -> held_as live = Some r ->
  step st live = mkImport (im_server st) (order_lookup st) (Some r) (imported st).
Proof. intros (H1 & H2 & _) Hh. unfold import_step. rewrite H1, H2. cbv zeta. unfold held_as in Hh. by rewrite Hh. Qed.

Lemma step_refused st live : agrees st live -> held_as live = None -> admits live = false -> step st live = st.
Proof.
  intros (H1 & H2 & _) Hh Ha. unfold import_step. rewrite H1, H2. cbv zeta. unfold held_as in Hh. by rewrite Hh, Ha.
Qed.

Lemma step_taken st live : agrees st live -> taken live = true -> clean live ->
  let st' := step st live in
  im_server st' = mkServer (insert_session (live_key live) (view live (live_key live)) (sessions (im_server st)))
                    (insert_behind (anchor st) (live_key live) (live_session_order (im_server st)))
  /\ order_lookup st' = <[normalized_live_row_identity (live_key live) := live_key live]> (order_lookup st)
  /\ anchor st' = Some (live_key live) /\ imported st' = (imported st ++ [live_key live])%list.
Proof.
  intros (H1 & H2 & H3) Ht Hc. destruct (H3 Ht) as [_ Hout]. cbv zeta.
  unfold taken in Ht. apply andb_prop in Ht as [Hh Ha].
  destruct (held_as live) eqn:Hheld; [done|]. unfold held_as in Hheld.
  unfold import_step. rewrite H1, H2, Hheld, Ha. cbn [negb]. cbv zeta.
  rewrite (clean_restore (im_server st) live Hc), retain_other_id by done.
  rewrite row_key_appended. cbn [im_server order_lookup anchor imported]. split_and!; [|done..].
  pose proof (move_appended (insert_session (live_key live) (view live (live_key live)) (sessions (im_server st)))
    (live_session_order (im_server st)) (live_key live) (anchor st) Hout) as Hm.
  pose proof (proj2 (move_live_session_after_order (mkServer
    (insert_session (live_key live) (view live (live_key live)) (sessions (im_server st)))
    (live_session_order (im_server st) ++ [live_key live])) (live_key live) (anchor st))) as Hs.
  cbn [sessions] in Hs. destruct (move_live_session_after _ _ _) as [ses ord]. cbn in *. by rewrite Hm, Hs.
Qed.

(** A view built for [live] is found by no other offered key. *)
Definition view_is_own (live live' : PersistedLiveSession) : Prop :=
  storage (view live (live_key live)) <> Some (live_key live')
  /\ session_path (view live (live_key live)) <> live_key live'.

Lemma insert_behind_perm a r order : insert_behind a r order ≡ₚ r :: order.
Proof. apply vec_insert_perm. Qed.

Lemma agrees_taken st live live' : agrees st live -> taken live = true -> clean live ->
  view_is_own live live' ->
  normalized_live_row_identity (live_key live) <> normalized_live_row_identity (live_key live') ->
  agrees st live' -> agrees (step st live) live'.
Proof.
  intros Hag Ht Hc [Hv1 Hv2] Hid (H1 & H2 & H3).
  destruct (step_taken st live Hag Ht Hc) as (Hsv & Hl & _ & _). destruct Hag as (_ & _ & Hnew).
  destruct (Hnew Ht) as [Hnone Hout]. assert (live_key live <> live_key live') as Hne by congruence.
  unfold agrees. rewrite Hsv, Hl. destruct (im_server st) as [ses ord] eqn:Est. cbn [sessions live_session_order] in *.
  split_and!.
  - rewrite <- H1. unfold live_session_row_key. rewrite (resolve_inserted _ _ _ _ ord) by done.
    destruct (resolve_live_session_key (mkServer ses ord) (live_key live')) as [r|] eqn:Hr; [|done].
    assert (r <> live_key live) as Hrne.
    { intros ->. apply resolved_has_session in Hr as [s Hs]. congruence. }
    cbn [live_session_order]. apply decide_ext. rewrite insert_behind_perm, elem_of_cons. naive_solver.
  - rewrite lookup_insert_ne by done. exact H2.
  - intros Ht'. destruct (H3 Ht') as [Hg Ho]. split.
    + by rewrite (get_inserted_ne _ _ _ _ ord).
    + rewrite insert_behind_perm, elem_of_cons. naive_solver.
Qed.

Lemma run_end_fresh g r : g (Some r) = [] -> run_end g (Some r) = Some r.
Proof. unfold run_end. by intros ->. Qed.

Lemma run_end_extend g c r : run_end (extend g c r) c = Some r.
Proof. unfold run_end, extend. rewrite decide_True by done. by rewrite last_snoc. Qed.

Lemma extend_group g c r pairs a :
  (extend g c r a ++ group a pairs = g a ++ group a ((c, r) :: pairs))%list.
Proof.
  unfold extend. rewrite group_cons. cbn [fst snd].
  destruct (decide (a = c)) as [->|Hne]; [by rewrite decide_True, <- app_assoc|by rewrite decide_False].
Qed.

Abbreviation live := (live_session_order sv0).

Definition offers_ok (rows : list PersistedLiveSession) : Prop :=
  NoDup (map (fun live => normalized_live_row_identity (live_key live)) rows)
  /\ NoDup (omap target rows)
  /\ (forall l, l ∈ rows -> taken l = true -> clean l)
  /\ (forall l l', l ∈ rows -> l' ∈ rows -> taken l = true -> live_key l <> live_key l' -> view_is_own l l').

Lemma offers_ok_tail l rows : offers_ok (l :: rows) ->
  offers_ok rows /\ (forall l', l' ∈ rows ->
    normalized_live_row_identity (live_key l) <> normalized_live_row_identity (live_key l'))
  /\ (forall r, target l = Some r -> r ∉ omap target rows).
Proof.
  intros ([Hni Hni']%NoDup_cons & Hnt & Hc & Hv). split_and!.
  - split_and!; [done| | |].
    + cbn in Hnt. destruct (target l); [by apply NoDup_cons in Hnt as [_ ?]|done].
    + intros l' Hl'. apply Hc. by right.
    + intros l1 l2 H1 H2. apply Hv; by right.
  - intros l' Hl' Heq. apply Hni. rewrite Heq. apply list_elem_of_In, in_map_iff. exists l'.
    split; [done|by apply list_elem_of_In].
  - intros r Hr. cbn in Hnt. rewrite Hr in Hnt. by apply NoDup_cons in Hnt as [? _].
Qed.

Lemma target_taken l : taken l = true -> target l = Some (live_key l) /\ live_key l ∉ live.
Proof.
  unfold taken, target. intros [Hh Ha]%andb_prop. destruct (held_as l) eqn:E; [done|].
  rewrite Ha. split; [done|]. by apply not_held_out.
Qed.

Lemma import_walk rows : forall st g c,
  offers_ok rows -> NoDup live -> NoDup (lay live g) ->
  live_session_order (im_server st) = lay live g -> anchor st = run_end g c ->
  (c = None \/ exists k, c = Some k /\ k ∈ live) ->
  (forall k, c = Some k -> k ∉ omap target rows) ->
  (forall r, r ∈ omap target rows -> g (Some r) = []) ->
  (forall l, l ∈ rows -> agrees st l) ->
  let st' := foldl step st rows in
  live_session_order (im_server st')
    = lay live (fun a => g a ++ group a (att (in_order live) c (omap target rows)))%list
  /\ imported st' = (imported st ++ List.filter (fun r => negb (in_order live r)) (omap target rows))%list
  /\ (forall k, k ∈ live -> get_session (im_server st') k = get_session (im_server st) k).
Proof.
  induction rows as [|l rows IH]; intros st g c Hok Hnd Hlay Hord Hanc Hc Hcn Hg Hag; cbv zeta; cbn [foldl].
  { split_and!; [|cbn; by rewrite app_nil_r|done]. rewrite Hord. apply lay_ext. intros a _. cbn. by rewrite app_nil_r. }
  pose proof (offers_ok_tail l rows Hok) as (Hok' & Hids & Hfresh).
  destruct Hok as (_ & _ & Hclean & Hview).
  assert (agrees st l) as Hl by (apply Hag; left).
  destruct (held_as l) as [r|] eqn:Hh.
  - rewrite (step_present st l r Hl Hh).
    assert (target l = Some r) as Ht by (unfold target; by rewrite Hh).
    pose proof (held_in l r Hh) as Hr.
    assert (omap target (l :: rows) = r :: omap target rows) as Homap by (cbn; by rewrite Ht).
    rewrite Homap in *. cbn [att List.filter]. rewrite (proj2 (in_order_true live r) Hr). cbn [negb].
    apply (IH (mkImport (im_server st) (order_lookup st) (Some r) (imported st)) g (Some r)); try done.
    + cbn. rewrite run_end_fresh; [done|]. apply Hg. left.
    + right. by exists r.
    + intros k [= <-]. by apply Hfresh.
    + intros r' Hr'. apply Hg. by right.
    + intros l' Hl'. apply (Hag l'). by right.
  - destruct (admits l) eqn:Ha.
    + assert (taken l = true) as Htk by (unfold taken; by rewrite Hh, Ha).
      destruct (target_taken l Htk) as [Ht Hout].
      assert (clean l) as Hcl by (apply Hclean; [left|done]).
      destruct (step_taken st l Hl Htk Hcl) as (Hsv & Hlk & Hanc' & Himp).
      assert (omap target (l :: rows) = live_key l :: omap target rows) as Homap by (cbn; by rewrite Ht).
      rewrite Homap in *. cbn [att List.filter]. rewrite (proj2 (in_order_false live _) Hout). cbn [negb].
      destruct (lay_extend live g c (live_key l) Hnd Hc Hlay) as [Hins Hperm].
      assert (live_key l ∉ lay live g) as Hnew by (rewrite <- Hord; by apply Hl).
      destruct (IH (step st l) (extend g c (live_key l)) c) as (IH1 & IH2 & IH3); try done.
      * rewrite Hperm. by apply NoDup_cons.
      * rewrite Hsv. cbn [live_session_order]. by rewrite Hanc, Hord, Hins.
      * by rewrite Hanc', run_end_extend.
      * intros k Hk. specialize (Hcn k Hk). set_solver.
      * intros r Hr. unfold extend. destruct (decide (Some r = c)) as [Heq|_]; [|apply Hg; by right].
        exfalso. apply (Hcn r); [done|by right].
      * intros l' Hl'. apply agrees_taken; [done..| | |].
        -- apply Hview; [left|by right|done|]. intros Heq. apply (Hids l' Hl'). by rewrite Heq.
        -- by apply Hids.
        -- apply Hag. by right.
      * rewrite IH1, IH2, Himp. split_and!; [|by rewrite <- app_assoc|].
        -- apply lay_ext. intros a _. by rewrite extend_group.
        -- intros k Hk. rewrite (IH3 k Hk), Hsv. destruct Hl as (_ & _ & Hl). destruct (Hl Htk) as [Hnone _].
           destruct (im_server st) as [ses ord]. cbn [sessions].
           apply get_inserted_ne; [by intros <-|done].
    + rewrite (step_refused st l Hl Hh Ha).
      assert (omap target (l :: rows) = omap target rows) as Homap
        by (cbn; unfold target; by rewrite Hh, Ha).
      rewrite Homap in *. apply (IH st g c); try done. intros l' Hl'. apply (Hag l'). by right.
Qed.

Lemma first_agrees rows l : offers_ok rows -> l ∈ rows ->
  agrees (mkImport sv0 (identity_lookup live) None []) l.
Proof.
  intros (_ & _ & Hc & _) Hl. split_and!; [done..|]. intros Ht. split.
  - by apply (clean_unused l (Hc l Hl Ht)).
  - by apply target_taken.
Qed.
End import.

(** ** The closes through a pass *)

Section closes.
Context (parse_uuid : string -> option string) (mint : PersistedLiveSession -> string)
  (scanned : string -> string -> bool) (view : PersistedLiveSession -> string -> Session)
  (id : string).

Lemma adopt_from_order save_ok now f d status key :
  (forall live, live ∈ advertised_rows status -> not_minted parse_uuid mint id live) ->
  blocks (live_row_tombstones d) id now = true -> normalized_live_row_identity key = id ->
  key ∈ live_session_order (server (adopt_from parse_uuid mint scanned view save_ok now (f, d) status).2) ->
  key ∈ live_session_order (server d).
Proof.
  intros Hmint Hb Hid. unfold adopt_from. destruct (negb _); [done|]. cbn [snd server fst].
  unfold import_peer_live_rows_in_order. cbv zeta. cbn [fst].
  intros [Hk|(l & Hl & Ha & ->)]%import_order; [done|].
  apply adoptable_not_blocked in Ha as [Ha _].
  by destruct (lands_blocked parse_uuid mint id _ now l (Hmint l Hl) Hb Ha).
Qed.

Lemma adopt_from_closes save_ok now f d status :
  live_row_tombstones (adopt_from parse_uuid mint scanned view save_ok now (f, d) status).2 = live_row_tombstones d
  /\ (forall P : LiveRowTombstones -> Prop, (forall t i, P t -> P (touch t i now)) -> P (read_shared f) ->
      P (read_shared (adopt_from parse_uuid mint scanned view save_ok now (f, d) status).1)).
Proof.
  unfold adopt_from. destruct (negb _); [done|]. cbn [fst snd live_row_tombstones]. split; [done|].
  intros P Ht Hf. by apply rearm_keeps.
Qed.

Lemma adopt_all save_ok now statuses : forall f d,
  (forall status live, status ∈ statuses -> live ∈ advertised_rows status -> not_minted parse_uuid mint id live) ->
  blocks (live_row_tombstones d) id now = true ->
  let acc := foldl (adopt_from parse_uuid mint scanned view save_ok now) (f, d) statuses in
  (forall key, normalized_live_row_identity key = id ->
     key ∈ live_session_order (server acc.2) -> key ∈ live_session_order (server d))
  /\ (forall P : LiveRowTombstones -> Prop, (forall t i, P t -> P (touch t i now)) -> P (read_shared f) ->
      P (read_shared acc.1)).
Proof.
  induction statuses as [|status statuses IH]; intros f d Hmint Hb; cbv zeta; cbn [foldl]; [by split; [|intros P _]|].
  pose proof (fun key => adopt_from_order save_ok now f d status key
    (fun live => Hmint status live ltac:(left))) as Ho.
  pose proof (adopt_from_closes save_ok now f d status) as [Ht Hf].
  destruct (adopt_from _ _ _ _ _ _ _ _) as [f1 d1]. cbn [fst snd] in *. rewrite <- Ht in Hb.
  destruct (IH f1 d1) as [IH1 IH2]; [intros st l Hst; apply Hmint; by right|done|]. split.
  - intros key Hid Hk. apply Ho; [by rewrite <- Ht|done|]. by apply IH1.
  - intros P HP Hp. by apply IH2, Hf.
Qed.

Lemma restore_rows_order save_ok f now sv lives key :
  (forall live, live ∈ lives -> not_minted parse_uuid mint id live) ->
  blocks (load f now) id now = true -> normalized_live_row_identity key = id ->
  key ∈ live_session_order (restore_live_rows parse_uuid mint scanned view save_ok f now sv lives).1.1 ->
  key ∈ live_session_order sv.
Proof.
  intros Hmint Hb Hid. unfold restore_live_rows. cbv zeta.
  pose proof (restore_steps_order parse_uuid mint scanned view f now
    (tombstoned_persisted_live_rows parse_uuid f now lives) lives (sv, [], []) key) as Ho.
  destruct (foldl _ _ lives) as [[sv' restored] vetoed]. cbn [fst snd] in *. intros Hk.
  destruct (Ho Hk) as [?|(l & Hl & Hn & ->)]; [done|].
  pose proof (not_tombstoned parse_uuid f now lives l Hl Hn) as Ha.
  by destruct (lands_blocked parse_uuid mint id _ now l (Hmint l Hl) Hb Ha).
Qed.

Lemma restore_rows_closes (P : LiveRowTombstones -> Prop) save_ok f now sv lives :
  (forall t i, P t -> P (touch t i now)) -> P (read_shared f) ->
  P (read_shared (restore_live_rows parse_uuid mint scanned view save_ok f now sv lives).2).
Proof.
  intros Ht Hf. unfold restore_live_rows. cbv zeta. destruct (foldl _ _ lives) as [[sv' restored] vetoed].
  cbn [snd]. destruct vetoed; [done|]. by apply rearm_keeps.
Qed.
End closes.

(** ** A close that is not renewed *)

Lemma touch_other t i id r now : i <> id -> entries t !! id = Some r -> entries (touch t i now) !! id = Some r.
Proof.
  intros Hne Hid. unfold touch. destruct (entries t !! i) as [ri|]; [|done].
  destruct (expired ri now); [|destruct (_ <=? _)%N; [|done]]; cbn [entries];
    [by rewrite lookup_delete_ne|by rewrite lookup_insert_ne].
Qed.

Lemma adopt_from_unrenewed parse_uuid mint scanned view save_ok now f d status id r :
  (forall live, live ∈ live_terminal_sessions status -> normalized_live_row_identity (live_key live) <> id) ->
  entries (read_shared f) !! id = Some r ->
  entries (read_shared (adopt_from parse_uuid mint scanned view save_ok now (f, d) status).1) !! id = Some r.
Proof.
  intros Hk Hf. unfold adopt_from. destruct (negb _); [done|]. cbn [fst].
  apply (rearm_keeps_among (fun t => entries t !! id = Some r)); [done|]. intros t path Hp.
  apply touch_other. unfold advertised_rows, peer_live_rows_marked_as_rescued in Hp.
  apply list_elem_of_fmap in Hp as ([p b] & -> & Hp). cbn [fst]. apply list_elem_of_In, in_map_iff in Hp as (l & [= <- _] & Hl).
  apply in_map_iff in Hl as (l' & <- & Hl'). destruct (negb _); apply (Hk l'); by apply list_elem_of_In.
Qed.

(** The passes of the daemons of a host: each with its time, its daemon and what it hears. *)
Record adoption_pass : Type := mkPass {
  pass_now : N;
  pass_saves : bool;
  pass_daemon : Daemon;
  pass_statuses : list OwnerStatus
}.

Definition run_passes (parse_uuid : string -> option string) (mint : PersistedLiveSession -> string)
    (scanned : string -> string -> bool) (view : PersistedLiveSession -> string -> Session)
    (passes : list adoption_pass) (f : SharedFile) : SharedFile :=
  foldl (fun f p => fst (adopt_missing_live_session_rows parse_uuid mint scanned view (pass_saves p) f
                           (pass_daemon p) (pass_now p) (pass_statuses p))) f passes.

Lemma adopt_missing_unrenewed parse_uuid mint scanned view save_ok f d now statuses id r :
  (forall status live, status ∈ statuses -> live ∈ live_terminal_sessions status ->
     normalized_live_row_identity (live_key live) <> id) ->
  entries (read_shared f) !! id = Some r ->
  entries (read_shared (adopt_missing_live_session_rows parse_uuid mint scanned view save_ok f d now statuses).1) !! id
  = Some r.
Proof.
  unfold adopt_missing_live_session_rows. generalize (refresh f d now) as d0. clear d. revert f.
  induction statuses as [|status statuses IH]; intros f d0 Hk Hf; cbn [foldl]; [done|].
  pose proof (adopt_from_unrenewed parse_uuid mint scanned view save_ok now f d0 status id r) as H.
  destruct (adopt_from _ _ _ _ _ _ _ _) as [f1 d1]. apply IH.
  - intros st l Hst. apply Hk. by right.
  - apply H; [|done]. intros l. apply Hk. left.
Qed.

Lemma run_passes_unrenewed parse_uuid mint scanned view passes f id r :
  (forall p status live, p ∈ passes -> status ∈ pass_statuses p -> live ∈ live_terminal_sessions status ->
     normalized_live_row_identity (live_key live) <> id) ->
  entries (read_shared f) !! id = Some r ->
  entries (read_shared (run_passes parse_uuid mint scanned view passes f)) !! id = Some r.
Proof.
  revert f. induction passes as [|p passes IH]; intros f Hk Hf; cbn [run_passes foldl]; [done|].
  apply IH.
  - intros q st l Hq. apply Hk. by right.
  - apply adopt_missing_unrenewed; [|done]. intros st l. apply (Hk p). left.
Qed.

Lemma load_forgets f id r now :
  entries (read_shared f) !! id = Some r -> (r + TOMBSTONE_TTL_SECS <= now)%N ->
  blocks (load f now) id now = false.
Proof.
  intros Hf Hn. unfold blocks, load. destruct (entries (gc (read_shared f) now).1 !! id) as [r'|] eqn:Hg; [|done].
  apply gc_lookup in Hg as [Hg He]. assert (r' = r) as -> by congruence. apply expired_false in He. lia.
Qed.

(** * Properties *)

Section properties.
Context (parse_uuid : string -> option string) (mint : PersistedLiveSession -> string)
  (scanned : string -> string -> bool) (view : PersistedLiveSession -> string -> Session).

(** C3: A row the user closed stays out.  While the shared file holds the close of an identity
    within its lifetime, neither an adoption pass over any reachable daemons nor the restore of any
    saved list brings in a row of that identity, whatever spelling it is offered under and whatever
    the machines' scans hold: every row of that identity in the live order afterwards was in it
    before.  And the close is still held afterwards. *)
Theorem closed_rows_stay_out save_ok f d now statuses lives sv id r :
  (size (entries (read_shared f)) <= MAX_TOMBSTONES)%nat -> held id r (read_shared f) ->
  (now - r < TOMBSTONE_TTL_SECS)%N ->
  (forall status live, status ∈ statuses -> live ∈ advertised_rows status -> not_minted parse_uuid mint id live) ->
  (forall live, live ∈ lives -> not_minted parse_uuid mint id live) ->
  (let '(f', d') := adopt_missing_live_session_rows parse_uuid mint scanned view save_ok f d now statuses in
   (forall key, key ∈ live_session_order (server d') -> normalized_live_row_identity key = id ->
      key ∈ live_session_order (server d)) /\ held id r (read_shared f'))
  /\ (let '(sv', _, f') := restore_live_rows parse_uuid mint scanned view save_ok f now sv lives in
      (forall key, key ∈ live_session_order sv' -> normalized_live_row_identity key = id ->
         key ∈ live_session_order sv) /\ held id r (read_shared f')).
Proof.
  intros Hs Hh Hr Hm Hm'. pose proof (load_blocks f id r now Hs Hh Hr) as Hb.
  assert (forall t i, held id r t -> held id r (touch t i now)) as Ht by (intros; by apply touch_held).
  split.
  - pose proof (adopt_all parse_uuid mint scanned view id save_ok now statuses f (refresh f d now) Hm Hb) as [Ho Hc].
    unfold adopt_missing_live_session_rows. destruct (foldl _ _ statuses) as [f' d']. cbn [fst snd] in *.
    split; [intros key Hk Hid; by apply Ho|by apply Hc].
  - pose proof (fun key => restore_rows_order parse_uuid mint scanned view id save_ok f now sv lives key Hm' Hb) as Ho.
    pose proof (restore_rows_closes parse_uuid mint scanned view (held id r) save_ok f now sv lives Ht Hh) as Hc.
    destruct (restore_live_rows _ _ _ _ _ _ _ _ _) as [[sv' restored] f']. cbn [fst snd] in *.
    split; [intros key Hk Hid; by apply Ho|done].
Qed.

(** C5: Importing a peer's rows is the weave of the row-order ledger.  When each offered row that is
    taken lands under its own key, the live order afterwards is the one the ledger would write for
    our order with the peer's as the old one: our rows as they stood, each new row behind the row of
    ours it followed at the peer, in the peer's order.  The keys reported are the new rows in the
    peer's order, and the sessions of our rows are untouched. *)
Theorem import_is_woven f now sv rows admits :
  NoDup (live_session_order sv) -> offers_ok parse_uuid view f now admits sv rows ->
  let '(sv', imported) := import_peer_live_rows_in_order parse_uuid mint scanned view f now sv rows admits in
  let old := omap (target admits sv) rows in
  live_session_order sv' = woven (live_session_order sv) old
  /\ imported = List.filter (fun r => negb (in_order (live_session_order sv) r)) old
  /\ (forall k, k ∈ live_session_order sv -> get_session sv' k = get_session sv k).
Proof.
  intros Hnd Hok. unfold import_peer_live_rows_in_order. cbv zeta.
  assert (lay (live_session_order sv) (fun _ => []) = live_session_order sv) as Hlay.
  { unfold lay. cbn [app]. induction (live_session_order sv) as [|k l IH]; [done|]. cbn.
    f_equal. apply IH. by apply NoDup_cons in Hnd as [_ ?]. }
  destruct (import_walk parse_uuid mint scanned view f now admits sv rows
    (mkImport sv (identity_lookup (live_session_order sv)) None []) (fun _ => []) None) as (H1 & H2 & H3);
    try done; [by rewrite Hlay|by left| |].
  - intros l. by apply (first_agrees parse_uuid view f now admits sv rows).
  - cbn [imported im_server app] in *. split_and!; [|done..]. rewrite H1, woven_lay by done.
    by rewrite dedup_id by apply Hok.
Qed.

(** A row's key is settled by one restore: the row as it is persisted again after its restore is
    restored under the very key it landed under, and is judged by the identity of that key, so no
    later restart or handover moves it to another key. *)
Theorem landing_is_settled `{!UuidLaws parse_uuid mint} live :
  persisted_live_session_is_recoverable live = true ->
  let again := landed parse_uuid mint live in
  restored_live_row_key parse_uuid again = Some (live_key again)
  /\ landing_key parse_uuid mint again = landing_key parse_uuid mint live
  /\ persisted_live_row_identity parse_uuid again = normalized_live_row_identity (landing_key parse_uuid mint live).
Proof.
  intros Hrec. cbv zeta. pose proof (restored_again parse_uuid mint live Hrec) as H.
  unfold landing_key at 1, persisted_live_row_identity, landing_or_key. rewrite H. done.
Qed.

(** C39: The import walk renews closes by the key a row is offered under, not by the key it lands
    under.  However often a peer offers a closed row under a spelling of another identity, the close
    keeps its first date, and once its lifetime has passed the next offer is adoptable. *)
Theorem rekeyed_offer_outlives_its_close passes f live owned now r admission :
  let id := persisted_live_row_identity parse_uuid live in
  entries (read_shared f) !! id = Some r ->
  (forall p status offered, p ∈ passes -> status ∈ pass_statuses p -> offered ∈ live_terminal_sessions status ->
     normalized_live_row_identity (live_key offered) <> id) ->
  (r + TOMBSTONE_TTL_SECS <= now)%N ->
  persisted_live_session_is_recoverable live = true -> peer_owns_row_runtime live owned = true ->
  let f' := run_passes parse_uuid mint scanned view passes f in
  entries (read_shared f') !! id = Some r
  /\ peer_live_row_is_adoptable parse_uuid live owned (load f' now) now admission = true.
Proof.
  cbv zeta. intros Hf Hp Hn Hrec Hown.
  pose proof (run_passes_unrenewed parse_uuid mint scanned view passes f _ r Hp Hf) as Hf'. split; [done|].
  unfold peer_live_row_is_adoptable. rewrite (load_forgets _ _ r now Hf' Hn), Hrec, Hown. by destruct admission.
Qed.
End properties.

(** ** Witnesses *)

Definition uuid_of (s : string) : option string := if blank s then None else Some s.
Definition minted (live : PersistedLiveSession) : string := "fresh".
Definition no_scan (machine_key session_id : string) : bool := false.
Definition plain_view (live : PersistedLiveSession) (key : string) : Session :=
  mkSession key (live_title live) (live_outline_prefix live) false None (live_kind live) (live_cwd live).

#[export] Instance plain_uuids : UuidLaws uuid_of minted.
Proof.
  split; [|done]. intros s u. unfold uuid_of. destruct (blank s) eqn:Hb; [done|]. by intros [= <-].
Qed.

Definition offer (key id : string) (kind : SessionKind) (target : string) (storage : option string)
    : PersistedLiveSession :=
  mkLive key id "row" kind true target None None None storage None None None (mk_options None None) []
    false None None None.

Definition local_agent (id : string) : PersistedLiveSession :=
  offer ("local://" +:+ id) id ClaudeCode "localhost" None.

Definition rollout : string :=
  "/home/u/.codex/sessions/rollout-2026-01-01T00-00-00-aaaaaaaa-bbbb-4ccc-8ddd-eeeeeeeeeeee.jsonl".
Definition thread_id : string := "aaaaaaaa-bbbb-4ccc-8ddd-eeeeeeeeeeee".

(** A row saved before its key was a local one. *)
Definition unmigrated : PersistedLiveSession := offer rollout "" Codex "localhost" None.

Definition two_rows : Server :=
  mkServer [("local://a", plain_view (local_agent "a") "local://a");
            ("local://b", plain_view (local_agent "b") "local://b")] ["local://a"; "local://b"].

Definition peer_status : OwnerStatus :=
  mkStatus true ["local://n"] [local_agent "a"; local_agent "n"; unmigrated; local_agent "b"; local_agent "m"].

Definition closed_file (id : string) (at_ : N) : SharedFile := Holds (mkTombstones {[id := at_]} []).

Definition here : Daemon := mkDaemon two_rows no_tombstones ∅.

Example the_pass_takes_the_open_rows :
  live_session_order (server (adopt_missing_live_session_rows uuid_of minted no_scan plain_view true
    (closed_file ("id::" +:+ thread_id) 1000) here 2000 [peer_status]).2)
  = ["local://a"; "local://n"; "local://b"; "local://m"].
Proof. vm_compute. reflexivity. Qed.

Lemma closed_rows_stay_out_witness :
  let f := closed_file ("id::" +:+ thread_id) 1000 in
  let id := "id::" +:+ thread_id in
  (let '(f', d') := adopt_missing_live_session_rows uuid_of minted no_scan plain_view true f here 2000 [peer_status] in
   (forall key, key ∈ live_session_order (server d') -> normalized_live_row_identity key = id ->
      key ∈ live_session_order (server here)) /\ held id 1000 (read_shared f'))
  /\ (let '(sv', _, f') := restore_live_rows uuid_of minted no_scan plain_view true f 2000 two_rows [unmigrated] in
      (forall key, key ∈ live_session_order sv' -> normalized_live_row_identity key = id ->
         key ∈ live_session_order two_rows) /\ held id 1000 (read_shared f')).
Proof.
  cbv zeta. apply closed_rows_stay_out.
  - vm_compute. lia.
  - exists 1000%N. split; [vm_compute; reflexivity|lia].
  - vm_compute. reflexivity.
  - intros status live ->%list_elem_of_singleton Hl. unfold not_minted. intros Hn. exfalso. revert Hn.
    change (advertised_rows peer_status) with
      [local_agent "a"; rescued (local_agent "n"); unmigrated; local_agent "b"; local_agent "m"] in Hl.
    repeat (apply elem_of_cons in Hl as [->|Hl]; [vm_compute; discriminate|]). by apply elem_of_nil in Hl.
  - intros live ->%list_elem_of_singleton Hn. exfalso. revert Hn. vm_compute. discriminate.
Defined.

Lemma import_is_woven_witness :
  let f := Missing in
  let rows := [local_agent "a"; local_agent "n"; local_agent "b"; local_agent "m"] in
  let admits live := peer_live_row_is_adoptable uuid_of live [] no_tombstones 2000 OwnedOrAgentStore in
  let '(sv', imported) := import_peer_live_rows_in_order uuid_of minted no_scan plain_view f 2000 two_rows rows admits in
  let old := omap (target admits two_rows) rows in
  live_session_order sv' = woven (live_session_order two_rows) old
  /\ imported = List.filter (fun r => negb (in_order (live_session_order two_rows) r)) old
  /\ (forall k, k ∈ live_session_order two_rows -> get_session sv' k = get_session two_rows k).
Proof.
  cbv zeta. apply import_is_woven.
  - by apply (bool_decide_eq_true_1 _).
  - split_and!.
    + by apply (bool_decide_eq_true_1 _).
    + by apply (bool_decide_eq_true_1 _).
    + intros l Hl Ht. repeat (apply elem_of_cons in Hl as [->|Hl];
        [first [vm_compute in Ht; discriminate|split; [vm_compute; reflexivity|vm_compute; reflexivity|by left|
           intros Hv; apply Hv; vm_compute; reflexivity|vm_compute; reflexivity]]|]).
      by apply elem_of_nil in Hl.
    + intros l l' _ _ _ Hne. split; [done|exact Hne].
Defined.

Lemma landing_is_settled_witness :
  let again := landed uuid_of minted unmigrated in
  restored_live_row_key uuid_of again = Some (live_key again)
  /\ landing_key uuid_of minted again = landing_key uuid_of minted unmigrated
  /\ persisted_live_row_identity uuid_of again = normalized_live_row_identity (landing_key uuid_of minted unmigrated).
Proof. cbv zeta. apply (landing_is_settled uuid_of minted unmigrated). vm_compute. reflexivity. Defined.

Lemma rekeyed_offer_outlives_its_close_witness :
  let passes := [mkPass 100000 true here [mkStatus true [] [unmigrated]];
                 mkPass 200000 true here [mkStatus true [] [unmigrated]]] in
  let f := closed_file ("id::" +:+ thread_id) 1000 in
  let f' := run_passes uuid_of minted no_scan plain_view passes f in
  entries (read_shared f') !! persisted_live_row_identity uuid_of unmigrated = Some 1000%N
  /\ peer_live_row_is_adoptable uuid_of unmigrated [rollout] (load f' 260200) 260200 OwnedOrAgentStore = true.
Proof.
  cbv zeta. apply rekeyed_offer_outlives_its_close with (r := 1000%N).
  - vm_compute. reflexivity.
  - intros p status offered Hp Hst Ho.
    assert (pass_statuses p = [mkStatus true [] [unmigrated]]) as Heq.
    { repeat (apply elem_of_cons in Hp as [->|Hp]; [done|]). by apply elem_of_nil in Hp. }
    rewrite Heq in Hst. apply list_elem_of_singleton in Hst as ->.
    apply list_elem_of_singleton in Ho as ->. vm_compute. discriminate.
  - vm_compute. discriminate.
  - vm_compute. reflexivity.
  - vm_compute. reflexivity.
Defined.

(** A remote row offered under a machine key that restore re-spells lands, but the walk does not find
    it by the key it was offered under: it is not reported, stays at the end of the order, and the
    next pass takes it for a new row again, moving it back to the end. *)
Definition unfolded_remote : PersistedLiveSession := offer "remote-cc://Host.A/x" "x" ClaudeCode "host" None.

Example respelled_row_is_imported_again :
  let admits live := peer_live_row_is_adoptable uuid_of live [] no_tombstones 2000 OwnedOrAgentStore in
  let once := import_peer_live_rows_in_order uuid_of minted no_scan plain_view Missing 2000 two_rows
                [local_agent "a"; unfolded_remote] admits in
  let moved := move_live_session_after once.1 "remote-cc://host-a/x" (Some "local://a") in
  let twice := import_peer_live_rows_in_order uuid_of minted no_scan plain_view Missing 2000 moved
                [local_agent "a"; unfolded_remote] admits in
  once.2 = [] /\ live_session_order once.1 = ["local://a"; "local://b"; "remote-cc://host-a/x"]
  /\ live_session_order moved = ["local://a"; "remote-cc://host-a/x"; "local://b"]
  /\ live_session_order twice.1 = ["local://a"; "local://b"; "remote-cc://host-a/x"].
Proof. vm_compute. done. Qed.

(** The key of a shell row with a Storage stamp is read with the kind of the storage, its id with the
    kind of the row: it lands under another session's key and keeps its own id. *)
Example stamped_shell_is_split :
  let shell := offer "scratch" "x" Shell "localhost" (Some rollout) in
  landing_key uuid_of minted shell = "local://" +:+ thread_id /\ session_id_of uuid_of minted shell = "x".
Proof. vm_compute. done. Qed.

(** A vetoed birth leaves its key in the order, with no session behind it. *)
Example vetoed_birth_leaves_its_key :
  let sv := restore_live_session uuid_of minted no_scan plain_view (closed_file "id::n" 1000) 2000 two_rows
              (local_agent "n") in
  live_session_order sv = ["local://a"; "local://b"; "local://n"] /\ get_session sv "local://n" = None.
Proof. vm_compute. done. Qed.
