(* ===== verification/YnpmVersion.v ===== *)
(** * The package tool: names and versions

    src/crates/ynpm/src/main.rs: [expand_package], [package_storage_key], [platform_target],
    [normalize_yggterm_release_repo], [SemVer] with [parse] and [cmp_semver], the reading of a
    binary's [--version] answer, [dev_handback], [pin_is_explicit], [downgrade_refusal_note],
    [upgrade_direction], [parse_sha256], [parse_tarball_source] and [generation_keep_names]'s rank.

    Text is UTF-8 in a byte string, as in RustStr.v.  The wording of an error is left out: a refusal
    is [None]. *)
From S2P Require Import Prelude RustStr.
From Stdlib Require Import ZifyBool ZifyN.
#[local] Open Scope N_scope.
#[local] Open Scope string_scope.

(** ** Versions *)

Record SemVer := mkSemVer { major : N; minor : N; patch : N; pre : option string }.

#[export] Instance SemVer_eq_dec : EqDecision SemVer.
Proof. solve_decision. Defined.

Definition parse (text : string) : option SemVer :=
  let text := trim text in
  let without_build := match split_once "+" text with Some (base, _) => base | None => text end in
  let '(core, pre) := match split_once "-" without_build with
                      | Some (core, pre) => (core, Some pre)
                      | None => (without_build, None)
                      end in
  match split_on "." core with
  | [a; b; c] =>
      match parse_u64 a, parse_u64 b, parse_u64 c with
      | Some a, Some b, Some c => Some (mkSemVer a b c pre)
      | _, _, _ => None
      end
  | _ => None
  end.

(** [Ordering::then]. *)
Definition then_ (c d : comparison) : comparison := match c with Eq => d | _ => c end.

Definition cmp_pre (x y : option string) : comparison :=
  match x, y with
  | None, None => Eq
  | Some _, None => Lt
  | None, Some _ => Gt
  | Some x, Some y => String.compare x y
  end.

Definition cmp_semver (a b : SemVer) : comparison :=
  let triple := then_ (then_ (major a ?= major b)%N (minor a ?= minor b)%N) (patch a ?= patch b)%N in
  match triple with Eq => cmp_pre (pre a) (pre b) | _ => triple end.

(** *** What a binary answers *)

Definition version_answer_matches (answer expected : string) : bool :=
  let answer := trim answer in
  negb (str_is_empty answer) && (String.eqb answer expected || contains answer expected).

(** [split_whitespace], with the word read so far. *)
Fixpoint words (fuel : nat) (word s : string) : list string :=
  match fuel with
  | O => []
  | S fuel' =>
      let flush rest := if str_is_empty word then rest else str_rev word :: rest in
      match s with
      | "" => flush []
      | String c s' =>
          match strip_ws s with
          | Some rest => flush (words fuel' "" rest)
          | None => words fuel' (String c word) s'
          end
      end
  end.

Definition split_whitespace (s : string) : list string := words (S (String.length s)) "" s.

(** [trim_start_matches(c)]. *)
Fixpoint trim_start_char (c : ascii) (s : string) : string :=
  match s with
  | "" => ""
  | String d s' => if Ascii.eqb d c then trim_start_char c s' else s
  end.

Definition version_from_answer (answer : string) : option string :=
  trim_start_char "v" <$>
    List.find (fun token => is_Some_b (parse (trim_start_char "v" token))) (rev (split_whitespace answer)).

Definition version_answer_matches_identity (answer expected : string) : bool :=
  version_answer_matches answer expected ||
  match parse (default "" (version_from_answer answer)), parse expected with
  | Some actual, Some expected =>
      (major actual =? major expected)%N && (minor actual =? minor expected)%N && (patch actual =? patch expected)%N
  | _, _ => false
  end.

(** *** Decisions about versions *)

Inductive DevHandback := KeepDev | ReleaseAvailable.

Definition dev_handback (watch_latest supersedes supersedes_fingerprint latest_fingerprint : option string) : DevHandback :=
  match watch_latest with
  | None => KeepDev
  | Some latest =>
      match parse latest, parse (default "0.0.0" supersedes) with
      | Some latest, Some base =>
          match cmp_semver latest base with
          | Gt => ReleaseAvailable
          | Eq => match supersedes_fingerprint, latest_fingerprint with
                  | Some old, Some new => if String.eqb old new then KeepDev else ReleaseAvailable
                  | _, _ => KeepDev
                  end
          | Lt => KeepDev
          end
      | _, _ => KeepDev
      end
  end.

Definition pin_is_explicit (pin : option string) : bool :=
  match pin with Some p => is_Some_b (parse p) | None => false end.

(** [downgrade_refusal_note(..).is_some()]. *)
Definition downgrade_refusal (installed resolved : string) : bool :=
  match parse installed, parse resolved with
  | Some have, Some want => match cmp_semver have want with Gt => true | _ => false end
  | _, _ => false
  end.

Definition upgrade_direction (current latest : string) : string :=
  match parse current, parse latest with
  | Some current, Some latest =>
      match cmp_semver latest current with
      | Gt => "upgrade"
      | Lt => "downgrade; the registry answers older"
      | Eq => "reinstall"
      end
  | _, _ => "version change"
  end.

(** The order in which [generation_keep_names] ranks generations: tuples, a missing pre-release
    first. *)
Definition keep_rank (text : string) : SemVer :=
  default (mkSemVer 0 0 0 (Some "~unparseable")) (parse text).

Definition cmp_option_string (x y : option string) : comparison :=
  match x, y with
  | None, None => Eq
  | None, Some _ => Lt
  | Some _, None => Gt
  | Some x, Some y => String.compare x y
  end.

Definition cmp_rank (a b : SemVer) : comparison :=
  then_ (then_ (then_ (major a ?= major b)%N (minor a ?= minor b)%N) (patch a ?= patch b)%N) (cmp_option_string (pre a) (pre b)).

(** ** Names *)

Definition YGGHQ : string := "@ygghq/".

Definition expand_package (spec : string) : option (string * option string) :=
  match strip_prefix "@" spec with
  | Some rest =>
      match split_once "/" rest with
      | None => None
      | Some (scope_name, pin) =>
          if str_is_empty scope_name then None
          else
            let '(name, pin) := match split_once "@" pin with
                                | Some (base, ver) => (base, Some ver)
                                | None => (pin, None)
                                end in
            if str_is_empty name then None else Some ("@" ++ scope_name ++ "/" ++ name, pin)
      end
  | None =>
      match split_once "@" spec with
      | Some (name, ver) =>
          if str_is_empty name || contains name "/" then None else Some (YGGHQ ++ name, Some ver)
      | None => if str_is_empty spec || contains spec "/" then None else Some (YGGHQ ++ spec, None)
      end
  end.

(** [replace('/', "__")]. *)
Fixpoint slashes_doubled (s : string) : string :=
  match s with
  | "" => ""
  | String c s' => if Ascii.eqb c "/" then "__" ++ slashes_doubled s' else String c (slashes_doubled s')
  end.

Definition is_ascii_alphanumeric (a : ascii) : bool :=
  is_digit a || in_range 65 90 (byte_of a) || in_range 97 122 (byte_of a).

Definition key_char (a : ascii) : bool :=
  is_ascii_alphanumeric a || Ascii.eqb a "." || Ascii.eqb a "_" || Ascii.eqb a "-".

(** The map over characters: of a character of several bytes only the first is replaced, the others
    go. *)
Fixpoint key_chars (s : string) : string :=
  match s with
  | "" => ""
  | String c s' =>
      if key_char c then String c (key_chars s')
      else if in_range 128 191 (byte_of c) then key_chars s'
      else String "-" (key_chars s')
  end.

Definition package_storage_key (package : string) : string :=
  let package := trim package in
  key_chars (match strip_prefix YGGHQ package with
             | Some name => name
             | None => slashes_doubled (trim_start_char "@" package)
             end).

Definition platform_target (os machine : string) : option string :=
  if String.eqb (to_ascii_lowercase os) "linux" then
    if String.eqb machine "x86_64" then Some "linux-x64"
    else if String.eqb machine "aarch64" || String.eqb machine "arm64" then Some "linux-arm64"
    else None
  else None.

Definition CANONICAL_YGGTERM_RELEASE_REPO : string := "yggdrasilhq/yggterm".

(** [trim_end_matches(p)]. *)
Fixpoint trim_end_suffix (fuel : nat) (p s : string) : string :=
  match fuel with
  | O => s
  | S fuel' => match strip_suffix p s with Some s' => trim_end_suffix fuel' p s' | None => s end
  end.

Definition normalize_yggterm_release_repo (repo : string) : string :=
  let repo := trim_end_suffix (String.length repo) ".git" (trim repo) in
  let valid := match split_on "/" repo with
               | [owner; name] => negb (str_is_empty owner) && negb (str_is_empty name) && negb (contains_ws repo)
               | _ => false
               end in
  if String.eqb repo "fleet-deploy" || negb valid then CANONICAL_YGGTERM_RELEASE_REPO else repo.

(** *** Tarballs *)

Definition is_hex (a : ascii) : bool :=
  is_digit a || in_range 65 70 (byte_of a) || in_range 97 102 (byte_of a).

Definition parse_sha256 (text : string) : option string :=
  match split_whitespace text with
  | value :: _ =>
      if (String.length value =? 64)%nat && str_forallb is_hex value then Some (to_ascii_lowercase value) else None
  | [] => None
  end.

Record TarballSource := mkTarball { url : string; sha256 : option string }.

Definition parse_tarball_source (spec : string) : option TarballSource :=
  match strip_prefix "tarball:" spec with
  | None => None
  | Some raw =>
      let '(url, fragment) := match split_once "#" raw with Some (u, f) => (u, Some f) | None => (raw, None) end in
      if negb (starts_with url "https://" || starts_with url "http://") then None
      else match fragment with
           | None => Some (mkTarball url None)
           | Some value =>
               match strip_prefix "sha256=" value ≫= parse_sha256 with
               | Some sum => Some (mkTarball url (Some sum))
               | None => None
               end
           end
  end.

(** * Lemmas *)

Lemma cmp_pre_lt_trans x y z : cmp_pre x y = Lt -> cmp_pre y z = Lt -> cmp_pre x z = Lt.
Proof. destruct x, y, z; cbn; try done. apply compare_lt_trans_str. Qed.

Lemma cmp_pre_eq x y : cmp_pre x y = Eq <-> x = y.
Proof.
  destruct x as [x|], y as [y|]; cbn; try done. rewrite compare_eq_str. split; [by intros ->|by intros [= ->]].
Qed.

Lemma cmp_pre_antisym x y : cmp_pre y x = CompOpp (cmp_pre x y).
Proof. destruct x, y; cbn; try done. apply compare_antisym_str. Qed.

Lemma cmp_semver_spec a b :
  cmp_semver a b =
    then_ (major a ?= major b)%N (then_ (minor a ?= minor b)%N (then_ (patch a ?= patch b)%N (cmp_pre (pre a) (pre b)))).
Proof. unfold cmp_semver. by destruct (major a ?= major b)%N, (minor a ?= minor b)%N, (patch a ?= patch b)%N. Qed.

Lemma then_lt c d : then_ c d = Lt <-> c = Lt \/ (c = Eq /\ d = Lt).
Proof. destruct c; cbn; naive_solver. Qed.

Lemma then_eq c d : then_ c d = Eq <-> c = Eq /\ d = Eq.
Proof. destruct c; cbn; naive_solver. Qed.

Lemma then_opp c d : CompOpp (then_ c d) = then_ (CompOpp c) (CompOpp d).
Proof. by destruct c. Qed.

Lemma cmp_semver_eq a b : cmp_semver a b = Eq <-> a = b.
Proof.
  rewrite cmp_semver_spec, !then_eq, !N.compare_eq_iff, cmp_pre_eq. destruct a, b; cbn. naive_solver.
Qed.

Lemma cmp_semver_antisym a b : cmp_semver b a = CompOpp (cmp_semver a b).
Proof.
  rewrite !cmp_semver_spec, !then_opp, <- cmp_pre_antisym, (N.compare_antisym (major a)), (N.compare_antisym (minor a)),
    (N.compare_antisym (patch a)). done.
Qed.

Lemma cmp_semver_lt_trans a b c : cmp_semver a b = Lt -> cmp_semver b c = Lt -> cmp_semver a c = Lt.
Proof.
  rewrite !cmp_semver_spec, !then_lt, !N.compare_lt_iff, !N.compare_eq_iff.
  intros [?|(? & [?|(? & [?|(? & ?)])])] [?|(? & [?|(? & [?|(? & ?)])])]; try (by left; lia);
    right; (split; [lia|]); try (by left; lia); right; (split; [lia|]); try (by left; lia);
    right; (split; [lia|]). by eapply cmp_pre_lt_trans.
Qed.

(** ** Spelling a version *)

Definition core_text (v : SemVer) : string :=
  u64_to_string (major v) ++ "." ++ u64_to_string (minor v) ++ "." ++ u64_to_string (patch v).

Definition spell (v : SemVer) (build : option string) : string :=
  core_text v ++ match pre v with Some p => "-" ++ p | None => "" end
              ++ match build with Some b => "+" ++ b | None => "" end.

Lemma digits_free c s : is_digit c = false -> str_forallb is_digit s = true -> free_of c s = true.
Proof.
  intros Hc. apply str_forallb_impl. intros a Ha. apply negb_true_iff, Ascii.eqb_neq. intros ->. congruence.
Qed.

Lemma number_free c n : is_digit c = false -> free_of c (u64_to_string n) = true.
Proof. intros Hc. apply digits_free; [done|]. apply u64_to_string_digits. Qed.

Lemma free_of_app c s t : free_of c (s ++ t) = free_of c s && free_of c t.
Proof. apply str_forallb_app. Qed.

Lemma core_free c v : is_digit c = false -> c <> "."%char -> free_of c (core_text v) = true.
Proof.
  intros Hc Hdot. unfold core_text. rewrite !free_of_app, !number_free by done.
  assert (free_of c "." = true) as ->; [|done].
  unfold free_of, str_forallb. rewrite andb_true_r. apply negb_true_iff, Ascii.eqb_neq. congruence.
Qed.

Lemma parse_core v :
  (major v <= u64_max)%N -> (minor v <= u64_max)%N -> (patch v <= u64_max)%N ->
  split_on "." (core_text v) = [u64_to_string (major v); u64_to_string (minor v); u64_to_string (patch v)].
Proof.
  intros. unfold core_text. cbn [append].
  rewrite split_on_app by by apply (number_free "."). cbn. rewrite split_on_app by by apply (number_free ".").
  by rewrite split_on_no_sep by by apply (number_free ".").
Qed.

Lemma parse_spelled v build :
  (major v <= u64_max)%N -> (minor v <= u64_max)%N -> (patch v <= u64_max)%N ->
  (forall p, pre v = Some p -> free_of "+" p = true) -> contains_ws (spell v build) = false ->
  parse (spell v build) = Some v.
Proof.
  intros H1 H2 H3 Hp Hws. unfold parse. rewrite trim_no_ws by done. clear Hws.
  set (front := core_text v ++ match pre v with Some p => "-" ++ p | None => "" end).
  assert (free_of "+" front = true) as Hfront.
  { unfold front. rewrite free_of_app, core_free by done. destruct (pre v) as [p|] eqn:E; [|done].
    rewrite free_of_app. by rewrite (Hp p eq_refl). }
  assert (spell v build = front ++ match build with Some b => "+" ++ b | None => "" end) as ->
    by (unfold spell, front; by rewrite string_app_assoc).
  assert ((match split_once "+" (front ++ match build with Some b => "+" ++ b | None => "" end) with
           | Some (base, _) => base | None => front ++ match build with Some b => "+" ++ b | None => "" end end) = front) as ->.
  { destruct build as [b|]; [change ("+" ++ b) with (String "+" b); by rewrite split_once_app|].
    by rewrite string_app_nil_r, split_once_None. }
  unfold front. destruct (pre v) as [p|] eqn:E.
  - change ("-" ++ p) with (String "-" p). rewrite split_once_app by by apply core_free.
    rewrite parse_core, !parse_u64_to_string by done. by destruct v; cbn in *; subst.
  - rewrite string_app_nil_r, split_once_None by by apply core_free.
    rewrite parse_core, !parse_u64_to_string by done. by destruct v; cbn in *; subst.
Qed.

(** ** Storage keys *)

Definition clean (a : ascii) : bool := is_ascii_alphanumeric a || Ascii.eqb a "." || Ascii.eqb a "-".

Lemma key_char_plain a : key_char a = true -> plain a = true.
Proof. by destruct a as [[] [] [] [] [] [] [] []]. Qed.

Lemma clean_key_char a : clean a = true -> key_char a = true.
Proof. by destruct a as [[] [] [] [] [] [] [] []]. Qed.

Lemma clean_free c s : clean c = false -> str_forallb clean s = true -> free_of c s = true.
Proof.
  intros Hc. apply str_forallb_impl. intros a Ha. apply negb_true_iff, Ascii.eqb_neq. intros ->. congruence.
Qed.

Lemma key_chars_id s : str_forallb key_char s = true -> key_chars s = s.
Proof. induction s as [|a s IH]; cbn; [done|]. intros [Ha Hs]%andb_true_iff. by rewrite Ha, IH. Qed.

Lemma slashes_clean s t : str_forallb clean s = true -> slashes_doubled (s ++ t) = s ++ slashes_doubled t.
Proof.
  induction s as [|a s IH]; cbn; [done|]. intros [Ha Hs]%andb_true_iff. rewrite IH by done.
  destruct (Ascii.eqb_spec a "/") as [->|]; [done|done].
Qed.

Definition scoped (scope name : string) : string := "@" ++ scope ++ "/" ++ name.

Lemma key_of_scoped scope name :
  str_forallb clean scope = true -> str_forallb clean name = true ->
  package_storage_key (scoped scope name) = if String.eqb scope "ygghq" then name else scope ++ "__" ++ name.
Proof.
  intros Hs Hn.
  assert (str_forallb key_char scope = true /\ str_forallb key_char name = true) as [Hs' Hn']
    by (split; (eapply str_forallb_impl; [apply clean_key_char|done])).
  unfold package_storage_key, scoped. rewrite trim_plain.
  2: { rewrite !str_forallb_app. cbn. rewrite !(str_forallb_impl key_char plain) by eauto using key_char_plain. done. }
  destruct (String.eqb_spec scope "ygghq") as [->|Hne].
  - change ("@" ++ "ygghq" ++ "/" ++ name) with (YGGHQ ++ name). rewrite strip_prefix_app. by apply key_chars_id.
  - destruct (strip_prefix YGGHQ ("@" ++ scope ++ "/" ++ name)) as [r|] eqn:E.
    + apply strip_prefix_Some in E. injection E as E. exfalso. apply Hne.
      pose proof (split_once_app "/" scope name (clean_free "/" scope eq_refl Hs)) as E1.
      change (scope ++ "/" ++ name = "ygghq" ++ String "/" r) in E. change ("/" ++ name) with (String "/" name) in E.
      rewrite E, (split_once_app "/" "ygghq" r eq_refl) in E1. by injection E1.
    + assert (trim_start_char "@" ("@" ++ scope ++ "/" ++ name) = scope ++ "/" ++ name) as ->.
      { cbn. destruct scope as [|a scope]; [done|]. cbn in *. apply andb_true_iff in Hs as [Ha _].
        destruct (Ascii.eqb_spec a "@") as [->|]; done. }
      rewrite slashes_clean by done. change (slashes_doubled ("/" ++ name)) with ("__" ++ slashes_doubled name).
      rewrite <- (string_app_nil_r name) at 1. rewrite slashes_clean by done. cbn [slashes_doubled].
      rewrite string_app_nil_r. apply key_chars_id. rewrite !str_forallb_app, Hs', Hn'. done.
Qed.

(** * Properties *)

(** Versions are read and ordered.  A version spelled with its three numbers, an optional
    pre-release and any build metadata is read back exactly, the metadata ignored; the comparison of
    what is read is a total order, equal only on equal versions; a pre-release is below its own
    release, and the numbers come first. *)
Theorem versions_are_read_and_ordered (a b c : SemVer) (build : option string) :
  ((major a <= u64_max)%N -> (minor a <= u64_max)%N -> (patch a <= u64_max)%N ->
   (forall p, pre a = Some p -> free_of "+" p = true) -> contains_ws (spell a build) = false ->
   parse (spell a build) = Some a) /\
  (cmp_semver a b = Eq <-> a = b) /\
  cmp_semver b a = CompOpp (cmp_semver a b) /\
  (cmp_semver a b = Lt -> cmp_semver b c = Lt -> cmp_semver a c = Lt) /\
  (forall p, cmp_semver (mkSemVer (major a) (minor a) (patch a) (Some p)) (mkSemVer (major a) (minor a) (patch a) None) = Lt) /\
  ((major a < major b)%N -> cmp_semver a b = Lt).
Proof.
  split_and!.
  - apply parse_spelled.
  - apply cmp_semver_eq.
  - apply cmp_semver_antisym.
  - apply cmp_semver_lt_trans.
  - intros p. rewrite cmp_semver_spec. cbn. by rewrite !N.compare_refl.
  - intros Hlt. rewrite cmp_semver_spec. by rewrite (proj2 (N.compare_lt_iff _ _) Hlt).
Qed.

(** Two packages never share a place in the store, as long as their scopes and names are written
    without underscores: the key of a package of the own scope is its name, the key of any other
    spells its scope too, and equal keys mean the same package. *)
Theorem storage_keys_are_apart s1 n1 s2 n2 :
  str_forallb clean s1 = true -> str_forallb clean n1 = true ->
  str_forallb clean s2 = true -> str_forallb clean n2 = true ->
  package_storage_key (scoped s1 n1) = package_storage_key (scoped s2 n2) -> s1 = s2 /\ n1 = n2.
Proof.
  intros Hs1 Hn1 Hs2 Hn2. rewrite !key_of_scoped by done.
  assert (forall s n m, str_forallb clean m = true -> m = s ++ "__" ++ n -> False) as Hno.
  { intros s n m Hm ->. rewrite !str_forallb_app in Hm. cbn in Hm. by rewrite andb_false_r in Hm. }
  destruct (String.eqb_spec s1 "ygghq") as [->|H1], (String.eqb_spec s2 "ygghq") as [->|H2].
  - done.
  - intros He. by destruct (Hno s2 n2 n1).
  - intros He. symmetry in He. by destruct (Hno s1 n1 n2).
  - intros He. pose proof (split_once_app "_" s1 (String "_" n1) (clean_free "_" s1 eq_refl Hs1)) as E1.
    change (s1 ++ String "_" (String "_" n1)) with (s1 ++ "__" ++ n1) in E1. rewrite He in E1.
    change (s2 ++ "__" ++ n2) with (s2 ++ String "_" (String "_" n2)) in E1.
    rewrite (split_once_app "_" s2 _ (clean_free "_" s2 eq_refl Hs2)) in E1. by injection E1.
Qed.

Lemma storage_keys_are_apart_witness :
  str_forallb clean "a.b" = true /\
  (package_storage_key (scoped "a.b" "tool") = package_storage_key (scoped "a.b" "tool") -> "a.b" = "a.b" /\ "tool" = "tool").
Proof. split; [reflexivity|]. by apply (storage_keys_are_apart "a.b" "tool" "a.b" "tool"). Defined.

(** The keys are called safe and free of collisions; with underscores they collide, and the key of a
    name of dots is a path out of the store. *)
Example storage_keys_collide :
  package_storage_key "@a/b__c" = package_storage_key "@a__b/c" /\
  package_storage_key "@vendor/tool" = package_storage_key "@ygghq/vendor__tool" /\
  package_storage_key "@ygghq/.." = "..".
Proof. by vm_compute. Qed.

(** A binary of another version passes the truth check when its version begins or ends with the
    expected one. *)
Example another_version_passes :
  version_answer_matches_identity "ychrome 0.2.10" "0.2.1" = true /\
  version_answer_matches_identity "ychrome 10.2.1" "0.2.1" = true.
Proof. by vm_compute. Qed.

(** The retention ranks a pre-release above its release, the comparison below it. *)
Example ranks_disagree :
  cmp_rank (keep_rank "1.0.0-rc.1") (keep_rank "1.0.0") = Gt /\
  cmp_semver (keep_rank "1.0.0-rc.1") (keep_rank "1.0.0") = Lt.
Proof. by vm_compute. Qed.

Example answer_is_read : version_from_answer "yedit v0.4.2 (linux)" = Some "0.4.2".
Proof. by vm_compute. Qed.

Example packages_expand :
  expand_package "ychrome@0.2.1" = Some ("@ygghq/ychrome", Some "0.2.1") /\
  expand_package "@a/tool@1.0.0" = Some ("@a/tool", Some "1.0.0") /\ expand_package "a/tool" = None.
Proof. by vm_compute. Qed.
