(* ===== verification/YnpmStore.v ===== *)
(** * The package tool: what is installed, kept and published

    src/crates/ynpm/src/main.rs: the state file's packages, the generations on disk and the published
    links, with the operations that change them: [install_one_at_impl] with its three channels
    (native, [install_npm_package], [install_prebuilt_tarball]), [import_generation],
    [install_dev_bins], the convergence of links, [verb_rollback], [verb_prod], [verb_remove], one
    turn of [verb_upgrade], [sweep_generations] and [auto_sweep_if_due].

    The registry, the archives and the answers of binaries are parameters; an error is [None] and
    changes nothing, since input and output do not fail.  Packages declare no menu entries (their
    "integration" is absent); traces, the scratch directory and its headroom are left out. *)
From S2P Require Import Prelude RustStr AgentRegistry YnpmVersion.
From Stdlib Require Import ZifyBool ZifyN.
#[local] Open Scope N_scope.
#[local] Open Scope string_scope.

(** ** The store *)

(** What is read of it; the rest is a record of where the build came from. *)
Record DevMarker := mkDev {
  watch : option string; supersedes : option string; supersedes_fingerprint : option string; marker_generation : option string }.

Record Package := mkPackage {
  package_name : option string; current : string; versions : list string; bins : gmap string string;
  external_prev : option string; destination : option string; dev : option DevMarker; dev_generation : option string;
  channel : option string; source : option string }.

(** The files of one generation: under [bin/] (a directory that is there when it has files), beside it,
    and the tables of the packages whose [lib/node_modules/<package>/package.json] can be read. *)
Record Generation := mkGeneration {
  nested : gset string; flat : gset string; documents : gmap string (gmap string string) }.

(** What stands at a place binaries are published to: a link into a generation, a link to another such
    place, a copy from a generation, or a file (or a link) ynpm did not write. *)
Inductive Published :=
| Link (key generation : string) (in_bin : bool) (bin : string)
| Via (directory bin : string)
| CopyOf (key generation bin : string)
| Foreign (symlink : bool).

#[export] Instance Published_eq_dec : EqDecision Published.
Proof. solve_decision. Defined.

Record Disk := mkDisk {
  packages : gmap string Package; last_auto_sweep : option N;
  generations : gmap (string * string) Generation; published : gmap (string * string) Published }.

Definition with_packages (f : gmap string Package -> gmap string Package) (d : Disk) : Disk :=
  mkDisk (f (packages d)) (last_auto_sweep d) (generations d) (published d).
Definition with_generations (f : gmap (string * string) Generation -> gmap (string * string) Generation) (d : Disk) : Disk :=
  mkDisk (packages d) (last_auto_sweep d) (f (generations d)) (published d).
Definition with_published (f : gmap (string * string) Published -> gmap (string * string) Published) (d : Disk) : Disk :=
  mkDisk (packages d) (last_auto_sweep d) (generations d) (f (published d)).

(** [generation_dir(key, generation)], empty if there is none. *)
Definition generation_dir (d : Disk) (key generation : string) : Generation :=
  default (mkGeneration ∅ ∅ ∅) (generations d !! (key, generation)).

(** [generation_binary(..)], when it is a file: whether it is under [bin/]. *)
Definition generation_binary (g : Generation) (bin : string) : option bool :=
  if bool_decide (bin ∈ nested g) then Some true
  else if bool_decide (bin ∈ flat g) then Some false else None.

(** The keys in the order of the table. *)
Definition keys_of (st : gmap string Package) : list string := stable_sort String.leb (map fst (map_to_list st)).

(** [name.rsplit('/').next()]. *)
Definition last_segment (s : string) : string := match rsplit_once "/" s with Some (_, x) => x | None => s end.

(** The rank of an entry for a package, in [find_package_key]. *)
Definition key_rank (package key : string) (p : Package) : option nat :=
  if bool_decide (package_name p = Some package) then Some 0%nat
  else if String.eqb key (package_storage_key package) then Some 1%nat
  else if bool_decide (strip_prefix YGGHQ package = Some key) then Some 2%nat
  else if negb (is_Some_b (package_name p)) && String.eqb (last_segment package) key then Some 3%nat
  else None.

Definition first_of_rank (st : gmap string Package) (package : string) (rank : nat) : option string :=
  List.find (fun key => match st !! key with
                        | Some p => bool_decide (key_rank package key p = Some rank)
                        | None => false
                        end) (keys_of st).

Definition find_package_key (st : gmap string Package) (package : string) : option string :=
  match first_of_rank st package 0 with
  | Some key => Some key
  | None => match first_of_rank st package 1 with
            | Some key => Some key
            | None => match first_of_rank st package 2 with
                      | Some key => Some key
                      | None => first_of_rank st package 3
                      end
            end
  end.

Definition key_for (st : gmap string Package) (package : string) : string :=
  default (package_storage_key package) (find_package_key st package).

(** [versions.last() != Some(version)] guards the push. *)
Definition push_version (version : string) (vs : list string) : list string :=
  if bool_decide (last vs = Some version) then vs else (vs ++ [version])%list.

(** The entry a production install leaves, in each of the four places that write one. *)
Definition installed (old : option Package) (package version : string) (bins : gmap string string)
    (external : option string) (dest channel source : string) : Package :=
  mkPackage (Some package) version (push_version version (match old with Some p => versions p | None => [] end)) bins
    (match old with Some p => external_prev p | None => external end) (Some dest) None None (Some channel) (Some source).

(** Every binary is found under [bin/]. *)
Definition in_bin_table (table : gset string) : gmap string string := set_to_map (fun name => (name, "bin/" ++ name)) table.

Definition in_order (table : gset string) : list string := stable_sort String.leb (elements table).

(** [publish_link], or a copy and a rename: the place holds [what], whatever it held. *)
Definition publish (dest : string) (what : string -> Published) (bins : list string)
    (places : gmap (string * string) Published) : gmap (string * string) Published :=
  fold_left (fun places bin => <[(dest, bin) := what bin]> places) bins places.

(** [fs::read_link(..).is_ok()]. *)
Definition is_link (place : Published) : bool :=
  match place with Link _ _ _ _ | Via _ _ | Foreign true => true | CopyOf _ _ _ | Foreign false => false end.

(** No session kind has a tag of its own at this commit. *)
Definition npm_dist_tag (k : SessionKind) : option string := None.

Definition integrated_npm_dist_tag (package : string) : option string :=
  match List.find (fun d => match install d with Npm name => String.eqb name package | _ => false end) AGENT_CLIS with
  | Some d => npm_dist_tag (kind d)
  | None => None
  end.

Definition is_integrated_npm_package (package : string) : bool :=
  existsb (fun d => match install d with Npm name => String.eqb name package | _ => false end) AGENT_CLIS.

Definition descriptor_package (d : AgentCliDescriptor) : string :=
  match install d with Npm package | Uv package => package | VendorScript url => url | Manual => "manual" end.

Definition package_identity (key : string) (p : Package) : string :=
  match package_name p with
  | Some package => package
  | None => match List.find (fun d => String.eqb (slug d) key) AGENT_CLIS with
            | Some d => descriptor_package d
            | None => YGGHQ ++ key
            end
  end.

Lemma find_first {A} (f : A -> bool) l x :
  List.find f l = Some x -> exists l1 l2, l = (l1 ++ x :: l2)%list /\ forall y, y ∈ l1 -> f y = false.
Proof.
  induction l as [|y l IH]; cbn; [done|]. destruct (f y) eqn:E.
  - intros [= ->]. exists [], l. split; [done|]. by intros ? ?%elem_of_nil.
  - intros (l1 & l2 & -> & Hl1)%IH. exists (y :: l1), l2. split; [done|]. intros z [->|Hz]%elem_of_cons; auto.
Qed.

Lemma find_skip {A} (f : A -> bool) l1 l2 : (forall x, x ∈ l1 -> f x = false) -> List.find f (l1 ++ l2) = List.find f l2.
Proof.
  induction l1 as [|y l1 IH]; cbn; intros Hf; [done|]. rewrite (Hf y) by apply list_elem_of_here.
  apply IH. intros x Hx. apply Hf. by apply list_elem_of_further.
Qed.

(** The order of retention is a total preorder. *)
Lemma cmp_option_eq x y : cmp_option_string x y = Eq <-> x = y.
Proof. destruct x as [x|], y as [y|]; cbn; try done. rewrite compare_eq_str. split; [by intros ->|by intros [= ->]]. Qed.

Lemma cmp_option_antisym x y : cmp_option_string y x = CompOpp (cmp_option_string x y).
Proof. destruct x, y; cbn; try done. apply compare_antisym_str. Qed.

Lemma cmp_option_lt_trans x y z : cmp_option_string x y = Lt -> cmp_option_string y z = Lt -> cmp_option_string x z = Lt.
Proof. destruct x, y, z; cbn; try done. apply compare_lt_trans_str. Qed.

Lemma cmp_rank_spec a b :
  cmp_rank a b = then_ (major a ?= major b)%N (then_ (minor a ?= minor b)%N (then_ (patch a ?= patch b)%N (cmp_option_string (pre a) (pre b)))).
Proof. unfold cmp_rank. by destruct (major a ?= major b)%N, (minor a ?= minor b)%N, (patch a ?= patch b)%N. Qed.

Lemma cmp_rank_eq a b : cmp_rank a b = Eq -> a = b.
Proof. rewrite cmp_rank_spec, !then_eq, !N.compare_eq_iff, cmp_option_eq. destruct a, b; cbn. naive_solver. Qed.

Lemma cmp_rank_antisym a b : cmp_rank b a = CompOpp (cmp_rank a b).
Proof.
  rewrite !cmp_rank_spec, !then_opp, <- cmp_option_antisym, (N.compare_antisym (major a)), (N.compare_antisym (minor a)),
    (N.compare_antisym (patch a)). done.
Qed.

Lemma cmp_rank_lt_trans a b c : cmp_rank a b = Lt -> cmp_rank b c = Lt -> cmp_rank a c = Lt.
Proof.
  rewrite !cmp_rank_spec, !then_lt, !N.compare_lt_iff, !N.compare_eq_iff.
  intros [?|(? & [?|(? & [?|(? & ?)])])] [?|(? & [?|(? & [?|(? & ?)])])]; try (by left; lia);
    right; (split; [lia|]); try (by left; lia); right; (split; [lia|]); try (by left; lia);
    right; (split; [lia|]). by eapply cmp_option_lt_trans.
Qed.

Definition rank_leb (a b : string) : bool :=
  match cmp_rank (keep_rank b) (keep_rank a) with Gt => false | _ => true end.

#[export] Instance rank_order : BoolOrder rank_leb.
Proof.
  unfold rank_leb. split.
  - intros a b. rewrite (cmp_rank_antisym (keep_rank b)). destruct (cmp_rank (keep_rank b) (keep_rank a)); auto.
  - intros a b c. destruct (cmp_rank (keep_rank b) (keep_rank a)) eqn:E1; [| |done];
      destruct (cmp_rank (keep_rank c) (keep_rank b)) eqn:E2; try done; intros _ _.
    + apply cmp_rank_eq in E2. by rewrite E2, E1.
    + apply cmp_rank_eq in E1. by rewrite <- E1, E2.
    + apply cmp_rank_eq in E2. by rewrite E2, E1.
    + by rewrite (cmp_rank_lt_trans _ _ _ E2 E1).
Qed.

Lemma kept_NoDup {A} (f : A -> bool) (l : list A) : NoDup l -> NoDup (List.filter f l).
Proof. rewrite !NoDup_ListNoDup. apply List.NoDup_filter. Qed.

(** What is not among the first [keep] of a ranking has [keep] others above it. *)
Lemma top_ranked l keep x :
  NoDup l -> x ∈ l -> x ∉ take keep (stable_sort rank_leb l) ->
  let top := take keep (stable_sort rank_leb l) in
  NoDup top /\ length top = keep /\ forall y, y ∈ top -> y <> x /\ rank_leb y x = true /\ y ∈ l.
Proof.
  intros Hnd Hx Hnot top. pose proof (stable_sort_sorted rank_leb l) as Hsorted.
  rewrite <- (take_drop keep (stable_sort rank_leb l)) in Hsorted. fold top in Hsorted, Hnot.
  assert (x ∈ drop keep (stable_sort rank_leb l)) as Hdrop.
  { assert (x ∈ stable_sort rank_leb l) as Hin by by apply elem_of_stable_sort.
    rewrite <- (take_drop keep (stable_sort rank_leb l)) in Hin. by apply elem_of_app in Hin as [?|?]. }
  split; [|split].
  - apply (sublist_NoDup _ (stable_sort rank_leb l)); [by rewrite stable_sort_perm|apply sublist_take].
  - apply length_take_le. destruct (drop keep _) as [|? ?] eqn:E; [by apply elem_of_nil in Hdrop|].
    apply (f_equal length) in E. rewrite length_drop in E. cbn in E. lia.
  - intros y Hy. split; [by intros ->|]. split; [by apply (StronglySorted_app_1_elem_of _ _ _ _ _ Hsorted)|].
    apply (elem_of_stable_sort rank_leb). apply elem_of_take in Hy as (i & Hi & _). by eapply list_elem_of_lookup_2.
Qed.

Section Store.
(** [absolute_path], [paths.dest()], whether [YNPM_DEST] is set, the directory the integrated programs
    are launched from ([paths.root().join("bin")]) and the two other directories a sweep looks into. *)
Context (absolute : string -> string) (own_dest : string) (dest_is_set : bool) (cli_dir local_bin yggterm_bin : string).

Definition package_destination (p : Package) : string :=
  match destination p with
  | Some value => if str_is_empty (trim value) then own_dest else absolute value
  | None => own_dest
  end.

Definition dest_of (destination : option string) : string :=
  match destination with Some d => absolute d | None => own_dest end.

(** ** The registry *)

Record Manifest := mkManifest { manifest_version : string; optional_dependencies : list string; fingerprint : option string }.

(** What a channel delivers before anything is published: its files, and what its binaries answer to
    [--version]. *)
Record Stage := mkStage { tree : Generation; says : gmap string string }.

(** A platform package, or a release archive: its name, its version, its binary table, and the
    binaries that are there with what they answer. *)
Record Release := mkRelease {
  release_name : string; release_version : string; table : gmap string string; release_says : gmap string string }.

(** The registry, npm's staging of a version, the content of a platform package, the
    bytes at an address with their hash and what they unpack to, a peer's archive; what a file answers; the platform of this host;
    and what is answered at a published place and by a binary of a generation. *)
Context (fetch_manifest : string -> option string -> option Manifest)
        (run_npm_install_package : string -> string -> option Stage)
        (platform_package : string -> string -> option Release)
        (curl : string -> option string) (sha256_file : string -> string) (unpack : string -> option Release)
        (peer_archive : string -> option Stage)
        (run_file : string -> option string)
        (platform : option string)
        (runs : Disk -> string -> string -> option string)
        (generation_runs : Disk -> string -> string -> string -> option string).

Definition fetch_package_manifest (package : string) (pin : option string) : option Manifest :=
  fetch_manifest package (match pin with Some p => Some p | None => integrated_npm_dist_tag package end).

(** A file that was there before: the version it answers. *)
Definition external (d : Disk) (dest : string) (bins : gset string) : option string :=
  match in_order bins with
  | bin :: _ => if is_Some_b (published d !! (dest, bin)) then runs d dest bin ≫= version_from_answer else None
  | [] => None
  end.

Record InstallOutcome := mkOutcome { name : string; version : string; previous : option string }.

(** ** Retention *)

Definition is_dev_name (name : string) : bool := starts_with name "dev-" || String.eqb name "dev".

Definition generation_keep_names (p : option Package) (entries : list string) (keep : nat) : gset string :=
  let pinned := match p with
                | Some p => {[current p]} ∪ match dev_generation p with Some g => {[g]} | None => ∅ end
                            ∪ (if is_Some_b (dev p) then {["dev"]} else ∅)
                | None => ∅
                end in
  pinned ∪ list_to_set (take keep (stable_sort rank_leb (List.filter (fun name => negb (is_dev_name name)) entries))).

(** The generations of a key; the order of a directory counts among names of equal rank only. *)
Definition entries_of (d : Disk) (key : string) : list string :=
  stable_sort String.leb (map snd (List.filter (fun k => String.eqb k.1 key) (map fst (map_to_list (generations d))))).

(** What a place leads to, for [fs::canonicalize]; a place that leads to another place leads, there, to
    a generation. *)
Definition leads_to (d : Disk) (place : Published) : option (string * string) :=
  match place with
  | Link key generation _ _ => Some (key, generation)
  | Via directory bin => match published d !! (directory, bin) with
                         | Some (Link key generation _ _) => Some (key, generation)
                         | _ => None
                         end
  | CopyOf _ _ _ | Foreign _ => None
  end.

Definition scan_roots (d : Disk) : list string :=
  [cli_dir; local_bin; yggterm_bin] ++ omap (fun kp => destination kp.2) (map_to_list (packages d)).

(** The links of the scanned directories; a candidate named in the text of the state file or of a menu
    is among the [guarded]. *)
Definition path_is_referenced (d : Disk) (candidate : string * string) : bool :=
  existsb (fun place => bool_decide (place.1.1 ∈ scan_roots d) && bool_decide (leads_to d place.2 = Some candidate))
    (map_to_list (published d)).

(** [live]: a process runs from it. [guarded]: it is of this process, of the last half hour, of unknown age,
    or named in a text. *)
Definition retention_guard_blocks (live guarded : string * string -> bool) (d : Disk) (candidate : string * string) : bool :=
  live candidate || guarded candidate || path_is_referenced d candidate.

Definition sweep_generations (live guarded : string * string -> bool) (keep : nat) (force : bool) (d : Disk) : Disk :=
  let spared kg := bool_decide (kg.2 ∈ generation_keep_names (packages d !! kg.1) (entries_of d kg.1) keep)
                   || (if force then live kg else retention_guard_blocks live guarded d kg) in
  with_generations (filter (fun kg => spared kg.1 = true)) d.

Definition SWEEP_DEFAULT_KEEP : nat := 2.
Definition AUTO_SWEEP_MIN_INTERVAL_MS : N := 6 * 60 * 60 * 1000.

(** The clock, and what the processes and the texts hold, at one invocation; [running_under key]: a
    process runs from somewhere below the generations of the key. *)
Record Moment := mkMoment { now_ms : N; pid : N; live : string * string -> bool; guarded : string * string -> bool;
                         running_under : string -> bool }.

Definition auto_sweep_if_due (m : Moment) (d : Disk) : Disk :=
  let due := match last_auto_sweep d with
             | Some stamp => negb (now_ms m - stamp <? AUTO_SWEEP_MIN_INTERVAL_MS)%N
             | None => true
             end in
  if due then
    let d := sweep_generations (live m) (guarded m) SWEEP_DEFAULT_KEEP false d in
    mkDisk (packages d) (Some (now_ms m)) (generations d) (published d)
  else d.

(** ** Links of integrated programs *)

(** The first entry of the table, in its order, that answers. *)
Definition find_map_packages {A} (f : string -> Package -> option A) (st : gmap string Package) : option A :=
  head (omap (fun key => st !! key ≫= f key) (keys_of st)).

Definition serves_cli (bin : string) (key : string) (p : Package) : option string :=
  if negb (is_Some_b (dev p)) && is_Some_b (bins p !! bin) && bool_decide (destination p = Some cli_dir)
  then Some (current p) else None.

Definition converge_cli_links_to_dev (d : Disk) (version dest : string) (bins : gmap string string) : Disk :=
  if String.eqb cli_dir dest then d
  else match parse version with
       | None => d
       | Some dev_semver =>
           fold_left (fun d bin =>
             match published d !! (cli_dir, bin) with
             | Some place =>
                 if negb (is_link place) || bool_decide (place = Via dest bin) then d
                 else match find_map_packages (serves_cli bin) (packages d) ≫= parse with
                      | Some cli_semver =>
                          match cmp_semver dev_semver cli_semver with
                          | Gt => with_published (<[(cli_dir, bin) := Via dest bin]>) d
                          | _ => d
                          end
                      | None => d
                      end
             | None => d
             end) (in_order (dom bins)) d
       end.

Definition or_else {A} (x y : option A) : option A := match x with Some _ => x | None => y end.

Definition serves_dev (bin : string) (key : string) (p : Package) : option (SemVer * (string * string)) :=
  match dev p with
  | Some marker =>
      if is_Some_b (bins p !! bin) then
        match parse (current p), or_else (dev_generation p) (marker_generation marker) with
        | Some dev_semver, Some generation => Some (dev_semver, (key, generation))
        | _, _ => None
        end
      else None
  | None => None
  end.

Definition converge_cli_links_to_newer_dev (d : Disk) (bins : gmap string string) (npm_version : string) : Disk :=
  match parse npm_version with
  | None => d
  | Some npm_semver =>
      fold_left (fun d bin =>
        match find_map_packages (serves_dev bin) (packages d) with
        | Some (dev_semver, (key, generation)) =>
            match cmp_semver dev_semver npm_semver, generation_binary (generation_dir d key generation) bin with
            | Gt, Some in_bin => with_published (<[(cli_dir, bin) := Link key generation in_bin bin]>) d
            | _, _ => d
            end
        | None => d
        end) (in_order (dom bins)) d
  end.

(** ** The three channels of production *)

Definition record_install (key package version : string) (bins : gmap string string) (external : option string)
    (dest channel source : string) (d : Disk) : Disk :=
  with_packages (fun st => <[key := installed (st !! key) package version bins external dest channel source]> st) d.

Definition put_generation (key version : string) (g : Generation) : Disk -> Disk := with_generations (<[(key, version) := g]>).

(** All the binaries are there and answer as they should. *)
Definition verified (ok : string -> bool) (bins : gset string) (says : gmap string string) : bool :=
  forallb (fun bin => match says !! bin with Some answer => ok answer | None => false end) (elements bins).

Definition install_npm_package (m : Moment) (d : Disk) (package : string) (pin dest : option string) : option (Disk * InstallOutcome) :=
  manifest ← fetch_package_manifest package pin;
  let version := manifest_version manifest in
  let dest := dest_of dest in
  let key := key_for (packages d) package in
  let existing := packages d !! key in
  let refused := match existing with
                 | Some p => negb (pin_is_explicit pin) && downgrade_refusal (current p) version
                 | None => false
                 end in
  let identical := match existing with
                   | Some p => String.eqb (current p) version && bool_decide (destination p = Some dest)
                               && forallb (fun bin => is_Some_b (runs d dest bin)) (elements (dom (bins p)))
                   | None => false
                   end in
  if refused then
    Some (d, mkOutcome package (match existing with Some p => current p | None => version end) None)
  else if identical then
    let d' := match existing with
              | Some p => if pin_is_explicit pin then d else converge_cli_links_to_newer_dev d (bins p) version
              | None => d
              end in
    Some (auto_sweep_if_due m d', mkOutcome package version (current <$> existing))
  else
    let old := generation_dir d key version in
    let reuse := match documents old !! package with
                 | Some table => negb (bool_decide (nested old = ∅))
                                 && forallb (fun bin => is_Some_b (generation_runs d key version bin)) (elements (dom table))
                 | None => false
                 end in
    stage ← (if reuse then Some (mkStage old (map_imap (fun bin _ => generation_runs d key version bin) (default ∅ (documents old !! package))))
             else run_npm_install_package package version);
    table ← documents (tree stage) !! package;
    if bool_decide (dom table ⊆ nested (tree stage)) && verified (fun answer => negb (str_is_empty (trim answer))) (dom table) (says stage)
    then
      let d1 := if reuse || negb (bool_decide (nested old = ∅)) then d else put_generation key version (tree stage) d in
      let d2 := record_install key package version (in_bin_table (dom table)) (external d dest (dom table)) dest "npm" ("npm:" ++ package) d1 in
      let d3 := with_published (publish dest (Link key version true) (in_order (dom table))) d2 in
      let d4 := if pin_is_explicit pin then d3 else converge_cli_links_to_newer_dev d3 (in_bin_table (dom table)) version in
      Some (auto_sweep_if_due m d4, mkOutcome package version (current <$> existing))
    else None.

(** The platform's own binaries, copied into place. *)
Definition install_native (d : Disk) (package name version platform_pkg : string) (dest : option string) : option (Disk * InstallOutcome) :=
  platform_manifest ← fetch_manifest platform_pkg (Some version);
  if negb (String.eqb (manifest_version platform_manifest) version) then None
  else
    release ← platform_package platform_pkg version;
    let bins := table release in
    if verified (fun answer => version_answer_matches_identity answer (release_version release)) (dom bins) (release_says release)
    then
      let dest := dest_of dest in
      let old := generation_dir d name version in
      let d1 := put_generation name version (mkGeneration (nested old) (flat old ∪ dom bins) (documents old)) d in
      let d2 := record_install name package version bins (external d dest (dom bins)) dest "npm" ("npm:" ++ package) d1 in
      Some (with_published (publish dest (CopyOf name version) (in_order (dom bins))) d2,
            mkOutcome name version (current <$> packages d !! name))
    else None.

Definition fetch_verified_tarball (spec : string) : option (string * TarballSource) :=
  source ← parse_tarball_source spec;
  archive ← curl (url source);
  expected ← (match sha256 source with
              | Some expected => Some expected
              | None => curl (url source ++ ".sha256") ≫= parse_sha256
              end);
  if String.eqb (sha256_file archive) expected then Some (archive, source) else None.

Definition install_prebuilt_tarball (d : Disk) (spec : string) (dest : option string) : option (Disk * InstallOutcome) :=
  '(archive, source) ← fetch_verified_tarball spec;
  release ← unpack archive;
  let package := release_name release in
  let version := release_version release in
  let bins := table release in
  let dest := dest_of dest in
  let key := package_storage_key package in
  if verified (fun answer => version_answer_matches_identity answer version) (dom bins) (release_says release)
  then
    let old := generation_dir d key version in
    let d1 := put_generation key version (mkGeneration (nested old ∪ dom bins) (flat old) (documents old)) d in
    let d2 := record_install key package version (in_bin_table (dom bins)) (external d dest (dom bins)) dest "tarball" ("tarball:" ++ url source) d1 in
    Some (with_published (publish dest (Link key version true) (in_order (dom bins))) d2,
          mkOutcome package version (current <$> packages d !! key))
  else None.

Definition install_one_at (m : Moment) (d : Disk) (spec : string) (dest : option string) : option (Disk * InstallOutcome) :=
  if starts_with spec "tarball:" then install_prebuilt_tarball d spec dest
  else
    '(pkg, pin) ← expand_package spec;
    match strip_prefix YGGHQ pkg with
    | None => install_npm_package m d pkg pin dest
    | Some name =>
        manifest ← fetch_manifest pkg pin;
        match platform with
        | None => if existsb (fun dependency => starts_with dependency (pkg ++ "-")) (optional_dependencies manifest)
                  then None else install_npm_package m d pkg pin dest
        | Some platform =>
            let platform_pkg := pkg ++ "-" ++ platform in
            if existsb (String.eqb platform_pkg) (optional_dependencies manifest)
            then install_native d pkg name (manifest_version manifest) platform_pkg dest
            else install_npm_package m d pkg pin dest
        end
    end.

(** A generation brought from a peer. *)
Definition import_generation (d : Disk) (package version archive : string) (bins : list string) (dest : option string) : option Disk :=
  let key := package_storage_key package in
  stage ← peer_archive archive;
  if negb (forallb (fun bin => is_Some_b (generation_binary (tree stage) bin) && is_Some_b (says stage !! bin)) bins) then None
  else if (length bins =? 0)%nat then None
  else
    let d1 := match generations d !! (key, version) with
              | Some _ => d
              | None => put_generation key version (tree stage) d
              end in
    let dest := dest_of dest in
    let d2 := record_install key package version (in_bin_table (list_to_set bins)) None dest "npm" ("peer:" ++ package) d1 in
    let link bin := match generation_binary (generation_dir d1 key version) bin with
                    | Some in_bin => Link key version in_bin bin
                    | None => Link key version false bin
                    end in
    Some (with_published (publish dest link bins) d2).

(** ** The development channel *)

Definition default_dev_destination (package : string) : string :=
  if dest_is_set then own_dest else if is_integrated_npm_package package then cli_dir else own_dest.

Definition dev_generation_name (m : Moment) : string := "dev-" ++ u64_to_string (now_ms m) ++ "-" ++ u64_to_string (pid m).

Definition install_dev_bins (m : Moment) (d : Disk) (package : string) (artifacts : gmap string string)
    (expected_version watch dest : option string) : option Disk :=
  let package := if starts_with package "@" then package else YGGHQ ++ package in
  let says : gmap string string := omap run_file artifacts in
  let ok answer := match expected_version with
                   | Some expected => version_answer_matches_identity answer expected
                   | None => true
                   end in
  if negb (verified ok (dom artifacts) says) then None
  else
    let dest := match dest with Some dest => absolute dest | None => default_dev_destination package end in
    let observed := (head (in_order (dom artifacts)) ≫= (fun bin : string => says !! bin)) ≫= version_from_answer in
    let state_version := default "0.0.0" (or_else expected_version observed) in
    let key := key_for (packages d) package in
    let existing := packages d !! key in
    let watch_manifest := watch ≫= (fun package => fetch_package_manifest package None) in
    let name := dev_generation_name m in
    let old := generation_dir d key name in
    let table := in_bin_table (dom artifacts) in
    let marker := mkDev watch (or_else expected_version (current <$> existing)) (watch_manifest ≫= fingerprint) (Some name) in
    let entry := mkPackage (Some package) state_version (match existing with Some p => versions p | None => [] end) table
                   (existing ≫= external_prev) (Some dest) (Some marker) (Some name) (Some "dev") (Some ("dev:" ++ package)) in
    let d1 := put_generation key name (mkGeneration (nested old ∪ dom artifacts) (flat old) (documents old)) d in
    let d2 := with_packages (<[key := entry]>) d1 in
    let d3 := with_published (publish dest (Link key name true) (in_order (dom artifacts))) d2 in
    Some (converge_cli_links_to_dev d3 state_version dest table).

(** ** Going back *)

Definition whole (d : Disk) (key : string) (bins : gmap string string) (version : string) : bool :=
  forallb (fun bin => is_Some_b (generation_binary (generation_dir d key version) bin)) (elements (dom bins)).

Definition rollback_target (d : Disk) (key : string) (p : Package) : option string :=
  match List.find (whole d key (bins p)) (rev (versions p)) with
  | Some version => if is_Some_b (dev p) || negb (String.eqb version (current p)) then Some version else None
  | None => None
  end.

Definition rolled_back (p : Package) (target : string) : Package :=
  mkPackage (package_name p) target (versions p) (bins p) (external_prev p) (destination p) None (dev_generation p)
    (Some "npm") (source p).

Definition verb_rollback (d : Disk) (spec : string) : option Disk :=
  '(pkg, _) ← expand_package spec;
  key ← find_package_key (packages d) pkg;
  p ← packages d !! key;
  target ← rollback_target d key p;
  let link bin := match generation_binary (generation_dir d key target) bin with
                  | Some in_bin => Link key target in_bin bin
                  | None => Link key target false bin
                  end in
  Some (with_packages (<[key := rolled_back p target]>)
          (with_published (publish (package_destination p) link (in_order (dom (bins p)))) d)).

Definition verb_prod (m : Moment) (d : Disk) (spec : string) : option Disk :=
  '(pkg, _) ← expand_package spec;
  key ← find_package_key (packages d) pkg;
  p ← packages d !! key;
  if is_Some_b (dev p) then fst <$> install_one_at m d pkg (Some (package_destination p)) else Some d.

Definition another_package_owns_binary (st : gmap string Package) (excluded dest bin : string) : bool :=
  existsb (fun kp => negb (String.eqb kp.1 excluded) && String.eqb (package_destination kp.2) dest && is_Some_b (bins kp.2 !! bin))
    (map_to_list st).

Definition verb_remove (m : Moment) (d : Disk) (spec : string) : option Disk :=
  '(pkg, _) ← expand_package spec;
  key ← find_package_key (packages d) pkg;
  p ← packages d !! key;
  if running_under m key then None
  else
    let st := delete key (packages d) in
    let dest := package_destination p in
    let owned place := negb (String.eqb place.1 dest) || negb (is_Some_b (bins p !! place.2))
                       || another_package_owns_binary st key dest place.2 in
    Some (with_packages (fun _ => st)
            (with_published (filter (fun place => owned place.1 = true))
               (with_generations (filter (fun kg => kg.1.1 <> key)) d))).

(** ** Upgrades *)

(** One turn of the loop over the keys: the disk after it, and whether it failed. (A key that is gone
    would end the loop; no turn removes one.) *)
Definition upgrade_turn (m : Moment) (key : string) (d : Disk) : Disk * bool :=
  match packages d !! key with
  | None => (d, true)
  | Some p =>
      let identity := package_identity key p in
      let landed spec := match install_one_at m d spec (Some (package_destination p)) with
                         | Some (d', _) => (d', false)
                         | None => (d, true)
                         end in
      match dev p with
      | Some marker =>
          let manifest := watch marker ≫= (fun package => fetch_package_manifest package None) in
          match dev_handback (manifest_version <$> manifest) (supersedes marker) (supersedes_fingerprint marker)
                  (manifest ≫= fingerprint) with
          | ReleaseAvailable => landed identity
          | KeepDev => (d, false)
          end
      | None =>
          match fetch_package_manifest identity None with
          | None => (d, true)
          | Some latest =>
              if String.eqb (manifest_version latest) (current p) then (d, false)
              else landed (identity ++ "@" ++ manifest_version latest)
          end
      end
  end.

Definition upgrade_packages (m : Moment) (d : Disk) : Disk * bool :=
  fold_left (fun acc key => let '(d, failed) := acc in
                            let '(d', failed') := upgrade_turn m key d in (d', failed || failed')) (keys_of (packages d)) (d, false).

(** ** What can happen to a disk *)

(** A command of the tool, or anybody's hand on the published places. *)
Inductive step : Disk -> Disk -> Prop :=
| installs m spec dest d d' o : install_one_at m d spec dest = Some (d', o) -> step d d'
| imports package version archive names dest d d' : import_generation d package version archive names dest = Some d' -> step d d'
| publishes_dev m package artifacts expected watch dest d d' :
    install_dev_bins m d package artifacts expected watch dest = Some d' -> step d d'
| rolls_back spec d d' : verb_rollback d spec = Some d' -> step d d'
| returns_to_prod m spec d d' : verb_prod m d spec = Some d' -> step d d'
| removes m spec d d' : verb_remove m d spec = Some d' -> step d d'
| upgrades m d : step d (upgrade_packages m d).1
| sweeps held watched keep force d : step d (sweep_generations held watched keep force d)
| meddles places d : step d (with_published (fun _ => places) d).

(** * Lemmas *)

(** No version recorded after the current one still has all its binaries. *)
Definition settled (d : Disk) (key : string) (p : Package) : Prop :=
  exists pre post, versions p = (pre ++ current p :: post)%list /\ forall v, v ∈ post -> whole d key (bins p) v = false.

Definition kept (d : Disk) : Prop :=
  forall key p, packages d !! key = Some p -> dev p = None -> settled d key p.

Definition only_links (d d' : Disk) : Prop := exists places, d' = with_published (fun _ => places) d.

Lemma only_links_refl d : only_links d d.
Proof. exists (published d). by destruct d. Qed.

Lemma only_links_with f d : only_links d (with_published f d).
Proof. by eexists. Qed.

Lemma only_links_trans d1 d2 d3 : only_links d1 d2 -> only_links d2 d3 -> only_links d1 d3.
Proof. intros [p ->] [q ->]. by exists q. Qed.

Lemma only_links_fold {A} (f : Disk -> A -> Disk) l d :
  (forall d x, only_links d (f d x)) -> only_links d (fold_left f l d).
Proof.
  intros Hf. revert d. induction l as [|x l IH]; intros d; [apply only_links_refl|]. eapply only_links_trans; [apply Hf|apply IH].
Qed.

Lemma converge_dev_links d version dest bins : only_links d (converge_cli_links_to_dev d version dest bins).
Proof.
  unfold converge_cli_links_to_dev. destruct (String.eqb _ _); [apply only_links_refl|].
  destruct (parse version); [|apply only_links_refl]. apply only_links_fold. intros e x.
  repeat case_match; auto using only_links_refl, only_links_with.
Qed.

Lemma converge_newer_links d bins version : only_links d (converge_cli_links_to_newer_dev d bins version).
Proof.
  unfold converge_cli_links_to_newer_dev. destruct (parse version); [|apply only_links_refl].
  apply only_links_fold. intros e x. repeat case_match; auto using only_links_refl, only_links_with.
Qed.

Lemma kept_links d d' : only_links d d' -> kept d -> kept d'.
Proof. intros [places ->]. done. Qed.

Lemma whole_sub d d' key bins v :
  (forall g, generations d' !! (key, v) = Some g -> generations d !! (key, v) = Some g) ->
  whole d' key bins v = true -> whole d key bins v = true.
Proof.
  intros Hsub. unfold whole. rewrite !forallb_forall. intros Hall bin Hin. specialize (Hall bin Hin).
  unfold generation_dir in *. destruct (generations d' !! (key, v)) as [g|] eqn:E; [by rewrite (Hsub g eq_refl)|].
  unfold generation_binary in Hall. cbn in Hall. by rewrite !bool_decide_eq_false_2 in Hall by apply not_elem_of_empty.
Qed.

Lemma settled_sub d d' key p :
  (forall v g, generations d' !! (key, v) = Some g -> generations d !! (key, v) = Some g) -> settled d key p -> settled d' key p.
Proof.
  intros Hsub (pre & post & E & Hpost). exists pre, post. split; [done|]. intros v Hv.
  destruct (whole d' key (bins p) v) eqn:W; [|done]. apply (whole_sub d) in W; [|by intros g; apply Hsub].
  by rewrite Hpost in W.
Qed.

Lemma settled_last d key p : last (versions p) = Some (current p) -> settled d key p.
Proof. intros [l E]%last_Some. exists l, []. split; [done|]. by intros v ?%elem_of_nil. Qed.

(** An entry is written, and the generations of no other key are touched. *)
Lemma kept_update d d' key p :
  kept d -> packages d' = <[key := p]> (packages d) ->
  (forall k v, k <> key -> generations d' !! (k, v) = generations d !! (k, v)) ->
  (dev p = None -> settled d' key p) -> kept d'.
Proof.
  intros Hd Hp Hg Hnew k q. rewrite Hp. destruct (decide (k = key)) as [->|Hk].
  - rewrite lookup_insert_eq. by intros [= <-].
  - rewrite lookup_insert_ne by done. intros Hq Hdev. apply (settled_sub d); [|by apply Hd].
    intros v g. by rewrite Hg.
Qed.

Lemma kept_sweep held watched keep force d : kept d -> kept (sweep_generations held watched keep force d).
Proof.
  intros Hd key p Hp Hdev. apply (settled_sub d); [|by apply Hd]. intros v g. unfold sweep_generations. cbn.
  by intros [? _]%map_lookup_filter_Some.
Qed.

Lemma kept_auto m d : kept d -> kept (auto_sweep_if_due m d).
Proof. intros Hd. unfold auto_sweep_if_due. case_match; [|done]. by apply (kept_sweep (live m) (guarded m) SWEEP_DEFAULT_KEEP false) in Hd. Qed.

Lemma push_last version vs : last (push_version version vs) = Some version.
Proof. unfold push_version. case_bool_decide; [done|]. apply last_snoc. Qed.

Lemma kept_install d d' key package version bins ext dest channel source :
  kept d -> packages d' = packages d ->
  (forall k v, k <> key -> generations d' !! (k, v) = generations d !! (k, v)) ->
  kept (record_install key package version bins ext dest channel source d').
Proof.
  intros Hd Hp Hg. eapply kept_update; [exact Hd| |exact Hg|].
  - unfold record_install. cbn. by rewrite Hp.
  - intros _. apply settled_last. apply push_last.
Qed.

Lemma put_other key version g d k v : k <> key -> generations (put_generation key version g d) !! (k, v) = generations d !! (k, v).
Proof. intros Hk. unfold put_generation. cbn. rewrite lookup_insert_ne; [done|]. by intros [=]. Qed.

Lemma kept_npm m d package pin dest d' o : kept d -> install_npm_package m d package pin dest = Some (d', o) -> kept d'.
Proof.
  intros Hd H. unfold install_npm_package in H. apply bind_Some in H as (manifest & _ & H). cbv zeta in H.
  destruct (match packages d !! _ with Some p => negb _ && downgrade_refusal _ _ | None => false end).
  { by injection H as <- <-. }
  match goal with H : (if ?b then _ else _) = _ |- _ => destruct b end.
  { injection H as <- <-. apply kept_auto. destruct (packages d !! _); [|done].
    destruct (pin_is_explicit pin); [done|]. eapply kept_links; [apply converge_newer_links|done]. }
  apply bind_Some in H as (stage & _ & H). apply bind_Some in H as (table & _ & H).
  match goal with H : (if ?b then _ else _) = _ |- _ => destruct b; [|done] end.
  injection H as <- <-. apply kept_auto.
  assert (forall e : Disk, kept e -> kept (if pin_is_explicit pin then e
            else converge_cli_links_to_newer_dev e (in_bin_table (dom table)) (manifest_version manifest))) as Hlast.
  { intros e He. destruct (pin_is_explicit pin); [done|]. eapply kept_links; [apply converge_newer_links|done]. }
  apply Hlast. eapply kept_links; [apply only_links_with|]. apply (kept_install d); [done| |].
  - by destruct (_ || _).
  - intros k v Hk. destruct (_ || _); [done|]. by apply put_other.
Qed.

Lemma kept_native d package name version platform_pkg dest d' o :
  kept d -> install_native d package name version platform_pkg dest = Some (d', o) -> kept d'.
Proof.
  intros Hd H. unfold install_native in H. apply bind_Some in H as (manifest & _ & H).
  destruct (negb _); [done|]. apply bind_Some in H as (release & _ & H). cbv zeta in H.
  destruct (verified _ _ _); [|done]. injection H as <- <-.
  eapply kept_links; [apply only_links_with|]. apply (kept_install d); [done|done|]. intros. by apply put_other.
Qed.

Lemma kept_tarball d spec dest d' o : kept d -> install_prebuilt_tarball d spec dest = Some (d', o) -> kept d'.
Proof.
  intros Hd H. unfold install_prebuilt_tarball in H. apply bind_Some in H as ([archive source'] & _ & H).
  apply bind_Some in H as (release & _ & H). cbv zeta in H. destruct (verified _ _ _); [|done]. injection H as <- <-.
  eapply kept_links; [apply only_links_with|]. apply (kept_install d); [done|done|]. intros. by apply put_other.
Qed.

Lemma kept_one m d spec dest d' o : kept d -> install_one_at m d spec dest = Some (d', o) -> kept d'.
Proof.
  intros Hd H. unfold install_one_at in H. destruct (starts_with _ _); [by eapply kept_tarball|].
  apply bind_Some in H as ([pkg pin] & _ & H). destruct (strip_prefix _ _) as [nm|]; [|by eapply kept_npm].
  apply bind_Some in H as (manifest & _ & H). cbv zeta in H.
  destruct platform; destruct (existsb _ _); try done; eauto using kept_npm, kept_native.
Qed.

Lemma kept_import d package version archive names dest d' :
  kept d -> import_generation d package version archive names dest = Some d' -> kept d'.
Proof.
  intros Hd H. unfold import_generation in H. apply bind_Some in H as (stage & _ & H). cbv zeta in H.
  destruct (negb _); [done|]. destruct (_ =? _)%nat; [done|]. injection H as <-.
  eapply kept_links; [apply only_links_with|]. apply (kept_install d); [done| |].
  - by destruct (generations d !! _).
  - intros. destruct (generations d !! (_, version)); [done|]. by apply put_other.
Qed.

Lemma kept_dev m d package artifacts expected watch dest d' :
  kept d -> install_dev_bins m d package artifacts expected watch dest = Some d' -> kept d'.
Proof.
  intros Hd H. unfold install_dev_bins in H. cbv zeta in H. destruct (negb _); [done|]. injection H as <-.
  eapply kept_links; [apply converge_dev_links|]. eapply kept_links; [apply only_links_with|].
  eapply (kept_update d); [done|reflexivity| |done]. intros k v Hk.
  match goal with |- generations (with_packages ?f (put_generation ?a ?b ?c ?e)) !! _ = _ =>
    change (generations (put_generation a b c e) !! (k, v) = generations d !! (k, v)) end. by apply put_other.
Qed.

Lemma rollback_target_spec d key p target :
  rollback_target d key p = Some target ->
  whole d key (bins p) target = true /\ (dev p = None -> target <> current p)
  /\ exists pre post, versions p = (pre ++ target :: post)%list /\ forall v, v ∈ post -> whole d key (bins p) v = false.
Proof.
  unfold rollback_target. destruct (List.find _ _) as [v|] eqn:E; [|done].
  destruct (is_Some_b (dev p) || _) eqn:Hc; [|done]. intros [= <-]. split; [by apply find_some in E as [_ ?]|].
  split. { intros Hdev ->. by rewrite Hdev, String.eqb_refl in Hc. }
  destruct (find_first _ _ _ E) as (l1 & l2 & El & Hl1). exists (rev l2), (rev l1). split.
  - apply (f_equal (@rev _)) in El. rewrite rev_involutive, rev_app_distr in El. cbn in El. by rewrite <- app_assoc in El.
  - intros x Hx. apply Hl1. apply list_elem_of_In, in_rev. by rewrite <- list_elem_of_In.
Qed.

Lemma kept_rollback d spec d' : kept d -> verb_rollback d spec = Some d' -> kept d'.
Proof.
  intros Hd H. unfold verb_rollback in H. apply bind_Some in H as ([pkg pin] & _ & H).
  apply bind_Some in H as (key & _ & H). apply bind_Some in H as (p & Hp & H). apply bind_Some in H as (target & Ht & H).
  injection H as <-. destruct (rollback_target_spec _ _ _ _ Ht) as (_ & _ & Hpost).
  by eapply (kept_update d _ key (rolled_back p target)).
Qed.

Lemma kept_prod m d spec d' : kept d -> verb_prod m d spec = Some d' -> kept d'.
Proof.
  intros Hd H. unfold verb_prod in H. apply bind_Some in H as ([pkg pin] & _ & H).
  apply bind_Some in H as (key & _ & H). apply bind_Some in H as (p & Hp & H).
  destruct (is_Some_b _); [|by injection H as <-]. apply fmap_Some in H as ([e o] & H & ->). by eapply kept_one.
Qed.

Lemma kept_remove m d spec d' : kept d -> verb_remove m d spec = Some d' -> kept d'.
Proof.
  intros Hd H. unfold verb_remove in H. apply bind_Some in H as ([pkg pin] & _ & H).
  apply bind_Some in H as (key & _ & H). apply bind_Some in H as (p & Hp & H).
  destruct (running_under m key); [done|]. injection H as <-. intros k q Hq Hdev. cbn in Hq.
  apply lookup_delete_Some in Hq as [Hk Hq]. apply (settled_sub d); [|by apply Hd].
  intros v g Hg. by apply map_lookup_filter_Some in Hg as [Hg _].
Qed.

Lemma kept_upgrade m d : kept d -> kept (upgrade_packages m d).1.
Proof.
  intros Hd. unfold upgrade_packages. generalize (keys_of (packages d)), false. intros keys. revert d Hd.
  induction keys as [|key keys IH]; intros d Hd failed; [done|]. cbn.
  assert (kept (upgrade_turn m key d).1) as Hturn.
  { unfold upgrade_turn. destruct (packages d !! key) as [p|]; [|done]. cbv zeta.
    assert (forall spec, kept (match install_one_at m d spec (Some (package_destination p)) with
                               | Some (d', _) => (d', false) | None => (d, true) end).1) as Hland.
    { intros spec. destruct (install_one_at _ _ _ _) as [[d' o]|] eqn:E; [|done]. by eapply kept_one. }
    destruct (dev p) as [marker|].
    - destruct (dev_handback _ _ _ _); [done|apply Hland].
    - destruct (fetch_package_manifest _ _) as [latest|]; [|done]. destruct (String.eqb _ _); [done|apply Hland]. }
  destruct (upgrade_turn m key d) as [d' failed']. by apply IH.
Qed.

Lemma kept_step d d' : step d d' -> kept d -> kept d'.
Proof.
  intros [m spec dest e e' o H|p v a n t e e' H|m p a x w t e e' H|spec e e' H|m spec e e' H|m spec e e' H|m e|h w k f e|places e] Hd.
  - by eapply kept_one.
  - by eapply kept_import.
  - by eapply kept_dev.
  - by eapply kept_rollback.
  - by eapply kept_prod.
  - by eapply kept_remove.
  - by apply kept_upgrade.
  - by apply kept_sweep.
  - done.
Qed.

Lemma kept_reachable d0 d : packages d0 = ∅ -> rtc step d0 d -> kept d.
Proof.
  intros H0 Hrun. assert (kept d0) as Hd by (intros key p; by rewrite H0, lookup_empty).
  clear H0. induction Hrun as [d|d e f Hstep _ IH]; [done|]. by apply IH, (kept_step d).
Qed.

(** ** What is published, what a sweep leaves *)

Lemma publish_there dest what names places bin : bin ∈ names -> publish dest what names places !! (dest, bin) = Some (what bin).
Proof.
  unfold publish. revert places. induction names as [|x names IH] using rev_ind; intros places Hin; [by apply elem_of_nil in Hin|].
  rewrite fold_left_app. cbn. destruct (decide (bin = x)) as [->|Hx]; [apply lookup_insert_eq|].
  rewrite lookup_insert_ne by (intros [=]; congruence). apply IH. apply elem_of_app in Hin as [?|?%list_elem_of_singleton]; done.
Qed.

Lemma elem_of_in_order bin table : bin ∈ in_order table <-> bin ∈ table.
Proof. unfold in_order. by rewrite elem_of_stable_sort, elem_of_elements. Qed.

Lemma dom_in_bin_table table : dom (in_bin_table table) = table.
Proof.
  apply set_eq. intros bin. rewrite elem_of_dom. unfold in_bin_table. split.
  - intros [rel (x & Hx & E)%lookup_set_to_map]; [|by intros ? ? _ _ [=]]. by injection E as -> _.
  - intros Hin. exists ("bin/" ++ bin). apply lookup_set_to_map; [by intros ? ? _ _ [=]|]. by exists bin.
Qed.

Lemma current_kept p entries keep : current p ∈ generation_keep_names (Some p) entries keep.
Proof. unfold generation_keep_names. apply elem_of_union_l, elem_of_union_l, elem_of_union_l, elem_of_singleton. done. Qed.

Lemma sweep_keeps held watched keep force d key generation g :
  generations d !! (key, generation) = Some g ->
  generation ∈ generation_keep_names (packages d !! key) (entries_of d key) keep ->
  generations (sweep_generations held watched keep force d) !! (key, generation) = Some g.
Proof.
  intros Hg Hk. unfold sweep_generations. cbn. apply map_lookup_filter_Some. split; [done|].
  apply orb_true_iff. left. by apply bool_decide_eq_true_2.
Qed.

(** The generation an entry names survives the sweep that follows an install. *)
Lemma auto_keeps_current m d key v p g :
  packages d !! key = Some p -> current p = v -> generations d !! (key, v) = Some g ->
  generations (auto_sweep_if_due m d) !! (key, v) = Some g.
Proof.
  intros Hp <- Hg. unfold auto_sweep_if_due. case_match; [|done].
  apply (sweep_keeps _ _ _ _ _ _ _ _ Hg). rewrite Hp. apply current_kept.
Qed.

Lemma auto_packages m d : packages (auto_sweep_if_due m d) = packages d.
Proof. unfold auto_sweep_if_due. by case_match. Qed.

Lemma auto_published m d : published (auto_sweep_if_due m d) = published d.
Proof. unfold auto_sweep_if_due. by case_match. Qed.

Lemma newer_packages d table version : packages (converge_cli_links_to_newer_dev d table version) = packages d.
Proof. destruct (converge_newer_links d table version) as [places ->]. done. Qed.

Lemma newer_generations d table version : generations (converge_cli_links_to_newer_dev d table version) = generations d.
Proof. destruct (converge_newer_links d table version) as [places ->]. done. Qed.

Lemma newer_elsewhere d table version dest bin :
  dest <> cli_dir -> published (converge_cli_links_to_newer_dev d table version) !! (dest, bin) = published d !! (dest, bin).
Proof.
  intros Hdest. unfold converge_cli_links_to_newer_dev. destruct (parse version); [|done].
  generalize (in_order (dom table)). intros names. revert d. induction names as [|x names IH]; intros d; [done|]. cbn [fold_left].
  rewrite IH. repeat case_match; try done. cbn. by rewrite lookup_insert_ne by congruence.
Qed.

Lemma no_refusal_refl v : downgrade_refusal v v = false.
Proof. unfold downgrade_refusal. destruct (parse v) as [x|]; [|done]. by rewrite (proj2 (cmp_semver_eq x x) eq_refl). Qed.

Lemma verified_spec ok table says :
  verified ok table says = true -> forall bin, bin ∈ table -> exists answer, says !! bin = Some answer /\ ok answer = true.
Proof.
  unfold verified. rewrite forallb_forall. intros Hall bin Hbin. specialize (Hall bin).
  rewrite <- list_elem_of_In, elem_of_elements in Hall. specialize (Hall Hbin). destruct (says !! bin); [eauto|done].
Qed.

(** * Theorems *)

(** C10: a rollback of a production package repairs, and never goes back.  Whatever installs, imports,
    development builds, sweeps, removals, upgrades and rollbacks came before, and whatever was done by
    hand to the published places: as long as the generation of the current version has its binaries,
    rolling back is refused.  When a rollback goes through, its target is a recorded version whose
    generation has every binary, every binary of the entry is linked to it at the package's
    destination, only that entry changes, and no generation is touched. *)
Theorem rollback_is_a_repair d0 d spec pkg pin key p :
  packages d0 = ∅ -> rtc step d0 d -> expand_package spec = Some (pkg, pin) ->
  find_package_key (packages d) pkg = Some key -> packages d !! key = Some p ->
  (dev p = None -> whole d key (bins p) (current p) = true -> verb_rollback d spec = None)
  /\ (forall d', verb_rollback d spec = Some d' -> exists target,
        target ∈ versions p /\ whole d key (bins p) target = true
        /\ packages d' = <[key := rolled_back p target]> (packages d) /\ generations d' = generations d
        /\ forall bin, bin ∈ dom (bins p) -> exists in_bin,
              published d' !! (package_destination p, bin) = Some (Link key target in_bin bin)
              /\ generation_binary (generation_dir d' key target) bin = Some in_bin).
Proof.
  intros H0 Hrun Hspec Hkey Hp. split.
  - intros Hdev Hwhole. destruct (verb_rollback d spec) as [d'|] eqn:E; [|done]. exfalso.
    unfold verb_rollback in E. rewrite Hspec in E. cbn in E. rewrite Hkey in E. cbn in E. rewrite Hp in E. cbn in E.
    apply bind_Some in E as (target & Ht & _).
    pose proof Ht as Ht'. apply rollback_target_spec in Ht' as (_ & Hne & _). specialize (Hne Hdev).
    destruct (kept_reachable _ _ H0 Hrun key p Hp Hdev) as (pre & post & Ev & Hpost).
    unfold rollback_target in Ht. rewrite Ev, rev_app_distr in Ht. cbn in Ht.
    rewrite <- app_assoc, find_skip in Ht by (intros x Hx; apply Hpost, list_elem_of_In, in_rev; by apply list_elem_of_In).
    cbn in Ht. rewrite Hwhole, Hdev, String.eqb_refl in Ht. done.
  - intros d' E. unfold verb_rollback in E. rewrite Hspec in E. cbn in E. rewrite Hkey in E. cbn in E. rewrite Hp in E. cbn in E.
    apply bind_Some in E as (target & Ht & [= <-]). exists target.
    destruct (rollback_target_spec _ _ _ _ Ht) as (Hw & _ & pre & post & Ev & _).
    split; [rewrite Ev; apply elem_of_app; right; apply list_elem_of_here|]. split; [done|]. do 2 (split; [done|]).
    intros bin Hbin. unfold whole in Hw. rewrite forallb_forall in Hw. specialize (Hw bin).
    rewrite <- list_elem_of_In, elem_of_elements in Hw. specialize (Hw Hbin).
    destruct (generation_binary (generation_dir d key target) bin) as [in_bin|] eqn:Eb; [|done].
    exists in_bin. split; [|exact Eb]. cbn. rewrite publish_there by by apply elem_of_in_order. by rewrite Eb.
Qed.

(** C11: what npm delivers is published only after it has answered, and discovery does not go back.
    After an install, the entry of the package carries the version the outcome names, and no other
    entry is touched.  Unless the version was asked for by number, the entry never moves to a version
    below the one it had.  When the generation of that version was not there before, either the
    entries are as they were, or npm's staging had every declared binary and each answered something;
    then every binary of the entry is linked, at the destination, to a file of that generation, which
    the sweep that ends the install leaves (a destination that is the integrated programs' own
    directory may be linked to a newer development build instead). *)
Theorem npm_install_is_gated m d package pin dest d' o :
  install_npm_package m d package pin dest = Some (d', o) ->
  let key := key_for (packages d) package in
  exists p', packages d' !! key = Some p' /\ current p' = version o
    /\ (forall other, other <> key -> packages d' !! other = packages d !! other)
    /\ (forall p, packages d !! key = Some p -> pin_is_explicit pin = false -> downgrade_refusal (current p) (current p') = false)
    /\ (generations d !! (key, version o) = None ->
        packages d' = packages d
        \/ exists stage, run_npm_install_package package (version o) = Some stage
           /\ forall bin, bin ∈ dom (bins p') ->
                (exists answer, says stage !! bin = Some answer /\ trim answer <> "")
                /\ bin ∈ nested (generation_dir d' key (version o))
                /\ (dest_of dest <> cli_dir \/ pin_is_explicit pin = true ->
                    published d' !! (dest_of dest, bin) = Some (Link key (version o) true bin))).
Proof.
  intros H key. unfold install_npm_package in H. apply bind_Some in H as (manifest & _ & H). cbv zeta in H. fold key in H.
  set (v := manifest_version manifest) in *. set (dst := dest_of dest) in *.
  destruct (match packages d !! key with Some p => negb _ && downgrade_refusal _ _ | None => false end) eqn:Eref.
  { injection H as <- <-. destruct (packages d !! key) as [p|] eqn:Ep; [|done]. exists p. cbn. do 2 (split; [done|]).
    split; [done|]. split; [|by left]. intros q [= ->] _. apply no_refusal_refl. }
  match type of H with (if ?b then _ else _) = _ => destruct b eqn:Eid end.
  { injection H as <- <-. destruct (packages d !! key) as [p|] eqn:Ep; [|done]. exists p. cbn.
    apply andb_true_iff in Eid as [[Ev _]%andb_true_iff _]. apply String.eqb_eq in Ev.
    assert (packages (auto_sweep_if_due m (if pin_is_explicit pin then d else converge_cli_links_to_newer_dev d (bins p) v)) = packages d) as ->.
    { rewrite auto_packages. destruct (pin_is_explicit pin); [done|apply newer_packages]. }
    do 2 (split; [done|]). split; [done|]. split; [|by left]. intros q [= ->] _. rewrite Ev. apply no_refusal_refl. }
  apply bind_Some in H as (stage & Hstage & H). apply bind_Some in H as (table & Htable & H).
  match type of H with (if ?b then _ else _) = _ => destruct b eqn:Egate; [|done] end. apply andb_true_iff in Egate as [Hsub Hver].
  apply bool_decide_eq_true_1 in Hsub. injection H as <- <-. set (entries := in_bin_table (dom table)) in *.
  assert (forall e, packages (if pin_is_explicit pin then e else converge_cli_links_to_newer_dev e entries v) = packages e) as Hpk.
  { intros e. destruct (pin_is_explicit pin); [done|apply newer_packages]. }
  eexists. rewrite auto_packages, Hpk. cbn [with_published record_install with_packages packages].
  assert (forall b : bool, packages (if b then d else put_generation key v (tree stage) d) = packages d) as Hb by by intros [].
  rewrite Hb. split; [apply lookup_insert_eq|]. split; [done|].
  split; [intros other Ho; by rewrite lookup_insert_ne|]. split.
  { intros p Hp Hpin. rewrite Hp, Hpin in Eref. exact Eref. }
  intros Hfresh. right. cbn [version bins installed] in Hfresh |- *.
  assert (generation_dir d key v = mkGeneration ∅ ∅ ∅) as Eold by (unfold generation_dir; by rewrite Hfresh).
  rewrite Eold in Hstage |- *. cbn [documents nested] in Hstage |- *.
  rewrite (lookup_empty (M := gmap string)) in Hstage |- *. cbn [orb] in Hstage |- *.
  rewrite bool_decide_eq_true_2 by done. cbn [negb].
  exists stage. split; [exact Hstage|]. unfold entries. rewrite dom_in_bin_table. intros bin Hbin.
  split. { destruct (verified_spec _ _ _ Hver bin Hbin) as (answer & Ha & Hok). exists answer. split; [done|]. intros E. by rewrite E in Hok. }
  match goal with |- context [with_published ?f ?e] => set (d3 := with_published f e) end.
  assert (forall e : Disk, generations (if pin_is_explicit pin then e else converge_cli_links_to_newer_dev e (in_bin_table (dom table)) v) = generations e) as Hgen.
  { intros e. destruct (pin_is_explicit pin); [done|apply newer_generations]. }
  split.
  - unfold generation_dir at 1. erewrite (auto_keeps_current m _ key v _ (tree stage)); [by apply Hsub| | |].
    + rewrite Hpk. apply lookup_insert_eq.
    + done.
    + rewrite Hgen. apply lookup_insert_eq.
  - intros Hdst. rewrite auto_published.
    assert (published d3 !! (dst, bin) = Some (Link key v true bin)) as Hthere by (apply publish_there; by apply elem_of_in_order).
    destruct (pin_is_explicit pin); [done|]. destruct Hdst as [Hdst|]; [|done]. by rewrite newer_elsewhere.
Qed.

Lemma entries_NoDup d key : NoDup (entries_of d key).
Proof.
  unfold entries_of. rewrite stable_sort_perm. apply (NoDup_fmap_2_strong snd).
  - intros [k1 v1] [k2 v2] [_ H1]%elem_of_filter_bool [_ H2]%elem_of_filter_bool. cbn in *.
    apply String.eqb_eq in H1, H2. by intros ->; subst.
  - apply kept_NoDup, NoDup_fst_map_to_list.
Qed.

Lemma elem_of_entries d key generation : generation ∈ entries_of d key <-> exists g, generations d !! (key, generation) = Some g.
Proof.
  unfold entries_of. rewrite elem_of_stable_sort, list_elem_of_In, in_map_iff. split.
  - intros ([k v] & <- & Hin). apply filter_In in Hin as [Hin Hk]. cbn in *. apply String.eqb_eq in Hk as ->.
    apply in_map_iff in Hin as ([kv g] & E & Hin). cbn in E. subst. exists g. by apply elem_of_map_to_list, list_elem_of_In.
  - intros [g Hg]. exists (key, generation). split; [done|]. apply filter_In. cbn. rewrite String.eqb_refl. split; [|done].
    apply in_map_iff. exists ((key, generation), g). split; [done|]. by apply list_elem_of_In, elem_of_map_to_list.
Qed.

(** C12: an unforced sweep breaks nothing.  It touches no entry and no published place, and adds no
    generation.  A generation it takes is neither the current nor the development generation of an
    entry, no process runs from it, and no link of a scanned directory leads to it, directly or through
    another published place, so whatever such a link led to is still there.  And if it is not a
    development generation, as many others of the same package as were to be kept, none ranked below
    it, are still there. *)
Theorem sweep_breaks_nothing held watched keep d key generation g :
  let d' := sweep_generations held watched keep false d in
  generations d !! (key, generation) = Some g -> generations d' !! (key, generation) = None ->
  packages d' = packages d /\ published d' = published d /\ generations d' ⊆ generations d
  /\ (forall p, packages d !! key = Some p -> current p <> generation /\ dev_generation p <> Some generation)
  /\ held (key, generation) = false
  /\ (forall dir bin place, published d !! (dir, bin) = Some place -> dir ∈ scan_roots d -> leads_to d place <> Some (key, generation))
  /\ (is_dev_name generation = false -> exists others, NoDup others /\ length others = keep
        /\ forall other, other ∈ others ->
             other <> generation /\ rank_leb other generation = true /\ is_Some (generations d' !! (key, other))).
Proof.
  intros d' Hg Hgone. do 2 (split; [done|]). split; [apply map_filter_subseteq|].
  assert (forall generation' g', generations d !! (key, generation') = Some g' ->
            generation' ∈ generation_keep_names (packages d !! key) (entries_of d key) keep -> is_Some (generations d' !! (key, generation'))) as Hkeep.
  { intros generation' g' Hg' Hin. exists g'. by apply sweep_keeps. }
  assert (generation ∉ generation_keep_names (packages d !! key) (entries_of d key) keep) as Hnot.
  { intros Hin. destruct (Hkeep _ _ Hg Hin) as [? E]. congruence. }
  assert (retention_guard_blocks held watched d (key, generation) = false) as Hguard.
  { unfold d', sweep_generations in Hgone. cbn in Hgone. apply map_lookup_filter_None_1 in Hgone as [E|Hf]; [congruence|].
    specialize (Hf g Hg). cbn in Hf. rewrite bool_decide_eq_false_2 in Hf by done. cbn in Hf.
    by destruct (retention_guard_blocks _ _ _ _). }
  unfold retention_guard_blocks in Hguard. apply orb_false_iff in Hguard as [[Hheld _]%orb_false_iff Href].
  split; [|split; [done|]; split].
  - intros p Hp. rewrite Hp in Hnot. unfold generation_keep_names in Hnot.
    apply not_elem_of_union in Hnot as [[[Hc Hd]%not_elem_of_union _]%not_elem_of_union _]. split.
    + intros E. apply Hc. by rewrite E, elem_of_singleton.
    + intros E. apply Hd. by rewrite E, elem_of_singleton.
  - intros dir bin place Hplace Hdir Hlead. unfold path_is_referenced in Href.
    enough (true = false) by done. rewrite <- Href. symmetry. apply existsb_exists. exists ((dir, bin), place).
    split; [by apply list_elem_of_In, elem_of_map_to_list|]. cbn. by rewrite !bool_decide_eq_true_2.
  - intros Hname. set (names := List.filter (fun name => negb (is_dev_name name)) (entries_of d key)).
    destruct (top_ranked names keep generation) as (Hnd & Hlen & Htop).
    + apply kept_NoDup, entries_NoDup.
    + apply elem_of_filter_bool. rewrite Hname. split; [by apply elem_of_entries; exists g|done].
    + intros Hin. apply Hnot. unfold generation_keep_names. apply elem_of_union_r. by apply elem_of_list_to_set.
    + exists (take keep (stable_sort rank_leb names)). do 2 (split; [done|]). intros other Hother.
      destruct (Htop other Hother) as (? & ? & Hin). do 2 (split; [done|]).
      apply elem_of_filter_bool in Hin as [[g' Hg']%elem_of_entries _]. apply (Hkeep other g' Hg').
      unfold generation_keep_names. apply elem_of_union_r. by apply elem_of_list_to_set.
Qed.
End Store.

(** * A small registry *)

Module Registry.

Definition user_bin : string := "/home/u/.local/bin".
Definition cli_bin : string := "/home/u/.yggterm/ynpm/bin".

(** One package, whose latest version is 2.0.0 and whose binary answers with its version. *)
Definition fetch (package : string) (pin : option string) : option Manifest :=
  if String.eqb package "@acme/tool" then Some (mkManifest (default "2.0.0" pin) [] None) else None.
Definition npm (package version : string) : option Stage :=
  Some (mkStage (mkGeneration {["tool"]} ∅ {[package := {["tool" := "cli.js"]}]}) {["tool" := version]}).
Definition answers_there (d : Disk) (dest bin : string) : option string :=
  if is_Some_b (published d !! (dest, bin)) then Some "tool" else None.

Definition noon : Moment := mkMoment 43200000 7 (fun _ => false) (fun _ => false) (fun _ => false).
Definition empty : Disk := mkDisk ∅ (Some 43200000) ∅ ∅.

Definition npm_install (answer : option string) (d : Disk) (pin : option string) :=
  install_npm_package id user_bin cli_bin user_bin "/home/u/.yggterm/bin" fetch npm answers_there (fun _ _ _ _ => answer)
    noon d "@acme/tool" pin None.
Definition install (d : Disk) (spec : string) :=
  install_one_at id user_bin cli_bin user_bin "/home/u/.yggterm/bin" fetch npm (fun _ _ => None) (fun _ => None) id
    (fun _ => None) (Some "linux-x64") answers_there (fun _ _ v _ => Some v) noon d spec None.
Definition install_dev (d : Disk) (expected : option string) :=
  install_dev_bins id user_bin false cli_bin fetch (fun _ => expected) noon d "@acme/tool"
    {["tool" := "target/tool"]} expected (Some "@acme/tool") None.
Definition prod (d : Disk) :=
  verb_prod id user_bin cli_bin user_bin "/home/u/.yggterm/bin" fetch npm (fun _ _ => None) (fun _ => None) id
    (fun _ => None) (Some "linux-x64") answers_there (fun _ _ v _ => Some v) noon d "@acme/tool".

Definition after (o : option (Disk * InstallOutcome)) : Disk := match o with Some (d, _) => d | None => empty end.
Definition first : Disk := after (install empty "@acme/tool@1.0.0").
Definition second : Disk := after (install first "@acme/tool").
Definition entry (d : Disk) : Package := default (mkPackage None "" [] ∅ None None None None None None) (packages d !! "acme__tool").

(** Two versions are installed and whole, the newer one is served; going back is refused. *)
Lemma rollback_is_a_repair_witness :
  versions (entry second) = ["1.0.0"; "2.0.0"] /\ whole second "acme__tool" (bins (entry second)) "1.0.0" = true
  /\ verb_rollback id user_bin second "@acme/tool" = None.
Proof.
  split; [vm_compute; reflexivity|]. split; [vm_compute; reflexivity|].
  refine (proj1 (rollback_is_a_repair id user_bin false cli_bin user_bin "/home/u/.yggterm/bin" fetch npm (fun _ _ => None)
    (fun _ => None) id (fun _ => None) (fun _ => None) (fun _ => None) (Some "linux-x64") answers_there (fun _ _ v _ => Some v)
    empty second "@acme/tool" "@acme/tool" None "acme__tool" (entry second) _ _ _ _ _) _ _); try (vm_compute; reflexivity).
  eapply rtc_l; [|eapply rtc_l; [|apply rtc_refl]].
  - eapply (installs _ _ _ _ _ _ _ _ _ _ _ _ _ _ _ _ _ noon "@acme/tool@1.0.0" None _ first). vm_compute. reflexivity.
  - eapply (installs _ _ _ _ _ _ _ _ _ _ _ _ _ _ _ _ _ noon "@acme/tool" None _ second). vm_compute. reflexivity.
Defined.

(** A fresh version is staged, answers, and is linked. *)
Lemma npm_install_is_gated_witness :
  generations first !! ("acme__tool", "2.0.0") = None /\ packages second <> packages first
  /\ exists o, npm_install (Some "2.0.0") first None = Some (second, o)
       /\ published second !! (user_bin, "tool") = Some (Link "acme__tool" (version o) true "tool").
Proof.
  split; [vm_compute; reflexivity|].
  assert (packages second <> packages first) as Hnew.
  { intros E. apply (f_equal (fun st => current <$> st !! "acme__tool")) in E. vm_compute in E. discriminate E. }
  split; [exact Hnew|].
  exists (mkOutcome "@acme/tool" "2.0.0" (Some "1.0.0")).
  assert (npm_install (Some "2.0.0") first None = Some (second, mkOutcome "@acme/tool" "2.0.0" (Some "1.0.0"))) as E
    by (vm_compute; reflexivity).
  split; [exact E|].
  destruct (npm_install_is_gated _ _ _ _ _ _ _ _ _ _ _ _ _ _ _ _ E) as (p' & Hp & _ & _ & _ & Hgate).
  destruct Hgate as [Hsame|(stage & _ & Hall)]; [vm_compute; reflexivity|by destruct (Hnew Hsame)|].
  assert (p' = entry second) as -> by (vm_compute in Hp; vm_compute; congruence).
  apply (Hall "tool"); [vm_compute; reflexivity|]. left. vm_compute. discriminate.
Defined.

(** Of three versions a sweep that keeps two takes the oldest. *)
Definition third : Disk := after (install second "@acme/tool@3.0.0").

Lemma sweep_breaks_nothing_witness :
  exists others, length others = 2%nat /\ ("1.0.0" ∉ others)
    /\ generations (sweep_generations cli_bin user_bin "/home/u/.yggterm/bin" (live noon) (guarded noon) 2 false third)
         !! ("acme__tool", "1.0.0") = None.
Proof.
  destruct (sweep_breaks_nothing cli_bin user_bin "/home/u/.yggterm/bin" (live noon) (guarded noon) 2 third "acme__tool" "1.0.0"
    (default (mkGeneration ∅ ∅ ∅) (generations third !! ("acme__tool", "1.0.0"))))
    as (_ & _ & _ & _ & _ & _ & H); [vm_compute; reflexivity|vm_compute; reflexivity|].
  destruct (H eq_refl) as (others & _ & Hlen & Hothers). exists others. split; [exact Hlen|].
  split; [|vm_compute; reflexivity]. intros Hin. destruct (Hothers "1.0.0" Hin) as (Hne & _). by apply Hne.
Defined.

(** Returning to production leaves a development build in place when it answers with the registry's
    version, or a later one, and the command succeeds. *)
Definition built : Disk := default empty (install_dev second (Some "2.0.0")).
Definition built_ahead : Disk := default empty (install_dev second (Some "2.1.0")).

Example prod_stays_on_dev :
  is_Some (dev (entry built)) /\ prod built = Some built
  /\ published built !! (user_bin, "tool") = Some (Link "acme__tool" "dev-43200000-7" true "tool").
Proof. split; [by vm_compute; eexists|]. split; vm_compute; reflexivity. Qed.

Example prod_is_refused_as_a_downgrade : current (entry built_ahead) = "2.1.0" /\ prod built_ahead = Some built_ahead.
Proof. split; vm_compute; reflexivity. Qed.

Example rollback_keeps_the_dev_generation :
  match verb_rollback id user_bin built "@acme/tool" with
  | Some d => current (entry d) = "2.0.0" /\ dev (entry d) = None /\ dev_generation (entry d) = Some "dev-43200000-7"
  | None => False
  end.
Proof. vm_compute. repeat split. Qed.

(** A generation whose binary no longer answers is staged anew, and published as it was. *)
Definition broken : Disk :=
  mkDisk ∅ (Some 43200000) {[("acme__tool", "2.0.0") := mkGeneration {["other"]} ∅ {["@acme/tool" := {["tool" := "cli.js"]}]}]} ∅.

Example broken_generation_is_published :
  match npm_install None broken None with
  | Some (d, o) => version o = "2.0.0" /\ whole d "acme__tool" (bins (entry d)) "2.0.0" = false
                   /\ published d !! (user_bin, "tool") = Some (Link "acme__tool" "2.0.0" true "tool")
  | None => False
  end.
Proof. vm_compute. repeat split. Qed.

End Registry.
