(* ===== verification/WebCollection.v ===== *)
(** * Collections: a list of links kept as a Markdown file

    src/crates/yggterm-core/src/web_collection.rs: [Collection::parse], [Collection::to_markdown], the
    frontmatter fields, and the edits [add_item] and [move_item].

    A file is its text; a [usize] position is a [nat].  The private fields [raw], [dirty] and
    [had_frontmatter] are part of the state. *)
From S2P Require Import Prelude RustStr.
From Stdlib Require Import ZifyBool ZifyN.
#[local] Open Scope string_scope.

Record Field := mkField { key : string; value : string }.

Record Item := mkItem { title : string; url : string; trailing : string; raw : string; dirty : bool }.

Inductive Block := Folder (depth : nat) (name : string) | Link (item : Item) | Raw (text : string).

Record Collection := mkCollection { fields : list Field; blocks : list Block; had_frontmatter : bool }.

Definition new_item (title url : string) : Item := mkItem title url "" "" true.

(** [Item::render]. *)
Definition render_item (i : Item) : string :=
  if negb (dirty i) && negb (str_is_empty (raw i)) then raw i
  else "- [" ++ title i ++ "](" ++ url i ++ ")" ++ (if str_is_empty (trailing i) then "" else " " ++ trailing i).

Definition with_frontmatter (fields : list Field) : Collection := mkCollection fields [] true.

(** ** Reading *)

Definition parse_item (line : string) : option (string * string * string) :=
  rest ← (match strip_prefix "- " line with Some rest => Some rest | None => strip_prefix "* " line end);
  let rest := trim_start rest in
  '(before, after) ← find_sub "](" rest;
  match before with
  | String c title =>
      if Ascii.eqb c "[" then
        '(url, tail) ← split_once ")" after;
        if str_is_empty (trim url) then None else Some (title, url, trim tail)
      else None
  | "" => None
  end.

(** The leading hashes of a text, and what follows them. *)
Fixpoint hashes (s : string) : nat * string :=
  match s with
  | String c s' => if Ascii.eqb c "#" then let '(n, rest) := hashes s' in (S n, rest) else (0, s)
  | "" => (0, "")
  end.

Definition parse_block (line : string) : Block :=
  let trimmed := trim_start line in
  match strip_prefix "##" trimmed with
  | Some more => let '(n, rest) := hashes more in Folder (2 + n) (trim rest)
  | None => match parse_item trimmed with
            | Some (title, url, trailing) => Link (mkItem title url trailing line false)
            | None => Raw line
            end
  end.

Definition is_fence (line : string) : bool := String.eqb (trim_end line) "---".

Definition parse_field (line : string) : Field :=
  match split_once ":" line with
  | Some (key, value) => if str_is_empty (trim key) then mkField "" line else mkField (trim key) (trim value)
  | None => mkField "" line
  end.

(** The lines up to the closing fence, and those after it. *)
Fixpoint parse_fields (lines : list string) : list Field * list string :=
  match lines with
  | [] => ([], [])
  | line :: lines' =>
      if is_fence line then ([], lines')
      else let '(fields, body) := parse_fields lines' in (parse_field line :: fields, body)
  end.

Definition parse (source : string) : Collection :=
  match split_on newline source with
  | line :: lines =>
      if is_fence line then let '(fields, body) := parse_fields lines in mkCollection fields (map parse_block body) true
      else mkCollection [] (map parse_block (line :: lines)) false
  | [] => mkCollection [] [] false
  end.

(** ** Writing *)

Fixpoint repeat_hash (n : nat) : string := match n with O => "" | S n' => String "#" (repeat_hash n') end.

Definition render_field (f : Field) : string := if str_is_empty (key f) then value f else key f ++ ": " ++ value f.

Definition render_block (b : Block) : string :=
  match b with
  | Folder depth name => repeat_hash depth ++ " " ++ name
  | Link item => render_item item
  | Raw text => text
  end.

Definition nl : string := String newline "".

Definition fence_block (fields : list Field) : string :=
  "---" ++ nl ++ foldr (fun f rest => render_field f ++ nl ++ rest) ("---" ++ nl) fields.

Definition to_markdown (c : Collection) : string :=
  (if had_frontmatter c || negb (bool_decide (fields c = [])) then fence_block (fields c) else "")
  ++ join nl (map render_block (blocks c)).

(** ** Looking *)

Definition field (c : Collection) (k : string) : option string := value <$> List.find (fun f => String.eqb (key f) k) (fields c).

Definition id (c : Collection) : option string := field c "id".
Definition name (c : Collection) : option string := field c "name".
Definition is_snapshot (c : Collection) : bool := bool_decide (field c "kind" = Some "snapshot").

Definition items_of (bs : list Block) : list Item := omap (fun b => match b with Link i => Some i | _ => None end) bs.
Definition items (c : Collection) : list Item := items_of (blocks c).
Definition item_count (c : Collection) : nat := length (items c).
Definition folders (c : Collection) : list (nat * string) :=
  omap (fun b => match b with Folder depth name => Some (depth, name) | _ => None end) (blocks c).
Definition contains_url (c : Collection) (u : string) : bool := existsb (fun i => String.eqb (url i) u) (items c).

(** ** Editing *)

Definition with_blocks (bs : list Block) (c : Collection) : Collection := mkCollection (fields c) bs (had_frontmatter c).

Fixpoint set_in (k v : string) (fs : list Field) : list Field :=
  match fs with
  | [] => [mkField k v]
  | f :: fs' => if String.eqb (key f) k then mkField (key f) v :: fs' else f :: set_in k v fs'
  end.

Definition set_field (k v : string) (c : Collection) : Collection :=
  mkCollection (set_in k v (fields c)) (blocks c) (had_frontmatter c).

Definition is_folder (b : Block) : bool := match b with Folder _ _ => true | _ => false end.
Definition is_folder_named (folder : string) (b : Block) : bool :=
  match b with Folder _ name => String.eqb name folder | _ => false end.
Definition is_blank (b : Block) : bool := match b with Raw r => str_is_empty (trim r) | _ => false end.
Definition blank_at (bs : list Block) (i : nat) : bool := match bs !! i with Some b => is_blank b | None => false end.

(** The [while] that steps [insert_at] back over blank lines, no lower than [low]. *)
Fixpoint step_back (bs : list Block) (low insert_at : nat) : nat :=
  match insert_at with
  | S i => if (low <? insert_at)%nat && blank_at bs i then step_back bs low i else insert_at
  | O => O
  end.

Definition add_item (folder : option string) (item : Item) (c : Collection) : Collection :=
  let bs := blocks c in
  with_blocks
    (match folder with
     | None => bs ++ [Link item]
     | Some folder =>
         match position (is_folder_named folder) bs with
         | Some start =>
             let insert_at := match position is_folder (drop (S start) bs) with
                              | Some offset => S start + offset
                              | None => length bs
                              end in
             vec_insert (step_back bs (S start) insert_at) (Link item) bs
         | None =>
             bs ++ (if match last bs with Some b => is_blank b | None => false end then [] else [Raw ""])
                ++ [Folder 2 folder; Raw ""; Link item]
         end
     end)%list c.

Definition holds_url (u : string) (b : Block) : bool := match b with Link i => String.eqb (url i) u | _ => false end.

Definition move_item (u : string) (folder : option string) (c : Collection) : Collection * bool :=
  let bs := blocks c in
  match position (holds_url u) bs with
  | Some at_ =>
      match bs !! at_ with
      | Some (Link item) =>
          let bs' := vec_remove at_ bs in
          let bs'' := if (0 <? at_)%nat && (at_ <? length bs')%nat && blank_at bs' (at_ - 1) && blank_at bs' at_
                      then vec_remove at_ bs' else bs' in
          (add_item folder item (with_blocks bs'' c), true)
      | _ => (c, false)
      end
  | None => (c, false)
  end.

(** * The outline: what a reader sees *)

(** The items above the first folder, and each folder with its items. *)
Definition Outline : Type := list Item * list ((nat * string) * list Item).

Fixpoint outline (bs : list Block) : Outline :=
  match bs with
  | [] => ([], [])
  | Link i :: bs' => let '(l, gs) := outline bs' in (i :: l, gs)
  | Raw _ :: bs' => outline bs'
  | Folder depth name :: bs' => let '(l, gs) := outline bs' in ([], ((depth, name), l) :: gs)
  end.

Fixpoint append_last (i : Item) (gs : list ((nat * string) * list Item)) : list ((nat * string) * list Item) :=
  match gs with
  | [] => []
  | [(h, l)] => [(h, (l ++ [i])%list)]
  | g :: gs' => g :: append_last i gs'
  end.

(** At the end of the first folder of that name, or of a new one. *)
Fixpoint append_named (folder : string) (i : Item) (gs : list ((nat * string) * list Item)) : list ((nat * string) * list Item) :=
  match gs with
  | [] => [((2, folder), [i])]
  | (h, l) :: gs' => if String.eqb h.2 folder then (h, (l ++ [i])%list) :: gs' else (h, l) :: append_named folder i gs'
  end.

Definition outline_add (folder : option string) (i : Item) (o : Outline) : Outline :=
  match folder with
  | None => match o.2 with [] => ((o.1 ++ [i])%list, []) | gs => (o.1, append_last i gs) end
  | Some folder => (o.1, append_named folder i o.2)
  end.

(** The first item of that address leaves. *)
Fixpoint drop_url (u : string) (l : list Item) : option (Item * list Item) :=
  match l with
  | [] => None
  | i :: l' => if String.eqb (url i) u then Some (i, l')
               else match drop_url u l' with Some (j, l'') => Some (j, i :: l'') | None => None end
  end.

Fixpoint drop_url_groups (u : string) (gs : list ((nat * string) * list Item)) : option (Item * list ((nat * string) * list Item)) :=
  match gs with
  | [] => None
  | (h, l) :: gs' => match drop_url u l with
                     | Some (i, l') => Some (i, (h, l') :: gs')
                     | None => match drop_url_groups u gs' with Some (i, gs'') => Some (i, (h, l) :: gs'') | None => None end
                     end
  end.

Definition outline_drop (u : string) (o : Outline) : option (Item * Outline) :=
  match drop_url u o.1 with
  | Some (i, l) => Some (i, (l, o.2))
  | None => match drop_url_groups u o.2 with Some (i, gs) => Some (i, (o.1, gs)) | None => None end
  end.

Definition outline_move (u : string) (folder : option string) (o : Outline) : Outline * bool :=
  match outline_drop u o with Some (i, o') => (outline_add folder i o', true) | None => (o, false) end.

(** * Lemmas: the outline of an edit *)

Lemma outline_app_folder a depth name b :
  outline (a ++ Folder depth name :: b)
  = ((outline a).1, ((outline a).2 ++ ((depth, name), (outline b).1) :: (outline b).2)%list).
Proof.
  induction a as [|[d n|i|r] a IH]; cbn; [by destruct (outline b)|..]; rewrite IH; by destruct (outline a).
Qed.

Lemma outline_app_raw a r b : outline (a ++ Raw r :: b) = outline (a ++ b).
Proof. induction a as [|[d n|i|t] a IH]; cbn; [done|..]; by rewrite ?IH. Qed.

Lemma outline_section s : forallb (fun b => negb (is_folder b)) s = true -> outline s = (items_of s, []).
Proof.
  induction s as [|[d n|i|r] s IH]; cbn; [done|done|..]; intros H; by rewrite IH.
Qed.

Lemma outline_app_section s b :
  forallb (fun b => negb (is_folder b)) s = true -> outline (s ++ b) = ((items_of s ++ (outline b).1)%list, (outline b).2).
Proof.
  induction s as [|[d n|i|r] s IH]; cbn; [by destruct (outline b)|done|..]; intros H; rewrite IH by done; done.
Qed.

Lemma items_of_app a b : items_of (a ++ b) = (items_of a ++ items_of b)%list.
Proof. unfold items_of. induction a as [|[d n|i|r] a IH]; cbn; [done|..]; by rewrite ?IH. Qed.

Lemma items_of_blank s : forallb is_blank s = true -> items_of s = [].
Proof. induction s as [|[d n|i|r] s IH]; cbn; [done|done|done|]. intros [_ H]%andb_true_iff. by apply IH. Qed.

Lemma blank_no_folder s : forallb is_blank s = true -> forallb (fun b => negb (is_folder b)) s = true.
Proof. induction s as [|[d n|i|r] s IH]; cbn; [done|done|done|]. intros [_ H]%andb_true_iff. by apply IH. Qed.

(** A list around its first element of a kind. *)
Lemma position_split {A} (f : A -> bool) l i :
  position f l = Some i -> exists a x b, l = (a ++ x :: b)%list /\ length a = i /\ f x = true /\ forallb (fun y => negb (f y)) a = true.
Proof.
  revert i. induction l as [|x l IH]; intros i; cbn; [done|]. destruct (f x) eqn:E.
  - intros [= <-]. by exists [], x, l.
  - destruct (position f l) as [j|]; [|done]. intros [= <-]. destruct (IH j eq_refl) as (a & y & b & -> & Hl & Hy & Ha).
    exists (x :: a), y, b. cbn. by rewrite E, Hl.
Qed.

Lemma position_none {A} (f : A -> bool) l : position f l = None -> forallb (fun y => negb (f y)) l = true.
Proof. rewrite position_None. intros H. apply forallb_forall. intros x Hx. rewrite Forall_forall in H. rewrite H; [done|by apply list_elem_of_In]. Qed.

Lemma drop_past {A} (a : list A) x b : drop (S (length a)) (a ++ x :: b) = b.
Proof. induction a as [|y a IH]; [done|]. exact IH. Qed.

(** Stepping back over blank lines. *)
Lemma step_back_spec p s b :
  exists s1 s2, s = (s1 ++ s2)%list /\ forallb is_blank s2 = true
    /\ step_back (p ++ s ++ b) (length p) (length p + length s) = (length p + length s1)%nat.
Proof.
  revert b. induction s as [|x s IH] using rev_ind; intros b.
  - exists [], []. do 2 (split; [done|]). cbn [length]. rewrite Nat.add_0_r. destruct (length p) as [|n] eqn:E; [done|].
    cbn [step_back]. by rewrite Nat.ltb_irrefl.
  - rewrite length_app. cbn [length]. rewrite Nat.add_1_r, Nat.add_succ_r. cbn [step_back].
    rewrite (proj2 (Nat.ltb_lt _ _)) by lia. cbn [andb].
    assert (blank_at (p ++ (s ++ [x]) ++ b) (length p + length s) = is_blank x) as ->.
    { unfold blank_at. rewrite lookup_app_r by lia. rewrite <- app_assoc, lookup_app_r by lia.
      replace (length p + length s - length p - length s)%nat with 0%nat by lia. done. }
    destruct (is_blank x) eqn:Hx.
    + destruct (IH (x :: b)) as (s1 & s2 & -> & Hs2 & E). exists s1, (s2 ++ [x])%list.
      split; [by rewrite app_assoc|]. split; [by rewrite forallb_app, Hs2; cbn; rewrite Hx|].
      by rewrite <- (app_assoc _ [x] b).
    + exists (s ++ [x])%list, []. split; [by rewrite app_nil_r|]. split; [done|]. rewrite length_app. cbn. lia.
Qed.

Lemma append_named_skip folder i gs1 h l gs2 :
  forallb (fun g => negb (String.eqb g.1.2 folder)) gs1 = true -> String.eqb h.2 folder = true ->
  append_named folder i (gs1 ++ (h, l) :: gs2) = (gs1 ++ (h, (l ++ [i])%list) :: gs2)%list.
Proof.
  intros Hg Hh. induction gs1 as [|[h' l'] gs1 IH]; cbn in *; [by rewrite Hh|].
  apply andb_true_iff in Hg as [H1 H2]. apply negb_true_iff in H1. by rewrite H1, IH.
Qed.

Lemma append_named_new folder i gs :
  forallb (fun g => negb (String.eqb g.1.2 folder)) gs = true -> append_named folder i gs = (gs ++ [((2, folder), [i])])%list.
Proof.
  induction gs as [|[h l] gs IH]; cbn; [done|]. intros [H1 H2]%andb_true_iff. apply negb_true_iff in H1. by rewrite H1, IH.
Qed.

Lemma outline_unnamed folder a :
  forallb (fun b => negb (is_folder_named folder b)) a = true ->
  forallb (fun g => negb (String.eqb g.1.2 folder)) (outline a).2 = true.
Proof.
  induction a as [|[d n|i|r] a IH]; cbn; [done|..]; destruct (outline a) as [l gs]; cbn in *; [|done|done].
  intros [H1 H2]%andb_true_iff. by rewrite H1, IH.
Qed.

Lemma append_last_skip i gs h l : append_last i (gs ++ [(h, l)]) = (gs ++ [(h, (l ++ [i])%list)])%list.
Proof.
  induction gs as [|[h' l'] gs IH]; [done|]. cbn [app append_last]. rewrite IH. by destruct gs.
Qed.

Lemma outline_snoc bs i : outline (bs ++ [Link i]) = outline_add None i (outline bs).
Proof.
  induction bs as [|[d n|j|r] bs IH]; [done|..]; cbn [app outline]; rewrite IH; destruct (outline bs) as [l gs]; [|destruct gs; done|done].
  destruct gs as [|g gs]; [done|]. cbn. done.
Qed.

(** The section that follows a folder. *)
Lemma section_after bs :
  exists s rest, bs = (s ++ rest)%list /\ forallb (fun b => negb (is_folder b)) s = true
    /\ match position is_folder bs with Some offset => offset | None => length bs end = length s
    /\ match rest with [] => True | b :: _ => is_folder b = true end.
Proof.
  destruct (position is_folder bs) as [i|] eqn:E.
  - apply position_split in E as (a & x & b & -> & <- & Hx & Ha). exists a, (x :: b). done.
  - exists bs, []. rewrite app_nil_r. split; [done|]. split; [by apply position_none|done].
Qed.

Lemma outline_rest_folders rest :
  match rest with [] => True | b :: _ => is_folder b = true end -> (outline rest).1 = [].
Proof. destruct rest as [|[d n|i|r] rest]; cbn; [done|by destruct (outline rest)|done|done]. Qed.

Lemma outline_add_item folder i c : outline (blocks (add_item folder i c)) = outline_add folder i (outline (blocks c)).
Proof.
  unfold add_item. cbn [with_blocks blocks]. generalize (blocks c). clear c. intros bs.
  destruct folder as [folder|]; [|apply outline_snoc].
  destruct (position (is_folder_named folder) bs) as [start|] eqn:E.
  - apply position_split in E as (a & x & b & -> & <- & Hx & Ha). destruct x as [d n|j|r]; [|done|done].
    rewrite drop_past.
    destruct (section_after b) as (s & rest & Eb & Hs & Hpos & Hrest).
    assert (match position is_folder b with Some offset => (S (length a) + offset)%nat | None => length (a ++ Folder d n :: b) end
            = (length (a ++ [Folder d n]) + length s)%nat) as ->.
    { rewrite !length_app. cbn [length]. destruct (position is_folder b); lia. }
    replace (S (length a)) with (length (a ++ [Folder d n])) by (rewrite length_app; cbn; lia).
    subst b. replace (a ++ Folder d n :: s ++ rest)%list with ((a ++ [Folder d n]) ++ s ++ rest)%list by by rewrite <- app_assoc.
    destruct (step_back_spec (a ++ [Folder d n]) s rest) as (s1 & s2 & -> & Hs2 & ->).
    unfold vec_insert. rewrite <- (app_assoc s1 s2 rest), app_assoc.
    rewrite <- length_app, take_app_length, drop_app_length, <- !app_assoc. cbn [app].
    rewrite forallb_app in Hs. apply andb_true_iff in Hs as [Hs1 _].
    rewrite !outline_app_folder, !(outline_app_section s1) by done. cbn [outline].
    pose proof (blank_no_folder _ Hs2) as Hs2'. rewrite !outline_app_section by done. rewrite (items_of_blank _ Hs2). cbn [app].
    pose proof (outline_rest_folders rest Hrest) as Hr. destruct (outline rest) as [l gs]. cbn in Hr |- *. subst l.
    unfold outline_add. cbn. rewrite append_named_skip; [by rewrite app_nil_r|by apply outline_unnamed|done].
  - apply position_none in E. unfold outline_add.
    assert (outline (bs ++ (if match last bs with Some b => is_blank b | None => false end then [] else [Raw ""])
                        ++ [Folder 2 folder; Raw ""; Link i])
            = ((outline bs).1, ((outline bs).2 ++ [((2, folder), [i])])%list)) as ->.
    { destruct (match last bs with Some b => is_blank b | None => false end); cbn [app]; rewrite ?outline_app_raw; by rewrite outline_app_folder. }
    by rewrite append_named_new by by apply outline_unnamed.
Qed.

Lemma drop_url_app_none u l1 l2 : drop_url u l1 = None -> drop_url u (l1 ++ l2) = prod_map Datatypes.id (app l1) <$> drop_url u l2.
Proof.
  induction l1 as [|i l1 IH]; cbn; [by destruct (drop_url u l2) as [[]|]|].
  destruct (String.eqb (url i) u); [done|]. destruct (drop_url u l1) as [[]|]; [done|]. intros _. rewrite IH by done.
  by destruct (drop_url u l2) as [[]|].
Qed.

(** Lifting the first item of an address out of the blocks. *)
Lemma outline_lift u a i b :
  forallb (fun y => negb (holds_url u y)) a = true -> url i = u ->
  outline_drop u (outline (a ++ Link i :: b)) = Some (i, outline (a ++ b)).
Proof.
  intros Ha Hi. induction a as [|[d n|j|r] a IH]; cbn [app outline].
  - destruct (outline b) as [l gs]. unfold outline_drop. cbn. by rewrite (proj2 (String.eqb_eq _ _) Hi).
  - cbn in Ha. specialize (IH Ha). unfold outline_drop in *. destruct (outline (a ++ Link i :: b)) as [l gs], (outline (a ++ b)) as [l' gs'].
    cbn [fst snd] in *. cbn [drop_url drop_url_groups]. destruct (drop_url u l) as [[j l'']|]; [by simplify_eq|].
    destruct (drop_url_groups u gs) as [[j gs'']|]; by simplify_eq.
  - cbn in Ha. apply andb_true_iff in Ha as [Hj Ha]. specialize (IH Ha). apply negb_true_iff in Hj. unfold outline_drop in *.
    destruct (outline (a ++ Link i :: b)) as [l gs], (outline (a ++ b)) as [l' gs']. cbn [fst snd] in *. cbn [drop_url].
    rewrite Hj. destruct (drop_url u l) as [[k l'']|]; [by simplify_eq|].
    destruct (drop_url_groups u gs) as [[k gs'']|]; by simplify_eq.
  - by apply IH.
Qed.

Lemma outline_no_url u bs : forallb (fun y => negb (holds_url u y)) bs = true -> outline_drop u (outline bs) = None.
Proof.
  induction bs as [|[d n|j|r] bs IH]; cbn; [done|..]; intros H.
  - specialize (IH H). unfold outline_drop in *. destruct (outline bs) as [l gs]. cbn in *.
    destruct (drop_url u l) as [[]|]; [done|]. by destruct (drop_url_groups u gs) as [[]|].
  - apply andb_true_iff in H as [Hj H]. specialize (IH H). apply negb_true_iff in Hj. unfold outline_drop in *.
    destruct (outline bs) as [l gs]. cbn in *. rewrite Hj. destruct (drop_url u l) as [[]|]; [done|].
    by destruct (drop_url_groups u gs) as [[]|].
  - by apply IH.
Qed.

Lemma outline_move_item u folder c :
  let '(c', moved) := move_item u folder c in (outline (blocks c'), moved) = outline_move u folder (outline (blocks c)).
Proof.
  unfold move_item, outline_move. destruct (position (holds_url u) (blocks c)) as [n|] eqn:E.
  - apply position_split in E as (a & x & b & Eb & <- & Hx & Ha). rewrite Eb. rewrite lookup_app_r, Nat.sub_diag by lia.
    destruct x as [d n|i|r]; [done| |done]. cbn [lookup list_lookup]. cbn in Hx. apply String.eqb_eq in Hx.
    rewrite outline_lift by done.
    assert (vec_remove (length a) (a ++ Link i :: b) = (a ++ b)%list) as ->.
    { unfold vec_remove. by rewrite take_app_length, drop_past. }
    rewrite outline_add_item. cbn [with_blocks blocks]. do 2 f_equal.
    destruct (_ && _) eqn:Hblank; [|done]. apply andb_true_iff in Hblank as [_ Hblank]. unfold blank_at in Hblank.
    rewrite lookup_app_r, Nat.sub_diag in Hblank by lia. destruct b as [|[d n|j|r] b]; try done.
    unfold vec_remove. rewrite take_app_length, drop_past. by rewrite outline_app_raw.
  - apply position_none in E. by rewrite outline_no_url.
Qed.

(** * Lemmas: what is written reads back *)

Definition one_line (s : string) : bool := free_of newline s.

Lemma free_of_app' c s t : free_of c (s ++ t) = free_of c s && free_of c t.
Proof. apply str_forallb_app. Qed.

Lemma strip_ws_suffix x y : strip_ws x = Some y -> exists p, x = p ++ y.
Proof.
  destruct x as [|a [|b [|c x]]]; cbn; [done|..]; repeat case_match; intros; simplify_eq;
    first [by exists (String a "")|by exists (String a (String b ""))|by exists (String a (String b (String c "")))].
Qed.

Lemma trim_start_infix s : exists p, s = p ++ trim_start s.
Proof. apply strip_while_suffix. apply strip_ws_suffix. Qed.

Lemma trim_end_infix s : exists q, s = trim_end s ++ q.
Proof.
  unfold trim_end. destruct (strip_while_suffix strip_ws_rev (String.length s) (str_rev s) strip_ws_rev_suffix) as [p Hp].
  exists (str_rev p). rewrite <- str_rev_app, <- Hp. by rewrite str_rev_involutive.
Qed.

Lemma free_trim_start c s : free_of c s = true -> free_of c (trim_start s) = true.
Proof. destruct (trim_start_infix s) as [p Hp]. rewrite Hp at 1. by rewrite free_of_app', andb_true_iff; intros []. Qed.

Lemma free_trim c s : free_of c s = true -> free_of c (trim s) = true.
Proof.
  intros H. unfold trim. apply (free_trim_start c) in H. destruct (trim_end_infix (trim_start s)) as [q Hq].
  rewrite Hq, free_of_app', andb_true_iff in H. by destruct H.
Qed.

Lemma trim_space s : trim (" " ++ s) = trim s.
Proof. unfold trim. by rewrite (trim_start_step (" " ++ s)). Qed.

Lemma trim_start_plain a s : plain a = true -> trim_start (String a s) = String a s.
Proof. intros H. rewrite trim_start_step. by rewrite strip_ws_plain. Qed.

(** White space at the end of a text is not a plain character, so trimming stops before one. *)
Lemma plain_not_ws c :
  plain c = true -> ascii_ws (byte_of c) = false /\ forall x y,
    ws2 x (byte_of c) = false /\ ws2 (byte_of c) x = false
    /\ ws3 (byte_of c) x y = false /\ ws3 x (byte_of c) y = false /\ ws3 x y (byte_of c) = false.
Proof.
  unfold plain. intros [H1%N.ltb_lt H2%negb_true_iff]%andb_true_iff. split; [done|]. intros x y. unfold ws2, ws3, in_range.
  split_and!; lia.
Qed.

Lemma strip_ws_rev_keeps u c w y :
  plain c = true -> strip_ws_rev (u ++ String c w) = Some y -> exists u', y = u' ++ String c w.
Proof.
  intros Hc H. destruct (plain_not_ws c Hc) as [Hws Hx].
  assert (forall x y, ws2 (byte_of c) x = false /\ ws3 x (byte_of c) y = false /\ ws3 (byte_of c) x y = false) as Hf
    by (intros x z; destruct (Hx x z) as (_ & ? & ? & ? & _); done).
  destruct u as [|a1 [|a2 [|a3 u]]]; cbn [append] in H; unfold strip_ws_rev in H.
  - rewrite Hws in H. destruct w as [|b w]; [done|]. destruct (Hx (byte_of b) 0%N) as (-> & _) in H. destruct w as [|b' w]; [done|].
    destruct (Hx (byte_of b') (byte_of b)) as (_ & _ & _ & _ & E). by rewrite E in H.
  - destruct (ascii_ws (byte_of a1)); [injection H as <-; by exists ""|]. rewrite (proj1 (Hf _ 0%N)) in H. destruct w as [|b w]; [done|].
    destruct (Hf (byte_of b) (byte_of a1)) as (_ & E & _). by rewrite E in H.
  - destruct (ascii_ws (byte_of a1)); [injection H as <-; by exists (String a2 "")|].
    destruct (ws2 _ _); [injection H as <-; by exists ""|].
    destruct (Hf (byte_of a2) (byte_of a1)) as (_ & _ & E). by rewrite E in H.
  - destruct (ascii_ws (byte_of a1)); [injection H as <-; by exists (String a2 (String a3 u))|].
    destruct (ws2 _ _); [injection H as <-; by exists (String a3 u)|]. destruct (ws3 _ _ _); [injection H as <-; by exists u|done].
Qed.

Lemma strip_while_keeps n u c w : plain c = true -> exists u', strip_while strip_ws_rev n (u ++ String c w) = u' ++ String c w.
Proof.
  intros Hc. revert u. induction n as [|n IH]; intros u; cbn; [by exists u|].
  destruct (strip_ws_rev (u ++ String c w)) as [y|] eqn:E; [|by exists u].
  destruct (strip_ws_rev_keeps _ _ _ _ Hc E) as [u' ->]. apply IH.
Qed.

(** What trimming the end leaves of a text with a plain character in it. *)
Lemma trim_end_keeps x c y : plain c = true -> exists y', trim_end (x ++ String c y) = x ++ String c y'.
Proof.
  intros Hc. unfold trim_end. rewrite str_rev_app, str_rev_cons, <- string_app_assoc. cbn [append].
  destruct (strip_while_keeps (String.length (x ++ String c y)) (str_rev y) c (str_rev x) Hc) as [u ->].
  exists (str_rev u). rewrite str_rev_app, str_rev_cons, str_rev_involutive. by rewrite <- string_app_assoc.
Qed.

Lemma fence_dashes x c y : plain c = true -> c <> "-"%char -> is_fence (x ++ String c y) = false.
Proof.
  intros Hc Hne. unfold is_fence. destruct (trim_end_keeps x c y Hc) as [y' ->]. apply String.eqb_neq. intros E.
  assert (str_forallb (fun a => Ascii.eqb a "-") "---" = true) as Hf by done. rewrite <- E, str_forallb_app in Hf. cbn in Hf.
  apply andb_true_iff in Hf as [_ [Hf _]%andb_true_iff]. by apply Ascii.eqb_eq in Hf.
Qed.

(** ** Frontmatter *)

Definition field_ok (f : Field) : Prop :=
  one_line (render_field f) = true /\ is_fence (render_field f) = false /\ parse_field (render_field f) = f.

Lemma named_field_ok k v :
  k <> "" -> trim k = k -> trim v = v -> free_of ":" k = true -> one_line k = true -> one_line v = true -> field_ok (mkField k v).
Proof.
  intros Hne Hk Hv Hcolon Hk1 Hv1. unfold field_ok, render_field. cbn [key value].
  assert (str_is_empty k = false) as Hne' by by destruct k. rewrite Hne'.
  change (k ++ ": " ++ v) with (k ++ String ":" (" " ++ v)). split_and!.
  - unfold one_line in *. rewrite free_of_app', Hk1. exact Hv1.
  - unfold is_fence. destruct (trim_end_keeps k ":" (" " ++ v) eq_refl) as [y ->]. apply String.eqb_neq. intros E.
    assert (free_of ":" "---" = true) as Hf by done. rewrite <- E, free_of_app', andb_true_iff in Hf. destruct Hf as [_ Hf]. done.
  - unfold parse_field. rewrite split_once_app by done. rewrite Hk, Hne', trim_space, Hv. done.
Qed.

Lemma parsed_field_ok line : one_line line = true -> is_fence line = false -> field_ok (parse_field line).
Proof.
  intros H1 Hf. unfold parse_field. destruct (split_once ":" line) as [[k v]|] eqn:E.
  - pose proof E as E'. apply split_once_Some in E as [Hline Hk]. destruct (str_is_empty (trim k)) eqn:Hempty.
    + unfold field_ok. cbn. split_and!; [done|done|]. unfold parse_field. by rewrite E', Hempty.
    + rewrite Hline in H1. unfold one_line in H1. rewrite free_of_app', andb_true_iff in H1. destruct H1 as [Hk1 Hv1].
      apply named_field_ok; try by rewrite trim_idemp.
      * by intros Hk0; rewrite Hk0 in Hempty.
      * by apply free_trim.
      * by apply free_trim.
      * apply free_trim. exact Hv1.
  - unfold field_ok. cbn. split_and!; [done|done|]. unfold parse_field. by rewrite E.
Qed.

(** ** Blocks *)

(** A block as it is read back: an item has the line it was written on. *)
Definition settle (b : Block) : Block :=
  match b with Link i => Link (mkItem (title i) (url i) (trailing i) (render_item i) false) | _ => b end.

Definition block_ok (b : Block) : Prop := one_line (render_block b) = true /\ parse_block (render_block b) = settle b.

Lemma hashes_repeat n s : (forall s', s <> String "#" s') -> hashes (repeat_hash n ++ s) = (n, s).
Proof.
  intros Hs. induction n as [|n IH]; cbn; [|by rewrite IH].
  destruct s as [|a s]; [done|]. cbn. destruct (Ascii.eqb_spec a "#") as [->|]; [by destruct (Hs s)|done].
Qed.

Lemma hashes_suffix s : exists p, s = p ++ (hashes s).2.
Proof.
  induction s as [|a s [p IH]]; cbn; [by exists ""|]. destruct (Ascii.eqb a "#"); [|by exists ""].
  destruct (hashes s) as [n rest]. cbn in *. exists (String a p). by rewrite IH at 1.
Qed.

Lemma free_repeat n : free_of newline (repeat_hash n) = true.
Proof. by induction n. Qed.

Lemma folder_ok n name : trim name = name -> one_line name = true -> block_ok (Folder (2 + n) name).
Proof.
  intros Hn Hl. unfold block_ok. cbn [render_block settle]. split.
  - unfold one_line in *. rewrite !free_of_app', Hl, andb_true_r. rewrite (free_repeat (2 + n)). done.
  - unfold parse_block. cbn [repeat_hash append Nat.add]. rewrite trim_start_plain by done. cbn [strip_prefix].
    rewrite Ascii.eqb_refl. cbn [strip_prefix]. rewrite hashes_repeat by done.
    change (String " " name) with (" " ++ name). by rewrite trim_space, Hn.
Qed.

Lemma parsed_block_ok line : one_line line = true -> block_ok (parse_block line) /\ settle (parse_block line) = parse_block line.
Proof.
  intros Hl. unfold parse_block. destruct (strip_prefix "##" (trim_start line)) as [more|] eqn:E.
  - destruct (hashes more) as [n rest] eqn:Eh. split; [|done]. apply folder_ok; [apply trim_idemp|]. apply free_trim.
    apply strip_prefix_Some in E. pose proof (free_trim_start newline line Hl) as Ht. rewrite E in Ht.
    destruct (hashes_suffix more) as [p Hp]. rewrite Eh in Hp. cbn in Hp. rewrite Hp in Ht.
    rewrite !free_of_app', !andb_true_iff in Ht. by destruct Ht as (_ & _ & ?).
  - destruct (parse_item (trim_start line)) as [[[t u] tr]|] eqn:Ei.
    + assert (str_is_empty line = false) as Hne by by destruct line.
      assert (render_item (mkItem t u tr line false) = line) as Hr by (unfold render_item; cbn; by rewrite Hne).
      unfold block_ok. cbn [render_block settle title url trailing]. rewrite Hr. split; [|done]. split; [done|].
      unfold parse_block. by rewrite E, Ei.
    + split; [|done]. split; [done|]. cbn [render_block settle]. unfold parse_block. by rewrite E, Ei.
Qed.

(** A link whose title has no closing bracket and whose address has no closing parenthesis. *)
Definition plain_link (title url : string) : bool :=
  one_line title && one_line url && free_of "]" title && free_of ")" url && negb (str_is_empty (trim url)).

Lemma find_close x y : free_of "]" x = true -> find_sub "](" (x ++ "](" ++ y) = Some (x, y).
Proof.
  induction x as [|a x IH]; intros Hx.
  - rewrite find_sub_eq. change ("" ++ "](" ++ y) with ("](" ++ y). by rewrite strip_prefix_app.
  - unfold free_of in Hx. cbn in Hx. apply andb_true_iff in Hx as [Ha Hx]. apply negb_true_iff in Ha. rewrite find_sub_eq.
    cbn [append strip_prefix]. rewrite Ascii.eqb_sym, Ha. change (x ++ String "]" (String "(" y)) with (x ++ "](" ++ y).
    by rewrite IH.
Qed.

#[local] Arguments trim_start : simpl never.
#[local] Arguments trim : simpl never.
#[local] Arguments find_sub : simpl never.

Lemma new_item_ok t u : plain_link t u = true -> block_ok (Link (new_item t u)).
Proof.
  unfold plain_link. intros [[[[Ht Hu]%andb_true_iff Hb]%andb_true_iff Hp]%andb_true_iff Hne%negb_true_iff]%andb_true_iff.
  assert (render_item (new_item t u) = "- [" ++ t ++ "](" ++ u ++ ")") as Hr by done.
  unfold block_ok, one_line in *. cbn [render_block settle new_item title url trailing]. fold (new_item t u). rewrite Hr. split.
  - rewrite !free_of_app', Ht, Hu. done.
  - unfold parse_block. cbn [append]. rewrite trim_start_plain by done.
    assert (parse_item (String "-" (String " " (String "[" (t ++ "](" ++ u ++ ")")))) = Some (t, u, "")) as Hi.
    { unfold parse_item. cbn [strip_prefix]. rewrite !Ascii.eqb_refl. cbn. rewrite trim_start_plain by done.
      pose proof (find_close (String "[" t) (u ++ ")") Hb) as Hf. cbn [append] in Hf. rewrite Hf. cbn.
      rewrite (split_once_app ")" u "") by done. cbn. by rewrite Hne. }
    cbn [append] in Hi. rewrite Hi. done.
Qed.

(** ** The whole file *)

Definition has_frontmatter (c : Collection) : bool := had_frontmatter c || negb (bool_decide (fields c = [])).

Definition not_fence (b : Block) : Prop := is_fence (render_block b) = false.

(** Without frontmatter, the first line could not be taken for the fence of one. *)
Definition readable (c : Collection) : Prop :=
  Forall field_ok (fields c) /\ Forall block_ok (blocks c)
  /\ (has_frontmatter c = false -> match blocks c with b :: _ => not_fence b | [] => True end).

Lemma split_line l s : one_line l = true -> split_on newline (l ++ nl ++ s) = l :: split_on newline s.
Proof. intros Hl. unfold nl. cbn [append]. by apply split_on_app. Qed.

Lemma split_fence_block fs body :
  Forall field_ok fs -> split_on newline (fence_block fs ++ body) = ("---" :: map render_field fs ++ "---" :: split_on newline body)%list.
Proof.
  intros Hfs. unfold fence_block. rewrite <- !string_app_assoc, split_line by done. f_equal.
  induction Hfs as [|f fs (Hf & _) _ IH]; cbn [foldr map app]; rewrite <- ?string_app_assoc, split_line by done; [done|]. by rewrite IH.
Qed.

Lemma parse_fields_rendered fs body :
  Forall field_ok fs -> parse_fields (map render_field fs ++ "---" :: body) = (fs, body).
Proof.
  induction 1 as [|f fs (_ & Hf & Hp) _ IH]; [done|]. cbn [map app parse_fields]. by rewrite Hf, IH, Hp.
Qed.

Lemma split_blocks bs :
  Forall block_ok bs -> map parse_block (split_on newline (join nl (map render_block bs))) = (if decide (bs = []) then [Raw ""] else map settle bs).
Proof.
  intros Hbs. destruct (decide (bs = [])) as [->|Hne]; [done|]. unfold nl. rewrite split_on_join.
  - rewrite map_map. clear Hne. induction Hbs as [|b bs [_ Hb] _ IH]; [done|]. cbn [map]. by rewrite Hb, IH.
  - by destruct bs.
  - apply Forall_map. eapply Forall_impl; [exact Hbs|]. by intros b [Hb _].
Qed.

(** What is written reads back. *)
Lemma read_back c :
  readable c ->
  parse (to_markdown c) = mkCollection (fields c) (if decide (blocks c = []) then [Raw ""] else map settle (blocks c)) (has_frontmatter c).
Proof.
  intros (Hf & Hb & Hhead). unfold to_markdown. fold (has_frontmatter c). destruct (has_frontmatter c) eqn:Hfm.
  - unfold parse. rewrite split_fence_block by done. cbn [is_fence]. change (is_fence "---") with true. cbn iota.
    rewrite parse_fields_rendered by done. by rewrite split_blocks.
  - assert (fields c = []) as ->.
    { unfold has_frontmatter in Hfm. apply orb_false_iff in Hfm as [_ Hfm%negb_false_iff]. by apply bool_decide_eq_true_1 in Hfm. }
    cbn [append]. rewrite <- split_blocks by done. unfold parse.
    specialize (Hhead eq_refl). destruct (split_on newline (join nl (map render_block (blocks c)))) as [|l ls] eqn:El; [done|].
    assert (is_fence l = false) as ->; [|done]. destruct (blocks c) as [|b bs]; [by injection El as <- _|].
    unfold nl in El. rewrite split_on_join in El.
    + by injection El as <- _.
    + done.
    + apply Forall_map. eapply Forall_impl; [exact Hb|]. by intros ? [? _].
Qed.

Lemma split_lines_one s : Forall (fun l => one_line l = true) (split_on newline s).
Proof.
  induction s as [|a s IH]; cbn; [by repeat constructor|]. destruct (Ascii.eqb_spec a newline) as [->|Ha]; [by constructor|].
  destruct (split_on newline s) as [|p ps]; [by repeat constructor; cbn; rewrite (proj2 (Ascii.eqb_neq _ _) Ha)|].
  apply Forall_cons in IH as [Hp Hps]. constructor; [|done]. unfold one_line, free_of. cbn. by rewrite (proj2 (Ascii.eqb_neq _ _) Ha).
Qed.

Lemma parse_fields_ok ls :
  Forall (fun l => one_line l = true) ls ->
  Forall field_ok (parse_fields ls).1 /\ Forall (fun l => one_line l = true) (parse_fields ls).2.
Proof.
  induction 1 as [|l ls Hl Hls IH]; [done|]. cbn. destruct (is_fence l) eqn:E; [done|].
  destruct (parse_fields ls) as [fs body]. cbn in *. destruct IH as [IH1 IH2]. split; [|done].
  constructor; [by apply parsed_field_ok|done].
Qed.

Lemma parsed_blocks_ok ls :
  Forall (fun l => one_line l = true) ls -> Forall block_ok (map parse_block ls) /\ map settle (map parse_block ls) = map parse_block ls.
Proof.
  induction 1 as [|l ls Hl Hls [IH1 IH2]]; [done|]. destruct (parsed_block_ok l Hl) as [H1 H2]. cbn. rewrite H2, IH2.
  split; [by constructor|done].
Qed.

Lemma parsed_not_fence line : is_fence line = false -> not_fence (parse_block line).
Proof.
  intros Hl. unfold not_fence, parse_block. destruct (strip_prefix "##" (trim_start line)) as [more|].
  - destruct (hashes more) as [n rest]. by apply (fence_dashes "").
  - destruct (parse_item (trim_start line)) as [[[t u] tr]|]; [|done]. cbn [render_block]. unfold render_item. cbn [dirty raw negb andb].
    destruct (str_is_empty line); [by apply (fence_dashes "- ")|done].
Qed.

Lemma parse_readable s : readable (parse s) /\ map settle (blocks (parse s)) = blocks (parse s) /\ has_frontmatter (parse s) = had_frontmatter (parse s).
Proof.
  pose proof (split_lines_one s) as Hls. unfold parse. destruct (split_on newline s) as [|l ls] eqn:El; [by destruct (split_on_nonempty newline s)|].
  destruct (is_fence l) eqn:Hf.
  - apply Forall_cons in Hls as [_ Hls]. destruct (parse_fields_ok ls Hls) as [H1 H2].
    destruct (parse_fields ls) as [fs body]. cbn in *. destruct (parsed_blocks_ok body H2) as [H3 H4]. by split_and!.
  - destruct (parsed_blocks_ok (l :: ls) Hls) as [H3 H4]. split_and!; [|exact H4|done]. split_and!; [done|done|].
    intros _. by apply parsed_not_fence.
Qed.

(** ** Edits that can be read back *)

Definition folder_name_ok (folder : option string) : Prop :=
  match folder with Some f => trim f = f /\ one_line f = true | None => True end.

Lemma add_item_blocks (P : Block -> Prop) folder i c :
  Forall P (blocks c) -> P (Link i) -> P (Raw "") -> (forall f, folder = Some f -> P (Folder 2 f)) -> Forall P (blocks (add_item folder i c)).
Proof.
  intros Hc Hi Hr Hf. unfold add_item. cbn [with_blocks blocks]. destruct folder as [f|]; [|by apply Forall_app_2; [|constructor]].
  destruct (position _ _) as [start|]; [rewrite vec_insert_perm; by constructor|].
  apply Forall_app_2; [done|]. apply Forall_app_2; [destruct (match last _ with Some _ => _ | None => _ end); by repeat constructor|].
  repeat constructor; auto.
Qed.

Lemma move_item_blocks (P : Block -> Prop) u folder c :
  Forall P (blocks c) -> P (Raw "") -> (forall f, folder = Some f -> P (Folder 2 f)) -> Forall P (blocks (move_item u folder c).1).
Proof.
  intros Hc Hr Hf. unfold move_item. destruct (position _ _) as [n|]; [|done]. destruct (blocks c !! n) as [b|] eqn:E; [|done].
  destruct b as [d m|i|r]; [done| |done]. cbn [fst]. apply add_item_blocks; [|by eapply (Forall_lookup_1 P)|done|done].
  cbn [with_blocks blocks]. assert (forall k l, Forall P l -> Forall P (vec_remove k l)) as Hrem.
  { intros k l Hl. unfold vec_remove. apply Forall_app_2; [by apply Forall_take|by apply Forall_drop]. }
  destruct (_ && _); by repeat apply Hrem.
Qed.

(** Readable, and staying so when its first line goes. *)
Definition steady (c : Collection) : Prop :=
  Forall field_ok (fields c) /\ Forall block_ok (blocks c) /\ (has_frontmatter c = false -> Forall not_fence (blocks c)).

Lemma steady_readable c : steady c -> readable c.
Proof. intros (Hf & Hb & H). split_and!; [done|done|]. intros E. specialize (H E). destruct H; done. Qed.

Inductive edit : Collection -> Collection -> Prop :=
| adds folder t u c : folder_name_ok folder -> plain_link t u = true -> edit c (add_item folder (new_item t u) c)
| moves u folder c : folder_name_ok folder -> (move_item u folder c).2 = true -> edit c (move_item u folder c).1
| sets k v c : k <> "" -> trim k = k -> trim v = v -> free_of ":" k = true -> one_line k = true -> one_line v = true ->
    edit c (set_field k v c).

Lemma edit_steady c c' : edit c c' -> steady c -> steady c'.
Proof.
  intros [folder t u d Hf Hl|u folder d Hf Hm|k v d Hne Hk Hv Hc H1 H2] (Hfs & Hbs & Hhead).
  - split_and!; [done| |].
    + apply add_item_blocks; [done|by apply new_item_ok|done|]. intros f ->. destruct Hf. by apply (folder_ok 0).
    + intros E. apply add_item_blocks; [by apply Hhead|by apply (fence_dashes "- ")|done|]. intros f ->. by apply (fence_dashes "").
  - assert (fields (move_item u folder d).1 = fields d /\ had_frontmatter (move_item u folder d).1 = had_frontmatter d) as [E1 E2].
    { unfold move_item. destruct (position _ _); [|done]. by destruct (blocks d !! _) as [[]|]. }
    unfold steady, has_frontmatter. rewrite E1, E2. split_and!; [done| |].
    + apply move_item_blocks; [done|done|]. intros f ->. destruct Hf. by apply (folder_ok 0).
    + intros E. apply move_item_blocks; [by apply Hhead|done|]. intros f ->. by apply (fence_dashes "").
  - split_and!; [|done|].
    + cbn [set_field fields]. clear Hhead. induction Hfs as [|f fs Hf Hfs IH]; cbn; [constructor; [by apply named_field_ok|done]|].
      destruct (String.eqb_spec (key f) k) as [Ek|]; constructor; try done. rewrite Ek. by apply named_field_ok.
    + intros E. exfalso. unfold has_frontmatter in E. apply orb_false_iff in E as [_ E%negb_false_iff]. apply bool_decide_eq_true_1 in E.
      cbn in E. destruct (fields d) as [|f fs]; [done|]. cbn in E. by destruct (String.eqb (key f) k).
Qed.

(** ** Nothing is lost *)

Definition outline_items (o : Outline) : list Item := (o.1 ++ List.concat (map snd o.2))%list.

Lemma outline_items_of bs : outline_items (outline bs) = items_of bs.
Proof.
  unfold outline_items, items_of. induction bs as [|[d n|i|r] bs IH]; cbn; [done|..]; destruct (outline bs) as [l gs]; cbn in *; [done| |done].
  by rewrite IH.
Qed.

Lemma append_last_items i gs : gs <> [] -> List.concat (map snd (append_last i gs)) ≡ₚ i :: List.concat (map snd gs).
Proof.
  induction gs as [|[h l] gs IH]; [done|]. intros _. destruct gs as [|g gs].
  - cbn. rewrite !app_nil_r. by rewrite <- Permutation_cons_append.
  - change (append_last i ((h, l) :: g :: gs)) with ((h, l) :: append_last i (g :: gs)). cbn [map List.concat].
    rewrite IH by done. cbn [snd]. by rewrite Permutation_middle.
Qed.

Lemma append_named_items folder i gs : List.concat (map snd (append_named folder i gs)) ≡ₚ i :: List.concat (map snd gs).
Proof.
  induction gs as [|[h l] gs IH]; [done|]. cbn. destruct (String.eqb h.2 folder); cbn.
  - rewrite <- app_assoc. cbn. by rewrite <- Permutation_middle.
  - rewrite IH. by rewrite Permutation_middle.
Qed.

Lemma outline_add_items folder i o : outline_items (outline_add folder i o) ≡ₚ i :: outline_items o.
Proof.
  unfold outline_items, outline_add. destruct o as [l gs], folder as [f|]; cbn [fst snd].
  - rewrite append_named_items. by rewrite Permutation_middle.
  - destruct gs as [|g gs].
    + cbn. rewrite !app_nil_r. by rewrite <- Permutation_cons_append.
    + change (l ++ List.concat (map snd (append_last i (g :: gs))) ≡ₚ i :: l ++ List.concat (map snd (g :: gs)))%list.
      rewrite append_last_items by done. by rewrite Permutation_middle.
Qed.

Lemma drop_url_items u l i l' : drop_url u l = Some (i, l') -> l ≡ₚ i :: l' /\ url i = u.
Proof.
  revert l'. induction l as [|j l IH]; intros l'; cbn; [done|]. destruct (String.eqb_spec (url j) u); [by intros [= <- <-]|].
  destruct (drop_url u l) as [[k l'']|]; [|done]. intros [= <- <-]. destruct (IH l'' eq_refl) as [-> ?]. split; [constructor|done].
Qed.

Lemma drop_groups_items u gs i gs' :
  drop_url_groups u gs = Some (i, gs') -> List.concat (map snd gs) ≡ₚ i :: List.concat (map snd gs') /\ url i = u.
Proof.
  revert gs'. induction gs as [|[h l] gs IH]; intros gs'; cbn; [done|]. destruct (drop_url u l) as [[j l']|] eqn:E.
  - intros [= <- <-]. destruct (drop_url_items _ _ _ _ E) as [-> ?]. done.
  - destruct (drop_url_groups u gs) as [[j gs'']|]; [|done]. intros [= <- <-]. cbn. destruct (IH gs'' eq_refl) as [-> ?].
    split; [by rewrite Permutation_middle|done].
Qed.

Lemma outline_drop_items u o i o' : outline_drop u o = Some (i, o') -> outline_items o ≡ₚ i :: outline_items o' /\ url i = u.
Proof.
  unfold outline_drop, outline_items. destruct o as [l gs]. cbn. destruct (drop_url u l) as [[j l']|] eqn:E.
  - intros [= <- <-]. cbn. destruct (drop_url_items _ _ _ _ E) as [-> ?]. done.
  - destruct (drop_url_groups u gs) as [[j gs']|] eqn:E'; [|done]. intros [= <- <-]. cbn.
    destruct (drop_groups_items _ _ _ _ E') as [-> ?]. split; [by rewrite Permutation_middle|done].
Qed.

Lemma drop_url_none u l : drop_url u l = None <-> existsb (fun i => String.eqb (url i) u) l = false.
Proof.
  induction l as [|i l IH]; cbn; [done|]. destruct (String.eqb (url i) u); [done|]. cbn. rewrite <- IH.
  destruct (drop_url u l) as [[]|]; done.
Qed.

Lemma outline_drop_none u o : outline_drop u o = None <-> existsb (fun i => String.eqb (url i) u) (outline_items o) = false.
Proof.
  unfold outline_drop, outline_items. destruct o as [l gs]. cbn. rewrite existsb_app, orb_false_iff, <- drop_url_none.
  assert (drop_url_groups u gs = None <-> existsb (fun i => String.eqb (url i) u) (List.concat (map snd gs)) = false) as <-.
  { induction gs as [|[h l'] gs IH]; cbn; [done|]. rewrite existsb_app, orb_false_iff, <- IH, <- drop_url_none.
    destruct (drop_url u l') as [[]|]; [naive_solver|]. destruct (drop_url_groups u gs) as [[]|]; naive_solver. }
  destruct (drop_url u l) as [[]|]; [naive_solver|]. destruct (drop_url_groups u gs) as [[]|]; naive_solver.
Qed.

(** The prose: what is neither a folder, nor an item, nor blank. *)
Definition prose (bs : list Block) : list string :=
  omap (fun b => match b with Raw r => if str_is_empty (trim r) then None else Some r | _ => None end) bs.

Lemma prose_app a b : prose (a ++ b) = (prose a ++ prose b)%list.
Proof. apply omap_app. Qed.

Lemma prose_blank a x b : is_blank x = true -> prose (a ++ x :: b) = prose (a ++ b).
Proof. intros Hx. rewrite !prose_app. destruct x as [| |r]; try done. cbn in *. by rewrite Hx. Qed.

Lemma prose_link a i b : prose (a ++ Link i :: b) = prose (a ++ b).
Proof. by rewrite !prose_app. Qed.

Lemma prose_add folder i c : prose (blocks (add_item folder i c)) = prose (blocks c).
Proof.
  unfold add_item. cbn [with_blocks blocks]. destruct folder as [f|]; [|by rewrite prose_app, app_nil_r].
  destruct (position _ _); [unfold vec_insert; by rewrite prose_link, take_drop|].
  rewrite !prose_app. destruct (match last _ with Some _ => _ | None => _ end); cbn; by rewrite ?app_nil_r.
Qed.

Lemma prose_move u folder c : prose (blocks (move_item u folder c).1) = prose (blocks c).
Proof.
  unfold move_item. destruct (position _ _) as [n|] eqn:E; [|done].
  apply position_split in E as (a & x & b & Eb & <- & Hx & _). rewrite Eb, lookup_app_r, Nat.sub_diag by lia.
  destruct x as [d m|i|r]; [done| |done]. cbn [lookup list_lookup fst]. rewrite prose_add. cbn [with_blocks blocks].
  assert (vec_remove (length a) (a ++ Link i :: b) = (a ++ b)%list) as -> by (unfold vec_remove; by rewrite take_app_length, drop_past).
  rewrite prose_link. destruct (_ && _) eqn:Hblank; [|done]. apply andb_true_iff in Hblank as [_ Hblank]. unfold blank_at in Hblank.
  rewrite lookup_app_r, Nat.sub_diag in Hblank by lia. destruct b as [|y b]; [done|]. cbn in Hblank.
  unfold vec_remove. rewrite take_app_length, drop_past. by rewrite prose_blank.
Qed.

(** * Theorems *)

(** C17: editing a collection is editing its outline, and loses nothing.  Adding an item appends it to
    the first folder of that name, to a new folder at the end if there is none, or, without a folder,
    after everything; moving takes the first item of an address out and adds it so, with its line; it
    says whether there was such an item, and changes nothing when there was none.  The items are the
    old ones with what was added, no folder goes, the prose stays in its order, and the frontmatter is
    untouched. *)
Theorem edits_are_outline_edits folder i u c :
  (outline (blocks (add_item folder i c)) = outline_add folder i (outline (blocks c))
   /\ items (add_item folder i c) ≡ₚ i :: items c /\ prose (blocks (add_item folder i c)) = prose (blocks c)
   /\ fields (add_item folder i c) = fields c)
  /\ (let '(c', moved) := move_item u folder c in
      (outline (blocks c'), moved) = outline_move u folder (outline (blocks c))
      /\ moved = contains_url c u /\ (moved = false -> c' = c)
      /\ items c' ≡ₚ items c /\ prose (blocks c') = prose (blocks c) /\ fields c' = fields c).
Proof.
  split.
  - split; [apply outline_add_item|]. split; [|split; [apply prose_add|done]].
    unfold items. rewrite <- !outline_items_of, outline_add_item. apply outline_add_items.
  - pose proof (outline_move_item u folder c) as Hmove. pose proof (prose_move u folder c) as Hprose.
    assert (fields (move_item u folder c).1 = fields c) as Hfields.
    { unfold move_item. destruct (position _ _); [|done]. by destruct (blocks c !! _) as [[]|]. }
    assert ((move_item u folder c).2 = false -> (move_item u folder c).1 = c) as Hsame.
    { unfold move_item. destruct (position _ _); [|done]. by destruct (blocks c !! _) as [[]|]. }
    destruct (move_item u folder c) as [c' moved]. cbn [fst snd] in *. split; [exact Hmove|].
    unfold outline_move in Hmove. unfold items, contains_url, items. rewrite <- !outline_items_of.
    destruct (outline_drop u (outline (blocks c))) as [[j o]|] eqn:E; injection Hmove as -> ->.
    + split.
      { destruct (existsb _ _) eqn:Ex; [done|]. apply outline_drop_none in Ex. congruence. }
      split; [done|]. split; [|done]. rewrite outline_add_items. symmetry. by eapply outline_drop_items.
    + split; [symmetry; by apply outline_drop_none|]. split; [done|]. split; [done|done].
Qed.

(** Rewriting a collection settles it at once.  Whatever text it was read from, what is written
    reads back as the same frontmatter and the same blocks (nothing at all reads back as one empty
    line), and is written the same again; and a file without frontmatter is rewritten line by line,
    each as it was unless it is a folder's, which takes its canonical spelling. *)
Theorem rewriting_settles s :
  let c := parse s in
  parse (to_markdown c) = mkCollection (fields c) (if decide (blocks c = []) then [Raw ""] else blocks c) (had_frontmatter c)
  /\ to_markdown (parse (to_markdown c)) = to_markdown c
  /\ (had_frontmatter c = false ->
      Forall2 (fun line out => out = line \/ starts_with (trim_start line) "##" = true /\ out = render_block (parse_block line))
        (split_on newline s) (split_on newline (to_markdown c))).
Proof.
  intros c. destruct (parse_readable s) as (Hr & Hset & Hfm). fold c in Hr, Hset, Hfm.
  pose proof (read_back c Hr) as Hback. rewrite Hset, Hfm in Hback. split_and!; [exact Hback| |].
  - rewrite Hback. unfold to_markdown. cbn [had_frontmatter fields blocks]. f_equal. by destruct (decide _) as [->|].
  - intros Hfront. unfold to_markdown. fold (has_frontmatter c). rewrite Hfm, Hfront. cbn [append].
    pose proof (split_lines_one s) as Hls. unfold c, parse in Hfront |- *. pose proof (split_on_nonempty newline s) as Hne.
    destruct (split_on newline s) as [|l ls]; [done|]. destruct (is_fence l); [by destruct (parse_fields ls)|]. cbn [blocks].
    destruct (parsed_blocks_ok (l :: ls) Hls) as [Hok _]. unfold nl. rewrite split_on_join; [|done|].
    + rewrite map_map. generalize (l :: ls)%list. intros ks. clear. induction ks as [|k ks IH]; constructor; [|exact IH].
      unfold parse_block, starts_with. destruct (strip_prefix "##" (trim_start k)); [by right|left].
      destruct (parse_item (trim_start k)) as [[[t u] tr]|] eqn:E; [|done]. cbn. unfold render_item. cbn. by destruct k.
    + apply Forall_map. eapply Forall_impl; [exact Hok|]. by intros b [? _].
Qed.

Definition as_read (o : Outline) : list (string * string * string) * list ((nat * string) * list (string * string * string)) :=
  let seen i := (title i, url i, trailing i) in (map seen o.1, map (fun g => (g.1, map seen g.2)) o.2).

Lemma outline_settle bs : as_read (outline (map settle bs)) = as_read (outline bs).
Proof.
  unfold as_read. induction bs as [|[d n|i|r] bs IH]; cbn; [done|..]; destruct (outline bs) as [l gs], (outline (map settle bs)) as [l' gs'];
    cbn in *; injection IH as IH1 IH2; by rewrite ?IH1, ?IH2.
Qed.

(** C18: a collection survives its edits and its file.  Start from a file with frontmatter, or one with
    no line of three dashes; add plain links, move items and set fields in any order: what is then
    written reads back with the same fields, and the same folders with the same items, in the same
    order. *)
Theorem edited_collections_read_back s c :
  had_frontmatter (parse s) = true \/ forallb (fun line => negb (is_fence line)) (split_on newline s) = true ->
  rtc edit (parse s) c ->
  fields (parse (to_markdown c)) = fields c
  /\ as_read (outline (blocks (parse (to_markdown c)))) = as_read (outline (blocks c)).
Proof.
  intros Hs Hrun. assert (steady c) as Hc.
  { assert (steady (parse s)) as H0.
    { destruct (parse_readable s) as ((Hf & Hb & _) & _ & Hfm). split_and!; [done|done|]. rewrite Hfm. intros E. destruct Hs as [|Hs]; [congruence|].
      unfold parse in E |- *. destruct (split_on newline s) as [|l ls]; [done|]. destruct (is_fence l); [by destruct (parse_fields ls)|].
      cbn [blocks]. apply Forall_map, Forall_forall. intros k Hk. rewrite forallb_forall in Hs. apply list_elem_of_In in Hk.
      by apply parsed_not_fence, negb_true_iff, Hs. }
    clear Hs. induction Hrun as [d|d e f Hstep _ IH]; [done|]. by apply IH, (edit_steady d). }
  rewrite read_back by by apply steady_readable. cbn [fields blocks]. split; [done|].
  destruct (decide (blocks c = [])) as [->|]; [done|apply outline_settle].
Qed.

(** * A small shelf *)

Module Shelf.

Definition text_of (lines : list string) : string := join nl lines.

Definition papers : string :=
  text_of ["---"; "id: quant"; "kind:collection"; "---"; "##  Papers "; "- [One](https://one.org) <!-- added: 1 -->"; "";
           "prose"; "- [Two](https://two.org)"].

Definition edited : Collection :=
  set_field "name" "Quant reading" (move_item "https://one.org" (Some "Read") (add_item (Some "Papers") (new_item "Three" "https://three.org") (parse papers))).1.

Example papers_edited :
  to_markdown edited
  = text_of ["---"; "id: quant"; "kind: collection"; "name: Quant reading"; "---"; "## Papers"; ""; "prose"; "- [Two](https://two.org)";
             "- [Three](https://three.org)"; ""; "## Read"; ""; "- [One](https://one.org) <!-- added: 1 -->"].
Proof. vm_compute. reflexivity. Qed.

Lemma edited_collections_read_back_witness :
  as_read (outline (blocks (parse (to_markdown edited))))
  = ([], [((2%nat, "Papers"), [("Two", "https://two.org", ""); ("Three", "https://three.org", "")]);
          ((2%nat, "Read"), [("One", "https://one.org", "<!-- added: 1 -->")])]).
Proof.
  refine (eq_trans (proj2 (edited_collections_read_back papers edited (or_introl eq_refl) _)) _); [|vm_compute; reflexivity].
  eapply rtc_l; [apply (adds (Some "Papers") "Three" "https://three.org"); [split; reflexivity|reflexivity]|].
  eapply rtc_l; [apply (moves "https://one.org" (Some "Read")); [split; reflexivity|vm_compute; reflexivity]|].
  eapply rtc_l; [apply (sets "name" "Quant reading"); (reflexivity || discriminate)|apply rtc_refl].
Defined.

(** An address with a closing parenthesis is cut at it. *)
Example parenthesis_is_lost :
  items (parse (to_markdown (add_item None (new_item "Lisp" "https://en.wikipedia.org/wiki/Lisp_(language)") (parse ""))))
  = [mkItem "Lisp" "https://en.wikipedia.org/wiki/Lisp_(language" ")" "- [Lisp](https://en.wikipedia.org/wiki/Lisp_(language))" false].
Proof. vm_compute. reflexivity. Qed.

(** Moving the first line away can leave three dashes first, and then the links are frontmatter. *)
Example links_become_frontmatter :
  let c := parse (text_of ["- [a](https://a.org)"; "---"; "- [b](https://b.org)"]) in
  let c' := (move_item "https://a.org" None c).1 in
  (length (items c) = 2%nat /\ length (items c') = 2%nat) /\ items (parse (to_markdown c')) = []
  /\ to_markdown (parse (to_markdown c')) = text_of ["---"; "- [b](https: //b.org)"; "- [a](https: //a.org)"; "---"; ""].
Proof. vm_compute. repeat split. Qed.

(** Frontmatter that is not closed takes the links, and its rewriting changes their addresses. *)
Example unclosed_frontmatter :
  to_markdown (parse (text_of ["---"; "id: x"; "- [b](https://b.org)"])) = text_of ["---"; "id: x"; "- [b](https: //b.org)"; "---"; ""].
Proof. vm_compute. reflexivity. Qed.

(** A rewriting is not the identity: a value moves away from its colon, a folder's line is respelled. *)
Example not_byte_exact :
  to_markdown (parse (text_of ["---"; "kind:snapshot"; "---"; "##Papers"])) = text_of ["---"; "kind: snapshot"; "---"; "## Papers"].
Proof. vm_compute. reflexivity. Qed.

End Shelf.
