(* ===== verification/HotRestartRepair.v ===== *)
(** * What a forced swap owes: one [continue] for each session it interrupted

    src/crates/yggterm-server/src/hot_restart_repair.rs, with the places of
    src/crates/yggterm-server/src/daemon.rs that use it: the record written before a forced shutdown,
    [dispatch_interrupted_session_repairs] and the expiry sweeper.

    The file is a value all daemons of a host share, without a lock: each operation reads it, and writes
    it in a later step that may not land, and the steps of several daemons interleave as they like.
    What came of typing into a session is an input. *)
From S2P Require Import Prelude RustStr.
From Stdlib Require Import ZifyBool ZifyN.
#[local] Open Scope N_scope.

Definition REPAIR_WINDOW_MS : N := 600000.

Record InterruptedSessions := mkInterrupted {
  recorded_at_ms : N; recorded_by_pid : N; recorded_by_version : string; reason : string; sessions : list string }.

Definition with_sessions (l : list string) (r : InterruptedSessions) : InterruptedSessions :=
  mkInterrupted (recorded_at_ms r) (recorded_by_pid r) (recorded_by_version r) (reason r) l.

(** What an operation does to the file; [save] writes beside it and renames, [clear] removes it. *)
Inductive Write := Keep | Clear | Save (r : InterruptedSessions).

Definition apply_write (lands : bool) (w : Write) (file : option InterruptedSessions) : option InterruptedSessions :=
  if lands then match w with Keep => file | Clear => None | Save r => Some r end else file.

(** ** Recording *)

Definition owes (l : list string) (key : string) : bool := existsb (String.eqb key) l.

(** The loop that pushes what is not there yet. *)
Fixpoint push_missing (l existing : list string) : list string :=
  match existing with
  | [] => l
  | key :: existing' => push_missing (if owes l key then l else (l ++ [key])%list) existing'
  end.

Definition merge_for_write (existing : option InterruptedSessions) (incoming : InterruptedSessions) : InterruptedSessions :=
  match existing with
  | Some existing => with_sessions (push_missing (sessions incoming) (sessions existing)) incoming
  | None => incoming
  end.

Definition record (file : option InterruptedSessions) (incoming : InterruptedSessions) : Write :=
  match sessions incoming with [] => Keep | _ => Save (merge_for_write file incoming) end.

(** ** Repairing *)

Record RepairOrigin := mkOrigin {
  origin_at_ms : N; origin_by_pid : N; origin_by_version : string; origin_reason : string }.

Inductive RepairVerdict :=
| Nothing | Expired (age_ms : N) (sessions : list string) | Repair (origin : RepairOrigin) (sessions : list string).

(** [now_ms.saturating_sub(recorded_at_ms)]: subtraction of [N]. *)
Definition age (now_ms : N) (r : InterruptedSessions) : N := now_ms - recorded_at_ms r.

Definition take_repairable (file : option InterruptedSessions) (now_ms my_pid : N) (owned_keys : list string) : RepairVerdict * Write :=
  match file with
  | None => (Nothing, Keep)
  | Some r =>
      if REPAIR_WINDOW_MS <? age now_ms r then (Expired (age now_ms r) (sessions r), Clear)
      else if recorded_by_pid r =? my_pid then (Nothing, Keep)
      else
        let mine := List.filter (owes owned_keys) (sessions r) in
        match mine with
        | [] => (Nothing, Keep)
        | _ =>
            let remaining := List.filter (fun key => negb (owes mine key)) (sessions r) in
            let origin := mkOrigin (recorded_at_ms r) (recorded_by_pid r) (recorded_by_version r) (reason r) in
            (Repair origin mine, match remaining with [] => Clear | _ => Save (with_sessions remaining r) end)
        end
  end.

Definition requeue_unsubmitted (file : option InterruptedSessions) (origin : RepairOrigin) (l : list string) : Write :=
  match l with
  | [] => Keep
  | _ =>
      let at_ms := match file with Some r => N.max (recorded_at_ms r) (origin_at_ms origin) | None => origin_at_ms origin end in
      Save (merge_for_write file (mkInterrupted at_ms (origin_by_pid origin) (origin_by_version origin) (origin_reason origin) l))
  end.

Definition sweep_expired (file : option InterruptedSessions) (now_ms : N) : option (N * list string) * Write :=
  match file with
  | Some r => if age now_ms r <=? REPAIR_WINDOW_MS then (None, Keep) else (Some (age now_ms r, sessions r), Clear)
  | None => (None, Keep)
  end.

Definition format_pending_repair (r : InterruptedSessions) (now_ms : N) : string :=
  ("  repair owed: `continue` for " ++ u64_to_string (N.of_nat (length (sessions r))) ++ " session(s) interrupted "
   ++ u64_to_string (age now_ms r / 1000) ++ "s ago by pid " ++ u64_to_string (recorded_by_pid r) ++ " (" ++ recorded_by_version r
   ++ "), window " ++ u64_to_string (REPAIR_WINDOW_MS / 1000) ++ "s — " ++ join ", " (sessions r) ++ String newline "")%string.

(** ** The daemons of a host *)

(** [PromptSubmitOutcome], or an error. *)
Inductive Outcome := Submitted | NotReady | NoSession | HumanTyping | SubmitError.

(** Nothing was written: the key goes back. *)
Definition unwritten (o : Outcome) : bool := match o with NotReady | HumanTyping => true | _ => false end.

(** A repair in flight: the daemon, and what it took. *)
Record Batch := mkBatch { batch_pid : N; batch_origin : RepairOrigin; targets : list string }.

(** The file; the repairs in flight; and, in the order they happened, the sessions forced swaps have
    recorded and those that were told to continue (or lost: no session, or an error). *)
Record Host := mkHost { file : option InterruptedSessions; in_flight : list Batch; interrupted : list string; spent : list string }.

(** An operation has [seen] the file when it read it, and writes what it makes of that.

    The forced swap: the record is written before the shutdown. *)
Definition force (seen : option InterruptedSessions) (incoming : InterruptedSessions) (lands : bool) (h : Host) : Host :=
  mkHost (apply_write lands (record seen incoming) (file h)) (in_flight h) (interrupted h ++ sessions incoming) (spent h).

(** [dispatch_interrupted_session_repairs], up to the thread it spawns. *)
Definition dispatch (seen : option InterruptedSessions) (now_ms my_pid : N) (owned : list string) (lands : bool) (h : Host) : Host :=
  if negb (is_Some_b seen) || existsb (fun b => batch_pid b =? my_pid) (in_flight h) then h
  else
    let '(verdict, w) := take_repairable seen now_ms my_pid owned in
    let file' := apply_write lands w (file h) in
    match verdict with
    | Repair origin l => mkHost file' (mkBatch my_pid origin (List.filter (owes owned) l) :: in_flight h) (interrupted h) (spent h)
    | _ => mkHost file' (in_flight h) (interrupted h) (spent h)
    end.

(** The thread: one outcome per target; then what was not written is put back.  A daemon that dies
    on the way has fewer outcomes than targets, and puts nothing back. *)
Definition finish (seen : option InterruptedSessions) (i : nat) (outcomes : list Outcome) (lands : bool) (h : Host) : Host :=
  match in_flight h !! i with
  | None => h
  | Some b =>
      let told := combine (targets b) outcomes in
      let unsubmitted := map fst (List.filter (fun ko => unwritten ko.2) told) in
      let done := map fst (List.filter (fun ko => negb (unwritten ko.2)) told) in
      let file' := if (length outcomes <? length (targets b))%nat then file h
                   else apply_write lands (requeue_unsubmitted seen (batch_origin b) unsubmitted) (file h) in
      mkHost file' (vec_remove i (in_flight h)) (interrupted h) (spent h ++ done)
  end.

Definition sweep (seen : option InterruptedSessions) (now_ms : N) (lands : bool) (h : Host) : Host :=
  mkHost (apply_write lands (sweep_expired seen now_ms).2 (file h)) (in_flight h) (interrupted h) (spent h).

(** What a daemon may be about to do; a swap is recorded at the time it is forced. *)
Inductive Step := Force (incoming : InterruptedSessions) | Dispatch (my_pid : N) (owned : list string)
| Finish (i : nat) (outcomes : list Outcome) | Sweep.

Definition at_time (now_ms : N) (r : InterruptedSessions) : InterruptedSessions :=
  mkInterrupted now_ms (recorded_by_pid r) (recorded_by_version r) (reason r) (sessions r).

Definition perform (now_ms : N) (s : Step) (seen : option InterruptedSessions) (lands : bool) (h : Host) : Host :=
  match s with
  | Force incoming => force seen (at_time now_ms incoming) lands h
  | Dispatch pid owned => dispatch seen now_ms pid owned lands h
  | Finish i outcomes => finish seen i outcomes lands h
  | Sweep => sweep seen now_ms lands h
  end.

(** An operation that has read the file and not yet written it. *)
Record Op := mkOp { op_at : N; op_step : Step; op_seen : option InterruptedSessions }.

Record World := mkWorld { host : Host; open_ops : list Op }.

(** Some daemon reads the file; the [i]-th operation that has read it writes. *)
Inductive Event := Reads (now_ms : N) (s : Step) | Writes (i : nat) (lands : bool).

Definition event (w : World) (e : Event) : World :=
  match e with
  | Reads now s => mkWorld (host w) (open_ops w ++ [mkOp now s (file (host w))])
  | Writes i lands =>
      match open_ops w !! i with
      | Some op => mkWorld (perform (op_at op) (op_step op) (op_seen op) lands (host w)) (vec_remove i (open_ops w))
      | None => w
      end
  end.

Definition quiet_host : Host := mkHost None [] [] [].
Definition quiet : World := mkWorld quiet_host [].

(** A history, oldest event first. *)
Definition run (l : list Event) : World := fold_left event l quiet.

(** The write lands, on a file that is still the one its operation read. *)
Definition undisturbed_write (w : World) (e : Event) : Prop :=
  match e with
  | Reads _ _ => True
  | Writes i lands => lands = true /\ forall op, open_ops w !! i = Some op -> op_seen op = file (host w)
  end.

Definition undisturbed (l : list Event) : Prop :=
  forall before e after, l = (before ++ e :: after)%list -> undisturbed_write (run before) e.

(** * Lemmas *)

Definition times (k : string) (l : list string) : nat := length (List.filter (String.eqb k) l).
Definition owed_in_file (k : string) (f : option InterruptedSessions) : nat := match f with Some r => times k (sessions r) | None => 0 end.
Fixpoint owed_in_flight (k : string) (bs : list Batch) : nat :=
  match bs with [] => 0 | b :: bs' => times k (targets b) + owed_in_flight k bs' end.

Lemma times_app k a b : times k (a ++ b) = (times k a + times k b)%nat.
Proof. unfold times. by rewrite List.filter_app, length_app. Qed.

Lemma times_filter k f l : times k (List.filter f l) = if f k then times k l else 0%nat.
Proof.
  unfold times. induction l as [|x l IH]; cbn; [by destruct (f k)|].
  destruct (String.eqb_spec k x) as [<-|Hx].
  - destruct (f k); cbn; [by rewrite String.eqb_refl; cbn; rewrite IH|by rewrite IH].
  - destruct (f x); cbn; rewrite ?(proj2 (String.eqb_neq k x)) by done; by rewrite IH.
Qed.

Lemma owes_spec l k : owes l k = true <-> k ∈ l.
Proof.
  unfold owes. rewrite existsb_exists. split.
  - intros (x & Hx & E). apply String.eqb_eq in E as ->. by apply list_elem_of_In.
  - intros Hk. exists k. split; [by apply list_elem_of_In|apply String.eqb_refl].
Qed.

Lemma times_push_missing k l ex : (times k (push_missing l ex) <= times k l + times k ex)%nat.
Proof.
  revert l. induction ex as [|x ex IH]; intros l; cbn [push_missing]; [change (times k []) with 0%nat; lia|].
  etransitivity; [apply IH|]. change (x :: ex) with ([x] ++ ex)%list. rewrite times_app. destruct (owes l x); [lia|]. rewrite times_app. lia.
Qed.

Lemma times_merge k f r : (times k (sessions (merge_for_write f r)) <= times k (sessions r) + owed_in_file k f)%nat.
Proof. unfold merge_for_write. destruct f as [e|]; cbn; [apply times_push_missing|lia]. Qed.

(** What a daemon takes leaves the record. *)
Lemma take_spends k f now pid owned origin l w :
  take_repairable f now pid owned = (Repair origin l, w) ->
  (times k l + owed_in_file k (apply_write true w f) = owed_in_file k f)%nat.
Proof.
  unfold take_repairable. destruct f as [r|]; [|done]. destruct (_ <? _); [done|]. destruct (_ =? _); [done|].
  destruct (List.filter (owes owned) (sessions r)) as [|x mine] eqn:Em; [done|]. rewrite <- Em. intros [= <- <- <-].
  set (m := List.filter (owes owned) (sessions r)).
  assert (owed_in_file k (apply_write true (match List.filter (fun key => negb (owes m key)) (sessions r) with
            [] => Clear | _ => Save (with_sessions (List.filter (fun key => negb (owes m key)) (sessions r)) r) end) (Some r))
          = times k (List.filter (fun key => negb (owes m key)) (sessions r))) as ->.
  { by destruct (List.filter (fun key => negb (owes m key)) (sessions r)). }
  unfold m. rewrite !times_filter. cbn [owed_in_file]. destruct (owes owned k) eqn:Ho.
  - destruct (owes (List.filter (owes owned) (sessions r)) k) eqn:Hm; cbn; [lia|].
    enough (times k (sessions r) = 0%nat) by lia. pose proof (times_filter k (owes owned) (sessions r)) as Ht. rewrite Ho in Ht. rewrite <- Ht.
    unfold times. destruct (List.filter (String.eqb k) _) as [|y ys] eqn:E; [done|]. exfalso.
    assert (y ∈ List.filter (String.eqb k) (List.filter (owes owned) (sessions r))) as Hy by (rewrite E; apply list_elem_of_here).
    apply list_elem_of_In, filter_In in Hy as [Hy Ek]. apply String.eqb_eq in Ek as <-. apply list_elem_of_In, owes_spec in Hy. congruence.
  - assert (owes (List.filter (owes owned) (sessions r)) k = false) as ->; [|cbn; lia].
    apply not_true_iff_false. intros Hm. apply owes_spec, list_elem_of_In, filter_In in Hm as [_ Hm]. congruence.
Qed.

Lemma take_otherwise k f now pid owned v w :
  take_repairable f now pid owned = (v, w) -> (forall o l, v <> Repair o l) -> (owed_in_file k (apply_write true w f) <= owed_in_file k f)%nat.
Proof.
  unfold take_repairable. destruct f as [r|]; [|by intros [= <- <-]]. destruct (_ <? _); [intros [= <- <-] _; cbn; lia|].
  destruct (_ =? _); [by intros [= <- <-]|]. destruct (List.filter _ _); [by intros [= <- <-]|]. intros [= <- <-] H. by destruct (H _ _ eq_refl).
Qed.

Lemma times_split k (f : string * Outcome -> bool) told :
  (times k (map fst (List.filter f told)) + times k (map fst (List.filter (fun x => negb (f x)) told)) = times k (map fst told))%nat.
Proof.
  unfold times. induction told as [|x told IH]; [done|]. cbn [List.filter map]. destruct (f x); cbn [negb map List.filter];
    destruct (String.eqb k x.1); cbn; lia.
Qed.

Lemma times_combine k l (os : list Outcome) : (times k (map fst (combine l os)) <= times k l)%nat.
Proof.
  revert os. induction l as [|x l IH]; intros os; [done|]. destruct os as [|o os]; [unfold times; cbn; lia|]. cbn [combine map fst].
  specialize (IH os). unfold times in *. cbn. destruct (String.eqb k x); cbn; lia.
Qed.

Lemma flight_perm k a b : a ≡ₚ b -> owed_in_flight k a = owed_in_flight k b.
Proof. induction 1; cbn; lia. Qed.

Definition balanced (h : Host) : Prop :=
  forall k, (times k (spent h) + owed_in_flight k (in_flight h) + owed_in_file k (file h) <= times k (interrupted h))%nat.

Lemma force_balanced r h : balanced h -> balanced (force (file h) r true h).
Proof.
  intros H k. specialize (H k). unfold force. cbn [spent in_flight file interrupted]. rewrite times_app.
  unfold record. destruct (sessions r) as [|x l] eqn:E; cbn [apply_write owed_in_file]; [change (times k []) with 0%nat; lia|].
  pose proof (times_merge k (file h) r) as Hm. rewrite E in Hm. lia.
Qed.

Lemma dispatch_balanced now pid owned h : balanced h -> balanced (dispatch (file h) now pid owned true h).
Proof.
  intros H k. unfold dispatch. destruct (_ || _); [apply H|]. destruct (take_repairable (file h) now pid owned) as [v w] eqn:E.
  specialize (H k). destruct v as [|a l|origin l].
  - cbn [spent in_flight file interrupted]. pose proof (take_otherwise k _ _ _ _ _ _ E ltac:(done)) as Hle. lia.
  - cbn [spent in_flight file interrupted]. pose proof (take_otherwise k _ _ _ _ _ _ E ltac:(done)) as Hle. lia.
  - cbn [spent in_flight file interrupted]. cbn [owed_in_flight targets].
    pose proof (take_spends k _ _ _ _ _ _ _ E) as Hs. rewrite times_filter. destruct (owes owned k); lia.
Qed.

Lemma requeue_owed k f origin l : (owed_in_file k (apply_write true (requeue_unsubmitted f origin l) f) <= times k l + owed_in_file k f)%nat.
Proof. unfold requeue_unsubmitted. destruct l as [|x l]; [cbn; lia|]. cbn [apply_write owed_in_file]. etransitivity; [apply times_merge|]. cbn [sessions]. lia. Qed.

Lemma finish_balanced i outcomes h : balanced h -> balanced (finish (file h) i outcomes true h).
Proof.
  intros H k. unfold finish. destruct (in_flight h !! i) as [b|] eqn:E; [|apply H]. specialize (H k). cbv zeta.
  cbn [spent in_flight file interrupted]. rewrite times_app.
  pose proof (flight_perm k _ _ (vec_remove_perm _ _ _ E)) as Hp. cbn [owed_in_flight] in Hp.
  set (told := combine (targets b) outcomes).
  pose proof (times_split k (fun ko => unwritten ko.2) told) as Hsplit. pose proof (times_combine k (targets b) outcomes) as Hle. fold told in Hle.
  destruct (_ <? _)%nat; [lia|].
  pose proof (requeue_owed k (file h) (batch_origin b) (map fst (List.filter (fun ko => unwritten ko.2) told))) as Hr. lia.
Qed.

Lemma sweep_balanced now h : balanced h -> balanced (sweep (file h) now true h).
Proof.
  intros H k. specialize (H k). unfold sweep, sweep_expired. cbn [spent in_flight file interrupted].
  destruct (file h) as [r|]; [|exact H]. destruct (_ <=? _); [exact H|]. cbn in *. lia.
Qed.

Lemma perform_balanced now s h : balanced h -> balanced (perform now s (file h) true h).
Proof.
  intros H. destruct s; cbn; [by apply force_balanced|by apply dispatch_balanced|by apply finish_balanced|by apply sweep_balanced].
Qed.

Lemma history_snoc l e : run (l ++ [e]) = event (run l) e.
Proof. unfold run. by rewrite fold_left_app. Qed.

Lemma run_balanced l : undisturbed l -> balanced (host (run l)).
Proof.
  induction l as [|e l IH] using rev_ind; intros Hu; [intros k; cbn; lia|]. rewrite history_snoc.
  assert (balanced (host (run l))) as Hb.
  { apply IH. intros before e' after ->. apply (Hu before e' (after ++ [e])%list). by rewrite <- app_assoc. }
  specialize (Hu l e [] eq_refl). destruct e as [now s|i lands]; cbn [event]; [exact Hb|].
  destruct (open_ops (run l) !! i) as [op|] eqn:E; [|exact Hb]. destruct Hu as [-> Hseen]. cbn [host].
  rewrite (Hseen op E). by apply perform_balanced.
Qed.

(** ** Whose record it is

    In every history, interleaved and failing as it may, a record carries the time of one forced swap
    and the name of one, and so does every copy read of it and every repair taken from it. *)

Section Whose.
Context (time_ok pid_ok : N -> Prop).

Definition good (r : InterruptedSessions) : Prop := time_ok (recorded_at_ms r) /\ pid_ok (recorded_by_pid r).
Definition good_file (f : option InterruptedSessions) : Prop := forall r, f = Some r -> good r.
Definition good_origin (o : RepairOrigin) : Prop := time_ok (origin_at_ms o) /\ pid_ok (origin_by_pid o).
Definition good_write (w : Write) : Prop := match w with Save r => good r | _ => True end.
Definition good_step (now : N) (s : Step) : Prop := match s with Force r => good (at_time now r) | _ => True end.
Definition good_batches (l : list Batch) : Prop := Forall (fun b => good_origin (batch_origin b)) l.

Lemma good_apply lands w f : good_write w -> good_file f -> good_file (apply_write lands w f).
Proof. unfold good_file. intros Hw Hf r. destruct lands, w; cbn in *; [auto|done|by intros [= <-]|auto..]. Qed.

Lemma good_merge f r : good r -> good (merge_for_write f r).
Proof. by destruct f. Qed.

Lemma good_take f now pid owned v w :
  good_file f -> take_repairable f now pid owned = (v, w) ->
  good_write w /\ (forall o l, v = Repair o l -> good_origin o).
Proof.
  unfold take_repairable. destruct f as [r|]; [|by intros _ [= <- <-]]. intros Hf. specialize (Hf r eq_refl).
  destruct (_ <? _); [by intros [= <- <-]|]. destruct (_ =? _); [by intros [= <- <-]|].
  destruct (List.filter (owes owned) (sessions r)); [by intros [= <- <-]|]. intros [= <- <-].
  split; [by destruct (List.filter _ (sessions r))|]. by intros ? ? [= <- _].
Qed.

Lemma good_requeue f o l : good_file f -> good_origin o -> good_write (requeue_unsubmitted f o l).
Proof.
  intros Hf [Ht Hp]. unfold requeue_unsubmitted. destruct l as [|k l]; [done|]. cbn [good_write]. apply good_merge.
  split; [|exact Hp]. cbn [recorded_at_ms]. destruct f as [r|]; [|done]. destruct (Hf r eq_refl) as [? _].
  by destruct (N.max_spec (recorded_at_ms r) (origin_at_ms o)) as [[_ ->]|[_ ->]].
Qed.

Lemma good_perform now s seen lands h :
  good_step now s -> good_file seen -> good_file (file h) -> good_batches (in_flight h) ->
  good_file (file (perform now s seen lands h)) /\ good_batches (in_flight (perform now s seen lands h)).
Proof.
  intros Hs Hseen Hf Hb. destruct s as [r|pid owned|i outcomes|]; cbn [perform].
  - split; [|exact Hb]. apply good_apply; [|exact Hf]. unfold record. by destruct (sessions _); [|apply good_merge].
  - unfold dispatch. destruct (_ || _); [done|]. destruct (take_repairable seen now pid owned) as [v w] eqn:E.
    destruct (good_take _ _ _ _ _ _ Hseen E) as [Hw Ho].
    destruct v as [|a l|o l]; (split; [by apply good_apply|]); try exact Hb. constructor; [by apply (Ho o l)|exact Hb].
  - unfold finish. destruct (in_flight h !! i) as [b|] eqn:E; [|done]. cbv zeta. split; cbn [file in_flight].
    + destruct (_ <? _)%nat; [exact Hf|]. apply good_apply; [|exact Hf]. apply good_requeue; [exact Hseen|].
      exact (Forall_lookup_1 _ _ _ _ Hb E).
    + unfold good_batches, vec_remove. apply Forall_app_2; [by apply Forall_take|by apply Forall_drop].
  - split; [|exact Hb]. apply good_apply; [|exact Hf]. unfold sweep_expired. destruct seen as [r|]; [|done]. by destruct (_ <=? _).
Qed.

Definition good_world (w : World) : Prop :=
  good_file (file (host w)) /\ good_batches (in_flight (host w)) /\
  Forall (fun op => good_step (op_at op) (op_step op) /\ good_file (op_seen op)) (open_ops w).

Lemma good_run l :
  (forall now s, Reads now s ∈ l -> good_step now s) -> good_world (run l).
Proof.
  induction l as [|e l IH] using rev_ind; intros Hl; [by split_and!; [|constructor..]|]. rewrite history_snoc.
  destruct IH as (Hf & Hb & Ho); [intros now s Hin; apply Hl, elem_of_app; by left|].
  destruct e as [now s|i lands]; cbn [event].
  - split_and!; [exact Hf|exact Hb|]. apply Forall_app. split; [exact Ho|]. constructor; [|constructor].
    split; [|exact Hf]. apply Hl, elem_of_app. right. by left.
  - destruct (open_ops (run l) !! i) as [op|] eqn:E; [|done]. destruct (Forall_lookup_1 _ _ _ _ Ho E) as [Hstep Hseen].
    destruct (good_perform (op_at op) (op_step op) (op_seen op) lands (host (run l)) Hstep Hseen Hf Hb) as [? ?].
    split_and!; [done..|]. cbn [open_ops]. unfold vec_remove. apply Forall_app_2; [by apply Forall_take|by apply Forall_drop].
Qed.

End Whose.

(** [pid] forced a swap at [t]. *)
Definition forced (l : list Event) (t pid : N) : Prop := exists r, Reads t (Force r) ∈ l /\ recorded_by_pid r = pid.

Lemma run_stamped l : good_world (fun t => exists pid, forced l t pid) (fun pid => exists t, forced l t pid) (run l).
Proof. apply good_run. intros now [r| | |] Hin; cbn; try done. split; cbn; eexists; by exists r. Qed.

(** What a repair that is taken says of the record it was taken from. *)
Lemma dispatch_takes seen now pid owned lands h :
  let h' := dispatch seen now pid owned lands h in
  in_flight h' = in_flight h \/ exists b r,
    in_flight h' = b :: in_flight h /\ seen = Some r /\ batch_pid b = pid /\ targets b <> [] /\
    (forall k, k ∈ targets b <-> k ∈ owned /\ k ∈ sessions r) /\
    recorded_by_pid r <> pid /\ Forall (fun b' => batch_pid b' <> pid) (in_flight h) /\
    now - recorded_at_ms r <= REPAIR_WINDOW_MS.
Proof.
  intros h'. unfold h', dispatch. destruct (negb (is_Some_b seen) || _) eqn:Hbusy; [by left|].
  apply orb_false_iff in Hbusy as [_ Hbusy]. destruct (take_repairable seen now pid owned) as [v w] eqn:E.
  destruct v as [|a ks|origin ks]; [by left|by left|]. right.
  unfold take_repairable in E. destruct seen as [r|]; [|done]. destruct (N.ltb_spec REPAIR_WINDOW_MS (age now r)) as [|Hage]; [done|].
  destruct (N.eqb_spec (recorded_by_pid r) pid) as [|Hpid]; [done|].
  destruct (List.filter (owes owned) (sessions r)) as [|x mine] eqn:Em; [done|]. injection E as <- <- _.
  assert (forall k, k ∈ (x :: mine)%list <-> k ∈ owned /\ k ∈ sessions r) as Hmine.
  { intros k. rewrite <- Em, list_elem_of_In, filter_In, owes_spec, <- list_elem_of_In. tauto. }
  eexists _, r. cbn [in_flight]. split; [reflexivity|]. cbn [batch_pid targets]. split_and!; try done.
  - cbn. assert (owes owned x = true) as -> by (apply owes_spec, (Hmine x), list_elem_of_here). done.
  - intros k. rewrite list_elem_of_In, filter_In, owes_spec, <- list_elem_of_In, Hmine. tauto.
  - apply Forall_forall. intros b' Hb' Hp. enough (true = false) by done. rewrite <- Hbusy. symmetry. apply existsb_exists.
    exists b'. split; [by apply list_elem_of_In|by apply N.eqb_eq].
Qed.

(** * Theorems *)

(** C15: a session is told to continue at most once for each swap that interrupted it, as long as the
    daemons do not get in each other's way.  In every history of the daemons of a host in which each
    write of the record lands on the file its operation had read: the sessions told to continue, those
    in flight and those still recorded are together no more than the swaps recorded, session by
    session.  In every history, however the reads and writes of several daemons interleave and fail: a
    repair that is taken has for targets exactly the sessions of the record read that the daemon owns,
    with nothing else of its own in flight, and it is taken only by a daemon other than the one the
    record names, which forced some swap of the history, and at most ten minutes after the time the
    record carries, which is that of some swap of the history; so a daemon that alone forces takes
    nothing, and nobody takes anything ten minutes after the last forced swap, after which a sweep that
    lands leaves no record. *)
Theorem continue_at_most_once l :
  let w := run l in
  (undisturbed l -> forall k,
    (times k (spent (host w)) + owed_in_flight k (in_flight (host w)) + owed_in_file k (file (host w))
     <= times k (interrupted (host w)))%nat)
  /\ (forall i lands now pid owned seen, open_ops w !! i = Some (mkOp now (Dispatch pid owned) seen) ->
      let w' := event w (Writes i lands) in
      in_flight (host w') = in_flight (host w) \/ exists b r,
        in_flight (host w') = b :: in_flight (host w) /\ seen = Some r /\ batch_pid b = pid /\ targets b <> []
        /\ (forall k, k ∈ targets b <-> k ∈ owned /\ k ∈ sessions r)
        /\ Forall (fun b' => batch_pid b' <> pid) (in_flight (host w))
        /\ (exists other t, other <> pid /\ other = recorded_by_pid r /\ forced l t other)
        /\ (exists t other, t = recorded_at_ms r /\ forced l t other /\ now - t <= REPAIR_WINDOW_MS))
  /\ (forall now, (forall t pid, forced l t pid -> t + REPAIR_WINDOW_MS < now) ->
      file (sweep (file (host w)) now true (host w)) = None).
Proof.
  intros w. destruct (run_stamped l) as (Hf & _ & Ho). fold w in Hf, Ho. split; [by apply run_balanced|]. split.
  - intros i lands now pid owned seen Hi w'. unfold w'. cbn [event]. rewrite Hi. cbn [host op_at op_step op_seen perform].
    destruct (dispatch_takes seen now pid owned lands (host w)) as [?|(b & r & ? & -> & ? & ? & ? & ? & ? & ?)]; [by left|].
    right. exists b, r. destruct (Forall_lookup_1 _ _ _ _ Ho Hi) as [_ Hseen].
    destruct (Hseen r eq_refl) as [[other Ht] [t Hp]]. split_and!; try done; [by exists (recorded_by_pid r), t|].
    by exists (recorded_at_ms r), other.
  - intros now Hold. unfold sweep, sweep_expired. cbn [file]. destruct (file (host w)) as [r|] eqn:Ef; [|done].
    destruct (Hf r eq_refl) as [[pid Ht] _]. specialize (Hold _ _ Ht). unfold age.
    destruct (N.leb_spec (now - recorded_at_ms r) REPAIR_WINDOW_MS); [lia|done].
Qed.

(** * What goes wrong *)

Module Cases.

Definition swap (pid : N) (l : list string) : Step := Force (mkInterrupted 0 pid "2.1.0" "deadline" l).

(** An operation that nothing comes between. *)
Definition at_once (now : N) (s : Step) : list Event := [Reads now s; Writes 0 true].

Lemma at_once_undisturbed : undisturbed (at_once 0 (swap 1 ["a"; "b"]) ++ at_once 1 (Dispatch 2 ["a"]) ++ at_once 2 (Finish 0 [Submitted])).
Proof.
  intros before e after. cbn. intros Hl.
  repeat (destruct before as [|e' before]; [injection Hl as <- _; cbn; first [exact I|split; [done|by intros op [= <-]]]|injection Hl as <- Hl]).
  by destruct before.
Qed.

Lemma continue_at_most_once_witness :
  let l := (at_once 0 (swap 1 ["a"; "b"]) ++ at_once 1 (Dispatch 2 ["a"]) ++ at_once 2 (Finish 0 [Submitted]))%list in
  spent (host (run l)) = ["a"] /\
  (times "a" (spent (host (run l))) + owed_in_flight "a" (in_flight (host (run l))) + owed_in_file "a" (file (host (run l)))
   <= times "a" (interrupted (host (run l))))%nat.
Proof.
  intros l. split; [by vm_compute|]. exact (proj1 (continue_at_most_once l) at_once_undisturbed "a").
Defined.

(** A write that does not land: the session is told twice. *)
Example lost_write_tells_twice :
  let w := run (at_once 0 (swap 1 ["a"; "b"]) ++ [Reads 1 (Dispatch 2 ["a"]); Writes 0 false] ++ at_once 1 (Finish 0 [Submitted])
                ++ at_once 2 (Dispatch 2 ["a"]) ++ at_once 2 (Finish 0 [Submitted])) in
  spent (host w) = ["a"; "a"] /\ interrupted (host w) = ["a"; "b"].
Proof. by vm_compute. Qed.

(** Two daemons take what each of them owns, and the second write brings back what the first had
    taken: the session is told twice, though every write landed and no session has two owners. *)
Example overlap_tells_twice :
  let w := run (at_once 0 (swap 1 ["a"; "b"]) ++ [Reads 1 (Dispatch 2 ["a"]); Reads 1 (Dispatch 3 ["b"]); Writes 0 true; Writes 0 true]
                ++ at_once 2 (Finish 1 [Submitted]) ++ at_once 3 (Dispatch 2 ["a"]) ++ at_once 4 (Finish 0 [Submitted])) in
  spent (host w) = ["a"; "a"] /\ interrupted (host w) = ["a"; "b"].
Proof. by vm_compute. Qed.

(** A swap recorded while another daemon takes is forgotten: its sessions are never told. *)
Example overlap_forgets_a_swap :
  let w := run (at_once 0 (swap 1 ["a"; "b"]) ++ [Reads 1 (Dispatch 2 ["a"])] ++ [Reads 1 (swap 3 ["c"]); Writes 1 true; Writes 0 true]) in
  (sessions <$> file (host w)) = Some ["b"] /\ interrupted (host w) = ["a"; "b"; "c"].
Proof. by vm_compute. Qed.

(** A record left for a day is revived by the next swap. *)
Example old_record_is_revived :
  let w := run (at_once 0 (swap 1 ["a"]) ++ at_once 86400000 (swap 3 ["b"]) ++ at_once 86400001 (Dispatch 4 ["a"])) in
  map targets (in_flight (host w)) = [["a"]] /\
  in_flight (host (run (at_once 0 (swap 1 ["a"]) ++ at_once 86400001 (Dispatch 4 ["a"])))) = [].
Proof. by vm_compute. Qed.

(** A second swap takes over the recorder's name: the first recorder, still alive, repairs its own. *)
Example recorder_repairs_itself :
  let w := run (at_once 0 (swap 1 ["a"]) ++ at_once 1 (swap 3 ["b"]) ++ at_once 2 (Dispatch 1 ["a"])) in
  map (fun b => (batch_pid b, targets b)) (in_flight (host w)) = [(1, ["a"])].
Proof. by vm_compute. Qed.

(** So does a requeue, which writes the name of the older swap over the newer. *)
Example requeue_renames_the_recorder :
  let w := run (at_once 0 (swap 1 ["a"]) ++ at_once 1 (Dispatch 4 ["a"]) ++ at_once 2 (swap 3 ["b"]) ++ at_once 3 (Finish 0 [NotReady])
                ++ at_once 4 (Dispatch 3 ["b"])) in
  map (fun b => (batch_pid b, targets b)) (in_flight (host w)) = [(3, ["b"])].
Proof. by vm_compute. Qed.

End Cases.
