(* ===== verification/WebHistory.v ===== *)
(** * The browsing journal of a profile

    src/crates/yggterm-core/src/web_history.rs: the reader for the viewer and the one for an import, the
    append of one visit, and the import that merges visits into their place.

    JSON is serde's: the class [Json] is what is used of it.  The file is its text, or absent; what it
    holds just before an import swaps it is an input. *)
From S2P Require Import Prelude RustStr.
From Stdlib Require Import ZifyBool ZifyN.
#[local] Open Scope N_scope.
#[local] Open Scope string_scope.

Record WebHistoryEntry := mkVisit { ts_ms : N; url : string; title : string }.

#[export] Instance WebHistoryEntry_eq_dec : EqDecision WebHistoryEntry.
Proof. solve_decision. Defined.

(** [serde_json::from_str], the accessors of a value, and the text of an object of the three fields. *)
Class Json := {
  Value : Type;
  from_str : string -> option Value;
  get : Value -> string -> option Value;
  as_str : Value -> option string;
  as_u64 : Value -> option N;
  object_text : N -> string -> string -> string
}.

Definition carriage_return : ascii := "013".

(** What a document serde wrote has: it reads back, it is one line, and it is not blank; an empty text
    is no document. *)
Class JsonLaws `{Json} := {
  object_reads ts u t : exists v, from_str (trim (object_text ts u t)) = Some v
    /\ (get v "ts_ms" ≫= as_u64) = Some ts /\ (get v "url" ≫= as_str) = Some u /\ (get v "title" ≫= as_str) = Some t;
  object_one_line ts u t : free_of newline (object_text ts u t) = true;
  object_no_return ts u t : free_of carriage_return (object_text ts u t) = true;
  object_not_blank ts u t : str_is_empty (trim (object_text ts u t)) = false;
  empty_no_document : from_str "" = None
}.

Section Journal.
Context `{Json}.

Definition to_jsonl_line (v : WebHistoryEntry) : string := object_text (ts_ms v) (url v) (title v).

Definition from_jsonl_line (line : string) : option WebHistoryEntry :=
  value ← from_str (trim line);
  u ← (get value "url" ≫= as_str);
  Some (mkVisit (default 0 (get value "ts_ms" ≫= as_u64)) u (default "" (get value "title" ≫= as_str))).

Definition web_history_url_is_page (u : string) : bool := starts_with u "http://" || starts_with u "https://".

(** ** Reading *)

(** The loop of [parse_web_history], over the lines from the last; [n] are already out. *)
Fixpoint newest (limit : nat) (seen : gset string) (n : nat) (ls : list string) : list WebHistoryEntry :=
  match ls with
  | [] => []
  | line :: ls' =>
      match from_jsonl_line line with
      | None => newest limit seen n ls'
      | Some entry =>
          if bool_decide (url entry ∈ seen) then newest limit seen n ls'
          else entry :: (if (limit <=? S n)%nat then [] else newest limit ({[url entry]} ∪ seen) (S n) ls')
      end
  end.

Definition parse_web_history (raw : string) (limit : nat) : list WebHistoryEntry := newest limit ∅ 0 (rev (lines raw)).

Definition read_web_history_file (file : option string) (limit : nat) : list WebHistoryEntry :=
  match file with Some raw => parse_web_history raw limit | None => [] end.

Definition is_blank_line (line : string) : bool := str_is_empty (trim line).

Definition visits_of (ls : list string) : list WebHistoryEntry :=
  omap from_jsonl_line (List.filter (fun line => negb (is_blank_line line)) ls).

Definition read_web_visits (file : option string) : list WebHistoryEntry :=
  match file with Some raw => visits_of (lines raw) | None => [] end.

(** ** Writing *)

Record HistoryWriteReport := mkReport { appended : nat; duplicates : nat; skipped_not_page : nat; rewrote : bool }.

Definition unlines (ls : list string) : string := foldr (fun line rest => line ++ String newline rest) "" ls.

Definition append_lines (file : option string) (visits : list WebHistoryEntry) : option string :=
  Some (default "" file ++ unlines (map to_jsonl_line visits)).

Definition append_web_visit (file : option string) (visit : WebHistoryEntry) : option string * bool :=
  if web_history_url_is_page (url visit) then (append_lines file [visit], true) else (file, false).

(** The derived order: by time, then address, then title. *)
Definition visit_leb (a b : WebHistoryEntry) : bool :=
  match (ts_ms a ?= ts_ms b)%N with
  | Lt => true
  | Gt => false
  | Eq => match String.compare (url a) (url b) with
          | Lt => true
          | Gt => false
          | Eq => match String.compare (title a) (title b) with Gt => false | _ => true end
          end
  end.

(** The loop of [plan_write]: the fresh visits, the repeated, and those that are no page. *)
Fixpoint plan (seen : gset (string * N)) (visits : list WebHistoryEntry) : list WebHistoryEntry * nat * nat :=
  match visits with
  | [] => ([], 0%nat, 0%nat)
  | v :: visits' =>
      if negb (web_history_url_is_page (url v)) then
        let '(fresh, dup, skip) := plan seen visits' in (fresh, dup, S skip)
      else if bool_decide ((url v, ts_ms v) ∈ seen) then
        let '(fresh, dup, skip) := plan seen visits' in (fresh, S dup, skip)
      else
        let '(fresh, dup, skip) := plan ({[(url v, ts_ms v)]} ∪ seen) visits' in (v :: fresh, dup, skip)
  end.

Definition plan_write (file : option string) (visits : list WebHistoryEntry) : list WebHistoryEntry * HistoryWriteReport :=
  let seen : gset (string * N) := list_to_set (map (fun v => (url v, ts_ms v)) (read_web_visits file)) in
  let '(fresh, dup, skip) := plan seen visits in
  (stable_sort visit_leb fresh, mkReport 0 dup skip false).

(** The [while] over the pending visits: those not after [ts], and the rest. *)
Fixpoint due (ts : N) (pending : list WebHistoryEntry) : list WebHistoryEntry * list WebHistoryEntry :=
  match pending with
  | v :: pending' => if (ts_ms v <=? ts)%N then let '(now, later) := due ts pending' in (v :: now, later) else ([], pending)
  | [] => ([], [])
  end.

(** The lines of the rewritten file. *)
Fixpoint weave (pending : list WebHistoryEntry) (carried_ts : N) (ls : list string) : list string :=
  match ls with
  | [] => map to_jsonl_line pending
  | line :: ls' =>
      if is_blank_line line then "" :: weave pending carried_ts ls'
      else
        let ts := match from_jsonl_line line with Some v => ts_ms v | None => carried_ts end in
        let '(now, later) := due ts pending in
        (map to_jsonl_line now ++ line :: weave later ts ls')%list
  end.

Definition newest_ts (ls : list string) : option N :=
  match map ts_ms (omap from_jsonl_line ls) with [] => None | t :: ts => Some (fold_left N.max ts t) end.

(** [after]: what the file holds when it is read again before the swap. *)
Definition merge_web_visits (file after : option string) (visits : list WebHistoryEntry) : option string * HistoryWriteReport :=
  let '(fresh, report) := plan_write file visits in
  match fresh with
  | [] => (after, report)
  | first :: _ =>
      let existing := default "" file in
      let report' := mkReport (length fresh) (duplicates report) (skipped_not_page report) in
      if match newest_ts (lines existing) with None => true | Some newest => (newest <=? ts_ms first)%N end
      then (append_lines after fresh, report' false)
      else
        let merged := unlines (weave fresh 0 (lines existing)) in
        let carried := match strip_prefix existing (default "" after) with Some more => more | None => "" end in
        (Some (merged ++ carried), report' true)
  end.
End Journal.

(** * Lemmas: lines *)

(** A line as this program writes it. *)
Definition journal_line (line : string) : Prop := free_of newline line = true /\ free_of carriage_return line = true.

Lemma chop_cr_free s : free_of carriage_return s = true -> chop_cr s = s.
Proof.
  intros Hs. unfold chop_cr. destruct (strip_suffix (String "013" "") s) as [r|] eqn:E; [|done]. apply strip_suffix_Some in E as ->.
  unfold free_of in Hs. rewrite str_forallb_app in Hs. apply andb_true_iff in Hs as [_ Hs]. done.
Qed.

Lemma chop_lines_closed ls : Forall journal_line ls -> chop_lines (ls ++ [""])%list = ls.
Proof.
  induction 1 as [|l ls [_ Hl] Hls IH]; [done|]. cbn [app chop_lines]. rewrite IH. destruct (ls ++ [""])%list eqn:E; [by destruct ls|].
  by rewrite chop_cr_free.
Qed.

Lemma split_unlines ls : Forall journal_line ls -> split_on newline (unlines ls) = (ls ++ [""])%list.
Proof. induction 1 as [|l ls [Hl _] Hls IH]; [done|]. change (unlines (l :: ls)) with (l ++ String newline (unlines ls)). rewrite split_on_app by done. by rewrite IH. Qed.

Lemma lines_unlines ls : Forall journal_line ls -> lines (unlines ls) = ls.
Proof. intros H. unfold lines. rewrite split_unlines by done. by apply chop_lines_closed. Qed.

Lemma unlines_app a b : unlines (a ++ b) = unlines a ++ unlines b.
Proof.
  induction a as [|l a IH]; [done|]. cbn [app].
  change (l ++ String newline (unlines (a ++ b)) = (l ++ String newline (unlines a)) ++ unlines b). rewrite IH, <- string_app_assoc. done.
Qed.

(** ** Order *)

Lemma visit_leb_time a b : visit_leb a b = true -> (ts_ms a <= ts_ms b)%N.
Proof. unfold visit_leb. destruct (N.compare_spec (ts_ms a) (ts_ms b)); [lia|lia|done]. Qed.

#[export] Instance visit_order : BoolOrder visit_leb.
Proof.
  unfold visit_leb. split.
  - intros a b. rewrite (N.compare_antisym (ts_ms a) (ts_ms b)), (compare_antisym_str (url a) (url b)), (compare_antisym_str (title a) (title b)).
    destruct (ts_ms a ?= ts_ms b)%N; cbn; auto. destruct (String.compare (url a) (url b)); cbn; auto.
    destruct (String.compare (title a) (title b)); cbn; auto.
  - intros a b c.
    destruct (N.compare_spec (ts_ms a) (ts_ms b)) as [E1|E1|E1], (N.compare_spec (ts_ms b) (ts_ms c)) as [E2|E2|E2]; try done;
      intros H1 H2; try (by rewrite (proj2 (N.compare_lt_iff _ _)) by lia).
    rewrite E1, E2, N.compare_refl.
    destruct (String.compare (url a) (url b)) eqn:U1; [| |done]; destruct (String.compare (url b) (url c)) eqn:U2; try done.
    + apply compare_eq_str in U1, U2. rewrite U1, U2, compare_refl_str.
      destruct (String.compare (title a) (title b)) eqn:T1; [| |done]; destruct (String.compare (title b) (title c)) eqn:T2; try done.
      * apply compare_eq_str in T1, T2. by rewrite T1, T2, compare_refl_str.
      * apply compare_eq_str in T1. by rewrite T1, T2.
      * apply compare_eq_str in T2. by rewrite <- T2, T1.
      * by rewrite (compare_lt_trans_str _ _ _ T1 T2).
    + apply compare_eq_str in U1. by rewrite U1, U2.
    + apply compare_eq_str in U2. by rewrite <- U2, U1.
    + by rewrite (compare_lt_trans_str _ _ _ U1 U2).
Qed.

Definition by_time (a b : WebHistoryEntry) : Prop := (ts_ms a <= ts_ms b)%N.

Lemma ordered_by_time l : ordered visit_leb l -> StronglySorted by_time l.
Proof.
  induction 1 as [|v l Hl IH Hv]; constructor; [done|]. eapply Forall_impl; [exact Hv|]. intros w. apply visit_leb_time.
Qed.

(** ** Planning *)

Definition visit_key (v : WebHistoryEntry) : string * N := (url v, ts_ms v).

Lemma plan_spec seen visits :
  let '(fresh, dup, skip) := plan seen visits in
  (length fresh + dup + skip)%nat = length visits /\ NoDup (map visit_key fresh)
  /\ (forall v, v ∈ fresh -> v ∈ visits /\ web_history_url_is_page (url v) = true /\ visit_key v ∉ seen)
  /\ (forall v, v ∈ visits -> web_history_url_is_page (url v) = true -> visit_key v ∈ seen \/ visit_key v ∈ map visit_key fresh).
Proof.
  revert seen. induction visits as [|v visits IH]; intros seen; cbn [plan].
  { split_and!; [done|constructor|by intros v ?%elem_of_nil|by intros v ?%elem_of_nil]. }
  destruct (web_history_url_is_page (url v)) eqn:Hpage; cbn [negb].
  - case_bool_decide as Hseen.
    + specialize (IH seen). destruct (plan seen visits) as [[fresh dup] skip]. destruct IH as (Hl & Hnd & Hin & Hall).
      split_and!; [cbn; lia|done| |].
      * intros w Hw. destruct (Hin w Hw) as (? & ? & ?). split_and!; [by apply list_elem_of_further|done|done].
      * intros w [->|Hw]%elem_of_cons Hp; [by left|by apply Hall].
    + specialize (IH ({[(url v, ts_ms v)]} ∪ seen)). destruct (plan _ visits) as [[fresh dup] skip]. destruct IH as (Hl & Hnd & Hin & Hall).
      split_and!; [cbn; lia| | |].
      * cbn [map]. constructor; [|done]. intros (w & Ew & Hw)%list_elem_of_fmap. destruct (Hin w Hw) as (_ & _ & Hns).
        apply Hns. rewrite <- Ew. apply elem_of_union_l, elem_of_singleton. done.
      * intros w [->|Hw]%elem_of_cons; [split_and!; [apply list_elem_of_here|done|exact Hseen]|]. destruct (Hin w Hw) as (? & ? & Hns).
        split_and!; [by apply list_elem_of_further|done|]. intros Hs. apply Hns. by apply elem_of_union_r.
      * intros w [->|Hw]%elem_of_cons Hp; [right; apply list_elem_of_here|]. destruct (Hall w Hw Hp) as [Hs|Hs].
        -- apply elem_of_union in Hs as [Hs%elem_of_singleton|Hs]; [right; cbn [map]; unfold visit_key in *; rewrite Hs; apply list_elem_of_here|by left].
        -- right. by apply list_elem_of_further.
  - specialize (IH seen). destruct (plan seen visits) as [[fresh dup] skip]. destruct IH as (Hl & Hnd & Hin & Hall).
    split_and!; [cbn; lia|done| |].
    + intros w Hw. destruct (Hin w Hw) as (? & ? & ?). split_and!; [by apply list_elem_of_further|done|done].
    + intros w [->|Hw]%elem_of_cons Hp; [congruence|by apply Hall].
Qed.

Lemma filter_sublist {A} (f : A -> bool) l : List.filter f l `sublist_of` l.
Proof. induction l as [|x l IH]; cbn; [constructor|]. destruct (f x); by constructor. Qed.

Section Laws.
Context `{J : Json} {L : JsonLaws}.

Lemma line_reads v : from_jsonl_line (to_jsonl_line v) = Some v.
Proof.
  unfold from_jsonl_line, to_jsonl_line. destruct (object_reads (ts_ms v) (url v) (title v)) as (x & -> & Ht & Hu & Hti). cbn.
  rewrite Hu. cbn. rewrite Ht, Hti. by destruct v.
Qed.

Lemma written_line v : journal_line (to_jsonl_line v).
Proof. split; [apply object_one_line|apply object_no_return]. Qed.

Lemma written_not_blank v : is_blank_line (to_jsonl_line v) = false.
Proof. apply object_not_blank. Qed.

Lemma blank_reads_nothing line : is_blank_line line = true -> from_jsonl_line line = None.
Proof.
  unfold is_blank_line, from_jsonl_line. intros Hl. assert (trim line = "") as -> by (by destruct (trim line)). by rewrite empty_no_document.
Qed.

Lemma visits_of_omap ls : visits_of ls = omap from_jsonl_line ls.
Proof.
  unfold visits_of. induction ls as [|l ls IH]; [done|]. cbn. destruct (is_blank_line l) eqn:E; cbn; [by rewrite blank_reads_nothing|].
  destruct (from_jsonl_line l); by rewrite IH.
Qed.

Lemma visits_of_app a b : visits_of (a ++ b) = (visits_of a ++ visits_of b)%list.
Proof. rewrite !visits_of_omap. apply omap_app. Qed.

Lemma visits_of_written vs : visits_of (map to_jsonl_line vs) = vs.
Proof. rewrite visits_of_omap. induction vs as [|v vs IH]; [done|]. cbn. by rewrite line_reads, IH. Qed.

(** ** Weaving *)

Lemma due_spec ts pending :
  let '(now, later) := due ts pending in
  pending = (now ++ later)%list /\ Forall (fun v => ts_ms v <= ts)%N now
  /\ (StronglySorted by_time pending -> Forall (fun v => ts < ts_ms v)%N later).
Proof.
  induction pending as [|v pending IH]; cbn; [done|]. destruct (N.leb_spec (ts_ms v) ts).
  - destruct (due ts pending) as [now later]. destruct IH as (-> & Hn & Hl). split; [done|]. split; [by constructor|].
    intros [Hs _]%StronglySorted_inv. by apply Hl.
  - split; [done|]. split; [constructor|]. intros [Hs Hv]%StronglySorted_inv. constructor; [done|].
    eapply Forall_impl; [exact Hv|]. unfold by_time. intros w Hw. lia.
Qed.

Lemma weave_lines pending ts ls : Forall journal_line ls -> Forall journal_line (weave pending ts ls).
Proof.
  intros Hls. revert pending ts. induction Hls as [|l ls Hl Hls IH]; intros pending ts; cbn [weave].
  - apply Forall_map, Forall_true. apply written_line.
  - destruct (is_blank_line l); [by constructor|]. destruct (due _ pending) as [now later].
    apply Forall_app_2; [apply Forall_map, Forall_true, written_line|]. by constructor.
Qed.

Lemma weave_keeps pending ts ls :
  List.filter (fun line => negb (is_blank_line line)) ls `sublist_of` weave pending ts ls.
Proof.
  revert pending ts. induction ls as [|l ls IH]; intros pending ts; cbn; [apply sublist_nil_l|].
  destruct (is_blank_line l); cbn; [by constructor|]. destruct (due _ pending) as [now later].
  apply sublist_inserts_l. by constructor.
Qed.

Lemma weave_visits pending ts ls : visits_of (weave pending ts ls) ≡ₚ (pending ++ visits_of ls)%list.
Proof.
  revert pending ts. induction ls as [|l ls IH]; intros pending ts; cbn [weave].
  - rewrite visits_of_written. unfold visits_of. cbn. by rewrite app_nil_r.
  - destruct (is_blank_line l) eqn:Hb.
    + change ("" :: weave pending ts ls) with ([""] ++ weave pending ts ls)%list. change (l :: ls) with ([l] ++ ls)%list.
      rewrite !visits_of_app. assert (visits_of [l] = []) as -> by (unfold visits_of; cbn; by rewrite Hb). apply IH.
    + pose proof (due_spec (match from_jsonl_line l with Some v => ts_ms v | None => ts end) pending) as Hdue.
      destruct (due _ pending) as [now later]. destruct Hdue as (-> & _ & _).
      change (l :: ?x) with ([l] ++ x)%list. rewrite !visits_of_app, visits_of_written, IH, <- !app_assoc.
      apply Permutation_app_head. by rewrite Permutation_app_swap_app.
Qed.

Lemma weave_sorted pending ts ls :
  StronglySorted by_time pending -> StronglySorted by_time (visits_of ls) -> Forall (fun v => ts <= ts_ms v)%N (visits_of ls) ->
  StronglySorted by_time (visits_of (weave pending ts ls)).
Proof.
  revert pending ts. induction ls as [|l ls IH]; intros pending ts Hp Hs Hge; cbn [weave].
  - by rewrite visits_of_written.
  - rewrite visits_of_omap in Hs, Hge. cbn [omap list_omap] in Hs, Hge. destruct (is_blank_line l) eqn:Hb.
    + rewrite blank_reads_nothing in Hs, Hge by done. rewrite visits_of_omap. cbn [omap list_omap].
      rewrite (blank_reads_nothing "") by done. rewrite <- visits_of_omap in *. by apply IH.
    + set (ts' := match from_jsonl_line l with Some v => ts_ms v | None => ts end).
      pose proof (due_spec ts' pending) as Hdue. destruct (due ts' pending) as [now later]. destruct Hdue as (-> & Hnow & Hlater).
      specialize (Hlater Hp). apply StronglySorted_app in Hp as (Hcross & Hsn & Hsl).
      assert (StronglySorted by_time (visits_of ls) /\ Forall (fun v => ts' <= ts_ms v)%N (visits_of ls)) as [Hs' Hge'].
      { rewrite visits_of_omap. unfold ts'. destruct (from_jsonl_line l) as [v|]; [|done]. apply StronglySorted_inv in Hs as [Hs Hv]. done. }
      specialize (IH later ts' Hsl Hs' Hge').
      assert (Forall (fun v => ts' <= ts_ms v)%N (visits_of (weave later ts' ls))) as Htail.
      { rewrite weave_visits. apply Forall_app_2; [|done]. eapply Forall_impl; [exact Hlater|]. intros v Hv. cbn in *. lia. }
      rewrite visits_of_app, visits_of_written. rewrite (visits_of_omap (l :: _)). cbn [omap list_omap]. rewrite <- visits_of_omap.
      apply StronglySorted_app. split; [|split; [done|]].
      * intros a b Ha Hb'. rewrite Forall_forall in Hnow. specialize (Hnow a Ha). unfold by_time.
        assert (ts' <= ts_ms b)%N; [|lia]. rewrite Forall_forall in Htail. unfold ts' in *. destruct (from_jsonl_line l) as [v|]; [|by apply Htail].
        apply elem_of_cons in Hb' as [->|Hb']; [lia|by apply Htail].
      * unfold ts' in *. destruct (from_jsonl_line l) as [v|]; [|done]. by constructor.
Qed.

Lemma newest_ts_spec ls :
  match newest_ts ls with
  | Some n => Forall (fun v => ts_ms v <= n)%N (visits_of ls)
  | None => visits_of ls = []
  end.
Proof.
  unfold newest_ts. rewrite visits_of_omap. generalize (omap from_jsonl_line ls). intros vs. destruct vs as [|v vs]; [done|]. cbn [map].
  assert (forall t, t <= fold_left N.max (map ts_ms vs) t /\ Forall (fun w => ts_ms w <= fold_left N.max (map ts_ms vs) t) vs)%N as Hmax.
  { induction vs as [|w vs IH]; intros t; cbn; [split; [lia|constructor]|]. destruct (IH (N.max t (ts_ms w))) as [H1 H2].
    split; [lia|]. constructor; [lia|done]. }
  destruct (Hmax (ts_ms v)) as [H1 H2]. by constructor.
Qed.

Lemma read_visits_unlines file ls : Forall journal_line ls -> default "" file = unlines ls -> read_web_visits file = visits_of ls.
Proof.
  intros Hls Hf. destruct file as [raw|]; cbn in *; [subst; by rewrite lines_unlines|].
  destruct ls as [|l ls]; [done|]. cbn in Hf. by destruct l.
Qed.

(** The planner on a journal: sorted, new, and covering what was asked. *)
Lemma plan_write_spec file ls visits :
  Forall journal_line ls -> default "" file = unlines ls ->
  let '(fresh, report) := plan_write file visits in
  (length fresh + duplicates report + skipped_not_page report)%nat = length visits /\ StronglySorted by_time fresh
  /\ NoDup (map visit_key fresh) /\ appended report = 0%nat /\ rewrote report = false
  /\ (forall v, v ∈ fresh -> v ∈ visits /\ web_history_url_is_page (url v) = true /\ visit_key v ∉ map visit_key (visits_of ls))
  /\ (forall v, v ∈ visits -> web_history_url_is_page (url v) = true -> visit_key v ∈ map visit_key (visits_of ls ++ fresh)).
Proof.
  intros Hls Hf. unfold plan_write. rewrite (read_visits_unlines file ls) by done.
  set (seen := list_to_set (map (fun v => (url v, ts_ms v)) (visits_of ls)) : gset (string * N)).
  assert (forall k, k ∈ seen <-> k ∈ map visit_key (visits_of ls)) as Hseen by (intros k; unfold seen; by rewrite elem_of_list_to_set).
  pose proof (plan_spec seen visits) as Hplan. destruct (plan seen visits) as [[fresh dup] skip]. destruct Hplan as (Hl & Hnd & Hin & Hall).
  pose proof (stable_sort_perm visit_leb fresh) as Hperm. split_and!.
  - rewrite length_stable_sort. exact Hl.
  - apply ordered_by_time, stable_sort_sorted.
    + apply _.
  - by rewrite (Permutation_map visit_key Hperm).
  - done.
  - done.
  - intros v Hv. rewrite elem_of_stable_sort in Hv. destruct (Hin v Hv) as (? & ? & Hns). by rewrite Hseen in Hns.
  - intros v Hv Hp. rewrite map_app, elem_of_app, (Permutation_map visit_key Hperm). destruct (Hall v Hv Hp) as [Hs|Hs]; [left; by apply Hseen|by right].
Qed.

(** A second import of the same visits finds them all. *)
Lemma plan_write_again file ls visits :
  Forall journal_line ls -> default "" file = unlines ls ->
  (forall v, v ∈ visits -> web_history_url_is_page (url v) = true -> visit_key v ∈ map visit_key (visits_of ls)) ->
  (plan_write file visits).1 = [].
Proof.
  intros Hls Hf Hknown. pose proof (plan_write_spec file ls visits Hls Hf) as Hp. destruct (plan_write file visits) as [fresh report].
  destruct Hp as (_ & _ & _ & _ & _ & Hin & _). cbn. destruct fresh as [|v fresh]; [done|].
  destruct (Hin v (list_elem_of_here _ _)) as (Hv & Hpage & Hns). by destruct (Hns (Hknown v Hv Hpage)).
Qed.

(** C16: an import keeps the journal.  Take a journal whose lines are in visit order, that ends with a
    line feed or is empty, and that nobody writes meanwhile.  After an import the file is such a
    journal again: its visits are the old ones and the new ones, in visit order; every line that is
    not blank is still there as it was, in its place among the others; the new ones are pages that were
    asked for and not there yet, each once, and every page that was asked for is there; the report
    counts what was asked; and importing the same again changes nothing. *)
Theorem import_keeps_the_journal file ls visits :
  default "" file = unlines ls -> Forall journal_line ls -> StronglySorted by_time (visits_of ls) ->
  let '(file', report) := merge_web_visits file file visits in
  exists ls' fresh, default "" file' = unlines ls' /\ Forall journal_line ls' /\ StronglySorted by_time (visits_of ls')
    /\ visits_of ls' ≡ₚ (fresh ++ visits_of ls)%list
    /\ List.filter (fun line => negb (is_blank_line line)) ls `sublist_of` ls'
    /\ NoDup (map visit_key fresh)
    /\ (forall v, v ∈ fresh -> v ∈ visits /\ web_history_url_is_page (url v) = true /\ visit_key v ∉ map visit_key (visits_of ls))
    /\ (forall v, v ∈ visits -> web_history_url_is_page (url v) = true -> visit_key v ∈ map visit_key (visits_of ls'))
    /\ appended report = length fresh /\ (appended report + duplicates report + skipped_not_page report)%nat = length visits
    /\ let '(file'', again) := merge_web_visits file' file' visits in file'' = file' /\ appended again = 0%nat /\ rewrote again = false.
Proof.
  intros Hf Hls Hs. unfold merge_web_visits at 1.
  pose proof (plan_write_spec file ls visits Hls Hf) as Hplan. destruct (plan_write file visits) as [fresh report] eqn:Eplan.
  destruct Hplan as (Hlen & Hsf & Hnd & Happ & Hrew & Hin & Hall).
  assert (forall file' ls', default "" file' = unlines ls' -> Forall journal_line ls' -> visits_of ls' ≡ₚ (fresh ++ visits_of ls)%list ->
    (forall v, v ∈ visits -> web_history_url_is_page (url v) = true -> visit_key v ∈ map visit_key (visits_of ls'))
    /\ let '(file'', again) := merge_web_visits file' file' visits in file'' = file' /\ appended again = 0%nat /\ rewrote again = false) as Hend.
  { intros file' ls' Hf' Hls' Hperm.
    assert (forall v, v ∈ visits -> web_history_url_is_page (url v) = true -> visit_key v ∈ map visit_key (visits_of ls')) as Hknown.
    { intros v Hv Hp. rewrite (Permutation_map visit_key Hperm), map_app, elem_of_app. specialize (Hall v Hv Hp).
      rewrite map_app, elem_of_app in Hall. tauto. }
    split; [exact Hknown|]. unfold merge_web_visits. pose proof (plan_write_spec file' ls' visits Hls' Hf') as Hp.
    pose proof (plan_write_again file' ls' visits Hls' Hf' Hknown) as Hagain. destruct (plan_write file' visits) as [fresh' report'].
    cbn in Hagain. subst fresh'. destruct Hp as (_ & _ & _ & ? & ? & _). done. }
  destruct fresh as [|first fresh'] eqn:Efresh.
  { exists ls, []. rewrite Happ. destruct (Hend file ls Hf Hls ltac:(done)) as [Hk Hag]. split_and!; try done. apply filter_sublist. }
  rewrite <- Efresh in *. rewrite Hf, lines_unlines by done.
  destruct (match newest_ts ls with None => true | Some newest => _ end) eqn:Enew.
  - assert (Forall (fun v => ts_ms v <= ts_ms first)%N (visits_of ls)) as Hle.
    { pose proof (newest_ts_spec ls) as Hn. destruct (newest_ts ls) as [n|]; [|by rewrite Hn]. apply N.leb_le in Enew.
      eapply Forall_impl; [exact Hn|]. intros v Hv. cbn in Hv. lia. }
    assert (default "" (append_lines file fresh) = unlines (ls ++ map to_jsonl_line fresh)) as Hf'.
    { cbn. by rewrite Hf, unlines_app. }
    assert (Forall journal_line (ls ++ map to_jsonl_line fresh)) as Hls'.
    { apply Forall_app_2; [done|]. apply Forall_map, Forall_true, written_line. }
    assert (visits_of (ls ++ map to_jsonl_line fresh) = (visits_of ls ++ fresh)%list) as Hv by by rewrite visits_of_app, visits_of_written.
    exists (ls ++ map to_jsonl_line fresh)%list, fresh.
    destruct (Hend (append_lines file fresh) _ Hf' Hls') as [Hk Hag]; [by rewrite Hv, Permutation_app_comm|].
    split_and!; try done.
    + rewrite Hv. apply StronglySorted_app. split; [|done]. intros a b Ha Hb. rewrite Forall_forall in Hle. specialize (Hle a Ha).
      unfold by_time. assert (ts_ms first <= ts_ms b)%N; [|lia]. rewrite Efresh in Hsf, Hb. apply StronglySorted_inv in Hsf as [_ Hfirst].
      apply elem_of_cons in Hb as [->|Hb]; [lia|]. rewrite Forall_forall in Hfirst. by apply Hfirst.
    + by rewrite Hv, Permutation_app_comm.
    + apply sublist_inserts_r, filter_sublist.
  - set (ls' := weave fresh 0 ls).
    assert (strip_prefix (unlines ls) (unlines ls) = Some "") as -> by (apply strip_prefix_Some; by rewrite string_app_nil_r).
    rewrite string_app_nil_r.
    assert (Forall journal_line ls') as Hls' by by apply weave_lines.
    pose proof (weave_visits fresh 0 ls) as Hperm. fold ls' in Hperm.
    exists ls', fresh. destruct (Hend (Some (unlines ls')) ls' eq_refl Hls' Hperm) as [Hk Hag]. split_and!; try done.
    + apply weave_sorted; [done|done|]. apply Forall_true. intros v. lia.
    + apply weave_keeps.
Qed.
End Laws.

(** * A document format *)

Module Sample.

Definition bit (b : bool) : ascii := if b then "1" else "0".

Definition enc_char (a : ascii) (rest : string) : string :=
  let 'Ascii b0 b1 b2 b3 b4 b5 b6 b7 := a in
  String (bit b0) (String (bit b1) (String (bit b2) (String (bit b3)
    (String (bit b4) (String (bit b5) (String (bit b6) (String (bit b7) rest))))))).

Fixpoint enc (s : string) : string := match s with "" => "" | String a s' => enc_char a (enc s') end.

Definition unbit (a : ascii) : bool := Ascii.eqb a "1".

Fixpoint dec (s : string) : string :=
  match s with
  | String b0 (String b1 (String b2 (String b3 (String b4 (String b5 (String b6 (String b7 s'))))))) =>
      String (Ascii (unbit b0) (unbit b1) (unbit b2) (unbit b3) (unbit b4) (unbit b5) (unbit b6) (unbit b7)) (dec s')
  | _ => ""
  end.

Lemma dec_enc s : dec (enc s) = s.
Proof.
  induction s as [|a s IH]; [done|]. destruct a as [b0 b1 b2 b3 b4 b5 b6 b7]. cbn [enc enc_char dec]. rewrite IH.
  by destruct b0, b1, b2, b3, b4, b5, b6, b7.
Qed.

Definition plain_char (a : ascii) : bool := plain a && negb (Ascii.eqb a ",").

Lemma enc_plain s : str_forallb plain_char (enc s) = true.
Proof.
  induction s as [|a s IH]; [done|]. destruct a as [b0 b1 b2 b3 b4 b5 b6 b7]. cbn [enc enc_char str_forallb]. rewrite IH.
  by destruct b0, b1, b2, b3, b4, b5, b6, b7.
Qed.

Definition text (ts : N) (u t : string) : string := "V," ++ u64_to_string ts ++ "," ++ enc u ++ "," ++ enc t.

Definition read (s : string) : option (N * string * string) :=
  match split_on "," s with
  | [v; d; u; t] => if String.eqb v "V" then (fun n => (n, dec u, dec t)) <$> parse_digits 0 d else None
  | _ => None
  end.

#[export] Instance sample_json : Json := {
  Value := (N * string * string + N + string)%type;
  from_str s := inl ∘ inl <$> read s;
  get v key := match v with
               | inl (inl (n, u, t)) =>
                   if String.eqb key "ts_ms" then Some (inl (inr n))
                   else if String.eqb key "url" then Some (inr u)
                   else if String.eqb key "title" then Some (inr t) else None
               | _ => None
               end;
  as_str v := match v with inr s => Some s | _ => None end;
  as_u64 v := match v with inl (inr n) => Some n | _ => None end;
  object_text := text
}.

Lemma digits_plain n : str_forallb plain_char (u64_to_string n) = true.
Proof. apply (str_forallb_impl is_digit); [|apply u64_to_string_digits]. intros a. by destruct a as [[] [] [] [] [] [] [] []]. Qed.

Lemma text_forall f ts u t :
  (forall a, plain_char a = true -> f a = true) -> f ","%char = true -> str_forallb f (text ts u t) = true.
Proof.
  intros Hf Hcomma. assert (forall s, str_forallb plain_char s = true -> str_forallb f s = true) as Himpl by (intros s; by apply str_forallb_impl).
  unfold text. rewrite !str_forallb_app. rewrite (Himpl (enc u)), (Himpl (enc t)), (Himpl (u64_to_string ts)) by (apply enc_plain || apply digits_plain).
  cbn. by rewrite Hcomma, (Hf "V"%char).
Qed.

Lemma plain_free c s : plain_char c = false -> str_forallb plain_char s = true -> free_of c s = true.
Proof.
  intros Hc. apply str_forallb_impl. intros a Ha. apply negb_true_iff, Ascii.eqb_neq. intros ->. congruence.
Qed.

Lemma text_reads ts u t : read (text ts u t) = Some (ts, u, t).
Proof.
  unfold read, text. change ("V," ++ u64_to_string ts ++ "," ++ enc u ++ "," ++ enc t)
    with ("V" ++ String "," (u64_to_string ts ++ String "," (enc u ++ String "," (enc t)))).
  rewrite split_on_app by done. rewrite split_on_app by (apply (plain_free ","); [done|apply digits_plain]).
  rewrite split_on_app by (apply (plain_free ","); [done|apply enc_plain]).
  rewrite split_on_no_sep by (apply (plain_free ","); [done|apply enc_plain]).
  assert (parse_digits 0 (u64_to_string ts) = Some ts) as ->.
  { unfold u64_to_string. destruct (parse_render_digits (N.size_nat ts) ts (size_nat_gt ts)) as [k ->]. done. }
  rewrite !dec_enc. done.
Qed.

#[export] Instance sample_laws : JsonLaws.
Proof.
  split.
  - intros ts u t. exists (inl (inl (ts, u, t))). split; [|done]. cbn [from_str sample_json object_text].
    rewrite trim_plain by (apply text_forall; [intros a Ha; by apply andb_true_iff in Ha as [? _]|done]). by rewrite text_reads.
  - intros ts u t. apply text_forall; [|done]. by intros [[] [] [] [] [] [] [] []].
  - intros ts u t. apply text_forall; [|done]. by intros [[] [] [] [] [] [] [] []].
  - intros ts u t. cbn [object_text sample_json]. rewrite trim_plain by (apply text_forall; [intros a Ha; by apply andb_true_iff in Ha as [? _]|done]). done.
  - done.
Qed.

(** A journal with a line that is no visit, and an import of four: one older, one known, one repeated,
    one that is no page. *)
Definition v (ts : N) (site : string) : WebHistoryEntry := mkVisit ts ("https://" ++ site) site.
Definition journal : list string := [to_jsonl_line (v 10 "a"); "torn"; ""; to_jsonl_line (v 30 "b")].
Definition batch : list WebHistoryEntry := [v 20 "c"; v 30 "b"; v 20 "c"; mkVisit 5 "about:blank" ""].

Lemma import_keeps_the_journal_witness :
  let '(file', report) := merge_web_visits (Some (unlines journal)) (Some (unlines journal)) batch in
  file' = Some (unlines [to_jsonl_line (v 10 "a"); "torn"; ""; to_jsonl_line (v 20 "c"); to_jsonl_line (v 30 "b")])
  /\ report = mkReport 1 2 1 true
  /\ let '(file'', again) := merge_web_visits file' file' batch in file'' = file' /\ appended again = 0%nat /\ rewrote again = false.
Proof.
  pose proof (import_keeps_the_journal (Some (unlines journal)) journal batch eq_refl) as H.
  assert (Forall journal_line journal) as Hls by (repeat constructor).
  assert (StronglySorted by_time (visits_of journal)) as Hs by (vm_compute; repeat constructor; discriminate).
  specialize (H Hls Hs). destruct (merge_web_visits (Some (unlines journal)) (Some (unlines journal)) batch) as [file' report] eqn:E.
  assert (merge_web_visits (Some (unlines journal)) (Some (unlines journal)) batch
          = (Some (unlines [to_jsonl_line (v 10 "a"); "torn"; ""; to_jsonl_line (v 20 "c"); to_jsonl_line (v 30 "b")]), mkReport 1 2 1 true)) as E'
    by (vm_compute; reflexivity).
  rewrite E in E'. injection E' as Ef Er. split; [exact Ef|]. split; [exact Er|].
  destruct H as (ls' & fresh & _ & _ & _ & _ & _ & _ & _ & _ & _ & _ & Hagain). exact Hagain.
Defined.

Example newest_first :
  parse_web_history (unlines (journal ++ [to_jsonl_line (v 40 "a")])) 2 = [v 40 "a"; v 30 "b"].
Proof. vm_compute. reflexivity. Qed.

(** A limit of none answers one visit. *)
Example a_limit_of_zero : parse_web_history (unlines journal) 0 = [v 30 "b"].
Proof. vm_compute. reflexivity. Qed.

(** A visit appended after a torn line is lost with it. *)
Example torn_line_takes_the_next :
  let '(file, written) := append_web_visit (Some (unlines [to_jsonl_line (v 10 "a")] ++ "V,20,1")) (v 30 "b") in
  written = true /\ read_web_visits file = [v 10 "a"].
Proof. vm_compute. done. Qed.

(** The carried bytes of a line that was being written when the import read the file go on a line of
    their own. *)
Example line_in_flight_is_split :
  let torn := unlines [to_jsonl_line (v 10 "a")] ++ "V,20," in
  let '(file, report) := merge_web_visits (Some torn) (Some (torn ++ enc "https://b" ++ "," ++ enc "b" ++ String newline "")) [v 5 "c"] in
  rewrote report = true /\ read_web_visits file = [v 5 "c"; v 10 "a"].
Proof. vm_compute. done. Qed.

End Sample.
