(* ===== verification/RustText.v ===== *)
(** * Texts as lists of code points: decoding, searching, splitting at white space

    The operations of Rust's [str] that go by characters, beside those of [RustChar]. *)
From S2P Require Import Prelude RustStr RustChar.
From Stdlib Require Import ZifyBool ZifyN.
#[local] Open Scope N_scope.

(** ** UTF-8 *)

Definition continuation (a : ascii) : bool := in_range 128 191 (byte_of a).
Definition low_bits (a : ascii) : N := byte_of a - 128.

(** [str::from_utf8]: no stray byte, no overlong form, no surrogate, nothing past U+10FFFF. *)
Fixpoint from_utf8 (s : string) : option text :=
  match s with
  | EmptyString => Some []
  | String a s1 =>
      let b := byte_of a in
      if b <? 128 then cons b <$> from_utf8 s1
      else match s1 with
      | EmptyString => None
      | String c s2 =>
          if negb (continuation c) then None
          else if in_range 194 223 b then cons ((b - 192) * 64 + low_bits c) <$> from_utf8 s2
          else match s2 with
          | EmptyString => None
          | String d s3 =>
              if negb (continuation d) then None
              else if in_range 224 239 b then
                let v := (b - 224) * 4096 + low_bits c * 64 + low_bits d in
                if (v <? 2048) || in_range 55296 57343 v then None else cons v <$> from_utf8 s3
              else match s3 with
              | EmptyString => None
              | String e s4 =>
                  if negb (continuation e) then None
                  else if in_range 240 244 b then
                    let v := (b - 240) * 262144 + low_bits c * 4096 + low_bits d * 64 + low_bits e in
                    if in_range 65536 1114111 v then cons v <$> from_utf8 s4 else None
                  else None
              end
          end
      end
  end.

(** The characters of a [String], which is always valid. *)
Definition text_of (s : string) : text := default [] (from_utf8 s).

(** ** Prefixes and search *)

Fixpoint strip_text (p t : text) : option text :=
  match p, t with
  | [], _ => Some t
  | x :: p', y :: t' => if x =? y then strip_text p' t' else None
  | _ :: _, [] => None
  end.

(** What stands before and after the first occurrence. *)
Fixpoint find_text (needle t : text) : option (text * text) :=
  match strip_text needle t with
  | Some rest => Some ([], rest)
  | None =>
      match t with
      | [] => None
      | c :: t' => match find_text needle t' with Some (x, y) => Some (c :: x, y) | None => None end
      end
  end.

(** [str::split_once] and [str::rsplit_once] at one character. *)
Fixpoint split_text_once (c : N) (t : text) : option (text * text) :=
  match t with
  | [] => None
  | x :: t' => if x =? c then Some ([], t')
               else match split_text_once c t' with Some (a, b) => Some (x :: a, b) | None => None end
  end.

Definition rsplit_text_once (c : N) (t : text) : option (text * text) :=
  match split_text_once c (rev t) with Some (a, b) => Some (rev b, rev a) | None => None end.

Fixpoint trim_text_end_of (c : N) (t : text) : text :=
  match t with
  | [] => []
  | x :: t' => match trim_text_end_of c t' with
               | [] => if x =? c then [] else [x]
               | rest => x :: rest
               end
  end.

(** ** White space *)

Definition non_empty (t : text) : bool := match t with [] => false | _ => true end.

(** [str::split_whitespace]: the pieces between white-space characters, empty ones left out; the
    argument holds the piece being read, last character first. *)
Fixpoint words_from (word t : text) : list text :=
  match t with
  | [] => if non_empty word then [rev word] else []
  | c :: t' =>
      if is_whitespace c then (if non_empty word then rev word :: words_from [] t' else words_from [] t')
      else words_from (c :: word) t'
  end.

Definition split_whitespace (t : text) : list text := words_from [] t.

(** ** Numbers *)

Definition ascii_string (t : text) : option string :=
  if forallb (fun c => c <? 128) t then Some (string_of_list_ascii (map ascii_of_N t)) else None.

(** [t.parse::<uN>()] for the type whose greatest value is [width_max]. *)
Definition parse_text_uint (width_max : N) (t : text) : option N := ascii_string t ≫= parse_uint width_max.

Definition show_uint (n : N) : text := chars (u64_to_string n).

(** * Laws *)

Lemma strip_text_Some p t r : strip_text p t = Some r <-> t = (p ++ r)%list.
Proof.
  revert t. induction p as [|x p IH]; intros t; cbn; [split; [by intros [= ->]|by intros ->]|].
  destruct t as [|y t]; [split; discriminate|]. destruct (N.eqb_spec x y) as [->|].
  - rewrite IH. split; [by intros ->|by intros [= ->]].
  - split; [done|congruence].
Qed.

Lemma strip_text_app p r : strip_text p (p ++ r)%list = Some r.
Proof. by apply strip_text_Some. Qed.

Lemma find_text_eq needle t : find_text needle t =
  match strip_text needle t with
  | Some rest => Some ([], rest)
  | None => match t with
            | [] => None
            | c :: t' => match find_text needle t' with Some (x, y) => Some (c :: x, y) | None => None end
            end
  end.
Proof. by destruct t. Qed.

(** Behind a character that is not of the needle, the search starts afresh. *)
Lemma find_text_barrier needle head c rest :
  c ∉ needle -> needle <> [] -> find_text needle head = None ->
  find_text needle (head ++ c :: rest)%list =
    match find_text needle (c :: rest) with Some (x, y) => Some ((head ++ x)%list, y) | None => None end.
Proof.
  intros Hc Hne. induction head as [|h head IH]; intros Hn.
  - cbn [app]. by destruct (find_text needle (c :: rest)) as [[x y]|].
  - cbn [app]. rewrite find_text_eq in Hn |- *.
    destruct (strip_text needle (h :: head)) as [r|] eqn:E1; [done|].
    assert (strip_text needle (h :: head ++ c :: rest) = None) as ->.
    { destruct (strip_text needle (h :: head ++ c :: rest)) as [r|] eqn:E2; [|done].
      apply strip_text_Some in E2.
      change (h :: head ++ c :: rest)%list with ((h :: head) ++ c :: rest)%list in E2.
      apply app_eq_inv in E2 as [(k & H1 & H2)|(k & H1 & H2)].
      - by rewrite H1, strip_text_app in E1.
      - destruct k as [|k0 k]; [rewrite app_nil_r in H1; rewrite H1 in E1; pose proof (strip_text_app needle []) as E3; rewrite app_nil_r in E3; congruence|].
        cbn in H2. injection H2 as -> _. exfalso. apply Hc. rewrite H1. set_solver. }
    destruct (find_text needle head) as [[x y]|]; [done|].
    rewrite (IH eq_refl). by destruct (find_text needle (c :: rest)) as [[x y]|].
Qed.

Lemma find_text_at needle r : find_text needle (needle ++ r)%list = Some ([], r).
Proof. rewrite find_text_eq. by rewrite strip_text_app. Qed.

Lemma split_text_once_app c x y : c ∉ x -> split_text_once c (x ++ c :: y)%list = Some (x, y).
Proof.
  induction x as [|a x IH]; cbn; intros H; [by rewrite N.eqb_refl|].
  apply not_elem_of_cons in H as [Ha H]. destruct (N.eqb_spec a c); [congruence|]. by rewrite IH.
Qed.

Lemma rsplit_text_once_app c x y : c ∉ y -> rsplit_text_once c (x ++ c :: y)%list = Some (x, y).
Proof.
  intros H. unfold rsplit_text_once. rewrite rev_app_distr. cbn [rev]. rewrite <- app_assoc. cbn [app].
  rewrite split_text_once_app by (by rewrite list_elem_of_In, <- in_rev, <- list_elem_of_In). by rewrite !rev_involutive.
Qed.

(** ** White space *)

Definition free_of_ws (t : text) : bool := forallb (fun c => negb (is_whitespace c)) t.

Lemma free_of_ws_app t u : free_of_ws (t ++ u)%list = free_of_ws t && free_of_ws u.
Proof. apply forallb_app. Qed.

Lemma words_from_app word t rest : free_of_ws t = true ->
  words_from word (t ++ rest)%list = words_from (rev t ++ word)%list rest.
Proof.
  revert word. induction t as [|c t IH]; intros word H; [done|]. cbn in H. apply andb_prop in H as [Hc H].
  cbn [app words_from]. apply negb_true_iff in Hc. rewrite Hc, IH by done. cbn [rev]. by rewrite <- app_assoc.
Qed.

Lemma split_whitespace_word t c rest : free_of_ws t = true -> t <> [] -> is_whitespace c = true ->
  split_whitespace (t ++ c :: rest)%list = t :: split_whitespace rest.
Proof.
  intros Ht Hne Hc. unfold split_whitespace. rewrite words_from_app by done. cbn [words_from].
  rewrite Hc, app_nil_r. destruct (rev t) as [|x l] eqn:E.
  - apply (f_equal (@rev N)) in E. by rewrite rev_involutive in E.
  - cbn [non_empty]. rewrite <- E. by rewrite rev_involutive.
Qed.

Lemma split_whitespace_last t : free_of_ws t = true -> t <> [] -> split_whitespace t = [t].
Proof.
  intros Ht Hne. unfold split_whitespace. rewrite <- (app_nil_r t) at 1. rewrite words_from_app by done.
  cbn [words_from]. rewrite app_nil_r. destruct (rev t) as [|x l] eqn:E.
  - apply (f_equal (@rev N)) in E. by rewrite rev_involutive in E.
  - cbn [non_empty]. rewrite <- E. by rewrite rev_involutive.
Qed.

Lemma words_from_words word t w : w ∈ words_from word t ->
  free_of_ws word = true -> free_of_ws w = true /\ w <> [].
Proof.
  assert (Hrev : forall x y, free_of_ws (y :: x) = true -> free_of_ws (rev (y :: x)) = true /\ rev (y :: x) <> []).
  { intros x y H. split.
    - unfold free_of_ws in *. rewrite forallb_forall in *. intros z Hz. apply H. by apply in_rev.
    - intros E. apply (f_equal (@length N)) in E. by rewrite length_rev in E. }
  revert word. induction t as [|c t IH]; intros word; cbn [words_from].
  - destruct word as [|y x]; cbn [non_empty]; [by intros ?%elem_of_nil|].
    intros ->%list_elem_of_singleton. apply Hrev.
  - destruct (is_whitespace c) eqn:Hc.
    + destruct word as [|y x]; cbn [non_empty]; [intros; by eapply IH|].
      intros [->|H]%elem_of_cons Hw; [by apply Hrev|]. by eapply IH.
    + intros H Hw. eapply IH; [exact H|]. cbn. by rewrite Hc.
Qed.

Lemma split_whitespace_words t w : w ∈ split_whitespace t -> free_of_ws w = true /\ w <> [].
Proof. intros H. by eapply words_from_words. Qed.

Lemma trim_text_no_ws t : free_of_ws t = true -> trim_text t = t.
Proof.
  intros H. apply trim_text_tight. unfold tight. unfold free_of_ws in H. rewrite forallb_forall in H.
  destruct (head t) as [a|] eqn:Ha; [|done]. destruct (last t) as [b|] eqn:Hb; [|done].
  rewrite (H a), (H b); [done| |].
  - apply list_elem_of_In. by apply last_Some_elem_of.
  - apply list_elem_of_In. by apply head_Some_elem_of.
Qed.

(** ** Numbers *)

Lemma ascii_string_chars s : str_forallb (fun a => byte_of a <? 128) s = true -> ascii_string (chars s) = Some s.
Proof.
  intros H. unfold ascii_string, chars.
  assert (forallb (fun c => c <? 128) (map byte_of (list_ascii_of_string s)) = true) as ->.
  { induction s as [|a s IH]; [done|]. cbn in *. apply andb_prop in H as [-> H]. by apply IH. }
  f_equal. rewrite map_map. clear H. induction s as [|a s IH]; [done|]. cbn. unfold byte_of at 1.
  by rewrite ascii_N_embedding, IH.
Qed.

Lemma digits_below_128 n : str_forallb (fun a => byte_of a <? 128) (u64_to_string n) = true.
Proof.
  eapply str_forallb_impl; [|apply u64_to_string_digits].
  intros a. unfold is_digit, in_range. lia.
Qed.

Lemma parse_show_uint width n : n <= width -> parse_text_uint width (show_uint n) = Some n.
Proof.
  intros H. unfold parse_text_uint, show_uint. rewrite ascii_string_chars by apply digits_below_128.
  by apply parse_uint_to_string.
Qed.

Lemma show_uint_digits n : forallb is_ascii_digit (show_uint n) = true.
Proof.
  unfold show_uint, chars. generalize (u64_to_string_digits n). generalize (u64_to_string n).
  intros s. induction s as [|a s IH]; [done|]. cbn. intros [Ha Hs]%andb_prop. by rewrite (IH Hs), andb_true_r.
Qed.

Lemma show_uint_nonempty n : show_uint n <> [].
Proof. unfold show_uint. pose proof (u64_to_string_nonempty n). by destruct (u64_to_string n). Qed.

Lemma show_uint_no_ws n : free_of_ws (show_uint n) = true.
Proof.
  unfold free_of_ws. rewrite forallb_forall. intros c Hc. pose proof (show_uint_digits n) as H.
  rewrite forallb_forall in H. specialize (H c Hc). unfold is_ascii_digit, in_range in H.
  unfold is_whitespace, in_range. lia.
Qed.
