(* ===== verification/SessionTenancy.v ===== *)
(** * Who made a row, and when it may be reaped

    src/crates/yggterm-server/src/session_tenancy.rs: the creator's stamp, the declaration that a row is
    ephemeral, the arguments they come from and the reap pass; with the places of
    src/crates/yggterm-server/src/lib.rs and daemon.rs that keep both in a session's metadata.

    Strings of a stamp are texts; session paths are keys.  Whether a process is in /proc and the values of
    environment variables are arguments. *)
From S2P Require Import Prelude RustStr RustChar RustText AgentLaunch.
From Stdlib Require Import ZifyBool ZifyN.
#[local] Open Scope N_scope.
#[local] Open Scope list_scope.


Definition UNKNOWN_HOST_TOKEN : text := chars "unknown-host".
Definition CREATED_BY_METADATA_LABEL : string := "Created By".
Definition EPHEMERAL_METADATA_LABEL : string := "Ephemeral".
Definition MAX_PURPOSE_CHARS : nat := 200.

(** ** Sanitisers *)

Definition sanitize_token (value : text) : text :=
  let cleaned := map (fun ch => if is_whitespace ch then 45 else ch) (trim_text value) in
  if non_empty cleaned then cleaned else UNKNOWN_HOST_TOKEN.

Definition sanitize_path_token (value : text) : text :=
  List.filter (fun ch => negb (is_whitespace ch)) (trim_text value).

Definition sanitize_free_text (value : text) : text :=
  take MAX_PURPOSE_CHARS (join_text 32 (split_whitespace value)).

Definition keep_if {A} (p : A -> bool) (o : option A) : option A :=
  match o with Some a => if p a then Some a else None | None => None end.

Definition split_trailing_free_text (value marker : text) : text * option text :=
  match find_text marker value with
  | Some (before, after) => let tail := trim_text after in (before, if non_empty tail then Some tail else None)
  | None => (value, None)
  end.

(** ** The creator's stamp *)

Record CreatorStamp := mkStamp {
  pid : N; host : text; purpose : option text; parent_session_path : option text }.

Module Stamp.

Definition new (pid : N) (host : text) (purpose : option text) : CreatorStamp :=
  mkStamp pid (sanitize_token host) (keep_if non_empty (sanitize_free_text <$> purpose)) None.

Definition with_parent_session_path (parent : option text) (self : CreatorStamp) : CreatorStamp :=
  mkStamp (pid self) (host self) (purpose self) (keep_if non_empty (sanitize_path_token <$> parent)).

Definition encode (self : CreatorStamp) : text :=
  (chars "pid=" ++ show_uint (pid self) ++ chars " host=" ++ host self)
  ++ match parent_session_path self with Some parent => chars " parent=" ++ parent | None => [] end
  ++ match purpose self with Some purpose => chars " purpose=" ++ purpose | None => [] end.

(** The three variables of the loop over the tokens. *)
Record Reading := mkReading { r_pid : option N; r_host : option text; r_parent : option text }.

Definition read_token (r : Reading) (token : text) : Reading :=
  match strip_text (chars "pid=") token with
  | Some rest => mkReading (parse_text_uint u32_max rest) (r_host r) (r_parent r)
  | None =>
  match strip_text (chars "host=") token with
  | Some rest => mkReading (r_pid r) (Some rest) (r_parent r)
  | None =>
  match strip_text (chars "parent=") token with
  | Some rest => mkReading (r_pid r) (r_host r) (if non_empty rest then Some rest else None)
  | None => r
  end end end.

Definition parse (value : text) : option CreatorStamp :=
  let '(head, purpose) := split_trailing_free_text value (chars "purpose=") in
  let r := fold_left read_token (split_whitespace head) (mkReading None None None) in
  pid ← r_pid r;
  host ← r_host r;
  Some (mkStamp pid host purpose (r_parent r)).

End Stamp.

(** ** The declaration of ephemerality *)

Record EphemeralDeclaration := mkDeclaration {
  owner_pid : option N; owner_host : text; idle_ttl_secs : option N }.

Module Declaration.

Definition new (owner_pid : option N) (owner_host : text) (idle_ttl_secs : option N) : EphemeralDeclaration :=
  mkDeclaration owner_pid (sanitize_token owner_host) (keep_if (fun ttl => 0 <? ttl) idle_ttl_secs).

Definition encode (self : EphemeralDeclaration) : text :=
  match owner_pid self with Some pid => chars "owner-pid=" ++ show_uint pid ++ chars " " | None => [] end
  ++ (chars "owner-host=" ++ owner_host self)
  ++ match idle_ttl_secs self with Some ttl => chars " idle-ttl-secs=" ++ show_uint ttl | None => [] end.

Record Reading := mkReading { r_pid : option N; r_host : option text; r_ttl : option N }.

Definition read_token (r : Reading) (token : text) : Reading :=
  match strip_text (chars "owner-pid=") token with
  | Some rest => mkReading (parse_text_uint u32_max rest) (r_host r) (r_ttl r)
  | None =>
  match strip_text (chars "owner-host=") token with
  | Some rest => mkReading (r_pid r) (Some rest) (r_ttl r)
  | None =>
  match strip_text (chars "idle-ttl-secs=") token with
  | Some rest => mkReading (r_pid r) (r_host r) (keep_if (fun ttl => 0 <? ttl) (parse_text_uint u64_max rest))
  | None => r
  end end end.

Definition parse (value : text) : option EphemeralDeclaration :=
  let r := fold_left read_token (split_whitespace value) (mkReading None None None) in
  host ← r_host r;
  Some (mkDeclaration (r_pid r) host (r_ttl r)).

Definition declares_a_rule (self : EphemeralDeclaration) : bool :=
  is_Some_b (owner_pid self) || is_Some_b (idle_ttl_secs self).

End Declaration.

(** ** The row a process runs in *)

Definition SESSION_MARKER_ENV_KEYS : list string := ["YGGTERM_SESSION_ID"; "LC_YGGTERM_SESSION_ID"]%string.

(** [Iterator::find_map]. *)
Fixpoint find_map {A B} (f : A -> option B) (l : list A) : option B :=
  match l with
  | [] => None
  | a :: l' => match f a with Some b => Some b | None => find_map f l' end
  end.

(** [var] is [std::env::var]. *)
Definition parent_session_path_from_env (var : string -> option text) : option text :=
  keep_if non_empty (sanitize_path_token <$> find_map var SESSION_MARKER_ENV_KEYS).

Definition session_marker_from_environ_bytes (raw : string) : option text :=
  let entries := omap from_utf8 (List.filter (fun e => negb (str_is_empty e)) (split_on "000" raw)) in
  let value := find_map (fun key => find_map (strip_text (chars (key ++ "="))) entries) SESSION_MARKER_ENV_KEYS in
  keep_if non_empty (sanitize_path_token <$> value).

Definition session_marker_names_session (marker session_id : text) : bool :=
  if non_empty session_id then
    bool_decide (List.last (split_text 47 (trim_text_end_of 47 marker)) [] = session_id)
  else false.

(** ** The arguments of a create *)

Record CreateTerminalTenancy := mkTenancy { created_by : CreatorStamp; ephemeral : option EphemeralDeclaration }.

Inductive TenancyError :=
  | OwnerPidExpectsAPid (raw : string)
  | IdleTtlExpectsSeconds (raw : string)
  | IdleTtlMustBeAboveZero
  | RulesNeedEphemeral
  | EPHEMERAL_NEEDS_AN_EXPLICIT_RULE.

Definition read_owner_pid (args : list string) : result (option N) TenancyError :=
  match cli_flag_value args "--ephemeral-owner-pid" with
  | None => Ok None
  | Some raw => match parse_uint u32_max raw with Some pid => Ok (Some pid) | None => Err (OwnerPidExpectsAPid raw) end
  end.

Definition read_idle_ttl (args : list string) : result (option N) TenancyError :=
  match cli_flag_value args "--ephemeral-idle-ttl-secs" with
  | None => Ok None
  | Some raw =>
      match parse_u64 raw with
      | Some secs => if 0 <? secs then Ok (Some secs) else Err IdleTtlMustBeAboveZero
      | None => Err (IdleTtlExpectsSeconds raw)
      end
  end.

Definition parent_from_args (args : list string) (var : string -> option text) : option text :=
  match cli_flag_value args "--parent-session" with
  | Some explicit => if String.eqb explicit "none" || String.eqb explicit "" then None else Some (text_of explicit)
  | None => parent_session_path_from_env var
  end.

Definition create_terminal_tenancy_from_args (args : list string) (creator_pid : N) (host : text)
    (var : string -> option text) : result CreateTerminalTenancy TenancyError :=
  let ephemeral_requested := existsb (String.eqb "--ephemeral") args in
  match read_owner_pid args with
  | Err e => Err e
  | Ok owner_pid =>
  match read_idle_ttl args with
  | Err e => Err e
  | Ok idle_ttl_secs =>
    if negb ephemeral_requested && (is_Some_b owner_pid || is_Some_b idle_ttl_secs) then Err RulesNeedEphemeral
    else
      let ephemeral := if ephemeral_requested then Some (Declaration.new owner_pid host idle_ttl_secs) else None in
      if is_Some_b (keep_if (fun d => negb (Declaration.declares_a_rule d)) ephemeral)
      then Err EPHEMERAL_NEEDS_AN_EXPLICIT_RULE
      else
        let stamp := Stamp.new creator_pid host (text_of <$> cli_flag_value args "--purpose") in
        Ok (mkTenancy (Stamp.with_parent_session_path (parent_from_args args var) stamp) ephemeral)
  end end.

(** ** The metadata of a session *)

Definition Metadata : Type := list (string * text).

Definition session_metadata_value (metadata : Metadata) (label : string) : option text :=
  snd <$> List.find (fun entry => String.eqb (fst entry) label) metadata.

Fixpoint upsert_session_metadata (metadata : Metadata) (label : string) (value : text) : Metadata :=
  match metadata with
  | [] => [(label, value)]
  | entry :: rest => if String.eqb (fst entry) label then (label, value) :: rest
                     else entry :: upsert_session_metadata rest label value
  end.

(** [value.map(str::trim).filter(not empty)]. *)
Definition trimmed (value : option text) : option text := keep_if non_empty (trim_text <$> value).

Definition apply_one (label : string) (value : option text) (metadata : Metadata) : Metadata :=
  match trimmed value with Some value => upsert_session_metadata metadata label value | None => metadata end.

Definition apply_session_tenancy_metadata (created_by ephemeral : option text) (session : Metadata) : Metadata :=
  apply_one EPHEMERAL_METADATA_LABEL ephemeral (apply_one CREATED_BY_METADATA_LABEL created_by session).

Inductive DeclareError := AlreadyCarriesATenancyDeclaration | UnparseableCreatorStamp | UnparseableDeclaration.

(** [YggtermServer::declare_live_session_tenancy] on what the path resolved to; [None] is its [false]. *)
Definition declare_live_session_tenancy (session : option Metadata) (created_by : option CreatorStamp)
    (ephemeral : option EphemeralDeclaration) : result (option Metadata) DeclareError :=
  match session with
  | None => Ok None
  | Some session =>
      if is_Some_b (session_metadata_value session CREATED_BY_METADATA_LABEL)
         || is_Some_b (session_metadata_value session EPHEMERAL_METADATA_LABEL)
      then Err AlreadyCarriesATenancyDeclaration
      else Ok (Some (apply_session_tenancy_metadata (Stamp.encode <$> created_by)
                       (Declaration.encode <$> ephemeral) session))
  end.

(** The parse of one field of the request: absent and blank are no declaration. *)
Definition read_field {A} (parse : text -> option A) (error : DeclareError) (raw : option text)
    : result (option A) DeclareError :=
  match trimmed raw with
  | Some raw => match parse raw with Some a => Ok (Some a) | None => Err error end
  | None => Ok None
  end.

(** [ServerRequest::DeclareSessionTenancy], up to what it does to the session. *)
Definition declare_request (session : option Metadata) (created_by ephemeral : option text)
    : result (option Metadata) DeclareError :=
  match read_field Stamp.parse UnparseableCreatorStamp created_by with
  | Err e => Err e
  | Ok created_by =>
  match read_field Declaration.parse UnparseableDeclaration ephemeral with
  | Err e => Err e
  | Ok ephemeral => declare_live_session_tenancy session created_by ephemeral
  end end.

Definition live_session_creator_stamp (session : Metadata) : option CreatorStamp :=
  session_metadata_value session CREATED_BY_METADATA_LABEL ≫= Stamp.parse.

Definition live_session_ephemeral_declaration (session : Metadata) : option EphemeralDeclaration :=
  session_metadata_value session EPHEMERAL_METADATA_LABEL ≫= Declaration.parse.

(** ** The reap pass *)

Inductive OwnerLiveness := Alive | Gone | Unknown.

Inductive EphemeralReapReason := OwnerGone | IdleTtl.

Definition trace_name (r : EphemeralReapReason) : string :=
  match r with OwnerGone => "ephemeral_owner_gone" | IdleTtl => "ephemeral_idle_ttl" end.

Record EphemeralCandidate := mkCandidate {
  session_path : string; declaration : EphemeralDeclaration; idle_secs : option N; running : bool }.

Definition is_gone (owner : OwnerLiveness) : bool := match owner with Gone => true | _ => false end.

Definition ephemeral_reap_reason (candidate : EphemeralCandidate) (owner : OwnerLiveness)
    : option EphemeralReapReason :=
  if negb (running candidate) then None
  else if is_Some_b (owner_pid (declaration candidate)) && is_gone owner then Some OwnerGone
  else
    ttl ← idle_ttl_secs (declaration candidate);
    idle ← idle_secs candidate;
    if ttl <=? idle then Some IdleTtl else None.

(** What the pass asks of its host; [trace] writes beside the host, so the pass lists its calls. *)
Class EphemeralReapHost (H : Type) := {
  candidates : H -> list EphemeralCandidate;
  owner_liveness : H -> EphemeralDeclaration -> OwnerLiveness;
  close_row : string -> EphemeralReapReason -> H -> H
}.

Record EphemeralReapOutcome := mkOutcome { considered : nat; reaped : list (string * EphemeralReapReason) }.

Definition did_anything (o : EphemeralReapOutcome) : bool := match reaped o with [] => false | _ => true end.

Definition TraceCall : Type := string * EphemeralReapReason * option N.

Section Pass.
Context {H : Type} `{!EphemeralReapHost H}.

Fixpoint reap_loop (l : list EphemeralCandidate) (host : H) (traced : list TraceCall)
    (reaped : list (string * EphemeralReapReason)) : H * list TraceCall * list (string * EphemeralReapReason) :=
  match l with
  | [] => (host, traced, reaped)
  | c :: l' =>
      match ephemeral_reap_reason c (owner_liveness host (declaration c)) with
      | None => reap_loop l' host traced reaped
      | Some reason =>
          reap_loop l' (close_row (session_path c) reason host)
            (traced ++ [(session_path c, reason, idle_secs c)]) (reaped ++ [(session_path c, reason)])
      end
  end.

Definition ephemeral_session_reap_pass (host : H) : H * list TraceCall * EphemeralReapOutcome :=
  let l := candidates host in
  let '(host, traced, reaped) := reap_loop l host [] [] in
  (host, traced, mkOutcome (length l) reaped).

End Pass.

(** [in_proc pid] says /proc has the process. *)
Definition owner_liveness_on_host (in_proc : N -> bool) (declaration : EphemeralDeclaration) (local_host : text)
    : OwnerLiveness :=
  match owner_pid declaration with
  | None => Unknown
  | Some owner_pid =>
      let local_host := sanitize_token local_host in
      if bool_decide (local_host = UNKNOWN_HOST_TOKEN) || bool_decide (owner_host declaration = UNKNOWN_HOST_TOKEN)
      then Unknown
      else if bool_decide (owner_host declaration = local_host)
      then (if in_proc owner_pid then Alive else Gone)
      else Unknown
  end.

(** [local_host_token] from $HOSTNAME and the text of /etc/hostname. *)
Definition local_host_token (hostname etc_hostname : option text) : text :=
  let from_env := keep_if (fun value => non_empty (trim_text value)) hostname in
  let raw := match from_env with Some v => Some v | None => trim_text <$> etc_hostname end in
  sanitize_token (default UNKNOWN_HOST_TOKEN (keep_if non_empty raw)).

(** *** The daemon as a host *)

(** What the pass reads of a [DaemonRuntime], of its terminals and of the machine. *)
Record LiveWorld := mkWorld {
  live_session_order : list string;
  sessions : gmap string Metadata;
  terminal_runtime_key_for_path : string -> string;
  session_idle_for_ms : string -> option N;
  session_is_running : string -> bool;
  in_proc : N -> bool;
  world_host : text
}.

Definition ephemeral_live_session_declarations (w : LiveWorld) : list (string * EphemeralDeclaration) :=
  omap (fun key =>
    session ← sessions w !! key;
    declaration ← live_session_ephemeral_declaration session;
    Some (key, declaration)) (live_session_order w).

Definition candidate_of (w : LiveWorld) (row : string * EphemeralDeclaration) : EphemeralCandidate :=
  let runtime_key := terminal_runtime_key_for_path w (fst row) in
  mkCandidate (fst row) (snd row) ((fun idle_ms => idle_ms / 1000) <$> session_idle_for_ms w runtime_key)
    (session_is_running w runtime_key).

Definition live_candidates (w : LiveWorld) : list EphemeralCandidate :=
  map (candidate_of w) (ephemeral_live_session_declarations w).

(** The close itself, [DaemonRuntime::close_live_session_row], is the argument. *)
Definition LiveEphemeralReapHost (close_live_session_row : string -> LiveWorld -> LiveWorld)
    : EphemeralReapHost LiveWorld := {|
  candidates := live_candidates;
  owner_liveness w d := owner_liveness_on_host (in_proc w) d (world_host w);
  close_row path _ w := close_live_session_row path w
|}.

(** * Reading back what was written *)

Definition good_word (w : text) : Prop := free_of_ws w = true /\ w <> [].

Lemma good_word_app p w : free_of_ws p = true -> p <> [] -> free_of_ws w = true -> good_word (p ++ w).
Proof. intros Hp Hne Hw. split; [by rewrite free_of_ws_app, Hp, Hw|by destruct p]. Qed.

Lemma split_whitespace_join c ws : is_whitespace c = true -> Forall good_word ws ->
  split_whitespace (join_text 32 ws) = ws /\ split_whitespace (join_text 32 ws ++ [c]) = ws.
Proof.
  intros Hc. induction 1 as [|w ws [Hf Hne] Hws [IH1 IH2]].
  { split; [done|]. cbn. unfold split_whitespace. cbn. by rewrite Hc. } destruct ws as [|w' ws].
  - cbn [join_text]. split; [by apply split_whitespace_last|]. by rewrite split_whitespace_word.
  - change (join_text 32 (w :: w' :: ws)) with (w ++ 32 :: join_text 32 (w' :: ws)). split.
    + by rewrite split_whitespace_word, IH1.
    + rewrite <- app_assoc. cbn [app]. by rewrite split_whitespace_word, IH2.
Qed.

Lemma sanitize_token_good t : good_word (sanitize_token t).
Proof.
  unfold sanitize_token. case_match eqn:E; [|by split].
  split; [|by destruct (map _ _)]. unfold free_of_ws. rewrite forallb_forall. intros c.
  rewrite in_map_iff. intros (d & <- & _). by destruct (is_whitespace d) eqn:Hd; [|rewrite Hd].
Qed.

Lemma sanitize_path_token_ws t : free_of_ws (sanitize_path_token t) = true.
Proof.
  unfold sanitize_path_token, free_of_ws. rewrite forallb_forall. intros c. by intros [_ H]%filter_In.
Qed.

Lemma keep_if_Some {A} (p : A -> bool) o a : keep_if p o = Some a <-> o = Some a /\ p a = true.
Proof.
  destruct o as [b|]; cbn; [|split; [done|by intros [? _]]].
  destruct (p b) eqn:E; split; [by intros [= <-]|by intros [[= <-] _]|done|intros [[= <-] ?]; congruence].
Qed.

Lemma non_empty_true t : non_empty t = true <-> t <> [].
Proof. by destruct t. Qed.

(** ** The stamp *)

(** Everything [encode] puts before the purpose. *)
Definition head_tokens (s : CreatorStamp) : list text :=
  [chars "pid=" ++ show_uint (pid s); chars "host=" ++ host s]
  ++ match parent_session_path s with Some parent => [chars "parent=" ++ parent] | None => [] end.

Definition head_of (s : CreatorStamp) : text := join_text 32 (head_tokens s).

Definition well_formed (s : CreatorStamp) : Prop :=
  pid s <= u32_max /\ good_word (host s) /\ from_option good_word True (parent_session_path s).

(** What reading settles on: a purpose that was cut after a space loses the space. *)
Definition settled (s : CreatorStamp) : CreatorStamp :=
  mkStamp (pid s) (host s) (trimmed (purpose s)) (parent_session_path s).

Lemma encode_eq s : Stamp.encode s =
  head_of s ++ match purpose s with Some purpose => 32 :: chars "purpose=" ++ purpose | None => [] end.
Proof.
  unfold Stamp.encode, head_of, head_tokens.
  change (chars " host=") with ([32] ++ chars "host="). change (chars " parent=") with ([32] ++ chars "parent=").
  change (chars " purpose=") with ([32] ++ chars "purpose=").
  change (join_text 32 ([?a; ?b] ++ ?l)) with (a ++ [32] ++ join_text 32 (b :: l)).
  destruct (parent_session_path s) as [p|].
  - change (join_text 32 (?b :: [?c])) with (b ++ [32] ++ c). rewrite <- !app_assoc. by destruct (purpose s); rewrite <- ?app_assoc.
  - change (join_text 32 [?b]) with b. rewrite <- !app_assoc. by destruct (purpose s); rewrite <- ?app_assoc.
Qed.

Lemma head_tokens_good s : well_formed s -> Forall good_word (head_tokens s).
Proof.
  intros (_ & [Hh _] & Hp). unfold head_tokens.
  apply Forall_app_2; [repeat apply Forall_cons_2; [..|by apply Forall_nil_2]|].
  - apply good_word_app; [reflexivity|discriminate|apply show_uint_no_ws].
  - by apply good_word_app; [reflexivity|discriminate|].
  - destruct (parent_session_path s) as [p|]; [|done]. apply Forall_singleton.
    destruct Hp. by apply good_word_app; [reflexivity|discriminate|].
Qed.

Lemma read_head s : well_formed s ->
  fold_left Stamp.read_token (head_tokens s) (Stamp.mkReading None None None)
  = Stamp.mkReading (Some (pid s)) (Some (host s)) (parent_session_path s).
Proof.
  intros (Hpid & _ & Hp). unfold head_tokens. cbn [app fold_left].
  assert (Hpt : forall r d, Stamp.read_token r (chars "pid=" ++ d) = Stamp.mkReading (parse_text_uint u32_max d) (Stamp.r_host r) (Stamp.r_parent r))
    by (intros; unfold Stamp.read_token; by rewrite strip_text_app).
  rewrite Hpt, parse_show_uint by done. cbn [Stamp.r_host Stamp.r_parent].
  change (Stamp.read_token ?r (chars "host=" ++ ?h)) with (Stamp.mkReading (Stamp.r_pid r) (Some h) (Stamp.r_parent r)).
  destruct (parent_session_path s) as [p|]; [|done]. cbn [fold_left].
  change (Stamp.read_token ?r (chars "parent=" ++ ?h))
    with (Stamp.mkReading (Stamp.r_pid r) (Stamp.r_host r) (if non_empty h then Some h else None)).
  destruct Hp as [_ Hne]. by destruct p.
Qed.

Lemma parse_encode_stamp s : well_formed s -> find_text (chars "purpose=") (head_of s) = None ->
  Stamp.parse (Stamp.encode s) = Some (settled s).
Proof.
  intros Hwf Hm. rewrite encode_eq. unfold Stamp.parse, split_trailing_free_text, settled.
  destruct (split_whitespace_join 32 _ eq_refl (head_tokens_good s Hwf)) as [H1 H2].
  destruct (purpose s) as [p|].
  - rewrite find_text_barrier; [|by vm_compute; set_solver|done|done].
    change (find_text (chars "purpose=") (32 :: chars "purpose=" ++ p)) with
      (match find_text (chars "purpose=") (chars "purpose=" ++ p) with Some (x, y) => Some (32 :: x, y) | None => None end).
    rewrite find_text_at. fold (head_of s) in H2. rewrite H2, read_head by done.
    unfold trimmed. cbn. by destruct (trim_text p).
  - rewrite app_nil_r, Hm. fold (head_of s) in H1. rewrite H1, read_head by done. done.
Qed.

(** ** The declaration *)

Definition declaration_tokens (d : EphemeralDeclaration) : list text :=
  match owner_pid d with Some pid => [chars "owner-pid=" ++ show_uint pid] | None => [] end
  ++ [chars "owner-host=" ++ owner_host d]
  ++ match idle_ttl_secs d with Some ttl => [chars "idle-ttl-secs=" ++ show_uint ttl] | None => [] end.

Definition declaration_well_formed (d : EphemeralDeclaration) : Prop :=
  from_option (fun p => p <= u32_max) True (owner_pid d) /\ good_word (owner_host d)
  /\ from_option (fun t => 0 < t <= u64_max) True (idle_ttl_secs d).

Lemma encode_declaration_eq d : Declaration.encode d = join_text 32 (declaration_tokens d).
Proof.
  unfold Declaration.encode, declaration_tokens.
  change (chars " idle-ttl-secs=") with ([32] ++ chars "idle-ttl-secs=").
  destruct (owner_pid d) as [p|], (idle_ttl_secs d) as [t|]; cbn [app join_text];
    change (chars " ") with [32]; rewrite <- ?app_assoc, ?app_nil_r; done.
Qed.

Lemma declaration_tokens_good d : declaration_well_formed d -> Forall good_word (declaration_tokens d).
Proof.
  intros (_ & [Hh _] & _). unfold declaration_tokens.
  apply Forall_app_2; [|apply Forall_app_2].
  - destruct (owner_pid d); [|done]. apply Forall_singleton. apply good_word_app; [reflexivity|discriminate|apply show_uint_no_ws].
  - apply Forall_singleton. by apply good_word_app; [reflexivity|discriminate|].
  - destruct (idle_ttl_secs d); [|done]. apply Forall_singleton. apply good_word_app; [reflexivity|discriminate|apply show_uint_no_ws].
Qed.

Lemma parse_encode_declaration d : declaration_well_formed d ->
  Declaration.parse (Declaration.encode d) = Some d.
Proof.
  intros Hwf. unfold Declaration.parse. rewrite encode_declaration_eq.
  destruct (split_whitespace_join 32 _ eq_refl (declaration_tokens_good d Hwf)) as [-> _].
  destruct Hwf as (Hp & _ & Ht). unfold declaration_tokens.
  assert (Hpid : forall r x, Declaration.read_token r (chars "owner-pid=" ++ x)
    = Declaration.mkReading (parse_text_uint u32_max x) (Declaration.r_host r) (Declaration.r_ttl r)) by done.
  assert (Hhost : forall r x, Declaration.read_token r (chars "owner-host=" ++ x)
    = Declaration.mkReading (Declaration.r_pid r) (Some x) (Declaration.r_ttl r)) by done.
  assert (Httl : forall r x, Declaration.read_token r (chars "idle-ttl-secs=" ++ x)
    = Declaration.mkReading (Declaration.r_pid r) (Declaration.r_host r)
        (keep_if (fun ttl => 0 <? ttl) (parse_text_uint u64_max x))) by done.
  destruct d as [[p|] h [t|]]; cbn [owner_pid owner_host idle_ttl_secs from_option] in *; cbn [app fold_left];
    rewrite ?Hpid, ?Hhost, ?Httl, ?parse_show_uint by lia;
    cbn [Declaration.r_host Declaration.r_pid Declaration.r_ttl keep_if mbind option_bind];
    rewrite ?(proj2 (N.ltb_lt 0 t)) by lia; done.
Qed.

(** ** Through the metadata *)

Lemma metadata_upsert_same m l v : session_metadata_value (upsert_session_metadata m l v) l = Some v.
Proof.
  unfold session_metadata_value. induction m as [|e m IH]; cbn; [by rewrite String.eqb_refl|].
  destruct (String.eqb (fst e) l) eqn:E; cbn; [by rewrite String.eqb_refl|]. by rewrite E.
Qed.

Lemma metadata_upsert_other m l l' v : l <> l' ->
  session_metadata_value (upsert_session_metadata m l v) l' = session_metadata_value m l'.
Proof.
  intros H. unfold session_metadata_value. induction m as [|e m IH]; cbn.
  - by rewrite (proj2 (String.eqb_neq l l')).
  - destruct (String.eqb_spec (fst e) l) as [E|E]; cbn; [|by destruct (String.eqb (fst e) l')].
    rewrite (proj2 (String.eqb_neq l l')) by done. by rewrite E, (proj2 (String.eqb_neq l l')).
Qed.

Lemma trimmed_tight t : trim_text t = t -> t <> [] -> trimmed (Some t) = Some t.
Proof. intros H Hne. unfold trimmed. cbn. rewrite H. by destruct t. Qed.

Lemma tight_join ws : Forall good_word ws -> ws <> [] -> tight (join_text 32 ws) = true /\ join_text 32 ws <> [].
Proof.
  intros H Hne. assert (join_text 32 ws <> []) as Hj.
  { destruct H as [|w ws [_ Hw] _]; [done|]. by destruct ws, w. }
  split; [|done]. unfold tight.
  assert (Hh : forall a, head (join_text 32 ws) = Some a -> is_whitespace a = false).
  { intros a Ha. destruct H as [|w ws [Hf Hw] _]; [done|]. destruct w as [|x w]; [done|].
    assert (a = x) as -> by (destruct ws; cbn in Ha; congruence). cbn in Hf. by destruct (is_whitespace x). }
  assert (Hl : forall a, last (join_text 32 ws) = Some a -> is_whitespace a = false).
  { clear Hh Hne Hj. induction H as [|w ws [Hf Hw] Hws IH]; intros a Ha; [done|].
    destruct ws as [|w' ws].
    - cbn in Ha. unfold free_of_ws in Hf. rewrite forallb_forall in Hf.
      specialize (Hf a). rewrite negb_true_iff in Hf. apply Hf, list_elem_of_In, last_Some_elem_of, Ha.
    - apply IH. change (join_text 32 (w :: w' :: ws)) with (w ++ 32 :: join_text 32 (w' :: ws)) in Ha.
      rewrite last_app in Ha. destruct (join_text 32 (w' :: ws)) as [|n t] eqn:E.
      2:{ rewrite last_cons_cons in Ha. destruct (last (n :: t)) eqn:El; [exact Ha|by apply last_None in El]. }
      exfalso. apply Forall_inv in Hws as [_ Hw']. by destruct ws, w'. }
  destruct (head (join_text 32 ws)) as [a|] eqn:Ea; [|done]. destruct (last (join_text 32 ws)) as [b|] eqn:Eb; [|done].
  by rewrite (Hh a), (Hl b).
Qed.

Lemma trimmed_join ws : Forall good_word ws -> ws <> [] -> trimmed (Some (join_text 32 ws)) = Some (join_text 32 ws).
Proof. intros H Hne. destruct (tight_join ws H Hne). apply trimmed_tight; [by apply trim_text_tight|done]. Qed.

Lemma parse_uint_le width s n : parse_uint width s = Some n -> n <= width.
Proof. unfold parse_uint. repeat case_match; try done. intros [= <-]. lia. Qed.

(** ** What [new] makes of its arguments *)

(** A purpose starts with something; only its end may have been cut. *)
Definition starts_black (p : text) : Prop := from_option (fun c => is_whitespace c = false) False (head p).

Definition purpose_formed (s : CreatorStamp) : Prop := from_option starts_black True (purpose s).

Lemma starts_black_trim p : starts_black p -> trim_text p = trim_text_end p /\ trim_text_end p <> [] /\ starts_black (trim_text_end p).
Proof.
  unfold starts_black. destruct p as [|c p]; cbn [head from_option]; [done|]. intros Hc.
  split; [unfold trim_text; cbn [trim_text_start]; by rewrite Hc|].
  unfold trim_text_end. cbn [rev].
  assert (forall l : text, trim_text_start (l ++ [c]) = trim_text_start l ++ [c]) as E.
  { intros l. induction l as [|x l IH]; cbn; [by rewrite Hc|]. by case_match. }
  rewrite E, rev_app_distr. by split.
Qed.

Lemma free_text_starts_black v : sanitize_free_text v <> [] -> starts_black (sanitize_free_text v).
Proof.
  unfold sanitize_free_text. pose proof (split_whitespace_words v) as H.
  destruct (split_whitespace v) as [|w ws]; [done|]. destruct (H w (list_elem_of_here _ _)) as [Hf Hne].
  intros _. destruct w as [|c w]; [done|]. cbn in Hf.
  destruct ws; change (is_whitespace c = false); by destruct (is_whitespace c).
Qed.

Lemma keep_if_all {A} (P : A -> Prop) (p : A -> bool) o :
  (forall a, o = Some a -> p a = true -> P a) -> from_option P True (keep_if p o).
Proof. destruct o as [a|]; cbn; [|done]. intros H. destruct (p a) eqn:E; [by apply H|done]. Qed.

Lemma new_well_formed n h p parent : n <= u32_max ->
  let s := Stamp.with_parent_session_path parent (Stamp.new n h p) in well_formed s /\ purpose_formed s.
Proof.
  intros Hn s. split; [split; [done|split; [apply sanitize_token_good|]]|]; apply keep_if_all; intros t Ht Hne%non_empty_true.
  - destruct parent as [q|]; [|done]. injection Ht as <-. split; [apply sanitize_path_token_ws|done].
  - destruct p as [q|]; [|done]. injection Ht as <-. by apply free_text_starts_black.
Qed.

(** ** Through the request *)

Lemma trim_text_end_app a p : tight a = true -> a <> [] -> trim_text (a ++ p) = a ++ trim_text_end p.
Proof.
  intros Ht Hne. unfold tight in Ht.
  assert (trim_text_start (a ++ p) = a ++ p) as Hs.
  { destruct a as [|c a]; [done|]. cbn in *. destruct (last (c :: a)) eqn:E; [|by apply last_None in E].
    by destruct (is_whitespace c). }
  unfold trim_text. rewrite Hs. unfold trim_text_end. rewrite rev_app_distr.
  destruct a as [|b a _] using rev_ind; [done|]. rewrite last_snoc, rev_unit in *.
  assert (is_whitespace b = false) as Hb.
  { destruct (head (a ++ [b])) eqn:E; [|by destruct a]. by destruct (is_whitespace b); [rewrite andb_false_r in Ht|]. }
  assert (forall l : text, trim_text_start (l ++ b :: rev a) = trim_text_start l ++ b :: rev a) as ->.
  { intros l. induction l as [|x l IH]; cbn [app trim_text_start]; [by rewrite Hb|]. by destruct (is_whitespace x). }
  by rewrite rev_app_distr, <- rev_unit, rev_involutive.
Qed.

Lemma trimmed_encode s : well_formed s -> purpose_formed s ->
  trimmed (Some (Stamp.encode s)) = Some (Stamp.encode (settled s)).
Proof.
  intros Hwf Hp. pose proof (head_tokens_good s Hwf) as Hg. rewrite !encode_eq.
  change (head_of (settled s)) with (head_of s). unfold settled at 1. cbn [purpose].
  assert (head_tokens s <> []) as Hne by done.
  unfold purpose_formed in Hp. destruct (purpose s) as [p|].
  - destruct (starts_black_trim p Hp) as (E & Hpe & _). unfold trimmed at 2. cbn [fmap option_fmap option_map].
    rewrite E. cbn [keep_if]. rewrite (proj2 (non_empty_true _)) by done.
    set (a := head_of s ++ 32 :: chars "purpose=").
    assert (Ha : forall x, head_of s ++ 32 :: chars "purpose=" ++ x = a ++ x) by (intros; unfold a; by rewrite <- app_assoc).
    rewrite !Ha. assert (a = join_text 32 (head_tokens s ++ [chars "purpose="])) as Ea.
    { unfold a, head_of, head_tokens. change (join_text 32 (([?x; ?y] ++ ?l) ++ ?k)) with (x ++ 32 :: join_text 32 (y :: l ++ k)).
      change (join_text 32 ([?x; ?y] ++ ?l)) with (x ++ 32 :: join_text 32 (y :: l)).
      destruct (parent_session_path s); cbn [app join_text]; rewrite <- ?app_assoc; cbn [app]; rewrite <- ?app_assoc; done. }
    destruct (tight_join (head_tokens s ++ [chars "purpose="])) as [Ht Hn];
      [apply Forall_app_2; [done|by apply Forall_singleton]|by destruct (head_tokens s)|].
    rewrite <- Ea in Ht, Hn. unfold trimmed. cbn [fmap option_fmap option_map keep_if].
    rewrite trim_text_end_app by done. rewrite (proj2 (non_empty_true _)); [done|by destruct a].
  - change (trimmed None) with (@None text). cbn iota. rewrite !app_nil_r. by apply trimmed_join.
Qed.

Lemma settled_formed s : well_formed s -> purpose_formed s ->
  well_formed (settled s) /\ purpose_formed (settled s) /\ settled (settled s) = settled s.
Proof.
  intros Hwf Hp. split; [exact Hwf|]. unfold purpose_formed, settled in *. cbn.
  destruct (purpose s) as [p|]; cbn; [|done]. destruct (starts_black_trim p Hp) as (E & Hpe & Hb).
  unfold trimmed. cbn. rewrite E, (proj2 (non_empty_true _)) by done. cbn.
  split; [done|]. rewrite <- E, (trim_text_tight (trim_text p)) by apply trim_text_is_tight.
  by rewrite E, (proj2 (non_empty_true _)).
Qed.

Lemma ok_declaration_formed n h t args : read_owner_pid args = Ok n -> read_idle_ttl args = Ok t ->
  declaration_well_formed (Declaration.new n h t).
Proof.
  unfold read_owner_pid, read_idle_ttl. intros Hn Ht. split; [|split; [apply sanitize_token_good|]].
  - destruct (cli_flag_value args "--ephemeral-owner-pid"); [|injection Hn as <-; exact I].
    destruct (parse_uint u32_max _) eqn:E; [|done]. injection Hn as <-. by apply parse_uint_le in E.
  - destruct (cli_flag_value args "--ephemeral-idle-ttl-secs"); [|injection Ht as <-; exact I].
    destruct (parse_u64 _) as [secs|] eqn:E; [|done]. destruct (0 <? secs) eqn:Ez; [|done]. injection Ht as <-.
    cbn. rewrite Ez. apply parse_uint_le in E. cbn. lia.
Qed.

(** What a create that succeeds declares. *)
Lemma create_ok args n h var t : n <= u32_max -> create_terminal_tenancy_from_args args n h var = Ok t ->
  well_formed (created_by t) /\ purpose_formed (created_by t)
  /\ from_option (fun d => declaration_well_formed d /\ Declaration.declares_a_rule d = true) True (ephemeral t)
  /\ is_Some_b (ephemeral t) = existsb (String.eqb "--ephemeral") args.
Proof.
  intros Hn. unfold create_terminal_tenancy_from_args.
  destruct (read_owner_pid args) as [op|] eqn:E1; [|done]. destruct (read_idle_ttl args) as [ttl|] eqn:E2; [|done].
  case_match; [done|]. pose proof (ok_declaration_formed op h ttl args E1 E2) as Hd.
  destruct (existsb (String.eqb "--ephemeral") args); cbn [is_Some_b keep_if].
  - destruct (Declaration.declares_a_rule (Declaration.new op h ttl)) eqn:Er; cbn [negb is_Some_b]; [|done].
    intros [= <-]. cbn [created_by ephemeral]. destruct (new_well_formed n h (text_of <$> cli_flag_value args "--purpose") (parent_from_args args var) Hn).
    split; [done|split; [done|split; [by split|done]]].
  - intros [= <-]. cbn [created_by ephemeral]. destruct (new_well_formed n h (text_of <$> cli_flag_value args "--purpose") (parent_from_args args var) Hn).
    split; [done|split; [done|split; [exact I|done]]].
Qed.

(** C29: a create that succeeds is declared on a fresh row exactly as asked.  The daemon accepts the two
    texts it is sent, the row's metadata then read back as the very declaration and as the stamp (a purpose
    cut after a space loses that space), nothing else in the metadata changes, and no second declaration is
    accepted.  For the stamp, the text [purpose=] must not occur before the purpose. *)
Theorem tenancy_reads_back args n h var t m :
  n <= u32_max ->
  create_terminal_tenancy_from_args args n h var = Ok t ->
  find_text (chars "purpose=") (head_of (created_by t)) = None ->
  session_metadata_value m CREATED_BY_METADATA_LABEL = None ->
  session_metadata_value m EPHEMERAL_METADATA_LABEL = None ->
  exists m', declare_request (Some m) (Some (Stamp.encode (created_by t))) (Declaration.encode <$> ephemeral t) = Ok (Some m')
    /\ live_session_creator_stamp m' = Some (settled (created_by t))
    /\ live_session_ephemeral_declaration m' = ephemeral t
    /\ (forall l, l <> CREATED_BY_METADATA_LABEL -> l <> EPHEMERAL_METADATA_LABEL ->
          session_metadata_value m' l = session_metadata_value m l)
    /\ forall c e, declare_live_session_tenancy (Some m') c e = Err AlreadyCarriesATenancyDeclaration.
Proof.
  intros Hn Hok Hm Hc He. destruct (create_ok _ _ _ _ _ Hn Hok) as (Hwf & Hp & Hd & _).
  destruct (settled_formed _ Hwf Hp) as (Hwf' & Hp' & Hidem). set (st := created_by t) in *.
  assert (Hparse : forall s, s = settled st -> Stamp.parse (Stamp.encode s) = Some s).
  { intros s ->. rewrite parse_encode_stamp; [by rewrite Hidem|done|exact Hm]. }
  assert (Hwrite : trimmed (Some (Stamp.encode (settled st))) = Some (Stamp.encode (settled st)))
    by (rewrite trimmed_encode by done; by rewrite Hidem).
  assert (Hdt : forall d, ephemeral t = Some d -> trimmed (Some (Declaration.encode d)) = Some (Declaration.encode d)
    /\ Declaration.parse (Declaration.encode d) = Some d).
  { intros d E. rewrite E in Hd. destruct Hd as [Hd _]. split; [|by apply parse_encode_declaration].
    rewrite encode_declaration_eq. apply trimmed_join; [by apply declaration_tokens_good|].
    unfold declaration_tokens. by destruct (owner_pid d). }
  set (m1 := upsert_session_metadata m CREATED_BY_METADATA_LABEL (Stamp.encode (settled st))).
  exists (apply_one EPHEMERAL_METADATA_LABEL (Declaration.encode <$> ephemeral t) m1).
  assert (Hr : declare_request (Some m) (Some (Stamp.encode st)) (Declaration.encode <$> ephemeral t)
    = Ok (Some (apply_one EPHEMERAL_METADATA_LABEL (Declaration.encode <$> ephemeral t) m1))).
  { unfold declare_request. unfold read_field at 1. rewrite trimmed_encode, Hparse by done.
    assert (read_field Declaration.parse UnparseableDeclaration (Declaration.encode <$> ephemeral t) = Ok (ephemeral t)) as ->.
    { unfold read_field. destruct (ephemeral t) as [d|]; [|done]. destruct (Hdt d eq_refl) as [E1 E2].
      cbn [fmap option_fmap option_map]. by rewrite E1, E2. }
    unfold declare_live_session_tenancy. rewrite Hc, He. cbn [is_Some_b orb]. do 2 f_equal.
    unfold apply_session_tenancy_metadata. unfold apply_one at 2. cbn [fmap option_fmap option_map]. by rewrite Hwrite. }
  split; [exact Hr|].
  unfold live_session_creator_stamp, live_session_ephemeral_declaration, declare_live_session_tenancy, apply_one.
  destruct (ephemeral t) as [d|]; cbn [fmap option_fmap option_map].
  - destruct (Hdt d eq_refl) as [-> E2]. rewrite metadata_upsert_same.
    rewrite !metadata_upsert_other by done. unfold m1. rewrite metadata_upsert_same. cbn [mbind option_bind is_Some_b orb].
    split; [by apply Hparse|split; [done|split; [|done]]].
    intros l H1 H2. by rewrite !metadata_upsert_other.
  - cbn [trimmed keep_if fmap option_fmap option_map]. unfold m1. rewrite metadata_upsert_same. cbn [mbind option_bind is_Some_b orb].
    split; [by apply Hparse|split; [|split; [|done]]].
    + by rewrite metadata_upsert_other, He.
    + intros l H1 H2. by rewrite !metadata_upsert_other.
Qed.

(** * The reap pass *)

Section Judged.
Context {H : Type} `{!EphemeralReapHost H} (liveness : EphemeralDeclaration -> OwnerLiveness).

Definition judge (c : EphemeralCandidate) : option (string * EphemeralReapReason) :=
  pair (session_path c) <$> ephemeral_reap_reason c (liveness (declaration c)).

Definition close_all (l : list (string * EphemeralReapReason)) (host : H) : H :=
  fold_left (fun host p => close_row (fst p) (snd p) host) l host.

(** While closing changes no answer about owners, the loop judges every candidate alike. *)
Lemma reap_loop_judges (good : H -> Prop) l host traced reaped :
  (forall h, good h -> owner_liveness h = liveness) ->
  (forall p r h, good h -> good (close_row p r h)) -> good host ->
  exists traced', reap_loop l host traced reaped = (close_all (omap judge l) host, traced ++ traced', reaped ++ omap judge l)
    /\ map fst traced' = omap judge l.
Proof.
  intros Hl Hc. revert host traced reaped. induction l as [|c l IH]; intros host traced reaped Hg.
  - exists []. cbn. by rewrite !app_nil_r.
  - cbn [reap_loop omap list_omap]. rewrite (Hl host Hg). destruct (judge c) as [x|] eqn:E; unfold judge in E;
      destruct (ephemeral_reap_reason c (liveness (declaration c))) as [r|]; try done; [|by apply IH].
    injection E as <-.
    destruct (IH (close_row (session_path c) r host) (traced ++ [(session_path c, r, idle_secs c)])
                (reaped ++ [(session_path c, r)]) (Hc _ _ _ Hg)) as (t & -> & Ht).
    exists ((session_path c, r, idle_secs c) :: t). split; [by rewrite <- !app_assoc|]. cbn [map fst]. by rewrite Ht.
Qed.

End Judged.

Section Live.
Context (close_live_session_row : string -> LiveWorld -> LiveWorld).
#[local] Instance live_reap_host : EphemeralReapHost LiveWorld := LiveEphemeralReapHost close_live_session_row.

(** The declared owner lived on this machine, which has a name, and is gone. *)
Definition owner_is_gone (w : LiveWorld) (d : EphemeralDeclaration) : Prop :=
  exists p, owner_pid d = Some p /\ owner_host d = sanitize_token (world_host w)
    /\ owner_host d <> UNKNOWN_HOST_TOKEN /\ in_proc w p = false.

Definition silent_long_enough (w : LiveWorld) (path : string) (d : EphemeralDeclaration) : Prop :=
  exists ttl ms, idle_ttl_secs d = Some ttl /\ session_idle_for_ms w (terminal_runtime_key_for_path w path) = Some ms
    /\ ttl <= ms / 1000.

Lemma liveness_gone w d :
  is_Some_b (owner_pid d) && is_gone (owner_liveness_on_host (in_proc w) d (world_host w)) = true <-> owner_is_gone w d.
Proof.
  unfold owner_liveness_on_host, owner_is_gone. destruct (owner_pid d) as [p|]; cbn [is_Some_b andb].
  2:{ split; [done|]. by intros (p & ? & _). }
  repeat case_bool_decide; cbn [orb]; try (split; [done|intros (q & _ & Hh & Hu & _); congruence]).
  destruct (in_proc w p) eqn:E; cbn; split; try done.
  - intros (q & [= <-] & _ & _ & Hq). congruence.
  - intros _. by exists p.
Qed.

Lemma reason_spec w path d r :
  ephemeral_reap_reason (candidate_of w (path, d)) (owner_liveness_on_host (in_proc w) d (world_host w)) = Some r <->
  session_is_running w (terminal_runtime_key_for_path w path) = true /\
  match r with
  | OwnerGone => owner_is_gone w d
  | IdleTtl => ~ owner_is_gone w d /\ silent_long_enough w path d
  end.
Proof.
  unfold ephemeral_reap_reason, candidate_of. cbn [running declaration idle_secs fst snd].
  pose proof (liveness_gone w d) as Hg. unfold silent_long_enough.
  destruct (session_is_running w _); cbn [negb]; [|split; [done|by intros [? _]]].
  destruct (is_Some_b _ && is_gone _).
  { assert (owner_is_gone w d) by by apply Hg. destruct r; [by split|]. split; [done|]. by intros (_ & Hn & _). }
  assert (~ owner_is_gone w d) by (intros ?%Hg; done). clear Hg.
  destruct (idle_ttl_secs d) as [ttl|]; cbn [mbind option_bind].
  2:{ split; [done|]. destruct r; [by intros [_ ?]|by intros (_ & _ & ? & ? & ? & _)]. }
  destruct (session_idle_for_ms w _) as [ms|]; cbn [fmap option_fmap option_map mbind option_bind].
  2:{ split; [done|]. destruct r; [by intros [_ ?]|by intros (_ & _ & ? & ? & _ & ? & _)]. }
  destruct (N.leb_spec ttl (ms / 1000)); split; try done.
  - intros [= <-]. split; [done|]. split; [done|]. by exists ttl, ms.
  - by destruct r; [intros [_ ?]|].
  - destruct r; [by intros [_ ?]|]. intros (_ & _ & t & m & [= <-] & [= <-] & Hle). lia.
Qed.

(** C19: a pass of the reaper closes exactly the live rows whose metadata carry a declaration that has
    come due: the row runs here, and either its declared owner is a process of this very machine, which has
    a name, and is gone, or the declared time of silence has passed; every one is traced, and the rows are
    closed one after the other in the order of the list.  In particular a row without a declaration is
    never closed.  The close is any that changes neither /proc nor the name of the machine. *)
Theorem reap_closes_what_is_due (w : LiveWorld)
    (Hquiet : forall p v, in_proc (close_live_session_row p v) = in_proc v
                          /\ world_host (close_live_session_row p v) = world_host v) :
  let '(w', traced, outcome) := ephemeral_session_reap_pass w in
  (forall path r, (path, r) ∈ reaped outcome <->
     path ∈ live_session_order w /\
     exists m d, sessions w !! path = Some m /\ live_session_ephemeral_declaration m = Some d /\
       session_is_running w (terminal_runtime_key_for_path w path) = true /\
       match r with
       | OwnerGone => owner_is_gone w d
       | IdleTtl => ~ owner_is_gone w d /\ silent_long_enough w path d
       end)
  /\ w' = fold_left (fun v p => close_live_session_row (fst p) v) (reaped outcome) w
  /\ map fst traced = reaped outcome
  /\ considered outcome = length (ephemeral_live_session_declarations w).
Proof.
  unfold ephemeral_session_reap_pass.
  destruct (reap_loop_judges (fun d => owner_liveness_on_host (in_proc w) d (world_host w))
    (fun v => in_proc v = in_proc w /\ world_host v = world_host w) (candidates w) w [] []) as (traced & -> & Ht).
  { intros h [E1 E2]. cbn. by rewrite E1, E2. }
  { intros p r h [E1 E2]. cbn. destruct (Hquiet p h) as [-> ->]. by split. }
  { done. }
  cbn [app reaped considered]. split; [|split; [done|split; [done|cbn; apply length_map]]].
  intros path r. rewrite list_elem_of_omap. cbn. unfold live_candidates. setoid_rewrite list_elem_of_fmap.
  assert (Hd : forall key d, (key, d) ∈ ephemeral_live_session_declarations w <->
    key ∈ live_session_order w /\ exists m, sessions w !! key = Some m /\ live_session_ephemeral_declaration m = Some d).
  { intros key d. unfold ephemeral_live_session_declarations. rewrite list_elem_of_omap. split.
    - intros (k & Hk & Hb). destruct (sessions w !! k) as [m|] eqn:Em; [|done]. cbn in Hb.
      destruct (live_session_ephemeral_declaration m) as [d'|] eqn:Ed; [|done]. cbn in Hb. injection Hb as <- <-. by eauto.
    - intros (Hk & m & Em & Ed). exists key. split; [done|]. rewrite Em. cbn. by rewrite Ed. }
  split.
  - intros (c & ([key d] & -> & Hin) & Hj). apply Hd in Hin as (Hk & m & Em & Ed). unfold judge in Hj.
    destruct (ephemeral_reap_reason _ _) as [r'|] eqn:Er; [|done]. cbn in Hj. injection Hj as <- <-.
    apply reason_spec in Er as [Hr1 Hr2]. split; [done|]. by exists m, d.
  - intros (Hk & m & d & Em & Ed & Hrun & Hr). exists (candidate_of w (path, d)). split.
    + exists (path, d). split; [done|]. apply Hd. by eauto.
    + unfold judge. cbn [declaration candidate_of snd]. by rewrite (proj2 (reason_spec w path d r)).
Qed.

End Live.

(** * Concrete rows *)

Module Rows.
#[local] Open Scope string_scope.

Definition no_env (key : string) : option text := None.
Definition args : list string :=
  ["terminal"; "new"; "--purpose"; "probe the build"; "--ephemeral"; "--ephemeral-idle-ttl-secs=600"].
Definition tenancy : CreateTerminalTenancy :=
  mkTenancy (mkStamp 4242 (chars "box") (Some (chars "probe the build")) None)
            (Some (mkDeclaration None (chars "box") (Some 600))).

Lemma tenancy_reads_back_witness :
  create_terminal_tenancy_from_args args 4242 (chars "box") no_env = Ok tenancy
  /\ exists m', declare_request (Some [("Cwd", chars "/home")]) (Some (Stamp.encode (created_by tenancy)))
       (Declaration.encode <$> ephemeral tenancy) = Ok (Some m')
    /\ live_session_creator_stamp m' = Some (settled (created_by tenancy))
    /\ live_session_ephemeral_declaration m' = ephemeral tenancy
    /\ (forall l, l <> CREATED_BY_METADATA_LABEL -> l <> EPHEMERAL_METADATA_LABEL ->
          session_metadata_value m' l = session_metadata_value [("Cwd", chars "/home")] l)
    /\ forall c e, declare_live_session_tenancy (Some m') c e = Err AlreadyCarriesATenancyDeclaration.
Proof.
  split; [by vm_compute|].
  apply (tenancy_reads_back args 4242 (chars "box") no_env tenancy); by vm_compute.
Defined.

(** A daemon with a row declared to go after ten minutes, a row whose owner has gone, and a plain one. *)
Definition world : LiveWorld := {|
  live_session_order := ["local://plain"; "local://quiet"; "local://orphan"];
  sessions := list_to_map [
    ("local://plain", [("Cwd", chars "/home")]);
    ("local://quiet", [("Ephemeral", chars "owner-host=box idle-ttl-secs=600")]);
    ("local://orphan", [("Ephemeral", chars "owner-pid=77 owner-host=box")])];
  terminal_runtime_key_for_path := fun path => path;
  session_idle_for_ms := fun _ => Some 700000;
  session_is_running := fun _ => true;
  in_proc := fun pid => N.eqb pid 1;
  world_host := chars "box" |}.

Definition forget (path : string) (w : LiveWorld) : LiveWorld := {|
  live_session_order := List.filter (fun p => negb (String.eqb p path)) (live_session_order w);
  sessions := delete path (sessions w);
  terminal_runtime_key_for_path := terminal_runtime_key_for_path w;
  session_idle_for_ms := session_idle_for_ms w;
  session_is_running := session_is_running w;
  in_proc := in_proc w;
  world_host := world_host w |}.

Definition pass_of (w : LiveWorld) : LiveWorld * list TraceCall * EphemeralReapOutcome :=
  @ephemeral_session_reap_pass LiveWorld (LiveEphemeralReapHost forget) w.

Example the_due_rows_go :
  reaped (snd (pass_of world)) = [("local://quiet", IdleTtl); ("local://orphan", OwnerGone)]
  /\ live_session_order (fst (fst (pass_of world))) = ["local://plain"].
Proof. by vm_compute. Qed.

Lemma reap_closes_what_is_due_witness :
  let '(w', traced, outcome) := pass_of world in
  w' = fold_left (fun v p => forget (fst p) v) (reaped outcome) world /\ considered outcome = 2%nat.
Proof.
  pose proof (reap_closes_what_is_due forget world (fun _ _ => conj eq_refl eq_refl)) as H.
  unfold pass_of. destruct (ephemeral_session_reap_pass world) as [[w' traced] outcome].
  destruct H as (_ & Hw & _ & Hc). split; [exact Hw|exact Hc].
Defined.

(** An owner on another machine, or on one that cannot name itself, is never gone. *)
Example strangers_are_not_judged :
  owner_liveness_on_host (fun _ => false) (mkDeclaration (Some 77) (chars "box") None) (chars "other") = Unknown
  /\ owner_liveness_on_host (fun _ => false) (mkDeclaration (Some 77) UNKNOWN_HOST_TOKEN None) [] = Unknown.
Proof. by vm_compute. Qed.

(** The search for the purpose finds [purpose=] inside a parent's path: the stamp does not read back. *)
Example a_marker_in_the_parent :
  let s := mkStamp 1 (chars "box") (Some (chars "probe")) (Some (chars "local://purpose=x")) in
  Stamp.parse (Stamp.encode s)
  = Some (mkStamp 1 (chars "box") (Some (chars "x purpose=probe")) (Some (chars "local://"))).
Proof. by vm_compute. Qed.

(** A purpose cut after a space is stored with it and read back without it. *)
Example a_purpose_cut_at_a_space :
  let long := List.repeat 97 199 in
  sanitize_free_text (long ++ chars " b")%list = (long ++ [32])%list
  /\ trimmed (Some (sanitize_free_text (long ++ chars " b")%list)) = Some long.
Proof. by vm_compute. Qed.

(** A pid that is no pid is dropped without a word: what is then stored has no rule left, and the row that
    its creator declared ephemeral is never reaped. *)
Example an_unreadable_rule_is_accepted :
  declare_request (Some []) None (Some (chars "owner-pid=99999999999 owner-host=box"))
  = Ok (Some [(EPHEMERAL_METADATA_LABEL, chars "owner-host=box")])
  /\ Declaration.declares_a_rule (mkDeclaration None (chars "box") None) = false.
Proof. by vm_compute. Qed.

(** The variable that sshd forwards is read only where the first is not set, wherever it stands. *)
Example the_first_marker_wins :
  session_marker_from_environ_bytes
    ("LC_YGGTERM_SESSION_ID=local://far" ++ String "000" "YGGTERM_SESSION_ID=local://near")
  = Some (chars "local://near").
Proof. by vm_compute. Qed.

End Rows.
