(* ===== verification/RowTenants.v ===== *)
(** * What runs inside a row, and whether the row may be cleared

    src/crates/yggterm-server/src/session_tenancy.rs: the reading of /proc, the walk of a row's process
    tree, the report on a row and the verdict on it; with the answer of src/crates/yggterm-server/src/daemon.rs
    to a request for the reports.

    The files of /proc are texts and byte strings.  Ticks are added without wrapping, where the code does
    not check.  A [f64] of seconds is a value of the class [Seconds]. *)
From S2P Require Import Prelude RustStr RustChar RustText SessionTenancy.
From Stdlib Require Import ZifyBool ZifyN.
#[local] Open Scope N_scope.
#[local] Open Scope list_scope.

(** ** Processes *)

Record ProcEntry := mkProc {
  pid : N; ppid : N; pgid : N; comm : text; cmdline : text; cpu_ticks : N; start_ticks : N }.

Definition with_cmdline (cmdline : text) (e : ProcEntry) : ProcEntry :=
  mkProc (pid e) (ppid e) (pgid e) (comm e) cmdline (cpu_ticks e) (start_ticks e).

(** [parse_proc_stat_line]: the name is what stands between the first opening and the last closing
    parenthesis. *)
Definition parse_proc_stat_line (line : text) : option ProcEntry :=
  '(before, _) ← split_text_once 40 line;
  '(upto, after) ← rsplit_text_once 41 line;
  if (length upto <? length before)%nat then None else
  pid ← parse_text_uint u32_max (trim_text before);
  let comm := drop (S (length before)) upto in
  let rest := split_whitespace after in
  ppid ← rest !! 1%nat ≫= parse_text_uint u32_max;
  pgid ← rest !! 2%nat ≫= parse_text_uint u32_max;
  utime ← rest !! 11%nat ≫= parse_text_uint u64_max;
  stime ← rest !! 12%nat ≫= parse_text_uint u64_max;
  start_ticks ← rest !! 19%nat ≫= parse_text_uint u64_max;
  Some (mkProc pid ppid pgid comm [] (utime + stime) start_ticks).

(** [decode_proc_cmdline] on the text of the file. *)
Definition decode_proc_cmdline (text : text) : RustChar.text :=
  trim_text (join_text 32 (List.filter non_empty (split_text 0 text))).

(** ** A reading of /proc *)

Record ProcSnapshot := mkSnapshot {
  entries : gmap N ProcEntry;
  children : gmap N (list N);
  clock_ticks_per_sec : N;
  uptime_secs : N }.

Fixpoint push_children (l : list ProcEntry) (children : gmap N (list N)) : gmap N (list N) :=
  match l with
  | [] => children
  | e :: l' => push_children l' (<[ppid e := default [] (children !! ppid e) ++ [pid e]]> children)
  end.

(** [collect] into a map: a later entry of the same pid replaces the earlier. *)
Definition index_by_pid (l : list ProcEntry) : gmap N ProcEntry :=
  fold_left (fun m e => <[pid e := e]> m) l ∅.

Module Snapshot.

Definition new (l : list ProcEntry) (clock_ticks_per_sec uptime_secs : N) : ProcSnapshot :=
  mkSnapshot (index_by_pid l) (push_children l ∅) (N.max clock_ticks_per_sec 1) uptime_secs.

Definition get (s : ProcSnapshot) (pid : N) : option ProcEntry := entries s !! pid.

Definition age_secs (s : ProcSnapshot) (entry : ProcEntry) : N :=
  uptime_secs s - start_ticks entry / clock_ticks_per_sec s.

(** The inner loop of [descendants] over the children of one process. *)
Fixpoint visit (s : ProcSnapshot) (kids : list N) (seen : gset N) (queue : list N) (found : list ProcEntry)
    : gset N * list N * list ProcEntry :=
  match kids with
  | [] => (seen, queue, found)
  | kid :: kids' =>
      if decide (kid ∈ seen) then visit s kids' seen queue found
      else visit s kids' ({[kid]} ∪ seen) (queue ++ [kid])
             (found ++ match entries s !! kid with Some entry => [entry] | None => [] end)
  end.

(** The outer loop; [None] is out of fuel. *)
Fixpoint walk (s : ProcSnapshot) (fuel : nat) (seen : gset N) (queue : list N) (found : list ProcEntry)
    : option (list ProcEntry) :=
  match fuel with
  | O => None
  | S fuel =>
      match queue with
      | [] => Some found
      | pid :: queue' =>
          let '(seen, queue', found) := visit s (default [] (children s !! pid)) seen queue' found in
          walk s fuel seen queue' found
      end
  end.

(** Every process is queued at most once: one step for the root, one for each process listed as a child,
    and one to find the queue empty. *)
Definition all_kids (s : ProcSnapshot) : list N := List.concat (map snd (map_to_list (children s))).

Definition walk_fuel (s : ProcSnapshot) : nat := S (S (length (all_kids s))).

Definition descendants (s : ProcSnapshot) (root : N) : list ProcEntry :=
  default [] (walk s (walk_fuel s) {[root]} [root] []).

End Snapshot.

(** [parse_proc_uptime]; [parse_secs] is the parse of a [f64] and its truncation. *)
Definition parse_proc_uptime (parse_secs : text -> option N) (raw : text) : option N :=
  head (split_whitespace raw) ≫= parse_secs.

(** One directory of /proc: its name, and its files [stat] and [cmdline] where they could be read. *)
Record ProcDir := mkDir { name : text; stat : option text; cmdline_file : option text }.

Definition read_entry (d : ProcDir) : option ProcEntry :=
  _ ← parse_text_uint u32_max (name d);
  line ← stat d;
  entry ← parse_proc_stat_line line;
  Some match cmdline_file d with Some raw => with_cmdline (decode_proc_cmdline raw) entry | None => entry end.

(** ** The report on one row *)

(** Seconds of processor time as [f64]: the quotient of two integers and the comparison. *)
Class Seconds := {
  sec : Type;
  quotient : N -> N -> sec;
  partial_cmp : sec -> sec -> option comparison
}.

Definition MAX_LISTED_TENANTS : nat := 16.

Definition SHELL_COMMAND_NAMES : list string :=
  ["sh"; "bash"; "dash"; "zsh"; "fish"; "ksh"; "mksh"; "tcsh"; "csh"; "ash"; "busybox"]%string.

Inductive TenantReportGap :=
  NotSupportedOnPlatform | ProcUnreadable | NoLocalRuntime | RuntimeUnreachable | RuntimeNotRunning
  | RootPidUnavailable | RootPidNotInProc.

Definition reason (g : TenantReportGap) : string :=
  match g with
  | NotSupportedOnPlatform => "not_supported_on_platform"
  | ProcUnreadable => "proc_unreadable"
  | NoLocalRuntime => "no_local_runtime"
  | RuntimeUnreachable => "runtime_unreachable"
  | RuntimeNotRunning => "runtime_not_running"
  | RootPidUnavailable => "root_pid_unavailable"
  | RootPidNotInProc => "root_pid_not_in_proc"
  end.

(** [read_proc_snapshot], from the text of /proc/uptime and the directories of /proc. *)
Definition read_proc_snapshot (parse_secs : text -> option N) (clock_ticks_per_sec : N)
    (uptime : option text) (proc : option (list ProcDir)) : ProcSnapshot + TenantReportGap :=
  match option_bind _ _ (parse_proc_uptime parse_secs) uptime with
  | None => inr ProcUnreadable
  | Some uptime_secs =>
      match option_map (omap (M := list) read_entry) proc with
      | None | Some [] => inr ProcUnreadable
      | Some l => inl (Snapshot.new l clock_ticks_per_sec uptime_secs)
      end
  end.

Definition display_command (entry : ProcEntry) : text :=
  if non_empty (trim_text (cmdline entry)) then cmdline entry else comm entry.

Fixpoint trim_start_of (c : N) (t : text) : text :=
  match t with
  | [] => []
  | x :: t' => if x =? c then trim_start_of c t' else t
  end.

Definition command_is_shell (comm : text) : bool :=
  let name := trim_start_of 45 comm in
  existsb (fun shell => bool_decide (text_lower name = text_lower (chars shell))) SHELL_COMMAND_NAMES.

Inductive RowHygieneVerdict :=
  | UserRow
  | Unmeasurable (reason : text)
  | Occupied (tenant_count : nat) (oldest_tenant_age_secs : option N) (oldest_tenant_command : option text)
  | EmptyPlate (idle_secs : option N).

Definition is_clearable (v : RowHygieneVerdict) (minimum_idle_secs : N) : bool :=
  match v with EmptyPlate (Some idle) => minimum_idle_secs <=? idle | _ => false end.

Definition label (v : RowHygieneVerdict) : string :=
  match v with
  | UserRow => "user_row" | Unmeasurable _ => "unmeasurable"
  | Occupied _ _ _ => "occupied" | EmptyPlate _ => "empty_plate"
  end.

Section Reports.
Context `{!Seconds}.

Record TenantProcess := mkTenant {
  t_pid : N; t_ppid : N; t_command : text; t_cpu_seconds : sec; t_age_secs : N; t_is_shell : bool }.

Record RowTenantReport := mkReport {
  session_path : string; runtime_key : string;
  unavailable_reason : option string;
  root_pid : option N; foreground_pgid : option N; foreground_command : option text;
  tenant_count : option nat; tree_cpu_seconds : option sec;
  oldest_tenant_age_secs : option N; oldest_tenant_command : option text;
  tenants : list TenantProcess; tenants_listed_of : option nat;
  created_by : option CreatorStamp; ephemeral : option EphemeralDeclaration;
  idle_secs : option N; hygiene : option RowHygieneVerdict;
  work_runs_on : option text; locality_checked : bool }.

Definition unavailable (session_path runtime_key : string) (gap : TenantReportGap) : RowTenantReport :=
  mkReport session_path runtime_key (Some (reason gap)) None None None None None None None [] None
    None None None None None false.

Definition cpu_seconds (s : ProcSnapshot) (ticks : N) : sec := quotient ticks (clock_ticks_per_sec s).

Definition tenant_of (s : ProcSnapshot) (entry : ProcEntry) : TenantProcess :=
  mkTenant (pid entry) (ppid entry) (display_command entry) (cpu_seconds s (cpu_ticks entry))
    (Snapshot.age_secs s entry) (command_is_shell (comm entry)).

(** [Iterator::max_by_key]: the last of the greatest. *)
Fixpoint max_by_age (l : list TenantProcess) (best : option TenantProcess) : option TenantProcess :=
  match l with
  | [] => best
  | t :: l' => max_by_age l' (match best with
                              | Some b => if t_age_secs b <=? t_age_secs t then Some t else Some b
                              | None => Some t
                              end)
  end.

Definition then_with (c d : comparison) : comparison := match c with Eq => d | _ => c end.

Definition compare_tenants (left right : TenantProcess) : comparison :=
  then_with (then_with (default Eq (partial_cmp (t_cpu_seconds right) (t_cpu_seconds left)))
                       (t_age_secs right ?= t_age_secs left))
            (t_pid left ?= t_pid right).

Definition tenant_leb (left right : TenantProcess) : bool :=
  match compare_tenants left right with Gt => false | _ => true end.

Definition sum_ticks (l : list ProcEntry) : N := fold_left (fun n e => n + cpu_ticks e) l 0.

Definition row_tenant_report (s : ProcSnapshot) (session_path runtime_key : string) (root_pid : N)
    (foreground_pgid : option N) : RowTenantReport :=
  match Snapshot.get s root_pid with
  | None => unavailable session_path runtime_key RootPidNotInProc
  | Some root =>
      let descendants := Snapshot.descendants s root_pid in
      let tree_ticks := cpu_ticks root + sum_ticks descendants in
      let tenants := map (tenant_of s) descendants in
      let oldest := max_by_age (List.filter (fun t => negb (t_is_shell t)) tenants) None in
      let tenants := stable_sort tenant_leb tenants in
      let tenant_count := length tenants in
      mkReport session_path runtime_key None (Some root_pid) foreground_pgid
        (display_command <$> (foreground_pgid ≫= Snapshot.get s))
        (Some tenant_count) (Some (cpu_seconds s tree_ticks))
        (t_age_secs <$> oldest) (t_command <$> oldest)
        (take MAX_LISTED_TENANTS tenants)
        (if (MAX_LISTED_TENANTS <? tenant_count)%nat then Some tenant_count else None)
        None None None None None false
  end.

(** ** The verdict *)

Definition row_hygiene_verdict (report : RowTenantReport) : RowHygieneVerdict :=
  match unavailable_reason report with
  | Some reason => Unmeasurable (text_of reason)
  | None =>
  match work_runs_on report with
  | Some host => Unmeasurable (text_of "work runs on " ++ host ++ text_of " — only that host may judge it")
  | None =>
  match created_by report with
  | None => UserRow
  | Some _ =>
  match tenant_count report with
  | None => Unmeasurable (text_of "tenant_count_missing")
  | Some tenant_count =>
      if (0 <? tenant_count)%nat
      then Occupied tenant_count (oldest_tenant_age_secs report) (oldest_tenant_command report)
      else EmptyPlate (idle_secs report)
  end end end end.

(** ** The daemon's answer *)

Inductive SessionSource := Stored | LiveLocal | LiveSsh.

Record LiveSession := mkLive { source : SessionSource; host_label : text; metadata : Metadata }.

(** [YggtermServer::live_session_remote_work_host] on what the path resolved to. *)
Definition live_session_remote_work_host (session : option LiveSession) : option text :=
  session ← session;
  match source session with
  | LiveSsh => let host := trim_text (host_label session) in
               Some (if non_empty host then host else text_of "another host")
  | Stored | LiveLocal => None
  end.

(** What the answer reads of a [DaemonRuntime].  The last is the answer of the daemon that owns the
    terminal, when one is registered: [None] inside for an error. *)
Record TenantDaemon := mkDaemon {
  runtime_key_for_path : string -> string;
  live_session : string -> option LiveSession;
  has_session : string -> bool;
  session_is_running : string -> bool;
  session_process_id : string -> option N;
  session_idle_for_ms : string -> option N;
  foreground_leader : string -> option N;
  preserved_owner : string -> option (option (list RowTenantReport)) }.

Definition readdressed (path key : string) (r : RowTenantReport) : RowTenantReport :=
  mkReport path key (unavailable_reason r) (root_pid r) (foreground_pgid r) (foreground_command r)
    (tenant_count r) (tree_cpu_seconds r) (oldest_tenant_age_secs r) (oldest_tenant_command r)
    (tenants r) (tenants_listed_of r) (created_by r) (ephemeral r) (idle_secs r) (hygiene r)
    (work_runs_on r) (locality_checked r).

Definition with_idle (idle : option N) (r : RowTenantReport) : RowTenantReport :=
  mkReport (session_path r) (runtime_key r) (unavailable_reason r) (root_pid r) (foreground_pgid r)
    (foreground_command r) (tenant_count r) (tree_cpu_seconds r) (oldest_tenant_age_secs r)
    (oldest_tenant_command r) (tenants r) (tenants_listed_of r) (created_by r) (ephemeral r) idle
    (hygiene r) (work_runs_on r) (locality_checked r).

(** [DaemonRuntime::proxied_row_tenant_report]. *)
Definition proxied_row_tenant_report (path key : string) (answer : option (list RowTenantReport)) : RowTenantReport :=
  match answer with
  | Some (row :: _) => readdressed path key row
  | Some [] | None => unavailable path key RuntimeUnreachable
  end.

(** [DaemonRuntime::row_tenant_report]. *)
Definition measured_row (d : TenantDaemon) (s : ProcSnapshot) (path : string) : RowTenantReport :=
  let key := runtime_key_for_path d path in
  match preserved_owner d key with
  | Some answer => proxied_row_tenant_report path key answer
  | None =>
      if negb (has_session d key) then unavailable path key NoLocalRuntime
      else if negb (session_is_running d key) then unavailable path key RuntimeNotRunning
      else match session_process_id d key with
           | None => unavailable path key RootPidUnavailable
           | Some root_pid =>
               with_idle ((fun idle_ms => idle_ms / 1000) <$> session_idle_for_ms d key)
                 (row_tenant_report s path key root_pid (foreground_leader d key))
           end
  end.

Definition or_else {A} (a b : option A) : option A := match a with Some _ => a | None => b end.

(** One row of the answer: the stamps, where the work runs, and the verdict. *)
Definition assembled_row (d : TenantDaemon) (s : ProcSnapshot) (path : string) : RowTenantReport :=
  let r := measured_row d s path in
  let session := live_session d path in
  let asked := mkReport (session_path r) (runtime_key r) (unavailable_reason r) (root_pid r) (foreground_pgid r)
    (foreground_command r) (tenant_count r) (tree_cpu_seconds r) (oldest_tenant_age_secs r)
    (oldest_tenant_command r) (tenants r) (tenants_listed_of r)
    (or_else (session ≫= fun session => live_session_creator_stamp (metadata session)) (created_by r))
    (or_else (session ≫= fun session => live_session_ephemeral_declaration (metadata session)) (ephemeral r))
    (idle_secs r) (hygiene r) (live_session_remote_work_host session) true in
  mkReport (session_path r) (runtime_key asked) (unavailable_reason asked) (root_pid asked) (foreground_pgid asked)
    (foreground_command asked) (tenant_count asked) (tree_cpu_seconds asked) (oldest_tenant_age_secs asked)
    (oldest_tenant_command asked) (tenants asked) (tenants_listed_of asked) (created_by asked)
    (ephemeral asked) (idle_secs asked) (Some (row_hygiene_verdict asked)) (work_runs_on asked)
    (locality_checked asked).

(** [DaemonRuntime::terminal_tenants_response]; the snapshot may be a gap for every row. *)
Definition terminal_tenants_response (d : TenantDaemon) (order : list string)
    (reading : ProcSnapshot + TenantReportGap) (path : option string) : list RowTenantReport * option string :=
  let paths := match path with Some path => [path] | None => order end in
  match reading with
  | inl s => (map (assembled_row d s) paths, None)
  | inr gap => (map (fun path => unavailable path (runtime_key_for_path d path) gap) paths, Some (reason gap))
  end.

End Reports.

(** * The tree of a row *)

(** The processes below [root], by the parents that /proc names. *)
Inductive descends (l : list ProcEntry) (root : N) : N -> Prop :=
  | descends_child e : e ∈ l -> ppid e = root -> descends l root (pid e)
  | descends_below e : e ∈ l -> descends l root (ppid e) -> descends l root (pid e).

Lemma push_children_spec l c p kid :
  kid ∈ default [] (push_children l c !! p) <-> kid ∈ default [] (c !! p) \/ exists e, e ∈ l /\ ppid e = p /\ pid e = kid.
Proof.
  revert c. induction l as [|e l IH]; intros c; cbn [push_children].
  - split; [by left|]. intros [?|(e & ?%elem_of_nil & _)]; done.
  - rewrite IH. destruct (decide (ppid e = p)) as [<-|Hne].
    + rewrite lookup_insert_eq. cbn. rewrite elem_of_app, list_elem_of_singleton. split.
      * intros [[?| ->]|(e' & ? & ? & ?)]; [by left|right; exists e; set_solver|right; exists e'; set_solver].
      * intros [?|(e' & [-> | ?]%elem_of_cons & ? & ?)]; [by left; left|by left; right|right; eauto].
    + rewrite lookup_insert_ne by done. split.
      * intros [?|(e' & ? & ? & ?)]; [by left|right; exists e'; set_solver].
      * intros [?|(e' & [-> | ?]%elem_of_cons & ? & ?)]; [by left|done|right; eauto].
Qed.

Lemma index_by_pid_spec l (m : gmap N ProcEntry) : NoDup (map pid l) -> (forall e, e ∈ l -> m !! pid e = None) ->
  forall p e, fold_left (fun m e => <[pid e := e]> m) l m !! p = Some e <-> m !! p = Some e \/ e ∈ l /\ pid e = p.
Proof.
  revert m. induction l as [|x l IH]; intros m Hnd Hm p e; cbn [fold_left].
  - split; [by left|]. by intros [?|[?%elem_of_nil _]].
  - cbn in Hnd. apply NoDup_cons in Hnd as [Hx Hnd]. rewrite IH; [|done|].
    + destruct (decide (pid x = p)) as [<-|Hne].
      * rewrite lookup_insert_eq, (Hm x) by set_solver. split.
        -- intros [[= <-]|[? ?]]; right; set_solver.
        -- intros [?|[[-> | He]%elem_of_cons ?]]; [done|by left|by right].
      * rewrite lookup_insert_ne by done. set_solver.
    + intros y Hy. rewrite lookup_insert_ne; [apply Hm; set_solver|].
      intros E. apply Hx. rewrite E. apply list_elem_of_fmap. by exists y.
Qed.

(** ** One process's children *)

(** The children that the inner loop has not met, in order. *)
Fixpoint fresh (kids : list N) (seen : gset N) : list N :=
  match kids with
  | [] => []
  | kid :: kids' => if decide (kid ∈ seen) then fresh kids' seen else kid :: fresh kids' ({[kid]} ∪ seen)
  end.

Lemma visit_fresh s kids seen queue found :
  Snapshot.visit s kids seen queue found =
    (list_to_set (fresh kids seen) ∪ seen, queue ++ fresh kids seen, found ++ omap (fun k => entries s !! k) (fresh kids seen)).
Proof.
  revert seen queue found. induction kids as [|k kids IH]; intros seen queue found; cbn [Snapshot.visit fresh].
  - cbn. by rewrite !app_nil_r, (left_id_L ∅ (∪)).
  - destruct (decide (k ∈ seen)); [apply IH|]. rewrite IH. cbn [list_to_set omap list_omap].
    rewrite <- !app_assoc, (assoc_L (∪)), (comm_L (∪) (list_to_set _) {[k]}). by destruct (entries s !! k).
Qed.

Lemma fresh_spec kids seen : NoDup (fresh kids seen) /\
  forall k, k ∈ fresh kids seen <-> k ∈ kids /\ k ∉ seen.
Proof.
  revert seen. induction kids as [|x kids IH]; intros seen; cbn [fresh].
  - split; [constructor|]. set_solver.
  - destruct (decide (x ∈ seen)) as [Hx|Hx].
    + destruct (IH seen) as [H1 H2]. split; [done|]. intros k. rewrite H2. set_solver.
    + destruct (IH ({[x]} ∪ seen)) as [H1 H2]. split.
      * apply NoDup_cons. split; [|done]. rewrite H2. set_solver.
      * intros k. rewrite elem_of_cons, H2. destruct (decide (k = x)); set_solver.
Qed.

(** ** The walk *)

Section Walk.
Context (s : ProcSnapshot) (root : N).

Definition kids (p : N) : list N := default [] (children s !! p).

Inductive below : N -> Prop :=
  | below_child k : k ∈ kids root -> below k
  | below_step p k : below p -> k ∈ kids p -> below k.

(** [met] lists what the walk has met below the root, oldest first; what is not in the queue any more has
    had its children met. *)
Record Walked (processed queue met : list N) (seen : gset N) : Prop := {
  walked_split : root :: met = processed ++ queue;
  walked_once : NoDup (root :: met);
  walked_seen k : k ∈ seen <-> k ∈ root :: met;
  walked_below k : k ∈ met -> below k;
  walked_closed p k : p ∈ processed -> k ∈ kids p -> k ∈ root :: met
}.

Lemma kids_all p k : k ∈ kids p -> k ∈ Snapshot.all_kids s.
Proof.
  unfold kids, Snapshot.all_kids. destruct (children s !! p) as [l|] eqn:E; cbn; [|by intros ?%elem_of_nil].
  intros H. apply list_elem_of_In, in_concat. exists l. split; [|by apply list_elem_of_In].
  apply list_elem_of_In, list_elem_of_fmap. exists (p, l). split; [done|]. by apply elem_of_map_to_list.
Qed.

Lemma below_all k : below k -> k ∈ Snapshot.all_kids s.
Proof. destruct 1; by eapply kids_all. Qed.

Lemma walked_step p processed queue met seen : Walked processed (p :: queue) met seen ->
  let new := fresh (kids p) seen in
  Walked (processed ++ [p]) (queue ++ new) (met ++ new) (list_to_set new ∪ seen).
Proof.
  intros [Hs Ho Hseen Hb Hc] new. destruct (fresh_spec (kids p) seen) as [Hn Hf]. fold new in Hn, Hf.
  assert (Hp : p ∈ root :: met) by (rewrite Hs; set_solver).
  split.
  - by rewrite app_comm_cons, Hs, <- !app_assoc.
  - rewrite app_comm_cons. apply NoDup_app. split; [done|]. split; [|done].
    intros k Hk. rewrite Hf, Hseen. tauto.
  - intros k. rewrite elem_of_union, elem_of_list_to_set, Hseen, app_comm_cons, elem_of_app. tauto.
  - intros k [?|Hk]%elem_of_app; [by apply Hb|]. apply Hf in Hk as [Hk _].
    apply elem_of_cons in Hp as [-> | Hp]; [by constructor|]. by eapply below_step; [apply Hb|].
  - intros q k Hq Hk. rewrite app_comm_cons, elem_of_app. destruct (decide (k ∈ seen)) as [Hin|Hout]; [left; by apply Hseen|].
    apply elem_of_app in Hq as [Hq| ->%list_elem_of_singleton]; [left; by apply (Hc q)|]. right. by apply Hf.
Qed.

Lemma walked_length processed queue met seen : Walked processed queue met seen ->
  (length processed <= S (length (Snapshot.all_kids s)))%nat.
Proof.
  intros [Hs Ho _ Hb _]. apply (f_equal length) in Hs. rewrite length_app in Hs. cbn in Hs.
  apply NoDup_cons in Ho as [_ Ho]. assert (length met <= length (Snapshot.all_kids s))%nat; [|lia].
  apply NoDup_incl_length; [by apply NoDup_ListNoDup|]. intros k Hk. apply list_elem_of_In. apply below_all, Hb.
  by apply list_elem_of_In.
Qed.

(** With the fuel given the walk returns, and what it met is what is below the root. *)
Lemma walk_returns fuel processed queue met seen : Walked processed queue met seen ->
  (S (S (length (Snapshot.all_kids s))) <= fuel + length processed)%nat ->
  exists met', Snapshot.walk s fuel seen queue (omap (fun k => entries s !! k) met) = Some (omap (fun k => entries s !! k) met')
    /\ NoDup (root :: met') /\ (forall k, k ∈ root :: met' <-> k = root \/ below k).
Proof.
  revert processed queue met seen. induction fuel as [|fuel IH]; intros processed queue met seen Hw Hf.
  - pose proof (walked_length _ _ _ _ Hw). lia.
  - destruct queue as [|p queue]; cbn [Snapshot.walk].
    + exists met. split; [done|]. destruct Hw as [Hs Ho _ Hb Hc]. rewrite app_nil_r in Hs. split; [done|].
      assert (forall k, below k -> k ∈ root :: met) as Hall.
      { induction 1 as [k Hk|p k _ IHp Hk]; [apply (Hc root); [rewrite <- Hs; set_solver|done]|].
        apply (Hc p); [by rewrite <- Hs|done]. }
      intros k. split; [intros [-> |Hk]%elem_of_cons; [by left|right; by apply Hb]|].
      intros [-> |Hk]; [set_solver|by apply Hall].
    + fold (kids p). rewrite visit_fresh, <- omap_app. apply (IH _ _ _ _ (walked_step _ _ _ _ _ Hw)).
      rewrite length_app. cbn. lia.
Qed.

End Walk.

Lemma kids_new l c u p k : k ∈ kids (Snapshot.new l c u) p <-> exists e, e ∈ l /\ ppid e = p /\ pid e = k.
Proof.
  unfold kids, Snapshot.new. cbn [children]. rewrite push_children_spec, lookup_empty. cbn.
  split; [intros [?%elem_of_nil|?]; done|by right].
Qed.

Lemma below_descends l c u root k : below (Snapshot.new l c u) root k <-> descends l root k.
Proof.
  split.
  - induction 1 as [k Hk|p k _ IH Hk]; apply kids_new in Hk as (e & He & Hp & <-); [by apply descends_child|].
    apply descends_below; [done|by rewrite Hp].
  - induction 1 as [e He Hp|e He _ IH]; [apply below_child|apply (below_step _ _ _ _ IH)]; apply kids_new; eauto.
Qed.

(** the walk of a process tree returns, and what it returns are the processes of the reading that
    descend from the root by the parents they name, each once, the root itself left out even where the
    parents form a cycle. *)
Lemma walk_finds l clock uptime root :
  NoDup (map pid l) ->
  let s := Snapshot.new l clock uptime in
  is_Some (Snapshot.walk s (Snapshot.walk_fuel s) {[root]} [root] []) /\
  NoDup (map pid (Snapshot.descendants s root)) /\
  forall e, e ∈ Snapshot.descendants s root <-> e ∈ l /\ pid e <> root /\ descends l root (pid e).
Proof.
  intros Hnd s.
  assert (Hent : forall p e, entries s !! p = Some e <-> e ∈ l /\ pid e = p).
  { intros p e. unfold s, Snapshot.new, index_by_pid. cbn [entries].
    rewrite index_by_pid_spec by (done || intros; apply lookup_empty). rewrite lookup_empty. naive_solver. }
  destruct (walk_returns s root (Snapshot.walk_fuel s) [] [root] [] {[root]}) as (met & E & Hmet & Hin).
  { split; [done|apply NoDup_singleton|set_solver|by intros ? ?%elem_of_nil|by intros ? ? ?%elem_of_nil]. }
  { unfold Snapshot.walk_fuel. cbn. lia. }
  cbn [omap list_omap] in E. unfold Snapshot.descendants. rewrite E. cbn [default from_option].
  apply NoDup_cons in Hmet as [Hroot Hmet]. split; [by eexists|]. split.
  - clear - Hmet Hent. induction Hmet as [|k met Hk _ IH]; [constructor|]. cbn [omap list_omap].
    destruct (entries s !! k) as [e|] eqn:Ek; [|done]. cbn [map]. apply NoDup_cons. split; [|done].
    apply Hent in Ek as [_ <-]. intros (e' & Hp & He')%list_elem_of_fmap.
    apply list_elem_of_omap in He' as (k' & Hk' & Ek'). apply Hent in Ek' as [_ <-]. congruence.
  - intros e. split.
    + intros (k & Hk & Ek)%list_elem_of_omap. apply Hent in Ek as [He <-]. split; [done|]. split; [congruence|].
      apply (below_descends l clock uptime). assert (pid e ∈ root :: met) as [?|?]%Hin by set_solver; [congruence|done].
    + intros (He & Hne & Hd). apply list_elem_of_omap. exists (pid e). split; [|by apply Hent].
      apply (below_descends l clock uptime) in Hd. assert (pid e ∈ root :: met) by (apply Hin; by right). set_solver.
Qed.

(** * The lines of /proc *)

(** What the kernel writes: the name stands in parentheses as it is. *)
Definition stat_line (pid : N) (comm : text) (fields : list text) : text :=
  show_uint pid ++ [32; 40] ++ comm ++ [41; 32] ++ join_text 32 fields ++ [10].

Lemma not_in_join c ws : c <> 32 -> Forall (fun w => c ∉ w) ws -> c ∉ join_text 32 ws.
Proof.
  intros Hc. induction 1 as [|w ws Hw _ IH]; [by intros ?%elem_of_nil|].
  destruct ws as [|w' ws]; [done|]. change (join_text 32 (w :: w' :: ws)) with (w ++ 32 :: join_text 32 (w' :: ws)).
  rewrite elem_of_app, elem_of_cons. tauto.
Qed.

Lemma not_in_digits c n : is_ascii_digit c = false -> c ∉ show_uint n.
Proof.
  intros H Hin. pose proof (show_uint_digits n) as Hd. rewrite forallb_forall in Hd.
  rewrite (Hd c) in H by by apply list_elem_of_In. done.
Qed.

Lemma trim_digits n : trim_text (show_uint n ++ [32]) = show_uint n.
Proof.
  destruct (tight_join [show_uint n]) as [Ht Hn]; [|done|].
  { apply Forall_singleton. split; [apply show_uint_no_ws|apply show_uint_nonempty]. }
  cbn in Ht, Hn. rewrite trim_text_end_app by done. cbn. apply app_nil_r.
Qed.

(** The reader of /proc gets every field of a process back, whatever its name: a name with spaces
    or parentheses of its own is read whole. *)
Theorem stat_line_reads_back p comm fields parent group utime stime start :
  Forall (fun w => good_word w /\ 41 ∉ w) fields ->
  fields !! 1%nat = Some (show_uint parent) -> fields !! 2%nat = Some (show_uint group) ->
  fields !! 11%nat = Some (show_uint utime) -> fields !! 12%nat = Some (show_uint stime) ->
  fields !! 19%nat = Some (show_uint start) ->
  p <= u32_max -> parent <= u32_max -> group <= u32_max ->
  utime <= u64_max -> stime <= u64_max -> start <= u64_max ->
  parse_proc_stat_line (stat_line p comm fields) = Some (mkProc p parent group comm [] (utime + stime) start).
Proof.
  intros Hw H1 H2 H11 H12 H19 Hp Hpp Hpg Hu Hs Ht. unfold parse_proc_stat_line, stat_line.
  assert (split_text_once 40 (show_uint p ++ [32; 40] ++ comm ++ [41; 32] ++ join_text 32 fields ++ [10])
    = Some (show_uint p ++ [32], comm ++ [41; 32] ++ join_text 32 fields ++ [10])) as ->.
  { change ([32; 40] ++ ?x) with ([32] ++ 40 :: x). rewrite app_assoc. apply split_text_once_app.
    rewrite elem_of_app, list_elem_of_singleton. intros [?|?]; [by apply (not_in_digits 40 p)|lia]. }
  assert (rsplit_text_once 41 (show_uint p ++ [32; 40] ++ comm ++ [41; 32] ++ join_text 32 fields ++ [10])
    = Some (show_uint p ++ [32; 40] ++ comm, 32 :: join_text 32 fields ++ [10])) as ->.
  { pose proof (rsplit_text_once_app 41 (show_uint p ++ [32; 40] ++ comm) (32 :: join_text 32 fields ++ [10])) as E.
    rewrite <- !app_assoc in E. apply E. clear E. rewrite elem_of_cons, elem_of_app, list_elem_of_singleton. intros [?|[?|?]]; [lia| |lia].
    eapply (not_in_join 41 fields); [lia| |done]. eapply Forall_impl; [exact Hw|]. by intros w [_ ?]. }
  cbn [mbind option_bind].
  assert (Nat.ltb (length (show_uint p ++ [32; 40] ++ comm)) (length (show_uint p ++ [32])) = false) as ->
    by (apply Nat.ltb_ge; rewrite !length_app; cbn [length]; lia).
  rewrite trim_digits, parse_show_uint by done. cbn [mbind option_bind].
  assert (drop (S (length (show_uint p ++ [32]))) (show_uint p ++ [32; 40] ++ comm) = comm) as ->.
  { change ([32; 40] ++ comm) with ([32] ++ [40] ++ comm). rewrite !app_assoc. rewrite <- (app_assoc _ [40] comm), app_assoc.
    rewrite drop_app_length'; [done|]. rewrite !length_app. cbn [length]. lia. }
  assert (split_whitespace (32 :: join_text 32 fields ++ [10]) = fields) as ->.
  { change (split_whitespace (32 :: ?x)) with (split_whitespace x).
    apply (split_whitespace_join 10 fields); [done|]. eapply Forall_impl; [exact Hw|]. by intros w [? _]. }
  rewrite H1, H2, H11, H12, H19. cbn [mbind option_bind]. by rewrite !parse_show_uint.
Qed.

(** * Clearable rows *)

Section Clearing.
Context `{!Seconds}.

Lemma assembled_hygiene d s path : exists v, hygiene (assembled_row d s path) = Some v.
Proof. by eexists. Qed.

Definition nothing_runs (l : list ProcEntry) (root : N) : Prop :=
  root ∈ map pid l /\ forall e, e ∈ l -> descends l root (pid e) -> pid e = root.

Lemma no_tenants l clock uptime root : NoDup (map pid l) ->
  let s := Snapshot.new l clock uptime in
  is_Some (Snapshot.get s root) /\ length (Snapshot.descendants s root) = 0%nat <-> nothing_runs l root.
Proof.
  intros Hnd s. assert (Hget : is_Some (Snapshot.get s root) <-> root ∈ map pid l).
  { unfold Snapshot.get, s, Snapshot.new, index_by_pid. cbn [entries]. split.
    - intros [e He]. rewrite index_by_pid_spec in He by (done || intros; apply lookup_empty).
      destruct He as [He|[He <-]]; [by rewrite lookup_empty in He|]. apply list_elem_of_fmap. by exists e.
    - intros (e & -> & He)%list_elem_of_fmap. exists e.
      rewrite index_by_pid_spec by (done || intros; apply lookup_empty). by right. }
  unfold nothing_runs. rewrite Hget. pose proof (walk_finds l clock uptime root Hnd) as (_ & _ & Hd). fold s in Hd.
  split; intros [H1 H2]; (split; [done|]).
  - intros e He Hde. destruct (decide (pid e = root)) as [|Hne]; [done|].
    assert (e ∈ Snapshot.descendants s root) as Hin by (by apply Hd).
    destruct (Snapshot.descendants s root); [by apply elem_of_nil in Hin|done].
  - destruct (Snapshot.descendants s root) as [|e k] eqn:E; [done|].
    assert (e ∈ e :: k) as (He & Hne & Hde)%Hd by set_solver. exfalso. by apply Hne, H2.
Qed.

(** C20: a row whose terminal is this daemon's is clearable exactly when it is an agent's row (its
    metadata carry a stamp) whose work runs here, its terminal runs, nothing descends from the terminal's
    process in the reading of /proc, and it has been silent for the time asked.  A row the user made is
    never clearable, nor one that could not be measured. *)
Theorem clearable_is_an_empty_plate (d : TenantDaemon) l clock uptime path minimum :
  NoDup (map pid l) ->
  let s := Snapshot.new l clock uptime in
  let key := runtime_key_for_path d path in
  preserved_owner d key = None ->
  (exists v, hygiene (assembled_row d s path) = Some v /\ is_clearable v minimum = true) <->
  exists session root ms,
    live_session d path = Some session /\ source session <> LiveSsh /\
    is_Some (live_session_creator_stamp (metadata session)) /\
    has_session d key = true /\ session_is_running d key = true /\
    session_process_id d key = Some root /\ nothing_runs l root /\
    session_idle_for_ms d key = Some ms /\ minimum <= ms / 1000.
Proof.
  intros Hnd s key Howner. unfold assembled_row. cbn [hygiene]. unfold measured_row. fold key. rewrite Howner.
  unfold row_hygiene_verdict. cbn [unavailable_reason work_runs_on created_by tenant_count oldest_tenant_age_secs
    oldest_tenant_command idle_secs].
  destruct (has_session d key); cbn [negb]; [|split; [by intros (v & [= <-] & ?)|naive_solver]].
  destruct (session_is_running d key); cbn [negb]; [|split; [by intros (v & [= <-] & ?)|naive_solver]].
  destruct (session_process_id d key) as [root|] eqn:Epid; [|split; [by intros (v & [= <-] & ?)|naive_solver]].
  pose proof (no_tenants l clock uptime root Hnd) as Hno. cbv zeta in Hno. fold s in Hno.
  unfold row_tenant_report, with_idle. destruct (Snapshot.get s root) as [e|] eqn:Eg;
    cbn [unavailable unavailable_reason created_by tenant_count idle_secs ephemeral].
  2:{ split; [by intros (v & [= <-] & ?)|]. intros (se & r & ms & _ & _ & _ & _ & _ & [= <-] & Hn & _).
      destruct (proj2 Hno Hn) as [[? ?] _]. discriminate. }
  rewrite length_stable_sort, length_map.
  destruct (live_session d path) as [se|]; cbn [mbind option_bind live_session_remote_work_host].
  2:{ split; [by intros (v & [= <-] & ?)|naive_solver]. }
  destruct (source se) eqn:Esrc; cbn [or_else].
  3:{ split; [by intros (v & [= <-] & ?)|naive_solver]. }
  all: destruct (live_session_creator_stamp (metadata se)) as [stamp|] eqn:Est; cbn [or_else];
    [|split; [by intros (v & [= <-] & ?)|intros (se' & r & ms & [= <-] & _ & [? ?] & _); congruence]].
  all: destruct (length (Snapshot.descendants s root)) eqn:El; cbn [Nat.ltb Nat.leb];
    [|split; [by intros (v & [= <-] & ?)|intros (se' & r & ms & _ & _ & _ & _ & _ & [= <-] & Hn & _); by destruct (proj2 Hno Hn) as [_ ?]]].
  all: destruct (session_idle_for_ms d key) as [ms|] eqn:Ems; cbn [fmap option_fmap option_map is_clearable];
    [|split; [by intros (v & [= <-] & ?)|naive_solver]].
  all: split; [intros (v & [= <-] & Hle); cbn in Hle; exists se, root, ms; rewrite Est, Esrc; 
      do 2 (split; [done|]); split; [by eexists|]; do 3 (split; [done|]); split; [apply Hno; by eauto|split; [done|lia]]
    |intros (se' & r & ms' & _ & _ & _ & _ & _ & _ & _ & [= <-] & Hle); eexists; split; [done|cbn; lia]].
Qed.

End Clearing.

(** * The report *)

(** Seconds are non-negative finite numbers, ordered as their bit patterns are. *)
Class SecondsLaws `{!Seconds} := {
  rank : sec -> N;
  partial_cmp_rank x y : partial_cmp x y = Some (rank x ?= rank y)
}.

Section Counting.
Context `{SL : SecondsLaws}.

Lemma tenant_leb_spec x y : tenant_leb x y =
  (rank (t_cpu_seconds y) <? rank (t_cpu_seconds x))
  || (rank (t_cpu_seconds x) =? rank (t_cpu_seconds y))
     && ((t_age_secs y <? t_age_secs x) || (t_age_secs x =? t_age_secs y) && (t_pid x <=? t_pid y)).
Proof.
  unfold tenant_leb, compare_tenants. rewrite partial_cmp_rank. cbn [default from_option].
  destruct (N.compare_spec (rank (t_cpu_seconds y)) (rank (t_cpu_seconds x))),
    (N.compare_spec (t_age_secs y) (t_age_secs x)), (N.compare_spec (t_pid x) (t_pid y)); cbn [then_with id]; lia.
Qed.

#[local] Instance tenant_leb_order : BoolOrder tenant_leb.
Proof. split; intros *; rewrite !tenant_leb_spec; lia. Qed.

Lemma max_by_age_spec l best :
  match max_by_age l best with
  | Some t => (t ∈ l \/ best = Some t) /\ (forall u, u ∈ l \/ best = Some u -> t_age_secs u <= t_age_secs t)
  | None => l = [] /\ best = None
  end.
Proof.
  revert best. induction l as [|t l IH]; intros best; cbn [max_by_age].
  - destruct best as [b|]; [|done]. split; [by right|]. intros u [?%elem_of_nil|[= ->]]; [done|lia].
  - set (b := match best with Some _ => _ | None => _ end).
    assert (Hb : exists x, b = Some x /\ (x = t \/ best = Some x) /\ t_age_secs t <= t_age_secs x
      /\ forall u, best = Some u -> t_age_secs u <= t_age_secs x).
    { unfold b. destruct best as [y|]; [|exists t; split; [done|split; [by left|split; [lia|done]]]].
      destruct (N.leb_spec (t_age_secs y) (t_age_secs t)).
      - exists t. split; [done|split; [by left|split; [lia|by intros u [= <-]]]].
      - exists y. split; [done|split; [by right|split; [lia|intros u [= <-]; lia]]]. }
    destruct Hb as (x & Hx & Hin & Ht & Hbest). specialize (IH b). destruct (max_by_age l b) as [m|]; [|by destruct IH; congruence].
    destruct IH as [Hm Hmax]. assert (t_age_secs x <= t_age_secs m) by (apply Hmax; by right). split.
    + destruct Hm as [?|Hm]; [left; set_solver|]. rewrite Hx in Hm. injection Hm as <-. destruct Hin as [->|?]; [left; set_solver|by right].
    + intros u [[-> |?]%elem_of_cons|Hu]; [lia|apply Hmax; by left|]. specialize (Hbest u Hu). lia.
Qed.

Lemma sorted_take_drop {A} (R : A -> A -> Prop) n l x y :
  StronglySorted R l -> x ∈ take n l -> y ∈ drop n l -> R x y.
Proof.
  intros Hs Hx Hy. rewrite <- (take_drop n l) in Hs. by eapply StronglySorted_app_1_elem_of.
Qed.

(** What a tenant that is no shell would be counted for. *)
Definition workload (e : ProcEntry) : bool := negb (command_is_shell (comm e)).

(** C30: the report of a row whose process is in the reading counts the processes below it, each once;
    sums the ticks of the whole tree with its root; gives the age of the oldest that is no shell, and none
    where there is none; and lists the sixteen that used the processor most, saying of how many when it
    leaves some out.  Where the process is not in the reading, it says so and gives no number. *)
Theorem report_counts_the_tree l clock uptime path key root fg :
  NoDup (map pid l) ->
  let s := Snapshot.new l clock uptime in
  let r := row_tenant_report s path key root fg in
  (root ∉ map pid l -> r = unavailable path key RootPidNotInProc) /\
  forall e0, e0 ∈ l -> pid e0 = root -> exists ds,
    NoDup (map pid ds) /\ (forall e, e ∈ ds <-> e ∈ l /\ pid e <> root /\ descends l root (pid e)) /\
    unavailable_reason r = None /\ tenant_count r = Some (length ds) /\
    tree_cpu_seconds r = Some (cpu_seconds s (cpu_ticks e0 + sum_ticks ds)) /\
    match oldest_tenant_age_secs r with
    | Some age => (exists e, e ∈ ds /\ workload e = true /\ Snapshot.age_secs s e = age) /\
                  (forall e, e ∈ ds -> workload e = true -> Snapshot.age_secs s e <= age)
    | None => forall e, e ∈ ds -> workload e = false
    end /\
    length (tenants r) = Nat.min MAX_LISTED_TENANTS (length ds) /\
    (exists rest, tenants r ++ rest ≡ₚ map (tenant_of s) ds /\
       forall t u, t ∈ tenants r -> u ∈ rest -> tenant_leb t u = true) /\
    tenants_listed_of r = (if (MAX_LISTED_TENANTS <? length ds)%nat then Some (length ds) else None).
Proof.
  intros Hnd s r. assert (Hent : forall p e, Snapshot.get s p = Some e <-> e ∈ l /\ pid e = p).
  { intros p e. unfold Snapshot.get, s, Snapshot.new, index_by_pid. cbn [entries].
    rewrite index_by_pid_spec by (done || intros; apply lookup_empty). rewrite lookup_empty. naive_solver. }
  unfold r, row_tenant_report. split.
  { intros Hout. destruct (Snapshot.get s root) as [e|] eqn:E; [|done]. apply Hent in E as [He <-].
    destruct Hout. apply list_elem_of_fmap. by exists e. }
  intros e0 He0 Hr. rewrite (proj2 (Hent root e0)) by done.
  destruct (walk_finds l clock uptime root Hnd) as (_ & Hd1 & Hd2). fold s in Hd1, Hd2.
  set (ds := Snapshot.descendants s root) in *. exists ds. split; [done|]. split; [exact Hd2|].
  cbn [unavailable_reason tenant_count tree_cpu_seconds oldest_tenant_age_secs tenants tenants_listed_of].
  rewrite !length_stable_sort, !length_map. split; [done|]. split; [done|]. split; [done|]. split; [|split; [|split; [|done]]].
  - pose proof (max_by_age_spec (List.filter (fun t => negb (t_is_shell t)) (map (tenant_of s) ds)) None) as Hm.
    assert (Hf : forall t, t ∈ List.filter (fun t => negb (t_is_shell t)) (map (tenant_of s) ds)
      <-> exists e, e ∈ ds /\ workload e = true /\ t = tenant_of s e).
    { intros t. rewrite list_elem_of_In, filter_In, in_map_iff. split.
      - intros [(e & <- & He) Hs]. exists e. by rewrite list_elem_of_In.
      - intros (e & He & Hs & ->). split; [exists e; by rewrite <- list_elem_of_In|done]. }
    destruct (max_by_age _ None) as [t|]; cbn [fmap option_fmap option_map].
    + destruct Hm as [[Ht|?] Hmax]; [|done]. apply Hf in Ht as (e & He & Hw & ->). split; [by exists e|].
      intros e' He' Hw'. apply (Hmax (tenant_of s e')). left. apply Hf. by exists e'.
    + destruct Hm as [Hm _]. intros e He. destruct (workload e) eqn:Hw; [|done].
      assert (tenant_of s e ∈ @nil TenantProcess) as ?%elem_of_nil; [|done]. rewrite <- Hm. apply Hf. by exists e.
  - by rewrite length_take, length_stable_sort, length_map.
  - exists (drop MAX_LISTED_TENANTS (stable_sort tenant_leb (map (tenant_of s) ds))). rewrite take_drop. split; [apply stable_sort_perm|].
    intros t u Ht Hu. eapply (sorted_take_drop (fun x y => tenant_leb x y = true)); [apply stable_sort_sorted; apply tenant_leb_order|exact Ht|exact Hu].
Qed.

End Counting.

(** * A concrete machine *)

Module Machine.
#[local] Open Scope string_scope.
#[local] Open Scope list_scope.

#[local] Instance whole_seconds : Seconds := {
  sec := N; quotient := N.div; partial_cmp x y := Some (N.compare x y) }.
#[local] Instance whole_seconds_laws : SecondsLaws := { rank x := x; partial_cmp_rank _ _ := eq_refl }.

(** A row's shell (100) with a shell (200) that runs a program (300), beside an idle row (400). *)
Definition readings : list ProcEntry := [
  mkProc 1 0 1 (chars "init") [] 5 0; mkProc 100 1 100 (chars "-bash") [] 10 1000;
  mkProc 200 100 200 (chars "sh") [] 20 2000; mkProc 300 200 200 (chars "probe") (chars "probe --all") 4000 3000;
  mkProc 400 1 400 (chars "zsh") [] 30 9000].

Definition snapshot : ProcSnapshot := Snapshot.new readings 100 500.

Definition daemon : TenantDaemon := mkDaemon (fun path => path)
  (fun path => if String.eqb path "local://idle"
               then Some (mkLive LiveLocal [] [("Created By", chars "pid=7 host=box")]) else None)
  (fun _ => true) (fun _ => true)
  (fun path => if String.eqb path "local://idle" then Some 400 else Some 100)
  (fun _ => Some 90000) (fun _ => None) (fun _ => None).

Example the_reports :
  tenant_count (row_tenant_report snapshot "local://row" "local://row" 100 (Some 200)) = Some 2%nat
  /\ tree_cpu_seconds (row_tenant_report snapshot "local://row" "local://row" 100 (Some 200)) = Some (40:N)
  /\ oldest_tenant_command (row_tenant_report snapshot "local://row" "local://row" 100 (Some 200)) = Some (chars "probe --all")
  /\ map label (omap hygiene (fst (terminal_tenants_response daemon ["local://row"; "local://idle"] (inl snapshot) None)))
     = ["user_row"; "empty_plate"].
Proof. by vm_compute. Qed.

Lemma distinct_pids : NoDup (map pid readings).
Proof. vm_compute. repeat constructor; set_solver. Qed.

Lemma report_counts_the_tree_witness : exists ds,
  (forall e, e ∈ ds <-> e ∈ readings /\ pid e <> 100 /\ descends readings 100 (pid e)) /\
  tenant_count (row_tenant_report snapshot "local://row" "local://row" 100 None) = Some (length ds).
Proof.
  destruct (report_counts_the_tree readings 100 500 "local://row" "local://row" 100 None distinct_pids) as [_ H].
  destruct (H (mkProc 100 1 100 (chars "-bash") [] 10 1000)) as (ds & _ & Hds & _ & Hn & _).
  - right. left.
  - done.
  - exists ds. split; [exact Hds|exact Hn].
Defined.

Lemma stat_line_reads_back_witness :
  parse_proc_stat_line (stat_line 300 (chars "tmux: a) b (c")
    (map chars ["S"; "200"; "200"; "1"; "2"; "-1"; "0"; "0"; "0"; "0"; "0"; "40"; "2"; "0"; "0"; "20"; "0"; "1"; "0"; "3000"]))
  = Some (mkProc 300 200 200 (chars "tmux: a) b (c") [] (40 + 2) 3000).
Proof.
  apply stat_line_reads_back; try by vm_compute.
  repeat (apply Forall_cons_2; [split; [by split|vm_compute; set_solver]|]). apply Forall_nil_2.
Defined.

Lemma clearable_is_an_empty_plate_witness :
  exists v, hygiene (assembled_row daemon (Snapshot.new readings 100 500) "local://idle") = Some v
    /\ is_clearable v 60 = true.
Proof.
  apply (clearable_is_an_empty_plate daemon readings 100 500 "local://idle" 60 distinct_pids); [by vm_compute|].
  exists (mkLive LiveLocal [] [("Created By", chars "pid=7 host=box")]), 400, 90000.
  split; [done|]. split; [done|]. split; [by vm_compute; eexists|]. do 3 (split; [done|]).
  split; [|split; [done|by vm_compute]]. split; [vm_compute; set_solver|].
  intros e He Hd. exfalso. destruct Hd as [x Hx Hp|x Hx Hd].
  - unfold readings in Hx. set_solver.
  - clear He. induction Hd as [y Hy Hp|y Hy _ IH]; unfold readings in *; set_solver.
Defined.

(** Another daemon owns the terminal and says that the work runs on [dev]; the answering daemon holds no
    view of the session, asks itself where the work runs, and overwrites the owner's answer: the row of a
    running agent becomes clearable. *)
Definition owner_says : RowTenantReport :=
  mkReport "remote://x" "remote://x" None (Some 100) None None (Some 0%nat) (Some (1:N)) None None [] None
    (Some (mkStamp 7 (chars "box") None None)) None (Some 7200) 
    (Some (Unmeasurable (chars "work runs on dev"))) (Some (chars "dev")) true.

Definition answering : TenantDaemon := mkDaemon (fun path => path) (fun _ => None) (fun _ => false)
  (fun _ => false) (fun _ => None) (fun _ => None) (fun _ => None) (fun _ => Some (Some [owner_says])).

Example a_remote_row_is_offered_for_clearing :
  row_hygiene_verdict owner_says <> EmptyPlate (Some 7200)
  /\ hygiene (assembled_row answering snapshot "remote://x") = Some (EmptyPlate (Some 7200))
  /\ is_clearable (EmptyPlate (Some 7200)) 3600 = true.
Proof. split; [by vm_compute|]. split; by vm_compute. Qed.

End Machine.
