(* ===== verification/Calendar.v ===== *)
(** * Calendars: when an automation is due

    src/crates/yggterm-server/src/automation.rs, first half: the subset of systemd's [OnCalendar] that is
    read and written, the occurrences of an expression before and after an instant, the count of weeks, and
    the verdict on a late fire.

    Expressions are texts.  Dates are the [time] crate's: the class [Time] is what is used of it.
    Milliseconds are [N], as the [u64] of the code; seconds are [Z], as its [i64]. *)
From S2P Require Import Prelude RustStr RustChar RustText.
From Stdlib Require Import ZifyBool ZifyN.
#[local] Open Scope N_scope.
#[local] Open Scope list_scope.

Record CalendarExpr := mkCalendar { weekdays : list N; hour : N; minute : N; second : N }.

Inductive CalendarError :=
  | EmptyExpression
  | UnknownWeekday (name : text)
  | NotATime (spec : text)
  | TooManyGroups (spec : text)
  | OutOfRange (raw : text)
  | Hourly
  | CannotRead (expr : text)
  | PinsADate (date : text).

(** ** Reading *)

Definition WEEKDAY_NAMES : list (N * list string) := [
  (0, ["mon"; "monday"]); (1, ["tue"; "tues"; "tuesday"]); (2, ["wed"; "weds"; "wednesday"]);
  (3, ["thu"; "thur"; "thurs"; "thursday"]); (4, ["fri"; "friday"]); (5, ["sat"; "saturday"]);
  (6, ["sun"; "sunday"])]%string.

Definition weekday_index (name : text) : option N :=
  fst <$> List.find (fun entry => existsb (fun s => bool_decide (text_lower name = chars s)) (snd entry)) WEEKDAY_NAMES.

(** The days from one to another, past the end of the week; seven are enough. *)
Fixpoint weekday_range (fuel : nat) (day to : N) : list N :=
  match fuel with
  | O => []
  | S fuel => day :: (if day =? to then [] else weekday_range fuel ((day + 1) mod 7) to)
  end.

Definition weekday_part (part : text) : result (list N) CalendarError :=
  match find_text (chars "..") part with
  | Some (from, to) =>
      match weekday_index (trim_text from) with
      | None => Err (UnknownWeekday from)
      | Some f => match weekday_index (trim_text to) with
                  | None => Err (UnknownWeekday to)
                  | Some t => Ok (weekday_range 7 f t)
                  end
      end
  | None => match weekday_index part with Some d => Ok [d] | None => Err (UnknownWeekday part) end
  end.

Fixpoint weekday_parts (parts : list text) (days : list N) : result (list N) CalendarError :=
  match parts with
  | [] => Ok days
  | part :: parts' =>
      let part := trim_text part in
      if non_empty part then
        match weekday_part part with
        | Ok more => weekday_parts parts' (days ++ more)
        | Err e => Err e
        end
      else weekday_parts parts' days
  end.

(** [Vec::dedup]. *)
Fixpoint vec_dedup (l : list N) : list N :=
  match l with
  | x :: l' => match l' with
               | y :: _ => if x =? y then vec_dedup l' else x :: vec_dedup l'
               | [] => [x]
               end
  | [] => []
  end.

Definition parse_weekday_spec (spec : text) : result (list N) CalendarError :=
  match weekday_parts (split_text 44 spec) [] with
  | Ok days => Ok (vec_dedup (stable_sort N.leb days))
  | Err e => Err e
  end.

Definition clock_field (raw : text) (max : N) : result N CalendarError :=
  match parse_text_uint 255 raw with
  | Some v => if v <=? max then Ok v else Err (OutOfRange raw)
  | None => Err (OutOfRange raw)
  end.

Definition clock_fields (h m s : text) : result (N * N * N) CalendarError :=
  match clock_field h 23 with
  | Err e => Err e
  | Ok h => match clock_field m 59 with
            | Err e => Err e
            | Ok m => match clock_field s 59 with Err e => Err e | Ok s => Ok (h, m, s) end
            end
  end.

Definition parse_clock (spec : text) : result (N * N * N) CalendarError :=
  match split_text 58 spec with
  | [] | [_] => Err (NotATime spec)
  | [h; m] => clock_fields h m (chars "0")
  | [h; m; s] => clock_fields h m s
  | _ => Err (TooManyGroups spec)
  end.

Definition ANY_DATE : text := chars "*-*-*".

(** The weekdays, the date and the time of day among the words. *)
Definition calendar_words (expr : text) (tokens : list text) : result (list N * text * text) CalendarError :=
  match tokens with
  | [days; date; clock] =>
      match parse_weekday_spec days with Ok days => Ok (days, date, clock) | Err e => Err e end
  | [a; b] => if bool_decide (45 ∈ a) then Ok ([], a, b) else Err (CannotRead expr)
  | [clock] => if bool_decide (58 ∈ clock) then Ok ([], ANY_DATE, clock) else Err (CannotRead expr)
  | _ => Err (CannotRead expr)
  end.

Definition is_alias (expr : text) (names : list string) : bool :=
  existsb (fun s => bool_decide (text_lower expr = chars s)) names.

Definition parse_calendar (expr : text) : result CalendarExpr CalendarError :=
  let expr := trim_text expr in
  if negb (non_empty expr) then Err EmptyExpression
  else if is_alias expr ["daily"; "midnight"]%string then Ok (mkCalendar [] 0 0 0)
  else if is_alias expr ["weekly"]%string then Ok (mkCalendar [0] 0 0 0)
  else if is_alias expr ["hourly"]%string then Err Hourly
  else
    match calendar_words expr (split_whitespace expr) with
    | Err e => Err e
    | Ok (days, date, clock) =>
        if negb (bool_decide (date = ANY_DATE)) then Err (PinsADate date)
        else match parse_clock clock with
             | Err e => Err e
             | Ok (h, m, s) => Ok (mkCalendar days h m s)
             end
    end.

(** ** Writing *)

Definition weekday_name (day : N) : text :=
  match day with
  | 0 => chars "Mon" | 1 => chars "Tue" | 2 => chars "Wed" | 3 => chars "Thu" | 4 => chars "Fri" | 5 => chars "Sat"
  | _ => chars "Sun"
  end.

(** [{:02}]. *)
Definition pad2 (n : N) : text := if n <? 10 then 48 :: show_uint n else show_uint n.

Definition to_on_calendar (e : CalendarExpr) : text :=
  (match weekdays e with [] => [] | days => join_text 44 (map weekday_name days) ++ [32] end)
  ++ ANY_DATE ++ [32] ++ pad2 (hour e) ++ [58] ++ pad2 (minute e) ++ [58] ++ pad2 (second e).

(** ** Occurrences *)

Inductive Weekday := Monday | Tuesday | Wednesday | Thursday | Friday | Saturday | Sunday.

Definition weekday_number (day : Weekday) : N :=
  match day with
  | Monday => 0 | Tuesday => 1 | Wednesday => 2 | Thursday => 3 | Friday => 4 | Saturday => 5 | Sunday => 6
  end.

(** What is used of the [time] crate.  [date_at secs offset] is the date of an instant seen at an offset,
    [instant_on] the seconds of a date's time of day at an offset, [days_since_epoch_monday] the days from
    1970-01-05; [None] where the crate refuses the offset, the time of day or the range of years. *)
Class Time := {
  Date : Type;
  date_at : Z -> Z -> option Date;
  weekday : Date -> Weekday;
  previous_day : Date -> option Date;
  next_day : Date -> option Date;
  date_instant : Date -> N -> N -> N -> Z -> option Z;
  days_since_epoch_monday : Date -> Z
}.

(** [as i64] of a [u64]. *)
Definition as_i64 (n : N) : Z := if n <? 2 ^ 63 then Z.of_N n else (Z.of_N n - 2 ^ 64)%Z.

Section Occurrences.
Context `{!Time}.

Definition matches_weekday (e : CalendarExpr) (day : Weekday) : bool :=
  match weekdays e with [] => true | days => bool_decide (weekday_number day ∈ days) end.

Definition instant_on (e : CalendarExpr) (date : Date) (utc_offset_secs : Z) : option Z :=
  date_instant date (hour e) (minute e) (second e) utc_offset_secs.

(** [u64::try_from]. *)
Definition to_u64 (z : Z) : option N := if (0 <=? z)%Z then Some (Z.to_N z) else None.

(** The search of both loops: [keep] says that an instant in milliseconds is the one looked for. *)
Fixpoint search (e : CalendarExpr) (keep : Z -> bool) (turn : Date -> option Date) (offset : Z) (fuel : nat)
    (date : Date) : option N :=
  match fuel with
  | O => None
  | S fuel =>
      let hit := if matches_weekday e (weekday date)
                 then match instant_on e date offset with
                      | Some t => if keep (t * 1000)%Z then Some (t * 1000)%Z else None
                      | None => None
                      end
                 else None in
      match hit with
      | Some ms => to_u64 ms
      | None => match turn date with Some date => search e keep turn offset fuel date | None => None end
      end
  end.

Definition previous_occurrence_at_or_before (e : CalendarExpr) (now_ms : N) (utc_offset_secs : Z) : option N :=
  date ← date_at (Z.of_N (now_ms / 1000)) utc_offset_secs;
  search e (fun ms => (ms <=? as_i64 now_ms)%Z) previous_day utc_offset_secs 8 date.

Definition next_occurrence_after (e : CalendarExpr) (after_ms : N) (utc_offset_secs : Z) : option N :=
  date ← date_at (Z.of_N (after_ms / 1000)) utc_offset_secs;
  search e (fun ms => (as_i64 after_ms <? ms)%Z) next_day utc_offset_secs 8 date.

Definition iso_week_number (instant_ms : N) (utc_offset_secs : Z) : option N :=
  date ← date_at (Z.of_N (instant_ms / 1000)) utc_offset_secs;
  let week := (days_since_epoch_monday date / 7)%Z in
  if (0 <=? week)%Z && (week <=? Z.of_N u32_max)%Z then Some (Z.to_N week) else None.

End Occurrences.

(** ** Late fires *)

Inductive GraceVerdict := Honour | OutOfGrace (late_by_secs : N).

Definition sat_mul (a b : N) : N := N.min (a * b) u64_max.

Definition grace_verdict (due_at_ms now_ms grace_secs : N) : GraceVerdict :=
  let late_by_ms := now_ms - due_at_ms in
  if late_by_ms <=? sat_mul grace_secs 1000 then Honour else OutOfGrace (late_by_ms / 1000).

(** * What is written reads back *)

Definition well_formed (e : CalendarExpr) : Prop :=
  StronglySorted N.lt (weekdays e) /\ Forall (fun d => d < 7) (weekdays e)
  /\ hour e <= 23 /\ minute e <= 59 /\ second e <= 59.

(** *** Numbers of two digits *)

Lemma pad2_reads n : n <= 59 -> parse_text_uint 255 (pad2 n) = Some n /\ (58 ∉ pad2 n) /\ free_of_ws (pad2 n) = true /\ pad2 n <> [].
Proof.
  assert (forallb (fun n => bool_decide (parse_text_uint 255 (pad2 n) = Some n) && bool_decide (58 ∉ pad2 n)
    && free_of_ws (pad2 n) && non_empty (pad2 n)) (map N.of_nat (seq 0 60)) = true) as H by by vm_compute.
  rewrite forallb_forall in H. intros Hn.
  specialize (H n). rewrite !andb_true_iff, !bool_decide_eq_true in H.
  destruct H as [[[H1 H2] H3] H4]; [|split; [done|split; [done|split; [done|by destruct (pad2 n)]]]].
  apply in_map_iff. exists (N.to_nat n). split; [lia|]. apply in_seq. lia.
Qed.

(** *** Weekdays *)

Lemma weekday_name_reads d : d < 7 -> let w := weekday_name d in
  weekday_index w = Some d /\ find_text (chars "..") w = None /\ trim_text w = w /\ non_empty w = true /\ (44 ∉ w)
  /\ free_of_ws w = true /\ (45 ∉ w).
Proof.
  intros Hd w. unfold w. assert (d = 0 \/ d = 1 \/ d = 2 \/ d = 3 \/ d = 4 \/ d = 5 \/ d = 6) as H by lia.
  destruct H as [-> | [-> | [-> | [-> | [-> | [-> | ->]]]]]]; (split; [by vm_compute|]); (split; [by vm_compute|]);
    (split; [by vm_compute|]); (split; [done|]); (split; [vm_compute; set_solver|]); (split; [by vm_compute|]); vm_compute; set_solver.
Qed.

Lemma weekday_parts_names l days : Forall (fun d => d < 7) l ->
  weekday_parts (map weekday_name l) days = Ok (days ++ l).
Proof.
  intros H. revert days. induction H as [|d l Hd Hl IH]; intros days; cbn [map weekday_parts]; [by rewrite app_nil_r|].
  destruct (weekday_name_reads d Hd) as (H1 & H2 & H3 & H4 & _). rewrite H3, H4. unfold weekday_part. rewrite H2, H1, IH.
  by rewrite <- app_assoc.
Qed.

Lemma vec_dedup_strict l : StronglySorted N.lt l -> vec_dedup l = l.
Proof.
  induction 1 as [|x l Hl IH Hx]; [done|]. destruct l as [|y l]; [done|]. cbn [vec_dedup] in *. rewrite IH.
  apply Forall_inv in Hx. by destruct (N.eqb_spec x y); [lia|].
Qed.

Lemma strict_ordered l : StronglySorted N.lt l -> ordered N.leb l.
Proof.
  induction 1 as [|x l Hl IH Hx]; constructor; [done|]. eapply Forall_impl; [exact Hx|]. cbn. lia.
Qed.

Lemma parse_weekday_names l : StronglySorted N.lt l -> Forall (fun d => d < 7) l -> l <> [] ->
  parse_weekday_spec (join_text 44 (map weekday_name l)) = Ok l.
Proof.
  intros Hs Hl Hne. unfold parse_weekday_spec. rewrite split_join_text.
  - rewrite weekday_parts_names by done. cbn [app]. rewrite stable_sort_id by (by apply strict_ordered). by rewrite vec_dedup_strict.
  - by destruct l.
  - apply Forall_map. eapply Forall_impl; [exact Hl|]. intros d Hd. by apply weekday_name_reads.
Qed.

Lemma join_free_of_ws c ws : is_whitespace c = false -> Forall (fun w => free_of_ws w = true) ws -> free_of_ws (join_text c ws) = true.
Proof.
  intros Hc. induction 1 as [|w ws Hw Hws IH]; [done|]. destruct ws as [|w' ws]; [done|].
  change (join_text c (w :: w' :: ws)) with (w ++ c :: join_text c (w' :: ws)). rewrite free_of_ws_app, Hw. cbn.
  rewrite Hc. exact IH.
Qed.

(** *** The whole expression *)

Definition clock_text (e : CalendarExpr) : text := pad2 (hour e) ++ [58] ++ pad2 (minute e) ++ [58] ++ pad2 (second e).

Lemma clock_reads e : well_formed e -> parse_clock (clock_text e) = Ok (hour e, minute e, second e)
  /\ free_of_ws (clock_text e) = true /\ clock_text e <> [].
Proof.
  intros (_ & _ & Hh & Hm & Hs). destruct (pad2_reads (hour e)) as (R1 & C1 & W1 & N1); [lia|].
  destruct (pad2_reads (minute e)) as (R2 & C2 & W2 & N2); [lia|]. destruct (pad2_reads (second e)) as (R3 & C3 & W3 & N3); [lia|].
  unfold clock_text. split; [|split; [|by destruct (pad2 (hour e))]].
  - unfold parse_clock. cbn [app]. rewrite (split_text_app 58 _ _ C1), (split_text_app 58 _ _ C2), (split_text_no_sep 58 _ C3).
    unfold clock_fields, clock_field. rewrite R1, R2, R3. rewrite !(proj2 (N.leb_le _ _)) by done. done.
  - rewrite !free_of_ws_app, W1, W2, W3. done.
Qed.

Lemma text_lower_star t : 42 ∈ t -> 42 ∈ text_lower t.
Proof. intros H. unfold text_lower. apply list_elem_of_fmap. by exists 42. Qed.

Lemma not_alias t names : 42 ∈ t -> forallb (fun s => bool_decide (42 ∉ chars s)) names = true -> is_alias t names = false.
Proof.
  intros Ht H. unfold is_alias. apply not_true_iff_false. rewrite existsb_exists. intros (s & Hs & E).
  rewrite bool_decide_eq_true in E. rewrite forallb_forall in H. specialize (H s Hs). rewrite bool_decide_eq_true in H.
  apply H. rewrite <- E. by apply text_lower_star.
Qed.

Lemma parse_tokens t tokens : 42 ∈ t -> trim_text t = t -> split_whitespace t = tokens ->
  parse_calendar t = match calendar_words t tokens with
    | Err e => Err e
    | Ok (days, date, clock) =>
        if negb (bool_decide (date = ANY_DATE)) then Err (PinsADate date)
        else match parse_clock clock with Err e => Err e | Ok (h, m, s) => Ok (mkCalendar days h m s) end
    end.
Proof.
  intros Hin Ht <-. unfold parse_calendar. rewrite Ht, !not_alias by done. by destruct t; [apply elem_of_nil in Hin|].
Qed.

(** Words between single spaces. *)
Lemma two_words a b : free_of_ws a = true -> a <> [] -> free_of_ws b = true -> b <> [] ->
  split_whitespace (a ++ [32] ++ b) = [a; b] /\ trim_text (a ++ [32] ++ b) = a ++ [32] ++ b.
Proof.
  intros Ha Hna Hb Hnb. split.
  - cbn [app]. rewrite split_whitespace_word by done. by rewrite split_whitespace_last.
  - apply trim_text_tight. unfold tight, free_of_ws in *. rewrite forallb_forall in Ha, Hb.
    assert (head (a ++ [32] ++ b) = head a) as -> by by destruct a.
    assert (last (a ++ [32] ++ b) = last b) as ->.
    { rewrite !last_app. by destruct (last b) eqn:E; [|apply last_None in E]. }
    destruct (head a) as [x|] eqn:Ex; [|done]. destruct (last b) as [y|] eqn:Ey; [|done].
    rewrite (Ha x), (Hb y); [done| |]; apply list_elem_of_In; [by apply last_Some_elem_of|by apply head_Some_elem_of].
Qed.

Lemma three_words a b c : free_of_ws a = true -> a <> [] -> free_of_ws b = true -> b <> [] ->
  free_of_ws c = true -> c <> [] ->
  split_whitespace (a ++ [32] ++ b ++ [32] ++ c) = [a; b; c] /\ trim_text (a ++ [32] ++ b ++ [32] ++ c) = a ++ [32] ++ b ++ [32] ++ c.
Proof.
  intros Ha Hna Hb Hnb Hc Hnc. destruct (two_words b c Hb Hnb Hc Hnc) as [E1 _]. split.
  - change (a ++ [32] ++ b ++ [32] ++ c) with (a ++ 32 :: (b ++ [32] ++ c)). rewrite split_whitespace_word by done. by rewrite E1.
  - apply trim_text_tight. unfold tight, free_of_ws in *. rewrite forallb_forall in Ha, Hc.
    assert (head (a ++ [32] ++ b ++ [32] ++ c) = head a) as -> by by destruct a.
    assert (last (a ++ [32] ++ b ++ [32] ++ c) = last c) as ->.
    { rewrite !last_app. by destruct (last c) eqn:E; [|apply last_None in E]. }
    destruct (head a) as [x|] eqn:Ex; [|done]. destruct (last c) as [y|] eqn:Ey; [|done].
    rewrite (Ha x), (Hc y); [done| |]; apply list_elem_of_In; [by apply last_Some_elem_of|by apply head_Some_elem_of].
Qed.

Lemma print_reads e : well_formed e -> parse_calendar (to_on_calendar e) = Ok e.
Proof.
  intros Hwf. destruct (clock_reads e Hwf) as (Hclock & Hcw & Hcn). destruct Hwf as (Hs & Hd & _).
  assert (Hstar : forall l : text, 42 ∈ l ++ ANY_DATE ++ [32] ++ clock_text e) by (intros l; rewrite !elem_of_app; right; left; vm_compute; set_solver).
  destruct e as [days h m s]. unfold to_on_calendar. cbn [weekdays hour minute second] in *.
  change (pad2 h ++ [58] ++ pad2 m ++ [58] ++ pad2 s) with (clock_text (mkCalendar days h m s)) in *.
  destruct days as [|d days].
  - destruct (two_words ANY_DATE (clock_text (mkCalendar [] h m s))) as [E1 E2]; [done|done|done|done|].
    rewrite (parse_tokens _ _ (Hstar []) E2 E1). unfold calendar_words.
    rewrite (bool_decide_eq_true_2 (45 ∈ ANY_DATE)) by (vm_compute; set_solver).
    rewrite (bool_decide_eq_true_2 (ANY_DATE = ANY_DATE)) by done. cbn [negb]. by rewrite Hclock.
  - set (names := join_text 44 (map weekday_name (d :: days))). set (c := clock_text (mkCalendar (d :: days) h m s)) in *.
    assert (Hall : Forall (fun w => free_of_ws w = true) (map weekday_name (d :: days))).
    { apply Forall_map. eapply Forall_impl; [exact Hd|]. intros x Hx. by apply weekday_name_reads. }
    assert (Hn : names <> []).
    { unfold names. apply Forall_inv in Hd. destruct (weekday_name_reads d Hd) as (_ & _ & _ & Hne & _).
      cbn [map]. by destruct (weekday_name d), days. }
    assert (Hfree : free_of_ws names = true) by by apply join_free_of_ws.
    destruct (three_words names ANY_DATE c) as [E1 E2]; [done..|].
    replace ((names ++ [32]) ++ ANY_DATE ++ [32] ++ c) with (names ++ [32] ++ ANY_DATE ++ [32] ++ c) by by rewrite <- app_assoc.
    specialize (Hstar (names ++ [32])). rewrite <- app_assoc in Hstar. rewrite (parse_tokens _ _ Hstar E2 E1).
    unfold calendar_words, names. rewrite parse_weekday_names by done.
    rewrite (bool_decide_eq_true_2 (ANY_DATE = ANY_DATE)) by done. cbn [negb]. by rewrite Hclock.
Qed.

(** ** What is read is well formed *)

Lemma weekday_index_bound t d : weekday_index t = Some d -> d < 7.
Proof.
  unfold weekday_index. destruct (List.find _ WEEKDAY_NAMES) as [[n names]|] eqn:E; [|done]. intros [= <-].
  apply find_some in E as [H _]. cbn in H. cbn.
  repeat (destruct H as [[= <- _]|H]; [lia|]). done.
Qed.

Lemma weekday_range_bound fuel day to : day < 7 -> Forall (fun d => d < 7) (weekday_range fuel day to).
Proof.
  revert day. induction fuel as [|fuel IH]; intros day H; cbn [weekday_range]; constructor; [done|].
  destruct (day =? to); [constructor|]. apply IH. by apply N.mod_lt.
Qed.

Lemma weekday_parts_bound parts days l : Forall (fun d => d < 7) days -> weekday_parts parts days = Ok l -> Forall (fun d => d < 7) l.
Proof.
  revert days. induction parts as [|p parts IH]; intros days Hd; cbn [weekday_parts]; [by intros [= <-]|].
  destruct (non_empty (trim_text p)); [|by apply IH]. destruct (weekday_part (trim_text p)) as [more|] eqn:E; [|done].
  apply IH. apply Forall_app_2; [done|]. unfold weekday_part in E.
  destruct (find_text (chars "..") (trim_text p)) as [[from to]|].
  - destruct (weekday_index (trim_text from)) as [f|] eqn:Ef; [|done]. destruct (weekday_index (trim_text to)) as [n|]; [|done].
    apply weekday_index_bound in Ef. pose proof (weekday_range_bound 7 f n Ef) as Hr. congruence.
  - destruct (weekday_index (trim_text p)) as [f|] eqn:Ef; [|done]. injection E as <-. apply Forall_singleton. by eapply weekday_index_bound.
Qed.

Lemma vec_dedup_cons x y l : vec_dedup (x :: y :: l) = if x =? y then vec_dedup (y :: l) else x :: vec_dedup (y :: l).
Proof. done. Qed.

Lemma vec_dedup_sub l x : x ∈ vec_dedup l -> x ∈ l.
Proof.
  induction l as [|y l IH]; [done|]. destruct l as [|z l]; [done|]. rewrite vec_dedup_cons.
  destruct (y =? z); [intros H; right; by apply IH|]. intros [-> |H]%elem_of_cons; [left|right; by apply IH].
Qed.

Lemma vec_dedup_ordered l : ordered N.leb l -> StronglySorted N.lt (vec_dedup l).
Proof.
  induction 1 as [|x l Hl IH Hx]; [constructor|]. destruct l as [|y l]; [by repeat constructor|]. rewrite vec_dedup_cons.
  destruct (N.eqb_spec x y) as [->|Hne]; [exact IH|]. constructor; [exact IH|].
  rewrite Forall_forall. intros z Hz. apply vec_dedup_sub in Hz. inversion_clear Hl as [|? ? _ Hy].
  pose proof (Forall_inv Hx) as Hxy. cbn in Hxy. rewrite elem_of_cons in Hz. destruct Hz as [-> |Hz]; [lia|].
  rewrite Forall_forall in Hy. specialize (Hy z Hz). cbn in Hy. lia.
Qed.

Lemma weekday_spec_sound t l : parse_weekday_spec t = Ok l -> StronglySorted N.lt l /\ Forall (fun d => d < 7) l.
Proof.
  unfold parse_weekday_spec. destruct (weekday_parts (split_text 44 t) []) as [days|] eqn:E; [|done]. intros [= <-].
  apply weekday_parts_bound in E; [|constructor]. split.
  - apply vec_dedup_ordered, stable_sort_sorted. apply _.
  - rewrite Forall_forall in *. intros x Hx%vec_dedup_sub. apply E. by apply elem_of_stable_sort in Hx.
Qed.

Lemma clock_field_bound raw max v : clock_field raw max = Ok v -> v <= max.
Proof. unfold clock_field. repeat case_match; try done. intros [= <-]. lia. Qed.

Lemma parse_clock_bound t h m s : parse_clock t = Ok (h, m, s) -> h <= 23 /\ m <= 59 /\ s <= 59.
Proof.
  assert (forall a b c, clock_fields a b c = Ok (h, m, s) -> h <= 23 /\ m <= 59 /\ s <= 59) as H.
  { intros a b c. unfold clock_fields. destruct (clock_field a 23) eqn:E1; [|done]. destruct (clock_field b 59) eqn:E2; [|done].
    destruct (clock_field c 59) eqn:E3; [|done]. intros [= -> -> ->].
    apply clock_field_bound in E1, E2, E3. done. }
  unfold parse_clock. destruct (split_text 58 t) as [|a [|b [|c [|? ?]]]]; try done; apply H.
Qed.

Lemma parse_well_formed t e : parse_calendar t = Ok e -> well_formed e.
Proof.
  unfold parse_calendar. destruct (negb _); [done|].
  destruct (is_alias _ _); [intros [= <-]; repeat constructor; cbn; lia|].
  destruct (is_alias _ _); [intros [= <-]; repeat constructor; cbn; lia|]. destruct (is_alias _ _); [done|].
  destruct (calendar_words _ _) as [[[days date] clock]|] eqn:Ew; [|done].
  destruct (negb _); [done|]. destruct (parse_clock clock) as [[[h m] s]|] eqn:Ec; [|done]. intros [= <-].
  assert (StronglySorted N.lt days /\ Forall (fun d => d < 7) days) as [H1 H2].
  { unfold calendar_words in Ew. repeat case_match; try done; simplify_eq; try (by repeat constructor). by eapply weekday_spec_sound. }
  unfold well_formed. cbn. apply parse_clock_bound in Ec. done.
Qed.

(** a calendar expression that is read has its days in order, each once, and its time within the day;
    and every such expression, written for the timer, is read back as itself, so that the unit and the record
    cannot mean different things. *)
Theorem calendars_read_back :
  (forall t e, parse_calendar t = Ok e -> well_formed e) /\
  (forall e, well_formed e -> parse_calendar (to_on_calendar e) = Ok e).
Proof. split; [apply parse_well_formed|apply print_reads]. Qed.

(** * Occurrences *)

(** What the [time] crate documents: dates are days in a row, at least from 1969 to 8500; an offset is less
    than 26 hours. *)
Class TimeLaws `{!Time} := {
  day : Date -> Z;
  valid_offset : Z -> bool;
  valid_offset_bound off : valid_offset off = true -> (-93600 < off < 93600)%Z;
  date_at_day secs off d : date_at secs off = Some d -> day d = ((secs + off) / 86400)%Z;
  date_at_some secs off : valid_offset off = true -> (0 <= secs <= 200000000000)%Z -> is_Some (date_at secs off);
  weekday_day d : Z.of_N (weekday_number (weekday d)) = ((day d + 3) mod 7)%Z;
  previous_day_day d : (-30 <= day d <= 2380000)%Z -> exists d', previous_day d = Some d' /\ day d' = (day d - 1)%Z;
  next_day_day d : (-30 <= day d <= 2380000)%Z -> exists d', next_day d = Some d' /\ day d' = (day d + 1)%Z;
  date_instant_day d h m s off : valid_offset off = true -> h <= 23 -> m <= 59 -> s <= 59 -> (-30 <= day d <= 2380000)%Z ->
    date_instant d h m s off = Some (day d * 86400 + Z.of_N h * 3600 + Z.of_N m * 60 + Z.of_N s - off)%Z;
  days_since_day d : days_since_epoch_monday d = (day d - 4)%Z
}.

Section Exact.
Context `{TL : TimeLaws} (e : CalendarExpr) (off : Z).
Context (Hwf : well_formed e) (Hoff : valid_offset off = true).

Definition day_matches (k : Z) : Prop := weekdays e = [] \/ Z.to_N ((k + 3) mod 7) ∈ weekdays e.

#[local] Instance day_matches_dec k : Decision (day_matches k).
Proof. unfold day_matches. apply _. Defined.

(** The instant of a day, in milliseconds. *)
Definition day_ms (k : Z) : Z :=
  ((k * 86400 + Z.of_N (hour e) * 3600 + Z.of_N (minute e) * 60 + Z.of_N (second e) - off) * 1000)%Z.

Definition occurs (t : N) : Prop := exists k, day_matches k /\ Z.of_N t = day_ms k.

Lemma day_ms_mono j k : (j <= k)%Z -> (day_ms j <= day_ms k)%Z.
Proof. unfold day_ms. lia. Qed.

(** Seven days in a row have a day that matches. *)
Lemma week_matches k : exists i, (0 <= i < 7)%Z /\ day_matches (k + i)%Z.
Proof.
  unfold day_matches. destruct Hwf as (_ & Hd & _). destruct (weekdays e) as [|w ws] eqn:Ew; [exists 0%Z; split; [lia|by left]|].
  apply Forall_inv in Hd. cbn in Hd. exists ((Z.of_N w - 3 - k) mod 7)%Z.
  split; [apply Z.mod_pos_bound; lia|]. right.
  assert (((k + (Z.of_N w - 3 - k) mod 7 + 3) mod 7)%Z = Z.of_N w) as ->.
  { pose proof (Z.div_mod (Z.of_N w - 3 - k) 7). symmetry. apply (Z.mod_unique _ _ (- ((Z.of_N w - 3 - k) / 7))); lia. }
  rewrite N2Z.id. left.
Qed.

Lemma matches_day d : matches_weekday e (weekday d) = bool_decide (day_matches (day d)).
Proof.
  assert (Z.to_N ((day d + 3) mod 7) = weekday_number (weekday d)) as E by (rewrite <- (weekday_day d); apply N2Z.id).
  unfold matches_weekday. destruct (weekdays e) as [|w ws] eqn:Ew.
  - symmetry. apply bool_decide_eq_true_2. by left.
  - apply bool_decide_ext. unfold day_matches. rewrite E, Ew. split; [by right|by intros [?|?]].
Qed.

Lemma search_first keep turn sigma fuel d :
  (forall d, (-30 <= day d <= 2380000)%Z -> exists d', turn d = Some d' /\ day d' = (day d + sigma)%Z) ->
  (-1 <= sigma <= 1)%Z -> (-30 <= day d - Z.of_nat fuel)%Z -> (day d + Z.of_nat fuel <= 2380000)%Z ->
  (exists i, (0 <= i < Z.of_nat fuel)%Z /\ day_matches (day d + sigma * i) /\ keep (day_ms (day d + sigma * i)) = true
     /\ (forall j, (0 <= j < i)%Z -> day_matches (day d + sigma * j) -> keep (day_ms (day d + sigma * j)) = false)
     /\ search e keep turn off fuel d = to_u64 (day_ms (day d + sigma * i)))
  \/ (forall i, (0 <= i < Z.of_nat fuel)%Z -> day_matches (day d + sigma * i) -> keep (day_ms (day d + sigma * i)) = false).
Proof.
  intros Hturn Hsig. revert d. induction fuel as [|fuel IH]; intros d Hlo Hhi; [right; lia|].
  cbn [search]. rewrite matches_day. unfold instant_on.
  destruct Hwf as (_ & _ & Hh & Hm & Hs). rewrite date_instant_day by (done || lia).
  change ((day d * 86400 + Z.of_N (hour e) * 3600 + Z.of_N (minute e) * 60 + Z.of_N (second e) - off) * 1000)%Z with (day_ms (day d)).
  destruct (Hturn d) as (d' & Hd' & Ed'); [lia|].
  destruct (decide (day_matches (day d) /\ keep (day_ms (day d)) = true)) as [[Hmt Hk]|Hno].
  - left. exists 0%Z. rewrite Z.mul_0_r, Z.add_0_r, (bool_decide_eq_true_2 _ Hmt), Hk.
    split; [lia|]. split; [done|]. split; [done|]. split; [lia|done].
  - assert (Hhit : (if bool_decide (day_matches (day d)) then if keep (day_ms (day d)) then Some (day_ms (day d)) else None else None) = None).
    { case_bool_decide; [|done]. destruct (keep _) eqn:E; [|done]. exfalso. by apply Hno. }
    rewrite Hhit, Hd'. destruct (IH d') as [(i & Hi & H1 & H2 & H3 & H4)|Hnone]; [lia|lia| |].
    + left. exists (i + 1)%Z. replace (day d + sigma * (i + 1))%Z with (day d' + sigma * i)%Z by lia.
      split; [lia|]. split; [done|]. split; [done|]. split; [|done].
      intros j Hj Hmj. destruct (decide (j = 0%Z)) as [->|Hj0].
      * rewrite Z.mul_0_r, Z.add_0_r in *. apply not_true_iff_false. intros ?. by apply Hno.
      * replace (day d + sigma * j)%Z with (day d' + sigma * (j - 1))%Z in * by lia. apply H3; [lia|done].
    + right. intros i Hi Hmi. destruct (decide (i = 0%Z)) as [->|Hi0].
      * rewrite Z.mul_0_r, Z.add_0_r in *. apply not_true_iff_false. intros ?. by apply Hno.
      * replace (day d + sigma * i)%Z with (day d' + sigma * (i - 1))%Z in * by lia. apply Hnone; [lia|done].
Qed.

Lemma to_u64_Some z t : to_u64 z = Some t <-> Z.of_N t = z.
Proof. unfold to_u64. destruct (Z.leb_spec 0 z); split; try done; [intros [= <-]; lia|intros <-; by rewrite N2Z.id|lia]. Qed.

(** The bound of the instants: the year 8300. *)
Definition LAST_MS : N := 200000000000000.

Lemma date_of_now now : now <= LAST_MS -> exists d, date_at (Z.of_N (now / 1000)) off = Some d
  /\ (-2 <= day d <= 2379900)%Z /\ day d = ((Z.of_N (now / 1000) + off) / 86400)%Z.
Proof.
  intros Hn. unfold LAST_MS in Hn. destruct (date_at_some (Z.of_N (now / 1000)) off Hoff) as [d Hd].
  { split; [lia|]. assert (now / 1000 <= 200000000000); [|lia]. apply N.Div0.div_le_upper_bound. lia. }
  exists d. split; [done|]. apply date_at_day in Hd as E. split; [|done]. rewrite E.
  pose proof (valid_offset_bound off Hoff). assert (0 <= Z.of_N (now / 1000) <= 200000000000)%Z.
  { split; [lia|]. assert (now / 1000 <= 200000000000); [|lia]. apply N.Div0.div_le_upper_bound. lia. }
  split; [apply Z.div_le_lower_bound; lia|]. assert ((Z.of_N (now / 1000) + off) / 86400 < 2379901)%Z; [|lia].
  apply Z.div_lt_upper_bound; lia.
Qed.

(** Days before that of an instant lie before it, days after it after it. *)
Lemma day_order now d k : day d = ((Z.of_N (now / 1000) + off) / 86400)%Z ->
  ((k < day d)%Z -> (day_ms k <= Z.of_N now)%Z) /\ ((day d < k)%Z -> (Z.of_N now < day_ms k)%Z).
Proof.
  intros E. destruct Hwf as (_ & _ & Hh & Hm & Hs). unfold day_ms.
  pose proof (Z.div_mod (Z.of_N (now / 1000) + off) 86400). pose proof (Z.mod_pos_bound (Z.of_N (now / 1000) + off) 86400).
  pose proof (N.div_mod now 1000). pose proof (N.mod_lt now 1000). rewrite <- E in *. split; intros Hk; nia.
Qed.

Lemma as_i64_small n : n <= LAST_MS -> as_i64 n = Z.of_N n.
Proof. intros Hn. unfold as_i64, LAST_MS in *. by rewrite (proj2 (N.ltb_lt n (2 ^ 63))) by (change (2 ^ 63) with 9223372036854775808; lia). Qed.

Lemma previous_exact now t : now <= LAST_MS ->
  previous_occurrence_at_or_before e now off = Some t <->
  occurs t /\ t <= now /\ forall u, occurs u -> u <= now -> u <= t.
Proof.
  intros Hn. destruct (date_of_now now Hn) as (d & Hd & Hrange & Ed). unfold previous_occurrence_at_or_before. rewrite Hd. cbn [mbind option_bind].
  rewrite (as_i64_small now Hn). pose proof (fun k => day_order now d k Ed) as Hord.
  destruct (search_first (fun ms => (ms <=? Z.of_N now)%Z) previous_day (-1) 8 d) as [(i & Hi & Hm & Hk & Hfirst & ->)|Hnone]; try lia.
  { intros x Hx. destruct (previous_day_day x Hx) as (x' & ? & ?). exists x'. split; [done|lia]. }
  - set (k := (day d + -1 * i)%Z) in *. apply Z.leb_le in Hk.
    assert (Hmax : forall u, occurs u -> u <= now -> (Z.of_N u <= day_ms k)%Z).
    { intros u (j & Hj & Eu) Hu. rewrite Eu. apply day_ms_mono. destruct (decide (j <= k)%Z) as [|Hjk]; [done|]. exfalso.
      destruct (decide (day d < j)%Z) as [Hgt|Hle]; [apply Hord in Hgt; lia|].
      specialize (Hfirst (day d - j)%Z). replace (day d + -1 * (day d - j))%Z with j in Hfirst by lia.
      rewrite Z.leb_gt in Hfirst. assert (Z.of_N now < day_ms j)%Z by (apply Hfirst; [lia|done]). lia. }
    rewrite to_u64_Some. split.
    + intros Ht. split; [by exists k|]. split; [lia|]. intros u Hu Hle. specialize (Hmax u Hu Hle). lia.
    + intros ((j & Hj & Et) & Hle & Hlast). pose proof (Hmax t (ex_intro _ j (conj Hj Et)) Hle) as Hge.
      assert (occurs (Z.to_N (day_ms k))) as Hocc by (exists k; split; [done|lia]). specialize (Hlast _ Hocc). lia.
  - exfalso. destruct (week_matches (day d - 7)) as (i & Hi & Hm).
    specialize (Hnone (7 - i)%Z). replace (day d + -1 * (7 - i))%Z with (day d - 7 + i)%Z in Hnone by lia.
    rewrite Z.leb_gt in Hnone. assert (Z.of_N now < day_ms (day d - 7 + i))%Z by (apply Hnone; [lia|done]).
    assert (day d - 7 + i < day d)%Z as Hlt by lia. apply Hord in Hlt. lia.
Qed.

Lemma next_exact now : now <= LAST_MS ->
  exists t, next_occurrence_after e now off = Some t /\ occurs t /\ now < t /\ forall u, occurs u -> now < u -> t <= u.
Proof.
  intros Hn. destruct (date_of_now now Hn) as (d & Hd & Hrange & Ed). unfold next_occurrence_after. rewrite Hd. cbn [mbind option_bind].
  rewrite (as_i64_small now Hn). pose proof (fun k => day_order now d k Ed) as Hord.
  destruct (search_first (fun ms => (Z.of_N now <? ms)%Z) next_day 1 8 d) as [(i & Hi & Hm & Hk & Hfirst & ->)|Hnone]; try lia.
  { intros x Hx. destruct (next_day_day x Hx) as (x' & ? & ?). exists x'. split; [done|lia]. }
  - set (k := (day d + 1 * i)%Z) in *. apply Z.ltb_lt in Hk. exists (Z.to_N (day_ms k)).
    split; [rewrite to_u64_Some; lia|]. split; [exists k; split; [done|lia]|]. split; [lia|].
    intros u (j & Hj & Eu) Hu. assert (day_ms k <= day_ms j)%Z; [|lia]. apply day_ms_mono.
    destruct (decide (k <= j)%Z) as [|Hkj]; [done|]. exfalso.
    destruct (decide (j < day d)%Z) as [Hlt|Hge]; [apply Hord in Hlt; lia|].
    specialize (Hfirst (j - day d)%Z). replace (day d + 1 * (j - day d))%Z with j in Hfirst by lia.
    rewrite Z.ltb_ge in Hfirst. assert (day_ms j <= Z.of_N now)%Z by (apply Hfirst; [lia|done]). lia.
  - exfalso. destruct (week_matches (day d + 1)) as (i & Hi & Hm).
    specialize (Hnone (1 + i)%Z). replace (day d + 1 * (1 + i))%Z with (day d + 1 + i)%Z in Hnone by lia.
    rewrite Z.ltb_ge in Hnone. assert (day_ms (day d + 1 + i) <= Z.of_N now)%Z by (apply Hnone; [lia|done]).
    assert (day d < day d + 1 + i)%Z as Hlt by lia. apply Hord in Hlt. lia.
Qed.

End Exact.

(** C26: eight days are enough to look at.  For a well-formed expression, an offset that exists and any
    instant up to the year 8300, the occurrence found before is the latest at or before the instant, and none
    is found exactly when there is none since 1970; an occurrence after it is always found, and it is the
    earliest. *)
Theorem occurrences_are_exact `{TL : TimeLaws} e off now :
  well_formed e -> valid_offset off = true -> now <= LAST_MS ->
  (forall t, previous_occurrence_at_or_before e now off = Some t <->
     occurs e off t /\ t <= now /\ forall u, occurs e off u -> u <= now -> u <= t) /\
  (exists t, next_occurrence_after e now off = Some t /\
     occurs e off t /\ now < t /\ forall u, occurs e off u -> now < u -> t <= u).
Proof.
  intros Hwf Hoff Hn. split; [intros t; by apply previous_exact|by apply next_exact].
Qed.

(** * A clock *)

(** Days counted from 1970-01-01: a clock with the laws, to evaluate the definitions on. *)
Module Civil.

Definition offset_ok (off : Z) : bool := (-93600 <? off)%Z && (off <? 93600)%Z.

Definition day_ok (d : Z) : bool := (-1000000 <=? d)%Z && (d <=? 3000000)%Z.

Definition some_day (d : Z) : option Z := if day_ok d then Some d else None.

Definition weekday_of (d : Z) : Weekday :=
  match ((d + 3) mod 7)%Z with
  | 0%Z => Monday | 1%Z => Tuesday | 2%Z => Wednesday | 3%Z => Thursday | 4%Z => Friday | 5%Z => Saturday | _ => Sunday
  end.

Definition time : Time := {|
  Date := Z;
  date_at := fun secs off => some_day ((secs + off) / 86400)%Z;
  weekday := weekday_of;
  previous_day := fun d => some_day (d - 1)%Z;
  next_day := fun d => some_day (d + 1)%Z;
  date_instant := fun d h m s off =>
    if offset_ok off && (h <=? 23) && (m <=? 59) && (s <=? 59)
    then Some (d * 86400 + Z.of_N h * 3600 + Z.of_N m * 60 + Z.of_N s - off)%Z else None;
  days_since_epoch_monday := fun d => (d - 4)%Z |}.

Lemma weekday_of_day d : Z.of_N (weekday_number (weekday_of d)) = ((d + 3) mod 7)%Z.
Proof.
  unfold weekday_of. pose proof (Z.mod_pos_bound (d + 3) 7 ltac:(lia)) as H. set (k := ((d + 3) mod 7)%Z) in *.
  assert (k = 0 \/ k = 1 \/ k = 2 \/ k = 3 \/ k = 4 \/ k = 5 \/ k = 6)%Z as Hk by lia.
  by destruct Hk as [-> | [-> | [-> | [-> | [-> | [-> | ->]]]]]].
Qed.

Lemma keep_day d : day_ok d = true -> some_day d = Some d.
Proof. unfold some_day. by intros ->. Qed.

Definition laws : @TimeLaws time.
Proof.
  refine (@Build_TimeLaws time (fun d => d) offset_ok _ _ _ weekday_of_day _ _ _ (fun _ => eq_refl)); cbn.
  - unfold offset_ok. lia.
  - intros secs off d. unfold some_day. case_match; [|done]. by intros [= <-].
  - intros secs off Hoff Hs. rewrite keep_day; [by eexists|]. unfold offset_ok in Hoff. unfold day_ok.
    apply andb_true_iff. rewrite !Z.leb_le. split; [apply Z.div_le_lower_bound; lia|].
    apply Z.lt_le_incl, Z.div_lt_upper_bound; lia.
  - intros d Hd. exists (d - 1)%Z. rewrite keep_day; [done|]. unfold day_ok. lia.
  - intros d Hd. exists (d + 1)%Z. rewrite keep_day; [done|]. unfold day_ok. lia.
  - intros d h m s off -> Hh Hm Hs _. by rewrite !(proj2 (N.leb_le _ _)) by done.
Defined.

(** Sundays at midnight, on Thursday the first of January 2026. *)
Definition sundays : CalendarExpr := mkCalendar [6] 0 0 0.
Definition new_year : N := 1767225600000.

Example last_sunday : @previous_occurrence_at_or_before time sundays new_year 0 = Some 1766880000000.
Proof. by vm_compute. Qed.

Example two_hours_east : @previous_occurrence_at_or_before time sundays new_year 7200 = Some 1766872800000.
Proof. by vm_compute. Qed.

(** The list of what is read names an alias that is refused. *)
Example hourly_is_refused : parse_calendar (chars "hourly") = Err Hourly.
Proof. by vm_compute. Qed.

(** A list of no weekday at all is every day. *)
Example no_weekday_is_every_day : parse_calendar (chars ", *-*-* 09:00") = Ok (mkCalendar [] 9 0 0).
Proof. by vm_compute. Qed.

Lemma occurrences_are_exact_witness :
  (well_formed sundays /\ @valid_offset time laws 0%Z = true /\ new_year <= LAST_MS) /\
  (forall t, @previous_occurrence_at_or_before time sundays new_year 0 = Some t <->
     @occurs sundays 0 t /\ t <= new_year /\ forall u, @occurs sundays 0 u -> u <= new_year -> u <= t) /\
  (exists t, @next_occurrence_after time sundays new_year 0 = Some t /\
     @occurs sundays 0 t /\ new_year < t /\ forall u, @occurs sundays 0 u -> new_year < u -> t <= u).
Proof.
  assert (Hwf : well_formed sundays) by (repeat constructor; cbn; lia). assert (Hn : new_year <= LAST_MS) by (vm_compute; discriminate).
  split; [by split|]. apply (@occurrences_are_exact time laws sundays 0%Z new_year Hwf eq_refl Hn).
Defined.

End Civil.
