(* ===== verification/Automation.v ===== *)
(** * Automations: agent sessions on a schedule

    src/crates/yggterm-server/src/automation.rs, second half: the record of an automation and its runs, the
    bookkeeping pass and the store; the executor and the verbs of
    src/crates/yggterm-server/src/automation_cli.rs that change the store.

    The session is opened and prompted by arguments, whose answers are values; the executor lists the calls
    it makes.  A message is a value naming its case and the data its text prints.  Fields that nothing here
    reads but the opener (the directory, the title) are kept as they are. *)
From S2P Require Import Prelude RustStr RustChar RustText AgentRegistry AgentLaunch SessionTenancy Calendar.
From Stdlib Require Import ZifyBool ZifyN.
#[local] Open Scope N_scope.
#[local] Open Scope list_scope.

Definition DEFAULT_IDLE_TTL_SECS : N := 1800.
Definition DEFAULT_DEADLINE_SECS : N := 21600.
Definition DEFAULT_GRACE_SECS : N := 21600.
Definition RUN_HISTORY_LIMIT : nat := 20.

(** ** Runs *)

Inductive RunOutcome := Ran | SkippedOutOfGrace | SkippedOffCadence | ReusedLiveSession | SpawnFailed.

Definition is_success (o : RunOutcome) : bool := match o with SpawnFailed => false | _ => true end.

Inductive CloseReason := EphemeralIdleTtl | EphemeralOwnerGone | User | Never.

Record AutomationRun := mkRun {
  run_id : string; due_at_ms : N; started_at_ms : N; outcome : RunOutcome;
  session_path : option string; closed_at_ms : option N; close_reason : CloseReason; error : option string }.

Definition is_open (r : AutomationRun) : bool := is_Some_b (session_path r) && negb (is_Some_b (closed_at_ms r)).

Definition closed (now : N) (why : CloseReason) (r : AutomationRun) : AutomationRun :=
  mkRun (run_id r) (due_at_ms r) (started_at_ms r) (outcome r) (session_path r) (Some now) why (error r).

(** ** The record *)

Record Automation := mkAutomation {
  id : string; enabled : bool; agent_kind : SessionKind; machine_key : string; cwd : option string;
  prompt : text; calendar : CalendarExpr; every_n_weeks : N; anchor_week : N; grace_secs : N;
  idle_ttl_secs : N; deadline_secs : N; attach : bool; title : option string; created_at_ms : N;
  last_run_at_ms : option N; runs : list AutomationRun }.

Definition with_runs (last : option N) (l : list AutomationRun) (a : Automation) : Automation :=
  mkAutomation (id a) (enabled a) (agent_kind a) (machine_key a) (cwd a) (prompt a) (calendar a)
    (every_n_weeks a) (anchor_week a) (grace_secs a) (idle_ttl_secs a) (deadline_secs a) (attach a) (title a)
    (created_at_ms a) last l.

(** [validate_id]; the code refuses with one of two messages. *)
Definition validate_id (id : string) : bool :=
  negb (str_is_empty id) && (String.length id <=? 64)%nat
  && str_forallb (fun a => is_ascii_alphanumeric (byte_of a) || (byte_of a =? 45) || (byte_of a =? 95)) id.

Definition latest_run (a : Automation) : option AutomationRun := last (runs a).

Definition open_run (a : Automation) : option AutomationRun := List.find is_open (rev (runs a)).

Definition keep_last (limit : nat) (l : list AutomationRun) : list AutomationRun :=
  if (limit <? length l)%nat then drop (length l - limit) l else l.

Definition record_run (run : AutomationRun) (a : Automation) : Automation :=
  with_runs (Some (started_at_ms run)) (keep_last RUN_HISTORY_LIMIT (runs a ++ [run])) a.

Section Cadence.
Context `{!Time}.

Definition cadence_honours (a : Automation) (due_at_ms : N) (utc_offset_secs : Z) : bool :=
  if every_n_weeks a <=? 1 then true
  else match iso_week_number due_at_ms utc_offset_secs with
       | None => true
       | Some week => week mod every_n_weeks a =? anchor_week a mod every_n_weeks a
       end.

Fixpoint honoured_within (fuel : nat) (a : Automation) (cursor : N) (utc_offset_secs : Z) : option N :=
  match fuel with
  | O => None
  | S fuel =>
      candidate ← next_occurrence_after (calendar a) cursor utc_offset_secs;
      if cadence_honours a candidate utc_offset_secs then Some candidate
      else honoured_within fuel a candidate utc_offset_secs
  end.

Definition next_honoured_run_after (a : Automation) (after_ms : N) (utc_offset_secs : Z) : option N :=
  honoured_within 64 a after_ms utc_offset_secs.

End Cadence.

Definition run_has_passed_deadline (run : AutomationRun) (deadline_secs now_ms : N) : bool :=
  is_open run && (sat_mul deadline_secs 1000 <? now_ms - started_at_ms run).

(** ** Notices *)

Inductive NoticeKind := RunOverdue | SpawnFailedNotice.

#[export] Instance NoticeKind_eq_dec : EqDecision NoticeKind.
Proof. solve_decision. Defined.

(** The details of a report, and the message of an overdue run. *)
Inductive Detail :=
  | Late (late_by_secs grace_secs : N)
  | OffWeek (every_n_weeks : N)
  | Reprompted (session : string)
  | NotReprompted (session error : string)
  | NotOpened (error : string)
  | Delivered (session : string)
  | NotDelivered (session error : string)
  | StillRunning (for_secs deadline_secs : N).

Record AutomationNotice := mkNotice {
  notice_run : string; automation_id : string; notice_kind : NoticeKind; raised_at_ms : N;
  message : Detail; notice_session : option string }.

Record AutomationStore := mkStore { automations : list Automation; notices : list AutomationNotice }.

(** [AutomationStore::default]. *)
Definition empty_store : AutomationStore := mkStore [] [].

Definition get (s : AutomationStore) (i : string) : option Automation :=
  List.find (fun a => String.eqb (id a) i) (automations s).

Fixpoint replace_by_id (l : list Automation) (a : Automation) : option (list Automation) :=
  match l with
  | [] => None
  | b :: l' => if String.eqb (id b) (id a) then Some (a :: l')
               else match replace_by_id l' a with Some l' => Some (b :: l') | None => None end
  end.

Definition upsert (a : Automation) (s : AutomationStore) : AutomationStore :=
  mkStore (match replace_by_id (automations s) a with Some l => l | None => automations s ++ [a] end) (notices s).

Definition remove (i : string) (s : AutomationStore) : option (Automation * AutomationStore) :=
  index ← position (fun a => String.eqb (id a) i) (automations s);
  a ← automations s !! index;
  Some (a, mkStore (vec_remove index (automations s))
             (List.filter (fun n => negb (String.eqb (automation_id n) i)) (notices s))).

Definition raise_notice (n : AutomationNotice) (s : AutomationStore) : AutomationStore * bool :=
  if existsb (fun m => bool_decide (notice_run m = notice_run n) && bool_decide (notice_kind m = notice_kind n)) (notices s)
  then (s, false)
  else (mkStore (automations s) (notices s ++ [n]), true).

Definition dismiss_notice (run : string) (s : AutomationStore) : AutomationStore * nat :=
  let kept := List.filter (fun n => negb (bool_decide (notice_run n = run))) (notices s) in
  (mkStore (automations s) kept, (length (notices s) - length kept)%nat).

Definition automation_for_session (s : AutomationStore) (path : string) : option Automation :=
  List.find (fun a => existsb (fun r => is_open r && bool_decide (session_path r = Some path)) (runs a)) (automations s).

Definition session_is_automated (s : AutomationStore) (path : string) : bool := is_Some_b (automation_for_session s path).

(** ** Bookkeeping *)

Record BookkeepingOutcome := mkBooks { closed_runs : list (string * CloseReason); raised : list string }.

Definition books_did_anything (o : BookkeepingOutcome) : bool :=
  match closed_runs o, raised o with [], [] => false | _, _ => true end.

Definition why_gone (reaped : list (string * EphemeralReapReason)) (path : string) : CloseReason :=
  match List.find (fun p => String.eqb (fst p) path) reaped with
  | Some (_, IdleTtl) => EphemeralIdleTtl
  | Some (_, OwnerGone) => EphemeralOwnerGone
  | None => User
  end.

(** The body of the loop over runs: the run, what was closed and what is overdue. *)
Definition book_run (a : Automation) (live : list string) (reaped : list (string * EphemeralReapReason)) (now_ms : N)
    (run : AutomationRun) : AutomationRun * list (string * CloseReason) * list AutomationNotice :=
  if negb (is_open run) then (run, [], [])
  else match session_path run with
  | None => (run, [], [])
  | Some path =>
      if negb (existsb (fun l => String.eqb l path) live) then
        let why := why_gone reaped path in (closed now_ms why run, [(run_id run, why)], [])
      else if run_has_passed_deadline run (deadline_secs a) now_ms then
        (run, [], [mkNotice (run_id run) (id a) RunOverdue now_ms
                     (StillRunning ((now_ms - started_at_ms run) / 1000) (deadline_secs a)) (Some path)])
      else (run, [], [])
  end.

Definition booked (x : AutomationRun * list (string * CloseReason) * list AutomationNotice) : AutomationRun := fst (fst x).

Definition raise_step (x : AutomationStore * list string) (n : AutomationNotice) : AutomationStore * list string :=
  let '(s, fresh) := raise_notice n (fst x) in (s, if fresh then snd x ++ [notice_run n] else snd x).

Definition raise_all (l : list AutomationNotice) (s : AutomationStore) : AutomationStore * list string :=
  fold_left raise_step l (s, []).

Definition bookkeeping_pass (live : list string) (reaped : list (string * EphemeralReapReason)) (now_ms : N)
    (s : AutomationStore) : AutomationStore * BookkeepingOutcome :=
  let books := map (fun a => (a, map (book_run a live reaped now_ms) (runs a))) (automations s) in
  let automations := map (fun '(a, l) => with_runs (last_run_at_ms a) (map booked l) a) books in
  let all := flat_map snd books in
  let '(s', raised) := raise_all (flat_map snd all) (mkStore automations (notices s)) in
  (s', mkBooks (flat_map (fun x => snd (fst x)) all) raised).

(** The daemon's tick, on the store it loaded; [None] is a store that does not load.  The tick writes only
    what changed, and [saves] says whether the write lands. *)
Definition run_automation_bookkeeping_pass (saves : bool) (live : list string)
    (reaped : list (string * EphemeralReapReason)) (now_ms : N) (file : option AutomationStore)
    : option AutomationStore * BookkeepingOutcome :=
  match file with
  | None => (None, mkBooks [] [])
  | Some s =>
      match automations s with
      | [] => (file, mkBooks [] [])
      | _ => let '(s', o) := bookkeeping_pass live reaped now_ms s in
             (if books_did_anything o && saves then Some s' else file, o)
      end
  end.

(** ** The executor *)

Record RunReport := mkReport { r_outcome : RunOutcome; r_due_at_ms : N; r_session_path : option string; r_detail : Detail }.

(** The calls that reach outside. *)
Inductive Call := OpenSession | Inject (session : string) (prompt : text).

Definition run_id_of (a : Automation) (due : N) : string := id a +:+ "-" +:+ u64_to_string due.

(** The [finish] closure. *)
Definition finish (now_ms : N) (a : Automation) (report : RunReport) (error : option string) : Automation :=
  record_run (mkRun (run_id_of a (r_due_at_ms report)) (r_due_at_ms report) now_ms (r_outcome report)
                (r_session_path report) None Never error) a.

Section Executor.
Context `{!Time}.

(** What a run is due for: the occurrence its fire belongs to. *)
Definition due_of (a : Automation) (now_ms : N) (utc_offset_secs : Z) : N :=
  default now_ms (previous_occurrence_at_or_before (calendar a) now_ms utc_offset_secs).

(** The two guards, in front of everything that acts. *)
Definition skip_verdict (a : Automation) (now_ms : N) (utc_offset_secs : Z) : option (RunOutcome * Detail) :=
  let due := due_of a now_ms utc_offset_secs in
  match grace_verdict due now_ms (grace_secs a) with
  | OutOfGrace late => Some (SkippedOutOfGrace, Late late (grace_secs a))
  | Honour => if negb (cadence_honours a due utc_offset_secs) then Some (SkippedOffCadence, OffWeek (every_n_weeks a)) else None
  end.

Definition execute_run (force : bool) (now_ms : N) (utc_offset_secs : Z) (open_session : result string string)
    (inject : string -> text -> option string) (a : Automation) : Automation * RunReport * list Call :=
  let due := due_of a now_ms utc_offset_secs in
  match (if force then None else skip_verdict a now_ms utc_offset_secs) with
  | Some (outcome, detail) =>
      let report := mkReport outcome due None detail in (finish now_ms a report None, report, [])
  | None =>
  match (run ← open_run a; session_path run) with
  | Some existing =>
      match inject existing (prompt a) with
      | None => let report := mkReport ReusedLiveSession due (Some existing) (Reprompted existing) in
                (finish now_ms a report None, report, [Inject existing (prompt a)])
      | Some e => let report := mkReport SpawnFailed due (Some existing) (NotReprompted existing e) in
                  (finish now_ms a report (Some e), report, [Inject existing (prompt a)])
      end
  | None =>
  match open_session with
  | Err e => let report := mkReport SpawnFailed due None (NotOpened e) in
             (finish now_ms a report (Some e), report, [OpenSession])
  | Ok path =>
      match inject path (prompt a) with
      | None => let report := mkReport Ran due (Some path) (Delivered path) in
                (finish now_ms a report None, report, [OpenSession; Inject path (prompt a)])
      | Some e => let report := mkReport SpawnFailed due (Some path) (NotDelivered path e) in
                  (finish now_ms a report (Some e), report, [OpenSession; Inject path (prompt a)])
      end
  end end end.

(** ** The verbs of the command line *)

Inductive VerbError :=
  | NoAutomation (i : string)
  | AlreadyExists (i : string)
  | InvalidId (i : string)
  | MissingId
  | BadSeconds (flag : string)
  | BadEveryNWeeks
  | BadKind (kind : string)
  | BadCalendar (e : CalendarError)
  | MissingMachine
  | MissingPrompt
  | PromptRefused (message : string)
  | RunFailed (d : Detail).

(** [automation run]: what it saves, and its answer; a disabled automation is left alone. *)
Definition verb_run (i : string) (force : bool) (now_ms : N) (utc_offset_secs : Z) (open_session : result string string)
    (inject : string -> text -> option string) (s : AutomationStore)
    : option AutomationStore * result (option RunReport) VerbError * list Call :=
  match get s i with
  | None => (None, Err (NoAutomation i), [])
  | Some a =>
      if negb (enabled a) && negb force then (None, Ok None, [])
      else
        let '(a', report, calls) := execute_run force now_ms utc_offset_secs open_session inject a in
        let s1 := match r_outcome report with
                  | SpawnFailed =>
                      fst (raise_notice (mkNotice (match latest_run a' with Some r => run_id r | None => i end) i
                                           SpawnFailedNotice now_ms (r_detail report) (r_session_path report)) s)
                  | _ => s
                  end in
        (Some (upsert a' s1), (if is_success (r_outcome report) then Ok (Some report) else Err (RunFailed (r_detail report))), calls)
  end.

Definition set_enabled (on : bool) (a : Automation) : Automation :=
  mkAutomation (id a) on (agent_kind a) (machine_key a) (cwd a) (prompt a) (calendar a) (every_n_weeks a)
    (anchor_week a) (grace_secs a) (idle_ttl_secs a) (deadline_secs a) (attach a) (title a) (created_at_ms a)
    (last_run_at_ms a) (runs a).

Definition verb_enable (on : bool) (i : string) (s : AutomationStore) : result AutomationStore VerbError :=
  match get s i with
  | None => Err (NoAutomation i)
  | Some a => Ok (upsert (set_enabled on a) s)
  end.

Definition verb_delete (i : string) (s : AutomationStore) : result AutomationStore VerbError :=
  match remove i s with Some (_, s') => Ok s' | None => Err (NoAutomation i) end.

(** [parse_session_kind_flag]. *)
Definition parse_session_kind_flag (raw : string) : option SessionKind :=
  let normalized := to_ascii_lowercase (trim raw) in
  match List.find (fun d => String.eqb (slug d) normalized) AGENT_CLIS with
  | Some d => Some (kind d)
  | None =>
      if existsb (String.eqb normalized) ["shell"; "terminal"; "plain"]%string then Some Shell
      else if String.eqb normalized "litellm" then Some CodexLiteLlm
      else if existsb (String.eqb normalized) ["claude"; "claudecode"]%string then Some ClaudeCode
      else kind <$> List.find (fun d => bool_decide (wrapper_slug d = Some normalized) || String.eqb (binary_name d) normalized) AGENT_CLIS
  end.

(** A flag whose value is parsed; absent leaves [old]. *)
Definition flag {A} (args : list string) (name : string) (parse : string -> option A) (error : VerbError) (old : A)
    : result A VerbError :=
  match cli_flag_value args name with
  | None => Ok old
  | Some raw => match parse raw with Some a => Ok a | None => Err error end
  end.

Definition flag_text {A} (args : list string) (name : string) (conv : string -> A) (old : A) : A :=
  match cli_flag_value args name with Some raw => conv raw | None => old end.

Definition parse_every (raw : string) : option N := keep_if (fun v => 1 <=? v) (parse_uint u32_max raw).

Definition kind_of_flag (raw : string) : option SessionKind :=
  if String.eqb raw "cc" then Some ClaudeCode else parse_session_kind_flag raw.

Definition has_flag (args : list string) (name : string) : bool := existsb (String.eqb name) args.

(** The flags of [create] and [edit] over what the record holds; [read_prompt] is the answer of the reader of that
    name, which may have looked at standard input. *)
Definition apply_flags (args : list string) (read_prompt : result (option text) string) (a : Automation) : result Automation VerbError :=
  match flag args "--kind" kind_of_flag (BadKind (flag_text args "--kind" (fun r => r) EmptyString)) (agent_kind a) with
  | Err e => Err e
  | Ok kind =>
  match read_prompt with
  | Err e => Err (PromptRefused e)
  | Ok said =>
  match match cli_flag_value args "--calendar" with
        | None => Ok (calendar a)
        | Some raw => parse_calendar (text_of raw)
        end with
  | Err e => Err (BadCalendar e)
  | Ok cal =>
  match flag args "--every-n-weeks" parse_every BadEveryNWeeks (every_n_weeks a) with
  | Err e => Err e
  | Ok every =>
  match flag args "--grace" parse_u64 (BadSeconds "--grace") (grace_secs a) with
  | Err e => Err e
  | Ok grace =>
  match flag args "--idle-ttl" parse_u64 (BadSeconds "--idle-ttl") (idle_ttl_secs a) with
  | Err e => Err e
  | Ok idle =>
  match flag args "--deadline" parse_u64 (BadSeconds "--deadline") (deadline_secs a) with
  | Err e => Err e
  | Ok deadline =>
      let machine := flag_text args "--machine-key" (fun r => r) (machine_key a) in
      let prompt := default (prompt a) said in
      let attach := if has_flag args "--detach" then false else if has_flag args "--attach" then true else attach a in
      let enabled := if has_flag args "--disabled" then false else enabled a in
      if str_is_empty machine then Err MissingMachine
      else if negb (non_empty (trim_text prompt)) then Err MissingPrompt
      else Ok (mkAutomation (id a) enabled kind machine (flag_text args "--cwd" Some (cwd a)) prompt cal every
                 (anchor_week a) grace idle deadline attach (flag_text args "--title" Some (title a))
                 (created_at_ms a) (last_run_at_ms a) (runs a))
  end end end end end end end.

(** What [create] starts from: Sunday at midnight. *)
Definition blank (i : string) (now : N) : Automation :=
  mkAutomation i true ClaudeCode EmptyString None [] (mkCalendar [6] 0 0 0) 1 0 DEFAULT_GRACE_SECS DEFAULT_IDLE_TTL_SECS
    DEFAULT_DEADLINE_SECS false None now None [].

Definition anchored (now : N) (utc_offset_secs : Z) (a : Automation) : Automation :=
  let first := default now (next_occurrence_after (calendar a) now utc_offset_secs) in
  mkAutomation (id a) (enabled a) (agent_kind a) (machine_key a) (cwd a) (prompt a) (calendar a) (every_n_weeks a)
    (default 0 (iso_week_number first utc_offset_secs)) (grace_secs a) (idle_ttl_secs a) (deadline_secs a) (attach a)
    (title a) (created_at_ms a) (last_run_at_ms a) (runs a).

Definition verb_create (args : list string) (read_prompt : result (option text) string) (now : N) (utc_offset_secs : Z)
    (s : AutomationStore) : result AutomationStore VerbError :=
  match cli_flag_value args "--id" with
  | None => Err MissingId
  | Some i =>
      if negb (validate_id i) then Err (InvalidId i)
      else if is_Some_b (get s i) then Err (AlreadyExists i)
      else match apply_flags args read_prompt (blank i now) with
           | Err e => Err e
           | Ok a => Ok (upsert (anchored now utc_offset_secs a) s)
           end
  end.

Definition verb_edit (i : string) (args : list string) (read_prompt : result (option text) string) (s : AutomationStore)
    : result AutomationStore VerbError :=
  if negb (validate_id i) then Err (InvalidId i)
  else match get s i with
       | None => Err (NoAutomation i)
       | Some a => match apply_flags args read_prompt a with Err e => Err e | Ok a' => Ok (upsert a' s) end
       end.

End Executor.

(** * One session at a time *)

Definition coherent (a : Automation) : Prop :=
  forall r1 r2, r1 ∈ runs a -> r2 ∈ runs a -> is_open r1 = true -> is_open r2 = true -> session_path r1 = session_path r2.

(** What the store keeps. *)
Definition sound (s : AutomationStore) : Prop :=
  NoDup (map id (automations s)) /\ forall a, a ∈ automations s -> coherent a.

Lemma keep_last_sub limit l r : r ∈ keep_last limit l -> r ∈ l.
Proof.
  unfold keep_last. case_match; [|done]. intros H1. rewrite <- (take_drop (length l - limit) l). apply elem_of_app. by right.
Qed.

Lemma open_run_Some a r : open_run a = Some r -> r ∈ runs a /\ is_open r = true.
Proof. intros H. apply find_some in H as [H1 H2]. split; [|done]. apply list_elem_of_In. by apply in_rev. Qed.

Lemma open_run_None a : open_run a = None -> forall r, r ∈ runs a -> is_open r = false.
Proof. intros H r Hr. apply (find_none _ _ H r). apply in_rev. rewrite rev_involutive. by apply list_elem_of_In. Qed.

Lemma open_session_Some a p : (run ← open_run a; session_path run) = Some p ->
  exists r, r ∈ runs a /\ is_open r = true /\ session_path r = Some p.
Proof.
  destruct (open_run a) as [r|] eqn:E; [|done]. cbn. intros Hp. apply open_run_Some in E as [H1 H2]. by exists r.
Qed.

Lemma open_session_None a : (run ← open_run a; session_path run) = None -> forall r, r ∈ runs a -> is_open r = false.
Proof.
  destruct (open_run a) as [r|] eqn:E; [|intros _; by apply open_run_None]. cbn. intros Hp.
  apply open_run_Some in E as [_ H]. unfold is_open in H. by rewrite Hp in H.
Qed.

(** A run that is added either has no session, or that of the open ones, or is the only open one. *)
Lemma record_coherent run a : coherent a ->
  (forall p, session_path run = Some p -> forall r, r ∈ runs a -> is_open r = true -> session_path r = Some p) ->
  coherent (record_run run a).
Proof.
  intros Hc Hnew r1 r2 H1%keep_last_sub H2%keep_last_sub O1 O2.
  assert (Hs : forall r, is_open r = true -> exists p, session_path r = Some p).
  { intros r Hr. unfold is_open in Hr. destruct (session_path r); [by eexists|done]. }
  apply elem_of_app in H1 as [H1| ->%list_elem_of_singleton]; apply elem_of_app in H2 as [H2| ->%list_elem_of_singleton];
    [by apply Hc| | |done]; destruct (Hs run) as [p Hp]; try done; [rewrite (Hnew p Hp r1)|rewrite (Hnew p Hp r2)]; done.
Qed.

Section Runs.
Context `{!Time}.

Lemma execute_coherent force now off o inj a : coherent a -> coherent (fst (fst (execute_run force now off o inj a))).
Proof.
  intros Hc. unfold execute_run. destruct (if force then None else _) as [[oc d]|]; [by apply record_coherent|].
  destruct (run ← open_run a; session_path run) as [p|] eqn:E.
  - apply open_session_Some in E as (r & Hr & Ho & Hp).
    destruct (inj p (prompt a)); apply record_coherent; try done; intros q [= <-] r' Hr' Ho'; rewrite <- Hp; by apply Hc.
  - pose proof (open_session_None a E) as Hn. destruct o as [p|]; [|by apply record_coherent].
    destruct (inj p (prompt a)); apply record_coherent; try done; intros q _ r' Hr' Ho'; by rewrite Hn in Ho'.
Qed.

Lemma execute_id force now off o inj a : id (fst (fst (execute_run force now off o inj a))) = id a.
Proof. unfold execute_run. repeat case_match; done. Qed.

End Runs.

(** ** The store *)

Lemma get_Some s i a : get s i = Some a -> a ∈ automations s /\ id a = i.
Proof. intros H. apply find_some in H as [H1 H2]. split; [by apply list_elem_of_In|by apply String.eqb_eq]. Qed.

Lemma replace_by_id_spec l a : match replace_by_id l a with
  | Some l' => map id l' = map id l /\ forall b, b ∈ l' -> b = a \/ b ∈ l
  | None => id a ∉ map id l
  end.
Proof.
  induction l as [|b l IH]; cbn; [apply not_elem_of_nil|]. destruct (String.eqb_spec (id b) (id a)) as [E|E].
  - split; [by rewrite E|]. intros c [->|?]%elem_of_cons; [by left|right; by right].
  - destruct (replace_by_id l a) as [l'|].
    + destruct IH as [H1 H2]. split; [cbn; by rewrite H1|]. intros c [->|Hc]%elem_of_cons; [right; left|].
      destruct (H2 c Hc) as [->|?]; [by left|right; by right].
    + apply not_elem_of_cons. split; [congruence|done].
Qed.

Lemma upsert_sound a s : sound s -> coherent a -> sound (upsert a s).
Proof.
  intros [Hn Hc] Ha. unfold upsert, sound. cbn [automations]. pose proof (replace_by_id_spec (automations s) a) as H.
  destruct (replace_by_id (automations s) a) as [l|].
  - destruct H as [H1 H2]. rewrite H1. split; [done|]. intros b Hb. destruct (H2 b Hb) as [->|?]; [done|by apply Hc].
  - split.
    + rewrite map_app. apply NoDup_app. split; [done|]. split; [|apply NoDup_singleton].
      intros i Hi Hi'. cbn in Hi'. apply list_elem_of_singleton in Hi' as ->. done.
    + intros b [?| ->%list_elem_of_singleton]%elem_of_app; [by apply Hc|done].
Qed.

Lemma raise_automations n s : automations (fst (raise_notice n s)) = automations s.
Proof. unfold raise_notice. by case_match. Qed.

Lemma raise_all_automations l s : automations (fst (raise_all l s)) = automations s.
Proof.
  unfold raise_all. assert (forall x, automations (fst (fold_left raise_step l x)) = automations (fst x)) as H; [|by rewrite H].
  induction l as [|n l IH]; intros x; [done|]. cbn [fold_left]. rewrite IH. unfold raise_step.
  pose proof (raise_automations n (fst x)) as E. by destruct (raise_notice n (fst x)).
Qed.

(** ** Bookkeeping keeps it *)

Lemma book_run_open a live reaped now r : is_open (booked (book_run a live reaped now r)) = true ->
  is_open r = true /\ booked (book_run a live reaped now r) = r.
Proof.
  unfold book_run, booked. destruct (is_open r) eqn:Eo; cbn [negb fst]; [|congruence].
  destruct (session_path r) as [p|] eqn:Ep; cbn; [|done]. destruct (existsb _ live); cbn.
  - by destruct (run_has_passed_deadline _ _ _).
  - unfold is_open, closed. cbn. by rewrite andb_false_r.
Qed.

Definition booked_automation (live : list string) (reaped : list (string * EphemeralReapReason)) (now : N) (a : Automation) : Automation :=
  with_runs (last_run_at_ms a) (map (fun r => booked (book_run a live reaped now r)) (runs a)) a.

Lemma bookkeeping_automations live reaped now s :
  automations (fst (bookkeeping_pass live reaped now s)) = map (booked_automation live reaped now) (automations s).
Proof.
  unfold bookkeeping_pass. match goal with |- context [raise_all ?l ?x] => pose proof (raise_all_automations l x) as E; destruct (raise_all l x) as [s' raised] end.
  cbn in E |- *. rewrite E, map_map. apply map_ext. intros a. unfold booked_automation. by rewrite map_map.
Qed.

Lemma booked_coherent live reaped now a : coherent a -> coherent (booked_automation live reaped now a).
Proof.
  intros Hc r1 r2 H1 H2 O1 O2. cbn in H1, H2. apply list_elem_of_fmap in H1 as (x1 & -> & H1), H2 as (x2 & -> & H2).
  apply book_run_open in O1 as [O1 ->], O2 as [O2 ->]. by apply Hc.
Qed.

Lemma bookkeeping_sound live reaped now s : sound s -> sound (fst (bookkeeping_pass live reaped now s)).
Proof.
  intros [Hn Hc]. unfold sound. rewrite bookkeeping_automations, map_map. split; [done|].
  intros a (b & -> & Hb)%list_elem_of_fmap. by apply booked_coherent, Hc.
Qed.

Lemma remove_sound i s a s' : sound s -> remove i s = Some (a, s') -> sound s'.
Proof.
  intros [Hn Hc]. unfold remove. destruct (position _ _) as [n|]; [|done]. cbn.
  destruct (automations s !! n) as [b|] eqn:E; [|done]. cbn. intros [= <- <-]. apply vec_remove_perm in E. split; cbn.
  - rewrite <- E in Hn. cbn in Hn. by apply NoDup_cons in Hn as [_ ?].
  - intros c Hcin. apply Hc. rewrite <- E. by right.
Qed.

Lemma coherent_runs a b : runs a = runs b -> coherent b -> coherent a.
Proof. unfold coherent. by intros ->. Qed.

Lemma apply_flags_runs args rp a b : apply_flags args rp a = Ok b -> runs b = runs a /\ id b = id a.
Proof. unfold apply_flags. repeat case_match; try done; by intros [= <-]. Qed.

Section Reachable.
Context `{!Time}.

(** What may happen to the store: each verb, the tick of the daemon, and a dismissal, one after the other. *)
Inductive step : AutomationStore -> list Call -> AutomationStore -> Prop :=
  | step_run i force now off o inj s s' r calls : verb_run i force now off o inj s = (Some s', r, calls) -> step s calls s'
  | step_tick live reaped now s : step s [] (fst (bookkeeping_pass live reaped now s))
  | step_enable on i s s' : verb_enable on i s = Ok s' -> step s [] s'
  | step_delete i s s' : verb_delete i s = Ok s' -> step s [] s'
  | step_create args rp now off s s' : verb_create args rp now off s = Ok s' -> step s [] s'
  | step_edit i args rp s s' : verb_edit i args rp s = Ok s' -> step s [] s'
  | step_dismiss run s : step s [] (fst (dismiss_notice run s)).

Inductive reachable : AutomationStore -> Prop :=
  | reachable_empty : reachable empty_store
  | reachable_step s calls s' : reachable s -> step s calls s' -> reachable s'.

Lemma step_sound s calls s' : sound s -> step s calls s' -> sound s'.
Proof.
  intros Hs. destruct 1 as [i force now off o inj s s' r calls Hv|live reaped now s|on i s s' Hv|i s s' Hv|args rp now off s s' Hv|i args rp s s' Hv|run s].
  - unfold verb_run in Hv. destruct (get s i) as [a|] eqn:Eg; [|done]. apply get_Some in Eg as [Ha _].
    destruct (negb _ && negb _); [done|]. pose proof (execute_coherent force now off o inj a (proj2 Hs a Ha)) as Hc.
    destruct (execute_run force now off o inj a) as [[a' report] calls']. cbn in Hc. injection Hv as <- _ _.
    apply upsert_sound; [|done]. unfold sound. destruct (r_outcome report); rewrite ?raise_automations; done.
  - by apply bookkeeping_sound.
  - unfold verb_enable in Hv. destruct (get s i) as [a|] eqn:Eg; [|done]. injection Hv as <-. apply get_Some in Eg as [Ha _].
    apply upsert_sound; [done|]. by apply (coherent_runs _ a), (proj2 Hs).
  - unfold verb_delete in Hv. destruct (remove i s) as [[a s1]|] eqn:E; [|done]. injection Hv as <-. by eapply remove_sound.
  - unfold verb_create in Hv. destruct (cli_flag_value args "--id") as [i|]; [|done]. destruct (negb _); [done|].
    destruct (is_Some_b _); [done|]. destruct (apply_flags args rp (blank i now)) as [a|] eqn:E; [|done]. injection Hv as <-.
    apply upsert_sound; [done|]. apply apply_flags_runs in E as [E _]. cbn in E.
    intros r1 r2 H1. cbn in H1. rewrite E in H1. by apply elem_of_nil in H1.
  - unfold verb_edit in Hv. destruct (negb _); [done|]. destruct (get s i) as [a|] eqn:Eg; [|done]. apply get_Some in Eg as [Ha _].
    destruct (apply_flags args rp a) as [b|] eqn:E; [|done]. injection Hv as <-. apply upsert_sound; [done|].
    apply apply_flags_runs in E as [E _]. by apply (coherent_runs _ a), (proj2 Hs).
  - exact Hs.
Qed.

End Reachable.

(** C21: whatever sequence of runs, ticks and edits a store has been through, the open runs of an automation
    all hold the same session; a run opens a session only when none is open in the record, and otherwise
    prompts that one and no other; and no two automations share an id. *)
Theorem one_session_at_a_time `{!Time} s (Hreach : reachable s) :
  NoDup (map id (automations s)) /\
  (forall a, a ∈ automations s -> forall r1 r2, r1 ∈ runs a -> r2 ∈ runs a ->
     is_open r1 = true -> is_open r2 = true -> session_path r1 = session_path r2) /\
  (forall a force now off o inj, a ∈ automations s ->
     let '(_, _, calls) := execute_run force now off o inj a in
     (OpenSession ∈ calls -> forall r, r ∈ runs a -> is_open r = false) /\
     (forall p t, Inject p t ∈ calls -> t = prompt a /\
        (o = Ok p /\ OpenSession ∈ calls \/ forall r, r ∈ runs a -> is_open r = true -> session_path r = Some p))).
Proof.
  assert (Hs : sound s).
  { induction Hreach as [|s calls s' _ IH Hstep]; [|by eapply step_sound]. split; [constructor|]. by intros a ?%elem_of_nil. }
  destruct Hs as [Hn Hc]. split; [done|]. split; [exact Hc|]. intros a force now off o inj Ha. specialize (Hc a Ha).
  unfold execute_run. destruct (if force then None else _) as [[oc d]|]; [by split; [intros ?%elem_of_nil|intros ? ? ?%elem_of_nil]|].
  destruct (run ← open_run a; session_path run) as [p|] eqn:E.
  - apply open_session_Some in E as (r & Hr & Ho & Hp).
    assert (forall q t, Inject q t ∈ [Inject p (prompt a)] -> t = prompt a /\
      (o = Ok q /\ OpenSession ∈ [Inject p (prompt a)] \/ forall r, r ∈ runs a -> is_open r = true -> session_path r = Some q)) as Hone.
    { intros q t [= -> ->]%list_elem_of_singleton. split; [done|]. right. intros r' Hr' Ho'. rewrite <- Hp. by apply Hc. }
    destruct (inj p (prompt a)); (split; [by intros ?%list_elem_of_singleton|exact Hone]).
  - pose proof (open_session_None a E) as Hnone. destruct o as [p|].
    + destruct (inj p (prompt a)); (split; [done|]); intros q t [?|[= -> ->]%list_elem_of_singleton]%elem_of_cons; try done;
        (split; [done|left; split; [done|left]]).
    + split; [done|]. by intros q t ?%list_elem_of_singleton.
Qed.

(** * When a run acts *)

Lemma last_record run a : last (runs (record_run run a)) = Some run.
Proof.
  cbn. unfold keep_last. case_match eqn:E; [|by rewrite last_snoc]. apply Nat.ltb_lt in E.
  rewrite length_app in E |- *. cbn in E |- *. unfold RUN_HISTORY_LIMIT in *. rewrite drop_app_le by lia. by rewrite last_snoc.
Qed.

Lemma record_bounded run a : (length (runs (record_run run a)) <= RUN_HISTORY_LIMIT)%nat.
Proof.
  cbn. unfold keep_last. case_match eqn:E; [|by apply Nat.ltb_ge in E]. rewrite length_drop. lia.
Qed.

Section Due.
Context `{TL : TimeLaws}.

Lemma execute_acts force now off o inj a :
  let '(a', report, calls) := execute_run force now off o inj a in
  (exists error, a' = finish now a report error) /\ r_due_at_ms report = due_of a now off /\
  (calls = [] <-> force = false /\ skip_verdict a now off <> None) /\
  (r_outcome report = SpawnFailed -> calls <> []).
Proof.
  unfold execute_run. destruct (if force then None else skip_verdict a now off) as [[oc d]|] eqn:E.
  - assert (force = false /\ skip_verdict a now off = Some (oc, d)) as [-> Es] by by destruct force.
    split; [by eexists|]. split; [done|]. split; [by rewrite Es|]. cbn. intros ->.
    unfold skip_verdict in Es. by repeat case_match.
  - assert (~ (force = false /\ skip_verdict a now off <> None)) as Hn by (intros [-> H1]; done).
    destruct (run ← open_run a; session_path run) as [p|]; [destruct (inj p (prompt a))|destruct o as [p|]; [destruct (inj p (prompt a))|]];
      (split; [by eexists|]); (split; [done|]); done.
Qed.

Lemma skipped_quietly force now off o inj a : let '(_, report, calls) := execute_run force now off o inj a in
  calls = [] -> is_success (r_outcome report) = true /\ r_session_path report = None.
Proof.
  pose proof (execute_acts force now off o inj a) as Hx. unfold execute_run in *.
  destruct (if force then None else skip_verdict a now off) as [[oc d]|] eqn:E.
  - cbn in Hx. destruct Hx as (_ & _ & _ & Hx). intros _. split; [|done]. cbn. destruct oc; try done. by destruct (Hx eq_refl).
  - clear Hx. destruct (run ← open_run a; session_path run) as [p|]; [by destruct (inj p (prompt a))|].
    destruct o as [p|]; [by destruct (inj p (prompt a))|done].
Qed.

Lemma latest_due a now off t : well_formed (calendar a) -> valid_offset off = true -> now <= LAST_MS ->
  occurs (calendar a) off t -> t <= now -> (forall u, occurs (calendar a) off u -> u <= now -> u <= t) -> due_of a now off = t.
Proof.
  intros Hwf Hoff Hnow Ho Hle Hmax. unfold due_of.
  by rewrite (proj2 (previous_exact (calendar a) off Hwf Hoff now t Hnow) (conj Ho (conj Hle Hmax))).
Qed.

(** C22: a fire of the timer reaches outside exactly when the latest instant of the schedule at or before it
    lies within the grace window and in a week of the cadence; a forced run always does.  A run that is
    skipped is a success.  Either way the run is the last of the record, due at that instant, and the record
    never keeps more than twenty. *)
Theorem a_run_acts_when_it_is_due force now off o inj a t (Hwf : well_formed (calendar a)) (Hoff : valid_offset off = true)
    (Hnow : now <= LAST_MS) (Hocc : occurs (calendar a) off t) (Hle : t <= now)
    (Hlatest : forall u, occurs (calendar a) off u -> u <= now -> u <= t) :
  let '(a', report, calls) := execute_run force now off o inj a in
  (calls <> [] <-> force = true \/ now - t <= sat_mul (grace_secs a) 1000 /\ cadence_honours a t off = true) /\
  (calls = [] -> is_success (r_outcome report) = true /\ r_session_path report = None) /\
  r_due_at_ms report = t /\
  (exists error, last (runs a') =
     Some (mkRun (run_id_of a t) t now (r_outcome report) (r_session_path report) None Never error)) /\
  (length (runs a') <= RUN_HISTORY_LIMIT)%nat.
Proof.
  pose proof (latest_due a now off t Hwf Hoff Hnow Hocc Hle Hlatest) as Hdue.
  pose proof (execute_acts force now off o inj a) as Hx. pose proof (skipped_quietly force now off o inj a) as Hq.
  destruct (execute_run force now off o inj a) as [[a' report] calls]. rewrite Hdue in Hx. destruct Hx as ((error & ->) & Hr & Hc & _).
  split; [|split; [exact Hq|split; [done|split; [|apply record_bounded]]]].
  - rewrite Hc. unfold skip_verdict. rewrite Hdue. unfold grace_verdict. destruct force; [split; [by left|by intros _ [[=] _]]|].
    destruct (N.leb_spec (now - t) (sat_mul (grace_secs a) 1000)); [destruct (cadence_honours a t off)|]; cbn.
    + split; [by right|by intros _ [_ []]].
    + split; [intros Hn; by destruct Hn|by intros [?|[_ ?]]].
    + split; [intros Hn; by destruct Hn|]. intros [?|[? _]]; [done|lia].
  - exists error. unfold finish. by rewrite last_record, Hr.
Qed.

End Due.

(** * The tick settles the record *)

Lemma same_notice n m : bool_decide (notice_run m = notice_run n) && bool_decide (notice_kind m = notice_kind n) = true <->
  notice_run m = notice_run n /\ notice_kind m = notice_kind n.
Proof. by rewrite andb_true_iff, !bool_decide_eq_true. Qed.

Definition noticed (s : AutomationStore) (n : AutomationNotice) : Prop :=
  exists m, m ∈ notices s /\ notice_run m = notice_run n /\ notice_kind m = notice_kind n.

Lemma raise_known s n : noticed s n -> raise_notice n s = (s, false).
Proof.
  intros (m & Hm & H1 & H2). unfold raise_notice. destruct (existsb _ _) eqn:E; [done|]. exfalso.
  apply not_true_iff_false in E. apply E, existsb_exists. exists m. split; [by apply list_elem_of_In|]. by apply same_notice.
Qed.

Lemma raise_notice_spec s n : let s' := fst (raise_notice n s) in
  noticed s' n /\ exists more, notices s' = notices s ++ more.
Proof.
  unfold raise_notice. destruct (existsb _ _) eqn:E; cbn.
  - apply existsb_exists in E as (m & Hm & H%same_notice). split; [|exists []; by rewrite app_nil_r].
    exists m. split; [by apply list_elem_of_In|done].
  - split; [|by exists [n]]. exists n. split; [|done]. apply elem_of_app. right. by apply list_elem_of_singleton.
Qed.

Lemma noticed_more s s' n more : notices s' = notices s ++ more -> noticed s n -> noticed s' n.
Proof. intros E (m & Hm & H). exists m. rewrite E, elem_of_app. by split; [left|]. Qed.

Lemma raise_step_store x n : fst (raise_step x n) = fst (raise_notice n (fst x)).
Proof. unfold raise_step. by destruct (raise_notice n (fst x)). Qed.

Lemma raise_all_spec l s : let s' := fst (raise_all l s) in
  (forall n, n ∈ l -> noticed s' n) /\ exists more, notices s' = notices s ++ more.
Proof.
  unfold raise_all. assert (forall x, let s' := fst (fold_left raise_step l x) in
    (forall n, n ∈ l -> noticed s' n) /\ exists more, notices s' = notices (fst x) ++ more) as H; [|apply (H (s, []))].
  induction l as [|n l IH]; intros x; cbn [fold_left]; [split; [by intros n ?%elem_of_nil|exists []; by rewrite app_nil_r]|].
  destruct (IH (raise_step x n)) as [H1 [more H2]]. rewrite raise_step_store in H2.
  destruct (raise_notice_spec (fst x) n) as [H3 [one H4]]. rewrite H4 in H2. split; [|exists (one ++ more); by rewrite app_assoc].
  intros m [->|Hm]%elem_of_cons; [|by apply H1]. eapply noticed_more; [|exact H3]. by rewrite H2, H4.
Qed.

Lemma raise_all_known l s : (forall n, n ∈ l -> noticed s n) -> raise_all l s = (s, []).
Proof.
  unfold raise_all. induction l as [|n l IH]; intros Hl; cbn [fold_left]; [done|].
  unfold raise_step at 2. cbn [fst snd]. rewrite raise_known by (apply Hl; left). apply IH. intros m Hm. apply Hl. by right.
Qed.

(** What a tick says of a run. *)
Definition gone (live : list string) (r : AutomationRun) : Prop :=
  exists p, session_path r = Some p /\ (p ∉ live).

Lemma live_iff (live : list string) p : existsb (fun l => String.eqb l p) live = true <-> p ∈ live.
Proof.
  rewrite existsb_exists. split; [intros (x & Hx & ->%String.eqb_eq); by apply list_elem_of_In|].
  intros Hp. exists p. split; [by apply list_elem_of_In|by apply String.eqb_eq].
Qed.

Lemma book_run_spec a live reaped now r : let '(r', shut, _) := book_run a live reaped now r in
  (is_open r = false \/ ~ gone live r) /\ r' = r /\ shut = [] \/
  (exists p, is_open r = true /\ session_path r = Some p /\ (p ∉ live) /\ r' = closed now (why_gone reaped p) r
     /\ shut = [(run_id r, why_gone reaped p)]).
Proof.
  unfold book_run. destruct (is_open r) eqn:Eo; cbn [negb]; [|left; split; [by left|done]].
  destruct (session_path r) as [p|] eqn:Ep; [|left; split; [right; intros (q & Hq & _); congruence|done]].
  destruct (existsb _ live) eqn:El; cbn [negb].
  - apply live_iff in El. destruct (run_has_passed_deadline _ _ _);
      (left; split; [right; intros (q & Hq & Hn); congruence|done]).
  - right. exists p. split; [done|]. split; [done|]. split; [|done]. intros H%live_iff. congruence.
Qed.

(** A booked run is booked already. *)
Lemma book_run_again a live reaped reaped' now last l r : let '(r', _, late) := book_run a live reaped now r in
  book_run (with_runs last l a) live reaped' now r' = (r', [], late).
Proof.
  unfold book_run. destruct (is_open r) eqn:Eo; cbn [negb]; [|by rewrite Eo].
  destruct (session_path r) as [p|] eqn:Ep; [|by rewrite Eo, Ep].
  destruct (existsb _ live) eqn:El; cbn [negb].
  - destruct (run_has_passed_deadline r (deadline_secs a) now) eqn:Ed; rewrite Eo, Ep, El; cbn; by rewrite Ed.
  - unfold is_open, closed. cbn. by rewrite andb_false_r.
Qed.

Definition pass_runs live reaped now (a : Automation) := map (book_run a live reaped now) (runs a).

Lemma bookkeeping_unfold live reaped now s : bookkeeping_pass live reaped now s =
  let all := flat_map (pass_runs live reaped now) (automations s) in
  let '(s', raised) := raise_all (flat_map snd all) (mkStore (map (booked_automation live reaped now) (automations s)) (notices s)) in
  (s', mkBooks (flat_map (fun x => snd (fst x)) all) raised).
Proof.
  unfold bookkeeping_pass. rewrite map_map.
  assert (flat_map snd (map (fun a => (a, map (book_run a live reaped now) (runs a))) (automations s))
          = flat_map (pass_runs live reaped now) (automations s)) as ->.
  { induction (automations s) as [|a l IH]; [done|]. cbn. by rewrite IH. }
  assert (map (fun a => with_runs (last_run_at_ms a) (map booked (map (book_run a live reaped now) (runs a))) a) (automations s)
          = map (booked_automation live reaped now) (automations s)) as ->; [|done].
  apply map_ext. intros a. unfold booked_automation. by rewrite map_map.
Qed.

Lemma pass_again live reaped reaped' now l :
  flat_map (fun x => snd (fst x)) (flat_map (pass_runs live reaped' now) (map (booked_automation live reaped now) l)) = [] /\
  flat_map snd (flat_map (pass_runs live reaped' now) (map (booked_automation live reaped now) l))
    = flat_map snd (flat_map (pass_runs live reaped now) l) /\
  map (booked_automation live reaped' now) (map (booked_automation live reaped now) l) = map (booked_automation live reaped now) l.
Proof.
  assert (forall a, pass_runs live reaped' now (booked_automation live reaped now a)
    = map (fun x => (booked x, [], snd x)) (pass_runs live reaped now a)) as Hp.
  { intros a. unfold pass_runs. cbn [runs booked_automation with_runs]. rewrite !map_map. apply map_ext. intros r.
    pose proof (book_run_again a live reaped reaped' now (last_run_at_ms a)
      (map (fun r => booked (book_run a live reaped now r)) (runs a)) r) as H.
    unfold booked_automation, booked. by destruct (book_run a live reaped now r) as [[r' shut] late]. }
  induction l as [|a l (IH1 & IH2 & IH3)]; [done|]. cbn [map flat_map]. rewrite !flat_map_app, Hp, IH1, IH2, IH3.
  split; [|split].
  - rewrite app_nil_r. by induction (pass_runs live reaped now a).
  - f_equal. induction (pass_runs live reaped now a) as [|x xs IH]; [done|]. cbn. by rewrite IH.
  - f_equal. unfold booked_automation at 1. unfold with_runs at 1. 
    assert (map (fun r => booked (book_run (booked_automation live reaped now a) live reaped' now r)) (runs (booked_automation live reaped now a))
      = runs (booked_automation live reaped now a)) as ->; [|done].
    rewrite <- (map_map (book_run (booked_automation live reaped now a) live reaped' now) booked).
    change (map booked (pass_runs live reaped' now (booked_automation live reaped now a)) = runs (booked_automation live reaped now a)).
    rewrite Hp, map_map. cbn. unfold pass_runs. by rewrite map_map.
Qed.

Definition late_notice (a : Automation) (now : N) (r : AutomationRun) (p : string) : AutomationNotice :=
  mkNotice (run_id r) (id a) RunOverdue now (StillRunning ((now - started_at_ms r) / 1000) (deadline_secs a)) (Some p).

Lemma book_run_late a live reaped now r p : is_open r = true -> session_path r = Some p -> p ∈ live ->
  run_has_passed_deadline r (deadline_secs a) now = true -> late_notice a now r p ∈ snd (book_run a live reaped now r).
Proof. unfold book_run. intros -> -> ->%live_iff ->. cbn. by left. Qed.

Lemma elem_of_late live reaped now l n : n ∈ flat_map snd (flat_map (pass_runs live reaped now) l) <->
  exists a r, a ∈ l /\ r ∈ runs a /\ n ∈ snd (book_run a live reaped now r).
Proof.
  rewrite list_elem_of_In, in_flat_map. setoid_rewrite in_flat_map. unfold pass_runs. setoid_rewrite in_map_iff.
  setoid_rewrite <- list_elem_of_In. naive_solver.
Qed.

Lemma why_gone_spec reaped p : match why_gone reaped p with
  | EphemeralIdleTtl => (p, IdleTtl) ∈ reaped
  | EphemeralOwnerGone => (p, OwnerGone) ∈ reaped
  | User => p ∉ map fst reaped
  | Never => False
  end.
Proof.
  unfold why_gone. induction reaped as [|[q why] l IH]; cbn; [apply not_elem_of_nil|].
  destruct (String.eqb_spec q p) as [->|Hne]; [destruct why; left|]. 
  destruct (List.find _ l) as [[q' []]|]; [by right|by right|]. apply not_elem_of_cons. by split; [congruence|].
Qed.

Lemma booked_live live reaped now s a r : a ∈ map (booked_automation live reaped now) (automations s) -> r ∈ runs a ->
  is_open r = true -> exists p, session_path r = Some p /\ p ∈ live.
Proof.
  intros (b & -> & Hb)%list_elem_of_fmap Hr Ho. cbn in Hr. apply list_elem_of_fmap in Hr as (x & -> & Hx).
  pose proof (book_run_spec b live reaped now x) as H. unfold booked in *. destruct (book_run b live reaped now x) as [[r' shut] late].
  cbn in Ho |- *. destruct H as [([Hc|Hg] & -> & _)|(p & _ & _ & _ & -> & _)]; [congruence| |].
  - unfold is_open in Ho. destruct (session_path x) as [p|] eqn:Ep; [|done]. exists p. split; [done|].
    destruct (decide (p ∈ live)); [done|]. exfalso. apply Hg. by exists p.
  - unfold is_open, closed in Ho. cbn in Ho. by rewrite andb_false_r in Ho.
Qed.

(** C23: a tick closes exactly the open runs whose session is gone, with the reaper's own reason for it and
    with the user's when the reaper did not act; a run whose session lives is left as it is, whatever its
    deadline.  Afterwards every open run has a live session, no notice has been lost, every run that is late
    has one, and the same tick again changes nothing. *)
Theorem bookkeeping_settles live reaped now s :
  let s' := fst (bookkeeping_pass live reaped now s) in
  Forall2 (fun a a' => exists l, a' = with_runs (last_run_at_ms a) l a /\ Forall2 (fun r r' =>
    (is_open r = false \/ ~ gone live r) /\ r' = r \/
    exists p why, is_open r = true /\ session_path r = Some p /\ (p ∉ live) /\ r' = closed now why r /\
      match why with
      | EphemeralIdleTtl => (p, IdleTtl) ∈ reaped
      | EphemeralOwnerGone => (p, OwnerGone) ∈ reaped
      | User => p ∉ map fst reaped
      | Never => False
      end) (runs a) l) (automations s) (automations s') /\
  (forall a r, a ∈ automations s' -> r ∈ runs a -> is_open r = true -> exists p, session_path r = Some p /\ p ∈ live) /\
  (exists more, notices s' = notices s ++ more) /\
  (forall a r, a ∈ automations s' -> r ∈ runs a -> run_has_passed_deadline r (deadline_secs a) now = true ->
     exists n, n ∈ notices s' /\ notice_run n = run_id r /\ notice_kind n = RunOverdue) /\
  (forall reaped', bookkeeping_pass live reaped' now s' = (s', mkBooks [] [])).
Proof.
  cbv zeta. pose proof (bookkeeping_automations live reaped now s) as Ea. rewrite Ea.
  pose proof (booked_live live reaped now s) as Hlive.
  split; [|split; [exact Hlive|]].
  - clear. induction (automations s) as [|a l IH]; cbn; constructor; [|done].
    eexists. split; [done|]. induction (runs a) as [|r rs IHr]; cbn; constructor; [|done].
    pose proof (book_run_spec a live reaped now r) as H. unfold booked. destruct (book_run a live reaped now r) as [[r' shut] late].
    destruct H as [(H & -> & _)|(p & Ho & Hp & Hn & -> & _)]; [by left|]. right. exists p, (why_gone reaped p).
    split; [done|]. split; [done|]. split; [done|]. split; [done|]. apply why_gone_spec.
  - pose proof (bookkeeping_unfold live reaped now s) as E. cbv zeta in E.
    set (late := flat_map snd (flat_map (pass_runs live reaped now) (automations s))) in *.
    set (s0 := mkStore _ (notices s)) in *. pose proof (raise_all_spec late s0) as [H1 H2].
    pose proof (raise_all_automations late s0) as H3. destruct (raise_all late s0) as [s' raised]. rewrite E. cbn [fst] in *.
    split; [exact H2|]. split.
    + intros a r Ha Hr Hd. assert (Ho : is_open r = true) by (unfold run_has_passed_deadline in Hd; by apply andb_true_iff in Hd as [? _]).
      destruct (Hlive a r Ha Hr Ho) as (p & Hp & Hl). apply list_elem_of_fmap in Ha as (b & -> & Hb).
      cbn in Hr. apply list_elem_of_fmap in Hr as (x & -> & Hx). apply book_run_open in Ho as Hsame. destruct Hsame as [_ Ex].
      rewrite Ex in *. cbn in Hd. destruct (H1 (late_notice b now x p)) as (m & Hm & Hm1 & Hm2); [|by exists m].
      apply elem_of_late. exists b, x. split; [done|]. split; [done|]. apply book_run_late; [|done|done|done].
      unfold run_has_passed_deadline in Hd. by apply andb_true_iff in Hd as [? _].
    + intros reaped'. rewrite bookkeeping_unfold. cbv zeta. rewrite H3.
      destruct (pass_again live reaped reaped' now (automations s)) as (P1 & P2 & P3). cbn [automations s0].
      rewrite P1, P2, P3. assert (s' = mkStore (map (booked_automation live reaped now) (automations s)) (notices s')) as <- by
        (destruct s'; cbn in *; by rewrite H3).
      by rewrite raise_all_known.
Qed.

(** * Every so many weeks *)

(** The weeks since Monday the fifth of January 1970, on the local calendar. *)
Definition week_of (t : N) (off : Z) : Z := (((Z.of_N (t / 1000) + off) / 86400 - 4) / 7)%Z.

(** A search takes at most eight days to the next candidate, and looks at sixty-four. *)
Definition SEARCH_MS : N := 64 * 691200000.

Section EveryN.
Context `{TL : TimeLaws} (off : Z).
Context (Hoff : valid_offset off = true).

Lemma week_exact t : t <= LAST_MS -> (0 <= week_of t off)%Z -> iso_week_number t off = Some (Z.to_N (week_of t off)).
Proof.
  intros Ht Hw. destruct (date_of_now off Hoff t Ht) as (d & Hd & Hrange & Ed). unfold iso_week_number. rewrite Hd. cbn.
  rewrite days_since_day, Ed. change ((((Z.of_N (t / 1000) + off) / 86400 - 4) / 7)%Z) with (week_of t off).
  assert (week_of t off <= 2379900)%Z by (unfold week_of in *; rewrite <- Ed; apply Z.div_le_upper_bound; lia).
  rewrite (proj2 (Z.leb_le 0 _)) by done. by rewrite (proj2 (Z.leb_le _ (Z.of_N u32_max))) by (change (Z.of_N u32_max) with 4294967295%Z; lia).
Qed.

Lemma week_of_nonneg t : 604800000 <= t -> (0 <= week_of t off)%Z.
Proof.
  intros Ht. pose proof (valid_offset_bound off Hoff). assert (604800 <= t / 1000) by (apply N.div_le_lower_bound; lia).
  unfold week_of. apply Z.div_pos; [|done]. assert (4 <= (Z.of_N (t / 1000) + off) / 86400)%Z; [|lia].
  apply Z.div_le_lower_bound; lia.
Qed.

Lemma next_within e now : well_formed e -> now <= LAST_MS ->
  exists t, next_occurrence_after e now off = Some t /\ occurs e off t /\ now < t <= now + 691200000 /\
    forall u, occurs e off u -> now < u -> t <= u.
Proof.
  intros Hwf Hn. destruct (next_exact e off Hwf Hoff now Hn) as (t & Ht & Ho & Hlt & Hmin).
  exists t. split; [done|]. split; [done|]. split; [|done]. split; [done|].
  destruct (date_of_now off Hoff now Hn) as (d & Hd & Hrange & Ed).
  destruct (week_matches e off Hwf Hoff (day d + 1)) as (i & Hi & Hm).
  pose proof (proj2 (day_order e off Hwf Hoff now d (day d + 1 + i) Ed)) as Hgt.
  assert (Hb : (day_ms e off (day d + 1 + i) <= Z.of_N now + 691200000)%Z).
  { destruct Hwf as (_ & _ & Hh & Hmi & Hse). unfold day_ms.
    pose proof (Z.div_mod (Z.of_N (now / 1000) + off) 86400). pose proof (Z.mod_pos_bound (Z.of_N (now / 1000) + off) 86400).
    pose proof (N.div_mod now 1000). rewrite <- Ed in *. nia. }
  assert (t <= Z.to_N (day_ms e off (day d + 1 + i))) as Hle; [|lia].
  apply Hmin; [exists (day d + 1 + i)%Z; split; [done|lia]|lia].
Qed.

Lemma honoured_within_spec a fuel cursor t : well_formed (calendar a) -> cursor + N.of_nat fuel * 691200000 <= LAST_MS ->
  honoured_within fuel a cursor off = Some t ->
  occurs (calendar a) off t /\ cursor < t /\ cadence_honours a t off = true /\
  forall u, occurs (calendar a) off u -> cursor < u < t -> cadence_honours a u off = false.
Proof.
  intros Hwf. revert cursor. induction fuel as [|fuel IH]; intros cursor Hb; [done|]. cbn [honoured_within].
  destruct (next_within (calendar a) cursor Hwf) as (c & -> & Ho & Hc & Hmin); [lia|]. cbn [mbind option_bind].
  destruct (cadence_honours a c off) eqn:E.
  - intros [= <-]. split; [done|]. split; [lia|]. split; [done|]. intros u Hu Hlt. specialize (Hmin u Hu). lia.
  - intros Ht. apply IH in Ht as (H1 & H2 & H3 & H4); [|lia]. split; [done|]. split; [lia|]. split; [done|].
    intros u Hu Hlt. destruct (decide (u = c)) as [->|]; [done|]. apply H4; [done|]. pose proof (Hmin u Hu). lia.
Qed.

Lemma anchored_week now a first : next_occurrence_after (calendar a) now off = Some first ->
  anchor_week (anchored now off a) = default 0 (iso_week_number first off).
Proof. intros E. unfold anchored. cbn. by rewrite E. Qed.

Lemma mod_eq_divide (a b n : Z) : (0 < n)%Z -> (a mod n = b mod n)%Z <-> (n | a - b)%Z.
Proof.
  intros Hn. split; [intros E|intros [k Hk]].
  - apply Z.mod_divide; [lia|]. by rewrite Zminus_mod, E, Z.sub_diag, Z.mod_0_l by lia.
  - replace a with (b + k * n)%Z by lia. by rewrite Z_mod_plus_full.
Qed.

End EveryN.

(** C27: an automation that has just been created works on the first instant of its schedule, and from then
    on exactly in the weeks that are a multiple of its number of weeks away; the next working instant that is
    shown is a working one, and none lies before it. *)
Theorem cadence_counts_weeks `{TL : TimeLaws} a now off (Hwf : well_formed (calendar a)) (Hoff : valid_offset off = true)
    (Hnow : 604800000 <= now) (Hlast : now + SEARCH_MS <= LAST_MS) (Hn : 1 <= every_n_weeks a) :
  let b := anchored now off a in
  exists first, next_honoured_run_after b now off = Some first /\
    occurs (calendar a) off first /\ now < first /\ (forall u, occurs (calendar a) off u -> now < u -> first <= u) /\
    (forall t, now < t <= LAST_MS ->
       cadence_honours b t off = true <-> (Z.of_N (every_n_weeks a) | week_of t off - week_of first off)%Z) /\
    (forall after t, after + SEARCH_MS <= LAST_MS -> next_honoured_run_after b after off = Some t ->
       occurs (calendar a) off t /\ after < t /\ cadence_honours b t off = true /\
       forall u, occurs (calendar a) off u -> after < u < t -> cadence_honours b u off = false).
Proof.
  intros b. unfold SEARCH_MS in *. destruct (next_within off Hoff (calendar a) now Hwf) as (first & Ef & Ho & Hf & Hmin); [lia|].
  assert (Hcad : forall t, now < t <= LAST_MS ->
       cadence_honours b t off = true <-> (Z.of_N (every_n_weeks a) | week_of t off - week_of first off)%Z).
  { intros t Ht. unfold cadence_honours. change (every_n_weeks b) with (every_n_weeks a).
    pose proof (week_of_nonneg off Hoff t) as Hw. pose proof (week_of_nonneg off Hoff first) as Hw1.
    destruct (N.leb_spec (every_n_weeks a) 1) as [H1|H1].
    { assert (every_n_weeks a = 1) as -> by lia. split; [intros _; apply Z.divide_1_l|done]. }
    rewrite (week_exact off Hoff t) by lia. unfold b. rewrite (anchored_week off now a first Ef), (week_exact off Hoff first) by lia. change (default 0 (Some (Z.to_N (week_of first off)))) with (Z.to_N (week_of first off)).
    rewrite N.eqb_eq, <- mod_eq_divide by lia. rewrite <- (N2Z.inj_iff (_ mod _)), !N2Z.inj_mod, !Z2N.id by lia. done. }
  assert (Hh : forall after, next_honoured_run_after b after off = honoured_within 64 b after off) by done.
  exists first. split; [|split; [done|split; [lia|split; [done|split; [exact Hcad|]]]]].
  - rewrite Hh. cbn [honoured_within]. change (calendar b) with (calendar a). rewrite Ef. cbn [mbind option_bind].
    rewrite (proj2 (Hcad first ltac:(lia))); [done|]. rewrite Z.sub_diag. apply Z.divide_0_r.
  - intros after t Ha. rewrite Hh. apply (honoured_within_spec off Hoff b 64); [exact Hwf|lia].
Qed.

(** * An example, and what the code does not do *)

Module Job.

#[local] Existing Instance Civil.time.
#[local] Existing Instance Civil.laws.

(** Every second Sunday at midnight. *)
Definition job : Automation :=
  mkAutomation "infra" true ClaudeCode "local" None (chars "go") Civil.sundays 2 2921 21600 1800 21600 false None 0 None [].

Definition opens (_ : unit) : result string string := Ok "live://1"%string.
Definition lands (_ : string) (_ : text) : option string := None.

(** Sunday the fourth of January 2026, at three. *)
Definition sunday : N := 1767484800000.
Definition three : N := sunday + 10800000.

Definition run_of (r : Automation * RunReport * list Call) : Automation := fst (fst r).

Example a_sunday_runs : let '(_, report, calls) := execute_run false three 0 (opens tt) lands job in
  r_outcome report = Ran /\ calls = [OpenSession; Inject "live://1"%string (chars "go")].
Proof. by vm_compute. Qed.

(** A fire one millisecond early belongs to the week before, and is skipped as a week late. *)
Example early_is_skipped : let '(_, report, calls) := execute_run false (sunday - 1) 0 (opens tt) lands job in
  r_outcome report = SkippedOutOfGrace /\ calls = [].
Proof. by vm_compute. Qed.

(** Twenty skips push the open run out of the record: the next run opens a second session. *)
Fixpoint skips (n : nat) (a : Automation) : Automation :=
  match n with O => a | S n => skips n (run_of (execute_run false (three + 86400000) 0 (opens tt) lands a)) end.

Example open_run_forgotten :
  let a := run_of (execute_run false three 0 (opens tt) lands job) in
  is_Some_b (open_run a) = true /\
  snd (execute_run false (three + 14 * 86400000) 0 (opens tt) lands a) = [Inject "live://1"%string (chars "go")] /\
  snd (execute_run false (three + 14 * 86400000) 0 (opens tt) lands (skips 20 a)) = [OpenSession; Inject "live://1"%string (chars "go")].
Proof. by vm_compute. Qed.

(** Sixty-four candidates are nine weeks of a daily schedule. *)
Definition every_eleven_weeks : Automation :=
  anchored three 0 (mkAutomation "infra" true ClaudeCode "local" None (chars "go") (mkCalendar [] 0 0 0) 11 0 21600 1800 21600
                      false None 0 None []).

Example next_working_day_not_found : next_honoured_run_after every_eleven_weeks (three + 7 * 86400000) 0 = None.
Proof. by vm_compute. Qed.

(** A notice that is dismissed while its run is still open comes back with the next tick. *)
Definition late_store : AutomationStore :=
  fst (bookkeeping_pass ["live://1"%string] [] (three + 40000000)
         (mkStore [run_of (execute_run false three 0 (opens tt) lands job)] [])).

Example dismissed_comes_back :
  let after := fst (dismiss_notice (run_id_of job sunday) late_store) in
  length (notices late_store) = 1%nat /\ notices after = [] /\
  length (notices (fst (bookkeeping_pass ["live://1"%string] [] (three + 40001000) after))) = 1%nat.
Proof. by vm_compute. Qed.

(** A run saves the store it loaded before it opened its session: what was created meanwhile is lost. *)
Definition new_args : list string := ["automation"; "create"; "--id"; "notes"; "--machine-key"; "local"]%string.

Definition stored : AutomationStore := mkStore [job] [].

Definition created : AutomationStore :=
  match verb_create new_args (Ok (Some (chars "go"))) three 0 stored with Ok s => s | Err _ => empty_store end.

Example created_meanwhile_is_lost :
  map id (automations created) = ["infra"; "notes"]%string /\
  (map id ∘ automations) <$> fst (fst (verb_run "infra" false three 0 (opens tt) lands stored)) = Some ["infra"%string].
Proof. by vm_compute. Qed.

(** ** The theorems at work *)

Definition first_store : AutomationStore :=
  match verb_create new_args (Ok (Some (chars "go"))) three 0 empty_store with Ok s => s | Err _ => empty_store end.

Definition second_store : AutomationStore :=
  default empty_store (fst (fst (verb_run "notes" true three 0 (opens tt) lands first_store))).

Lemma second_reachable : reachable second_store.
Proof.
  apply (reachable_step first_store [OpenSession; Inject "live://1"%string (chars "go")]).
  - apply (reachable_step empty_store []); [apply reachable_empty|].
    apply (step_create new_args (Ok (Some (chars "go"))) three 0). by vm_compute.
  - eapply (step_run "notes" true three 0 (opens tt) lands). by vm_compute.
Qed.

Lemma one_session_at_a_time_witness :
  (reachable second_store /\ length (automations second_store) = 1%nat) /\
  NoDup (map id (automations second_store)).
Proof.
  split; [split; [exact second_reachable|by vm_compute]|]. exact (proj1 (one_session_at_a_time second_store second_reachable)).
Defined.

Lemma sunday_is_latest : occurs Civil.sundays 0 sunday /\ sunday <= three /\
  forall u, occurs Civil.sundays 0 u -> u <= three -> u <= sunday.
Proof.
  apply (previous_exact Civil.sundays 0 ltac:(repeat constructor; cbn; lia) eq_refl); [vm_compute; discriminate|by vm_compute].
Qed.

Lemma a_run_acts_when_it_is_due_witness :
  (occurs Civil.sundays 0 sunday /\ sunday <= three) /\
  (snd (execute_run false three 0 (opens tt) lands job) <> [] <->
     false = true \/ three - sunday <= sat_mul 21600 1000 /\ cadence_honours job sunday 0 = true).
Proof.
  destruct sunday_is_latest as (Ho & Hle & Hmax). split; [by split|].
  pose proof (a_run_acts_when_it_is_due false three 0 (opens tt) lands job sunday ltac:(repeat constructor; cbn; lia) eq_refl
    ltac:(vm_compute; discriminate) Ho Hle Hmax) as Hx.
  destruct (execute_run false three 0 (opens tt) lands job) as [[a' report] calls]. exact (proj1 Hx).
Defined.

Lemma cadence_counts_weeks_witness :
  (well_formed (calendar job) /\ 604800000 <= three /\ three + SEARCH_MS <= LAST_MS /\ 1 <= every_n_weeks job) /\
  exists first, next_honoured_run_after (anchored three 0 job) three 0 = Some first /\ three < first.
Proof.
  assert (Hwf : well_formed (calendar job)) by (repeat constructor; cbn; lia).
  assert (H1 : 604800000 <= three) by (vm_compute; discriminate). assert (H2 : three + SEARCH_MS <= LAST_MS) by (vm_compute; discriminate).
  assert (H3 : 1 <= every_n_weeks job) by (vm_compute; discriminate). split; [done|].
  assert (H4 : valid_offset 0%Z = true) by reflexivity.
  destruct (cadence_counts_weeks job three 0 Hwf H4 H1 H2 H3) as (first & Hf & _ & Hlt & _). by exists first.
Defined.

End Job.
