(* ===== verification/AutomationUnits.v ===== *)
(** * The timers of automations

    src/crates/yggterm-server/src/automation_units.rs, with [sync_one] and the [sync] verb of
    src/crates/yggterm-server/src/automation_cli.rs: the unit files an automation generates, what is told of
    a file on disk, and the synchronisation of the unit directory with the store.

    The directory is a map from file names to contents, [None] where a file is not UTF-8; [io] says of
    each file what becomes of writing it, and whether it can be removed.  A write empties the file first, so
    one that breaks leaves a part of what it wrote; the directory is created before, and failing there is to
    be refused. *)
From stdpp Require Import gmap.
From S2P Require Import Prelude RustStr RustChar RustText AgentRegistry AgentLaunch SessionTenancy Calendar Automation.
From Stdlib Require Import ZifyBool ZifyN.
#[local] Open Scope N_scope.
#[local] Open Scope list_scope.

Definition GENERATED_HEADER : text := chars "# GENERATED BY yggterm " ++ [8212] ++ chars " do not edit.".
Definition FINGERPRINT_PREFIX : text := chars "# yggterm-automation-fingerprint: ".

Record GeneratedUnit := mkUnit { path : text; contents : text }.

Inductive UnitState := UpToDate | Missing | Stale | HandEdited.

#[export] Instance UnitState_eq_dec : EqDecision UnitState.
Proof. solve_decision. Defined.

(** [str::lines] on a text. *)
Definition chop_cr_text (l : text) : text :=
  match last l with Some c => if c =? 13 then take (length l - 1) l else l | None => l end.

Fixpoint chop_text_lines (l : list text) : list text :=
  match l with
  | [] => []
  | [x] => if non_empty x then [x] else []
  | x :: l' => chop_cr_text x :: chop_text_lines l'
  end.

Definition text_lines (t : text) : list text := chop_text_lines (split_text 10 t).

(** ** The fingerprint *)

Definition hex_digit (d : N) : N := if d <? 10 then 48 + d else 87 + d.

(** [{:016x}]. *)
Fixpoint hex_of (digits : nat) (n : N) : text :=
  match digits with O => [] | S k => hex_of k (n / 16) ++ [hex_digit (n mod 16)] end.

Definition fnv_step (hash byte : N) : N := N.lxor hash byte * 1099511628211 mod 2 ^ 64.

Definition bool_text (b : bool) : text := if b then chars "true" else chars "false".

Definition record_fingerprint (a : Automation) : text :=
  let material := chars (id a) ++ [31] ++ bool_text (enabled a) ++ [31] ++ to_on_calendar (calendar a) ++ [31]
                  ++ show_uint (every_n_weeks a) ++ [31] ++ show_uint (anchor_week a) ++ [31] ++ show_uint (grace_secs a) in
  hex_of 16 (fold_left fnv_step material 14695981039346656037).

(** [Iterator::find_map]. *)
Fixpoint first_some {A B} (f : A -> option B) (l : list A) : option B :=
  match l with [] => None | x :: l' => match f x with Some y => Some y | None => first_some f l' end end.

Definition fingerprint_in (contents : text) : option text :=
  trim_text <$> first_some (fun line => strip_text FINGERPRINT_PREFIX (trim_text line)) (text_lines contents).

Definition is_generated (contents : text) : bool :=
  existsb (fun line => bool_decide (trim_text line = GENERATED_HEADER)) (text_lines contents).

(** ** The units *)

Definition UNIT_PREFIX : text := chars "yggterm-automation-".

Definition service_unit_name (i : string) : text := UNIT_PREFIX ++ text_of i ++ chars ".service".
Definition timer_unit_name (i : string) : text := UNIT_PREFIX ++ text_of i ++ chars ".timer".

Definition unlines_text (l : list text) : text := flat_map (fun line => line ++ [10]) l.

Definition systemd_units (a : Automation) (exe : text) : list GeneratedUnit :=
  let fingerprint := record_fingerprint a in
  let i := text_of (id a) in
  let description := match title a with Some t => text_of t | None => chars "yggterm automation " ++ i end in
  let source := chars "# Source of truth: ~/.yggterm/automations.json (automation " ++ i ++ chars ")." in
  let service := unlines_text [
    GENERATED_HEADER;
    FINGERPRINT_PREFIX ++ fingerprint;
    source;
    chars "# Edit with `yggterm-headless automation edit " ++ i ++ chars "`, then `automation sync`.";
    [];
    chars "[Unit]";
    chars "Description=" ++ description;
    [];
    chars "[Service]";
    chars "Type=oneshot";
    chars "ExecStart=" ++ exe ++ chars " automation run " ++ i] in
  let timer := unlines_text [
    GENERATED_HEADER;
    FINGERPRINT_PREFIX ++ fingerprint;
    source;
    [];
    chars "[Unit]";
    chars "Description=" ++ description ++ chars " (timer)";
    [];
    chars "[Timer]";
    chars "OnCalendar=" ++ to_on_calendar (calendar a);
    chars "Persistent=true";
    chars "AccuracySec=1min";
    chars "Unit=" ++ service_unit_name (id a);
    [];
    chars "[Install]";
    chars "WantedBy=timers.target"] in
  [mkUnit (service_unit_name (id a)) service; mkUnit (timer_unit_name (id a)) timer].

(** ** What is told of a file *)

Definition unit_state (expected : GeneratedUnit) (on_disk : option text) : UnitState :=
  match on_disk with
  | None => Missing
  | Some actual =>
      if negb (is_generated actual) then HandEdited
      else match fingerprint_in actual with
      | None => HandEdited
      | Some stamped =>
          match fingerprint_in (contents expected) with
          | None => Stale
          | Some fingerprint =>
              if negb (bool_decide (stamped = fingerprint)) then Stale
              else if bool_decide (trim_text actual = trim_text (contents expected)) then UpToDate else HandEdited
          end
      end
  end.

Definition reconcile (a : Automation) (exe : text) (read : text -> option text) : list (text * UnitState) :=
  map (fun expected => (path expected, unit_state expected (read (path expected)))) (systemd_units a exe).

Definition orphaned_units (live_ids : list string) (present : list (text * text)) : list text :=
  let claimed := flat_map (fun i => [service_unit_name i; timer_unit_name i]) live_ids in
  omap (fun '(name, contents) =>
    if is_generated contents && negb (bool_decide (name ∈ claimed)) then Some name else None) present.

(** ** Synchronisation *)

(** The unit directory. *)
Abbreviation UnitDir := (gmap text (option text)).

Definition read_file (disk : UnitDir) (p : text) : option text := mjoin (disk !! p).

(** What [sync_one] answers; a failed write stops it. *)
Inductive SyncAnswer :=
  | Removed (paths : list text)
  | LeftAlone (hand_edited : list text)
  | Written (paths : list text) (states_before : list UnitState).

(** What becomes of a write; [mid_char] is a break inside a character.  Only [IoDone] files can be removed. *)
Inductive FileOutcome := IoDone | IoRefused | IoBroken (kept : nat) (mid_char : bool).

Definition can (io : text -> FileOutcome) (p : text) : bool :=
  match io p with IoDone => true | _ => false end.

Definition broken_file (kept : nat) (mid_char : bool) (t : text) : option text :=
  if mid_char then None else Some (take kept t).

Fixpoint write_units (io : text -> FileOutcome) (units : list GeneratedUnit) (disk : UnitDir) : UnitDir * result unit text :=
  match units with
  | [] => (disk, Ok tt)
  | u :: units' =>
      match io (path u) with
      | IoDone => write_units io units' (<[path u := Some (contents u)]> disk)
      | IoRefused => (disk, Err (path u))
      | IoBroken kept mid_char => (<[path u := broken_file kept mid_char (contents u)]> disk, Err (path u))
      end
  end.

Definition remove_file (io : text -> FileOutcome) (disk : UnitDir) (p : text) : UnitDir := if can io p then delete p disk else disk.

(** The loop over the units of a disabled automation. *)
Definition remove_step (io : text -> FileOutcome) (x : UnitDir * list text) (u : GeneratedUnit) : UnitDir * list text :=
  if is_generated (default [] (read_file (fst x) (path u))) then (remove_file io (fst x) (path u), snd x ++ [path u]) else x.

Definition sync_one (io : text -> FileOutcome) (a : Automation) (exe : text) (disk : UnitDir) : UnitDir * result SyncAnswer text :=
  let reports := reconcile a exe (read_file disk) in
  let hand_edited := omap (fun '(p, state) => if bool_decide (state = HandEdited) then Some p else None) reports in
  let expected := systemd_units a exe in
  if negb (enabled a) then
    let '(disk', removed) := fold_left (remove_step io) expected (disk, []) in (disk', Ok (Removed removed))
  else match hand_edited with
  | _ :: _ => (disk, Ok (LeftAlone hand_edited))
  | [] => match write_units io expected disk with
          | (disk', Ok _) => (disk', Ok (Written (map path expected) (map snd reports)))
          | (disk', Err p) => (disk', Err p)
          end
  end.

Fixpoint sync_all (io : text -> FileOutcome) (l : list Automation) (exe : text) (disk : UnitDir) : UnitDir * result (list SyncAnswer) text :=
  match l with
  | [] => (disk, Ok [])
  | a :: l' =>
      match sync_one io a exe disk with
      | (disk', Err p) => (disk', Err p)
      | (disk', Ok answer) =>
          match sync_all io l' exe disk' with
          | (disk'', Ok answers) => (disk'', Ok (answer :: answers))
          | (disk'', Err p) => (disk'', Err p)
          end
      end
  end.

Definition starts_with_text (p t : text) : bool := is_Some_b (strip_text p t).

(** The readable files with a name of ours. *)
Definition present (disk : UnitDir) : list (text * text) :=
  omap (fun '(name, file) => if starts_with_text UNIT_PREFIX name then contents ← file; Some (name, contents) else None) (map_to_list disk).

(** The [sync] verb: the orphans and what was pruned. *)
Definition verb_sync (io : text -> FileOutcome) (prune : bool) (exe : text) (s : AutomationStore) (disk : UnitDir)
    : UnitDir * result (list SyncAnswer * list text * list text) text :=
  match sync_all io (automations s) exe disk with
  | (disk', Err p) => (disk', Err p)
  | (disk', Ok answers) =>
      let live_ids := map id (List.filter enabled (automations s)) in
      let orphans := orphaned_units live_ids (present disk') in
      if prune then (fold_left (remove_file io) orphans disk', Ok (answers, orphans, List.filter (can io) orphans))
      else (disk', Ok (answers, orphans, []))
  end.

(** * Generated files are recognised *)

Lemma hex_of_chars k n : Forall (fun c => 48 <= c <= 102) (hex_of k n).
Proof.
  revert n. induction k as [|k IH]; intros n; cbn [hex_of]; [constructor|]. apply Forall_app. split; [apply IH|].
  constructor; [|constructor]. unfold hex_digit. pose proof (N.mod_lt n 16). case_match; lia.
Qed.

Lemma free_of_ws_hex t : Forall (fun c => 48 <= c <= 102) t -> free_of_ws t = true.
Proof.
  intros H. unfold free_of_ws. apply forallb_forall. intros c Hc. rewrite Forall_forall in H. specialize (H c).
  rewrite list_elem_of_In in H. specialize (H Hc). unfold is_whitespace, in_range. lia.
Qed.

Lemma text_lines_cons l t : 10 ∉ l -> text_lines (l ++ 10 :: t) = chop_cr_text l :: text_lines t.
Proof.
  intros Hl. unfold text_lines. rewrite (split_text_app 10 _ _ Hl). pose proof (split_text_nonempty 10 t) as H.
  by destruct (split_text 10 t).
Qed.

Lemma chop_cr_other l c : c <> 13 -> chop_cr_text (l ++ [c]) = l ++ [c].
Proof. intros Hc. unfold chop_cr_text. rewrite last_snoc. by destruct (N.eqb_spec c 13). Qed.

(** A text that opens with the header and a stamp. *)
Lemma stamped_reads fp rest : Forall (fun c => 48 <= c <= 102) fp -> fp <> [] ->
  let t := GENERATED_HEADER ++ 10 :: (FINGERPRINT_PREFIX ++ fp) ++ 10 :: rest in
  is_generated t = true /\ fingerprint_in t = Some fp.
Proof.
  intros Hfp Hne t. assert (text_lines t = GENERATED_HEADER :: (FINGERPRINT_PREFIX ++ fp) :: text_lines rest) as E.
  { unfold t. rewrite text_lines_cons by (vm_compute; set_solver). f_equal.
    assert (10 ∉ FINGERPRINT_PREFIX ++ fp).
    { apply not_elem_of_app. split; [vm_compute; set_solver|]. rewrite Forall_forall in Hfp. intros H%Hfp. lia. }
    rewrite text_lines_cons by done. f_equal. destruct fp as [|c fp _] using rev_ind; [done|].
    rewrite app_assoc, chop_cr_other; [done|]. apply Forall_app in Hfp as [_ Hc%Forall_inv]. lia. }
  unfold is_generated, fingerprint_in. rewrite E. split; [done|]. cbn [first_some].
  assert (strip_text FINGERPRINT_PREFIX (trim_text GENERATED_HEADER) = None) as -> by by vm_compute.
  pose proof (free_of_ws_hex fp Hfp) as Hws.
  assert (trim_text (FINGERPRINT_PREFIX ++ fp) = FINGERPRINT_PREFIX ++ fp) as ->.
  { apply trim_text_tight. unfold tight. destruct fp as [|c fp _] using rev_ind; [done|]. rewrite app_assoc, last_snoc.
    rewrite free_of_ws_app in Hws. apply andb_true_iff in Hws as [_ Hws]. cbn in Hws. rewrite andb_true_r in Hws.
    change (head ((FINGERPRINT_PREFIX ++ fp) ++ [c])) with (Some 35). by rewrite Hws. }
  rewrite strip_text_app. cbn. by rewrite trim_text_no_ws.
Qed.

Lemma units_read a exe u : u ∈ systemd_units a exe -> is_generated (contents u) = true /\
  fingerprint_in (contents u) = Some (record_fingerprint a).
Proof.
  assert (record_fingerprint a <> []) as Hne by by (unfold record_fingerprint; cbn [hex_of]; intros [_ ?]%app_eq_nil).
  assert (Forall (fun c => 48 <= c <= 102) (record_fingerprint a)) as Hfp by apply hex_of_chars.
  unfold systemd_units. cbv zeta. rewrite elem_of_cons, list_elem_of_singleton.
  intros [-> | ->]; cbn [contents unlines_text flat_map]; rewrite <- !app_assoc; cbn [app];
    rewrite app_assoc; apply (stamped_reads _ _ Hfp Hne).
Qed.

Lemma unit_settled a exe u : u ∈ systemd_units a exe -> unit_state u (Some (contents u)) = UpToDate.
Proof.
  intros Hu. destruct (units_read a exe u Hu) as [H1 H2]. unfold unit_state. rewrite H1, H2. cbn.
  by rewrite !bool_decide_eq_true_2.
Qed.

Lemma names_differ i j : service_unit_name i <> timer_unit_name j.
Proof.
  unfold service_unit_name, timer_unit_name. intros H%app_inv_head. apply (f_equal (fun l => last l)) in H.
  change (chars ".service") with (chars ".servic" ++ [101]) in H. change (chars ".timer") with (chars ".time" ++ [114]) in H.
  by rewrite !app_assoc, !last_snoc in H.
Qed.

Lemma unit_paths a exe : map path (systemd_units a exe) = [service_unit_name (id a); timer_unit_name (id a)].
Proof. done. Qed.

(** * What a synchronisation touches *)

(** A file that was generated. *)
Definition ours (file : option (option text)) : Prop :=
  match file with Some (Some t) => is_generated t = true | _ => False end.

(** No file at all, or one that cannot be read. *)
Definition unread (file : option (option text)) : Prop :=
  match file with Some (Some _) => False | _ => True end.

Lemma generated_read disk p : is_generated (default [] (read_file disk p)) = true <-> ours (disk !! p).
Proof. unfold read_file. by destruct (disk !! p) as [[t|]|]. Qed.

Lemma remove_file_lookup io disk p q : remove_file io disk p !! q = if bool_decide (p = q) && can io p then None else disk !! q.
Proof.
  unfold remove_file. destruct (can io p); rewrite ?andb_true_r, ?andb_false_r; [|done].
  case_bool_decide as E; [subst; by apply lookup_delete_eq|by apply lookup_delete_ne].
Qed.

Lemma remove_steps io us x : let disk' := fst (fold_left (remove_step io) us x) in
  (forall p, disk' !! p = fst x !! p \/ disk' !! p = None /\ p ∈ map path us /\ can io p = true /\ ours (fst x !! p)) /\
  (forall p, p ∈ map path us -> can io p = true -> ~ ours (disk' !! p)).
Proof.
  revert x. induction us as [|u us IH]; intros x; cbn [fold_left map]; [split; [by left|by intros p ?%elem_of_nil]|].
  destruct (IH (remove_step io x u)) as [H1 H2].
  assert (Hx : forall p, fst (remove_step io x u) !! p = fst x !! p \/
    fst (remove_step io x u) !! p = None /\ p = path u /\ can io p = true /\ ours (fst x !! p)).
  { intros p. unfold remove_step. destruct (is_generated _) eqn:E; [|by left]. apply generated_read in E. cbn.
    rewrite remove_file_lookup. case_bool_decide as Ep; [|by left]. subst. destruct (can io (path u)) eqn:Ec; [right|left]; done. }
  cbv zeta. split.
  - intros p. destruct (H1 p) as [E|(E & Hin & Hc & Ho)]; destruct (Hx p) as [E'|(E' & -> & Hc' & Ho')]; rewrite ?E.
    + left. done.
    + right. split; [done|]. split; [left|done].
    + right. rewrite E' in Ho. split; [done|]. split; [by right|done].
    + right. split; [done|]. split; [left|done].
  - intros p [->|Hp]%elem_of_cons Hc; [|by apply H2].
    destruct (H1 (path u)) as [E|(E & _)]; rewrite E; [|by intros []].
    unfold remove_step. destruct (is_generated _) eqn:Eg; cbn.
    + rewrite remove_file_lookup, bool_decide_eq_true_2, Hc by done. by intros [].
    + intros Ho. apply generated_read in Ho. congruence.
Qed.

(** The file a failed synchronisation names. *)
Definition failed_on {A} (r : result A text) : option text := match r with Err q => Some q | Ok _ => None end.

(** What a write that failed leaves: the file as it was, or a part of the unit. *)
Definition left_by_failure (io : text -> FileOutcome) (us : list GeneratedUnit) (q : text) (before after : option (option text)) : Prop :=
  match io q with
  | IoDone => False
  | IoRefused => q ∈ map path us /\ after = before
  | IoBroken kept mid_char => exists u, u ∈ us /\ path u = q /\ after = Some (broken_file kept mid_char (contents u))
  end.

Lemma write_units_spec io us disk : NoDup (map path us) -> let '(disk', r) := write_units io us disk in
  (forall p, failed_on r <> Some p -> disk' !! p = disk !! p \/
     exists u, u ∈ us /\ path u = p /\ io p = IoDone /\ disk' !! p = Some (Some (contents u))) /\
  (r = Ok tt -> forall u, u ∈ us -> disk' !! path u = Some (Some (contents u))) /\
  (forall q, r = Err q -> left_by_failure io us q (disk !! q) (disk' !! q)).
Proof.
  revert disk. induction us as [|u us IH]; intros disk; cbn [write_units map].
  { intros _. split_and!; [by left|by intros _ u ?%elem_of_nil|done]. }
  intros [Hnin Hnd]%NoDup_cons. destruct (io (path u)) as [| |kept mid] eqn:Ec.
  - specialize (IH (<[path u := Some (contents u)]> disk) Hnd). destruct (write_units io us _) as [disk' r].
    destruct IH as (H1 & H2 & H3).
    assert (Hu : disk' !! path u = Some (Some (contents u))).
    { destruct (decide (failed_on r = Some (path u))) as [E|E].
      - destruct r as [|q]; [done|]. injection E as ->. specialize (H3 _ eq_refl). unfold left_by_failure in H3.
        by rewrite Ec in H3.
      - destruct (H1 _ E) as [->|(v & Hv & Ep & _)]; [by apply lookup_insert_eq|].
        destruct Hnin. rewrite <- Ep. by apply list_elem_of_fmap_2. }
    split_and!.
    + intros p Hp. destruct (decide (path u = p)) as [<-|Hne].
      { right. exists u. split; [left|done]. }
      destruct (H1 p Hp) as [E|(v & Hv & Hr)]; [left; by rewrite E, lookup_insert_ne|].
      right. exists v. split; [by right|done].
    + intros Hr v [->|Hv]%elem_of_cons; [done|by apply H2].
    + intros q Hq. specialize (H3 q Hq). unfold left_by_failure in *. destruct (io q) eqn:Eq; [done| |].
      * destruct H3 as [Hin ->]. split; [by right|]. apply lookup_insert_ne. intros E. by rewrite E, Eq in Ec.
      * destruct H3 as (v & Hv & ?). exists v. split; [by right|done].
  - split_and!; [by left|done|]. intros q [= <-]. unfold left_by_failure. rewrite Ec. split; [left|done].
  - cbn [failed_on]. split_and!; [|done|].
    + intros p Hp. left. apply lookup_insert_ne. congruence.
    + intros q [= <-]. unfold left_by_failure. rewrite Ec. exists u. split_and!; [left|done|]. by rewrite lookup_insert_eq.
Qed.

(** The reports name every hand-edited file. *)
Lemma hand_edited_none a exe disk :
  omap (fun '(p, state) => if bool_decide (state = HandEdited) then Some p else None) (reconcile a exe (read_file disk)) = [] ->
  forall p, p ∈ [service_unit_name (id a); timer_unit_name (id a)] -> unread (disk !! p) \/ ours (disk !! p).
Proof.
  rewrite <- (unit_paths a exe). unfold reconcile. intros H p (u & -> & Hu)%list_elem_of_fmap.
  assert (unit_state u (read_file disk (path u)) <> HandEdited) as Hs.
  { intros E. assert (path u ∈ ([] : list text)) as Hin; [|by apply elem_of_nil in Hin]. rewrite <- H. apply list_elem_of_omap.
    exists (path u, HandEdited). split; [|done]. rewrite <- E. apply list_elem_of_fmap. by exists u. }
  unfold unit_state, read_file in Hs. destruct (disk !! path u) as [[t|]|]; cbn in Hs |- *; [right|by left|by left].
  by destruct (is_generated t).
Qed.

Lemma paths_nodup a exe : NoDup (map path (systemd_units a exe)).
Proof. rewrite unit_paths. apply NoDup_cons. split; [|apply NoDup_singleton]. intros H%list_elem_of_singleton. by apply names_differ in H. Qed.

(** A part of a unit, or what is no text because it ends inside a character. *)
Definition part_of_a_unit (exe : text) (file : option (option text)) : Prop :=
  exists a u kept mid_char, u ∈ systemd_units a exe /\ file = Some (broken_file kept mid_char (contents u)).

(** Only generated files, and files that cannot be read, are touched; what is left is generated, but for
    the file [failed] at which a write broke. *)
Definition touched (exe : text) (failed : option text) (names : text -> Prop) (disk disk' : UnitDir) : Prop :=
  forall p, disk' !! p = disk !! p \/
    names p /\ (unread (disk !! p) \/ ours (disk !! p)) /\
    (disk' !! p = None \/ ours (disk' !! p) \/ failed = Some p /\ part_of_a_unit exe (disk' !! p)).

Lemma touched_refl exe q names disk : touched exe q names disk disk.
Proof. by left. Qed.

Lemma touched_trans exe q names d1 d2 d3 :
  touched exe None names d1 d2 -> touched exe q names d2 d3 -> touched exe q names d1 d3.
Proof.
  intros H1 H2 p. destruct (H2 p) as [-> |(Hn & Hb & Ha)], (H1 p) as [E|(Hn' & Hb' & Ha')].
  - by left.
  - right. split; [done|]. split; [done|]. destruct Ha' as [?|[?|[? _]]]; [by left|by right; left|done].
  - right. rewrite <- E. done.
  - right. done.
Qed.

Lemma touched_mono exe q (P Q : text -> Prop) d1 d2 :
  (forall p, P p -> Q p) -> touched exe q P d1 d2 -> touched exe q Q d1 d2.
Proof. intros H H1 p. destruct (H1 p) as [?|(Hp & ?)]; [by left|right; split; [by apply H|done]]. Qed.

Definition unit_name_of (a : Automation) (p : text) : Prop := p ∈ [service_unit_name (id a); timer_unit_name (id a)].

Lemma sync_disabled io a exe disk : enabled a = false -> let '(disk', r) := sync_one io a exe disk in
  touched exe None (fun p => unit_name_of a p /\ io p <> IoRefused) disk disk' /\
  (forall p, unit_name_of a p -> can io p = true -> ~ ours (disk' !! p)) /\ exists l, r = Ok (Removed l).
Proof.
  intros Hd. unfold sync_one. rewrite Hd. cbn [negb]. pose proof (remove_steps io (systemd_units a exe) (disk, [])) as [H1 H2].
  destruct (fold_left _ _ _) as [disk' removed]. rewrite unit_paths in *. cbn [fst] in *. split; [|split; [done|by eexists]].
  intros p. destruct (H1 p) as [?|(E & Hn & Hc & Ho)]; [by left|]. right.
  split; [split; [done|]|split; [by right|by left]]. unfold can in Hc. by destruct (io p).
Qed.

Lemma sync_enabled io a exe disk : enabled a = true -> let '(disk', r) := sync_one io a exe disk in
  touched exe (failed_on r) (fun p => unit_name_of a p /\ io p <> IoRefused) disk disk' /\
  match r with
  | Ok (Written _ _) => forall u, u ∈ systemd_units a exe -> disk' !! path u = Some (Some (contents u))
  | Ok (LeftAlone l) => disk' = disk /\ l <> []
  | Ok (Removed _) => False
  | Err q => left_by_failure io (systemd_units a exe) q (disk !! q) (disk' !! q)
  end.
Proof.
  intros Hd. unfold sync_one. rewrite Hd. cbn [negb]. pose proof (hand_edited_none a exe disk) as Hn.
  destruct (omap _ _) as [|q l]; [|split; [apply touched_refl|done]]. specialize (Hn eq_refl).
  pose proof (write_units_spec io (systemd_units a exe) disk (paths_nodup a exe)) as H.
  destruct (write_units io (systemd_units a exe) disk) as [disk' r]. destruct H as (H1 & H2 & H3).
  assert (forall u, u ∈ systemd_units a exe -> unit_name_of a (path u)) as Hname.
  { intros u Hu. unfold unit_name_of. rewrite <- (unit_paths a exe). by apply list_elem_of_fmap_2. }
  assert (touched exe (failed_on r) (fun p => unit_name_of a p /\ io p <> IoRefused) disk disk') as Ht.
  { intros p. destruct (decide (failed_on r = Some p)) as [Ef|Ef].
    - destruct r as [|q]; [done|]. injection Ef as ->. specialize (H3 _ eq_refl). unfold left_by_failure in H3.
      destruct (io p) as [| |kept mid] eqn:Eio; [done|by left; destruct H3|]. destruct H3 as (u & Hu & Ep & E).
      right. rewrite <- Ep in *. split; [by split; [apply Hname|]|]. split; [by apply Hn, Hname|].
      right. right. split; [done|]. by exists a, u, kept, mid.
    - destruct (H1 p Ef) as [?|(u & Hu & <- & Hc & E)]; [by left|]. right.
      split; [by split; [apply Hname|rewrite Hc]|]. split; [by apply Hn, Hname|]. right. left. rewrite E. cbn.
      by apply (units_read a exe u). }
  destruct r as [[]|q]; (split; [exact Ht|]); [by apply H2|by apply H3].
Qed.

(** C25: the synchronisation of an automation touches its two unit files and no other, and those only where
    there is no file, or one that was generated, or one that cannot be read as text.  What is reported written
    is there, and reads as up to date; an automation that is disabled keeps no generated file that can be
    removed; what is left alone is left as it is; and a write that fails leaves the file as it was, or, where
    it broke, a part of the unit. *)
Theorem sync_keeps_to_its_files io a exe disk : let '(disk', r) := sync_one io a exe disk in
  (forall p, disk' !! p <> disk !! p ->
     unit_name_of a p /\ io p <> IoRefused /\ (unread (disk !! p) \/ ours (disk !! p))) /\
  (enabled a = false -> forall p, unit_name_of a p -> can io p = true -> ~ ours (disk' !! p)) /\
  (enabled a = true -> match r with
    | Ok (Written _ _) => forall u, u ∈ systemd_units a exe ->
        disk' !! path u = Some (Some (contents u)) /\ unit_state u (read_file disk' (path u)) = UpToDate
    | Ok (LeftAlone l) => disk' = disk /\ l <> []
    | Ok (Removed _) => False
    | Err q => unit_name_of a q /\ left_by_failure io (systemd_units a exe) q (disk !! q) (disk' !! q)
    end).
Proof.
  pose proof (sync_disabled io a exe disk) as Hd. pose proof (sync_enabled io a exe disk) as He.
  destruct (sync_one io a exe disk) as [disk' r].
  assert (Ht : exists q, touched exe q (fun p => unit_name_of a p /\ io p <> IoRefused) disk disk').
  { destruct (enabled a); eexists; [by apply He|by apply Hd]. }
  destruct Ht as [q' Ht]. split; [|split].
  - intros p Hp. destruct (Ht p) as [?|([Hn Hc] & Hb & _)]; done.
  - intros E. by apply Hd.
  - intros E. destruct (He E) as [_ H]. destruct r as [[l|l|paths states]|q]; try done.
    + intros u Hu. specialize (H u Hu). split; [done|]. unfold read_file. rewrite H. by apply (unit_settled a exe).
    + split; [|done]. unfold left_by_failure in H. unfold unit_name_of. rewrite <- (unit_paths a exe).
      destruct (io q); [done|by destruct H|]. destruct H as (u & Hu & <- & _). by apply list_elem_of_fmap_2.
Qed.

(** * The whole directory *)

Definition ours_by_name (p : text) : Prop := starts_with_text UNIT_PREFIX p = true.

Lemma unit_name_prefix a p : unit_name_of a p -> ours_by_name p.
Proof.
  unfold unit_name_of, ours_by_name, starts_with_text, service_unit_name, timer_unit_name.
  rewrite elem_of_cons, list_elem_of_singleton. by intros [-> | ->]; rewrite strip_text_app.
Qed.

Lemma sync_one_touched io a exe disk : let '(disk', r) := sync_one io a exe disk in
  touched exe (failed_on r) ours_by_name disk disk'.
Proof.
  pose proof (sync_disabled io a exe disk) as Hd. pose proof (sync_enabled io a exe disk) as He.
  destruct (sync_one io a exe disk) as [disk' r]. eapply (touched_mono _ _ (fun p => unit_name_of a p /\ io p <> IoRefused)).
  { intros p [Hp _]. by eapply unit_name_prefix. }
  destruct (enabled a); [by apply He|]. destruct (Hd eq_refl) as (Ht & _ & [l ->]). exact Ht.
Qed.

Lemma sync_all_touched io l exe disk : let '(disk', r) := sync_all io l exe disk in
  touched exe (failed_on r) ours_by_name disk disk'.
Proof.
  revert disk. induction l as [|a l IH]; intros disk; cbn [sync_all]; [apply touched_refl|].
  pose proof (sync_one_touched io a exe disk) as H. destruct (sync_one io a exe disk) as [disk' [x|p]]; [|done].
  specialize (IH disk'). destruct (sync_all io l exe disk') as [disk'' [xs|p]]; by eapply touched_trans.
Qed.

Lemma elem_of_present disk p t : (p, t) ∈ present disk <-> disk !! p = Some (Some t) /\ ours_by_name p.
Proof.
  unfold present. rewrite list_elem_of_omap. split.
  - intros ([q file] & Hin%elem_of_map_to_list & E). destruct (starts_with_text UNIT_PREFIX q) eqn:Es; [|done].
    destruct file as [t'|]; [|done]. cbn in E. by injection E as -> ->.
  - intros [H1 H2]. exists (p, Some t). split; [by apply elem_of_map_to_list|]. unfold ours_by_name in H2. by rewrite H2.
Qed.

Lemma elem_of_orphans live l p : p ∈ orphaned_units live l <->
  exists t, (p, t) ∈ l /\ is_generated t = true /\ (p ∉ flat_map (fun i => [service_unit_name i; timer_unit_name i]) live).
Proof.
  unfold orphaned_units. rewrite list_elem_of_omap. split.
  - intros ([q t] & Hin & E). destruct (is_generated t && _) eqn:Eg; [|done]. injection E as ->.
    apply andb_true_iff in Eg as [Hg Hn%negb_true_iff%bool_decide_eq_false]. by exists t.
  - intros (t & Hin & Hg & Hn). exists (p, t). split; [done|]. by rewrite Hg, bool_decide_eq_false_2.
Qed.

Lemma remove_files io l disk p : fold_left (remove_file io) l disk !! p = if bool_decide (p ∈ l) && can io p then None else disk !! p.
Proof.
  revert disk. induction l as [|q l IH]; intros disk; cbn [fold_left]; [done|]. rewrite IH, remove_file_lookup.
  destruct (can io p) eqn:Ec; rewrite ?andb_true_r, ?andb_false_r.
  - destruct (decide (q = p)) as [->|Hne].
    + assert (p ∈ p :: l) as Hp by left. rewrite (bool_decide_eq_true_2 _ Hp), (bool_decide_eq_true_2 (p = p)), Ec by done. cbn. by destruct (bool_decide (p ∈ l)).
    + rewrite (bool_decide_eq_false_2 (q = p)) by done. cbn.
      rewrite (bool_decide_ext (p ∈ q :: l) (p ∈ l)); [done|]. rewrite elem_of_cons. naive_solver.
  - destruct (decide (q = p)) as [->|Hne]; [by rewrite Ec, andb_false_r|by rewrite (bool_decide_eq_false_2 (q = p))].
Qed.

(** C24: the [sync] verb touches only files of our name that are generated, unreadable or absent, and leaves
    generated ones there or none, but for a part of a unit in the file whose write it reports to have failed.
    Pruned, where files can be removed, the directory has no generated file left
    but the units of the automations that are enabled. *)
Theorem sync_leaves_no_orphan io prune exe s disk : let '(disk', r) := verb_sync io prune exe s disk in
  touched exe (failed_on r) ours_by_name disk disk' /\
  (forall x, r = Ok x -> prune = true -> (forall p, can io p = true) ->
     forall p, ours_by_name p -> ours (disk' !! p) -> exists a, a ∈ automations s /\ enabled a = true /\ unit_name_of a p).
Proof.
  unfold verb_sync. pose proof (sync_all_touched io (automations s) exe disk) as H.
  destruct (sync_all io (automations s) exe disk) as [d [answers|q]]; [|split; [done|by intros]]. cbn [failed_on] in H.
  destruct prune; [|split; [done|by intros]].
  set (live := map id (List.filter enabled (automations s))). split.
  - eapply touched_trans; [exact H|]. intros p. rewrite remove_files. destruct (bool_decide _ && can io p) eqn:E; [|by left]. right.
    apply andb_true_iff in E as [(t & Hp & Hg & _)%bool_decide_eq_true%elem_of_orphans _]. apply elem_of_present in Hp as [Hp Hn].
    split; [done|]. rewrite Hp. split; [by right|by left].
  - intros _ _ _ Hcan p Hp. rewrite remove_files, Hcan, andb_true_r. case_bool_decide as Eo; [by intros []|]. intros Ho.
    destruct (d !! p) as [[t|]|] eqn:Ed; [|done|done].
    destruct (decide (p ∈ flat_map (fun i => [service_unit_name i; timer_unit_name i]) live)) as [Hin|Hout].
    + apply list_elem_of_In, in_flat_map in Hin as (i & Hi & Hp'). apply list_elem_of_In in Hp'.
      apply in_map_iff in Hi as (a & <- & Ha). apply filter_In in Ha as [Ha He]. exists a. by split; [apply list_elem_of_In|].
    + exfalso. apply Eo, elem_of_orphans. exists t. split; [by apply elem_of_present|done].
Qed.

(** * What the states do not tell *)

Module Units.

Definition before : list GeneratedUnit := systemd_units Job.job (chars "/opt/a/yggterm-headless").

Definition titled : Automation :=
  mkAutomation "infra" true ClaudeCode "local" None (chars "go") Civil.sundays 2 2921 21600 1800 21600 false (Some "Infra"%string) 0 None [].

Definition states (a : Automation) (exe : string) (files : list GeneratedUnit) : list UnitState :=
  map snd (reconcile a (chars exe) (fun p => contents <$> List.find (fun u => bool_decide (path u = p)) files)).

Example untouched : states Job.job "/opt/a/yggterm-headless" before = [UpToDate; UpToDate].
Proof. by vm_compute. Qed.

(** A new title, or another place of the binary, is taken for the user's hand. *)
Example title_reads_as_hand_edited : states titled "/opt/a/yggterm-headless" before = [HandEdited; HandEdited].
Proof. by vm_compute. Qed.

Example moved_binary_reads_as_hand_edited : states Job.job "/opt/b/yggterm-headless" before = [HandEdited; UpToDate].
Proof. by vm_compute. Qed.

(** A file edited by hand is overwritten once the record has moved. *)
Definition edited : list GeneratedUnit := map (fun u => mkUnit (path u) (contents u ++ chars "Nice=5")) before.

Definition moved : Automation :=
  mkAutomation "infra" true ClaudeCode "local" None (chars "go") Civil.sundays 1 2921 21600 1800 21600 false None 0 None [].

Example edit_is_stale : states Job.job "/opt/a/yggterm-headless" edited = [HandEdited; HandEdited] /\
  states moved "/opt/a/yggterm-headless" edited = [Stale; Stale].
Proof. by vm_compute. Qed.

(** So is a file that is not text, whoever's it is. *)
Example unreadable_is_missing : let disk := {[ service_unit_name "infra" := None ]} : UnitDir in
  fst (sync_one (fun _ => IoDone) Job.job (chars "/opt/a/yggterm-headless") disk) !! service_unit_name "infra"
  = Some (Some (contents (nth 0 before (mkUnit [] [])))).
Proof. by vm_compute. Qed.

(** A write that breaks before the header is out leaves a file that is then taken for the user's: no later
    synchronisation repairs it, nor writes the timer beside it. *)
Definition full_once (p : text) : FileOutcome :=
  if bool_decide (p = service_unit_name "infra") then IoBroken 0 false else IoDone.

Example broken_write_is_left_alone : let exe := chars "/opt/a/yggterm-headless" in
  let disk := fst (sync_one full_once Job.job exe ∅) in
  snd (sync_one full_once Job.job exe ∅) = Err (service_unit_name "infra") /\
  disk !! service_unit_name "infra" = Some (Some []) /\
  sync_one (fun _ => IoDone) Job.job exe disk = (disk, Ok (LeftAlone [service_unit_name "infra"])).
Proof. by vm_compute. Qed.

End Units.
