(* ===== verification/ProfileLock.v ===== *)
(** * The write lock of a web profile

    src/crates/yggterm-server/src/profile_write_lock.rs and the requests of daemon.rs that reach it; the name
    of a profile in src/crates/yggterm-core/src/web_profile.rs; and the clients that ask for the lock before
    they open a page on a profile's jar, in src/crates/yggterm-shell/src/shell/state.rs.

    The table is a map; what is reported of it is in the order of its keys.  The liveness of processes is an
    argument.  Of a surface only the profile it was asked for and whether it opened on the jar are kept. *)
From stdpp Require Import gmap strings.
From S2P Require Import Prelude RustStr.
From Stdlib Require Import ZifyBool ZifyN.
#[local] Open Scope N_scope.
#[local] Open Scope list_scope.
#[local] Open Scope string_scope.

(** ** Names *)

Definition WEB_PROFILE_TEMP : string := "temp".
Definition WEB_PROFILE_DEFAULT : string := "default".

Definition normalize_web_profile (profile : option string) : string :=
  let name := match profile with Some p => trim p | None => "" end in
  if negb (str_is_empty name) && negb (String.eqb name ".") && negb (String.eqb name "..")
     && negb (contains name "/") && negb (contains name "\")
  then name else WEB_PROFILE_DEFAULT.

Definition web_profile_is_ephemeral (profile : string) : bool := String.eqb profile WEB_PROFILE_TEMP.

(** [web_profile_dir_in]: the name of the directory below the root of the jars. *)
Definition web_profile_dir (profile : string) : option string :=
  let name := normalize_web_profile (Some profile) in
  if web_profile_is_ephemeral name then None else Some name.

(** ** The table *)

Inductive ClientRole := Active | Shadow.

#[export] Instance ClientRole_eq_dec : EqDecision ClientRole.
Proof. solve_decision. Defined.

Record ProfileWriteLockHolder := mkHolder { client_id : string; pid : N; role : ClientRole }.

Definition is_holder (h other : ProfileWriteLockHolder) : bool := String.eqb (client_id h) (client_id other) && N.eqb (pid h) (pid other).

Record ProfileWriteLockEntry := mkEntry { profile : string; holder : ProfileWriteLockHolder; acquired_at_ms : N }.

Inductive AcquireOutcome :=
  | Granted
  | AlreadyHeld
  | ReclaimedFromDead (previous : ProfileWriteLockHolder)
  | PreemptedShadow (previous : ProfileWriteLockHolder)
  | Busy (held_by : ProfileWriteLockHolder)
  | Ephemeral.

Definition is_writable (o : AcquireOutcome) : bool := match o with Busy _ => false | _ => true end.

Inductive ReleaseOutcome := Released | NotHeld | NotHolder (held_by : ProfileWriteLockHolder) | EphemeralRelease.

Abbreviation ProfileWriteLockTable := (gmap string ProfileWriteLockEntry).

Definition acquire (asked : option string) (h : ProfileWriteLockHolder) (now_ms : N) (is_alive : N -> bool)
    (t : ProfileWriteLockTable) : ProfileWriteLockTable * AcquireOutcome :=
  let name := normalize_web_profile asked in
  if web_profile_is_ephemeral name then (t, Ephemeral)
  else
    let granted := <[name := mkEntry name h now_ms]> t in
    match t !! name with
    | None => (granted, Granted)
    | Some current =>
        if is_holder (holder current) h then (t, AlreadyHeld)
        else if is_alive (pid (holder current)) then
          if bool_decide (role h = Active) && bool_decide (role (holder current) = Shadow)
          then (granted, PreemptedShadow (holder current)) else (t, Busy (holder current))
        else (granted, ReclaimedFromDead (holder current))
    end.

Definition release (asked : option string) (h : ProfileWriteLockHolder) (t : ProfileWriteLockTable)
    : ProfileWriteLockTable * ReleaseOutcome :=
  let name := normalize_web_profile asked in
  if web_profile_is_ephemeral name then (t, EphemeralRelease)
  else match t !! name with
       | None => (t, NotHeld)
       | Some current => if is_holder (holder current) h then (delete name t, Released) else (t, NotHolder (holder current))
       end.

(** The table that is left, and the entries removed, in the order of their names. *)
Definition entries (t : ProfileWriteLockTable) : list ProfileWriteLockEntry :=
  snd <$> stable_sort (fun a b => String.leb (fst a) (fst b)) (map_to_list t).

Definition reap_dead (is_alive : N -> bool) (t : ProfileWriteLockTable) : ProfileWriteLockTable * list ProfileWriteLockEntry :=
  let dead := filter (fun kv => is_alive (pid (holder (snd kv))) = false) t in
  (filter (fun kv => is_alive (pid (holder (snd kv))) = true) t, entries dead).

(** ** The requests *)

Record ClientIdentity := mkIdentity { identity_role : ClientRole; identity_client_id : option string }.

Definition lock_holder (identity : ClientIdentity) (p : N) : ProfileWriteLockHolder :=
  mkHolder (default ("anonymous:" +:+ u64_to_string p) (identity_client_id identity)) p (identity_role identity).

(** [ServerResponse::ProfileWriteLock], which the client reads as a [ProfileWriteLockStatus]. *)
Record ProfileWriteLockStatus := mkStatus {
  outcome : string; writable : bool; status_profile : string; held_by_client_id : option string; held_by_pid : option N;
  locks : list (string * string * N) }.

Definition profile_write_lock_outcome_name (o : AcquireOutcome) : string :=
  match o with
  | Granted => "granted" | AlreadyHeld => "already_held" | ReclaimedFromDead _ => "reclaimed_from_dead"
  | PreemptedShadow _ => "preempted_shadow" | Busy _ => "profile_busy" | Ephemeral => "ephemeral"
  end.

Definition profile_write_lock_acquire_response (name : string) (requester : ProfileWriteLockHolder) (o : AcquireOutcome)
    : ProfileWriteLockStatus :=
  let by_ := match o with Busy held_by => Some held_by | Ephemeral => None | _ => Some requester end in
  mkStatus (profile_write_lock_outcome_name o) (is_writable o) name (client_id <$> by_) (pid <$> by_) [].

Definition handle_acquire (identity : ClientIdentity) (asked : option string) (p : N) (now_ms : N) (is_alive : N -> bool)
    (t : ProfileWriteLockTable) : ProfileWriteLockTable * ProfileWriteLockStatus :=
  let h := lock_holder identity p in
  let '(t', o) := acquire asked h now_ms is_alive t in
  (t', profile_write_lock_acquire_response (normalize_web_profile asked) h o).

Definition handle_release (identity : ClientIdentity) (asked : option string) (p : N) (t : ProfileWriteLockTable)
    : ProfileWriteLockTable * ProfileWriteLockStatus :=
  let '(t', o) := release asked (lock_holder identity p) t in
  let name := normalize_web_profile asked in
  (t', match o with
       | Released => mkStatus "released" false name None None []
       | NotHeld => mkStatus "not_held" false name None None []
       | NotHolder held_by => mkStatus "not_holder" false name (Some (client_id held_by)) (Some (pid held_by)) []
       | EphemeralRelease => mkStatus "ephemeral" true name None None []
       end).

Definition handle_report (is_alive : N -> bool) (t : ProfileWriteLockTable) : ProfileWriteLockTable * ProfileWriteLockStatus :=
  let t' := fst (reap_dead is_alive t) in
  (t', mkStatus "report" false "" None None (map (fun e => (profile e, client_id (holder e), pid (holder e))) (entries t'))).

(** ** A client that shows pages *)

(** An entry of [applied]: the surface, the profile it is kept for, and the jar it was opened on. *)
Record Surface := mkSurface { surface : N; surface_profile : string; jar : option string }.

Record Client := mkClient {
  identity : ClientIdentity; own_pid : N; held_profile_write_locks : gset string; applied : list Surface }.

Definition set_held (held : gset string) (c : Client) : Client := mkClient (identity c) (own_pid c) held (applied c).

Definition set_applied (l : list Surface) (c : Client) : Client := mkClient (identity c) (own_pid c) (held_profile_write_locks c) l.

(** Opening a surface: the claim, if one is needed, and the jar.  [answers] is whether the daemon answers the
    claim, [opens] whether the engine opens the page. *)
Definition claim (answers : bool) (now_ms : N) (is_alive : N -> bool) (asked : string) (c : Client) (t : ProfileWriteLockTable)
    : Client * ProfileWriteLockTable * bool :=
  let lock_key := normalize_web_profile (Some asked) in
  if bool_decide (lock_key ∈ held_profile_write_locks c) then (c, t, true)
  else
    let '(t', can_write) :=
      if answers then let '(t', status) := handle_acquire (identity c) (Some asked) (own_pid c) now_ms is_alive t in (t', writable status)
      else (t, bool_decide (identity_role (identity c) = Active)) in
    (if can_write then set_held ({[lock_key]} ∪ held_profile_write_locks c) c else c, t', can_write).

Definition open_surface (answers opens : bool) (now_ms : N) (is_alive : N -> bool) (id : N) (asked : string) (c : Client)
    (t : ProfileWriteLockTable) : Client * ProfileWriteLockTable :=
  let '(c, t, on) :=
    match web_profile_dir asked with
    | None => (c, t, None)
    | Some dir => let '(c, t, can_write) := claim answers now_ms is_alive asked c t in (c, t, if can_write then Some dir else None)
    end in
  (if opens then set_applied (applied c ++ [mkSurface id asked on])%list c else c, t).

(** [web_surface_adopt_popup_tab]: the profile of the opener's tab, or of the first one when it is gone. *)
Definition popup_tab_profile (tabs : list (N * string)) (opener : N) : option string :=
  match List.find (fun tab => N.eqb (fst tab) opener) tabs with
  | Some tab => Some (snd tab)
  | None => snd <$> head tabs
  end.

(** A page that a page opened: the engine has built it already, on the jar of its opener, and nothing is
    claimed.  [tabs] are the tabs of the session with their profiles. *)
Definition adopt_popup (opener popup : N) (tabs : list (N * string)) (c : Client) : Client :=
  match List.find (fun s => N.eqb (surface s) opener) (applied c), popup_tab_profile tabs opener with
  | Some o, Some profile => set_applied (applied c ++ [mkSurface popup profile (jar o)])%list c
  | _, _ => c
  end.

Definition close_surface (id : N) (c : Client) : Client :=
  set_applied (List.filter (fun s => negb (N.eqb (surface s) id)) (applied c)) c.

Definition web_profile_write_locks_to_release (held in_use : gset string) : list string :=
  stable_sort String.leb (elements (held ∖ in_use)).

Definition release_one (x : Client * ProfileWriteLockTable) (name : string) : Client * ProfileWriteLockTable :=
  let '(c, t) := x in
  (set_held (held_profile_write_locks c ∖ {[name]}) c, fst (handle_release (identity c) (Some name) (own_pid c) t)).

(** The end of a tick, the daemon answering. *)
Definition end_of_tick (c : Client) (t : ProfileWriteLockTable) : Client * ProfileWriteLockTable :=
  let in_use : gset string := list_to_set (map (fun s => normalize_web_profile (Some (surface_profile s))) (applied c)) in
  fold_left release_one (web_profile_write_locks_to_release (held_profile_write_locks c) in_use) (c, t).

(** ** The gate of a shadow's verb *)

Definition write_lock_report_holds (report : ProfileWriteLockStatus) (asked holder_id : string) : bool :=
  let key := normalize_web_profile (Some asked) in
  existsb (fun '(locked, id, _) => String.eqb locked key && String.eqb id holder_id) (locks report).

(** Whether a verb on the active page of [asked] goes through; [None] is a report that does not come. *)
Definition shadow_gate (c : Client) (asked : option string) (report : option ProfileWriteLockStatus) : bool :=
  match identity_role (identity c), asked with
  | Shadow, Some asked =>
      if web_profile_is_ephemeral (normalize_web_profile (Some asked)) then true
      else match report with
           | Some report => write_lock_report_holds report asked (client_id (lock_holder (identity c) (own_pid c)))
           | None => false
           end
  | _, _ => true
  end.

(** * The table *)

Lemma normalize_idemp p : normalize_web_profile (Some (normalize_web_profile p)) = normalize_web_profile p.
Proof.
  unfold normalize_web_profile at 2 3. set (name := match p with Some p => trim p | None => "" end).
  destruct (_ && _) eqn:E; [|by vm_compute].
  unfold normalize_web_profile. assert (trim name = name) as -> by (unfold name; destruct p; [apply trim_idemp|done]). by rewrite E.
Qed.

Lemma is_holder_same h : is_holder h h = true.
Proof. unfold is_holder. by rewrite String.eqb_refl, N.eqb_refl. Qed.

Lemma is_holder_spec h k : is_holder h k = true <-> client_id h = client_id k /\ pid h = pid k.
Proof. unfold is_holder. by rewrite andb_true_iff, String.eqb_eq, N.eqb_eq. Qed.

(** A claim replaces the entry of a process that is gone, or of a shadow, and no other. *)
Lemma acquire_keeps asked h now alive t m e : t !! m = Some e ->
  let t' := fst (acquire asked h now alive t) in
  t' !! m = Some e \/ alive (pid (holder e)) = false \/ role (holder e) = Shadow.
Proof.
  intros He. cbv zeta. unfold acquire. destruct (web_profile_is_ephemeral _); [by left|].
  destruct (decide (normalize_web_profile asked = m)) as [<-|Hne].
  - rewrite He. destruct (is_holder (holder e) h); [by left|]. destruct (alive (pid (holder e))) eqn:Ea; [|by right; left].
    destruct (bool_decide (role (holder e) = Shadow)) eqn:Er; [right; right; by apply bool_decide_eq_true in Er|].
    rewrite andb_false_r. by left.
  - left. repeat case_match; cbn; rewrite ?lookup_insert_ne; done.
Qed.

Lemma acquire_entries asked h now alive t m e : fst (acquire asked h now alive t) !! m = Some e ->
  t !! m = Some e \/ e = mkEntry m h now /\ web_profile_is_ephemeral m = false.
Proof.
  unfold acquire. destruct (web_profile_is_ephemeral (normalize_web_profile asked)) eqn:Ee; [by left|].
  set (n := normalize_web_profile asked) in *. intros H.
  assert (t !! m = Some e \/ <[n := mkEntry n h now]> t !! m = Some e) as [?|Hg] by (repeat case_match; cbn in H; auto); [by left|].
  destruct (decide (n = m)) as [<-|Hne]; [rewrite lookup_insert_eq in Hg|rewrite lookup_insert_ne in Hg by done; by left].
  injection Hg as <-. by right.
Qed.

(** Who may write is in the table. *)
Lemma acquire_writable asked h now alive t : web_profile_is_ephemeral (normalize_web_profile asked) = false ->
  is_writable (snd (acquire asked h now alive t)) = true ->
  exists e, fst (acquire asked h now alive t) !! normalize_web_profile asked = Some e /\ is_holder (holder e) h = true.
Proof.
  intros Ee. unfold acquire. rewrite Ee. set (n := normalize_web_profile asked) in *.
  assert (exists e, <[n := mkEntry n h now]> t !! n = Some e /\ is_holder (holder e) h = true) as Hg.
  { exists (mkEntry n h now). rewrite lookup_insert_eq. split; [done|]. apply is_holder_same. }
  destruct (t !! n) as [current|] eqn:E; [|done]. destruct (is_holder (holder current) h) eqn:Eh; [intros _; by exists current|].
  destruct (alive (pid (holder current))); [|done]. destruct (_ && _); done.
Qed.

Lemma release_keeps asked h t m e : t !! m = Some e ->
  fst (release asked h t) !! m = Some e \/ m = normalize_web_profile asked /\ is_holder (holder e) h = true.
Proof.
  intros He. unfold release. destruct (web_profile_is_ephemeral _); [by left|].
  destruct (t !! normalize_web_profile asked) as [current|] eqn:E; [|by left]. destruct (is_holder (holder current) h) eqn:Eh; [|by left].
  cbn. destruct (decide (normalize_web_profile asked = m)) as [<-|Hne]; [right; by simplify_eq|left; by rewrite lookup_delete_ne].
Qed.

Lemma release_entries asked h t m e : fst (release asked h t) !! m = Some e -> t !! m = Some e.
Proof.
  unfold release. repeat case_match; cbn; try done. intros Hd. by apply lookup_delete_Some in Hd as [_ ?].
Qed.

Lemma reap_dead_lookup alive t m e : fst (reap_dead alive t) !! m = Some e <-> t !! m = Some e /\ alive (pid (holder e)) = true.
Proof. cbn. by rewrite map_lookup_filter_Some. Qed.

Lemma elem_of_lock_entries t e : e ∈ entries t <-> exists m, t !! m = Some e.
Proof.
  unfold entries. rewrite list_elem_of_fmap. setoid_rewrite elem_of_stable_sort. split.
  - intros ([m e'] & -> & H%elem_of_map_to_list). by exists m.
  - intros [m H%elem_of_map_to_list]. by exists (m, e).
Qed.

(** * Clients and one daemon *)

Section System.
(** A client id belongs to one role. *)
Context (role_of : string -> ClientRole).

(** What a client did without the daemon's leave: it took the lock of a jar for its own when its claim was
    not answered, or it kept a page on a jar for another profile. *)
Inductive Lapse := Unanswered (p : N) (n : string) | Strayed (p : N) (n : string).

Record System := mkSystem { table : ProfileWriteLockTable; clients : gmap N Client; lapses : list Lapse }.

Definition lapsed (s : System) (p : N) (n : string) : Prop := Unanswered p n ∈ lapses s \/ Strayed p n ∈ lapses s.

Definition opening_lapse (answers : bool) (asked : string) (c : Client) : list Lapse :=
  match web_profile_dir asked with
  | Some n =>
      if negb answers && bool_decide (identity_role (identity c) = Active) && negb (bool_decide (n ∈ held_profile_write_locks c))
      then [Unanswered (own_pid c) n] else []
  | None => []
  end.

Definition popup_lapse (opener : N) (tabs : list (N * string)) (c : Client) : list Lapse :=
  match List.find (fun s => N.eqb (surface s) opener) (applied c), popup_tab_profile tabs opener with
  | Some o, Some profile =>
      match jar o with
      | Some n => if String.eqb n (normalize_web_profile (Some profile)) then [] else [Strayed (own_pid c) n]
      | None => []
      end
  | _, _ => []
  end.

Definition holder_of (c : Client) : ProfileWriteLockHolder := lock_holder (identity c) (own_pid c).

Definition known (h : ProfileWriteLockHolder) : Prop := role h = role_of (client_id h).

(** The daemon sees the clients that live. *)
Definition sees (is_alive : N -> bool) (s : System) : Prop := forall p, is_Some (clients s !! p) -> is_alive p = true.

(** What may happen: a client starts, ends without a word, opens or closes a page or ends a tick; a page
    opens another; the daemon reports; a command that is not one of the clients claims or releases.  A claim
    may be answered or not. *)
Inductive step : System -> System -> Prop :=
  | step_start s c : clients s !! own_pid c = None -> known (holder_of c) -> held_profile_write_locks c = ∅ -> applied c = [] ->
      step s (mkSystem (table s) (<[own_pid c := c]> (clients s)) (lapses s))
  | step_end s p : step s (mkSystem (table s) (delete p (clients s)) (lapses s))
  | step_open s p c answers opens now is_alive id asked : clients s !! p = Some c -> sees is_alive s ->
      step s (let '(c', t') := open_surface answers opens now is_alive id asked c (table s) in
              mkSystem t' (<[p := c']> (clients s)) (opening_lapse answers asked c ++ lapses s)%list)
  | step_popup s p c opener popup tabs : clients s !! p = Some c ->
      step s (mkSystem (table s) (<[p := adopt_popup opener popup tabs c]> (clients s)) (popup_lapse opener tabs c ++ lapses s)%list)
  | step_close s p c id : clients s !! p = Some c -> step s (mkSystem (table s) (<[p := close_surface id c]> (clients s)) (lapses s))
  | step_tick s p c : clients s !! p = Some c ->
      step s (let '(c', t') := end_of_tick c (table s) in mkSystem t' (<[p := c']> (clients s)) (lapses s))
  | step_report s is_alive : sees is_alive s -> step s (mkSystem (fst (handle_report is_alive (table s))) (clients s) (lapses s))
  | step_claim s h asked now is_alive : clients s !! pid h = None -> known h -> sees is_alive s ->
      step s (mkSystem (fst (acquire asked h now is_alive (table s))) (clients s) (lapses s))
  | step_release s h asked : clients s !! pid h = None -> step s (mkSystem (fst (release asked h (table s))) (clients s) (lapses s)).

Inductive reachable : System -> Prop :=
  | reachable_nobody : reachable (mkSystem ∅ ∅ [])
  | reachable_step s s' : reachable s -> step s s' -> reachable s'.

(** ** The invariant *)

(** The locks it took unanswered aside, an active client has those it thinks it has; those of its pages that
    are not strays are on the jar of their own profile, whose lock it thinks it has. *)
Definition client_ok (t : ProfileWriteLockTable) (ls : list Lapse) (p : N) (c : Client) : Prop :=
  own_pid c = p /\ known (holder_of c) /\
  (identity_role (identity c) = Active -> forall n, n ∈ held_profile_write_locks c ->
     Unanswered p n ∈ ls \/ exists e, t !! n = Some e /\ holder e = holder_of c) /\
  (forall x n, x ∈ applied c -> jar x = Some n ->
     Strayed p n ∈ ls \/ n = normalize_web_profile (Some (surface_profile x)) /\ n ∈ held_profile_write_locks c) /\
  (forall n, n ∈ held_profile_write_locks c -> normalize_web_profile (Some n) = n).

Definition table_ok (t : ProfileWriteLockTable) : Prop :=
  forall n e, t !! n = Some e -> known (holder e) /\ profile e = n.

Definition ok (s : System) : Prop :=
  table_ok (table s) /\ forall p c, clients s !! p = Some c -> client_ok (table s) (lapses s) p c.

Lemma client_ok_more t ls more p c : client_ok t ls p c -> client_ok t (more ++ ls) p c.
Proof.
  intros (H1 & H2 & H3 & H4 & H5). split_and!; [done|done| | |done].
  - intros Ha n Hn. destruct (H3 Ha n Hn); [left; apply elem_of_app|]; auto.
  - intros x n Hx Hn. destruct (H4 x n Hx Hn); [left; apply elem_of_app|]; auto.
Qed.

Lemma client_ok_table t t' ls p c : client_ok t ls p c ->
  (identity_role (identity c) = Active -> forall n e, n ∈ held_profile_write_locks c -> t !! n = Some e -> holder e = holder_of c -> t' !! n = Some e) ->
  client_ok t' ls p c.
Proof.
  intros (H1 & H2 & H3 & H4) Ht. split; [done|]. split; [done|]. split; [|done].
  intros Ha n Hn. destruct (H3 Ha n Hn) as [?|(e & He & Eh)]; [by left|right]. exists e. split; [by apply (Ht Ha n e Hn He Eh)|done].
Qed.

Lemma acquire_ok asked h now alive t : table_ok t -> known h -> table_ok (fst (acquire asked h now alive t)).
Proof. intros Ht Hh n e He. apply acquire_entries in He as [He|[-> _]]; [by apply Ht|done]. Qed.

(** The claims and releases of others leave a live client's locks alone. *)
Lemma client_ok_acquire asked h now alive t ls p c :
  client_ok t ls p c -> alive p = true -> client_ok (fst (acquire asked h now alive t)) ls p c.
Proof.
  intros Hc Ha. apply (client_ok_table t); [done|]. intros Hr n e _ He Eh.
  destruct (acquire_keeps asked h now alive t n e He) as [?|[Hd|Hs]]; [done| |]; rewrite Eh in *; cbn in *.
  - destruct Hc as [<- _]. congruence.
  - congruence.
Qed.

Lemma client_ok_release asked h t ls p c : client_ok t ls p c -> pid h <> p -> client_ok (fst (release asked h t)) ls p c.
Proof.
  intros Hc Hp. apply (client_ok_table t); [done|]. intros Hr n e _ He Eh.
  destruct (release_keeps asked h t n e He) as [?|[_ [_ Hh]%is_holder_spec]]; [done|].
  rewrite Eh in Hh. cbn in Hh. destruct Hc as [Hc _]. congruence.
Qed.

(** ** The steps keep it *)

Lemma known_same h k : known h -> known k -> is_holder h k = true -> h = k.
Proof. unfold known. intros H1 H2 [E1 E2]%is_holder_spec. destruct h, k. cbn in *. by subst. Qed.

(** A claim: the client keeps its locks and has the one it may write, or lapses. *)
Lemma lock_claim_ok answers now alive asked c t ls : table_ok t -> client_ok t ls (own_pid c) c -> alive (own_pid c) = true ->
  web_profile_is_ephemeral (normalize_web_profile (Some asked)) = false ->
  let '(c', t', can_write) := claim answers now alive asked c t in
  table_ok t' /\ client_ok t' (opening_lapse answers asked c ++ ls) (own_pid c) c' /\ applied c' = applied c /\
  (forall p d, client_ok t ls p d -> alive p = true -> client_ok t' ls p d) /\
  (can_write = true -> normalize_web_profile (Some asked) ∈ held_profile_write_locks c').
Proof.
  intros Ht Hc Ha Ee. unfold claim, opening_lapse, web_profile_dir. rewrite Ee. set (n := normalize_web_profile (Some asked)) in *.
  destruct (bool_decide (n ∈ held_profile_write_locks c)) eqn:Ein.
  { split_and!; [done|by apply client_ok_more|done|done|intros _; by apply bool_decide_eq_true in Ein]. }
  unfold handle_acquire. fold (holder_of c).
  pose proof (acquire_ok (Some asked) (holder_of c) now alive t Ht (proj1 (proj2 Hc))) as Hto.
  pose proof (acquire_writable (Some asked) (holder_of c) now alive t Ee) as Hw.
  pose proof (fun p d Hd Hp => client_ok_acquire (Some asked) (holder_of c) now alive t ls p d Hd Hp) as Hothers.
  destruct answers; cbn [negb andb].
  - destruct (acquire (Some asked) (holder_of c) now alive t) as [t' o]. cbn in Hto, Hw, Hothers |- *.
    change (writable (profile_write_lock_acquire_response n (holder_of c) o)) with (is_writable o).
    specialize (Hothers (own_pid c) c Hc Ha) as Hc'. destruct (is_writable o); [|done].
    split; [done|]. split; [|split; [done|split; [done|intros _; cbn; apply elem_of_union; left; by apply elem_of_singleton]]].
    destruct Hc' as (H1 & H2 & H3 & H4 & H5). split_and!; [done|done| | |].
    + intros Hr m [->%elem_of_singleton|Hm]%elem_of_union; [right|by apply H3].
      destruct (Hw eq_refl) as (e & He & Eh). exists e. split; [done|]. apply known_same; [|done|done]. by apply (Hto n e).
    + intros x m Hx Hm. destruct (H4 x m Hx Hm) as [?|[-> Hh]]; [by left|right]. split; [done|]. cbn. set_solver.
    + intros m [->%elem_of_singleton|Hm]%elem_of_union; [apply normalize_idemp|by apply H5].
  - destruct (bool_decide (identity_role (identity c) = Active)); cbn [negb andb app]; [|by split_and!].
    split; [done|]. split; [|split; [done|split; [done|intros _; cbn; apply elem_of_union; left; by apply elem_of_singleton]]].
    apply (client_ok_more _ _ [Unanswered (own_pid c) n]) in Hc. destruct Hc as (H1 & H2 & H3 & H4 & H5).
    split_and!; [done|done| | |].
    + intros Hr m [->%elem_of_singleton|Hm]%elem_of_union; [left; by left|by apply H3].
    + intros x m Hx Hm. destruct (H4 x m Hx Hm) as [?|[-> Hh]]; [by left|right]. split; [done|]. cbn. set_solver.
    + intros m [->%elem_of_singleton|Hm]%elem_of_union; [apply normalize_idemp|by apply H5].
Qed.

Lemma open_ok answers opens now alive id asked c t ls : table_ok t -> client_ok t ls (own_pid c) c -> alive (own_pid c) = true ->
  let '(c', t') := open_surface answers opens now alive id asked c t in
  table_ok t' /\ client_ok t' (opening_lapse answers asked c ++ ls) (own_pid c) c' /\
  (forall p d, client_ok t ls p d -> alive p = true -> client_ok t' ls p d).
Proof.
  intros Ht Hc Ha. unfold open_surface, web_profile_dir. destruct (web_profile_is_ephemeral _) eqn:Ee.
  - assert (client_ok t (opening_lapse answers asked c ++ ls) (own_pid c) (set_applied (applied c ++ [mkSurface id asked None]) c)) as Hn.
    { apply (client_ok_more _ _ (opening_lapse answers asked c)) in Hc. destruct Hc as (H1 & H2 & H3 & H4 & H5).
      split; [done|]. split; [done|]. split; [done|]. split; [|done].
      intros x n [Hx| ->%list_elem_of_singleton]%elem_of_app; [by apply H4|done]. }
    destruct opens; [done|]. split; [done|]. split; [by apply client_ok_more|done].
  - pose proof (lock_claim_ok answers now alive asked c t ls Ht Hc Ha Ee) as H.
    destruct (claim answers now alive asked c t) as [[c' t'] can_write]. destruct H as (H1 & H2 & H3 & H4 & H5).
    split; [done|]. split; [|done]. destruct opens; [|done].
    destruct H2 as (A1 & A2 & A3 & A4 & A5). split; [done|]. split; [done|]. split; [done|]. split; [|done].
    intros x n [Hx| ->%list_elem_of_singleton]%elem_of_app; [by apply A4|].
    cbn. destruct can_write; [|done]. intros [= <-]. right. split; [done|]. by apply H5.
Qed.

(** A popup is on the jar of its opener. *)
Lemma popup_ok opener popup tabs c t ls :
  client_ok t ls (own_pid c) c -> client_ok t (popup_lapse opener tabs c ++ ls) (own_pid c) (adopt_popup opener popup tabs c).
Proof.
  intros Hc. unfold popup_lapse, adopt_popup. destruct (List.find _ (applied c)) as [o|] eqn:Eo; [|done].
  destruct (popup_tab_profile tabs opener) as [profile|]; [|done]. apply find_some in Eo as [Eo%list_elem_of_In _].
  set (more := match jar o with Some n => _ | None => _ end).
  pose proof (client_ok_more t ls more _ c Hc) as (H1 & H2 & H3 & H4 & H5). split_and!; [done|done|done| |done].
  intros x n [Hx| ->%list_elem_of_singleton]%elem_of_app; [by apply H4|]. cbn. intros Hj.
  destruct (H4 o n Eo Hj) as [?|[_ Hh]]; [by left|]. unfold more. rewrite Hj.
  destruct (String.eqb_spec n (normalize_web_profile (Some profile))) as [E|E]; [by right|]. left. by left.
Qed.

Lemma release_one_ok c t ls name : table_ok t -> client_ok t ls (own_pid c) c ->
  (forall x, x ∈ applied c -> normalize_web_profile (Some (surface_profile x)) <> name) -> name = normalize_web_profile (Some name) ->
  let '(c', t') := release_one (c, t) name in
  table_ok t' /\ client_ok t' ls (own_pid c) c' /\ applied c' = applied c /\ own_pid c' = own_pid c /\
  (forall p d, client_ok t ls p d -> p <> own_pid c -> client_ok t' ls p d).
Proof.
  intros Ht Hc Hj Hname. unfold release_one, handle_release. fold (holder_of c).
  destruct (release (Some name) (holder_of c) t) as [t' o] eqn:Er. cbn [fst].
  assert (Et : t' = fst (release (Some name) (holder_of c) t)) by by rewrite Er.
  split; [|split; [|split; [done|split; [done|]]]].
  - intros n e He. rewrite Et in He. apply release_entries in He. by apply Ht.
  - destruct Hc as (H1 & H2 & H3 & H4 & H5). split; [done|]. split; [done|]. split; [|split].
    + intros Hr n [Hn Hne]%elem_of_difference. destruct (H3 Hr n Hn) as [?|(e & He & Eh)]; [by left|right]. exists e. split; [|done]. rewrite Et.
      destruct (release_keeps (Some name) (holder_of c) t n e He) as [?|[-> _]]; [done|]. exfalso. apply Hne. rewrite <- Hname. set_solver.
    + intros x n Hx Hn. destruct (H4 x n Hx Hn) as [?|[E Hh]]; [by left|right]. split; [done|]. cbn. specialize (Hj x Hx). set_solver.
    + intros n [Hn _]%elem_of_difference. by apply H5.
  - intros p d Hd Hp. rewrite Et. apply client_ok_release; [done|]. cbn. congruence.
Qed.

Lemma release_all_ok names c t ls : table_ok t -> client_ok t ls (own_pid c) c ->
  (forall x, x ∈ applied c -> normalize_web_profile (Some (surface_profile x)) ∉ names) ->
  (forall n, n ∈ names -> normalize_web_profile (Some n) = n) ->
  let '(c', t') := fold_left release_one names (c, t) in
  table_ok t' /\ client_ok t' ls (own_pid c) c' /\ (forall p d, client_ok t ls p d -> p <> own_pid c -> client_ok t' ls p d).
Proof.
  revert c t. induction names as [|name names IH]; intros c t Ht Hc Hj Hn; cbn [fold_left]; [done|].
  pose proof (release_one_ok c t ls name Ht Hc) as Hone.
  destruct (release_one (c, t) name) as [c1 t1]. destruct Hone as (H1 & H2 & H3 & H4 & H5).
  { intros x Hx E. apply (Hj x Hx). rewrite E. by left. }
  { symmetry. apply Hn. left. }
  rewrite <- H4 in H2. specialize (IH c1 t1 H1 H2). rewrite H3 in IH.
  destruct (fold_left release_one names (c1, t1)) as [c' t']. rewrite H4 in IH. destruct IH as (A1 & A2 & A3).
  { intros x Hx Hin. apply (Hj x Hx). by right. }
  { intros n Hin. apply Hn. by right. }
  split; [done|]. split; [done|]. intros p d Hd Hp. by apply A3; [apply H5|].
Qed.

Lemma end_of_tick_ok c t ls : table_ok t -> client_ok t ls (own_pid c) c ->
  let '(c', t') := end_of_tick c t in
  table_ok t' /\ client_ok t' ls (own_pid c) c' /\ (forall p d, client_ok t ls p d -> p <> own_pid c -> client_ok t' ls p d).
Proof.
  intros Ht Hc. unfold end_of_tick. cbv zeta. pose proof Hc as (_ & _ & _ & _ & H5). apply release_all_ok; [done|done| |].
  - intros x Hx Hin. apply elem_of_stable_sort, elem_of_elements, elem_of_difference in Hin as [_ Hin]. apply Hin.
    apply elem_of_list_to_set, list_elem_of_fmap. by exists x.
  - intros n Hin. apply elem_of_stable_sort, elem_of_elements, elem_of_difference in Hin as [Hin _]. by apply H5.
Qed.

Lemma system_step_ok s s' : ok s -> step s s' -> ok s'.
Proof.
  intros [Ht Hc] Hstep.
  destruct Hstep as [s c Hfresh Hk Hh Ha|s p|s p c answers opens now alive id asked Hp Hsee|s p c opener popup tabs Hp|s p c id Hp
    |s p c Hp|s alive Hsee|s h asked now alive Hp Hk Hsee|s h asked Hp]; unfold ok; cbn [table clients lapses].
  - split; [done|]. intros q d [[<- <-]|[_ Hq]]%lookup_insert_Some; [|by apply Hc].
    split; [done|]. split; [done|]. rewrite Hh, Ha. split; [set_solver|]. split; [by intros x n ?%elem_of_nil|set_solver].
  - split; [done|]. intros q d [_ Hq]%lookup_delete_Some. by apply Hc.
  - destruct (Hc p c Hp) as [<- _]. pose proof (open_ok answers opens now alive id asked c (table s) (lapses s) Ht (Hc _ _ Hp)) as Ho.
    destruct (open_surface _ _ _ _ _ _ _ _) as [c' t']. destruct Ho as (H1 & H2 & H3); [apply Hsee; by eexists|].
    cbn [table clients lapses]. split; [done|]. intros q d [[<- <-]|[_ Hq]]%lookup_insert_Some; [done|].
    apply client_ok_more, H3; [by apply Hc|apply Hsee; by eexists].
  - destruct (Hc p c Hp) as [<- _]. split; [done|]. intros q d [[<- <-]|[_ Hq]]%lookup_insert_Some; [by apply popup_ok, Hc|].
    by apply client_ok_more, Hc.
  - split; [done|]. intros q d [[<- <-]|[_ Hq]]%lookup_insert_Some; [|by apply Hc].
    destruct (Hc p c Hp) as (H1 & H2 & H3 & H4 & H5). split; [done|]. split; [done|]. split; [done|]. split; [|done].
    intros x n Hx. apply H4. cbn in Hx. apply list_elem_of_In, filter_In in Hx as [Hx _]. by apply list_elem_of_In.
  - destruct (Hc p c Hp) as [<- _]. pose proof (end_of_tick_ok c (table s) (lapses s) Ht (Hc _ _ Hp)) as Ho.
    destruct (end_of_tick c (table s)) as [c' t']. destruct Ho as (H1 & H2 & H3).
    cbn [table clients lapses]. split; [done|]. intros q d [[<- <-]|[Hne Hq]]%lookup_insert_Some; [done|]. apply H3; [by apply Hc|done].
  - cbn [handle_report fst]. split; cbn [table clients lapses].
    + intros n e [He _]%reap_dead_lookup. by apply Ht.
    + intros q d Hq. apply (client_ok_table (table s)); [by apply Hc|]. intros _ n e _ He Eh. apply reap_dead_lookup. split; [done|].
      rewrite Eh. cbn. destruct (Hc q d Hq) as [-> _]. apply Hsee. by eexists.
  - split; [by apply acquire_ok|]. intros q d Hq. apply client_ok_acquire; [by apply Hc|]. apply Hsee. by eexists.
  - split; [intros n e He%release_entries; by apply Ht|]. intros q d Hq. apply client_ok_release; [by apply Hc|].
    intros E. cbn in Hq. congruence.
Qed.

Lemma reachable_ok s : reachable s -> ok s.
Proof.
  induction 1 as [|s s' _ IH Hstep]; [|by eapply system_step_ok]. split; [by intros n e|by intros p c].
Qed.

(** The lock of a page that an active client has open, unless it lapsed. *)
Lemma open_page_locked s p c x n : ok s -> clients s !! p = Some c -> identity_role (identity c) = Active -> x ∈ applied c -> jar x = Some n ->
  lapsed s p n \/ own_pid c = p /\ known (holder_of c) /\ exists e, table s !! n = Some e /\ holder e = holder_of c.
Proof.
  intros [_ Hc] Hp Ha Hx Hn. destruct (Hc p c Hp) as (H1 & H2 & H3 & H4 & _). unfold lapsed.
  destruct (H4 x n Hx Hn) as [?|[_ Hh]]; [by left; right|]. destruct (H3 Ha n Hh) as [?|He]; [by left; left|]. by right.
Qed.

(** C28: under one daemon, two active clients have pages open on the same jar only if one of them took the
    jar's lock for its own when its claim was not answered, or adopted a popup of a page on it under another
    profile, however they start, end, claim, open, close and release and whatever is reported; a verb of a
    shadow goes through only while no active client has a page on the jar, with the same two exceptions; and
    a claim is refused only for a process that lives and that the claimant may not displace.  A client id
    belongs to one role, and the daemon sees the clients that live. *)
Theorem one_active_writer s (Hreach : reachable s) :
  (forall p1 c1 p2 c2 x1 x2 n, clients s !! p1 = Some c1 -> clients s !! p2 = Some c2 ->
     identity_role (identity c1) = Active -> identity_role (identity c2) = Active ->
     x1 ∈ applied c1 -> x2 ∈ applied c2 -> jar x1 = Some n -> jar x2 = Some n ->
     p1 = p2 \/ lapsed s p1 n \/ lapsed s p2 n) /\
  (forall p c asked is_alive, clients s !! p = Some c -> identity_role (identity c) = Shadow -> sees is_alive s ->
     web_profile_is_ephemeral (normalize_web_profile (Some asked)) = false ->
     shadow_gate c (Some asked) (Some (snd (handle_report is_alive (table s)))) = true ->
     forall q d x n, clients s !! q = Some d -> identity_role (identity d) = Active -> x ∈ applied d -> jar x = Some n ->
       n <> normalize_web_profile (Some asked) \/ lapsed s q n) /\
  (forall asked h now is_alive k, snd (acquire asked h now is_alive (table s)) = Busy k ->
     is_alive (pid k) = true /\ is_holder k h = false /\ (role h = Active -> role k = Active)).
Proof.
  pose proof (reachable_ok s Hreach) as Hok. split; [|split].
  - intros p1 c1 p2 c2 x1 x2 n Hp1 Hp2 Ha1 Ha2 Hx1 Hx2 Hn1 Hn2.
    destruct (open_page_locked s p1 c1 x1 n Hok Hp1 Ha1 Hx1 Hn1) as [?|(<- & _ & e1 & He1 & E1)]; [by right; left|].
    destruct (open_page_locked s p2 c2 x2 n Hok Hp2 Ha2 Hx2 Hn2) as [?|(<- & _ & e2 & He2 & E2)]; [by right; right|].
    left. simplify_eq. rewrite E1 in E2. by injection E2.
  - intros p c asked alive Hp Hs Hsee Ee Hgate q d x n Hq Hd Hx Hj.
    destruct (open_page_locked s q d x _ Hok Hq Hd Hx Hj) as [?|(_ & Hkd & e & He & Eh)]; [by right|left]. intros ->.
    unfold shadow_gate in Hgate. rewrite Hs, Ee in Hgate. unfold write_lock_report_holds in Hgate. apply existsb_exists in Hgate as ([[m i] k] & Hin & Hmi).
    cbn [handle_report snd locks] in Hin. apply in_map_iff in Hin as (e' & [= <- <- <-] & Hin).
    apply list_elem_of_In, elem_of_lock_entries in Hin as [m' [Hm' _]%reap_dead_lookup].
    apply andb_true_iff in Hmi as [Em%String.eqb_eq Ei%String.eqb_eq]. destruct Hok as [Ht Hc]. destruct (Ht m' e' Hm') as [Hke Epf].
    rewrite Epf in Em. subst m'. assert (e' = e) as -> by congruence. unfold known in *. rewrite Eh in *.
    destruct (Hc p c Hp) as (_ & Hkc & _). unfold known, holder_of in *. cbn in *. congruence.
  - intros asked h now alive k. unfold acquire. destruct (web_profile_is_ephemeral _); [done|].
    destruct (table s !! _) as [current|]; [|done]. destruct (is_holder _ h) eqn:Eh; [done|]. destruct (alive _) eqn:Ea; [|done].
    destruct (bool_decide (role h = Active)) eqn:Er; cbn [andb].
    + destruct (bool_decide (role (holder current) = Shadow)) eqn:Es; [done|]. cbn. intros [= <-]. split; [done|]. split; [done|].
      intros _. apply bool_decide_eq_false in Es. by destruct (role (holder current)).
    + cbn. intros [= <-]. split; [done|]. split; [done|]. intros E. by apply bool_decide_eq_false in Er.
Qed.

End System.

(** * Two windows and a shadow *)

Module Windows.

Definition role_of (id : string) : ClientRole := if String.prefix "shadow" id then Shadow else Active.

Definition window (id : string) (r : ClientRole) (p : N) : Client := mkClient (mkIdentity r (Some id)) p ∅ [].

Definition everyone (_ : N) : bool := true.

Definition gui : Client := window "gui" Active 100.
Definition second_gui : Client := window "gui-2" Active 200.
Definition shadow_view : Client := window "shadow-1" Shadow 300.

Definition page (answers : bool) (id : N) (ct : Client * ProfileWriteLockTable) : Client * ProfileWriteLockTable :=
  open_surface answers true 0 everyone id "work" (fst ct) (snd ct).

Definition jars (c : Client) : list (option string) := map jar (applied c).

(** The second window gets no jar; a shadow is displaced. *)
Example second_gui_has_no_jar : let '(a, t) := page true 1 (gui, ∅) in jars a = [Some "work"] /\ jars (fst (page true 2 (second_gui, t))) = [None].
Proof. by vm_compute. Qed.

(** A shadow that has lost the lock still opens pages on the jar, since it asks no more. *)
Example displaced_shadow_keeps_writing :
  let '(v, t) := page true 1 (shadow_view, ∅) in let '(a, t) := page true 2 (gui, t) in let '(v, t) := page true 3 (v, t) in
  jars a = [Some "work"] /\ jars v = [Some "work"; Some "work"].
Proof. by vm_compute. Qed.

(** The table is a daemon's own: one that takes over, or runs beside it, knows no holder. *)
Example another_daemon_grants_again :
  let '(a, _) := page true 1 (gui, ∅) in let '(b, _) := page true 2 (second_gui, ∅) in jars a = [Some "work"] /\ jars b = [Some "work"].
Proof. by vm_compute. Qed.

(** An active client that gets no answer writes all the same. *)
Example unanswered_writes : let '(a, t) := page true 1 (gui, ∅) in jars (fst (page false 2 (second_gui, t))) = [Some "work"].
Proof. by vm_compute. Qed.

(** A popup adopted after its opener's tab is gone is kept for the profile of the session's first tab: its
    own jar is let go of while it is open, and the next window is granted it. *)
Example popup_outlives_the_lock :
  let '(a, t) := page true 1 (gui, ∅) in
  let '(a, t) := open_surface true true 0 everyone 2 "home" a t in
  let '(a, t) := end_of_tick (close_surface 1 (adopt_popup 1 3 [(2%N, "home")] a)) t in
  let '(b, t) := page true 4 (second_gui, t) in
  jars a = [Some "home"; Some "work"] /\ jars b = [Some "work"].
Proof. by vm_compute. Qed.

(** The report names no process: a shadow passes on the lock of another with its name. *)
Example gate_asks_the_name_only :
  let '(_, t) := page true 1 (shadow_view, ∅) in
  shadow_gate (window "shadow-1" Shadow 301) (Some "work") (Some (snd (handle_report everyone t))) = true.
Proof. by vm_compute. Qed.

Definition started : System := mkSystem ∅ (<[200 := second_gui]> (<[100 := gui]> ∅)) [].

Definition one_window : System :=
  let '(a, t) := open_surface true true 0 everyone 1 "work" gui (table started) in mkSystem t (<[100 := a]> (clients started)) [].

Definition two_windows : System :=
  let '(b, t) := open_surface true true 1 everyone 2 "work" second_gui (table one_window) in mkSystem t (<[200 := b]> (clients one_window)) [].

Lemma started_reachable : reachable role_of started.
Proof.
  apply (reachable_step role_of (mkSystem ∅ (<[100 := gui]> ∅) [])).
  - apply (reachable_step role_of (mkSystem ∅ ∅ [])); [apply reachable_nobody|].
    exact (step_start role_of (mkSystem ∅ ∅ []) gui eq_refl eq_refl eq_refl eq_refl).
  - exact (step_start role_of (mkSystem ∅ (<[100 := gui]> ∅) []) second_gui eq_refl eq_refl eq_refl eq_refl).
Qed.

Lemma two_windows_reachable : reachable role_of two_windows.
Proof.
  apply (reachable_step role_of one_window); [apply (reachable_step role_of started); [exact started_reachable|]|].
  - apply (step_open role_of started 100 gui true true 0 everyone 1 "work"); [by vm_compute|done].
  - apply (step_open role_of one_window 200 second_gui true true 1 everyone 2 "work"); [by vm_compute|done].
Qed.

Lemma one_active_writer_witness :
  (reachable role_of two_windows /\ jars <$> (clients two_windows !! 100) = Some [Some "work"] /\
   jars <$> (clients two_windows !! 200) = Some [None]) /\
  (forall p1 c1 p2 c2 x1 x2 n, clients two_windows !! p1 = Some c1 -> clients two_windows !! p2 = Some c2 ->
     identity_role (identity c1) = Active -> identity_role (identity c2) = Active ->
     x1 ∈ applied c1 -> x2 ∈ applied c2 -> jar x1 = Some n -> jar x2 = Some n -> p1 = p2).
Proof.
  split; [split; [exact two_windows_reachable|by vm_compute]|].
  intros p1 c1 p2 c2 x1 x2 n H1 H2 H3 H4 H5 H6 H7 H8.
  destruct (proj1 (one_active_writer role_of two_windows two_windows_reachable) p1 c1 p2 c2 x1 x2 n H1 H2 H3 H4 H5 H6 H7 H8)
    as [?|[[Hl|Hl]|[Hl|Hl]]]; [done|by apply elem_of_nil in Hl..].
Defined.

End Windows.
